(* ===== verification/_CoqProject ===== *)
-Q . S2P
Prelude.v
Effect.v
Float64.v
Rounding.v
GoTime.v
Strconv.v
GoStrings.v
PosText.v
ParseFloat.v
Calendar.v
TimeText.v
Histogram.v
Series.v
Profiles.v
Pricing.v
Tier.v
Quantity.v
Kube.v
Ledger.v
Limit.v
Adapt.v
Kernel.v
Adaptation.v
Shutdown.v
Checkpoint.v
LogicalKey.v
Encoding.v
Keyring.v
KeyringFacts.v
Identity.v
KeyringFile.v
Material.v
Bundle.v
Vault.v
Holder.v
HolderFacts.v
Slices.v
Cipher.v
Names.v
Blob.v
Stream.v
Envelope.v
Provider.v
Usage.v
Store.v
StoreFacts.v
Server.v
ServerFacts.v
Net.v
Armor.v
Bucket.v
Manifest.v
EgressPolicy.v
Allowlist.v
Event.v
Proxy.v
FatLine.v
Issuance.v
Inspector.v
Contract.v
Monitor.v
Replica.v
Keeper.v
Enrolment.v
HandOver.v
Fleet.v
HandOverFacts.v
Sdk.v
Application.v
Translate.v
TranslateFacts.v
Deploy.v
DeployFacts.v
Rekey.v
RekeyFacts.v
