(* ===== verification/Prelude.v ===== *)
(** * FarCast, verified

    FarCast runs an organisation's applications on a cloud it rents.  This
    development models, from the Go source under [src], the programs in which a
    mistake costs most, as executable definitions, and proves what they promise:
    TechnoCore spends the money and can stop applications to limit it; DataSphere
    holds the keys under which everything the applications store is encrypted;
    FatLine decides which hosts an application may reach and Shrike watches it
    do so; the command line hands the keys over, rotates them and keeps the
    keyholders supplied; Planck turns a manifest into what the cluster runs; and the
    SDK is how an application reads and writes.

    ** How to read it

    Each file models the source files its first comment names, and keeps their
    names; a definition follows the code branch by branch, errors included.  A
    function that may fail returns a [result]; a method that changes its receiver,
    draws randomness or calls a service is a function from a state to a result and
    a state ([Effect.eff]): what was changed before an error stays changed.
    Integers have Go's widths ([u64], [i64] of this file, [u32] of [Stream]);
    [float64] is IEEE binary64, computed ([Float64]); an instant is its nanoseconds
    since the epoch; a string and a byte slice are bytes.  Where slices are shared
    and wiped, an explicit memory of arrays is threaded ([Material]).  Maps are
    stdpp's, and the order a [range] visits one in is a parameter, [GoRange].
    Where goroutines meet, a component is a step relation ([Holder], [Event]) or
    its operations are given apart, to be interleaved ([FatLine]).

    ** The parts

    Shared: [Prelude] (results, words, maps, sorts, tactics), [Effect] (state and
    errors, their rules), [Float64] and [Rounding] (binary64 and its error bounds),
    [GoTime], [Calendar] and [TimeText] (instants, the UTC calendar, RFC 3339),
    [Strconv], [ParseFloat], [GoStrings], [Slices], [Encoding] and [Net] (the
    standard library's text, bytes, case folding and addresses), [PosText] (values
    as text, for the examples of codecs).

    TechnoCore, the kernel.  [Kernel] is the tick: it lists pods and deployments
    through the cluster, attributes and prices them ([Kube], [Quantity], [Tier],
    [Pricing]), samples usage ([Histogram], [Series], [Profiles]), accrues the
    elapsed interval in the ledger and takes in the provider's confirmations
    ([Ledger]), and assesses the total against the limit ([Limit]).  Of its reports
    [Shutdown] decides what may be stopped and [Adaptation] what is resized, on the
    advice of [Adapt]; [Checkpoint] is what survives a restart.

    DataSphere, the store.  [LogicalKey] and [Names] are an object's name in the
    clear and in the cloud; [Blob] and [Stream] its two stored forms; [Provider]
    what a cloud adapter promises, [Store] the encrypting store over it and [Usage]
    what can be counted without keys.  [Cipher] states what is relied on of AES-GCM,
    HKDF and HMAC.

    DataSphere, the keys.  [Keyring] are scopes and keyrings, [KeyringFile] their
    file, [Material] their bytes in memory, [Bundle] what is handed to a keyholder,
    [Armor] a keyring or a packet sealed under a passphrase, [Bucket] the name minted
    for an instance's bucket and the registry of providers.

    DataSphere, the keyholder.  [Vault] is its state machine, [Holder] its process
    with requests in flight, [Envelope] how a bundle reaches it, [Identity] who may
    do what and [Server] its HTTP surfaces: a request is resolved to a scope of the
    vault, a store is built over a copy of that scope's keys, and the copy is wiped
    when the request ends.

    Manifests.  [Manifest] is the parser of the file an application is described
    by: the hosts it declares there are those FatLine lets it reach.  [Translate] is
    Planck's translation of one into Kubernetes documents, the template line by line.

    FatLine, the way out.  [EgressPolicy] is the document of credentials and
    declared hosts, [Allowlist] what is looked up, [Proxy] a request from its
    credential to the bytes it relays, [Event] the record of it on its way out,
    [FatLine] the server that holds the document and the allowlist and watches the
    file, with its relays; [Issuance] is who its certificates say a caller is.

    Shrike, the watch.  [Contract] is what was declared, [Inspector] what is made of
    each event, [Monitor] the process, with both ends of the wire between.

    The command line.  [Replica] is what its client makes of a keyholder's answers,
    and the ledger of pushes; [Keeper] a device that re-seeds replicas which
    restarted; [Enrolment] how such a device is packed for, set up on its own drive
    and struck off; [HandOver] the two-stage push of a changed keyring.  [Fleet] states
    as a class what the hand-over relies on of the replicas, and discharges it with
    replicas that are vaults ([Vault], [Server]) behind a network that loses
    requests, loses answers and restarts them.  [Rekey] is what the state command says
    of a replica beside this keyring, and the moving of every object to the newest
    keys behind its gate; [Deploy] is a deployment, from the egress policy it mints
    credentials into, through the scopes it mints into the keyring, to the workloads.

    The applications.  [Sdk] is the Go SDK: storage over HTTP with the errors an
    application distinguishes, secrets, and typed configuration.  [Application]
    puts it, over a network that loses requests and answers and tears bodies, in
    front of the keyholder of [Server].

    The files ending in [Facts] hold a component's theorems where they would
    crowd its definitions.

    ** What the theorems show

    Money: ticks bill every instant once, a tick that fails bills nothing, an
    accrual is spread over its hours, the ledger keeps its shape under every
    operation, and the kernel acts exactly at the limit ([Kernel], [Ledger],
    [Limit]); a shutdown stops applications and nothing else, a resize is guarded
    ([Shutdown], [Adaptation]); quantiles are those of the samples ([Histogram]); a
    restart resumes where the checkpoint was ([Checkpoint], [Ledger]).

    Data: what was sealed opens as what it was, and what opens was sealed, for that
    key and position ([Blob], [Stream]); sealing and opening a stream end
    ([Stream]); the store is a map whatever fails under it, its listing leaves
    nothing out, a stream is stored whole, a rekey loses nothing ([StoreFacts]);
    every object is counted ([Usage]).

    Keys: a merge only adds, a rotation keeps old objects readable, one scope owns a
    key ([KeyringFacts]); an exported keyring moves whole, and no file edited to cost
    less opens ([Armor]); a minted name is one the clouds take ([Bucket]); files and bundles read back as what was written
    ([KeyringFile], [Bundle]).

    The keyholder: shared arrays never show (it refines a process that keeps keys by
    value), a request keeps its keys through every seal under it, sealing wipes
    them, an unseal is all or nothing, keepers can only reseed, and an operator can
    always restore service ([HolderFacts]); a challenge opens one envelope
    ([Envelope]); who may change the vault, what a data request can reach, that a
    sealed keyholder never says "not found", and what errors disclose
    ([ServerFacts]).

    Egress: a connection is opened only to a host its application declared, under
    the name it declared ([Proxy]); a manifest is accepted exactly when it is well
    formed ([Manifest]), and what it declares is reached ([FatLine]); the newest
    document that parses is enforced, and a request between the two halves of a
    reload is held to one of the two ([FatLine]); the document is delivered as it
    was written ([EgressPolicy]); an identity that was issued is recognised
    ([Issuance]).

    The record of egress: every event is delivered, waiting or counted as dropped
    ([Event]), also across the wire ([Monitor]); rows count exactly the traffic and
    alerts follow severities and their window ([Inspector]); declared traffic is
    never reported as drift ([Monitor]).

    Fleets: a hand-over never leaves two replicas that cannot read each other's
    writes, whatever is lost or restarts, and one that says it is complete is
    ([HandOverFacts]); a keeper re-seeds only what agrees with every serving
    replica, within its budget in every window, and the audit counts what the
    ledger holds ([Keeper]); a device that is enrolled and installed can re-seed, and
    its key material stays private to its owner ([Enrolment]); the state that is shown
    promises exactly what an unseal does, and a rekey moves objects only to keys every
    serving replica uses, losing none ([RekeyFacts]).

    Deployments: what is rendered is what was asked for, and the SDK, TechnoCore and
    FatLine find in it what they look for; a manifest that parsed is refused only
    for what its operator adds to it ([TranslateFacts]).  What a deployment writes into
    the policy, the keyring and the workloads agrees, and keeps every other
    deployment's; one that fails starts nothing ([DeployFacts]).

    Applications: what the SDK reports of a read, a write, a delete or a listing is
    so whatever the network does, and secrets are read and never written
    ([Application]).

    Recorded beside their theorems, where the code does not do what it means to or
    what its comments say: two applications may compose one scope name
    ([Identity.two_applications_one_name]); advice may stay below the floor
    ([Adapt.step_stops_short_of_the_floor]); a second entry for an application
    shadows its first ([EgressPolicy.a_tenant_can_be_shadowed]); a policy written
    while FatLine starts is missed ([FatLine.policy_arriving_at_start_is_missed]);
    a request may be recorded as allowed and as denied
    ([Proxy.a_request_may_be_decided_twice]); a reload has a window
    ([FatLine.reload_has_a_window]); a relay that fails counts as a violation and
    one that succeeds shows no bytes ([Monitor.a_failed_relay_is_a_violation],
    [Monitor.relays_lose_their_bytes]); a torn ledger line takes the next with it
    ([Keeper.a_torn_line_swallows_the_next]); a secrets prefix may name a
    subtree the keyholder does not protect
    ([Application.a_secrets_prefix_may_be_unprotected]); a name may be read as no
    string ([TranslateFacts.a_name_may_read_as_null]), and storage given without the
    instance's certificate is left out in silence
    ([TranslateFacts.storage_without_a_certificate_is_dropped]); a deployment that fails
    after its policy was written cuts off what still runs
    ([DeployFacts.a_failed_deployment_cuts_off_what_runs]), and one may be given another
    application's scope ([DeployFacts.a_deployment_may_get_anothers_scope]).

    ** Parameters, fuel and bounds

    Code outside the repository is a class or an argument, with laws where a theorem
    needs them: the cluster and the stores of [Kernel] and [Checkpoint], [Provider],
    [Cipher], [KeyAgreement], [Entropy], [Sha256], the certificate authority [CA],
    the parser of a ClientHello, Unicode's [CaseTables], and the YAML and JSON
    libraries ([Yaml], [BundleYaml], [ManifestYaml], [PolicyJson], [EventJson],
    [LedgerJson], [ReplyJson], [BodyJson], [ArmorYaml], [PacketYaml]), which are only assumed to read back
    what they wrote; [Tls] loads key material and [UpperTable] is Unicode's;
    [Pbkdf2] derives a key from a passphrase, [LeafPem] is a leaf's text and expiry, and
    [Platform] what a device's system says of its folders.  A device's drive is a
    map of files with the faults its operations will meet ([Enrolment]); the keyring's
    file is its text, with what another command writes to it before it is replaced, and
    the cluster the manifests it took, with how it receives the next ([Deploy]).  The reading
    of YAML in [TranslateFacts] -- documents, flat mappings, blocks -- is a
    specification of what the templates write, not of a YAML library.
    [CipherLaws] is an ideal cipher: opening succeeds only on what was sealed under
    that key, nonce and associated data, and nothing is said of secrecy.  Every
    class has an instance here, on which the witnesses compute.

    Loops that are not structural carry fuel, and a theorem or a lemma that it is
    enough: one more than the bytes left to read in [Stream] ([streams_terminate]),
    the hours of an interval in [Ledger] ([accrue_spreads]), the profiles' hours in
    [Profiles].

    ** What is not modelled

    Logging, metrics, contexts and cancellation, goroutines other than those of
    [Holder] and [Event] (the pipe of a streamed write is the bytes and the error
    that pass through it), and TLS and HTTP framing.  Of
    TechnoCore: the Kubernetes client and the ConfigMap codecs, deployment and
    process wiring.  Of DataSphere: the Google Cloud adapter, deployment and process
    wiring.  Of FatLine and Shrike: the tunnel,
    the minting of certificates, listeners, flags and status pages.  Of the command
    line: everything but the hand-over, rekeying, deploying (from the policy to
    the workloads), the keeper's enrolment, passes and audit, and the ledger.  Of the SDK: its logger, request identifiers and stubs.  Of Planck:
    builds, source fetching and the GKE provider.  The SDKs for other languages are
    placeholders. *)

From stdpp Require Export base gmap strings list sorting sets.
From Stdlib Require Export ZArith Lia ZifyBool.

#[global] Open Scope Z_scope.
#[global] Set Default Goal Selector "!".
#[global] Set Warnings "-clear-no-such-hyp".

(** The development's notations: [m.[k]] is Go's [m[k]] on a map to strings, the
    empty string where there is no entry. *)
Declare Scope go_scope.
Delimit Scope go_scope with go.
#[global] Open Scope go_scope.
Notation "m .[ k ]" := (default ""%string (m !! k)) (at level 1, left associativity, format "m .[ k ]") : go_scope.

(** Facts of Go's orders, sorts and words that proofs leave to [auto with go]. *)
Create HintDb go.

(** * Results: Go functions that return [(T, error)] *)

Inductive result (E A : Type) : Type :=
| Ok (a : A)
| Err (e : E).
Arguments Ok {E A} a.
Arguments Err {E A} e.

#[export] Instance result_ret {E} : MRet (result E) := fun A a => Ok a.
#[export] Instance result_bind {E} : MBind (result E) := fun A B f m =>
  match m with Ok a => f a | Err e => Err e end.
#[export] Instance result_fmap {E} : FMap (result E) := fun A B f m =>
  match m with Ok a => Ok (f a) | Err e => Err e end.

(** A sequence that succeeded, step by step. *)
Lemma bind_ok {E A B} (m : result E A) (f : A -> result E B) b :
  m ≫= f = Ok b <-> exists a, m = Ok a /\ f a = Ok b.
Proof. destruct m; cbn; split; [eauto|intros (? & [= ->] & ?); done|done|by intros (? & [=] & ?)]. Qed.

Tactic Notation "ok_inv" hyp(H) "as" simple_intropattern(x) simple_intropattern(Hx) :=
  apply bind_ok in H; destruct H as (x & Hx & H).

#[export] Instance result_eq_dec {E A} `{EqDecision E, EqDecision A} :
  EqDecision (result E A).
Proof. solve_decision. Defined.

(** [fmt.Errorf("...%w", err)]: the error under another. *)
Definition wrapErr {E E' A} (f : E -> E') (x : result E A) : result E' A :=
  match x with Ok a => Ok a | Err e => Err (f e) end.

Definition is_ok {E A} (m : result E A) : bool :=
  match m with Ok _ => true | Err _ => false end.

(** Run a fallible step over a list, threading the state (a Go [for] loop whose
    body may [return err]). *)
Fixpoint foldM {E S A} (f : S -> A -> result E S) (s : S) (l : list A) : result E S :=
  match l with
  | [] => Ok s
  | x :: l => match f s x with Ok s' => foldM f s' l | Err e => Err e end
  end.

Lemma foldM_app {E S A} (f : S -> A -> result E S) s l k :
  foldM f s (l ++ k) = (s' ← foldM f s l; foldM f s' k).
Proof.
  revert s; induction l as [|x l IH]; intros s; cbn; [done|].
  destruct (f s x); [apply IH|done].
Qed.

(** An invariant every successful step keeps holds at the end of the loop. *)
Lemma foldM_inv {E S A} (P : S -> Prop) (f : S -> A -> result E S) l s s' :
  (forall s x s', x ∈ l -> P s -> f s x = Ok s' -> P s') ->
  P s -> foldM f s l = Ok s' -> P s'.
Proof.
  revert s; induction l as [|x l IH]; intros s Hf Hs Hr; cbn in Hr.
  - by injection Hr as ->.
  - destruct (f s x) as [s1|] eqn:E1; [|done].
    eapply (IH s1); [|eapply (Hf s x); [by left|exact Hs|exact E1]|exact Hr].
    intros s2 y s3 Hy; eapply Hf; by right.
Qed.

(** * Machine integers *)

Definition u64 (z : Z) : Z := z mod 2 ^ 64.
Definition i64 (z : Z) : Z := (z + 2 ^ 63) mod 2 ^ 64 - 2 ^ 63.

Lemma u64_small z : 0 <= z < 2 ^ 64 -> u64 z = z.
Proof. intros; unfold u64; apply Z.mod_small; lia. Qed.

Lemma u64_range z : 0 <= u64 z < 2 ^ 64.
Proof. unfold u64; apply Z.mod_pos_bound; lia. Qed.

Lemma u64_add_l a b : u64 (u64 a + b) = u64 (a + b).
Proof. unfold u64; apply Zplus_mod_idemp_l. Qed.

Lemma u64_add_r a b : u64 (a + u64 b) = u64 (a + b).
Proof. unfold u64; apply Zplus_mod_idemp_r. Qed.

Lemma i64_small z : - 2 ^ 63 <= z < 2 ^ 63 -> i64 z = z.
Proof. intros; unfold i64; rewrite Z.mod_small; lia. Qed.

Lemma i64_add_l a b : i64 (i64 a + b) = i64 (a + b).
Proof.
  assert (exists q, i64 a = a + q * 2 ^ 64) as [q ->].
  { exists (- ((a + 2 ^ 63) / 2 ^ 64)). unfold i64. pose proof (Z.div_mod (a + 2 ^ 63) (2 ^ 64)). lia. }
  unfold i64. replace (a + q * 2 ^ 64 + b + 2 ^ 63) with (a + b + 2 ^ 63 + q * 2 ^ 64) by lia. by rewrite Z_mod_plus_full.
Qed.

Lemma i64_add_r a b : i64 (a + i64 b) = i64 (a + b).
Proof. by rewrite Z.add_comm, i64_add_l, Z.add_comm. Qed.

Lemma i64_idem a : i64 (i64 a) = i64 a.
Proof. pose proof (i64_add_l a 0) as Ha. by rewrite !Z.add_0_r in Ha. Qed.

(** * Go maps

    [for k, v := range m] visits the entries of a map in an order the language
    leaves open.  A development that fixed one order would prove facts about
    that order; the model takes the order as an interface instead, and every
    theorem holds for any order that enumerates each entry once. *)
Class GoRange := {
  go_range : forall {K V : Type} `{Countable K}, gmap K V -> list (K * V);
  go_range_perm : forall {K V : Type} `{Countable K} (m : gmap K V),
    go_range m ≡ₚ map_to_list m
}.

#[export] Instance range_in_key_order : GoRange | 100.
Proof. exists (fun K V _ _ => map_to_list). done. Defined.

Section range.
Context `{GoRange} {K V : Type} `{Countable K}.

Lemma elem_of_go_range (m : gmap K V) k v : (k, v) ∈ go_range m <-> m !! k = Some v.
Proof. rewrite go_range_perm. apply elem_of_map_to_list. Qed.

Lemma NoDup_go_range (m : gmap K V) : NoDup (go_range m).*1.
Proof. rewrite go_range_perm. apply NoDup_fst_map_to_list. Qed.

Lemma go_range_empty : go_range (∅ : gmap K V) = [].
Proof. apply Permutation_nil_r. by rewrite go_range_perm, map_to_list_empty. Qed.

End range.

(** ** Loops that fill a map

    [for k, v := range m { out[f(k)] = v }] and its fallible form. *)

Section fill.
Context {K K' V : Type} `{Countable K, Countable K'}.

Definition fill (f : K -> K') (l : list (K * V)) (m : gmap K' V) : gmap K' V :=
  fold_left (fun m '(k, v) => <[f k := v]> m) l m.

Lemma fill_other (f : K -> K') (l : list (K * V)) m k' :
  (forall k v, (k, v) ∈ l -> f k ≠ k') -> fill f l m !! k' = m !! k'.
Proof.
  unfold fill. revert m. induction l as [|[k v] l IH]; intros m Hf; [done|]. cbn.
  rewrite IH.
  - apply lookup_insert_ne. apply (Hf k v). by left.
  - intros k0 v0 Hin. apply (Hf k0 v0). by right.
Qed.

(** Every entry of the result was there before or came from the list. *)
Lemma fill_inv (f : K -> K') (l : list (K * V)) m k' v :
  fill f l m !! k' = Some v -> m !! k' = Some v \/ exists k, (k, v) ∈ l /\ f k = k'.
Proof.
  unfold fill. revert m. induction l as [|[k0 v0] l IH]; intros m Hk; [by left|]. cbn in Hk.
  apply IH in Hk as [Hk|(k & Hin & Hf)]; [|right; exists k; split; [by right|done]].
  apply lookup_insert_Some in Hk as [[Hk ->]|[_ Hk]]; [right|by left].
  exists k0. split; [by left|done].
Qed.

Lemma fill_lookup (f : K -> K') (l : list (K * V)) m k v :
  NoDup l.*1 -> (forall k1 v1, (k1, v1) ∈ l -> f k1 = f k -> k1 = k) ->
  (k, v) ∈ l -> fill f l m !! f k = Some v.
Proof.
  revert m. induction l as [|[k0 v0] l IH]; intros m Hnd Hinj Hin; [by apply not_elem_of_nil in Hin|].
  cbn in Hnd. apply NoDup_cons in Hnd as [Hni Hnd].
  apply elem_of_cons in Hin as [[= <- <-]|Hin].
  - change (fill f ((k, v) :: l) m) with (fill f l (<[f k := v]> m)).
    rewrite fill_other; [apply lookup_insert_eq|].
    intros k1 v1 Hin1 Heq. apply Hni.
    assert (k1 = k) as <- by (eapply Hinj; [by right|done]).
    by apply (list_elem_of_fmap_2 fst) in Hin1.
  - apply (IH (<[f k0 := v0]> m)); [done| |done].
    intros k1 v1 Hin1. eapply Hinj. by right.
Qed.

Lemma foldM_fill {E} (step : gmap K' V -> K * V -> result E (gmap K' V)) (f : K -> K') l m :
  (forall m k v, (k, v) ∈ l -> step m (k, v) = Ok (<[f k := v]> m)) ->
  foldM step m l = Ok (fill f l m).
Proof.
  revert m. induction l as [|[k v] l IH]; intros m Hs; cbn; [done|].
  rewrite Hs by by left. apply IH. intros ??? ?. apply Hs. by right.
Qed.

End fill.

(** Renaming the keys of a map by [f] and back by [g] gives the map back. *)
Lemma fill_roundtrip `{GoRange} {K K' V} `{Countable K, Countable K'}
    (f : K -> K') (g : K' -> K) (m : gmap K V) :
  (forall k, is_Some (m !! k) -> g (f k) = k) ->
  fill g (go_range (fill f (go_range m) ∅)) ∅ = m.
Proof.
  intros Hgf.
  assert (Hto : forall k v, m !! k = Some v -> fill f (go_range m) ∅ !! f k = Some v).
  { intros k v Hk. apply fill_lookup.
    - apply NoDup_go_range.
    - intros k1 v1 Hin%elem_of_go_range Hf.
      rewrite <- (Hgf k1), <- (Hgf k), Hf by eauto. done.
    - by apply elem_of_go_range. }
  assert (Hfrom : forall k' v, fill f (go_range m) ∅ !! k' = Some v ->
    exists k, k' = f k /\ m !! k = Some v).
  { intros k' v Hk'.
    destruct (decide (Exists (fun p => f p.1 = k') (go_range m))) as [He|Hn].
    - apply Exists_exists in He as ([k v'] & Hin%elem_of_go_range & Hf). cbn in Hf. subst k'.
      exists k. rewrite (Hto _ _ Hin) in Hk'. naive_solver.
    - rewrite fill_other, lookup_empty in Hk'; [done|].
      intros k v0 Hin Hf. apply Hn, Exists_exists. by exists (k, v0). }
  apply map_eq. intros k. destruct (m !! k) as [v|] eqn:E.
  - rewrite <- (Hgf k) at 1 by eauto. apply fill_lookup.
    + apply NoDup_go_range.
    + intros k1 v1 (k0 & -> & Hk0)%elem_of_go_range%Hfrom. rewrite !Hgf by eauto. by intros ->.
    + by apply elem_of_go_range, Hto.
  - rewrite fill_other; [by rewrite lookup_empty|].
    intros k1 v1 (k0 & -> & Hk0)%elem_of_go_range%Hfrom. rewrite Hgf by eauto. congruence.
Qed.

(** Filling an empty map with some enumeration of a map's entries gives the map. *)
Lemma fill_id_perm {K V} `{Countable K} (m : gmap K V) l :
  l ≡ₚ map_to_list m -> fill id l ∅ = m.
Proof.
  intros Hl. apply map_eq. intros k. destruct (m !! k) as [v|] eqn:E.
  - apply (fill_lookup id).
    + rewrite Hl. apply NoDup_fst_map_to_list.
    + done.
    + rewrite Hl. by apply elem_of_map_to_list.
  - rewrite fill_other; [apply lookup_empty|].
    intros k' v Hin Hk. unfold id in Hk. subst k'. rewrite Hl in Hin.
    apply elem_of_map_to_list in Hin. naive_solver.
Qed.

(** Enumerating a mapped map enumerates the map. *)
Lemma go_range_fmap `{GoRange} {K A B} `{Countable K} (f : A -> B) (m : gmap K A) :
  exists l, go_range (f <$> m) = map (prod_map id f) l /\ l ≡ₚ map_to_list m.
Proof.
  pose proof (go_range_perm (f <$> m)) as Hp. rewrite map_to_list_fmap in Hp.
  apply Permutation_map_inv in Hp as (l & -> & Hl). by exists l.
Qed.

(** A map read: the zero value for an absent key. *)
Definition zlookup {K} `{Countable K} (m : gmap K Z) (k : K) : Z := default 0 (m !! k).

(** * Sorting ([sort.Slice], [sort.Strings])

    The comparison is Go's [less].  Elements [less] does not separate keep their
    input order here; the theorems use only that the result is a sorted
    permutation. *)
Definition leq_of {A} (less : A -> A -> bool) (x y : A) : Prop := less y x = false.

#[export] Instance leq_of_dec {A} (less : A -> A -> bool) : RelDecision (leq_of less).
Proof. intros x y; unfold leq_of; apply _. Defined.

Definition sort_slice {A} (less : A -> A -> bool) (l : list A) : list A :=
  merge_sort (leq_of less) l.

Lemma sort_slice_perm {A} (less : A -> A -> bool) l : sort_slice less l ≡ₚ l.
Proof. apply merge_sort_Permutation. Qed.

Lemma sort_slice_sorted {A} (less : A -> A -> bool) l :
  (forall x y, less x y = true -> less y x = false) ->
  Sorted (leq_of less) (sort_slice less l).
Proof.
  intros Hasym. apply Sorted_merge_sort.
  intros x y. unfold leq_of. destruct (less x y) eqn:E; [left|by right].
  by apply Hasym.
Qed.

#[export] Hint Resolve u64_range NoDup_go_range sort_slice_perm : go.

Lemma Sorted_weaken {A} (R R' : A -> A -> Prop) (l : list A) :
  (forall x y, R x y -> R' x y) -> Sorted R l -> Sorted R' l.
Proof.
  intros HR. induction 1 as [|x l _ IH Hd]; constructor; [done|].
  destruct Hd; constructor; auto.
Qed.

(** A sort by a total order [R] whose strict part is [less]. *)
Lemma sort_slice_strong {A} (less : A -> A -> bool) (R : A -> A -> Prop) l :
  (forall x y, less x y = true -> less y x = false) ->
  (forall x y, less y x = false -> R x y) -> Transitive R ->
  StronglySorted R (sort_slice less l).
Proof.
  intros Hasym HR Htr. apply Sorted_StronglySorted; [exact Htr|].
  eapply Sorted_weaken, sort_slice_sorted; [|exact Hasym]. exact HR.
Qed.

(** ** Counting along a sorted list *)

Lemma filter_all {A} (P : A -> Prop) `{forall x, Decision (P x)} (l : list A) :
  Forall P l -> filter P l = l.
Proof. induction 1; [done|]. rewrite filter_cons_True by done. by f_equal. Qed.

Lemma filter_none {A} (P : A -> Prop) `{forall x, Decision (P x)} (l : list A) :
  Forall (fun x => ~ P x) l -> filter P l = [].
Proof. induction 1; [done|]. by rewrite filter_cons_False. Qed.

Lemma list_filter_iff_in {A} (P Q : A -> Prop) `{forall x, Decision (P x), forall x, Decision (Q x)}
    (l : list A) :
  (forall x, x ∈ l -> P x <-> Q x) -> filter P l = filter Q l.
Proof.
  induction l as [|x l IH]; intros Hpq; [done|]. rewrite !filter_cons.
  rewrite IH by (intros y Hy; apply Hpq; by right).
  pose proof (Hpq x ltac:(by left)). repeat case_decide; tauto.
Qed.

Lemma count_take {A} (P : A -> Prop) `{forall x, Decision (P x)} (l : list A) k :
  (k <= length l)%nat -> Forall P (take k l) -> (k <= length (filter P l))%nat.
Proof.
  intros Hk HP. rewrite <- (take_drop k l) at 1. rewrite filter_app, length_app.
  rewrite (filter_all _ (take k l)) by exact HP.
  rewrite length_take. lia.
Qed.

Lemma count_drop {A} (P : A -> Prop) `{forall x, Decision (P x)} (l : list A) k :
  Forall (fun x => ~ P x) (drop k l) -> (length (filter P l) <= k)%nat.
Proof.
  intros HP. rewrite <- (take_drop k l) at 1. rewrite filter_app, length_app.
  rewrite (filter_none _ (drop k l)) by exact HP. cbn.
  rewrite Nat.add_0_r. etrans; [apply length_filter|]. rewrite length_take. lia.
Qed.

Lemma StronglySorted_lookup_le {A} (R : A -> A -> Prop) (l : list A) i j x y :
  StronglySorted R l -> l !! i = Some x -> l !! j = Some y -> (i < j)%nat -> R x y.
Proof.
  intros Hs. revert i j. induction Hs as [|z l Hs IH Hz]; intros i j Hi Hj Hij; [done|].
  destruct j as [|j]; [lia|]. cbn in Hj. destruct i as [|i]; cbn in Hi.
  - injection Hi as ->. rewrite Forall_forall in Hz. apply Hz.
    by apply list_elem_of_lookup_2 with j.
  - eapply IH; eauto. lia.
Qed.
