(* ===== verification/Effect.v ===== *)
(** * State and errors

    A method that mutates its receiver, calls the cluster and may return an
    error is a function from a state to a result and a state: what was changed
    before an error stays changed, as in the source. *)

From S2P Require Import Prelude.

Definition eff (S E A : Type) : Type := S -> result E A * S.

#[export] Instance eff_ret {S E} : MRet (eff S E) := fun A a s => (Ok a, s).
#[export] Instance eff_bind {S E} : MBind (eff S E) := fun A B f m s =>
  match m s with
  | (Ok a, s) => f a s
  | (Err e, s) => (Err e, s)
  end.

Section ops.
Context {S E : Type}.

Definition fail {A} (e : E) : eff S E A := fun s => (Err e, s).
Definition get : eff S E S := fun s => (Ok s, s).
Definition gets {A} (f : S -> A) : eff S E A := fun s => (Ok (f s), s).
Definition modify (f : S -> S) : eff S E unit := fun s => (Ok tt, f s).

(** [x, err := m]: the error as a value. *)
Definition try {E'} {A} (m : eff S E A) : eff S E' (result E A) := fun s =>
  let '(r, s) := m s in (Ok r, s).

Definition lift {A} (r : result E A) : eff S E A := fun s => (r, s).

(** [if err != nil { return wrap(err) }]. *)
Definition withErr {E'} {A} (f : E -> E') (m : eff S E A) : eff S E' A := fun s =>
  let '(r, s) := m s in (wrapErr f r, s).

(** A loop that threads an accumulator and may return early with an error. *)
Fixpoint foldE {A B} (f : B -> A -> eff S E B) (b : B) (l : list A) : eff S E B :=
  match l with
  | [] => mret b
  | x :: l => b ← f b x; foldE f b l
  end.

End ops.

(** What holds of every run: [P] before, [Q] of a result with the state after,
    [X] of the state after an error. *)
Definition hoare {S E A} (P : S -> Prop) (m : eff S E A) (Q : A -> S -> Prop) (X : E -> S -> Prop) : Prop :=
  forall s, P s -> match m s with (Ok a, s') => Q a s' | (Err e, s') => X e s' end.

Section rules.
Context {S E : Type}.

Lemma hoare_ret {A} (a : A) P (Q : A -> S -> Prop) (X : E -> S -> Prop) :
  (forall s, P s -> Q a s) -> hoare P (mret a) Q X.
Proof. intros HQ s Hs. by apply HQ. Qed.

Lemma hoare_bind {A B} (m : eff S E A) (f : A -> eff S E B) P R Q X :
  hoare P m R X -> (forall a, hoare (R a) (f a) Q X) -> hoare P (m ≫= f) Q X.
Proof.
  intros Hm Hf s Hs. unfold mbind, eff_bind. specialize (Hm s Hs).
  destruct (m s) as [[a|e] s']; [by apply Hf|done].
Qed.

Lemma hoare_conseq {A} (m : eff S E A) (P P' : S -> Prop) Q Q' X X' :
  hoare P' m Q' X' -> (forall s, P s -> P' s) -> (forall a s, Q' a s -> Q a s) ->
  (forall e s, X' e s -> X e s) -> hoare P m Q X.
Proof.
  intros Hm HP HQ HX s Hs. specialize (Hm s (HP s Hs)). destruct (m s) as [[a|e] s']; auto.
Qed.

(** A loop keeps what each pass keeps. *)
Lemma hoare_foldE {A B} (f : B -> A -> eff S E B) (I : B -> S -> Prop) X : forall l b,
  (forall b x, x ∈ l -> hoare (I b) (f b x) I X) -> hoare (I b) (foldE f b l) I X.
Proof.
  induction l as [|x l IH]; intros b Hf; cbn [foldE].
  - by apply hoare_ret.
  - eapply hoare_bind; [apply Hf; by left|]. intros b'. apply IH. intros b0 y Hy. apply Hf. by right.
Qed.

End rules.

(** The two halves of a sequence that succeeded. *)
Lemma bind_inv {S E A B} (m : eff S E A) (f : A -> eff S E B) s b s' :
  (m ≫= f) s = (Ok b, s') -> exists a s1, m s = (Ok a, s1) /\ f a s1 = (Ok b, s').
Proof. unfold mbind, eff_bind. destruct (m s) as [[a|e] s1]; [eauto|done]. Qed.

(** Where a sequence may stop. *)
Lemma bind_cases {S E A B} (m : eff S E A) (f : A -> eff S E B) s r s' : (m ≫= f) s = (r, s') ->
  (exists e, m s = (Err e, s') /\ r = Err e) \/ exists a s1, m s = (Ok a, s1) /\ f a s1 = (r, s').
Proof. unfold mbind, eff_bind. destruct (m s) as [[a|e] s1]; [by eauto|]. intros [= <- <-]. eauto. Qed.

Lemma lift_inv {S E A} (r : result E A) (s s' : S) a : lift r s = (Ok a, s') -> r = Ok a /\ s' = s.
Proof. unfold lift. by intros [= -> ->]. Qed.

(** Running a sequence whose first half is known. *)
Lemma bind_run {S E A B} (m : eff S E A) (f : A -> eff S E B) s a s1 :
  m s = (Ok a, s1) -> (m ≫= f) s = f a s1.
Proof. unfold mbind, eff_bind. by intros ->. Qed.

Lemma bind_fails {S E A B} (m : eff S E A) (f : A -> eff S E B) s e s1 :
  m s = (Err e, s1) -> (m ≫= f) s = (Err e, s1).
Proof. unfold mbind, eff_bind. by intros ->. Qed.

Lemma bind_get {S E B} (f : S -> eff S E B) s : (get ≫= f) s = f s s.
Proof. done. Qed.

Lemma bind_modify {S E B} (g : S -> S) (f : unit -> eff S E B) s : (modify g ≫= f) s = f tt (g s).
Proof. done. Qed.

Lemma bind_lift {S E A B} (r : result E A) (f : A -> eff S E B) s :
  (lift r ≫= f) s = match r with Ok a => f a s | Err e => (Err e, s) end.
Proof. unfold lift. by destruct r. Qed.

(** A step whose error is wrapped. *)
Lemma withErr_inv {S E E' A} (f : E -> E') (m : eff S E A) s a s' : withErr f m s = (Ok a, s') -> m s = (Ok a, s').
Proof. unfold withErr. destruct (m s) as [[x|e] s1]; cbn; [|done]. by intros [= -> ->]. Qed.

(** ** What a step leaves alone *)

Definition leaves {S E A T} (f : S -> T) (m : eff S E A) : Prop := forall s r s', m s = (r, s') -> f s' = f s.

Create HintDb leaves.

Section leaves.
Context {S T : Type} (f : S -> T).

Lemma leaves_lift {E A} (r : result E A) : leaves f (lift r).
Proof. by intros s r' s' [= _ <-]. Qed.
Lemma leaves_ret {E A} (a : A) : leaves (E := E) f (mret a).
Proof. by intros s r' s' [= _ <-]. Qed.
Lemma leaves_fail {E A} (e : E) : leaves (A := A) f (fail e).
Proof. by intros s r' s' [= _ <-]. Qed.
Lemma leaves_gets {E A} (g : S -> A) : leaves (E := E) f (gets g).
Proof. by intros s r' s' [= _ <-]. Qed.
Lemma leaves_get {E} : leaves (E := E) f get.
Proof. by intros s r' s' [= _ <-]. Qed.
Lemma leaves_modify {E} (g : S -> S) : (forall s, f (g s) = f s) -> leaves (E := E) f (modify g).
Proof. intros Hg s r' s' [= _ <-]. apply Hg. Qed.

Lemma leaves_bind {E A B} (m : eff S E A) (k : A -> eff S E B) : leaves f m -> (forall a, leaves f (k a)) -> leaves f (m ≫= k).
Proof.
  intros Hm Hk s r s' [(e & E1 & _)|(a & s1 & E1 & E2)]%bind_cases; [by eapply Hm|].
  by rewrite (Hk _ _ _ _ E2), (Hm _ _ _ E1).
Qed.

Lemma leaves_try {E E' A} (m : eff S E A) : leaves f m -> leaves f (try (E' := E') m).
Proof. intros Hm s r s'. unfold try. destruct (m s) as [x s1] eqn:E1. intros [= _ <-]. exact (Hm _ _ _ E1). Qed.

Lemma leaves_withErr {E E' A} (g : E -> E') (m : eff S E A) : leaves f m -> leaves f (withErr g m).
Proof. intros Hm s r s'. unfold withErr. destruct (m s) as [x s1] eqn:E1. intros [= _ <-]. exact (Hm _ _ _ E1). Qed.

Lemma leaves_foldE {E A B} (k : B -> A -> eff S E B) l : (forall b x, leaves f (k b x)) -> forall b, leaves f (foldE k b l).
Proof.
  intros Hk. induction l as [|x l IH]; intros b; cbn [foldE]; [apply leaves_ret|]. apply leaves_bind; auto.
Qed.

(** A sequence that starts with such a step: it stops there, or goes on from the same. *)
Lemma leaves_then {E A B} (m : eff S E A) (k : A -> eff S E B) s r s' : leaves f m -> (m ≫= k) s = (r, s') ->
  (is_ok r = false /\ f s' = f s) \/ exists a s1, m s = (Ok a, s1) /\ f s1 = f s /\ k a s1 = (r, s').
Proof.
  intros Hm [(e & E1 & ->)|(a & s1 & E1 & E2)]%bind_cases; [left; split; [done|exact (Hm _ _ _ E1)]|].
  right. exists a, s1. split; [done|]. split; [exact (Hm _ _ _ E1)|done].
Qed.

End leaves.

#[export] Hint Resolve leaves_lift leaves_ret leaves_fail leaves_gets leaves_get leaves_try leaves_withErr : leaves.

(** Splits a step into its parts, and leaves those no lemma covers. *)
Ltac leave := repeat match goal with
  | |- leaves _ (_ ≫= _) => apply leaves_bind; [|intros ?]
  | |- leaves _ (if ?b then _ else _) => destruct b
  | |- leaves _ (match ?b with _ => _ end) => destruct b
  | |- leaves _ (let '(_, _) := ?b in _) => destruct b
  | |- leaves _ _ => solve [eauto with leaves]
  end.
