(* ===== verification/Float64.v ===== *)
(** * Go's [float64]

    Money and ratios in the program are [float64].  They are modelled as IEEE-754
    binary64 values with round-to-nearest-even, through the executable
    specification of floating point that ships with Rocq ([SpecFloat]: plain
    functions on a sign, a mantissa and an exponent, no axioms), so that every
    figure below is the figure the compiled program computes and not an
    idealised real.  A fused multiply-add, which the Go specification lets some
    targets use, is not modelled.

    The order lemmas at the end say that [fleb] is a total preorder away from
    NaN; [Rounding] adds what is needed about rounded results. *)

From Stdlib Require Import SpecFloat.
From S2P Require Import Prelude.

Definition prec : Z := 53.
Definition emax : Z := 1024.

Abbreviation float64 := spec_float.

#[export] Instance float64_eq_dec : EqDecision float64.
Proof. solve_decision. Defined.

Definition fzero : float64 := S754_zero false.
Definition fadd : float64 -> float64 -> float64 := SFadd prec emax.
Definition fsub : float64 -> float64 -> float64 := SFsub prec emax.
Definition fmul : float64 -> float64 -> float64 := SFmul prec emax.
Definition fdiv : float64 -> float64 -> float64 := SFdiv prec emax.
Definition fltb : float64 -> float64 -> bool := SFltb.
Definition fleb : float64 -> float64 -> bool := SFleb.
Definition feqb : float64 -> float64 -> bool := SFeqb.

(** [float64(z)] for an integer [z]. *)
Definition of_int (z : Z) : float64 := binary_normalize prec emax z 0 false.

(** The constant [n/d].  A Go constant is exact and is rounded once where it is
    used; with [n] and [d] below 2^53 this quotient is that rounding. *)
Definition flit (n d : Z) : float64 := fdiv (of_int n) (of_int d).

Definition is_nan (f : float64) : bool :=
  match f with S754_nan => true | _ => false end.

Definition is_inf (f : float64) : bool :=
  match f with S754_infinity _ => true | _ => false end.

(** The integer part, toward zero; [None] for NaN and the infinities. *)
Definition ftrunc (f : float64) : option Z :=
  match f with
  | S754_zero _ => Some 0
  | S754_finite s m e =>
      Some (cond_Zopp s (if 0 <=? e then Zpos m * 2 ^ e else Zpos m / 2 ^ (- e)))
  | _ => None
  end.

(** [int(f)] and [uint64(f)].  The Go specification leaves an out-of-range
    conversion to the implementation; the model takes the value amd64 gives. *)
Definition int_of (f : float64) : Z :=
  match ftrunc f with
  | Some z => if (- 2 ^ 63 <=? z) && (z <? 2 ^ 63) then z else - 2 ^ 63
  | None => - 2 ^ 63
  end.

Definition uint64_of (f : float64) : Z :=
  match ftrunc f with
  | Some z => if (0 <=? z) && (z <? 2 ^ 64) then z else 2 ^ 63
  | None => 2 ^ 63
  end.

(** [math.Ceil]. *)
Definition fceil (f : float64) : float64 :=
  match f with
  | S754_finite s m e =>
      if 0 <=? e then f
      else
        let q := - ((- cond_Zopp s (Zpos m)) / 2 ^ (- e)) in
        if q =? 0 then S754_zero s else of_int q
  | _ => f
  end.

(** [math.Abs]. *)
Definition fabs : float64 -> float64 := SFabs.

(** [math.Max], with its special cases: +Inf wins, then NaN, then +0 over -0. *)
Definition fmax (x y : float64) : float64 :=
  match x, y with
  | S754_infinity false, _ | _, S754_infinity false => S754_infinity false
  | S754_nan, _ | _, S754_nan => S754_nan
  | S754_zero sx, S754_zero _ => if sx then y else x
  | _, _ => if fltb y x then x else y
  end.

Create HintDb float.

(** ** The order *)

Section order.
Implicit Types x y z : float64.

(** [flt] and [fle], the comparisons as propositions, case by case. *)
Definition lex_lt (e1 : Z) (m1 : positive) (e2 : Z) (m2 : positive) : Prop :=
  e1 < e2 \/ (e1 = e2 /\ Zpos m1 < Zpos m2).

Definition fle x y : Prop :=
  match x, y with
  | S754_nan, _ | _, S754_nan => False
  | S754_infinity true, _ | _, S754_infinity false => True
  | S754_infinity false, _ | _, S754_infinity true => False
  | S754_zero _, S754_zero _ => True
  | S754_zero _, S754_finite s _ _ => s = false
  | S754_finite s _ _, S754_zero _ => s = true
  | S754_finite s1 m1 e1, S754_finite s2 m2 e2 =>
      match s1, s2 with
      | true, false => True
      | false, true => False
      | false, false => ~ lex_lt e2 m2 e1 m1
      | true, true => ~ lex_lt e1 m1 e2 m2
      end
  end.

Definition lex_cmp (e1 : Z) (m1 : positive) (e2 : Z) (m2 : positive) : comparison :=
  match e1 ?= e2 with Eq => Pos.compare_cont Eq m1 m2 | Lt => Lt | Gt => Gt end.

Lemma compare_lex e1 m1 e2 m2 :
  lex_cmp e1 m1 e2 m2 = Lt
  <-> lex_lt e1 m1 e2 m2.
Proof.
  unfold lex_lt, lex_cmp. change (Pos.compare_cont Eq m1 m2) with (Pos.compare m1 m2).
  destruct (Z.compare_spec e1 e2), (Pos.compare_spec m1 m2); split; try done; lia.
Qed.

Lemma compare_lex_gt e1 m1 e2 m2 :
  lex_cmp e1 m1 e2 m2 = Gt
  <-> lex_lt e2 m2 e1 m1.
Proof.
  unfold lex_lt, lex_cmp. change (Pos.compare_cont Eq m1 m2) with (Pos.compare m1 m2).
  destruct (Z.compare_spec e1 e2), (Pos.compare_spec m1 m2); split; try done; lia.
Qed.

Lemma compare_opp_lex e1 m1 e2 m2 :
  match e1 ?= e2 with
  | Eq => CompOpp (Pos.compare_cont Eq m1 m2) | Lt => Gt | Gt => Lt
  end = CompOpp (lex_cmp e1 m1 e2 m2).
Proof. unfold lex_cmp. by destruct (e1 ?= e2). Qed.

Lemma fleb_fle x y : fleb x y = true <-> fle x y.
Proof.
  unfold fleb, SFleb.
  destruct x as [[]|[]| |[] m1 e1], y as [[]|[]| |[] m2 e2]; cbn; try done.
  - rewrite compare_opp_lex, <- compare_lex. destruct (lex_cmp e1 m1 e2 m2); cbn; intuition congruence.
  - fold (lex_cmp e1 m1 e2 m2). rewrite <- compare_lex_gt. destruct (lex_cmp e1 m1 e2 m2); cbn; intuition congruence.
Qed.

Lemma fltb_negb x y : is_nan x = false -> is_nan y = false -> fltb x y = negb (fleb y x).
Proof.
  intros. apply eq_true_iff_eq. rewrite negb_true_iff, <- not_true_iff_false, fleb_fle.
  unfold fltb, SFltb.
  destruct x as [[]|[]| |[] m1 e1], y as [[]|[]| |[] m2 e2]; cbn in *;
    try done; try (intuition congruence).
  - rewrite compare_opp_lex, <- compare_lex_gt.
    destruct (lex_cmp e1 m1 e2 m2); cbn; naive_solver.
  - fold (lex_cmp e1 m1 e2 m2). rewrite <- compare_lex. destruct (lex_cmp e1 m1 e2 m2); cbn; naive_solver.
Qed.

Lemma fle_refl x : is_nan x = false -> fle x x.
Proof. destruct x as [[]|[]| |[] m e]; cbn; unfold lex_lt; try done; lia. Qed.

Lemma fle_trans x y z : fle x y -> fle y z -> fle x z.
Proof.
  destruct x as [[]|[]| |[] m1 e1], y as [[]|[]| |[] m2 e2], z as [[]|[]| |[] m3 e3];
    cbn; unfold lex_lt; try done; lia.
Qed.

Lemma fle_total x y : is_nan x = false -> is_nan y = false -> fle x y \/ fle y x.
Proof.
  destruct x as [[]|[]| |[] m1 e1], y as [[]|[]| |[] m2 e2];
    cbn; unfold lex_lt; try (intros; by auto); lia.
Qed.

Lemma fle_not_nan x y : fle x y -> is_nan x = false /\ is_nan y = false.
Proof. by destruct x as [[]|[]| |[] m1 e1], y as [[]|[]| |[] m2 e2]. Qed.

Lemma fltb_fle x y : fltb x y = true -> fle x y.
Proof.
  unfold fltb, SFltb.
  destruct x as [[]|[]| |[] m1 e1], y as [[]|[]| |[] m2 e2]; cbn; try done.
  - rewrite compare_opp_lex. destruct (lex_cmp e1 m1 e2 m2) eqn:E; try done.
    intros _. apply compare_lex_gt in E. unfold lex_lt in *; lia.
  - fold (lex_cmp e1 m1 e2 m2). destruct (lex_cmp e1 m1 e2 m2) eqn:E; try done.
    intros _. apply compare_lex in E. unfold lex_lt in *; lia.
Qed.

(** [math.Max] is an upper bound of its arguments. *)
Lemma fmax_ub x y : is_nan x = false -> is_nan y = false -> fle x (fmax x y) /\ fle y (fmax x y).
Proof.
  intros Hx Hy. unfold fmax.
  assert (forall a b, is_nan a = false -> is_nan b = false ->
    fle a (if fltb b a then a else b) /\ fle b (if fltb b a then a else b)) as Hgen.
  { intros a b Ha Hb. destruct (fltb b a) eqn:E.
    - split; [by apply fle_refl|by apply fltb_fle].
    - rewrite fltb_negb in E by done. apply negb_false_iff, fleb_fle in E.
      split; [done|by apply fle_refl]. }
  specialize (Hgen x y Hx Hy).
  destruct x as [[]|[]| |[] m1 e1], y as [[]|[]| |[] m2 e2]; try done; exact Hgen.
Qed.

(** Nonnegative: neither NaN nor below zero. *)
Definition fnonneg x : Prop := fle fzero x.

End order.

#[export] Hint Resolve fle_refl : float.
