(* ===== verification/Rounding.v ===== *)
(** * Rounded arithmetic on binary64

    What the program's figures need to know about rounding: an operation's
    result lies on the same side of every representable number as the exact
    result does.  From this follow the exactness of conversions and of products
    that fit the format, and the bounds money accounting relies on (adding a
    nonnegative amount never lowers a total).

    Values are compared through [scaled], the integer multiple of 2^-3000 a
    mantissa and exponent stand for; every exponent met here is above that. *)

From Stdlib Require Import SpecFloat.
From S2P Require Import Prelude Float64.

(** The units of 2^-3000 in [2^e]; its value is never computed. *)
Definition units (e : Z) : Z := 2 ^ (e + 3000).

Lemma units_pos e : -3000 <= e -> 0 < units e.
Proof. intros. unfold units. apply Z.pow_pos_nonneg; lia. Qed.

Lemma units_nonneg e : 0 <= units e.
Proof. unfold units. apply Z.pow_nonneg. lia. Qed.

Lemma units_shift e k : 0 <= k -> -3000 <= e -> units (e + k) = 2 ^ k * units e.
Proof.
  intros. unfold units. replace (e + k + 3000) with (k + (e + 3000)) by lia.
  by rewrite Z.pow_add_r by lia.
Qed.

Lemma units_mul a b c d :
  a + b = c + d -> -3000 <= a -> -3000 <= b -> -3000 <= c -> -3000 <= d ->
  units a * units b = units c * units d.
Proof. intros. unfold units. rewrite <- !Z.pow_add_r by lia. f_equal. lia. Qed.

Definition scaled (m e : Z) : Z := m * units e.

Lemma scaled_shift m e k : 0 <= k -> -3000 <= e -> scaled m (e + k) = scaled (m * 2 ^ k) e.
Proof. intros. unfold scaled. rewrite units_shift by done. ring. Qed.

Lemma scaled_at m e e' : -3000 <= e' <= e -> scaled m e = scaled (m * 2 ^ (e - e')) e'.
Proof. intros. rewrite <- scaled_shift by lia. f_equal. lia. Qed.

Lemma scaled_le m m' e : m <= m' -> scaled m e <= scaled m' e.
Proof. intros. unfold scaled. apply Z.mul_le_mono_nonneg_r; [apply units_nonneg|done]. Qed.

Lemma scaled_lt m m' e : -3000 <= e -> m < m' -> scaled m e < scaled m' e.
Proof. intros. unfold scaled. apply Z.mul_lt_mono_pos_r; [by apply units_pos|done]. Qed.

(** ** Digits *)

Lemma digits_spec p : 2 ^ (Zpos (digits2_pos p) - 1) <= Zpos p < 2 ^ Zpos (digits2_pos p).
Proof.
  induction p as [p IH|p IH|]; cbn [digits2_pos]; [| |done].
  all: rewrite Pos2Z.inj_succ; replace (Z.succ (Z.pos (digits2_pos p)) - 1) with (Z.pos (digits2_pos p)) by lia.
  all: rewrite Z.pow_succ_r by lia.
  all: replace (Z.pos (digits2_pos p)) with (Z.succ (Z.pos (digits2_pos p) - 1)) in IH at 2 by lia.
  all: rewrite Z.pow_succ_r in IH by lia.
  all: replace (2 ^ Z.pos (digits2_pos p)) with (2 * 2 ^ (Z.pos (digits2_pos p) - 1))
    by (rewrite <- Z.pow_succ_r by lia; f_equal; lia).
  all: lia.
Qed.

Lemma digits_le p n : 0 <= n -> Zpos p < 2 ^ n -> Zpos (digits2_pos p) <= n.
Proof.
  intros Hn Hp. pose proof (digits_spec p) as [Hd _].
  destruct (Z.le_gt_cases (Zpos (digits2_pos p)) n); [done|].
  assert (2 ^ n <= 2 ^ (Zpos (digits2_pos p) - 1)) by (apply Z.pow_le_mono_r; lia). lia.
Qed.

Lemma digits_ge p n : 0 <= n -> 2 ^ n <= Zpos p -> n + 1 <= Zpos (digits2_pos p).
Proof.
  intros Hn Hp. pose proof (digits_spec p) as [_ Hd].
  destruct (Z.le_gt_cases (n + 1) (Zpos (digits2_pos p))); [done|].
  assert (2 ^ Zpos (digits2_pos p) <= 2 ^ n) by (apply Z.pow_le_mono_r; lia). lia.
Qed.

(** ** Canonical numbers *)

Definition canonical (m : positive) (e : Z) : Prop :=
  -1074 <= e <= 971 /\ Zpos m < 2 ^ 53 /\ (2 ^ 52 <= Zpos m \/ e = -1074).

Lemma fexp_eq e : fexp prec emax e = Z.max (e - 53) (-1074).
Proof. done. Qed.

Lemma bounded_canonical m e : bounded prec emax m e = true <-> canonical m e.
Proof.
  unfold bounded, canonical_mantissa, canonical. rewrite fexp_eq.
  change (emax - prec) with 971. pose proof (digits_spec m) as Hd. split.
  - intros Hb. apply andb_true_iff in Hb as [H1 H2].
    assert (Zpos (digits2_pos m) <= 53) by lia.
    split; [lia|split].
    + apply Z.lt_le_trans with (2 ^ Zpos (digits2_pos m)); [lia|]. apply Z.pow_le_mono_r; lia.
    + destruct (Z.eq_dec e (-1074)); [by right|left].
      assert (Zpos (digits2_pos m) = 53) as E by lia. rewrite E in Hd. lia.
  - intros (He & Hm & Hn). pose proof (digits_le m 53 ltac:(lia) Hm).
    apply andb_true_iff. split; [|lia]. apply Z.eqb_eq.
    destruct Hn as [Hn| ->]; [|lia]. pose proof (digits_ge m 52 ltac:(lia) Hn). lia.
Qed.

(** The lexicographic comparison is the comparison of values. *)
Lemma canonical_order m1 e1 m2 e2 :
  canonical m1 e1 -> canonical m2 e2 ->
  (scaled (Zpos m1) e1 <= scaled (Zpos m2) e2 <-> ~ lex_lt e2 m2 e1 m1).
Proof.
  assert (forall m1 e1 m2 e2, canonical m1 e1 -> canonical m2 e2 ->
    e1 < e2 -> scaled (Zpos m1) e1 < scaled (Zpos m2) e2) as Hlt.
  { intros m3 e3 m4 e4 (H1 & H2 & H3) (H4 & H5 & H6) He.
    replace e4 with (e3 + (e4 - e3)) by lia. rewrite scaled_shift by lia.
    apply scaled_lt; [lia|]. destruct H6 as [H6|]; [|lia].
    assert (2 ^ 1 <= 2 ^ (e4 - e3)) by (apply Z.pow_le_mono_r; lia). lia. }
  intros C1 C2. unfold lex_lt. split.
  - intros Hle [He|(Heq & Hm)]; [|subst e2].
    + pose proof (Hlt _ _ _ _ C2 C1 He). lia.
    + pose proof (scaled_lt (Zpos m2) (Zpos m1) e1 ltac:(destruct C1; lia) Hm). lia.
  - intros Hn. destruct (Z.lt_trichotomy e1 e2) as [He|[Heq|He]]; [| subst e2|].
    + apply Z.lt_le_incl. by apply Hlt.
    + apply scaled_le. lia.
    + exfalso. apply Hn. by left.
Qed.

(** ** Shifting out bits

    [holds mrs e N D]: the exact value, N/D units of 2^-3000, lies in
    [[m 2^e, (m+1) 2^e)], and equals [m 2^e] exactly when no bit was lost. *)
Definition holds (mrs : shr_record) (e N D : Z) : Prop :=
  0 <= shr_m mrs /\
  scaled (shr_m mrs) e * D <= N < scaled (shr_m mrs + 1) e * D /\
  (shr_r mrs || shr_s mrs = false <-> N = scaled (shr_m mrs) e * D).

Lemma shr_1_fields mrs :
  0 <= shr_m mrs ->
  shr_m mrs = 2 * shr_m (shr_1 mrs) + (if shr_r (shr_1 mrs) then 1 else 0) /\
  shr_s (shr_1 mrs) = shr_r mrs || shr_s mrs.
Proof. destruct mrs as [m r s]. destruct m as [|[p|p|]|p]; cbn; intros; split; try done; lia. Qed.

Lemma shr_1_holds mrs e N D :
  -3000 <= e -> 0 < D -> holds mrs e N D -> holds (shr_1 mrs) (e + 1) N D.
Proof.
  intros He HD (Hm & Hb & Hx). destruct (shr_1_fields mrs Hm) as [Em Es].
  set (mrs' := shr_1 mrs) in *. unfold holds.
  rewrite !(scaled_shift _ _ 1) by lia. change (2 ^ 1) with 2.
  assert (forall a b, a <= b -> scaled a e * D <= scaled b e * D) as Hmono.
  { intros a b Hab. apply Z.mul_le_mono_nonneg_r; [lia|]. by apply scaled_le. }
  split; [destruct (shr_r mrs'); lia|]. split.
  - pose proof (Hmono (shr_m mrs' * 2) (shr_m mrs) ltac:(destruct (shr_r mrs'); lia)).
    pose proof (Hmono (shr_m mrs + 1) ((shr_m mrs' + 1) * 2) ltac:(destruct (shr_r mrs'); lia)).
    lia.
  - rewrite Es. destruct (shr_r mrs') eqn:Er; cbn [orb].
    + split; [done|]. intros HN. exfalso.
      assert (scaled (shr_m mrs' * 2) e * D < scaled (shr_m mrs) e * D); [|lia].
      apply Z.mul_lt_mono_pos_r; [done|]. apply scaled_lt; lia.
    + rewrite Hx. by replace (shr_m mrs' * 2) with (shr_m mrs) by lia.
Qed.

Lemma shr_1_div mrs : 0 <= shr_m mrs -> shr_m (shr_1 mrs) = shr_m mrs / 2.
Proof.
  intros Hm. destruct (shr_1_fields mrs Hm) as [Em _].
  apply (Z.div_unique_pos _ _ _ (if shr_r (shr_1 mrs) then 1 else 0)); [case_match; lia|lia].
Qed.

Lemma iter_pos_ind {A} (P : Z -> A -> Prop) (f : A -> A) n :
  (forall k x, 0 <= k -> P k x -> P (k + 1) (f x)) ->
  forall k x, 0 <= k -> P k x -> P (k + Zpos n) (SpecFloat.iter_pos f n x).
Proof.
  intros Hf. induction n as [n IH|n IH|]; intros k x Hk Hx; cbn.
  - replace (k + Z.pos n~1) with (k + 1 + Z.pos n + Z.pos n) by lia.
    apply IH; [lia|]. apply IH; [lia|]. by apply Hf.
  - replace (k + Z.pos n~0) with (k + Z.pos n + Z.pos n) by lia.
    apply IH; [lia|]. by apply IH.
  - by apply Hf.
Qed.

Lemma shr_spec mrs e n N D :
  -3000 <= e -> 0 < D -> holds mrs e N D ->
  holds (shr mrs e n).1 (shr mrs e n).2 N D /\
  shr_m (shr mrs e n).1 = shr_m mrs / 2 ^ Z.max 0 n /\ (shr mrs e n).2 = e + Z.max 0 n.
Proof.
  intros He HD Hh. destruct n as [|p|p]; cbn [shr fst snd].
  - change (Z.max 0 0) with 0. rewrite Z.pow_0_r, Z.div_1_r. split_and!; [done|done|lia].
  - replace (Z.max 0 (Z.pos p)) with (Z.pos p) by lia.
    assert (holds (SpecFloat.iter_pos shr_1 p mrs) (e + (0 + Z.pos p)) N D /\
      shr_m (SpecFloat.iter_pos shr_1 p mrs) = shr_m mrs / 2 ^ (0 + Z.pos p)) as [H1 H2].
    { apply (iter_pos_ind (fun k x => holds x (e + k) N D /\ shr_m x = shr_m mrs / 2 ^ k));
        [|lia|by rewrite Z.add_0_r, Z.pow_0_r, Z.div_1_r].
      intros k x Hk [Hx Hd]. split.
      - replace (e + (k + 1)) with (e + k + 1) by lia. apply shr_1_holds; [lia|done|done].
      - rewrite shr_1_div, Hd by apply Hx. rewrite Z.div_div by lia.
        f_equal. rewrite Z.pow_add_r by lia. done. }
    by split_and!.
  - replace (Z.max 0 (Z.neg p)) with 0 by lia.
    rewrite Z.pow_0_r, Z.div_1_r. split_and!; [done|done|lia].
Qed.

(** ** Rounding *)

(** [rounded sx N D r]: [r] is the value N/D (units of 2^-3000), with sign [sx],
    on the same side of every canonical number. *)
Record rounded (sx : bool) (N D : Z) (r : float64) : Prop := {
  rd_shape : r = S754_zero sx \/ (exists m e, r = S754_finite sx m e /\ canonical m e) \/
    r = S754_infinity sx;
  rd_lower : forall mg eg, canonical mg eg -> scaled (Zpos mg) eg * D <= N ->
    match r with
    | S754_finite _ m e => scaled (Zpos mg) eg <= scaled (Zpos m) e
    | S754_infinity _ => True
    | _ => False
    end;
  rd_upper : forall mg eg, canonical mg eg -> N <= scaled (Zpos mg) eg * D ->
    match r with
    | S754_finite _ m e => scaled (Zpos m) e <= scaled (Zpos mg) eg
    | S754_zero _ => True
    | _ => False
    end
}.

(** A significand in the format's window: normal, or at the least exponent. *)
Definition in_window (m e : Z) : Prop := 0 <= m < 2 ^ 53 /\ -1074 <= e /\ (2 ^ 52 <= m \/ e = -1074).

Lemma scaled_cancel_le a b e D : -3000 <= e -> 0 < D -> scaled a e * D <= scaled b e * D -> a <= b.
Proof.
  intros He HD Hle. destruct (Z.le_gt_cases a b); [done|].
  pose proof (scaled_lt b a e He ltac:(lia)). nia.
Qed.

Lemma scaled_cancel_lt a b e D : -3000 <= e -> 0 < D -> scaled a e * D < scaled b e * D -> a < b.
Proof.
  intros He HD Hlt. destruct (Z.lt_ge_cases a b); [done|].
  pose proof (scaled_le b a e ltac:(lia)). nia.
Qed.

(** Canonical numbers with a smaller exponent lie below a window's significand. *)
Lemma canonical_below mg eg m e :
  canonical mg eg -> in_window m e -> eg < e -> scaled (Zpos mg) eg < scaled m e.
Proof.
  intros (Hg1 & Hg2 & Hg3) (Hm & He & Hw) Hlt.
  replace e with (eg + (e - eg)) by lia. rewrite scaled_shift by lia.
  apply scaled_lt; [lia|]. destruct Hw as [Hw|]; [|lia].
  assert (2 ^ 1 <= 2 ^ (e - eg)) by (apply Z.pow_le_mono_r; lia). lia.
Qed.

Lemma window_lower m e N D mg eg :
  in_window m e -> 0 < D -> N < scaled (m + 1) e * D -> canonical mg eg ->
  scaled (Zpos mg) eg * D <= N -> scaled (Zpos mg) eg <= scaled m e.
Proof.
  intros Hw HD HN Hg Hle. destruct (Z.lt_ge_cases eg e) as [He|He].
  - apply Z.lt_le_incl. by apply canonical_below.
  - destruct Hw as (Hm & He' & _). replace eg with (e + (eg - e)) in * by lia.
    rewrite scaled_shift in * by lia. apply scaled_le.
    assert (Z.pos mg * 2 ^ (eg - e) < m + 1); [|lia].
    apply (scaled_cancel_lt _ _ e D); lia.
Qed.

Lemma window_upper m e N D mg eg :
  in_window m e -> 0 < D -> scaled m e * D < N -> canonical mg eg ->
  N <= scaled (Zpos mg) eg * D -> scaled (m + 1) e <= scaled (Zpos mg) eg.
Proof.
  intros Hw HD HN Hg Hle. destruct (Z.lt_ge_cases eg e) as [He|He].
  - pose proof (canonical_below _ _ _ _ Hg Hw He). nia.
  - destruct Hw as (Hm & He' & _). replace eg with (e + (eg - e)) in * by lia.
    rewrite scaled_shift in * by lia. apply scaled_le.
    assert (m < Z.pos mg * 2 ^ (eg - e)); [|lia].
    apply (scaled_cancel_lt _ _ e D); lia.
Qed.

Lemma Zdigits2_spec m : 0 < m -> 2 ^ (Zdigits2 m - 1) <= m < 2 ^ Zdigits2 m.
Proof. destruct m; [lia| |lia]. intros _. apply digits_spec. Qed.

Lemma Zdigits2_le m n : 0 <= m -> 0 <= n -> m < 2 ^ n -> Zdigits2 m <= n.
Proof. destruct m; cbn; [lia| |lia]. intros _. apply digits_le. Qed.

(** The first shift brings the significand into the window. *)
Lemma first_shift_window m e :
  0 <= m -> e <= fexp prec emax (Zdigits2 m + e) ->
  let k := fexp prec emax (Zdigits2 m + e) - e in in_window (m / 2 ^ k) (e + k).
Proof.
  rewrite fexp_eq. intros Hm He k. unfold in_window.
  assert (0 < 2 ^ k) by (apply Z.pow_pos_nonneg; lia).
  destruct (Z.eq_dec m 0) as [->|Hm0].
  { rewrite Z.div_0_l by lia. cbn in *. lia. }
  pose proof (Zdigits2_spec m ltac:(lia)) as Hd. set (d := Zdigits2 m) in *.
  split; [split|split]; [apply Z.div_pos; lia| |lia|].
  - apply Z.div_lt_upper_bound; [lia|]. rewrite <- Z.pow_add_r by lia.
    apply Z.lt_le_trans with (2 ^ d); [lia|]. apply Z.pow_le_mono_r; lia.
  - destruct (Z.le_gt_cases (-1074) (d + e - 53)); [left|right; lia].
    apply Z.div_le_lower_bound; [lia|]. rewrite <- Z.pow_add_r by lia.
    replace (k + 52) with (d - 1) by lia. lia.
Qed.

Lemma round_nearest_cases m l : round_nearest_even m l = m \/
  (l <> loc_Exact /\ round_nearest_even m l = m + 1).
Proof. destruct l as [|[]]; cbn; try case_match; auto. Qed.

Lemma loc_exact mrs : loc_of_shr_record mrs = loc_Exact <-> shr_r mrs || shr_s mrs = false.
Proof. by destruct mrs as [m [] []]. Qed.

(** The second shift only renormalises a significand that rounded up to 2^53. *)
Lemma second_shift m e :
  0 <= m <= 2 ^ 53 -> -1074 <= e -> (2 ^ 52 <= m \/ e = -1074) ->
  let r := shr_fexp prec emax m e loc_Exact in
  in_window (shr_m r.1) r.2 /\ scaled (shr_m r.1) r.2 = scaled m e.
Proof.
  intros Hm He Hw r.
  destruct (shr_spec (shr_record_of_loc m loc_Exact) e
    (fexp prec emax (Zdigits2 m + e) - e) (scaled m e) 1) as (_ & H2 & H3); [lia|lia| |].
  { unfold holds. cbn. rewrite !Z.mul_1_r. pose proof (scaled_lt m (m + 1) e ltac:(lia) ltac:(lia)).
    split_and!; [lia|lia|lia|done]. }
  change (shr (shr_record_of_loc m loc_Exact) e (fexp prec emax (Zdigits2 m + e) - e))
    with r in H2, H3.
  cbn [shr_record_of_loc shr_m] in H2. rewrite H2, H3, fexp_eq.
  destruct (Z.eq_dec m (2 ^ 53)) as [->|Hne].
  - replace (Z.max 0 (Z.max (Zdigits2 (2 ^ 53) + e - 53) (-1074) - e)) with 1
      by (change (Zdigits2 (2 ^ 53)) with 54; lia).
    change (2 ^ 53 / 2 ^ 1) with (2 ^ 52). rewrite scaled_shift by lia.
    split; [unfold in_window; lia|done].
  - pose proof (Zdigits2_le m 53 ltac:(lia) ltac:(lia) ltac:(lia)).
    replace (Z.max 0 (Z.max (Zdigits2 m + e - 53) (-1074) - e)) with 0 by lia.
    rewrite Z.pow_0_r, Z.div_1_r, Z.add_0_r. split; [|done]. unfold in_window. lia.
Qed.

Lemma holds_loc m e l N D :
  0 <= m -> -3000 <= e -> 0 < D ->
  match l with
  | loc_Exact => N = scaled m e * D
  | _ => scaled m e * D < N < scaled (m + 1) e * D
  end -> holds (shr_record_of_loc m l) e N D.
Proof.
  intros Hm He HD Hl. assert (scaled m e * D < scaled (m + 1) e * D).
  { apply Z.mul_lt_mono_pos_r; [done|]. apply scaled_lt; lia. }
  unfold holds. destruct l as [|[]]; cbn; (split; [lia|split]; [lia|]); split; (done || lia).
Qed.

Lemma round_aux_rounded sx mx ex lx N D :
  0 <= mx -> -3000 <= ex <= fexp prec emax (Zdigits2 mx + ex) -> 0 < D ->
  match lx with
  | loc_Exact => N = scaled mx ex * D
  | _ => scaled mx ex * D < N < scaled (mx + 1) ex * D
  end ->
  rounded sx N D (binary_round_aux prec emax sx mx ex lx).
Proof.
  intros Hmx Hex HD Hl. unfold binary_round_aux.
  pose proof (holds_loc mx ex lx N D Hmx ltac:(lia) HD Hl) as Hh.
  pose proof (first_shift_window mx ex Hmx ltac:(lia)) as Hw. cbv zeta in Hw.
  unfold shr_fexp at 1.
  set (k := fexp prec emax (Zdigits2 mx + ex) - ex) in *.
  destruct (shr_spec _ ex k N D ltac:(lia) HD Hh) as (H1 & H2 & H3).
  destruct (shr (shr_record_of_loc mx lx) ex k) as [mrs e']. cbn [fst snd] in *.
  replace (shr_m (shr_record_of_loc mx lx)) with mx in H2 by by destruct lx as [|[]].
  rewrite Z.max_r in H2, H3 by lia. subst e'. rewrite <- H2 in Hw. clear H2 Hh.
  set (m1 := shr_m mrs) in *. set (e1 := ex + k) in *.
  set (m2 := round_nearest_even m1 (loc_of_shr_record mrs)).
  destruct H1 as (_ & Hb & Hx). fold m1 in Hb, Hx.
  assert (m2 = m1 \/ (m2 = m1 + 1 /\ scaled m1 e1 * D < N)) as Hm2.
  { destruct (round_nearest_cases m1 (loc_of_shr_record mrs)) as [|[Hne ?]]; [by left|right].
    split; [done|]. rewrite loc_exact in Hne. rewrite Hx in Hne. lia. }
  assert (in_window m1 e1) as (Hwm & Hwe & Hwn) by done.
  destruct (second_shift m2 e1) as [Hw2 Hs2]; [lia|lia|lia|].
  destruct (shr_fexp prec emax m2 e1 loc_Exact) as [mrs2 e2]. cbn [fst snd] in *.
  assert (Hlow : forall mg eg, canonical mg eg -> scaled (Zpos mg) eg * D <= N ->
    scaled (Zpos mg) eg <= scaled (shr_m mrs2) e2).
  { intros mg eg Hg Hle. rewrite Hs2.
    pose proof (window_lower m1 e1 N D mg eg Hw HD ltac:(lia) Hg Hle).
    pose proof (scaled_le m1 m2 e1 ltac:(lia)). lia. }
  assert (Hupp : forall mg eg, canonical mg eg -> N <= scaled (Zpos mg) eg * D ->
    scaled (shr_m mrs2) e2 <= scaled (Zpos mg) eg).
  { intros mg eg Hg Hle. rewrite Hs2. destruct Hm2 as [->|[-> Hlt]].
    - apply (Zmult_le_reg_r _ _ D); lia.
    - by apply (window_upper m1 e1 N D). }
  assert (Hpos : forall mg eg, canonical mg eg -> 0 < scaled (Zpos mg) eg).
  { intros mg eg [Hg _]. change 0 with (scaled 0 eg). apply scaled_lt; lia. }
  destruct Hw2 as (Hmm & He2 & Hn2). destruct (shr_m mrs2) as [|m|m] eqn:Em; [| |lia].
  - split; [by left| |done]. intros mg eg Hg Hle.
    pose proof (Hlow mg eg Hg Hle). pose proof (Hpos mg eg Hg).
    change (scaled 0 e2) with 0 in *. lia.
  - change (emax - prec) with 971. destruct (Z.leb_spec e2 971).
    + split; [right; left|done|done]. exists m, e2. split; [done|].
      unfold canonical. lia.
    + split; [by right; right|done|]. intros mg eg Hg Hle.
      pose proof (Hupp mg eg Hg Hle). destruct Hg as (Hg1 & Hg2 & _).
      replace e2 with (eg + (e2 - eg)) in * by lia. rewrite scaled_shift in * by lia.
      assert (2 ^ 1 <= 2 ^ (e2 - eg)) by (apply Z.pow_le_mono_r; lia).
      assert (Z.pos m * 2 ^ (e2 - eg) <= Z.pos mg); [|lia].
      apply (scaled_cancel_le _ _ eg 1); lia.
Qed.

(** ** The operations *)

Definition valid (f : float64) : Prop :=
  match f with S754_finite _ m e => canonical m e | _ => True end.

Lemma rounded_valid sx N D r : rounded sx N D r -> valid r.
Proof. intros [[->|[(m & e & -> & ?)| ->]] _ _]; done. Qed.

Lemma canonical_eq m1 e1 m2 e2 :
  canonical m1 e1 -> canonical m2 e2 -> scaled (Zpos m1) e1 = scaled (Zpos m2) e2 ->
  m1 = m2 /\ e1 = e2.
Proof.
  intros H1 H2 E. pose proof (proj1 (canonical_order _ _ _ _ H1 H2) ltac:(lia)).
  pose proof (proj1 (canonical_order _ _ _ _ H2 H1) ltac:(lia)). unfold lex_lt in *. lia.
Qed.

(** A representable value is not changed by rounding. *)
Lemma rounded_exact sx D r m e :
  0 < D -> canonical m e -> rounded sx (scaled (Zpos m) e * D) D r -> r = S754_finite sx m e.
Proof.
  intros HD Hc [Hs Hl Hu]. specialize (Hl m e Hc ltac:(lia)). specialize (Hu m e Hc ltac:(lia)).
  destruct Hs as [->|[(m' & e' & -> & Hc')| ->]]; [done| |done].
  destruct (canonical_eq m' e' m e Hc' Hc ltac:(lia)) as [-> ->]. done.
Qed.

Lemma digits_shift p d : digits2_pos (Pos.iter xO p d) = (digits2_pos p + d)%positive.
Proof.
  induction d as [|d IH] using Pos.peano_ind; [cbn; lia|].
  rewrite Pos.iter_succ. cbn [digits2_pos]. rewrite IH. lia.
Qed.

Lemma iter_xO p d : Zpos (Pos.iter xO p d) = Zpos p * 2 ^ Zpos d.
Proof.
  induction d as [|d IH] using Pos.peano_ind; [cbn; lia|].
  rewrite Pos.iter_succ, Pos2Z.inj_succ, Z.pow_succ_r by lia. lia.
Qed.

Lemma round_rounded sx m e :
  -3000 <= e -> rounded sx (scaled (Zpos m) e) 1 (binary_round prec emax sx m e).
Proof.
  intros He. unfold binary_round, shl_align. rewrite fexp_eq.
  destruct (Z.max (Z.pos (digits2_pos m) + e - 53) (-1074) - e) as [|p|p] eqn:E.
  - apply round_aux_rounded; cbn [Zdigits2]; rewrite ?fexp_eq; lia.
  - apply round_aux_rounded; cbn [Zdigits2]; rewrite ?fexp_eq; lia.
  - apply round_aux_rounded; cbn [Zdigits2]; rewrite ?fexp_eq, ?digits_shift; try lia.
    set (t := Z.max (Z.pos (digits2_pos m) + e - 53) (-1074)) in *.
    replace e with (t + Z.pos p) by lia. rewrite iter_xO, scaled_shift by lia. lia.
Qed.

(** Every short significand has a canonical form. *)
Lemma canonical_exists m e :
  0 < m < 2 ^ 53 -> -1074 <= e <= 971 ->
  exists m' e', canonical m' e' /\ scaled (Zpos m') e' = scaled m e.
Proof.
  intros Hm He. pose proof (Zdigits2_spec m ltac:(lia)) as Hd.
  pose proof (Zdigits2_le m 53 ltac:(lia) ltac:(lia) ltac:(lia)).
  set (k := Z.min (53 - Zdigits2 m) (e + 1074)).
  assert (0 < 2 ^ k) by (apply Z.pow_pos_nonneg; lia).
  exists (Z.to_pos (m * 2 ^ k)), (e - k). rewrite Z2Pos.id by lia. split.
  - unfold canonical. rewrite Z2Pos.id by lia. split; [lia|split].
    + apply Z.lt_le_trans with (2 ^ Zdigits2 m * 2 ^ k); [apply Z.mul_lt_mono_pos_r; lia|].
      assert (0 < Zdigits2 m) by (destruct m; cbn; lia).
      rewrite <- Z.pow_add_r by lia. apply Z.pow_le_mono_r; lia.
    + destruct (Z.le_gt_cases (53 - Zdigits2 m) (e + 1074)); [left|right; lia].
      replace 52 with (Zdigits2 m - 1 + k) by lia.
      assert (0 < Zdigits2 m) by (destruct m; cbn; lia).
      rewrite Z.pow_add_r by lia. apply Z.mul_le_mono_nonneg_r; lia.
  - replace e with (e - k + k) at 2 by lia. by rewrite scaled_shift by lia.
Qed.

Lemma of_int_rounded z : 0 < z -> rounded false (scaled z 0) 1 (of_int z).
Proof.
  intros Hz. destruct z as [|p|p]; [lia| |lia].
  unfold of_int, binary_normalize. by apply round_rounded.
Qed.

(** Integers below 2^53 convert exactly. *)
Lemma of_int_exact z :
  0 < z < 2 ^ 53 -> exists m e, of_int z = S754_finite false m e /\ canonical m e /\
    scaled (Zpos m) e = scaled z 0.
Proof.
  intros Hz. destruct (canonical_exists z 0 Hz ltac:(lia)) as (m & e & Hc & Hs).
  exists m, e. split_and!; [|done|done]. apply (rounded_exact false 1); [lia|done|].
  rewrite Hs, Z.mul_1_r. apply of_int_rounded. lia.
Qed.

Lemma shl_align_pos m e e' :
  e' <= e -> Zpos (shl_align m e e').1 = Zpos m * 2 ^ (e - e').
Proof.
  intros He. unfold shl_align. destruct (e' - e) as [|p|p] eqn:E; cbn [fst].
  - replace (e - e') with 0 by lia. lia.
  - lia.
  - rewrite iter_xO. do 2 f_equal. lia.
Qed.

Lemma fadd_pos_rounded m1 e1 m2 e2 :
  canonical m1 e1 -> canonical m2 e2 ->
  rounded false (scaled (Zpos m1) e1 + scaled (Zpos m2) e2) 1
    (fadd (S754_finite false m1 e1) (S754_finite false m2 e2)).
Proof.
  intros [H1 _] [H2 _]. unfold fadd, SFadd. cbn [cond_Zopp].
  set (ez := Z.min e1 e2). rewrite !shl_align_pos by lia.
  set (s := Z.pos m1 * 2 ^ (e1 - ez) + Z.pos m2 * 2 ^ (e2 - ez)).
  assert (0 < 2 ^ (e1 - ez)) by (apply Z.pow_pos_nonneg; lia).
  assert (0 < 2 ^ (e2 - ez)) by (apply Z.pow_pos_nonneg; lia).
  replace (scaled (Z.pos m1) e1 + scaled (Z.pos m2) e2) with (scaled s ez).
  - assert (0 < s) by lia. destruct s as [|p|p]; [lia| |lia]. apply round_rounded. lia.
  - rewrite (scaled_at (Z.pos m1) e1 ez), (scaled_at (Z.pos m2) e2 ez) by lia.
    unfold s, scaled. lia.
Qed.

Lemma mul_digits m1 m2 : Zpos (digits2_pos m1) + Zpos (digits2_pos m2) - 1 <= Zpos (digits2_pos (m1 * m2)).
Proof.
  pose proof (digits_spec m1) as [H1 _]. pose proof (digits_spec m2) as [H2 _].
  pose proof (digits_ge (m1 * m2) (Zpos (digits2_pos m1) - 1 + (Zpos (digits2_pos m2) - 1)) ltac:(lia)) as H.
  rewrite Z.pow_add_r in H by lia. rewrite Pos2Z.inj_mul in H.
  assert (0 < 2 ^ (Z.pos (digits2_pos m1) - 1)) by (apply Z.pow_pos_nonneg; lia).
  assert (0 < 2 ^ (Z.pos (digits2_pos m2) - 1)) by (apply Z.pow_pos_nonneg; lia).
  specialize (H ltac:(apply Z.mul_le_mono_nonneg; lia)). lia.
Qed.

Lemma fmul_pos_rounded m1 e1 m2 e2 :
  canonical m1 e1 -> canonical m2 e2 ->
  rounded false (scaled (Zpos (m1 * m2)) (e1 + e2)) 1
    (fmul (S754_finite false m1 e1) (S754_finite false m2 e2)).
Proof.
  intros (H1 & Hm1 & Hn1) (H2 & Hm2 & Hn2). unfold fmul, SFmul. cbn [xorb].
  apply round_aux_rounded; [lia| |lia|lia]. cbn [Zdigits2]. rewrite fexp_eq.
  pose proof (mul_digits m1 m2). split; [lia|].
  destruct Hn1 as [Hn1| ->].
  { pose proof (digits_ge m1 52 ltac:(lia) Hn1). lia. }
  destruct Hn2 as [Hn2| ->]; [|lia]. pose proof (digits_ge m2 52 ltac:(lia) Hn2). lia.
Qed.

Lemma new_location_spec m r : 0 < m ->
  match new_location m r with loc_Exact => r = 0 | loc_Inexact _ => r <> 0 end.
Proof.
  intros Hm. unfold new_location, new_location_even, new_location_odd.
  destruct (Z.even m), (Z.eqb_spec r 0); done.
Qed.

(** The quotient [N/D] that [fdiv] rounds, as an exponent and a numerator. *)
Lemma fdiv_pos_rounded m1 e1 m2 e2 :
  canonical m1 e1 -> canonical m2 e2 ->
  exists s e', 0 <= s /\ -3000 <= e' /\ e' + s = e1 - e2 /\
  rounded false (scaled (Zpos m1 * 2 ^ s) e') (Zpos m2)
    (fdiv (S754_finite false m1 e1) (S754_finite false m2 e2)).
Proof.
  intros (H1 & Hm1 & Hn1) (H2 & Hm2 & Hn2). unfold fdiv, SFdiv. cbn [xorb].
  unfold SFdiv_core_binary. cbn [Zdigits2].
  set (d1 := Zpos (digits2_pos m1)). set (d2 := Zpos (digits2_pos m2)).
  set (e' := Z.min (fexp prec emax (d1 + e1 - (d2 + e2))) (e1 - e2)).
  assert (e' = Z.min (Z.max (d1 + e1 - (d2 + e2) - 53) (-1074)) (e1 - e2)) as He' by done.
  clearbody e'. assert (0 < d1 /\ d1 <= 53 /\ 0 < d2 /\ d2 <= 53) as Hd.
  { split_and!; [done|by apply digits_le|done|by apply digits_le]. }
  set (s := e1 - e2 - e').
  assert (0 <= s) as Hs by lia.
  assert (match s with 0 => Z.pos m1 | Z.pos _ => Z.shiftl (Z.pos m1) s | Z.neg _ => 0 end
    = Z.pos m1 * 2 ^ s) as ->.
  { destruct s as [|p|p]; [lia| |lia]. by rewrite Z.shiftl_mul_pow2. }
  set (M := Z.pos m1 * 2 ^ s).
  pose proof (Z.div_eucl_eq M (Z.pos m2) ltac:(lia)) as Hq.
  pose proof (Z.mod_pos_bound M (Z.pos m2) ltac:(lia)) as Hr. unfold Z.modulo in Hr.
  destruct (Z.div_eucl M (Z.pos m2)) as [q r]. 
  assert (0 < 2 ^ s) by (apply Z.pow_pos_nonneg; lia).
  assert (0 <= q) by nia.
  exists s, e'. split_and!; [done|lia|lia|].
  assert (scaled M e' = scaled q e' * Z.pos m2 + scaled r e') as HN.
  { rewrite Hq. unfold scaled. lia. }
  apply round_aux_rounded; [done| |lia|].
  - split; [lia|]. rewrite fexp_eq.
    pose proof (digits_spec m1) as [Hd1 _]. pose proof (digits_spec m2) as [_ Hd2].
    fold d1 in Hd1. fold d2 in Hd2.
    destruct (Z.le_gt_cases (d1 + e1 - (d2 + e2) - 53) (-1074)); [lia|].
    assert (d1 - 1 + s - d2 + 1 <= Zdigits2 q); [|lia].
    destruct (Z.le_gt_cases (d1 + s - d2) (Zdigits2 q)) as [|Hlt]; [lia|exfalso].
    assert (0 <= Zdigits2 q) by by destruct q.
    assert (q < 2 ^ Zdigits2 q) as Hqd.
    { destruct (Z.eq_dec q 0) as [->|]; [done|]. apply Zdigits2_spec. lia. }
    assert (q + 1 <= 2 ^ (d1 - 1 + s - d2)).
    { apply Z.le_trans with (2 ^ Zdigits2 q); [lia|]. apply Z.pow_le_mono_r; lia. }
    assert (M < (q + 1) * 2 ^ d2) by nia.
    assert ((q + 1) * 2 ^ d2 <= 2 ^ (d1 - 1 + s)).
    { replace (d1 - 1 + s) with (d1 - 1 + s - d2 + d2) by lia.
      rewrite (Z.pow_add_r _ (d1 - 1 + s - d2)) by lia. apply Z.mul_le_mono_nonneg_r; lia. }
    rewrite Z.pow_add_r in * by lia. assert (2 ^ (d1 - 1) * 2 ^ s <= M); [|lia].
    apply Z.mul_le_mono_nonneg_r; lia.
  - pose proof (new_location_spec (Z.pos m2) r ltac:(lia)) as Hl.
    assert (scaled r e' < scaled (Z.pos m2) e') by (apply scaled_lt; lia).
    assert (scaled (q + 1) e' * Z.pos m2 = scaled q e' * Z.pos m2 + scaled (Z.pos m2) e').
    { unfold scaled. lia. }
    fold M. destruct (new_location (Z.pos m2) r) as [|c].
    + rewrite Hl in HN. change (scaled 0 e') with 0 in HN. lia.
    + assert (scaled 0 e' < scaled r e') by (apply scaled_lt; lia).
      change (scaled 0 e') with 0 in *. lia.
Qed.

(** ** Nonnegative figures *)

Lemma finite_fle m1 e1 m2 e2 :
  canonical m1 e1 -> canonical m2 e2 ->
  (fle (S754_finite false m1 e1) (S754_finite false m2 e2)
   <-> scaled (Zpos m1) e1 <= scaled (Zpos m2) e2).
Proof. intros H1 H2. cbn. symmetry. by apply canonical_order. Qed.

(** The shapes of a nonnegative number. *)
Lemma fnonneg_inv x : fnonneg x ->
  (exists s, x = S754_zero s) \/ x = S754_infinity false \/ (exists m e, x = S754_finite false m e).
Proof.
  unfold fnonneg, fzero. destruct x as [s|[]| |s m e]; cbn; try done; [eauto|auto|].
  intros ->. eauto.
Qed.

(** A rounded positive result dominates the canonical numbers its exact value does. *)
Lemma rounded_ge N D r m e :
  canonical m e -> rounded false N D r -> scaled (Zpos m) e * D <= N ->
  fle (S754_finite false m e) r.
Proof.
  intros Hc Hr Hle. pose proof (rd_lower _ _ _ _ Hr m e Hc Hle) as Hl.
  destruct (rd_shape _ _ _ _ Hr) as [->|[(m' & e' & -> & Hc')| ->]]; [done| |done].
  by apply finite_fle.
Qed.

Lemma rounded_le N D r m e :
  canonical m e -> rounded false N D r -> N <= scaled (Zpos m) e * D ->
  fle r (S754_finite false m e).
Proof.
  intros Hc Hr Hle. pose proof (rd_upper _ _ _ _ Hr m e Hc Hle) as Hl.
  destruct (rd_shape _ _ _ _ Hr) as [->|[(m' & e' & -> & Hc')| ->]]; [done| |done].
  by apply finite_fle.
Qed.

Lemma rounded_nonneg N D r : rounded false N D r -> fnonneg r.
Proof. intros [[->|[(m & e & -> & ?)| ->]] _ _]; done. Qed.

Lemma scaled_pos m e : -3000 <= e -> 0 < scaled (Zpos m) e.
Proof. intros. change 0 with (scaled 0 e). apply scaled_lt; lia. Qed.

(** Adding a nonnegative amount gives a nonnegative total that is below neither. *)
Lemma fadd_ge x y :
  valid x -> valid y -> fnonneg x -> fnonneg y ->
  valid (fadd x y) /\ fnonneg (fadd x y) /\ fle x (fadd x y) /\ fle y (fadd x y).
Proof.
  intros Vx Vy Hx Hy.
  destruct (fnonneg_inv x Hx) as [[sx ->]|[->|(m1 & e1 & ->)]],
    (fnonneg_inv y Hy) as [[sy ->]|[->|(m2 & e2 & ->)]];
    try (cbn; unfold fnonneg; cbn; repeat case_match; cbn; split_and!; done).
  - unfold fadd, SFadd. split_and!; auto with float.
  - unfold fadd, SFadd. split_and!; auto with float.
  - pose proof (fadd_pos_rounded m1 e1 m2 e2 Vx Vy) as Hr. cbn in Vx, Vy.
    pose proof (scaled_pos m1 e1 ltac:(destruct Vx; lia)).
    pose proof (scaled_pos m2 e2 ltac:(destruct Vy; lia)).
    split_and!; [by eapply rounded_valid|by eapply rounded_nonneg| |];
      eapply rounded_ge; [done|exact Hr|lia|done|exact Hr|lia].
Qed.

(** The product of nonnegative numbers is nonnegative, unless it is 0 * Inf. *)
Lemma fmul_nonneg x y :
  valid x -> valid y -> fnonneg x -> fnonneg y -> is_inf x = false -> is_inf y = false ->
  valid (fmul x y) /\ fnonneg (fmul x y).
Proof.
  intros Vx Vy Hx Hy Ix Iy.
  destruct (fnonneg_inv x Hx) as [[sx ->]|[->|(m1 & e1 & ->)]],
    (fnonneg_inv y Hy) as [[sy ->]|[->|(m2 & e2 & ->)]]; try done.
  pose proof (fmul_pos_rounded m1 e1 m2 e2 Vx Vy) as Hr.
  split; [by eapply rounded_valid|by eapply rounded_nonneg].
Qed.

Lemma scaled_mul m e m' e' :
  -1500 <= e -> -1500 <= e' ->
  scaled (Zpos (m * m')) (e + e') * units 0 = scaled (Zpos m) e * scaled (Zpos m') e'.
Proof.
  intros He He'. unfold scaled. rewrite Pos2Z.inj_mul.
  transitivity (Z.pos m * Z.pos m' * (units (e + e') * units 0)); [ring|].
  rewrite (units_mul (e + e') 0 e e') by lia. ring.
Qed.

(** Multiplying by a factor of at least one never lowers a positive number. *)
Definition fone : float64 := of_int 1.

Lemma fone_val : exists m e, fone = S754_finite false m e /\ canonical m e /\ scaled (Zpos m) e = units 0.
Proof. exact (of_int_exact 1 ltac:(lia)). Qed.

Lemma fmul_ge_l m e k :
  canonical m e -> valid k -> fle fone k -> fle (S754_finite false m e) (fmul (S754_finite false m e) k).
Proof.
  intros Hc Vk Hk. destruct fone_val as (m1 & e1 & E1 & Hc1 & Hs1). rewrite E1 in Hk.
  destruct k as [s|[]| |[] mk ek]; try done.
  eapply rounded_ge; [done|by apply fmul_pos_rounded|]. cbn in Vk.
  apply finite_fle in Hk; [|done|done]. rewrite Hs1 in Hk.
  rewrite Z.mul_1_r. apply (Zmult_le_reg_r _ _ (units 0)); [by apply Z.lt_gt, units_pos|].
  replace (scaled (Z.pos (m * mk)) (e + ek) * units 0) with (scaled (Zpos m) e * scaled (Zpos mk) ek).
  - apply Z.mul_le_mono_nonneg_l; [|lia]. apply Z.lt_le_incl, scaled_pos. destruct Hc; lia.
  - symmetry. apply scaled_mul; [destruct Hc; lia|destruct Vk; lia].
Qed.

(** Dividing: at least one exactly when the numerator is at least the
    denominator, with no rounding error in either direction. *)
Lemma quotient_below_one m1 e1 m2 e2 :
  canonical m1 e1 -> canonical m2 e2 -> scaled (Zpos m1) e1 < scaled (Zpos m2) e2 ->
  scaled (Zpos m1 * 2 ^ 53) e1 <= scaled (Zpos m2 * (2 ^ 53 - 1)) e2.
Proof.
  intros C1 C2 Hlt. pose proof (proj1 (canonical_order _ _ _ _ C1 C2) ltac:(lia)) as Hn.
  destruct C1 as (H1 & Hm1 & Hn1), C2 as (H2 & Hm2 & Hn2).
  unfold lex_lt in Hn. destruct (Z.eq_dec e1 e2) as [->|Hne].
  - apply scaled_le. assert (Z.pos m1 < Z.pos m2) by (apply (scaled_cancel_lt _ _ e2 1); lia). lia.
  - assert (e1 < e2) by lia. destruct Hn2 as [Hn2|]; [|lia].
    rewrite (scaled_at _ e2 e1) by lia. apply scaled_le.
    apply Z.le_trans with ((2 ^ 52 * (2 ^ 53 - 1)) * 2); [lia|].
    apply Z.mul_le_mono_nonneg; [lia|nia|lia|].
    change 2 with (2 ^ 1) at 1. apply Z.pow_le_mono_r; lia.
Qed.

(** The exact quotient compared with a number of units: [X <= x/y] is
    [X * y <= x] with the units written out. *)
Lemma fdiv_quotient m1 e1 m2 e2 :
  canonical m1 e1 -> canonical m2 e2 ->
  exists N, rounded false N (Zpos m2) (fdiv (S754_finite false m1 e1) (S754_finite false m2 e2)) /\
  forall X, (X * Zpos m2 <= N <-> X * scaled (Zpos m2) e2 <= scaled (Zpos m1) e1 * units 0) /\
            (N <= X * Zpos m2 <-> scaled (Zpos m1) e1 * units 0 <= X * scaled (Zpos m2) e2).
Proof.
  intros C1 C2. destruct (fdiv_pos_rounded m1 e1 m2 e2 C1 C2) as (s & e' & Hs & He' & Hes & Hr).
  exists (scaled (Zpos m1 * 2 ^ s) e'). split; [done|].
  destruct C1 as [H1 _], C2 as [H2 _].
  assert (scaled (Zpos m1 * 2 ^ s) e' * units e2 = scaled (Zpos m1) e1 * units 0) as Hnum.
  { rewrite <- scaled_shift, Hes by lia. unfold scaled.
    rewrite <- !Z.mul_assoc. f_equal. apply units_mul; lia. }
  pose proof (units_pos e2 ltac:(lia)) as Hp.
  intros X. rewrite <- Hnum.
  replace (X * scaled (Z.pos m2) e2) with (X * Zpos m2 * units e2) by (unfold scaled; ring).
  split; apply Z.mul_le_mono_pos_r; exact Hp.
Qed.

Lemma fdiv_ge_one m1 e1 m2 e2 :
  canonical m1 e1 -> canonical m2 e2 ->
  fleb fone (fdiv (S754_finite false m1 e1) (S754_finite false m2 e2)) =
  fleb (S754_finite false m2 e2) (S754_finite false m1 e1).
Proof.
  intros C1 C2. destruct fone_val as (mo & eo & Eo & Co & So). rewrite Eo.
  destruct (fdiv_quotient m1 e1 m2 e2 C1 C2) as (N & Hr & HX).
  apply eq_true_iff_eq. rewrite !fleb_fle, finite_fle by done. split.
  - intros Hle. destruct (Z.le_gt_cases (scaled (Z.pos m2) e2) (scaled (Z.pos m1) e1)) as [|Hlt]; [done|].
    exfalso. pose proof (quotient_below_one _ _ _ _ C1 C2 Hlt) as Hq.
    set (mb := Z.to_pos (2 ^ 53 - 1)).
    assert (canonical mb (-53)) as Cb by (unfold canonical, mb; cbn; lia).
    assert (Zpos mb = 2 ^ 53 - 1) as Emb by done.
    assert (units 0 = 2 ^ 53 * units (-53)) as U by (apply (units_shift (-53) 53); lia).
    pose proof (units_pos (-53) ltac:(lia)) as Up.
    assert (fle (S754_finite false mo eo) (S754_finite false mb (-53))) as Hf.
    { eapply fle_trans; [exact Hle|]. eapply rounded_le; [done|exact Hr|].
      apply HX. unfold scaled in Hq |- *. rewrite U, Emb.
      apply (Z.mul_le_mono_nonneg_r _ _ (units (-53))) in Hq; lia. }
    apply finite_fle in Hf; [|done|done]. rewrite So, U in Hf. unfold scaled in Hf.
    rewrite Emb in Hf. apply Z.mul_le_mono_pos_r in Hf; lia.
  - intros Hle. eapply rounded_ge; [done|exact Hr|]. apply HX. rewrite So, Z.mul_comm.
    apply Z.mul_le_mono_nonneg_r; [apply units_nonneg|done].
Qed.

(** ** Rounding up to an integer *)

Lemma ftrunc_exact m e z :
  -3000 <= e -> scaled (Zpos m) e = scaled z 0 -> ftrunc (S754_finite false m e) = Some z.
Proof.
  intros He Hs. cbn. f_equal. destruct (Z.leb_spec 0 e).
  - replace e with (0 + e) in Hs by lia. rewrite scaled_shift in Hs by lia.
    destruct (Z.lt_trichotomy (Zpos m * 2 ^ e) z) as [H'|[H'|H']]; [|done|];
      apply (scaled_lt _ _ 0) in H'; lia.
  - rewrite (scaled_at z 0 e) in Hs by lia.
    assert (Zpos m = z * 2 ^ (0 - e)) as ->.
    { destruct (Z.lt_trichotomy (Zpos m) (z * 2 ^ (0 - e))) as [H'|[H'|H']]; [|done|];
        apply (scaled_lt _ _ e) in H'; lia. }
    replace (0 - e) with (- e) by lia. apply Z.div_mul. apply Z.pow_nonzero; lia.
Qed.

(** [math.Ceil] of a positive [x] up to 2^53 is the integer just above it. *)
Lemma fceil_int m e :
  canonical m e -> scaled (Zpos m) e <= scaled (2 ^ 53) 0 ->
  exists q mq eq, fceil (S754_finite false m e) = S754_finite false mq eq /\ canonical mq eq /\
    scaled (Zpos mq) eq = scaled q 0 /\
    0 < q <= 2 ^ 53 /\ scaled (q - 1) 0 < scaled (Zpos m) e <= scaled q 0.
Proof.
  intros Hc Hle. assert (canonical m e) as (He & Hm & Hn) by done.
  unfold fceil. destruct (Z.leb_spec 0 e) as [H0|H0].
  - assert (scaled (Zpos m) e = scaled (Zpos m * 2 ^ e) 0) as Hs
      by (replace e with (0 + e) at 1 by lia; apply scaled_shift; lia).
    assert (0 < 2 ^ e) by (apply Z.pow_pos_nonneg; lia).
    exists (Zpos m * 2 ^ e), m, e. rewrite Hs in Hle |- *. split_and!; try done; try lia.
    + destruct (Z.le_gt_cases (Zpos m * 2 ^ e) (2 ^ 53)) as [|H']; [done|].
      apply (scaled_lt _ _ 0) in H'; lia.
    + apply scaled_lt; lia.
  - cbn [cond_Zopp]. set (P := 2 ^ (- e)). set (q := - ((- Zpos m) / P)).
    assert (2 ^ 1 <= P) as HP by (apply Z.pow_le_mono_r; lia).
    pose proof (Z.div_mod (- Zpos m) P ltac:(lia)) as Hd.
    pose proof (Z.mod_pos_bound (- Zpos m) P ltac:(lia)) as Hr.
    assert ((q - 1) * P < Zpos m <= q * P) as Hq by nia.
    assert (0 < q < 2 ^ 53) as Hq53 by nia.
    destruct (Z.eqb_spec q 0); [lia|].
    destruct (of_int_exact q Hq53) as (mq & eq & -> & Cq & Sq).
    exists q, mq, eq. split_and!; try done; try lia;
      rewrite ?(scaled_at (q - 1) 0 e), ?(scaled_at q 0 e) by lia;
      replace (0 - e) with (- e) by lia; fold P; [apply scaled_lt; lia|apply scaled_le; lia].
Qed.

(** [int(math.Ceil(x))] is the ceiling, for a positive [x] up to 2^53. *)
Lemma int_ceil m e :
  canonical m e -> scaled (Zpos m) e <= scaled (2 ^ 53) 0 ->
  let z := int_of (fceil (S754_finite false m e)) in
  0 < z <= 2 ^ 53 /\ scaled (z - 1) 0 < scaled (Zpos m) e <= scaled z 0.
Proof.
  intros Hc Hle z. subst z. destruct (fceil_int m e Hc Hle) as (q & mq & eq & -> & Cq & Sq & Hq & Hs).
  assert (int_of (S754_finite false mq eq) = q) as ->; [|done].
  unfold int_of. rewrite (ftrunc_exact mq eq q) by (done || destruct Cq; lia).
  destruct (Z.leb_spec (- 2 ^ 63) q), (Z.ltb_spec q (2 ^ 63)); cbn [andb]; lia.
Qed.

(** Floats that are integers compare as the integers. *)
Lemma scaled_int_le a b : scaled a 0 <= scaled b 0 <-> a <= b.
Proof.
  split; [|apply scaled_le]. intros Hs. destruct (Z.le_gt_cases a b) as [|H']; [done|].
  apply (scaled_lt _ _ 0) in H'; lia.
Qed.

(** The integer just above a representable half. *)
Lemma int_ceil_eq m e z :
  canonical m e -> z <= 2 ^ 53 -> scaled (z - 1) 0 < scaled (Zpos m) e <= scaled z 0 ->
  int_of (fceil (S754_finite false m e)) = z.
Proof.
  intros Hc Hz Hs. pose proof (scaled_le z (2 ^ 53) 0 Hz).
  destruct (int_ceil m e Hc ltac:(lia)) as [_ Hi].
  set (z' := int_of _) in *.
  destruct (Z.lt_trichotomy z z') as [H'|[H'|H']]; [|done|].
  - pose proof (scaled_le z (z' - 1) 0 ltac:(lia)). lia.
  - pose proof (scaled_le z' (z - 1) 0 ltac:(lia)). lia.
Qed.

Definition ftwo : float64 := of_int 2.

(** Doubling and halving an integer are exact. *)
Lemma ceil_double c : 0 < c < 2 ^ 52 -> int_of (fceil (fmul (of_int c) ftwo)) = 2 * c.
Proof.
  intros Hc. destruct (of_int_exact c ltac:(lia)) as (m & e & -> & C & S).
  destruct (of_int_exact 2 ltac:(lia)) as (m2 & e2 & E2 & C2 & S2).
  destruct (of_int_exact (2 * c) ltac:(lia)) as (m3 & e3 & E3 & C3 & S3).
  unfold ftwo. rewrite E2.
  assert (fmul (S754_finite false m e) (S754_finite false m2 e2) = S754_finite false m3 e3) as ->.
  { apply (rounded_exact false 1); [lia|done|]. rewrite Z.mul_1_r.
    replace (scaled (Z.pos m3) e3) with (scaled (Z.pos (m * m2)) (e + e2));
      [by apply fmul_pos_rounded|].
    apply (Z.mul_reg_r _ _ (units 0)); [pose proof (units_pos 0); lia|].
    rewrite scaled_mul by (destruct C, C2; lia). rewrite S, S2, S3. unfold scaled. lia. }
  apply int_ceil_eq; [done|lia|]. rewrite S3. split; [apply scaled_lt; lia|lia].
Qed.

Lemma ceil_half c : 0 < c < 2 ^ 52 -> int_of (fceil (fdiv (of_int c) ftwo)) = (c + 1) / 2.
Proof.
  intros Hc. destruct (of_int_exact c ltac:(lia)) as (m & e & -> & C & S).
  destruct (of_int_exact 2 ltac:(lia)) as (m2 & e2 & E2 & C2 & S2).
  destruct (canonical_exists c (-1) ltac:(lia) ltac:(lia)) as (m3 & e3 & C3 & S3).
  unfold ftwo. rewrite E2.
  destruct (fdiv_quotient m e m2 e2 C C2) as (N & Hr & HX).
  assert (2 * scaled c (-1) = scaled c 0) as Hhalf.
  { replace 0 with (-1 + 1) by lia. rewrite scaled_shift by lia. unfold scaled. lia. }
  assert (fdiv (S754_finite false m e) (S754_finite false m2 e2) = S754_finite false m3 e3) as ->.
  { apply (rounded_exact false (Zpos m2)); [lia|done|].
    replace (scaled (Z.pos m3) e3 * Z.pos m2) with N; [done|].
    destruct (HX (scaled (Z.pos m3) e3)) as [H1 H2]. rewrite S3, S, S2 in *.
    assert (scaled c (-1) * scaled 2 0 = scaled c 0 * units 0) as E.
    { rewrite <- Hhalf. unfold scaled. lia. }
    apply Z.le_antisymm; [apply H2; lia|apply H1; lia]. }
  pose proof (Z.div_mod (c + 1) 2 ltac:(lia)) as Hd.
  pose proof (Z.mod_pos_bound (c + 1) 2 ltac:(lia)).
  apply int_ceil_eq; [done|lia|]. rewrite S3.
  rewrite (scaled_at _ 0 (-1)), (scaled_at ((c + 1) / 2) 0 (-1)) by lia.
  change (2 ^ (0 - -1)) with 2. split; [apply scaled_lt; lia|apply scaled_le; lia].
Qed.

(** Scaling an integer by a factor between one and two stays between it and its
    double. *)
Lemma fmul_between c k :
  0 < c < 2 ^ 52 -> valid k -> fle fone k -> fle k ftwo ->
  exists m e, fmul (of_int c) k = S754_finite false m e /\ canonical m e /\
    scaled c 0 <= scaled (Zpos m) e <= scaled (2 * c) 0.
Proof.
  intros Hc Vk H1 H2.
  destruct (of_int_exact c ltac:(lia)) as (mc & ec & -> & C & S).
  destruct (of_int_exact (2 * c) ltac:(lia)) as (md & ed & Ed & Cd & Sd).
  destruct fone_val as (m1 & e1 & E1 & C1 & S1).
  destruct (of_int_exact 2 ltac:(lia)) as (m2 & e2 & E2 & C2 & S2).
  rewrite E1 in H1. unfold ftwo in H2. rewrite E2 in H2.
  destruct k as [s|[]| |[] mk ek]; try done. cbn in Vk.
  pose proof (fmul_ge_l mc ec (S754_finite false mk ek) C Vk ltac:(by rewrite E1)) as Hlo.
  pose proof (fmul_pos_rounded mc ec mk ek C Vk) as Hr.
  assert (scaled (Z.pos (mc * mk)) (ec + ek) <= scaled (Zpos md) ed * 1) as Hhi.
  { apply (Zmult_le_reg_r _ _ (units 0)); [by apply Z.lt_gt, units_pos|].
    rewrite scaled_mul by (destruct C, Vk; lia). apply finite_fle in H2; [|done|done].
    rewrite S, Sd, S2 in *. apply Z.le_trans with (scaled c 0 * scaled 2 0).
    - apply Z.mul_le_mono_nonneg_l; [|done]. unfold scaled. pose proof (units_nonneg 0). nia.
    - unfold scaled. lia. }
  pose proof (rounded_le _ _ _ _ _ Cd Hr Hhi) as Hle.
  destruct (rd_shape _ _ _ _ Hr) as [Z0|[(m & e & E & Cm)|I0]].
  - rewrite Z0 in Hlo. done.
  - exists m, e. rewrite E in Hlo, Hle |- *. apply finite_fle in Hlo, Hle; try done.
    rewrite S, Sd in *. by split_and!.
  - rewrite I0 in Hle. done.
Qed.

Lemma ceil_scale_ge c k :
  0 < c < 2 ^ 52 -> valid k -> fle fone k -> fle k ftwo ->
  c <= int_of (fceil (fmul (of_int c) k)) <= 2 * c.
Proof.
  intros Hc Vk H1 H2. destruct (fmul_between c k Hc Vk H1 H2) as (m & e & -> & C & Hlo & Hhi).
  pose proof (scaled_le (2 * c) (2 ^ 53) 0 ltac:(lia)).
  destruct (int_ceil m e C ltac:(lia)) as [_ Hi]. set (z := int_of _) in *.
  assert (c - 1 < z) by (destruct (Z.lt_ge_cases (c - 1) z) as [|H']; [done|];
    apply (scaled_le _ _ 0) in H'; pose proof (scaled_lt (c - 1) c 0 ltac:(lia) ltac:(lia)); lia).
  assert (z - 1 < 2 * c) by (destruct (Z.lt_ge_cases (z - 1) (2 * c)) as [|H']; [done|];
    apply (scaled_le _ _ 0) in H'; lia).
  lia.
Qed.
