(* ===== verification/GoTime.v ===== *)
(** * Instants and durations ([time.Time], [time.Duration])

    An instant is its number of nanoseconds since the Unix epoch, which is what
    [Before], [After], [Equal] and [Sub] compare; a duration is an int64 number
    of nanoseconds and [Sub] saturates at its ends.  Go's zero [time.Time] is
    the first of January of year 1. *)

From Stdlib Require Import SpecFloat.
From S2P Require Import Prelude Float64 Rounding.

Abbreviation Time := Z (only parsing).
Abbreviation Duration := Z (only parsing).

Definition Second : Duration := 1000000000.
Definition Minute : Duration := 60 * Second.
Definition Hour : Duration := 60 * Minute.

Definition zero_time : Time := -62135596800 * Second.
Definition IsZero (t : Time) : bool := t =? zero_time.

Definition Before (t u : Time) : bool := t <? u.
Definition After (t u : Time) : bool := u <? t.

(** Whole seconds since the epoch, rounded down. *)
Definition Unix (t : Time) : Z := t / Second.

Definition maxDuration : Duration := 2 ^ 63 - 1.
Definition minDuration : Duration := - 2 ^ 63.

Definition Sub (t u : Time) : Duration := Z.max minDuration (Z.min maxDuration (t - u)).

(** [d.Hours()]: the whole hours and the fraction are added as [float64]s. *)
Definition Hours (d : Duration) : float64 :=
  fadd (of_int (Z.quot d Hour)) (fdiv (of_int (Z.rem d Hour)) (of_int (60 * 60 * 1000000000))).

Lemma Sub_small t u : minDuration <= t - u <= maxDuration -> Sub t u = t - u.
Proof. unfold Sub. lia. Qed.

Lemma Sub_pos t u : 0 < Sub t u <-> u < t.
Proof. unfold Sub. change minDuration with (- 2 ^ 63). change maxDuration with (2 ^ 63 - 1). lia. Qed.

(** ** [Hours] of a duration is a nonnegative number of hours *)

Lemma fnonneg_le_not_inf x m e : fnonneg x -> fle x (S754_finite false m e) -> is_inf x = false.
Proof. by destruct x as [[]|[]| |[] ? ?]. Qed.

(** The fraction of an hour: at most one. *)
Lemma fraction_bounds r n : 0 < r <= n -> n < 2 ^ 53 ->
  let q := fdiv (of_int r) (of_int n) in
  q = S754_zero false \/
  exists m e, q = S754_finite false m e /\ canonical m e /\ scaled (Zpos m) e <= scaled 1 0.
Proof.
  intros Hr Hn q. unfold q.
  destruct (of_int_exact r ltac:(lia)) as (m1 & e1 & -> & C1 & S1).
  destruct (of_int_exact n ltac:(lia)) as (m2 & e2 & -> & C2 & S2).
  destruct (fdiv_quotient m1 e1 m2 e2 C1 C2) as (N & HN & Hx).
  destruct fone_val as (mo & eo & Eo & Co & So).
  assert (fle (fdiv (S754_finite false m1 e1) (S754_finite false m2 e2)) (S754_finite false mo eo)) as Hle.
  { eapply rounded_le; [done|done|]. rewrite So. apply Hx. rewrite S1, S2, Z.mul_comm.
    apply Z.mul_le_mono_nonneg_l; [apply units_nonneg|]. apply scaled_le. lia. }
  destruct (rd_shape _ _ _ _ HN) as [Hz|[(m & e & Hf & Hc)|Hi]].
  - by left.
  - right. exists m, e. split; [done|]. split; [done|]. rewrite Hf in Hle.
    apply finite_fle in Hle; [|done|done]. rewrite So in Hle.
    unfold scaled at 2. by rewrite Z.mul_1_l.
  - by rewrite Hi in Hle.
Qed.

(** A whole number below 2^50 and a fraction add to a finite number. *)
Lemma whole_plus_fraction q f :
  0 <= q < 2 ^ 50 ->
  (f = S754_zero false \/ exists m e, f = S754_finite false m e /\ canonical m e /\ scaled (Zpos m) e <= scaled 1 0) ->
  valid (fadd (of_int q) f) /\ fnonneg (fadd (of_int q) f) /\ is_inf (fadd (of_int q) f) = false.
Proof.
  intros Hq Hf. destruct (Z.eq_dec q 0) as [->|Hq0].
  { destruct Hf as [->|(m & e & -> & Hc & _)]; by split_and!. }
  destruct (of_int_exact q ltac:(lia)) as (m1 & e1 & -> & C1 & S1).
  destruct Hf as [->|(m2 & e2 & -> & C2 & S2)]; [by split_and!|].
  pose proof (fadd_pos_rounded m1 e1 m2 e2 C1 C2) as Hr.
  destruct (of_int_exact (q + 1) ltac:(lia)) as (m3 & e3 & _ & C3 & S3).
  split; [by eapply rounded_valid|]. assert (fnonneg (fadd (S754_finite false m1 e1) (S754_finite false m2 e2)))
    as Hn by by eapply rounded_nonneg.
  split; [done|]. eapply fnonneg_le_not_inf; [done|]. eapply rounded_le; [exact C3|done|].
  rewrite S3, S1. unfold scaled in *. lia.
Qed.

(** The number of hours in a nonnegative duration is nonnegative and finite. *)
Lemma Hours_nonneg d : 0 <= d <= maxDuration ->
  valid (Hours d) /\ fnonneg (Hours d) /\ is_inf (Hours d) = false.
Proof.
  intros Hd. change maxDuration with 9223372036854775807 in Hd. unfold Hours.
  rewrite Z.quot_div_nonneg, Z.rem_mod_nonneg by (try done; lia).
  change (60 * 60 * 1000000000) with Hour.
  pose proof (Z.mod_pos_bound d Hour ltac:(done)) as Hr.
  apply whole_plus_fraction.
  - split; [apply Z.div_pos; [lia|done]|]. apply Z.div_lt_upper_bound; [done|].
    change Hour with 3600000000000. lia.
  - destruct (Z.eq_dec (d mod Hour) 0) as [->|Hne]; [by left|].
    apply fraction_bounds; [lia|done].
Qed.
