(* ===== verification/Strconv.v ===== *)
(** * Decimal strings ([strconv.Itoa], [strconv.FormatInt], [strconv.ParseInt])

    The persisted documents key their maps by decimal integers written as
    strings.  [FormatInt] prints in base 10; [ParseInt] is [strconv.ParseInt(s,
    10, 64)] (and [strconv.Atoi], which on a 64-bit target accepts the same
    strings): an optional sign, at least one digit, nothing else, and a value
    in the int64 range. *)

From Stdlib Require Import Ascii Decimal DecimalString DecimalZ DecimalFacts.
From S2P Require Import Prelude.

Definition FormatInt (z : Z) : string := NilZero.string_of_int (Z.to_int z).

Definition parse_digits (s : string) : option Z :=
  match s with
  | EmptyString => None
  | _ => Z.of_uint <$> NilEmpty.uint_of_string s
  end.

Definition ParseInt (s : string) : option Z :=
  z ← match s with
      | String "-"%char s => Z.opp <$> parse_digits s
      | String "+"%char s => parse_digits s
      | _ => parse_digits s
      end;
  if (- 2 ^ 63 <=? z) && (z <? 2 ^ 63) then Some z else None.

Definition digit_head (s : string) : Prop :=
  match s with
  | EmptyString | String "-"%char _ | String "+"%char _ => False
  | _ => True
  end.

Lemma string_of_uint_head d : d <> Nil -> digit_head (NilEmpty.string_of_uint d).
Proof. by destruct d. Qed.

Lemma parse_digits_print d :
  d <> Nil -> parse_digits (NilEmpty.string_of_uint d) = Some (Z.of_uint d).
Proof.
  intros Hd. unfold parse_digits.
  destruct (NilEmpty.string_of_uint d) eqn:E; [by destruct d|].
  rewrite <- E, NilEmpty.usu. done.
Qed.

Lemma to_uint_nonnil p : Pos.to_uint p <> Nil.
Proof. apply DecimalPos.Unsigned.to_uint_nonnil. Qed.

Lemma ParseInt_unsigned s : digit_head s ->
  ParseInt s = z ← parse_digits s; if (- 2 ^ 63 <=? z) && (z <? 2 ^ 63) then Some z else None.
Proof.
  destruct s as [|[[] [] [] [] [] [] [] []] s]; try done.
Qed.

Lemma ParseInt_FormatInt z : - 2 ^ 63 <= z < 2 ^ 63 -> ParseInt (FormatInt z) = Some z.
Proof.
  intros Hz. unfold FormatInt, Z.to_int.
  destruct z as [|p|p]; [done| |].
  - assert (NilZero.string_of_int (Pos (Pos.to_uint p)) = NilEmpty.string_of_uint (Pos.to_uint p)) as ->.
    { pose proof (to_uint_nonnil p). cbn. by destruct (Pos.to_uint p). }
    rewrite ParseInt_unsigned by apply string_of_uint_head, to_uint_nonnil.
    rewrite parse_digits_print by apply to_uint_nonnil. cbn.
    replace (Z.of_uint (Pos.to_uint p)) with (Zpos p).
    + by destruct (Z.leb_spec (- 2 ^ 63) (Zpos p)), (Z.ltb_spec (Zpos p) (2 ^ 63)); [|lia..].
    + symmetry. exact (DecimalZ.of_to (Zpos p)).
  - assert (NilZero.string_of_int (Neg (Pos.to_uint p))
        = String "-"%char (NilEmpty.string_of_uint (Pos.to_uint p))) as ->.
    { pose proof (to_uint_nonnil p). cbn. by destruct (Pos.to_uint p). }
    unfold ParseInt. rewrite parse_digits_print by apply to_uint_nonnil. cbn.
    replace (- Z.of_uint (Pos.to_uint p)) with (Zneg p).
    + by destruct (Z.leb_spec (- 2 ^ 63) (Zneg p)), (Z.ltb_spec (Zneg p) (2 ^ 63)); [|lia..].
    + symmetry. exact (DecimalZ.of_to (Zneg p)).
Qed.

Example ParseInt_cases :
  map ParseInt ["12"; "-7"; "+3"; "007"; ""; "-"; "1_0"; "0x1"; "9223372036854775808"]%string
  = [Some 12; Some (-7); Some 3; Some 7; None; None; None; None; None].
Proof. vm_compute. reflexivity. Qed.

Arguments ParseInt : simpl never.
Arguments FormatInt : simpl never.
