(* ===== verification/GoStrings.v ===== *)
(** * Strings ([strings], [fmt] of the simple verbs)

    A Go string is its bytes, as in Rocq's [string].  [bytes] gives them as
    numbers; the library functions the program calls are written on those. *)

From Stdlib Require Import Ascii.
From Stdlib Require String.
From S2P Require Import Prelude.

Definition bytes (s : string) : list Z := map (fun a => Z.of_N (N_of_ascii a)) (String.list_ascii_of_string s).

Definition of_bytes (bs : list Z) : string :=
  String.string_of_list_ascii (map (fun b => ascii_of_N (Z.to_N b)) bs).

Definition len (s : string) : Z := Z.of_nat (String.length s).

Definition isDigit (c : Z) : bool := (48 <=? c) && (c <=? 57).

(** [c | 0x20], the lower case of a letter. *)
Definition lower (c : Z) : Z := Z.lor c 32.

Definition strip_prefix (p s : list Z) : option (list Z) :=
  if decide (take (length p) s = p) then Some (drop (length p) s) else None.

Definition HasPrefix (s p : string) : bool := String.prefix p s.

(** [strings.IndexByte(s, c)]: the text before the first [c] and after it. *)
Fixpoint cutByte (c : ascii) (s : string) : option (string * string) :=
  match s with
  | EmptyString => None
  | String a s =>
      if Ascii.eqb a c then Some ("", s)
      else '(x, y) ← cutByte c s; Some (String a x, y)
  end.

(** [strings.CutPrefix]. *)
Fixpoint CutPrefix (s p : string) : option string :=
  match p, s with
  | EmptyString, _ => Some s
  | String a p, String b s => if Ascii.eqb a b then CutPrefix s p else None
  | String _ _, EmptyString => None
  end.

Definition rev_string (s : string) : string :=
  String.string_of_list_ascii (rev (String.list_ascii_of_string s)).

(** [strings.CutSuffix]; [strings.TrimSuffix] leaves a string without the
    suffix as it is. *)
Definition CutSuffix (s p : string) : option string :=
  rev_string <$> CutPrefix (rev_string s) (rev_string p).
Definition HasSuffix (s p : string) : bool := match CutSuffix s p with Some _ => true | None => false end.
Definition TrimSuffix (s p : string) : string := default s (CutSuffix s p).
Definition TrimPrefix (s p : string) : string := default s (CutPrefix s p).

(** [strings.TrimRight] and [TrimLeft] of one character. *)
Fixpoint trimLeft (c : ascii) (s : string) : string :=
  match s with
  | String a s' => if Ascii.eqb a c then trimLeft c s' else s
  | "" => ""
  end%string.

Definition TrimRight (s : string) (c : ascii) : string := rev_string (trimLeft c (rev_string s)).

Fixpoint Contains (s sub : string) : bool :=
  HasPrefix s sub || match s with String _ s => Contains s sub | EmptyString => false end.

(** [strings.Split(s, c)] for a separator of one byte. *)
Fixpoint SplitByte (c : ascii) (s : string) : list string :=
  match s with
  | EmptyString => [""%string]
  | String a s =>
      if Ascii.eqb a c then ""%string :: SplitByte c s
      else match SplitByte c s with
           | x :: l => String a x :: l
           | [] => [String a ""]
           end
  end.

(** [s[:n]]. *)
Definition prefix_of (n : nat) (s : string) : string := String.substring 0 n s.

(** [strings.Join]. *)
Definition Join (l : list string) (sep : string) : string := String.concat sep l.

(** ** [utf8.ValidString] *)

Definition inRange (lo hi c : Z) : bool := (lo <=? c) && (c <=? hi).
Definition continuation (c : Z) : bool := inRange 128 191 c.

(** The shortest encoding of a code point that is not a surrogate. *)
Fixpoint validUTF8 (s : list Z) : bool :=
  match s with
  | [] => true
  | a :: s1 =>
      if a <? 128 then validUTF8 s1
      else
        match s1 with
        | [] => false
        | b :: s2 =>
            if inRange 194 223 a then continuation b && validUTF8 s2
            else
              match s2 with
              | [] => false
              | c :: s3 =>
                  if inRange 224 239 a then
                    inRange (if a =? 224 then 160 else 128) (if a =? 237 then 159 else 191) b &&
                    continuation c && validUTF8 s3
                  else
                    match s3 with
                    | [] => false
                    | d :: s4 =>
                        inRange 240 244 a &&
                        inRange (if a =? 240 then 144 else 128) (if a =? 244 then 143 else 191) b &&
                        continuation c && continuation d && validUTF8 s4
                    end
              end
        end
  end.

Definition ValidString (s : string) : bool := validUTF8 (bytes s).

Example ValidString_cases :
  map ValidString ["plain"; "µ"; "…"; of_bytes [192; 128]; of_bytes [237; 160; 128]; of_bytes [240; 159; 152; 128];
                   of_bytes [244; 144; 128; 128]; of_bytes [128]]
  = [true; true; true; false; false; true; false; false].
Proof. vm_compute. reflexivity. Qed.

(** ** [strings.TrimSpace]

    The encodings of the code points [unicode.IsSpace] accepts. *)
Definition spaces : list (list Z) :=
  [[9]; [10]; [11]; [12]; [13]; [32]; [194; 133]; [194; 160]; [225; 154; 128];
   [226; 128; 128]; [226; 128; 129]; [226; 128; 130]; [226; 128; 131]; [226; 128; 132];
   [226; 128; 133]; [226; 128; 134]; [226; 128; 135]; [226; 128; 136]; [226; 128; 137];
   [226; 128; 138]; [226; 128; 168]; [226; 128; 169]; [226; 128; 175]; [226; 129; 159];
   [227; 128; 128]].

Definition strip_any (ps : list (list Z)) (s : list Z) : option (list Z) :=
  head (omap (fun p => strip_prefix p s) ps).

Fixpoint trim_left (fuel : nat) (ps : list (list Z)) (s : list Z) : list Z :=
  match fuel with
  | O => s
  | S fuel => match strip_any ps s with Some s => trim_left fuel ps s | None => s end
  end.

Definition trimBytes (s : list Z) : list Z :=
  let s := trim_left (length s) spaces s in
  rev (trim_left (length s) (map (@rev Z) spaces) (rev s)).

Definition TrimSpace (s : string) : string := of_bytes (trimBytes (bytes s)).

Example TrimSpace_example : TrimSpace "  a b	" = "a b".
Proof. vm_compute. reflexivity. Qed.

(** Trimming leaves nothing to trim at the front: the loop has fuel for every byte. *)
Lemma strip_prefix_shorter p s s' :
  strip_prefix p s = Some s' -> p <> [] -> (length s' < length s)%nat.
Proof.
  unfold strip_prefix. case_decide as Hp; [|done]. intros [= <-] Hne. rewrite length_drop.
  assert (length p <= length s)%nat by (rewrite <- Hp at 1; rewrite length_take; lia).
  destruct p; [done|cbn in *; lia].
Qed.

Lemma trim_left_done ps : forall fuel s,
  Forall (fun p => p <> []) ps -> (length s <= fuel)%nat -> strip_any ps (trim_left fuel ps s) = None.
Proof.
  assert (forall s s', strip_any ps s = Some s' -> exists p, p ∈ ps /\ strip_prefix p s = Some s') as Hany.
  { intros s s'. unfold strip_any. intros Hh.
    destruct (omap (fun p => strip_prefix p s) ps) as [|x l] eqn:E; [done|]. cbn in Hh. injection Hh as ->.
    apply list_elem_of_omap. rewrite E. by left. }
  induction fuel as [|fuel IH]; intros s Hne Hlen.
  - destruct s; [|cbn in Hlen; lia]. cbn [trim_left].
    destruct (strip_any ps []) as [s'|] eqn:E; [|done].
    apply Hany in E as (p & Hp & E). rewrite Forall_forall in Hne.
    apply strip_prefix_shorter in E; [cbn in E; lia|by apply Hne].
  - cbn [trim_left]. destruct (strip_any ps s) as [s'|] eqn:E; [|done].
    apply IH; [done|]. apply Hany in E as (p & Hp & E). rewrite Forall_forall in Hne.
    apply strip_prefix_shorter in E; [lia|by apply Hne].
Qed.

(** Text of visible ASCII has no edges to trim. *)
Lemma strip_visible ps s : Forall (fun b => 33 <= b < 128) s -> Forall (fun p => Exists (fun c => c < 33 \/ 128 <= c) (take 1 p)) ps -> strip_any ps s = None.
Proof.
  unfold strip_any. intros Hs. induction 1 as [|p ps Hp _ IH]; [done|]. cbn [omap list_omap].
  assert (strip_prefix p s = None) as ->; [|done]. unfold strip_prefix. destruct (decide _) as [E|]; [|done].
  destruct p as [|c p]; [by apply Exists_nil in Hp|]. destruct s as [|b s]; [done|]. cbn in E. injection E as -> _.
  apply Forall_cons in Hs as [Hb _]. apply Exists_cons in Hp as [Hc|Hc]; [lia|by apply Exists_nil in Hc].
Qed.

Lemma trim_visible s : Forall (fun b => 33 <= b < 128) s -> trimBytes s = s.
Proof.
  intros Hs. unfold trimBytes. assert (forall n ps s, strip_any ps s = None -> trim_left n ps s = s) as Ht by (intros [|n] ps s'; cbn; [done|by intros ->]).
  assert (trim_left (length s) spaces s = s) as ->.
  { apply Ht, strip_visible; [done|]. apply (bool_decide_unpack _). vm_compute. exact I. }
  rewrite Ht; [apply rev_involutive|]. apply strip_visible; [by apply List.Forall_rev|].
  apply (bool_decide_unpack _). vm_compute. exact I.
Qed.

(** ** The order of strings: bytewise

    [a < b] on strings, and [sort.Strings]. *)
Definition string_ltb (a b : string) : bool :=
  match String.compare a b with Lt => true | _ => false end.

Definition sort_strings (l : list string) : list string := sort_slice string_ltb l.

(** The order [sort_strings] sorts by. *)
Definition string_le (a b : string) : Prop := string_ltb b a = false.

Lemma string_ltb_cons a s b t :
  string_ltb (String a s) (String b t) = true <->
  (N_of_ascii a < N_of_ascii b)%N \/ (a = b /\ string_ltb s t = true).
Proof.
  unfold string_ltb. cbn [String.compare]. unfold Ascii.compare.
  destruct (N.compare_spec (N_of_ascii a) (N_of_ascii b)) as [E|E|E].
  - apply (f_equal ascii_of_N) in E. rewrite !ascii_N_embedding in E. subst b.
    split; [tauto|]. intros [?|[_ ?]]; [lia|done].
  - split; [tauto|done].
  - split; [done|]. intros [?|[-> _]]; lia.
Qed.

Lemma string_ltb_trans a b c : string_ltb a b = true -> string_ltb b c = true -> string_ltb a c = true.
Proof.
  revert b c. induction a as [|x a IH]; intros [|y b] [|z c]; try done.
  rewrite !string_ltb_cons. intros [?|[-> ?]] [?|[-> ?]]; [left; lia|tauto|tauto|].
  right. split; [done|]. by eapply IH.
Qed.

Lemma string_ltb_asym a b : string_ltb a b = true -> string_ltb b a = false.
Proof.
  unfold string_ltb. rewrite (String.compare_antisym b a). by destruct (String.compare a b).
Qed.

Lemma string_ltb_total a b : string_ltb a b = false -> string_ltb b a = false -> a = b.
Proof.
  unfold string_ltb. rewrite (String.compare_antisym b a).
  destruct (String.compare a b) eqn:E; try done. intros _ _. by apply String.compare_eq_iff.
Qed.

Lemma string_le_trans : Transitive string_le.
Proof.
  intros a b c Hab Hbc. unfold string_le in *.
  destruct (string_ltb c a) eqn:E; [|done].
  destruct (string_ltb a b) eqn:E1.
  - by rewrite (string_ltb_trans c a b) in Hbc.
  - rewrite (string_ltb_total a b) in E by done. congruence.
Qed.

#[export] Hint Resolve string_ltb_asym string_le_trans : go.

Lemma sort_strings_sorted l : StronglySorted string_le (sort_strings l).
Proof.
  apply sort_slice_strong; auto with go.
Qed.

Lemma sort_strings_perm l : sort_strings l ≡ₚ l.
Proof. apply sort_slice_perm. Qed.

(** ** Prefixes, suffixes and parts *)

Lemma cons_app x (a b : string) : String x a +:+ b = String x (a +:+ b).
Proof. done. Qed.

Lemma nil_app (b : string) : "" +:+ b = b.
Proof. done. Qed.

Lemma app_string_assoc (a b c : string) : (a +:+ b) +:+ c = a +:+ (b +:+ c).
Proof. induction a as [|x a IH]; [done|]. rewrite ?cons_app; cbn; rewrite ?cons_app. by rewrite IH. Qed.

Lemma app_string_nil_r (a : string) : a +:+ "" = a.
Proof. induction a as [|x a IH]; [done|]. by rewrite cons_app, IH. Qed.

Lemma app_string_inj (p a b : string) : p +:+ a = p +:+ b -> a = b.
Proof. induction p as [|x p IH]; [done|]. rewrite !cons_app. intros [= E]. by apply IH. Qed.

Lemma CutPrefix_spec p : forall s r, CutPrefix s p = Some r <-> s = p +:+ r.
Proof.
  induction p as [|a p IH]; intros s r; [rewrite nil_app; destruct s; cbn; split; congruence|].
  destruct s as [|b s]; [done|]. cbn [CutPrefix]. destruct (Ascii.eqb_spec a b) as [->|Hn].
  - rewrite IH, cons_app. split; [by intros ->|by intros [= ->]].
  - rewrite cons_app. split; [done|]. intros [= E _]. by destruct Hn.
Qed.

Lemma HasPrefix_spec s p : HasPrefix s p = true <-> exists r, s = p +:+ r.
Proof.
  revert s. induction p as [|a p IH]; intros s; [by split; [exists s|destruct s]|].
  unfold HasPrefix in *. destruct s as [|b s]; cbn [String.prefix].
  - split; [done|]. by intros [r Hr].
  - case_match.
    + subst. rewrite IH. split; [intros [r ->]; by exists r|]. intros [r Hr]. rewrite cons_app in Hr.
      injection Hr as ->. by exists r.
    + split; [done|]. intros [r Hr]. rewrite cons_app in Hr. congruence.
Qed.

Lemma list_ascii_app a b : String.list_ascii_of_string (a +:+ b)
  = String.list_ascii_of_string a ++ String.list_ascii_of_string b.
Proof. induction a as [|x a IH]; [done|]. rewrite ?cons_app; cbn; rewrite ?cons_app. by rewrite IH. Qed.

Lemma string_of_app a b : String.string_of_list_ascii (a ++ b)
  = String.string_of_list_ascii a +:+ String.string_of_list_ascii b.
Proof. induction a as [|x a IH]; [done|]. rewrite ?cons_app; cbn; rewrite ?cons_app. by rewrite IH. Qed.

Lemma rev_string_app a b : rev_string (a +:+ b) = rev_string b +:+ rev_string a.
Proof. unfold rev_string. by rewrite list_ascii_app, rev_app_distr, string_of_app. Qed.

Lemma rev_string_invol s : rev_string (rev_string s) = s.
Proof.
  unfold rev_string. rewrite String.list_ascii_of_string_of_list_ascii, rev_involutive.
  apply String.string_of_list_ascii_of_string.
Qed.

Lemma CutSuffix_spec s p r : CutSuffix s p = Some r <-> s = r +:+ p.
Proof.
  unfold CutSuffix. rewrite fmap_Some. split.
  - intros (x & Hx & ->). apply CutPrefix_spec in Hx.
    rewrite <- (rev_string_invol s), Hx, rev_string_app, rev_string_invol. done.
  - intros ->. exists (rev_string r). rewrite rev_string_invol. split; [|done].
    apply CutPrefix_spec, rev_string_app.
Qed.

Lemma TrimSuffix_app r p : TrimSuffix (r +:+ p) p = r.
Proof. unfold TrimSuffix. by rewrite (proj2 (CutSuffix_spec (r +:+ p) p r) eq_refl). Qed.

Lemma HasSuffix_spec s p : HasSuffix s p = true <-> exists r, s = r +:+ p.
Proof.
  unfold HasSuffix. destruct (CutSuffix s p) as [r|] eqn:E.
  - apply CutSuffix_spec in E. split; [by exists r|done].
  - split; [done|]. intros [r Hr]. apply CutSuffix_spec in Hr. congruence.
Qed.

(** A part without separators. *)
Definition without (c : ascii) (s : string) : bool := forallb (fun a => negb (Ascii.eqb a c)) (String.list_ascii_of_string s).

Lemma cutByte_app c m b : without c m = true -> cutByte c (m +:+ String c b) = Some (m, b).
Proof.
  induction m as [|a m IH]; [rewrite nil_app; cbn; by rewrite Ascii.eqb_refl|].
  change (without c (String a m)) with (negb (Ascii.eqb a c) && without c m). intros [Ha Hm]%andb_true_iff.
  apply negb_true_iff in Ha. rewrite cons_app. cbn [cutByte]. rewrite Ha, IH by done. done.
Qed.

Lemma SplitByte_nonempty c s : SplitByte c s <> [].
Proof. destruct s as [|a s]; cbn; [done|]. destruct (Ascii.eqb a c); [done|]. by destruct (SplitByte c s). Qed.

Lemma SplitByte_app_sep c a b : SplitByte c (a +:+ String c b) = SplitByte c a ++ SplitByte c b.
Proof.
  induction a as [|x a IH].
  - rewrite nil_app. cbn. by rewrite Ascii.eqb_refl.
  - rewrite cons_app. cbn. rewrite IH. destruct (Ascii.eqb x c); [done|].
    pose proof (SplitByte_nonempty c a). by destruct (SplitByte c a).
Qed.

Lemma SplitByte_without c s : without c s = true -> SplitByte c s = [s].
Proof.
  unfold without. induction s as [|a s IH]; [done|]. cbn. intros [Ha Hs]%andb_true_iff.
  apply negb_true_iff in Ha. by rewrite Ha, IH.
Qed.

Lemma SplitByte_app c a b : without c a = true ->
  SplitByte c (a +:+ String c b) = a :: SplitByte c b.
Proof.
  unfold without. induction a as [|x a IH].
  - intros _. rewrite nil_app. cbn. by rewrite Ascii.eqb_refl.
  - rewrite cons_app. cbn. intros [Hx Ha]%andb_true_iff. apply negb_true_iff in Hx. by rewrite Hx, IH.
Qed.

(** ** Strings and their bytes *)

Lemma bytes_of_bytes bs : Forall (fun b => 0 <= b < 256) bs -> bytes (of_bytes bs) = bs.
Proof.
  intros Hb. unfold bytes, of_bytes. rewrite String.list_ascii_of_string_of_list_ascii, map_map.
  induction Hb as [|b bs Hb _ IH]; [done|]. cbn [map]. rewrite IH, N_ascii_embedding by lia.
  rewrite Z2N.id by lia. done.
Qed.

Lemma len_bytes s : Z.of_nat (length (bytes s)) = len s.
Proof.
  unfold bytes, len. rewrite length_map. induction s as [|a s IH]; [done|].
  cbn [String.list_ascii_of_string String.length length]. lia.
Qed.

Lemma bytes_range s : Forall (fun b => 0 <= b < 256) (bytes s).
Proof.
  unfold bytes. apply Forall_map, Forall_forall. intros a _. pose proof (N_ascii_bounded a). lia.
Qed.

Lemma of_bytes_bytes s : of_bytes (bytes s) = s.
Proof.
  unfold of_bytes, bytes. rewrite map_map.
  rewrite (map_ext _ id), map_id; [apply String.string_of_list_ascii_of_string|].
  intros a. rewrite N2Z.id. apply ascii_N_embedding.
Qed.

Lemma len_of_bytes bs : len (of_bytes bs) = Z.of_nat (length bs).
Proof.
  rewrite <- len_bytes. unfold bytes, of_bytes.
  by rewrite String.list_ascii_of_string_of_list_ascii, !length_map.
Qed.

Lemma bytes_app a b : bytes (a +:+ b) = bytes a ++ bytes b.
Proof. unfold bytes. by rewrite list_ascii_app, map_app. Qed.
