(* ===== verification/PosText.v ===== *)
(** * Numbers as text

    A positive number written as binary digits.  The examples of codecs outside the
    repository (JSON, YAML) use it to carry any countable value as a string. *)

From Stdlib Require Import Ascii.
From S2P Require Import Prelude GoStrings.

(** The least digit first; [x] ends the number, so no text is the beginning of another. *)
Fixpoint posText (p : positive) : string :=
  match p with xH => "x" | xO p => String "0"%char (posText p) | xI p => String "1"%char (posText p) end.

Fixpoint textPos (s : string) : option positive :=
  match s with
  | String "x"%char "" => Some xH
  | String "0"%char s => xO <$> textPos s
  | String "1"%char s => xI <$> textPos s
  | _ => None
  end.

Lemma textPos_posText p : textPos (posText p) = Some p.
Proof. induction p as [p IH|p IH|]; cbn [posText textPos]; [by rewrite IH..|done]. Qed.

Lemma posText_prefix pre : forall p q rest, posText q = pre +:+ rest -> textPos pre = Some p -> p = q.
Proof.
  induction pre as [|a pre IH]; intros p q rest; [done|]. rewrite cons_app.
  destruct q as [q|q|]; cbn [posText]; intros [= <- E]; cbn [textPos].
  - destruct (textPos pre) as [p'|] eqn:Ep; [|done]. intros [= <-]. f_equal. by eapply IH.
  - destruct (textPos pre) as [p'|] eqn:Ep; [|done]. intros [= <-]. f_equal. by eapply IH.
  - destruct pre; [|done]. by intros [= <-].
Qed.

(** Any countable value. *)
Definition carry {A} `{Countable A} (a : A) : string := posText (encode a).
Definition uncarry {A} `{Countable A} (s : string) : option A := textPos s ≫= decode.

Lemma uncarry_carry {A} `{Countable A} (a : A) : uncarry (carry a) = Some a.
Proof. unfold uncarry, carry. rewrite textPos_posText. cbn. apply decode_encode. Qed.

Lemma carry_prefix {A} `{Countable A} (a b : A) pre rest : carry a = pre +:+ rest -> uncarry pre = Some b -> b = a.
Proof.
  unfold uncarry, carry. destruct (textPos pre) as [p|] eqn:Ep; [|done]. intros E. rewrite (posText_prefix _ _ _ _ E Ep). cbn.
  rewrite decode_encode. by intros [= <-].
Qed.
