(* ===== verification/ParseFloat.v ===== *)
(** * [strconv.ParseFloat(s, 64)]

    The literal syntax (sign, decimal or hexadecimal digits, one dot, exponent,
    digit-separating underscores, the names of the infinities and NaN) and the
    correctly rounded value.  [None] is a syntax or a range error. *)

From Stdlib Require Import SpecFloat.
From S2P Require Import Prelude Float64 GoStrings.

(** [n/d], rounded once, for integers of any size. *)
Definition fratio (neg : bool) (n d : positive) : float64 :=
  let '(q, e, l) := SFdiv_core_binary prec emax (Zpos n) 0 (Zpos d) 0 in
  binary_round_aux prec emax neg q e l.

(** How many bytes of [s] match [w] (lower case), ignoring case. *)
Fixpoint commonPrefix (w s : list Z) : nat :=
  match w, s with
  | a :: w, c :: s =>
      let c := if (65 <=? c) && (c <=? 90) then c + 32 else c in
      if c =? a then S (commonPrefix w s) else O
  | _, _ => O
  end.

(** [special]: the value and how many bytes name it. *)
Definition special (s : list Z) : option (float64 * nat) :=
  let inf neg off s :=
    let n := commonPrefix (bytes "infinity") s in
    let n := if (3 <? n)%nat && (n <? 8)%nat then 3%nat else n in
    if (n =? 3)%nat || (n =? 8)%nat then Some (S754_infinity neg, off + n)%nat else None in
  match s with
  | 43 :: s => inf false 1%nat s
  | 45 :: s => inf true 1%nat s
  | c :: _ =>
      if lower c =? 105 then inf false 0%nat s
      else if (lower c =? 110) && (commonPrefix (bytes "nan") s =? 3)%nat then Some (S754_nan, 3%nat)
      else None
  | [] => None
  end.

(** The mantissa loop: value, digits after the dot, whether a digit and an
    underscore were seen, and the rest of the input. *)
Fixpoint scanMantissa (hex sawdot sawdigits under : bool) (m frac : Z) (s : list Z)
    : Z * Z * bool * bool * list Z :=
  match s with
  | [] => (m, frac, sawdigits, under, [])
  | c :: s' =>
      let base := if hex then 16 else 10 in
      let digit d := scanMantissa hex sawdot true under (m * base + d)
                       (if sawdot then frac + 1 else frac) s' in
      if c =? 95 then scanMantissa hex sawdot sawdigits true m frac s'
      else if c =? 46 then
        if sawdot then (m, frac, sawdigits, under, s)
        else scanMantissa hex true sawdigits under m frac s'
      else if isDigit c then digit (c - 48)
      else if hex && (97 <=? lower c) && (lower c <=? 102) then digit (lower c - 87)
      else (m, frac, sawdigits, under, s)
  end.

Fixpoint scanExponent (e : Z) (under : bool) (s : list Z) : Z * bool * list Z :=
  match s with
  | c :: s' =>
      if isDigit c then scanExponent (if e <? 10000 then e * 10 + (c - 48) else e) under s'
      else if c =? 95 then scanExponent e true s'
      else (e, under, s)
  | [] => (e, under, [])
  end.

(** [underscoreOK], on the text after the sign. [saw] is the last character seen. *)
Fixpoint underscoreLoop (hex : bool) (saw : Z) (s : list Z) : bool :=
  match s with
  | [] => negb (saw =? 95)
  | c :: s =>
      if isDigit c || (hex && (97 <=? lower c) && (lower c <=? 102)) then underscoreLoop hex 48 s
      else if c =? 95 then (saw =? 48) && underscoreLoop hex 95 s
      else negb (saw =? 95) && underscoreLoop hex 33 s
  end.

Definition underscoreOK (s : list Z) : bool :=
  match s with
  | 48 :: c :: rest =>
      if (lower c =? 98) || (lower c =? 111) || (lower c =? 120)
      then underscoreLoop (lower c =? 120) 48 rest else underscoreLoop false 94 s
  | _ => underscoreLoop false 94 s
  end.

(** The value of a literal: [m] with [frac] digits after the dot, scaled by the
    exponent (of ten, or of two for a hexadecimal one). *)
Definition literalValue (neg hex : bool) (m frac e : Z) : float64 :=
  match m with
  | Zpos p =>
      let k := if hex then e - 4 * frac else e - frac in
      let b := if hex then 2 else 10 in
      if 0 <=? k then fratio neg (Z.to_pos (Zpos p * b ^ k)) 1
      else fratio neg p (Z.to_pos (b ^ (- k)))
  | _ => S754_zero neg
  end.

Definition readFloat (s : list Z) : option float64 :=
  let '(neg, t) := match s with 43 :: t => (false, t) | 45 :: t => (true, t) | _ => (false, s) end in
  let '(hex, d) := match t with
                   | 48 :: c :: ((_ :: _) as d) => if lower c =? 120 then (true, d) else (false, t)
                   | _ => (false, t)
                   end in
  let '(m, frac, sawdigits, under, rest) := scanMantissa hex false false false 0 0 d in
  if negb sawdigits then None
  else
    '(e, under, rest) ←
      match rest with
      | c :: rest' =>
          if lower c =? (if hex then 112 else 101) then
            let '(esign, ds) := match rest' with
                                | 43 :: ds => (1, ds) | 45 :: ds => (-1, ds) | _ => (1, rest') end in
            match ds with
            | c :: _ =>
                if isDigit c then
                  let '(e, under, rest) := scanExponent 0 under ds in Some (esign * e, under, rest)
                else None
            | [] => None
            end
          else if hex then None else Some (0, under, rest)
      | [] => if hex then None else Some (0, under, rest)
      end;
    match rest with
    | [] => if under && negb (underscoreOK t) then None else Some (literalValue neg hex m frac e)
    | _ => None
    end.

Definition ParseFloat (s : string) : option float64 :=
  let bs := bytes s in
  match special bs with
  | Some (v, n) => if (n =? length bs)%nat then Some v else None
  | None =>
      v ← readFloat bs;
      if is_inf v then None else Some v
  end.

Example ParseFloat_cases :
  map ParseFloat ["0.1"; "1e3"; "-2.5"; "1_23.50_0_0e+1_2"; "0x1p-2"; "1e400"; "abc"; ""; "."; "1e"; "_1"; "Inf"; "infi"]
  = [Some (flit 1 10); Some (of_int 1000); Some (flit (-25) 10); Some (of_int 123500000000000);
     Some (flit 1 4); None; None; None; None; None; None; Some (S754_infinity false); None].
Proof. vm_compute. reflexivity. Qed.
