(* ===== verification/Calendar.v ===== *)
(** * The UTC calendar ([time.Date], [Time.Year/Month/Day], [Time.AddDate])

    The program reads the civil date of an instant and builds instants from
    civil dates, always in UTC.  The proleptic Gregorian calendar is written out
    on the day number since the epoch; that each conversion inverts the other is
    checked on one 400-year cycle by evaluation and carried to every day by
    periodicity. *)

From S2P Require Import Prelude GoTime.

Definition Day : Duration := 24 * Hour.

(** Days of a 400-year cycle that starts on the first of March. *)
Definition cycle : Z := 146097.

(** Year of the cycle, March-based, of a day of the cycle. *)
Definition year_of_doe (doe : Z) : Z := (doe - doe / 1460 + doe / 36524 - doe / 146096) / 365.

(** The day of the cycle a year starts on. *)
Definition year_start (yoe : Z) : Z := yoe * 365 + yoe / 4 - yoe / 100 + yoe / 400.

(** Month and day of a day of a March-based year. *)
Definition month_of_doy (doy : Z) : Z * Z :=
  let mp := (5 * doy + 2) / 153 in
  (if mp <? 10 then mp + 3 else mp - 9, doy - (153 * mp + 2) / 5 + 1).

(** Year (of the cycle), month and day of a day of the cycle. *)
Definition civil_of_doe (doe : Z) : Z * Z * Z :=
  let yoe := year_of_doe doe in
  let '(m, d) := month_of_doy (doe - year_start yoe) in
  (if m <=? 2 then yoe + 1 else yoe, m, d).

Definition civil_of_days (z : Z) : Z * Z * Z :=
  let '(y, m, d) := civil_of_doe ((z + 719468) mod cycle) in
  (y + 400 * ((z + 719468) / cycle), m, d).

Definition doy_of_month (m d : Z) : Z := (153 * (if m <=? 2 then m + 9 else m - 3) + 2) / 5 + d - 1.

Definition doe_of_civil (yoe m d : Z) : Z := year_start yoe + doy_of_month m d.

(** A day past the end of its month runs on into the next one, as in Go. *)
Definition days_of_civil (y m d : Z) : Z :=
  let y := if m <=? 2 then y - 1 else y in
  y / 400 * cycle + doe_of_civil (y mod 400) m d - 719468.

(** [time.Date(y, m, d, 0, 0, 0, 0, time.UTC)]: months outside January to
    December carry into the year. *)
Definition DateUTC (y m d : Z) : Time :=
  days_of_civil (y + (m - 1) / 12) ((m - 1) mod 12 + 1) d * Day.

Definition civil (t : Time) : Z * Z * Z := civil_of_days (t / Day).
Definition Year (t : Time) : Z := (civil t).1.1.
Definition Month (t : Time) : Z := (civil t).1.2.
Definition DayOfMonth (t : Time) : Z := (civil t).2.

(** [t.AddDate(0, months, days)] at a midnight. *)
Definition AddDate (t : Time) (months days : Z) : Time :=
  DateUTC (Year t) (Month t + months) (DayOfMonth t + days).

Definition leap (y : Z) : bool :=
  (y mod 4 =? 0) && (negb (y mod 100 =? 0) || (y mod 400 =? 0)).

Definition month_length (y m : Z) : Z :=
  if m =? 2 then (if leap y then 29 else 28)
  else if (m =? 4) || (m =? 6) || (m =? 9) || (m =? 11) then 30 else 31.

(** ** One cycle, by evaluation *)

(** A year begins and ends where it should, a day longer before a leap February. *)
Definition year_ok (yoe : Z) : bool :=
  (year_of_doe (year_start yoe) =? yoe) && (year_of_doe (year_start (yoe + 1) - 1) =? yoe) &&
  (year_start (yoe + 1) - year_start yoe <=? (if leap (yoe + 1) then 366 else 365)).

(** A day of the year is a day of its month; only the last is a 29 February. *)
Definition doy_ok (doy : Z) : bool :=
  let '(m, d) := month_of_doy doy in
  (1 <=? m) && (m <=? 12) && (1 <=? d) && (doy_of_month m d =? doy) &&
  (d <=? (if m =? 2 then (if doy =? 365 then 29 else 28) else month_length 0 m)).

(** Where the first of the next month is, relative to this one's. *)
Definition month_ok (ym : Z * Z) : bool :=
  let '(y, m) := ym in
  days_of_civil (y + m / 12) (m mod 12 + 1) 1 - days_of_civil y m 1 =? month_length y m.

(** [f] on the [n] integers from [a]. *)
Fixpoint all_from (f : Z -> bool) (a : Z) (n : nat) : bool :=
  match n with O => true | S n => if f a then all_from f (a + 1) n else false end.

Lemma all_from_spec f n : forall a x,
  all_from f a n = true -> a <= x < a + Z.of_nat n -> f x = true.
Proof.
  induction n as [|n IH]; intros a x Hf Hx; [lia|]. cbn [all_from] in Hf.
  destruct (f a) eqn:E; [|done]. destruct (Z.eq_dec a x) as [->|]; [done|].
  apply (IH (a + 1)); [done|lia].
Qed.

Lemma all_years_ok : all_from year_ok 0 400 = true.
Proof. vm_compute. reflexivity. Qed.

Lemma all_doys_ok : all_from doy_ok 0 366 = true.
Proof. vm_compute. reflexivity. Qed.

Lemma all_months_ok : all_from (fun y => all_from (fun m => month_ok (y, m)) 1 12) 0 400 = true.
Proof. vm_compute. reflexivity. Qed.

(** ** Every day *)

Lemma leap_shift y k : leap (y + 400 * k) = leap y.
Proof.
  unfold leap.
  replace ((y + 400 * k) mod 4) with (y mod 4) by (rewrite <- (Z_mod_plus_full y (100 * k) 4); f_equal; lia).
  replace ((y + 400 * k) mod 100) with (y mod 100) by (rewrite <- (Z_mod_plus_full y (4 * k) 100); f_equal; lia).
  replace ((y + 400 * k) mod 400) with (y mod 400) by (rewrite <- (Z_mod_plus_full y k 400); f_equal; lia).
  done.
Qed.

Lemma days_shift y m d k : days_of_civil (y + 400 * k) m d = days_of_civil y m d + k * cycle.
Proof.
  unfold days_of_civil. destruct (m <=? 2).
  - replace (y + 400 * k - 1) with (y - 1 + k * 400) by lia.
    rewrite Z_div_plus_full, Z_mod_plus_full by lia. lia.
  - replace (y + 400 * k) with (y + k * 400) by lia.
    rewrite Z_div_plus_full, Z_mod_plus_full by lia. lia.
Qed.

Lemma year_of_doe_mono a b : a <= b -> year_of_doe a <= year_of_doe b.
Proof.
  intros Hab. unfold year_of_doe. apply Z.div_le_mono; [lia|].
  assert (forall x, x / 146096 = x / 36524 / 4) as Hq by (intros; by rewrite Z.div_div by lia).
  rewrite !Hq. pose proof (Z.div_le_mono a b 36524 ltac:(lia) Hab) as Hc.
  assert (forall k x y, 0 < k -> x <= y -> x - x / k <= y - y / k) as Hm.
  { intros k x y Hk Hxy. assert (y / k <= (x + (y - x) * k) / k) by (apply Z.div_le_mono; nia).
    rewrite Z.div_add in * by lia. lia. }
  pose proof (Hm 1460 a b ltac:(lia) Hab). pose proof (Hm 4 _ _ ltac:(lia) Hc). lia.
Qed.

(** The computed year of a day is the year it lies in. *)
Lemma year_of_doe_spec doe : 0 <= doe < cycle ->
  let yoe := year_of_doe doe in
  0 <= yoe < 400 /\ year_start yoe <= doe < year_start (yoe + 1) /\
  (doe - year_start yoe <= if leap (yoe + 1) then 365 else 364).
Proof.
  intros Hdoe yoe. assert (0 <= yoe < 400) as Hy.
  { pose proof (year_of_doe_mono 0 doe ltac:(lia)) as H0.
    pose proof (year_of_doe_mono doe (cycle - 1) ltac:(lia)) as H1.
    change (year_of_doe 0) with 0 in H0. change (year_of_doe (cycle - 1)) with 399 in H1. lia. }
  assert (forall y, 0 <= y < 400 -> year_of_doe (year_start y) = y /\
    year_of_doe (year_start (y + 1) - 1) = y /\
    year_start (y + 1) - year_start y <= (if leap (y + 1) then 366 else 365)) as Hyears.
  { intros y H. pose proof (all_from_spec _ _ _ y all_years_ok ltac:(lia)) as Ho.
    unfold year_ok in Ho. rewrite !andb_true_iff, !Z.eqb_eq, Z.leb_le in Ho. tauto. }
  destruct (Hyears yoe Hy) as (_ & _ & Hlen).
  assert (year_start yoe <= doe).
  { destruct (Z.le_gt_cases (year_start yoe) doe) as [|Hlt]; [done|].
    destruct (Z.eq_dec yoe 0) as [E|]; [rewrite E in Hlt; change (year_start 0) with 0 in Hlt; lia|].
    destruct (Hyears (yoe - 1) ltac:(lia)) as (_ & He & _). rewrite Z.sub_add in He.
    pose proof (year_of_doe_mono doe (year_start yoe - 1) ltac:(lia)). subst yoe. lia. }
  assert (doe < year_start (yoe + 1)).
  { destruct (Z.lt_ge_cases doe (year_start (yoe + 1))) as [|Hle]; [done|].
    destruct (Z.eq_dec yoe 399) as [E|]; [rewrite E in Hle; change (year_start (399 + 1)) with cycle in Hle; lia|].
    destruct (Hyears (yoe + 1) ltac:(lia)) as (Hb & _).
    pose proof (year_of_doe_mono _ _ Hle). subst yoe. lia. }
  split_and!; try lia. destruct (leap (yoe + 1)); lia.
Qed.

Lemma civil_of_doe_spec doe : 0 <= doe < cycle ->
  let '(y, m, d) := civil_of_doe doe in
  let y' := if m <=? 2 then y - 1 else y in
  1 <= m <= 12 /\ 1 <= d <= month_length y m /\ 0 <= y' < 400 /\ doe_of_civil y' m d = doe.
Proof.
  intros Hdoe. destruct (year_of_doe_spec doe Hdoe) as (Hy & Hs & Hl). unfold civil_of_doe.
  assert (0 <= doe - year_start (year_of_doe doe) < 366) as Hd by (destruct leap; lia).
  pose proof (all_from_spec _ _ _ _ all_doys_ok Hd) as Ho. unfold doy_ok in Ho.
  destruct (month_of_doy (doe - year_start (year_of_doe doe))) as [m d].
  rewrite !andb_true_iff, !Z.leb_le, Z.eqb_eq in Ho. destruct Ho as [[[[? ?] ?] He] Hm].
  unfold doe_of_civil. cbv zeta.
  assert ((if m <=? 2 then (if m <=? 2 then year_of_doe doe + 1 else year_of_doe doe) - 1
    else if m <=? 2 then year_of_doe doe + 1 else year_of_doe doe) = year_of_doe doe) as ->
    by (destruct (m <=? 2); lia).
  split_and!; try lia. destruct (Z.eqb_spec m 2) as [->|Hm2].
  - cbn [Z.leb Z.compare Pos.compare Pos.compare_cont] in Hm |- *. unfold month_length. cbn [Z.eqb Pos.eqb].
    destruct (Z.eqb_spec (doe - year_start (year_of_doe doe)) 365), (leap (year_of_doe doe + 1)); lia.
  - unfold month_length in *. destruct (Z.eqb_spec m 2); [done|]. lia.
Qed.

(** The date of a day is a date, and its day number is that day. *)
Lemma civil_spec z :
  let '(y, m, d) := civil_of_days z in
  1 <= m <= 12 /\ 1 <= d <= month_length y m /\ days_of_civil y m d = z.
Proof.
  unfold civil_of_days. set (q := (z + 719468) / cycle). set (r := (z + 719468) mod cycle).
  assert (0 <= r < cycle) as Hr by (apply Z.mod_pos_bound; done).
  assert (z + 719468 = cycle * q + r) as Hz by (apply Z.div_mod; done).
  pose proof (civil_of_doe_spec r Hr) as Hd.
  destruct (civil_of_doe r) as [[y m] d]. destruct Hd as (Hm & Hdm & Hy & He).
  assert (month_length (y + 400 * q) m = month_length y m) as ->
    by (unfold month_length; by rewrite leap_shift).
  rewrite days_shift. unfold days_of_civil.
  set (y' := if m <=? 2 then y - 1 else y) in *.
  rewrite Z.div_small, Z.mod_small by lia. lia.
Qed.

(** The next month starts where this one ends. *)
Lemma month_step y m : 1 <= m <= 12 ->
  days_of_civil (y + m / 12) (m mod 12 + 1) 1 = days_of_civil y m 1 + month_length y m.
Proof.
  intros Hm. assert (exists k r, y = r + 400 * k /\ 0 <= r < 400) as (k & r & -> & Hr).
  { exists (y / 400), (y mod 400). pose proof (Z.div_mod y 400 ltac:(done)).
    pose proof (Z.mod_pos_bound y 400 ltac:(done)). lia. }
  pose proof (all_from_spec _ _ _ r all_months_ok ltac:(lia)) as H1.
  pose proof (all_from_spec _ _ _ m H1 ltac:(lia)) as H2. cbv beta in H2.
  unfold month_ok in H2. apply Z.eqb_eq in H2.
  replace (r + 400 * k + m / 12) with (r + m / 12 + 400 * k) by lia.
  rewrite !days_shift.
  assert (month_length (r + 400 * k) m = month_length r m) as ->
    by (unfold month_length; by rewrite leap_shift). lia.
Qed.

Lemma days_linear y m d : days_of_civil y m d = days_of_civil y m 1 + (d - 1).
Proof. unfold days_of_civil, doe_of_civil, doy_of_month. destruct (m <=? 2); lia. Qed.

(** Months and days that need no carrying. *)
Lemma DateUTC_in_range y m d : 1 <= m <= 12 -> DateUTC y m d = days_of_civil y m d * Day.
Proof.
  intros Hm. unfold DateUTC. rewrite Z.div_small, Z.mod_small by lia. do 2 f_equal; lia.
Qed.

Lemma DateUTC_next y m d : 1 <= m <= 12 ->
  DateUTC y (m + 1) d = days_of_civil (y + m / 12) (m mod 12 + 1) d * Day.
Proof. intros Hm. unfold DateUTC. by replace (m + 1 - 1) with m by lia. Qed.

Lemma day_spec t : t / Day * Day <= t < t / Day * Day + Day.
Proof. pose proof (Z.div_mod t Day ltac:(done)). pose proof (Z.mod_pos_bound t Day ltac:(done)). lia. Qed.

(** *** A day has one date *)

(** The day number of the first of the [M]-th month. *)
Definition first_of (M : Z) : Z := days_of_civil (M / 12) (M mod 12 + 1) 1.

Lemma first_of_month y m : 1 <= m <= 12 -> first_of (12 * y + (m - 1)) = days_of_civil y m 1.
Proof. intros Hm. unfold first_of. f_equal; Z.div_mod_to_equations; lia. Qed.

Lemma month_length_pos y m : 28 <= month_length y m.
Proof. unfold month_length. repeat case_match; lia. Qed.

Lemma first_of_next y m : 1 <= m <= 12 ->
  first_of (12 * y + (m - 1) + 1) = days_of_civil y m 1 + month_length y m.
Proof.
  intros Hm. rewrite <- month_step by done. unfold first_of. f_equal; Z.div_mod_to_equations; lia.
Qed.

Lemma first_of_succ M : first_of M + 28 <= first_of (M + 1).
Proof.
  pose proof (Z.div_mod M 12 ltac:(done)). pose proof (Z.mod_pos_bound M 12 ltac:(done)).
  replace M with (12 * (M / 12) + (M mod 12 + 1 - 1)) by lia.
  rewrite first_of_next, first_of_month by lia.
  pose proof (month_length_pos (M / 12) (M mod 12 + 1)). lia.
Qed.

Lemma first_of_mono M N : M <= N -> first_of M <= first_of N.
Proof.
  intros HMN. replace N with (M + Z.of_nat (Z.to_nat (N - M))) by lia.
  induction (Z.to_nat (N - M)) as [|n IH]; [by rewrite Z.add_0_r|].
  pose proof (first_of_succ (M + Z.of_nat n)).
  replace (M + Z.of_nat (S n)) with (M + Z.of_nat n + 1) by lia. lia.
Qed.

Lemma civil_of_civil y m d : 1 <= m <= 12 -> 1 <= d <= month_length y m ->
  civil_of_days (days_of_civil y m d) = (y, m, d).
Proof.
  intros Hm Hd. pose proof (civil_spec (days_of_civil y m d)) as Hs.
  destruct (civil_of_days _) as [[y' m'] d']. destruct Hs as (Hm' & Hd' & He).
  rewrite (days_linear y' m' d'), (days_linear y m d) in He.
  pose proof (first_of_next y m Hm) as N1. pose proof (first_of_next y' m' Hm') as N2.
  pose proof (first_of_month y m Hm) as F1. pose proof (first_of_month y' m' Hm') as F2.
  assert (12 * y + (m - 1) = 12 * y' + (m' - 1)) as HM.
  { destruct (Z.lt_trichotomy (12 * y + (m - 1)) (12 * y' + (m' - 1))) as [Hl|[?|Hl]]; [|done|].
    - pose proof (first_of_mono (12 * y + (m - 1) + 1) (12 * y' + (m' - 1)) ltac:(lia)). lia.
    - pose proof (first_of_mono (12 * y' + (m' - 1) + 1) (12 * y + (m - 1)) ltac:(lia)). lia. }
  assert (y' = y) as -> by lia. assert (m' = m) as -> by lia.
  assert (d' = d) as -> by lia. done.
Qed.

Example civil_example :
  (civil 1709164800000000000, DateUTC 2024 2 29, DateUTC 2023 13 1 - DateUTC 2023 12 1)
  = ((2024, 2, 29), 1709164800000000000, 31 * Day).
Proof. vm_compute. reflexivity. Qed.
