(* ===== verification/TimeText.v ===== *)
(** * Instants and durations as text ([time.Format], [time.Parse],
      [Duration.Round], [Duration.String], [fmt]'s [%.2f])

    The kernel writes the time of a resize on the workload as RFC 3339 text and
    reads it back with [time.Parse], which accepts more than it prints (an
    offset, a fraction, a one-digit hour); its messages print durations and
    amounts of money. *)

From Stdlib Require Import Ascii SpecFloat.
From S2P Require Import Prelude Float64 GoTime Strconv GoStrings Calendar.

(** [z] in exactly [n] decimal digits. *)
Fixpoint digits (n : nat) (z : Z) : list Z :=
  match n with O => [] | S n => digits n (z / 10) ++ [48 + z mod 10] end.

(** ** [t.UTC().Format(time.RFC3339)] *)

(** A year takes four digits, or as many as it needs. *)
Definition yearBytes (y : Z) : list Z :=
  (if y <? 0 then [45] else []) ++
  (if Z.abs y <? 10000 then digits 4 (Z.abs y) else bytes (FormatInt (Z.abs y))).

Definition timeBytes (t : Time) : list Z :=
  let tod := t mod Day in
  yearBytes (Year t) ++ 45 :: digits 2 (Month t) ++ 45 :: digits 2 (DayOfMonth t) ++
  84 :: digits 2 (tod / Hour) ++ 58 :: digits 2 (tod / Minute mod 60) ++
  58 :: digits 2 (tod / Second mod 60) ++ [90].

Definition FormatRFC3339 (t : Time) : string := of_bytes (timeBytes t).

(** ** [time.Parse(time.RFC3339, s)] *)

(** A number of two digits, or one where the field allows it. *)
Definition getnum (fixed : bool) (s : list Z) : option (Z * list Z) :=
  match s with
  | a :: s' =>
      if negb (isDigit a) then None
      else
        match s' with
        | b :: s'' =>
            if isDigit b then Some ((a - 48) * 10 + (b - 48), s'')
            else if fixed then None else Some (a - 48, s')
        | [] => if fixed then None else Some (a - 48, [])
        end
  | [] => None
  end.

Definition literal (c : Z) (s : list Z) : option (list Z) :=
  match s with a :: s' => if a =? c then Some s' else None | [] => None end.

Definition getYear (s : list Z) : option (Z * list Z) :=
  match s with
  | a :: b :: c :: d :: s' =>
      if isDigit a && isDigit b && isDigit c && isDigit d
      then Some ((((a - 48) * 10 + (b - 48)) * 10 + (c - 48)) * 10 + (d - 48), s')
      else None
  | _ => None
  end.

Fixpoint takeDigits (s : list Z) : list Z * list Z :=
  match s with
  | c :: s' => if isDigit c then let '(ds, r) := takeDigits s' in (c :: ds, r) else ([], s)
  | [] => ([], [])
  end.

Definition number (ds : list Z) : Z := fold_left (fun z c => z * 10 + (c - 48)) ds 0.

(** A fraction of a second the layout does not ask for: nine digits of it count. *)
Definition getFraction (s : list Z) : Z * list Z :=
  match s with
  | p :: ((c :: _) as s') =>
      if ((p =? 46) || (p =? 44)) && isDigit c then
        let '(ds, r) := takeDigits s' in
        let ds := take 9 ds in
        (number ds * 10 ^ (9 - Z.of_nat (length ds)), r)
      else (0, s)
  | _ => (0, s)
  end.

(** [Z], or a signed offset, in seconds; hours up to 24 and minutes up to 60 pass. *)
Definition getZone (s : list Z) : option (Z * list Z) :=
  match s with
  | 90 :: s' => Some (0, s')
  | sign :: h1 :: h2 :: colon :: m1 :: m2 :: s' =>
      if negb (colon =? 58) then None
      else
        '(hr, _) ← getnum true [h1; h2];
        '(mm, _) ← getnum true [m1; m2];
        if (24 <? hr) || (60 <? mm) then None
        else
          let offset := (hr * 60 + mm) * 60 in
          if sign =? 43 then Some (offset, s')
          else if sign =? 45 then Some (- offset, s') else None
  | _ => None
  end.

Definition within (lo hi : Z) (p : option (Z * list Z)) : option (Z * list Z) :=
  '(n, s) ← p; if (lo <=? n) && (n <=? hi) then Some (n, s) else None.

Definition parseTime (s : list Z) : option Time :=
  '(year, s) ← getYear s;
  s ← literal 45 s;
  '(month, s) ← within 1 12 (getnum true s);
  s ← literal 45 s;
  '(day, s) ← getnum true s;
  s ← literal 84 s;
  '(hour, s) ← within 0 23 (getnum false s);
  s ← literal 58 s;
  '(min, s) ← within 0 59 (getnum true s);
  s ← literal 58 s;
  '(sec, s) ← within 0 59 (getnum true s);
  let '(nsec, s) := getFraction s in
  '(offset, s) ← getZone s;
  match s with
  | _ :: _ => None
  | [] =>
      if (1 <=? day) && (day <=? month_length year month)
      then Some (days_of_civil year month day * Day + hour * Hour + min * Minute
                 + (sec - offset) * Second + nsec)
      else None
  end.

Definition ParseRFC3339 (s : string) : option Time := parseTime (bytes s).

(** ** Durations *)

(** [d.Round(m)]: to the nearest multiple, halves away from zero. *)
Definition Round (d m : Duration) : Duration :=
  if m <=? 0 then d
  else if d <? 0 then
    let r := (- d) mod m in
    if r + r <? m then d + r
    else if minDuration <=? d - m + r then d - m + r else minDuration
  else
    let r := d mod m in
    if r + r <? m then d - r
    else if d + m - r <=? maxDuration then d + m - r else maxDuration.

Fixpoint stripZeros (s : list Z) : list Z :=
  match s with c :: s' => if c =? 48 then stripZeros s' else s | [] => [] end.

(** The fraction of [u / 10 ^ prec], without trailing zeros. *)
Definition fraction (u : Z) (prec : nat) : string :=
  let q := u mod 10 ^ Z.of_nat prec in
  if q =? 0 then "" else of_bytes (46 :: rev (stripZeros (rev (digits prec q)))).

Definition scaled (u : Z) (prec : nat) : string :=
  FormatInt (u / 10 ^ Z.of_nat prec) +:+ fraction u prec.

Definition DurationString (d : Duration) : string :=
  let u := Z.abs d in
  let body :=
    if u =? 0 then "0s"
    else if u <? 1000 then scaled u 0 +:+ "ns"
    else if u <? 1000000 then scaled u 3 +:+ "µs"
    else if u <? Second then scaled u 6 +:+ "ms"
    else
      let secs := FormatInt (u / Second mod 60) +:+ fraction u 9 +:+ "s" in
      if u <? Minute then secs
      else
        let mins := FormatInt (u / Minute mod 60) +:+ "m" +:+ secs in
        if u <? Hour then mins else FormatInt (u / Hour) +:+ "h" +:+ mins in
  if d <? 0 then "-" +:+ body else body.

(** ** [fmt.Sprintf("%.2f", f)]

    The exact value, rounded to hundredths, halves to even. *)
Definition halfEven (n d : Z) : Z :=
  let q := n / d in
  let r := n mod d in
  if 2 * r <? d then q else if d <? 2 * r then q + 1 else if Z.even q then q else q + 1.

Definition hundredths (n : Z) : string :=
  FormatInt (n / 100) +:+ of_bytes (46 :: digits 2 (n mod 100)).

Definition FormatFixed2 (f : float64) : string :=
  match f with
  | S754_nan => "NaN"
  | S754_infinity s => if s then "-Inf" else "+Inf"
  | S754_zero s => (if s then "-" else "") +:+ "0.00"
  | S754_finite s m e =>
      (if s then "-" else "") +:+
      hundredths (if 0 <=? e then Zpos m * 100 * 2 ^ e else halfEven (Zpos m * 100) (2 ^ (- e)))
  end.

Example DurationString_cases :
  map DurationString [0; 1500000; 5 * Hour + 59 * Minute; - (90 * Second); 1100000000]
  = ["0s"; "1.5ms"; "5h59m0s"; "-1m30s"; "1.1s"]%string.
Proof. vm_compute. reflexivity. Qed.

Example FormatFixed2_cases :
  map FormatFixed2 [flit 13 10; flit 1 8; flit 3 8; of_int 12; fsub fzero (flit 1 1000)]
  = ["1.30"; "0.12"; "0.38"; "12.00"; "-0.00"]%string.
Proof. vm_compute. reflexivity. Qed.

Example ParseRFC3339_cases :
  map ParseRFC3339 ["1970-01-01T00:00:00Z"; "1970-01-01T1:00:00.5+01:00"; "1970-02-29T00:00:00Z";
                    "1970-01-01T00:00:00"; "1970-01-01T00:00:00Zx"; "2026-07-22 10:00:00Z"]%string
  = [Some 0; Some 500000000; None; None; None; None].
Proof. vm_compute. reflexivity. Qed.

(** ** A stamp reads back as the second it was written in *)

Lemma digit_byte z : isDigit (48 + z mod 10) = true.
Proof. unfold isDigit. pose proof (Z.mod_pos_bound z 10). lia. Qed.

Lemma digits_2 z : digits 2 z = [48 + z / 10 mod 10; 48 + z mod 10].
Proof. done. Qed.

Lemma digits_4 z :
  digits 4 z = [48 + z / 10 / 10 / 10 mod 10; 48 + z / 10 / 10 mod 10; 48 + z / 10 mod 10; 48 + z mod 10].
Proof. done. Qed.

Lemma digits_bytes n : forall z, Forall (fun b => 0 <= b < 256) (digits n z).
Proof.
  induction n as [|n IH]; intros z; [constructor|]. cbn [digits].
  apply Forall_app; split; [apply IH|]. constructor; [|done].
  pose proof (Z.mod_pos_bound z 10). lia.
Qed.

Lemma getnum_digits fixed z s : 0 <= z < 100 -> getnum fixed (digits 2 z ++ s) = Some (z, s).
Proof.
  intros Hz. rewrite digits_2. cbn [app getnum].
  rewrite !digit_byte. cbn [negb]. f_equal. f_equal. Z.div_mod_to_equations. lia.
Qed.

Lemma getYear_digits z s : 0 <= z < 10000 -> getYear (digits 4 z ++ s) = Some (z, s).
Proof.
  intros Hz. rewrite digits_4. cbn [app getYear]. rewrite !digit_byte. cbn [andb].
  f_equal. f_equal. Z.div_mod_to_equations. lia.
Qed.

Lemma literal_eq c s : literal c (c :: s) = Some s.
Proof. unfold literal. by rewrite Z.eqb_refl. Qed.

Lemma within_some lo hi n s : lo <= n <= hi -> within lo hi (Some (n, s)) = Some (n, s).
Proof.
  intros Hn. unfold within. cbn. by destruct (Z.leb_spec lo n), (Z.leb_spec n hi); [|lia..].
Qed.

Lemma time_of_day t :
  let tod := t mod Day in
  0 <= tod / Hour <= 23 /\ 0 <= tod / Minute mod 60 <= 59 /\ 0 <= tod / Second mod 60 <= 59 /\
  t / Day * Day + tod / Hour * Hour + tod / Minute mod 60 * Minute + tod / Second mod 60 * Second
  = t / Second * Second.
Proof.
  cbn zeta. unfold Day, Hour, Minute, Second. Z.div_mod_to_equations. lia.
Qed.

(** A separator and the field of two digits after it. *)
Ltac next_field :=
  cbn [mbind option_bind]; rewrite literal_eq; cbn [mbind option_bind];
  rewrite getnum_digits by lia; rewrite ?within_some by lia.

Lemma parse_stamp t : 0 <= Year t < 10000 ->
  ParseRFC3339 (FormatRFC3339 t) = Some (t / Second * Second).
Proof.
  intros Hy. unfold ParseRFC3339, FormatRFC3339.
  pose proof (civil_spec (t / Day)) as Hc. pose proof (time_of_day t) as (Hh & Hm & Hs & Ht).
  assert (timeBytes t =
    digits 4 (Year t) ++ 45 :: digits 2 (Month t) ++ 45 :: digits 2 (DayOfMonth t) ++
    84 :: digits 2 (t mod Day / Hour) ++ 58 :: digits 2 (t mod Day / Minute mod 60) ++
    58 :: digits 2 (t mod Day / Second mod 60) ++ [90]) as Hb.
  { unfold timeBytes, yearBytes. rewrite Z.abs_eq by lia.
    destruct (Z.ltb_spec (Year t) 0), (Z.ltb_spec (Year t) 10000); [lia..|done|lia]. }
  rewrite bytes_of_bytes.
  2:{ rewrite Hb. repeat (apply Forall_app; split; [apply digits_bytes|]; constructor; [lia|]). done. }
  rewrite Hb. unfold Year, Month, DayOfMonth, civil in *.
  destruct (civil_of_days (t / Day)) as [[y m] d]. cbn [fst snd] in *.
  destruct Hc as (Hmo & Hd & Hdays).
  assert (month_length y m <= 31) by (unfold month_length; repeat case_match; lia).
  unfold parseTime. rewrite getYear_digits by lia. do 5 next_field.
  cbn [mbind option_bind getFraction getZone].
  destruct (Z.leb_spec 1 d), (Z.leb_spec d (month_length y m)); [|lia..]. cbn [andb].
  f_equal. lia.
Qed.
