(* ===== verification/Histogram.v ===== *)
(** * Usage histograms ([technocore/usage/histogram.go])

    A distribution of observed values in fixed space: exact below 32, sixteen
    sub-buckets per octave above.  The model keeps the sparse bucket map as a
    [gmap] and the [uint64] counters with their wrap-around; [represents] is the
    abstraction relation to the list of samples the histogram stands for. *)

From S2P Require Import Prelude Float64 Strconv.

Definition MaxSample : Z := Z.shiftl 1 24.
Definition subBits : Z := 4.
Definition subCount : Z := Z.shiftl 1 subBits.
Definition exact : Z := 2 * subCount.

(** The clamp [bucketOf] and [Sample] both open with. *)
Definition clamp (v : Z) : Z :=
  let v := if v <? 0 then 0 else v in
  if MaxSample <? v then MaxSample else v.

(** [bits.Len(uint(v)) - 1] is [Z.log2 v] for a positive [v]. *)
Definition bucketOf (v : Z) : Z :=
  let v := clamp v in
  if v <? exact then v
  else
    let mag := Z.log2 v in
    let sub := Z.shiftr v (mag - subBits) - subCount in
    exact + (mag - subBits - 1) * subCount + sub.

Definition numBuckets : Z := bucketOf MaxSample + 1.

Definition upperBound (i : Z) : Z :=
  if i <? exact then i
  else
    let j := i - exact in
    let mag := subBits + 1 + j / subCount in
    let sub := j mod subCount in
    Z.shiftl (subCount + sub + 1) (mag - subBits) - 1.

Record Histogram := mkHistogram {
  h_counts : gmap Z Z;   (* map[int]uint64 *)
  h_n : Z;               (* uint64 *)
  h_sum : Z;             (* uint64 *)
  h_peak : Z             (* int *)
}.

Definition emptyHistogram : Histogram := mkHistogram ∅ 0 0 0.

(** [counts[b] += c] on a [map[int]uint64]. *)
Definition bump (m : gmap Z Z) (b c : Z) : gmap Z Z := <[b := u64 (zlookup m b + c)]> m.

Definition Sample (h : Histogram) (v : Z) : Histogram :=
  let v := clamp v in
  mkHistogram (bump (h_counts h) (bucketOf v) 1) (u64 (h_n h + 1)) (u64 (h_sum h + v))
    (if h_peak h <? v then v else h_peak h).

Definition Count (h : Histogram) : Z := h_n h.
Definition Peak (h : Histogram) : Z := h_peak h.

Definition Mean (h : Histogram) : float64 :=
  if h_n h =? 0 then fzero else fdiv (of_int (h_sum h)) (of_int (h_n h)).

(** The rank [Quantile] looks for, with the clamps on [q] and on the result. *)
Definition rankOf (n : Z) (q : float64) : Z :=
  let q := if fleb q fzero then fzero else q in
  let q := if fltb (of_int 1) q then of_int 1 else q in
  let rank := uint64_of (fadd (fmul (of_int n) q) (flit 1 2)) in
  let rank := if rank =? 0 then 1 else rank in
  if n <? rank then n else rank.

(** The walk over the buckets in ascending order. *)
Fixpoint quantileWalk (h : Histogram) (rank seen : Z) (bs : list Z) : Z :=
  match bs with
  | [] => h_peak h
  | i :: bs =>
      let seen := u64 (seen + zlookup (h_counts h) i) in
      if rank <=? seen then Z.min (upperBound i) (h_peak h)
      else quantileWalk h rank seen bs
  end.

Definition Quantile (h : Histogram) (q : float64) : Z :=
  if h_n h =? 0 then 0
  else quantileWalk h (rankOf (h_n h) q) 0 (seqZ 0 numBuckets).

Section merge.
Context `{GoRange}.

(** The argument is a Go pointer: [None] is nil. *)
Definition Merge (h : Histogram) (o : option Histogram) : Histogram :=
  match o with
  | None => h
  | Some o =>
      if h_n o =? 0 then h
      else mkHistogram
        (fold_left (fun m '(b, c) => bump m b c) (go_range (h_counts o)) (h_counts h))
        (u64 (h_n h + h_n o)) (u64 (h_sum h + h_sum o))
        (if h_peak h <? h_peak o then h_peak o else h_peak h)
  end.

(** The stored form: the JSON object's fields, with the bucket map's decimal
    string keys ([omitempty]: an absent map is an empty one). *)
Record wireHistogram := mkWire {
  w_N : Z;
  w_Sum : Z;
  w_Peak : Z;
  w_B : gmap string Z
}.

Definition MarshalJSON (h : Histogram) : wireHistogram :=
  mkWire (h_n h) (h_sum h) (h_peak h) (fill FormatInt (go_range (h_counts h)) ∅).

Inductive decode_error : Type :=
| NotANumber (key : string)
| OutsideScheme (bucket : Z).

Definition decodeBucket (m : gmap Z Z) (kc : string * Z) : result decode_error (gmap Z Z) :=
  match ParseInt kc.1 with
  | None => Err (NotANumber kc.1)
  | Some i =>
      if (i <? 0) || (numBuckets <=? i) then Err (OutsideScheme i) else Ok (<[i := kc.2]> m)
  end.

Definition UnmarshalJSON (w : wireHistogram) : result decode_error Histogram :=
  m ← foldM decodeBucket ∅ (go_range (w_B w));
  Ok (mkHistogram m (w_N w) (w_Sum w) (w_Peak w)).

End merge.

(** ** The bucket scheme *)

Lemma clamp_range v : 0 <= clamp v <= MaxSample.
Proof.
  unfold clamp. change MaxSample with 16777216.
  repeat case_match; lia.
Qed.

Lemma clamp_id v : 0 <= v <= MaxSample -> clamp v = v.
Proof. unfold clamp. intros. repeat case_match; lia. Qed.

Lemma clamp_idemp v : clamp (clamp v) = clamp v.
Proof. apply clamp_id, clamp_range. Qed.

Lemma bucketOf_clamp v : bucketOf (clamp v) = bucketOf v.
Proof. unfold bucketOf. by rewrite clamp_idemp. Qed.

(** The sub-bucket of a value at least [exact], as a quotient. *)
Lemma bucketOf_large v :
  exact <= v <= MaxSample ->
  let k := Z.log2 v - 4 in
  1 <= k /\ 2 ^ k * 16 <= v < 2 ^ k * 32 /\ 16 <= v / 2 ^ k < 32 /\
  bucketOf v = 32 + (k - 1) * 16 + (v / 2 ^ k - 16).
Proof.
  change exact with 32. change MaxSample with 16777216. intros Hv k.
  assert (5 <= Z.log2 v) as Hlog.
  { change 5 with (Z.log2 32). apply Z.log2_le_mono; lia. }
  assert (2 ^ k * 16 <= v < 2 ^ k * 32) as Hk.
  { destruct (Z.log2_spec v) as [H1 H2]; [lia|].
    replace (Z.log2 v) with (k + 4) in H1 by (unfold k; lia).
    replace (Z.succ (Z.log2 v)) with (k + 5) in H2 by (unfold k; lia).
    rewrite Z.pow_add_r in H1, H2 by lia. lia. }
  assert (0 < 2 ^ k) by (apply Z.pow_pos_nonneg; unfold k; lia).
  assert (1 <= k) by (unfold k; lia).
  split_and!; try lia.
  - apply Z.div_le_lower_bound; lia.
  - apply Z.div_lt_upper_bound; lia.
  - unfold bucketOf. rewrite clamp_id by (change MaxSample with 16777216; lia).
    change exact with 32. change subBits with 4. change subCount with 16.
    destruct (Z.ltb_spec v 32); [lia|]. fold k.
    rewrite Z.shiftr_div_pow2 by (unfold k; lia). lia.
Qed.

Lemma bucketOf_small v : 0 <= v < exact -> bucketOf v = v.
Proof.
  intros Hv. unfold bucketOf. change exact with 32 in *.
  rewrite clamp_id by (change MaxSample with 16777216; lia).
  by destruct (Z.ltb_spec v 32); [|lia].
Qed.

Lemma bucketOf_mono_in v w : 0 <= v <= w -> w <= MaxSample -> bucketOf v <= bucketOf w.
Proof.
  intros Hvw Hw.
  destruct (Z.lt_ge_cases w exact) as [Hw'|Hw']; [rewrite !bucketOf_small; lia|].
  pose proof (bucketOf_large w ltac:(lia)) as (Hk & Hb & Hq & ->).
  destruct (Z.lt_ge_cases v exact) as [Hv|Hv].
  { rewrite bucketOf_small by lia. change exact with 32 in *. nia. }
  pose proof (bucketOf_large v ltac:(lia)) as (Hk' & Hb' & Hq' & ->).
  destruct (Z.eq_dec (Z.log2 v) (Z.log2 w)) as [->|Hne].
  - assert (v / 2 ^ (Z.log2 w - 4) <= w / 2 ^ (Z.log2 w - 4)); [|lia].
    apply Z.div_le_mono; lia.
  - assert (Z.log2 v <= Z.log2 w) by (apply Z.log2_le_mono; lia). lia.
Qed.

Lemma bucketOf_mono v w : v <= w -> bucketOf v <= bucketOf w.
Proof.
  intros Hvw. rewrite <- (bucketOf_clamp v), <- (bucketOf_clamp w).
  apply bucketOf_mono_in; [|apply clamp_range].
  unfold clamp. change MaxSample with 16777216. repeat case_match; lia.
Qed.

Lemma bucketOf_range v : 0 <= bucketOf v < numBuckets.
Proof.
  unfold numBuckets. rewrite <- bucketOf_clamp. pose proof (clamp_range v).
  split.
  - change 0 with (bucketOf 0). apply bucketOf_mono; lia.
  - apply Z.lt_succ_r, bucketOf_mono; lia.
Qed.

Lemma upperBound_bounds v :
  0 <= v <= MaxSample -> v <= upperBound (bucketOf v) <= v + v / 16.
Proof.
  intros Hv.
  destruct (Z.lt_ge_cases v exact) as [Hs|Hl].
  { rewrite bucketOf_small by lia. unfold upperBound.
    destruct (Z.ltb_spec v exact); [|lia].
    pose proof (Z.div_pos v 16 ltac:(lia) ltac:(lia)). lia. }
  pose proof (bucketOf_large v ltac:(lia)) as (Hk & Hb & Hq & ->).
  set (k := Z.log2 v - 4) in *. unfold upperBound.
  change exact with 32. change subBits with 4. change subCount with 16.
  destruct (Z.ltb_spec (32 + (k - 1) * 16 + (v / 2 ^ k - 16)) 32); [lia|].
  replace (32 + (k - 1) * 16 + (v / 2 ^ k - 16) - 32)
    with ((v / 2 ^ k - 16) + (k - 1) * 16) by lia.
  rewrite Z.div_add, Z.mod_add by lia.
  rewrite (Z.div_small (v / 2 ^ k - 16) 16), (Z.mod_small (v / 2 ^ k - 16) 16) by lia.
  rewrite Z.shiftl_mul_pow2 by lia.
  replace (4 + 1 + (0 + (k - 1)) - 4) with k by lia.
  assert (0 < 2 ^ k) as Hp by (apply Z.pow_pos_nonneg; lia).
  pose proof (Z.div_mod v (2 ^ k) ltac:(lia)) as Hdm.
  pose proof (Z.mod_pos_bound v (2 ^ k) Hp).
  assert (2 ^ k <= v / 16) by (apply Z.div_le_lower_bound; lia).
  nia.
Qed.

(** ** What a histogram stands for *)

Definition bucket_count (xs : list Z) (b : Z) : Z :=
  Z.of_nat (length (filter (fun x => bucketOf x = b) xs)).

Definition sumZ (xs : list Z) : Z := foldr Z.add 0 xs.
Definition maxZ (xs : list Z) : Z := foldr Z.max 0 xs.

Record represents (h : Histogram) (xs : list Z) : Prop := {
  rep_range : Forall (fun x => 0 <= x <= MaxSample) xs;
  rep_n : h_n h = u64 (Z.of_nat (length xs));
  rep_sum : h_sum h = u64 (sumZ xs);
  rep_peak : h_peak h = maxZ xs;
  rep_counts : forall b, zlookup (h_counts h) b = u64 (bucket_count xs b);
  rep_dom : forall b, is_Some (h_counts h !! b) -> 0 <= b < numBuckets
}.

Lemma sumZ_app xs ys : sumZ (xs ++ ys) = sumZ xs + sumZ ys.
Proof. induction xs; cbn; [done|]. unfold sumZ in *. lia. Qed.

Lemma maxZ_app xs ys : maxZ (xs ++ ys) = Z.max (maxZ xs) (maxZ ys).
Proof.
  unfold maxZ. induction xs; cbn; [|lia].
  induction ys; cbn; lia.
Qed.

Lemma maxZ_ub xs x : x ∈ xs -> x <= maxZ xs.
Proof. unfold maxZ. induction 1; cbn; lia. Qed.

Lemma maxZ_nonneg xs : 0 <= maxZ xs.
Proof. unfold maxZ. induction xs; cbn; lia. Qed.

Lemma bucket_count_cons x xs b :
  bucket_count (x :: xs) b = bucket_count xs b + (if decide (bucketOf x = b) then 1 else 0).
Proof.
  unfold bucket_count. rewrite filter_cons. case_decide; cbn; lia.
Qed.

Lemma bucket_count_app xs ys b :
  bucket_count (xs ++ ys) b = bucket_count xs b + bucket_count ys b.
Proof. unfold bucket_count. rewrite filter_app, length_app. lia. Qed.

Lemma zlookup_insert (m : gmap Z Z) b b' c :
  zlookup (<[b := c]> m) b' = if decide (b = b') then c else zlookup m b'.
Proof. unfold zlookup. rewrite lookup_insert. by case_decide. Qed.

Lemma zlookup_bump m b b' c :
  zlookup (bump m b c) b' = if decide (b = b') then u64 (zlookup m b + c) else zlookup m b'.
Proof. apply zlookup_insert. Qed.

Lemma u64_count_bound xs b : u64 (u64 (bucket_count xs b)) = u64 (bucket_count xs b).
Proof. unfold u64. apply Z.mod_mod. lia. Qed.

Lemma empty_represents : represents emptyHistogram [].
Proof.
  split; try done. intros b [c Hc]. change (h_counts emptyHistogram) with (∅ : gmap Z Z) in Hc.
  by rewrite lookup_empty in Hc.
Qed.

Lemma sample_represents h xs v : represents h xs -> represents (Sample h v) (clamp v :: xs).
Proof.
  intros [Hr Hn Hs Hp Hc Hd]. pose proof (clamp_range v).
  split; cbn [Sample h_n h_sum h_peak h_counts length].
  - by constructor.
  - rewrite Hn, u64_add_l. f_equal. lia.
  - rewrite Hs, u64_add_l. f_equal. cbn. unfold sumZ. lia.
  - rewrite Hp. unfold maxZ in *. cbn. case_match; lia.
  - intros b. rewrite zlookup_bump, bucket_count_cons, Hc. case_decide; subst.
    + apply u64_add_l.
    + rewrite Hc. f_equal. lia.
  - intros b. unfold bump. rewrite lookup_insert_is_Some.
    intros [<-|[_ ?]]; [apply bucketOf_range|by apply Hd].
Qed.

Lemma fold_bump (l : list (Z * Z)) m b :
  NoDup l.*1 ->
  zlookup (fold_left (fun m '(b, c) => bump m b c) l m) b =
  match list_find (fun p => p.1 = b) l with
  | Some (_, (_, c)) => u64 (zlookup m b + c)
  | None => zlookup m b
  end.
Proof.
  revert m. induction l as [|[b' c] l IH]; intros m Hnd; [done|].
  cbn in Hnd. apply NoDup_cons in Hnd as [Hni Hnd]. cbn [fold_left]. rewrite (IH _ Hnd).
  cbn [list_find fst]. rewrite zlookup_bump. case_decide; subst.
  - destruct (list_find _ l) as [[i [b2 c2]]|] eqn:E; [|done].
    apply list_find_Some in E as (Hl & Hb & _); cbn in Hb; subst b2.
    destruct Hni. change b with ((b, c2).1). by apply list_elem_of_fmap_2, list_elem_of_lookup_2 with i.
  - by destruct (list_find _ l) as [[? [??]]|].
Qed.

Section merge_facts.
Context `{GoRange}.

Lemma zlookup_merge (m o : gmap Z Z) b :
  zlookup (fold_left (fun m '(b, c) => bump m b c) (go_range o) m) b =
  match o !! b with Some c => u64 (zlookup m b + c) | None => zlookup m b end.
Proof.
  rewrite fold_bump by apply NoDup_go_range.
  destruct (list_find _ _) as [[i [b' c]]|] eqn:E.
  - apply list_find_Some in E as (Hl & Hb & _); cbn in Hb; subst b'.
    apply list_elem_of_lookup_2, elem_of_go_range in Hl. by rewrite Hl.
  - apply list_find_None in E. rewrite Forall_forall in E.
    destruct (o !! b) as [c|] eqn:Ho; [|done].
    apply elem_of_go_range in Ho. by apply E in Ho.
Qed.

Lemma dom_merge (l : list (Z * Z)) (m : gmap Z Z) b :
  is_Some (fold_left (fun m '(b, c) => bump m b c) l m !! b) ->
  is_Some (m !! b) \/ b ∈ l.*1.
Proof.
  revert m. induction l as [|[b' c] l IH]; intros m; cbn; [by left|].
  intros Hs. apply IH in Hs as [Hs|Hs]; [|right; by right].
  unfold bump in Hs. apply lookup_insert_is_Some in Hs as [->|[_ ?]]; [right; by left|by left].
Qed.

Lemma merge_represents h o xs ys :
  represents h xs -> represents o ys -> Z.of_nat (length ys) < 2 ^ 64 ->
  represents (Merge h (Some o)) (xs ++ ys).
Proof.
  intros [Hr Hn Hs Hp Hc Hd] [Hr' Hn' Hs' Hp' Hc' Hd'] Hlen.
  rewrite u64_small in Hn' by lia. unfold Merge.
  destruct (Z.eqb_spec (h_n o) 0) as [E|E].
  { destruct ys; [rewrite app_nil_r; by split|cbn in *; lia]. }
  split; cbn [h_n h_sum h_peak h_counts].
  - by apply Forall_app.
  - rewrite Hn, Hn', length_app, u64_add_l. f_equal. lia.
  - by rewrite Hs, Hs', sumZ_app, u64_add_l, u64_add_r.
  - rewrite Hp, Hp', maxZ_app. case_match; lia.
  - intros b. rewrite zlookup_merge, bucket_count_app, <- u64_add_r, <- Hc'.
    unfold zlookup at 3. destruct (h_counts o !! b) as [c|]; cbn [default].
    + by rewrite Hc, u64_add_l.
    + by rewrite Hc, Z.add_0_r.
  - intros b [Hb|Hb]%dom_merge; [by apply Hd|].
    apply list_elem_of_fmap in Hb as ([b' c] & -> & Hb).
    apply Hd'. apply elem_of_go_range in Hb. by exists c.
Qed.

End merge_facts.

(** ** Quantiles *)

(** How many samples fall in a bucket below [i]. *)
Definition below (xs : list Z) (i : Z) : Z :=
  Z.of_nat (length (filter (fun x => bucketOf x < i) xs)).

Lemma below_succ xs i : below xs (i + 1) = below xs i + bucket_count xs i.
Proof.
  unfold below, bucket_count.
  induction xs as [|x xs IH]; [done|]. rewrite !filter_cons.
  repeat case_decide; cbn [length]; lia.
Qed.

Lemma below_bound xs i : 0 <= below xs i <= Z.of_nat (length xs).
Proof. unfold below. pose proof (length_filter (fun x => bucketOf x < i) xs). lia. Qed.

Lemma below_0 xs : below xs 0 = 0.
Proof.
  unfold below. rewrite filter_none; [done|].
  apply Forall_forall. intros x _ Hx. pose proof (bucketOf_range x). lia.
Qed.

Lemma below_all xs : below xs numBuckets = Z.of_nat (length xs).
Proof.
  unfold below. rewrite filter_all; [done|].
  apply Forall_forall. intros x _. apply bucketOf_range.
Qed.

Lemma quantileWalk_spec h xs rank k : forall a,
  represents h xs -> Z.of_nat (length xs) < 2 ^ 64 ->
  numBuckets = a + Z.of_nat k -> below xs a < rank <= Z.of_nat (length xs) ->
  exists i, below xs i < rank <= below xs (i + 1) /\
    quantileWalk h rank (below xs a) (seqZ a (Z.of_nat k)) = Z.min (upperBound i) (h_peak h).
Proof.
  induction k as [|k IH]; intros a Hrep Hlen Ha Hr.
  { rewrite <- (below_all xs) in Hr. replace numBuckets with a in Hr by lia. lia. }
  rewrite seqZ_cons by lia. cbn [quantileWalk].
  rewrite (rep_counts _ _ Hrep), u64_add_r, <- below_succ.
  pose proof (below_bound xs (a + 1)).
  rewrite u64_small by lia.
  destruct (Z.leb_spec rank (below xs (a + 1))).
  - exists a. split; [lia|done].
  - replace (Z.pred (Z.of_nat (S k))) with (Z.of_nat k) by lia.
    replace (Z.succ a) with (a + 1) by lia. apply IH; [done|done|lia|lia].
Qed.

(** The [r]-th smallest sample lies in the bucket where the cumulative count
    first reaches [r]. *)
Lemma order_statistic_bucket xs r x i :
  sort_slice Z.ltb xs !! Z.to_nat (r - 1) = Some x -> 1 <= r ->
  below xs i < r <= below xs (i + 1) -> bucketOf x = i.
Proof.
  intros Hx Hr [Hlo Hhi]. set (s := sort_slice Z.ltb xs) in *.
  assert (s ≡ₚ xs) as Hperm by apply sort_slice_perm.
  assert (StronglySorted Z.le s) as Hsort.
  { apply sort_slice_strong; [lia|lia|intros ???; lia]. }
  unfold below in Hlo, Hhi. rewrite <- Hperm in Hlo, Hhi.
  pose proof (lookup_lt_Some _ _ _ Hx) as Hlt.
  destruct (Z.lt_trichotomy (bucketOf x) i) as [Hb|[Hb|Hb]]; [|done|]; exfalso.
  - assert (Z.to_nat r <= length (filter (fun y => (bucketOf y < i)%Z) s))%nat; [|lia].
    apply count_take; [lia|]. apply Forall_forall. intros y Hy.
    apply list_elem_of_lookup in Hy as [j Hj]. apply lookup_take_Some in Hj as [Hj Hlj].
    apply Z.le_lt_trans with (bucketOf x); [|done]. apply bucketOf_mono.
    destruct (decide (j = Z.to_nat (r - 1))) as [->|]; [simplify_eq; lia|].
    eapply (StronglySorted_lookup_le Z.le); eauto. lia.
  - assert (length (filter (fun y => (bucketOf y < i + 1)%Z) s) <= Z.to_nat (r - 1))%nat; [|lia].
    apply count_drop. apply Forall_forall. intros y Hy Hyb.
    apply list_elem_of_lookup in Hy as [j Hj]. rewrite lookup_drop in Hj.
    assert (bucketOf x <= bucketOf y); [|lia]. apply bucketOf_mono.
    destruct j as [|j]; [rewrite Nat.add_0_r in Hj; simplify_eq; lia|].
    eapply (StronglySorted_lookup_le Z.le); eauto. lia.
Qed.

Lemma rankOf_range n q : 1 <= n -> 1 <= rankOf n q <= n.
Proof.
  intros Hn. unfold rankOf.
  set (r := uint64_of _).
  assert (0 <= r).
  { unfold r, uint64_of. repeat case_match; lia. }
  repeat case_match; lia.
Qed.

(** The quantile, as an order statistic: [Quantile] answers with the bucket bound
    of the sample at the rank, so never below it, at most a sixteenth above it,
    and never above the true peak. *)
Lemma quantile_order_statistic h xs q :
  represents h xs -> 0 < Z.of_nat (length xs) < 2 ^ 64 ->
  exists x, sort_slice Z.ltb xs !! Z.to_nat (rankOf (Count h) q - 1) = Some x /\
    x <= Quantile h q <= x + x / 16 /\ Quantile h q <= Peak h.
Proof.
  intros Hrep Hlen. pose proof (rep_n _ _ Hrep) as Hn. rewrite u64_small in Hn by lia.
  unfold Count, Quantile, Peak. rewrite Hn in *.
  destruct (Z.eqb_spec (Z.of_nat (length xs)) 0); [lia|].
  set (r := rankOf _ q). pose proof (rankOf_range (Z.of_nat (length xs)) q ltac:(lia)) as Hr.
  fold r in Hr.
  assert (0 < numBuckets) by (change numBuckets with 337; lia).
  destruct (quantileWalk_spec h xs r (Z.to_nat numBuckets) 0) as (i & Hi & Hw);
    [done|lia|lia|rewrite below_0; lia|].
  rewrite below_0, Z2Nat.id in Hw by lia. rewrite Hw.
  pose proof (sort_slice_perm Z.ltb xs) as Hperm.
  destruct (lookup_lt_is_Some_2 (sort_slice Z.ltb xs) (Z.to_nat (r - 1))) as [x Hx].
  { rewrite Hperm. lia. }
  exists x. split; [done|].
  rewrite <- (order_statistic_bucket xs r x i) by (done || lia).
  assert (x ∈ xs) as Hin by (rewrite <- Hperm; by apply list_elem_of_lookup_2 in Hx).
  pose proof (proj1 (Forall_forall _ _) (rep_range _ _ Hrep) x Hin) as Hxr.
  cbv beta in Hxr. pose proof (upperBound_bounds x Hxr).
  rewrite (rep_peak _ _ Hrep). pose proof (maxZ_ub _ _ Hin).
  pose proof (Z.div_pos x 16 ltac:(lia) ltac:(lia)). lia.
Qed.

(** ** The stored form *)

Section codec_facts.
Context `{GoRange}.

(** A bucket outside the scheme, or a key that is not a number, is refused. *)
Lemma unmarshal_refuses w k c :
  w_B w !! k = Some c ->
  (match ParseInt k with None => True | Some i => i < 0 \/ numBuckets <= i end) ->
  is_ok (UnmarshalJSON w) = false.
Proof.
  intros Hk Hbad. unfold UnmarshalJSON.
  apply elem_of_go_range, list_elem_of_split in Hk as (l1 & l2 & ->).
  rewrite foldM_app. destruct (foldM _ _ l1) as [m|]; [|done]. cbn.
  unfold decodeBucket at 1. cbn.
  destruct (ParseInt k) as [i|]; [|done].
  assert ((i <? 0) || (numBuckets <=? i) = true) as -> by lia. done.
Qed.

Lemma unmarshal_marshal h xs : represents h xs -> UnmarshalJSON (MarshalJSON h) = Ok h.
Proof.
  intros Hrep. unfold UnmarshalJSON, MarshalJSON. cbn [w_B w_N w_Sum w_Peak].
  pose proof (rep_dom _ _ Hrep) as Hd.
  assert (Hnb : numBuckets = 337) by done.
  rewrite (foldM_fill _ (fun k => default 0 (ParseInt k))).
  - cbn. rewrite fill_roundtrip; [by destruct h|].
    intros b Hb%Hd. rewrite ParseInt_FormatInt by lia. done.
  - intros m k c Hin%elem_of_go_range.
    apply fill_inv in Hin as [Hin|(b & Hin & <-)]; [by rewrite lookup_empty in Hin|].
    apply elem_of_go_range in Hin. pose proof (Hd b ltac:(eauto)). unfold decodeBucket. cbn [fst snd].
    rewrite ParseInt_FormatInt by lia. cbn [default].
    assert ((b <? 0) || (numBuckets <=? b) = false) as -> by lia. done.
Qed.

End codec_facts.

(** ** Built by sampling *)

(** The histogram of a sequence of values. *)
Definition sampled (xs : list Z) : Histogram := fold_left Sample xs emptyHistogram.

Lemma sampled_represents xs : represents (sampled xs) (rev (map clamp xs)).
Proof.
  unfold sampled. rewrite <- (app_nil_r (rev (map clamp xs))).
  generalize empty_represents. generalize emptyHistogram as h. generalize (@nil Z) as l.
  induction xs as [|x xs IH]; intros l h Hh; cbn [fold_left map rev]; [done|].
  rewrite <- app_assoc. apply (IH (clamp x :: l)). by apply sample_represents.
Qed.

(** What can be observed of a histogram is determined by the samples it stands
    for, whatever their order. *)
Lemma represents_observed h1 h2 xs ys :
  represents h1 xs -> represents h2 ys -> xs ≡ₚ ys ->
  Count h1 = Count h2 /\ Peak h1 = Peak h2 /\ Mean h1 = Mean h2 /\ forall q, Quantile h1 q = Quantile h2 q.
Proof.
  intros [_ N1 S1 P1 C1 _] [_ N2 S2 P2 C2 _] Hp.
  assert (h_n h1 = h_n h2) as En by by rewrite N1, N2, Hp.
  assert (sumZ xs = sumZ ys) as Es by (clear -Hp; unfold sumZ; induction Hp; cbn; lia).
  assert (maxZ xs = maxZ ys) as Em by (clear -Hp; unfold maxZ; induction Hp; cbn; lia).
  assert (h_sum h1 = h_sum h2) as Esum by by rewrite S1, S2, Es.
  assert (h_peak h1 = h_peak h2) as Ep by by rewrite P1, P2, Em.
  assert (forall b, zlookup (h_counts h1) b = zlookup (h_counts h2) b) as Ec.
  { intros b. rewrite C1, C2. unfold bucket_count. by rewrite Hp. }
  split_and!; [done|done|unfold Mean; by rewrite En, Esum|].
  intros q. unfold Quantile. rewrite En. destruct (h_n h2 =? 0); [done|].
  generalize (rankOf (h_n h2) q) as rank. generalize 0 at 1 3 as seen.
  induction (seqZ 0 numBuckets) as [|b bs IH]; intros seen rank; cbn [quantileWalk]; [done|].
  rewrite Ec, Ep. destruct (_ <=? _); [done|apply IH].
Qed.

(** ** Properties *)

(** The bucket scheme: every value, clamped to the range, falls in one of
    the [numBuckets] buckets, order is kept, and a bucket's upper bound is at
    most a sixteenth above any value in it. *)
Theorem bucket_scheme v w :
  0 <= bucketOf v < numBuckets /\
  clamp v <= upperBound (bucketOf v) <= clamp v + clamp v / 16 /\
  (v <= w -> bucketOf v <= bucketOf w).
Proof.
  split; [apply bucketOf_range|]. split; [|apply bucketOf_mono].
  rewrite <- bucketOf_clamp. apply upperBound_bounds, clamp_range.
Qed.

(** Merging two histograms gives what sampling both sequences into one
    would have given: the same count, peak, mean and every quantile, so windows
    can be combined without error. *)
Theorem merge_is_sampling `{GoRange} xs ys :
  Z.of_nat (length ys) < 2 ^ 64 ->
  let m := Merge (sampled xs) (Some (sampled ys)) in
  let a := sampled (xs ++ ys) in
  Count m = Count a /\ Peak m = Peak a /\ Mean m = Mean a /\ forall q, Quantile m q = Quantile a q.
Proof.
  intros Hlen m a. eapply represents_observed.
  - apply merge_represents; [apply sampled_represents|apply sampled_represents|].
    by rewrite length_rev, length_map.
  - apply sampled_represents.
  - rewrite map_app, rev_app_distr. apply Permutation_app_comm.
Qed.

(** A quantile is the order statistic of its rank, overestimated by at most
    a sixteenth and never above the peak: the histogram never reports less than
    the samples show. *)
Theorem quantile_is_order_statistic xs q :
  0 < Z.of_nat (length xs) < 2 ^ 64 ->
  exists x, sort_slice Z.ltb (map clamp xs) !! Z.to_nat (rankOf (Z.of_nat (length xs)) q - 1) = Some x /\
    x <= Quantile (sampled xs) q <= x + x / 16 /\ Quantile (sampled xs) q <= Peak (sampled xs).
Proof.
  intros Hlen. pose proof (sampled_represents xs) as Hr.
  destruct (quantile_order_statistic _ _ q Hr) as (x & Hx & Hb); [by rewrite length_rev, length_map|].
  exists x. split; [|done]. rewrite <- Hx.
  assert (Count (sampled xs) = Z.of_nat (length xs)) as ->.
  { unfold Count. rewrite (rep_n _ _ Hr), length_rev, length_map. apply u64_small. lia. }
  f_equal. apply (StronglySorted_unique Z.le).
  - apply sort_slice_strong; [lia|lia|intros ???; lia].
  - apply sort_slice_strong; [lia|lia|intros ???; lia].
  - rewrite !sort_slice_perm. apply Permutation_rev.
Qed.

Lemma quantile_is_order_statistic_witness :
  exists x, sort_slice Z.ltb (map clamp [300; 5; 100; 7]) !! 2%nat = Some x /\
    x <= Quantile (sampled [300; 5; 100; 7]) (flit 3 4) <= x + x / 16.
Proof.
  destruct (quantile_is_order_statistic [300; 5; 100; 7] (flit 3 4)) as (x & Hx & Hb & _);
    [split; reflexivity|].
  exists x. split; [|exact Hb]. exact Hx.
Defined.

(** A stored histogram reads back as itself, whatever was sampled. *)
Theorem histogram_roundtrip `{GoRange} xs :
  UnmarshalJSON (MarshalJSON (sampled xs)) = Ok (sampled xs).
Proof. eapply unmarshal_marshal, sampled_represents. Qed.

(** A stored histogram with a bucket that is not a decimal number or lies
    outside the scheme is refused, whatever else it holds, rather than read as a
    different distribution. *)
Theorem histogram_refuses_foreign_buckets `{GoRange} w k c :
  w_B w !! k = Some c ->
  match ParseInt k with None => True | Some i => i < 0 \/ numBuckets <= i end ->
  exists e, UnmarshalJSON w = Err e.
Proof.
  intros Hk Hb. pose proof (unmarshal_refuses w k c Hk Hb) as Hr.
  destruct (UnmarshalJSON w) as [h|e]; [done|by exists e].
Qed.
