(* ===== verification/Series.v ===== *)
(** * Rolling hourly series ([technocore/usage/series.go])

    One histogram per clock hour, kept only while the hour is inside the window.
    A slot's histogram is owned by its slot, so updating it through the pointer
    is updating the list entry.  A slot decoded from a document with a null
    distribution, on which the program would fault, is outside the model. *)

From S2P Require Import Prelude GoTime Histogram.

Definition DefaultHours : Z := 24.

Record Slot := mkSlot { slot_Hour : Z; slot_Dist : Histogram }.

Record Series := mkSeries { s_Hours : Z; s_Slots : list Slot }.

Definition NewSeries (hours : Z) : Series :=
  mkSeries (if hours <=? 0 then DefaultHours else hours) [].

(** [int(t.Unix() / 3600)], which truncates toward zero. *)
Definition hourOf (t : Time) : Z := Z.quot (Unix t) 3600.

(** The search from the newest slot down: the index of the slot for [h], giving
    up at the first older slot. *)
Fixpoint findSlot (slots : list Slot) (h : Z) (i : nat) : option nat :=
  match i with
  | O => None
  | S i =>
      match slots !! i with
      | Some s =>
          if slot_Hour s =? h then Some i
          else if slot_Hour s <? h then None
          else findSlot slots h i
      | None => None
      end
  end.

(** The index loop of [evict] drops the leading slots older than [oldest]. *)
Fixpoint dropOlder (oldest : Z) (slots : list Slot) : list Slot :=
  match slots with
  | s :: rest => if slot_Hour s <? oldest then dropOlder oldest rest else slots
  | [] => []
  end.

Definition evict (s : Series) (nowHour : Z) : Series :=
  mkSeries (s_Hours s) (dropOlder (nowHour - s_Hours s + 1) (s_Slots s)).

Definition SampleSeries (s : Series) (at_ : Time) (v : Z) : Series :=
  let s := mkSeries (if s_Hours s <=? 0 then DefaultHours else s_Hours s) (s_Slots s) in
  let h := hourOf at_ in
  match findSlot (s_Slots s) h (length (s_Slots s)) with
  | Some i =>
      mkSeries (s_Hours s)
        (alter (fun sl => mkSlot (slot_Hour sl) (Sample (slot_Dist sl) v)) i (s_Slots s))
  | None =>
      match last (s_Slots s) with
      | Some newest =>
          if h <? slot_Hour newest then s
          else evict (mkSeries (s_Hours s) (s_Slots s ++ [mkSlot h (Sample emptyHistogram v)])) h
      | None =>
          evict (mkSeries (s_Hours s) (s_Slots s ++ [mkSlot h (Sample emptyHistogram v)])) h
      end
  end.

Definition Window `{GoRange} (s : Series) (now : Time) (n : Z) : Histogram :=
  if n <=? 0 then emptyHistogram
  else
    let nowHour := hourOf now in
    let oldest := nowHour - n + 1 in
    fold_left (fun out sl =>
      if (oldest <=? slot_Hour sl) && (slot_Hour sl <=? nowHour)
      then Merge out (Some (slot_Dist sl)) else out) (s_Slots s) emptyHistogram.

Definition Shrink (s : Series) (hours : Z) : Series :=
  let hours := if hours <? 1 then 1 else hours in
  if s_Hours s <=? hours then s
  else
    let s := mkSeries hours (s_Slots s) in
    match last (s_Slots s) with
    | Some newest => evict s (slot_Hour newest)
    | None => s
    end.

Definition Empty (s : Series) : bool := bool_decide (s_Slots s = []).

(** ** The slot invariant *)

Abbreviation hours_of sl := (map slot_Hour sl).

(** Slots ascend strictly and all lie in the window that ends at the newest. *)
Record series_wf (s : Series) : Prop := {
  wf_hours : 0 < s_Hours s;
  wf_sorted : StronglySorted Z.lt (hours_of (s_Slots s));
  wf_window : forall newest sl, last (s_Slots s) = Some newest -> sl ∈ s_Slots s ->
    slot_Hour newest - s_Hours s < slot_Hour sl
}.

(** The states a series goes through: made, sampled at any times, shrunk. *)
Inductive series_op :=
| OpSample (at_ : Time) (v : Z)
| OpShrink (hours : Z).

Definition run_op (s : Series) (o : series_op) : Series :=
  match o with
  | OpSample t v => SampleSeries s t v
  | OpShrink n => Shrink s n
  end.

Lemma ascending_length l a b :
  StronglySorted Z.lt l -> (forall x, x ∈ l -> a < x <= b) -> a <= b ->
  Z.of_nat (length l) <= b - a.
Proof.
  revert a. induction l as [|x l IH]; intros a Hs Hin Hab; cbn; [lia|].
  inversion Hs as [|?? Hs' Hx]; subst. rewrite Forall_forall in Hx.
  pose proof (Hin x ltac:(by left)).
  specialize (IH x Hs'). destruct l as [|y l]; [cbn; lia|].
  assert (Z.of_nat (length (y :: l)) <= b - x); [|cbn in *; lia].
  apply IH; [|lia]. intros z Hz. split; [by apply Hx|]. apply Hin. by right.
Qed.

Lemma hours_of_elem sl (slots : list Slot) : sl ∈ slots -> slot_Hour sl ∈ hours_of slots.
Proof. apply (list_elem_of_fmap_2 slot_Hour). Qed.

Lemma StronglySorted_filter {A} (R : A -> A -> Prop) (P : A -> Prop) `{forall x, Decision (P x)} l :
  StronglySorted R l -> StronglySorted R (filter P l).
Proof.
  induction 1 as [|x l Hs IH Hx]; [constructor|]. rewrite filter_cons. case_decide; [|done].
  constructor; [done|]. rewrite Forall_forall in Hx. apply Forall_forall. intros y Hy.
  apply Hx. by apply list_elem_of_filter in Hy as [_ ?].
Qed.

(** [evict]'s index loop is a filter, because the slots ascend. *)
Lemma dropOlder_filter o slots :
  StronglySorted Z.lt (hours_of slots) ->
  dropOlder o slots = filter (fun s => o <= slot_Hour s) slots.
Proof.
  induction slots as [|s slots IH]; intros Hs; [done|]. cbn [dropOlder map] in *.
  inversion Hs as [|?? Hs' Hx]; subst.
  destruct (Z.ltb_spec (slot_Hour s) o).
  - rewrite filter_cons_False by lia. by apply IH.
  - symmetry. apply filter_all. constructor; [lia|].
    rewrite Forall_forall in Hx. apply Forall_forall. intros y Hy%hours_of_elem%Hx. lia.
Qed.

Lemma map_filter_sorted o slots :
  StronglySorted Z.lt (hours_of slots) ->
  StronglySorted Z.lt (hours_of (filter (fun s => o <= slot_Hour s) slots)).
Proof.
  intros Hs. induction slots as [|s slots IH]; [constructor|].
  cbn in Hs. inversion Hs as [|?? Hs' Hx]; subst.
  rewrite filter_cons. case_decide; [|by apply IH].
  cbn. constructor; [by apply IH|]. rewrite Forall_forall in Hx. apply Forall_forall.
  intros y Hy. apply list_elem_of_fmap in Hy as (s' & -> & Hin).
  apply list_elem_of_filter in Hin as [_ Hin]. by apply Hx, hours_of_elem.
Qed.

Lemma findSlot_Some slots h i j :
  findSlot slots h i = Some j -> (j < i)%nat /\ exists s, slots !! j = Some s /\ slot_Hour s = h.
Proof.
  induction i as [|i IH]; cbn; [done|].
  destruct (slots !! i) as [s|] eqn:E; [|done].
  destruct (Z.eqb_spec (slot_Hour s) h).
  - intros [= <-]. split; [lia|eauto].
  - destruct (_ <? _); [done|]. intros [? ?]%IH. split; [lia|done].
Qed.

Lemma findSlot_None slots h i :
  StronglySorted Z.lt (hours_of slots) -> findSlot slots h i = None ->
  forall j s, (j < i)%nat -> (i <= length slots)%nat -> slots !! j = Some s -> slot_Hour s <> h.
Proof.
  intros Hs. induction i as [|i IH]; cbn; intros Hf j s Hj Hi Hl; [lia|].
  destruct (lookup_lt_is_Some_2 slots i) as [s' Hs']; [lia|]. rewrite Hs' in Hf.
  destruct (Z.eqb_spec (slot_Hour s') h); [done|].
  destruct (Z.ltb_spec (slot_Hour s') h) as [Hlt|].
  - destruct (decide (j = i)) as [->|]; [naive_solver|].
    assert (slot_Hour s < slot_Hour s'); [|lia].
    apply (StronglySorted_lookup_le Z.lt (hours_of slots) j i); [done| | |lia];
      rewrite list_lookup_fmap; [by rewrite Hl|by rewrite Hs'].
  - destruct (decide (j = i)) as [->|]; [naive_solver|]. eapply IH; eauto; lia.
Qed.

Lemma not_found_hours s h :
  StronglySorted Z.lt (hours_of (s_Slots s)) ->
  findSlot (s_Slots s) h (length (s_Slots s)) = None -> h ∉ hours_of (s_Slots s).
Proof.
  intros Hs Hf Hin. apply list_elem_of_fmap in Hin as (sl & -> & Hin).
  apply list_elem_of_lookup in Hin as [j Hj].
  eapply findSlot_None; eauto. by apply lookup_lt_Some in Hj.
Qed.

Lemma last_max slots newest sl :
  StronglySorted Z.lt (hours_of slots) -> last slots = Some newest -> sl ∈ slots ->
  slot_Hour sl <= slot_Hour newest.
Proof.
  intros Hs Hl Hin. rewrite last_lookup in Hl.
  apply list_elem_of_lookup in Hin as [j Hj]. pose proof (lookup_lt_Some _ _ _ Hj).
  destruct (decide (j = pred (length slots))) as [->|]; [naive_solver lia|].
  apply Z.lt_le_incl.
  apply (StronglySorted_lookup_le Z.lt (hours_of slots) j (pred (length slots))); [done| | |lia];
    rewrite list_lookup_fmap; [by rewrite Hj|by rewrite Hl].
Qed.

Lemma evict_wf s h d :
  0 < s_Hours s -> StronglySorted Z.lt (hours_of (s_Slots s ++ [mkSlot h d])) ->
  series_wf (evict (mkSeries (s_Hours s) (s_Slots s ++ [mkSlot h d])) h).
Proof.
  intros Hh Hs. split; cbn [evict s_Hours s_Slots]; [done| |].
  - rewrite dropOlder_filter by done. by apply map_filter_sorted.
  - rewrite dropOlder_filter by done. intros newest sl Hl Hin.
    rewrite filter_app, filter_cons_True, last_app in Hl by (cbn; lia). cbn in Hl.
    injection Hl as <-. apply list_elem_of_filter in Hin as [? _]. cbn. lia.
Qed.

Lemma hours_alter slots i f :
  (forall s, slot_Hour (f s) = slot_Hour s) -> hours_of (alter f i slots) = hours_of slots.
Proof.
  intros Hf. revert i. induction slots as [|s slots IH]; intros [|i]; cbn; try done.
  - by rewrite Hf.
  - f_equal. apply IH.
Qed.

(** [last] and membership see only hours through [hours_of]. *)
Lemma series_wf_hours s s' :
  s_Hours s = s_Hours s' -> hours_of (s_Slots s) = hours_of (s_Slots s') ->
  series_wf s -> series_wf s'.
Proof.
  intros Eh Es [Hh Hs Hw]. split; [lia|by rewrite <- Es|].
  intros newest sl Hl Hin.
  assert (last (hours_of (s_Slots s)) = Some (slot_Hour newest)) as Hl'.
  { rewrite Es, fmap_last, Hl. done. }
  rewrite fmap_last in Hl'. apply fmap_Some in Hl' as (n' & Hn & ->).
  apply hours_of_elem in Hin. rewrite <- Es in Hin.
  apply list_elem_of_fmap in Hin as (sl' & -> & Hin). rewrite <- Eh. by apply Hw.
Qed.

Lemma new_wf hours : series_wf (NewSeries hours).
Proof.
  split; cbn.
  - unfold DefaultHours. destruct (Z.leb_spec hours 0); lia.
  - constructor.
  - done.
Qed.

Lemma sample_append_sorted s h d :
  StronglySorted Z.lt (hours_of (s_Slots s)) -> h ∉ hours_of (s_Slots s) ->
  (forall newest, last (s_Slots s) = Some newest -> slot_Hour newest <= h) ->
  StronglySorted Z.lt (hours_of (s_Slots s ++ [mkSlot h d])).
Proof.
  intros Hs Hni Hlast. rewrite map_app. cbn.
  assert (Forall (fun x => x < h) (hours_of (s_Slots s))) as Hf.
  { apply Forall_forall. intros x Hx.
    apply list_elem_of_fmap in Hx as (sl & -> & Hin).
    destruct (last (s_Slots s)) as [newest|] eqn:E.
    - pose proof (last_max _ _ _ Hs E Hin). pose proof (Hlast _ eq_refl).
      assert (slot_Hour sl <> h); [|lia]. intros <-. by apply Hni, hours_of_elem.
    - apply last_None in E. rewrite E in Hin. by apply not_elem_of_nil in Hin. }
  induction Hs as [|x l Hs IH Hx]; cbn; [repeat constructor|].
  apply Forall_cons in Hf as [Hxh Hf]. constructor.
  - apply IH; [set_solver|done].
  - apply Forall_app. split; [done|]. by constructor.
Qed.

(** The three ways a sample goes: into its hour's slot, nowhere (out of order),
    or into a new newest slot. *)
Inductive sample_case (s : Series) (h v : Z) : Series -> Prop :=
| sample_found i sl :
    s_Slots s !! i = Some sl -> slot_Hour sl = h ->
    sample_case s h v (mkSeries (s_Hours s)
      (alter (fun sl => mkSlot (slot_Hour sl) (Sample (slot_Dist sl) v)) i (s_Slots s)))
| sample_dropped newest :
    last (s_Slots s) = Some newest -> h < slot_Hour newest -> h ∉ hours_of (s_Slots s) ->
    sample_case s h v s
| sample_new :
    h ∉ hours_of (s_Slots s) ->
    (forall newest, last (s_Slots s) = Some newest -> slot_Hour newest <= h) ->
    sample_case s h v
      (evict (mkSeries (s_Hours s) (s_Slots s ++ [mkSlot h (Sample emptyHistogram v)])) h).

Lemma sample_cases s t v : series_wf s -> sample_case s (hourOf t) v (SampleSeries s t v).
Proof.
  intros [Hh Hs Hw]. unfold SampleSeries.
  destruct (Z.leb_spec (s_Hours s) 0); [lia|]. destruct s as [hh slots]; cbn in *.
  destruct (findSlot slots (hourOf t) (length slots)) as [i|] eqn:E.
  - apply findSlot_Some in E as (_ & sl & Hl & He). by eapply (sample_found (mkSeries hh slots)).
  - pose proof (not_found_hours (mkSeries hh slots) _ Hs E) as Hni.
    destruct (last slots) as [newest|] eqn:El.
    + destruct (Z.ltb_spec (hourOf t) (slot_Hour newest)).
      * by eapply sample_dropped.
      * apply (sample_new (mkSeries hh slots)); [done|]. cbn. rewrite El. by intros ? [= <-].
    + apply (sample_new (mkSeries hh slots)); [done|]. cbn. by rewrite El.
Qed.

Lemma sample_wf s t v : series_wf s -> series_wf (SampleSeries s t v).
Proof.
  intros Hwf. destruct (sample_cases s t v Hwf); [|done|].
  - eapply series_wf_hours, Hwf; [done|]. cbn. symmetry. by apply hours_alter.
  - apply evict_wf; [apply Hwf|]. apply sample_append_sorted; [apply Hwf|done|done].
Qed.

Lemma shrink_wf s n : series_wf s -> series_wf (Shrink s n).
Proof.
  intros [Hh Hs Hw]. unfold Shrink. set (m := if n <? 1 then 1 else n).
  assert (0 < m) by (unfold m; case_match; lia).
  destruct (_ <=? _) eqn:E; [by split|]. cbn [s_Slots].
  destruct (last (s_Slots s)) as [newest|] eqn:El.
  - split; cbn [evict s_Hours s_Slots]; [done| |].
    + rewrite dropOlder_filter by done. by apply map_filter_sorted.
    + rewrite dropOlder_filter by done. intros newest' sl Hl Hin.
      apply list_elem_of_filter in Hin as [Hsl Hin].
      assert (newest' ∈ s_Slots s) as Hn.
      { rewrite last_lookup in Hl. apply list_elem_of_lookup_2 in Hl.
        by apply list_elem_of_filter in Hl as [_ ?]. }
      pose proof (last_max _ _ _ Hs El Hn). lia.
  - split; cbn; [done|done|]. by rewrite El.
Qed.

Lemma run_op_wf s o : series_wf s -> series_wf (run_op s o).
Proof. destruct o; [apply sample_wf|apply shrink_wf]. Qed.

Lemma series_length s : series_wf s -> Z.of_nat (length (s_Slots s)) <= s_Hours s.
Proof.
  intros [Hh Hs Hw]. destruct (last (s_Slots s)) as [newest|] eqn:E.
  - rewrite <- (length_fmap slot_Hour).
    replace (s_Hours s) with (slot_Hour newest - (slot_Hour newest - s_Hours s)) by lia.
    apply ascending_length; [done| |lia].
    intros x Hx. apply list_elem_of_fmap in Hx as (sl & -> & Hin).
    split; [by apply Hw|by eapply last_max].
  - apply last_None in E. rewrite E. cbn. lia.
Qed.

(** Whatever is sampled, at whatever times, and however the window is shrunk,
    the slots ascend strictly, lie inside the window, and number at most its
    hours: an instance up for a year stores what one up for a day stores. *)
Lemma series_run_wf hours ops :
  let s := fold_left run_op ops (NewSeries hours) in
  series_wf s /\ Z.of_nat (length (s_Slots s)) <= s_Hours s.
Proof.
  intros s. assert (series_wf s) as Hwf.
  { subst s. generalize (new_wf hours). generalize (NewSeries hours).
    induction ops as [|o ops IH]; intros s Hs; cbn; [done|]. by apply IH, run_op_wf. }
  split; [done|by apply series_length].
Qed.

(** ** The window is the filter of the log *)

(** A log entry: the hour of a sample and its clamped value. *)
Abbreviation log := (list (Z * Z)).

Definition at_hour (l : log) (h : Z) : list Z := (filter (fun e => e.1 = h) l).*2.
Definition between (l : log) (lo hi : Z) : list Z :=
  (filter (fun e => lo <= e.1 <= hi) l).*2.

Lemma represents_perm h xs ys : xs ≡ₚ ys -> represents h xs -> represents h ys.
Proof.
  intros Hp [Hr Hn Hs Hk Hc Hd]. split.
  - by rewrite <- Hp.
  - by rewrite <- Hp.
  - rewrite Hs. f_equal. unfold sumZ. clear -Hp.
    induction Hp; cbn; lia.
  - rewrite Hk. unfold maxZ. clear -Hp. induction Hp; cbn; lia.
  - intros b. rewrite Hc. unfold bucket_count. by rewrite Hp.
  - done.
Qed.

(** The log a series holds: every slot's histogram stands for its hour's
    entries, and every entry inside the window has a slot. *)
Record series_log (s : Series) (l : log) : Prop := {
  sl_dist : forall sl, sl ∈ s_Slots s -> represents (slot_Dist sl) (at_hour l (slot_Hour sl));
  sl_from : forall sl, sl ∈ s_Slots s -> exists e, e ∈ l /\ e.1 = slot_Hour sl;
  sl_last : forall e, e ∈ l -> exists newest, last (s_Slots s) = Some newest /\ e.1 <= slot_Hour newest;
  sl_kept : forall e newest, e ∈ l -> last (s_Slots s) = Some newest ->
    slot_Hour newest - s_Hours s < e.1 -> e.1 ∈ hours_of (s_Slots s);
}.

Lemma at_hour_cons e l h :
  at_hour (e :: l) h = if decide (e.1 = h) then e.2 :: at_hour l h else at_hour l h.
Proof. unfold at_hour. rewrite filter_cons. by case_decide. Qed.

Lemma at_hour_fresh l h : (forall e, e ∈ l -> e.1 <> h) -> at_hour l h = [].
Proof. intros Hl. unfold at_hour. rewrite filter_none; [done|]. apply Forall_forall. auto. Qed.

Lemma new_log hours : series_log (NewSeries hours) [].
Proof. split; cbn; try (intros ? Hin; by apply not_elem_of_nil in Hin); intros ?? Hin; by apply not_elem_of_nil in Hin. Qed.

Lemma hours_nodup slots i j (a b : Slot) :
  StronglySorted Z.lt (hours_of slots) -> slots !! i = Some a -> slots !! j = Some b ->
  slot_Hour a = slot_Hour b -> i = j.
Proof.
  intros Hs Ha Hb Hab.
  assert (forall i j a b, slots !! i = Some a -> slots !! j = Some b -> (i < j)%nat ->
    slot_Hour a < slot_Hour b) as Hlt.
  { intros i' j' a' b' Ha' Hb' Hij.
    apply (StronglySorted_lookup_le Z.lt (hours_of slots) i' j'); [done| | |done];
      rewrite list_lookup_fmap; [by rewrite Ha'|by rewrite Hb']. }
  destruct (Nat.lt_trichotomy i j) as [H|[H|H]]; [|done|]; eapply Hlt in H; eauto; lia.
Qed.

Lemma sample_log s l t v :
  series_wf s -> series_log s l -> (forall e, e ∈ l -> e.1 <= hourOf t) ->
  series_log (SampleSeries s t v) ((hourOf t, clamp v) :: l).
Proof.
  intros Hwf [Hd Hf Hl Hk] Hle. pose proof (wf_sorted _ Hwf) as Hsort.
  destruct (sample_cases s t v Hwf) as [i sl Hi <-|newest Hn Hlt Hni|Hni Hlast].
  - set (f := fun sl => mkSlot (slot_Hour sl) (Sample (slot_Dist sl) v)).
    assert (hours_of (alter f i (s_Slots s)) = hours_of (s_Slots s)) as Hh by by apply hours_alter.
    assert (last (s_Slots s) <> None) as Hne by (rewrite last_None; intros E; by rewrite E in Hi).
    assert (forall newest, last (alter f i (s_Slots s)) = Some newest ->
      exists n', last (s_Slots s) = Some n' /\ slot_Hour n' = slot_Hour newest) as Hlast.
    { intros newest Hn. assert (last (hours_of (s_Slots s)) = Some (slot_Hour newest)) as E.
      { rewrite <- Hh, fmap_last, Hn. done. }
      rewrite fmap_last in E. apply fmap_Some in E as (n' & ? & ?). eauto. }
    split; cbn [s_Slots s_Hours].
    + intros sl' Hin. apply list_elem_of_lookup in Hin as [j Hj].
      rewrite list_lookup_alter in Hj. rewrite at_hour_cons. cbn [fst snd].
      destruct (decide (i = j)) as [<-|Hij].
      * rewrite Hi in Hj. injection Hj as <-. cbn. rewrite decide_True by done.
        apply sample_represents, Hd. by eapply list_elem_of_lookup_2.
      * rewrite decide_False; [by eapply Hd, list_elem_of_lookup_2|].
        intros E. apply Hij. by eapply hours_nodup.
    + intros sl' Hin%hours_of_elem. rewrite Hh in Hin.
      apply list_elem_of_fmap in Hin as (sl0 & -> & Hin).
      destruct (Hf _ Hin) as (e & He & <-). exists e. split; [by right|done].
    + intros e Hin. destruct (last (alter f i (s_Slots s))) as [newest|] eqn:E.
      2: { apply last_None in E. apply (f_equal length) in E. rewrite length_alter in E.
           apply lookup_lt_Some in Hi. cbn in E. lia. }
      exists newest. split; [done|]. destruct (Hlast _ eq_refl) as (n' & Hn' & <-).
      apply elem_of_cons in Hin as [->|Hin]; cbn.
      * eapply last_max; [done..|]. by eapply list_elem_of_lookup_2.
      * destruct (Hl _ Hin) as (? & ? & ?). naive_solver.
    + intros e newest Hin Hn Hw. rewrite Hh.
      apply elem_of_cons in Hin as [->|Hin]; [by apply hours_of_elem, (list_elem_of_lookup_2 _ i)|].
      destruct (Hlast _ Hn) as (n' & Hn' & He). rewrite <- He in Hw. by eapply Hk.
  - exfalso. assert (newest ∈ s_Slots s) as Hin.
    { rewrite last_lookup in Hn. by eapply list_elem_of_lookup_2. }
    destruct (Hf _ Hin) as (e & He & E). apply Hle in He. lia.
  - assert (forall e, e ∈ l -> e.1 <> hourOf t) as Hfresh.
    { intros e Hin E. destruct (Hl _ Hin) as (newest & Hn & He).
      pose proof (Hlast _ Hn). apply Hni. replace (hourOf t) with (slot_Hour newest) by lia.
      apply hours_of_elem. rewrite last_lookup in Hn. by eapply list_elem_of_lookup_2. }
    pose proof (sample_append_sorted s (hourOf t) (Sample emptyHistogram v) Hsort Hni Hlast) as Hs'.
    pose proof (wf_hours _ Hwf).
    split; cbn [evict s_Slots s_Hours]; rewrite dropOlder_filter by done.
    + intros sl Hin. apply list_elem_of_filter in Hin as [_ Hin].
      rewrite at_hour_cons. cbn [fst snd].
      apply elem_of_app in Hin as [Hin|Hin%list_elem_of_singleton].
      * rewrite decide_False; [by apply Hd|]. intros E. apply Hni. rewrite E. by apply hours_of_elem.
      * subst sl. cbn [slot_Hour slot_Dist]. rewrite decide_True by done.
        rewrite at_hour_fresh by done. apply (sample_represents _ []), empty_represents.
    + intros sl Hin. apply list_elem_of_filter in Hin as [_ Hin].
      apply elem_of_app in Hin as [Hin|Hin%list_elem_of_singleton].
      * destruct (Hf _ Hin) as (e & He & <-). exists e. split; [by right|done].
      * subst sl. eexists. split; [by left|done].
    + intros e Hin. exists (mkSlot (hourOf t) (Sample emptyHistogram v)).
      rewrite filter_app, filter_cons_True, last_app by (cbn; lia). split; [done|].
      apply elem_of_cons in Hin as [->|Hin]; cbn; [lia|by apply Hle].
    + intros e newest Hin Hn Hw. rewrite filter_app, filter_cons_True, last_app in Hn by (cbn; lia).
      cbn in Hn. injection Hn as <-. cbn [slot_Hour] in Hw.
      apply elem_of_cons in Hin as [->|Hin].
      * change (hourOf t) with (slot_Hour (mkSlot (hourOf t) (Sample emptyHistogram v))) at 1.
        apply hours_of_elem, list_elem_of_filter. cbn. split; [lia|]. apply elem_of_app. right. by left.
      * destruct (Hl _ Hin) as (n' & Hn' & Hle'). pose proof (Hlast _ Hn').
        pose proof (Hk _ _ Hin Hn' ltac:(lia)) as Hin'.
        apply list_elem_of_fmap in Hin' as (sl & E & Hin'). rewrite E in *.
        apply hours_of_elem, list_elem_of_filter. split; [lia|]. apply elem_of_app. by left.
Qed.

(** A concatenation over distinct hours is a filter, up to order. *)
Lemma concat_at_hours l hs :
  NoDup hs -> concat (map (at_hour l) hs) ≡ₚ (filter (fun e => e.1 ∈ hs) l).*2.
Proof.
  induction hs as [|h hs IH]; intros Hnd.
  { cbn. rewrite filter_none; [done|]. apply Forall_forall. intros e _. apply not_elem_of_nil. }
  apply NoDup_cons in Hnd as [Hni Hnd]. cbn. rewrite (IH Hnd). clear IH.
  unfold at_hour. induction l as [|e l IH]; [done|]. rewrite !filter_cons.
  destruct (decide (e.1 = h)) as [<-|Hne].
  - rewrite (decide_False (P := e.1 ∈ hs)) by done. rewrite decide_True by by left.
    cbn. by f_equiv.
  - destruct (decide (e.1 ∈ hs)).
    + rewrite decide_True by by right. cbn. rewrite <- IH. by rewrite Permutation_middle.
    + rewrite decide_False; [done|]. intros [?|?]%elem_of_cons; done.
Qed.

Section window.
Context `{GoRange}.

Lemma window_fold l (P : Slot -> bool) slots out xs :
  Z.of_nat (length l) < 2 ^ 64 ->
  (forall sl, sl ∈ slots -> represents (slot_Dist sl) (at_hour l (slot_Hour sl))) ->
  represents out xs ->
  represents
    (fold_left (fun out sl => if P sl then Merge out (Some (slot_Dist sl)) else out) slots out)
    (xs ++ concat (map (at_hour l) (hours_of (filter (fun sl => P sl = true) slots)))).
Proof.
  intros Hlen. revert out xs.
  induction slots as [|sl slots IH]; intros out xs Hd Ho; [by rewrite app_nil_r|].
  cbn [fold_left]. rewrite filter_cons.
  destruct (P sl) eqn:E.
  - rewrite decide_True by done. cbn [map concat]. rewrite app_assoc. apply IH.
    + intros sl' Hin. apply Hd. by right.
    + apply merge_represents; [done|apply Hd; by left|].
      unfold at_hour. rewrite length_fmap.
      pose proof (length_filter (fun e => e.1 = slot_Hour sl) l). lia.
  - rewrite decide_False by done. apply IH; [|done]. intros sl' Hin. apply Hd. by right.
Qed.

(** For a series fed in clock order, the window over the last [n] retained
    hours stands for exactly the samples of those hours. *)
Lemma window_log s l now n :
  series_wf s -> series_log s l -> Z.of_nat (length l) < 2 ^ 64 ->
  (forall e, e ∈ l -> e.1 <= hourOf now) -> 1 <= n <= s_Hours s ->
  represents (Window s now n) (between l (hourOf now - n + 1) (hourOf now)).
Proof.
  intros Hwf [Hd Hf Hl Hk] Hlen Hle Hn. pose proof (wf_sorted _ Hwf) as Hsort.
  unfold Window. destruct (Z.leb_spec n 0); [lia|].
  set (lo := hourOf now - n + 1).
  set (P := fun sl => (lo <=? slot_Hour sl) && (slot_Hour sl <=? hourOf now)).
  pose proof (window_fold l P (s_Slots s) emptyHistogram [] Hlen Hd empty_represents) as Hw.
  cbn [app] in Hw. eapply represents_perm, Hw.
  set (hs := hours_of (filter (fun sl => P sl = true) (s_Slots s))).
  assert (forall h, h ∈ hs <-> h ∈ hours_of (s_Slots s) /\ lo <= h <= hourOf now) as Hhs.
  { intros h. unfold hs. split.
    - intros (sl & -> & [HP Hin]%list_elem_of_filter)%list_elem_of_fmap.
      unfold P in HP. split; [by apply hours_of_elem|lia].
    - intros [(sl & -> & Hin)%list_elem_of_fmap Hr]. apply hours_of_elem, list_elem_of_filter.
      unfold P. split; [lia|done]. }
  assert (NoDup hs) as Hnd.
  { unfold hs. clear -Hsort. induction (s_Slots s) as [|sl slots IH]; [constructor|].
    cbn in Hsort. inversion Hsort as [|?? Hs' Hx]; subst. rewrite filter_cons.
    case_decide; [|by apply IH]. cbn. constructor; [|by apply IH].
    intros (sl' & E & [_ Hin]%list_elem_of_filter)%list_elem_of_fmap.
    rewrite Forall_forall in Hx. apply hours_of_elem, Hx in Hin. lia. }
  rewrite (concat_at_hours l hs Hnd). unfold between. apply reflexive_eq. f_equal.
  apply list_filter_iff_in. intros e Hin. rewrite Hhs. split; [tauto|].
  intros Hr. split; [|done]. destruct (Hl _ Hin) as (newest & Hlast & Hen).
  eapply Hk; [done..|]. apply Z.lt_le_trans with lo; [|lia]. unfold lo.
  assert (newest ∈ s_Slots s) as Hin'.
  { rewrite last_lookup in Hlast. by eapply list_elem_of_lookup_2. }
  destruct (Hf _ Hin') as (e' & He' & <-). apply Hle in He'. lia.
Qed.

End window.

(** ** Built by sampling in time *)

(** A sampling run: instants and values, oldest first. *)
Definition recorded (hours : Z) (evs : list (Time * Z)) : Series :=
  fold_left (fun s '(t, v) => SampleSeries s t v) evs (NewSeries hours).

Definition logOf (evs : list (Time * Z)) : log := rev (map (fun '(t, v) => (hourOf t, clamp v)) evs).

Lemma recorded_snoc hours evs t v : recorded hours (evs ++ [(t, v)]) = SampleSeries (recorded hours evs) t v.
Proof. unfold recorded. by rewrite fold_left_app. Qed.

Lemma logOf_snoc evs t v : logOf (evs ++ [(t, v)]) = (hourOf t, clamp v) :: logOf evs.
Proof. unfold logOf. by rewrite map_app, rev_app_distr. Qed.

Lemma recorded_log hours evs :
  StronglySorted (fun a b => hourOf a.1 <= hourOf b.1) evs ->
  series_wf (recorded hours evs) /\ series_log (recorded hours evs) (logOf evs).
Proof.
  induction evs as [|[t v] evs IH] using rev_ind; intros Hs.
  - split; [apply new_wf|apply new_log].
  - apply StronglySorted_app in Hs as (Hcross & Hs & _). destruct (IH Hs) as [Hw Hl].
    rewrite recorded_snoc, logOf_snoc. split; [by apply sample_wf|].
    apply sample_log; [done|done|]. intros e He. unfold logOf in He.
    apply list_elem_of_In, in_rev, list_elem_of_In in He.
    apply list_elem_of_fmap in He as ([t' v'] & -> & Hin). apply (Hcross (t', v') (t, v)); [done|by left].
Qed.

Lemma series_hours_sample s t v : 0 < s_Hours s -> s_Hours (SampleSeries s t v) = s_Hours s.
Proof.
  intros Hs. unfold SampleSeries, evict. destruct (Z.leb_spec (s_Hours s) 0); [lia|]. cbv zeta.
  by repeat case_match.
Qed.

Lemma recorded_hours hours evs : s_Hours (recorded hours evs) = s_Hours (NewSeries hours).
Proof.
  induction evs as [|[t v] evs IH] using rev_ind; [done|].
  rewrite recorded_snoc, series_hours_sample; [done|]. rewrite IH. apply new_wf.
Qed.

(** The values sampled in the [n] hours that end with the hour of [now]. *)
Definition lastHours (evs : list (Time * Z)) (now : Time) (n : Z) : list Z :=
  map snd (filter (fun e => hourOf now - n < hourOf e.1 <= hourOf now) evs).

Lemma between_lastHours evs now n :
  between (logOf evs) (hourOf now - n + 1) (hourOf now) = rev (map clamp (lastHours evs now n)).
Proof.
  induction evs as [|[t v] evs IH] using rev_ind; [done|].
  rewrite logOf_snoc. unfold between, lastHours in *. rewrite filter_app, filter_cons.
  rewrite (filter_cons (fun e : Z * Z => hourOf now - n < hourOf e.1 <= hourOf now)), filter_nil. cbn [fst snd].
  destruct (decide (hourOf now - n + 1 <= hourOf t <= hourOf now)),
    (decide (hourOf now - n < hourOf t <= hourOf now)); try lia.
  - rewrite !map_app, rev_app_distr, <- IH. done.
  - by rewrite app_nil_r.
Qed.

(** ** Properties *)

(** Whatever is sampled, at whatever times, and however the window is
    shrunk, the slots ascend strictly by hour, lie inside the window that ends at
    the newest, and number at most its hours: an instance up for a year stores
    what one up for a day stores. *)
Theorem series_bounded hours ops :
  let s := fold_left run_op ops (NewSeries hours) in
  0 < s_Hours s /\ StronglySorted Z.lt (map slot_Hour (s_Slots s)) /\
  (forall newest sl, last (s_Slots s) = Some newest -> sl ∈ s_Slots s ->
    slot_Hour newest - s_Hours s < slot_Hour sl <= slot_Hour newest) /\
  Z.of_nat (length (s_Slots s)) <= s_Hours s.
Proof.
  intros s. destruct (series_run_wf hours ops) as [Hwf Hlen]. fold s in Hwf, Hlen.
  split_and!; [apply Hwf|apply Hwf| |done].
  intros newest sl Hl Hin. split; [by apply (wf_window _ Hwf)|].
  by apply (last_max _ _ _ (wf_sorted _ Hwf) Hl).
Qed.

(** For samples taken in order, the window of the last [n] hours reports
    what a histogram of exactly the samples of those hours reports: the same
    count, peak, mean and quantiles, and nothing older leaks in. *)
Theorem window_is_recent_samples `{GoRange} hours evs now n :
  StronglySorted (fun a b => hourOf a.1 <= hourOf b.1) evs ->
  (forall e, e ∈ evs -> hourOf e.1 <= hourOf now) ->
  Z.of_nat (length evs) < 2 ^ 64 -> 1 <= n <= s_Hours (NewSeries hours) ->
  let h := Window (recorded hours evs) now n in
  let a := sampled (lastHours evs now n) in
  Count h = Count a /\ Peak h = Peak a /\ Mean h = Mean a /\ forall q, Quantile h q = Quantile a q.
Proof.
  intros Hs Hnow Hlen Hn h a. destruct (recorded_log hours evs Hs) as [Hw Hl].
  eapply represents_observed; [|apply sampled_represents|].
  - apply window_log; [done|exact Hl| | |by rewrite recorded_hours].
    + unfold logOf. by rewrite length_rev, length_map.
    + intros e He. unfold logOf in He. apply list_elem_of_In, in_rev, list_elem_of_In in He.
      apply list_elem_of_fmap in He as ([t v] & -> & Hin). by apply Hnow in Hin.
  - by rewrite between_lastHours.
Qed.
