(* ===== verification/Profiles.v ===== *)
(** * Usage profiles ([technocore/usage/profile.go])

    The store of per-application profiles: recording, persisting, forgetting,
    fitting a byte budget, and summarising.  A profile and its series are
    reached only through the store's map, so the Go pointers are modelled by the
    values they point at; in the persisted form, where a document may hold nulls,
    they are options. *)

From S2P Require Import Prelude GoStrings Float64 GoTime Histogram Series.

Definition SnapshotVersion : Z := 1.
Definition DefaultBudget : Z := Z.shiftl 512 10.
Definition MinSamples : Z := 120.

Record PodUsage := mkPodUsage {
  u_Pod : string;
  u_CPUMilli : Z;
  u_MemMiB : Z;
  u_RequestCPUMilli : Z;
  u_RequestMemMiB : Z
}.

Record Profile := mkProfile {
  p_CPU : Series;
  p_Mem : Series;
  p_RequestCPUMilli : Z;
  p_RequestMemMiB : Z;
  p_Pods : Z;
  p_FirstSeen : Time;
  p_LastSeen : Time
}.

Record Store := mkStore {
  st_hours : Z;
  st_profiles : gmap string Profile
}.

Definition NewStore (hours : Z) : Store :=
  mkStore (if hours <=? 0 then DefaultHours else hours) ∅.

Definition StoreHours (s : Store) : Z := st_hours s.
Definition Apps (s : Store) : Z := Z.of_nat (size (st_profiles s)).

(** One pod's reading, folded into the profile and the running request maxima. *)
Definition recordPod (at_ : Time) (acc : Profile * Z * Z) (u : PodUsage) : Profile * Z * Z :=
  let '(p, reqCPU, reqMem) := acc in
  (mkProfile (SampleSeries (p_CPU p) at_ (u_CPUMilli u)) (SampleSeries (p_Mem p) at_ (u_MemMiB u))
     (p_RequestCPUMilli p) (p_RequestMemMiB p) (p_Pods p) (p_FirstSeen p) (p_LastSeen p),
   Z.max reqCPU (u_RequestCPUMilli u), Z.max reqMem (u_RequestMemMiB u)).

(** [Store.Record] ([Record] is a keyword here). *)
Definition RecordUsage (s : Store) (at_ : Time) (app : string) (pods : list PodUsage) : Store :=
  if (if decide (app = "") then true else false) || (match pods with [] => true | _ => false end)
  then s
  else
    let p := match st_profiles s !! app with
             | Some p => p
             | None => mkProfile (NewSeries (st_hours s)) (NewSeries (st_hours s)) 0 0 0 at_ zero_time
             end in
    let '(p, reqCPU, reqMem) := fold_left (recordPod at_) pods (p, 0, 0) in
    let p := mkProfile (p_CPU p) (p_Mem p) reqCPU reqMem (Z.of_nat (length pods)) (p_FirstSeen p)
               (if After at_ (p_LastSeen p) then at_ else p_LastSeen p) in
    mkStore (st_hours s) (<[app := p]> (st_profiles s)).

(** ** The persisted form *)

Record snapProfile := mkSnapProfile {
  sp_CPU : option Series;
  sp_Mem : option Series;
  sp_RequestCPUMilli : Z;
  sp_RequestMemMiB : Z;
  sp_Pods : Z;
  sp_FirstSeen : Time;
  sp_LastSeen : Time
}.

Record Snapshot := mkSnapshot {
  sn_Version : Z;
  sn_Hours : Z;
  sn_Profiles : gmap string (option snapProfile)
}.

Definition snapOf (p : Profile) : snapProfile :=
  mkSnapProfile (Some (p_CPU p)) (Some (p_Mem p)) (p_RequestCPUMilli p) (p_RequestMemMiB p)
    (p_Pods p) (p_FirstSeen p) (p_LastSeen p).

Definition SnapshotOf (s : Store) : Snapshot :=
  mkSnapshot SnapshotVersion (st_hours s) ((fun p => Some (snapOf p)) <$> st_profiles s).

Section ranged.
Context `{GoRange}.

Definition restoreProfile (s : Store) (ap : string * option snapProfile) : Store :=
  match ap.2 with
  | None => s
  | Some p =>
      mkStore (st_hours s)
        (<[ap.1 := mkProfile (default (NewSeries (st_hours s)) (sp_CPU p))
                     (default (NewSeries (st_hours s)) (sp_Mem p))
                     (sp_RequestCPUMilli p) (sp_RequestMemMiB p) (sp_Pods p)
                     (sp_FirstSeen p) (sp_LastSeen p)]> (st_profiles s))
  end.

(** [Err v] is the refusal of version [v]. *)
Definition Restore (snap : Snapshot) : result Z Store :=
  if negb (sn_Version snap =? SnapshotVersion) then Err (sn_Version snap)
  else Ok (fold_left restoreProfile (go_range (sn_Profiles snap)) (NewStore (sn_Hours snap))).

Definition forgetStep (before : Time) (acc : list string * Store) (ap : string * Profile)
    : list string * Store :=
  if Before (p_LastSeen ap.2) before
  then (acc.1 ++ [ap.1], mkStore (st_hours acc.2) (delete ap.1 (st_profiles acc.2)))
  else acc.

Definition Forget (s : Store) (before : Time) : list string * Store :=
  let '(gone, s) := fold_left (forgetStep before) (go_range (st_profiles s)) ([], s) in
  (sort_slice string_ltb gone, s).

(** ** Fitting the budget *)

Record Trimmed := mkTrimmed { t_Hours : Z; t_Dropped : list string; t_Bytes : Z }.

Definition Shortened (t : Trimmed) (configured : Z) : bool :=
  (t_Hours t <? configured) || negb (match t_Dropped t with [] => true | _ => false end).

Definition oldestStep (acc : string * Time) (ap : string * Profile) : string * Time :=
  let '(oldest, at_) := acc in
  let '(app, p) := ap in
  if (if decide (oldest = "") then true else false) || Before (p_LastSeen p) at_
     || ((p_LastSeen p =? at_) && string_ltb app oldest)
  then (app, p_LastSeen p) else acc.

Definition dropOldest (s : Store) : string * Store :=
  let '(oldest, _) := fold_left oldestStep (go_range (st_profiles s)) ("", zero_time) in
  (oldest, mkStore (st_hours s) (delete oldest (st_profiles s))).

Definition shrinkProfile (hours : Z) (p : Profile) : Profile :=
  mkProfile (Shrink (p_CPU p) hours) (Shrink (p_Mem p) hours) (p_RequestCPUMilli p)
    (p_RequestMemMiB p) (p_Pods p) (p_FirstSeen p) (p_LastSeen p).

(** [marshal] is the length of [json.Marshal]'s output, or its error. *)
Section trim.
Context {E : Type} (marshal : Snapshot -> result E Z).

(** One pass of the loop: [inl] continues, [inr] returns. *)
Definition trimStep (budget : Z) (out : Trimmed) (s : Store)
    : (Trimmed * Store) + (result E Trimmed * Store) :=
  match marshal (SnapshotOf s) with
  | Err e => inr (Err e, s)
  | Ok bytes =>
      let out := mkTrimmed (st_hours s) (t_Dropped out) bytes in
      if (bytes <=? budget) || (Apps s =? 0) then inr (Ok out, s)
      else if 1 <? st_hours s then
        let hours := st_hours s - 1 in
        inl (out, mkStore hours (shrinkProfile hours <$> st_profiles s))
      else
        let '(app, s') := dropOldest s in
        inl (mkTrimmed (t_Hours out) (t_Dropped out ++ [app]) bytes, s')
  end.

Fixpoint trimLoop (fuel : nat) (budget : Z) (out : Trimmed) (s : Store)
    : option (result E Trimmed * Store) :=
  match fuel with
  | O => None
  | S fuel =>
      match trimStep budget out s with
      | inr r => Some r
      | inl (out, s) => trimLoop fuel budget out s
      end
  end.

(** Every pass that continues shortens the window or drops an application. *)
Definition trimFuel (s : Store) : nat := Z.to_nat (st_hours s) + size (st_profiles s) + 1.

Definition Trim (s : Store) (budget : Z) : option (result E Trimmed * Store) :=
  let budget := if budget <=? 0 then DefaultBudget else budget in
  trimLoop (trimFuel s) budget (mkTrimmed (st_hours s) [] 0) s.

End trim.

(** ** Summaries *)

Record Stat := mkStat {
  sta_Samples : Z;
  sta_Mean : float64;
  sta_P50 : Z;
  sta_P95 : Z;
  sta_Peak : Z
}.

Definition Thin (st : Stat) : bool := sta_Samples st <? MinSamples.

Definition statOf (h : Histogram) : Stat :=
  mkStat (Count h) (Mean h) (Quantile h (flit 50 100)) (Quantile h (flit 95 100)) (Peak h).

Record Windows := mkWindows { w_Hour : Stat; w_Day : Stat }.

Record Summary := mkSummary {
  su_App : string;
  su_Pods : Z;
  su_LastSeen : Time;
  su_Hours : Z;
  su_RequestCPUMilli : Z;
  su_RequestMemMiB : Z;
  su_CPU : Windows;
  su_Mem : Windows
}.

Definition headroom (request : Z) (st : Stat) : option float64 :=
  if (request <=? 0) || Thin st || (sta_P95 st <=? 0) then None
  else Some (fdiv (of_int request) (of_int (sta_P95 st))).

Definition CPUHeadroom (s : Summary) : option float64 := headroom (su_RequestCPUMilli s) (w_Day (su_CPU s)).
Definition MemHeadroom (s : Summary) : option float64 := headroom (su_RequestMemMiB s) (w_Day (su_Mem s)).

Definition summaryOf (s : Store) (now : Time) (ap : string * Profile) : Summary :=
  let '(app, p) := ap in
  mkSummary app (p_Pods p) (p_LastSeen p) (st_hours s) (p_RequestCPUMilli p) (p_RequestMemMiB p)
    (mkWindows (statOf (Window (p_CPU p) now 1)) (statOf (Window (p_CPU p) now (st_hours s))))
    (mkWindows (statOf (Window (p_Mem p) now 1)) (statOf (Window (p_Mem p) now (st_hours s)))).

Definition Summarize (s : Store) (now : Time) : list Summary :=
  sort_slice (fun a b => string_ltb (su_App a) (su_App b))
    (map (summaryOf s now) (go_range (st_profiles s))).

End ranged.

(** ** Persisting and reading back *)

Section persist.
Context `{GoRange}.

Lemma restore_snapshot_of s : 0 < st_hours s -> Restore (SnapshotOf s) = Ok s.
Proof.
  intros Hh. unfold Restore, SnapshotOf. cbn [sn_Version sn_Hours sn_Profiles].
  rewrite Z.eqb_refl. cbn [negb]. f_equal.
  destruct (go_range_fmap (fun p => Some (snapOf p)) (st_profiles s)) as (l & -> & Hl).
  assert (forall s0, fold_left restoreProfile (map (prod_map id (fun p => Some (snapOf p))) l) s0
    = mkStore (st_hours s0) (fill id l (st_profiles s0))) as ->.
  { clear Hl. induction l as [|[k p] l IH]; intros s0; cbn [map fold_left]; [by destruct s0|].
    rewrite IH. cbn. by destruct p. }
  unfold NewStore. destruct (Z.leb_spec (st_hours s) 0); [lia|]. cbn [st_hours st_profiles].
  rewrite (fill_id_perm (st_profiles s)) by done. by destruct s.
Qed.

Lemma restore_refuses_version snap :
  sn_Version snap <> SnapshotVersion -> Restore snap = Err (sn_Version snap).
Proof. intros Hv. unfold Restore. by destruct (Z.eqb_spec (sn_Version snap) SnapshotVersion). Qed.

End persist.

(** ** Forgetting *)

(** [Forget] deletes exactly what was last seen before the cut. *)
Lemma forget_fold before (l : list (string * Profile)) : forall gone s,
  NoDup l.*1 -> (forall k p, (k, p) ∈ l -> st_profiles s !! k = Some p) ->
  let r := fold_left (forgetStep before) l (gone, s) in
  r.1 = gone ++ (filter (fun ap => p_LastSeen ap.2 < before) l).*1 /\ st_hours r.2 = st_hours s /\
  forall k, st_profiles r.2 !! k =
    if decide (k ∈ (filter (fun ap => p_LastSeen ap.2 < before) l).*1) then None else st_profiles s !! k.
Proof.
  induction l as [|[k p] l IH]; intros gone s Hnd Hl; cbn [fold_left].
  { cbn. rewrite app_nil_r. split_and!; done. }
  apply NoDup_cons in Hnd as [Hk Hnd]. rewrite filter_cons. cbn [snd].
  assert (forall k' p', (k', p') ∈ l -> k <> k') as Hne.
  { intros k' p' Hin ->. apply Hk. by apply (list_elem_of_fmap_2 fst) in Hin. }
  unfold forgetStep at 2 4 6. cbn [fst snd]. unfold Before. destruct (Z.ltb_spec (p_LastSeen p) before) as [Hlt|Hge].
  - rewrite decide_True by done. cbn [fmap list_fmap map fst].
    destruct (IH (gone ++ [k]) (mkStore (st_hours s) (delete k (st_profiles s))) Hnd) as (H1 & H2 & H3).
    { intros k' p' Hin. cbn. rewrite lookup_delete_ne by (by eapply Hne). apply Hl. by right. }
    split_and!; [rewrite H1, <- app_assoc; done|done|].
    intros k'. rewrite H3. cbn [st_profiles]. destruct (decide (k' = k)) as [->|Hk'].
    + rewrite (decide_True (P := k ∈ k :: _)) by by left. rewrite lookup_delete_eq. by case_decide.
    + rewrite lookup_delete_ne by done. repeat case_decide; set_solver.
  - rewrite decide_False by lia. apply IH; [done|]. intros k' p' Hin. apply Hl. by right.
Qed.

Lemma forget_spec `{GoRange} s before :
  let '(gone, s') := Forget s before in
  st_hours s' = st_hours s /\ StronglySorted string_le gone /\
  (forall app, app ∈ gone <-> exists p, st_profiles s !! app = Some p /\ p_LastSeen p < before) /\
  forall app, st_profiles s' !! app = if decide (app ∈ gone) then None else st_profiles s !! app.
Proof.
  unfold Forget.
  destruct (forget_fold before (go_range (st_profiles s)) [] s (NoDup_go_range _)) as (H1 & H2 & H3).
  { intros k p. by rewrite elem_of_go_range. }
  destruct (fold_left _ _ _) as [gone s']. cbn [fst snd] in *. rewrite app_nil_l in H1. subst gone.
  change (sort_slice string_ltb) with sort_strings.
  split_and!; [done|apply sort_strings_sorted| |].
  - intros app. rewrite sort_strings_perm, list_elem_of_fmap. split.
    + intros ([k p] & -> & Hin). apply list_elem_of_filter in Hin as [Hlt Hin].
      exists p. by rewrite elem_of_go_range in Hin.
    + intros (p & Hp & Hlt). exists (app, p). split; [done|]. apply list_elem_of_filter.
      split; [done|]. by apply elem_of_go_range.
  - intros app. rewrite H3.
    pose proof (sort_strings_perm (filter (fun ap : string * Profile => p_LastSeen ap.2 < before)
      (go_range (st_profiles s))).*1) as Hp.
    repeat case_decide; try done; exfalso; [rewrite Hp in *|rewrite Hp in *]; done.
Qed.

(** ** Recording *)

Lemma recordPod_fold at_ pods p rc rm l lm :
  series_wf (p_CPU p) -> series_log (p_CPU p) l -> (forall e, e ∈ l -> e.1 <= hourOf at_) ->
  series_wf (p_Mem p) -> series_log (p_Mem p) lm -> (forall e, e ∈ lm -> e.1 <= hourOf at_) ->
  exists p', fold_left (recordPod at_) pods (p, rc, rm) =
      (p', fold_left Z.max (map u_RequestCPUMilli pods) rc,
           fold_left Z.max (map u_RequestMemMiB pods) rm) /\
    p_FirstSeen p' = p_FirstSeen p /\ p_LastSeen p' = p_LastSeen p /\
    series_wf (p_CPU p') /\
    series_log (p_CPU p') (rev (map (fun u => (hourOf at_, clamp (u_CPUMilli u))) pods) ++ l) /\
    series_wf (p_Mem p') /\
    series_log (p_Mem p') (rev (map (fun u => (hourOf at_, clamp (u_MemMiB u))) pods) ++ lm).
Proof.
  revert p rc rm l lm. induction pods as [|u pods IH]; intros p rc rm l lm Hw Hl Hle Hwm Hlm Hlem.
  { exists p. by split_and!. }
  cbn [fold_left map recordPod rev].
  edestruct (IH (mkProfile (SampleSeries (p_CPU p) at_ (u_CPUMilli u))
                   (SampleSeries (p_Mem p) at_ (u_MemMiB u)) (p_RequestCPUMilli p)
                   (p_RequestMemMiB p) (p_Pods p) (p_FirstSeen p) (p_LastSeen p))
              (Z.max rc (u_RequestCPUMilli u)) (Z.max rm (u_RequestMemMiB u))
              ((hourOf at_, clamp (u_CPUMilli u)) :: l) ((hourOf at_, clamp (u_MemMiB u)) :: lm))
    as (p' & -> & H1 & H2 & H3 & H4 & H5 & H6); cbn [p_CPU p_Mem].
  - by apply sample_wf.
  - by apply sample_log.
  - intros e [->|?]%elem_of_cons; [done|by apply Hle].
  - by apply sample_wf.
  - by apply sample_log.
  - intros e [->|?]%elem_of_cons; [done|by apply Hlem].
  - exists p'. rewrite <- !app_assoc. by split_and!.
Qed.

(** The profile a recording starts from. *)
Definition profile_for (s : Store) (at_ : Time) (app : string) : Profile :=
  match st_profiles s !! app with
  | Some p => p
  | None => mkProfile (NewSeries (st_hours s)) (NewSeries (st_hours s)) 0 0 0 at_ zero_time
  end.

Lemma record_usage s at_ app u pods l lm :
  let ps := u :: pods in let p := profile_for s at_ app in
  app ≠ "" ->
  series_wf (p_CPU p) -> series_log (p_CPU p) l -> (forall e, e ∈ l -> e.1 <= hourOf at_) ->
  series_wf (p_Mem p) -> series_log (p_Mem p) lm -> (forall e, e ∈ lm -> e.1 <= hourOf at_) ->
  exists p', RecordUsage s at_ app ps = mkStore (st_hours s) (<[app := p']> (st_profiles s)) /\
    series_wf (p_CPU p') /\
    series_log (p_CPU p') (rev (map (fun u => (hourOf at_, clamp (u_CPUMilli u))) ps) ++ l) /\
    series_wf (p_Mem p') /\
    series_log (p_Mem p') (rev (map (fun u => (hourOf at_, clamp (u_MemMiB u))) ps) ++ lm) /\
    p_RequestCPUMilli p' = fold_left Z.max (map u_RequestCPUMilli ps) 0 /\
    p_RequestMemMiB p' = fold_left Z.max (map u_RequestMemMiB ps) 0 /\
    p_Pods p' = Z.of_nat (length ps) /\
    p_LastSeen p' = Z.max (p_LastSeen p) at_ /\ p_FirstSeen p' = p_FirstSeen p.
Proof.
  intros ps p Happ Hw Hl Hle Hwm Hlm Hlem. unfold RecordUsage.
  rewrite decide_False by done. cbn [orb]. fold (profile_for s at_ app). fold p. fold ps.
  destruct (recordPod_fold at_ ps p 0 0 l lm) as (p' & -> & H1 & H2 & H3 & H4 & H5 & H6); [done..|].
  eexists. split; [reflexivity|]. cbn [p_CPU p_Mem p_RequestCPUMilli p_RequestMemMiB p_Pods
    p_LastSeen p_FirstSeen]. split_and!; try done.
  rewrite H2. unfold After. destruct (Z.ltb_spec (p_LastSeen p) at_); lia.
Qed.

(** ** Trimming *)

Section trim_facts.
Context `{GoRange}.

(** What the scan has found after a non-empty prefix: a listed application, the
    least recently seen so far. *)
Definition oldest_of (l : list (string * Profile)) (acc : string * Time) : Prop :=
  exists p, (acc.1, p) ∈ l /\ acc.2 = p_LastSeen p /\
    forall k' p', (k', p') ∈ l -> acc.2 <= p_LastSeen p'.

Lemma oldestStep_keep l acc k p :
  k ≠ "" -> acc.1 ≠ "" -> oldest_of l acc -> oldest_of (l ++ [(k, p)]) (oldestStep acc (k, p)).
Proof.
  intros Hk Hacc (q & Hq & Ht & Hmin). destruct acc as [o t]. cbn in *. subst t.
  unfold oldestStep, Before. rewrite decide_False by done. cbn [orb].
  set (c := (p_LastSeen p <? p_LastSeen q) || ((p_LastSeen p =? p_LastSeen q) && string_ltb k o)).
  destruct c eqn:E; unfold c in E.
  - exists p. cbn. split; [set_solver|split; [done|]].
    intros k' p' [Hin|Hin%list_elem_of_singleton]%elem_of_app; [apply Hmin in Hin; lia|].
    injection Hin as -> ->. lia.
  - exists q. cbn. split; [set_solver|split; [done|]].
    intros k' p' [Hin|Hin%list_elem_of_singleton]%elem_of_app; [by eapply Hmin|].
    injection Hin as -> ->. lia.
Qed.

Lemma oldest_scan l1 l2 acc :
  (forall k p, (k, p) ∈ l1 ++ l2 -> k ≠ "") -> acc.1 ≠ "" -> oldest_of l1 acc ->
  oldest_of (l1 ++ l2) (fold_left oldestStep l2 acc).
Proof.
  revert l1 acc. induction l2 as [|[k p] l2 IH]; intros l1 acc Hne Hacc Ho.
  { by rewrite app_nil_r. }
  assert (k ≠ "") as Hk by (apply (Hne k p); set_solver).
  cbn [fold_left]. replace (l1 ++ (k, p) :: l2) with ((l1 ++ [(k, p)]) ++ l2)
    by by rewrite <- app_assoc.
  apply IH; [by rewrite <- app_assoc| |by apply oldestStep_keep].
  destruct acc as [o t]. unfold oldestStep. case_match; [done|exact Hacc].
Qed.

(** [dropOldest] removes the least recently seen application. *)
Lemma dropOldest_spec s :
  st_profiles s <> ∅ -> st_profiles s !! "" = None ->
  exists app p, st_profiles s !! app = Some p /\
    dropOldest s = (app, mkStore (st_hours s) (delete app (st_profiles s))) /\
    forall app' p', st_profiles s !! app' = Some p' -> p_LastSeen p <= p_LastSeen p'.
Proof.
  intros Hne H0. unfold dropOldest.
  assert (forall k p, (k, p) ∈ go_range (st_profiles s) -> k ≠ "") as Hk.
  { intros k p Hin%elem_of_go_range ->. naive_solver. }
  destruct (go_range (st_profiles s)) as [|[k p] l] eqn:El.
  { destruct Hne. apply map_eq. intros k. rewrite lookup_empty.
    destruct (st_profiles s !! k) eqn:E; [|done].
    apply elem_of_go_range in E. rewrite El in E. by apply not_elem_of_nil in E. }
  assert (k ≠ "") as Hk0 by (apply (Hk k p); by left).
  cbn [fold_left]. assert (oldestStep ("", zero_time) (k, p) = (k, p_LastSeen p)) as -> by done.
  pose proof (oldest_scan [(k, p)] l (k, p_LastSeen p)) as Hs. cbn [app] in Hs.
  destruct Hs as (q & Hq & Ht & Hmin); [done|done| |].
  { exists p. split; [by left|]. split; [done|]. cbn. intros k' p' Hin%list_elem_of_singleton.
    injection Hin as -> ->. lia. }
  destruct (fold_left oldestStep l (k, p_LastSeen p)) as [o t]. cbn in *. subst t.
  rewrite <- El in Hq. apply elem_of_go_range in Hq.
  exists o, q. split_and!; [done|done|].
  intros app' p' Hin%elem_of_go_range. rewrite El in Hin. by eapply Hmin.
Qed.

Context {E : Type} (marshal : Snapshot -> result E Z).

Definition effective (budget : Z) : Z := if budget <=? 0 then DefaultBudget else budget.

(** The facts the loop carries, from the store [s0] it started on. *)
Record trim_inv (s0 : Store) (dropped : list string) (s : Store) : Prop := {
  ti_hours : 1 <= st_hours s <= st_hours s0;
  ti_last : dropped <> [] -> st_hours s = 1;
  ti_dom : forall app, is_Some (st_profiles s0 !! app) <->
    app ∈ dropped \/ is_Some (st_profiles s !! app);
  ti_disjoint : forall app, app ∈ dropped -> st_profiles s !! app = None;
  ti_seen : forall app p, st_profiles s !! app = Some p ->
    p_LastSeen <$> st_profiles s0 !! app = Some (p_LastSeen p);
  ti_lru : forall a b p q, a ∈ dropped -> st_profiles s0 !! a = Some p ->
    st_profiles s !! b = Some q -> p_LastSeen p <= p_LastSeen q
}.

Lemma trimStep_inr budget out s r s' :
  trimStep marshal budget out s = inr (r, s') ->
  s' = s /\ match r with
  | Err e => marshal (SnapshotOf s) = Err e
  | Ok t => t_Hours t = st_hours s /\ t_Dropped t = t_Dropped out /\
      marshal (SnapshotOf s) = Ok (t_Bytes t) /\ (t_Bytes t <= budget \/ st_profiles s = ∅)
  end.
Proof.
  unfold trimStep. destruct (marshal (SnapshotOf s)) as [b|e] eqn:Em; [|by intros [= <- <-]].
  destruct ((b <=? budget) || (Apps s =? 0)) eqn:Ec.
  - intros [= <- <-]. split; [done|]. cbn. split_and!; [done|done|done|].
    apply orb_true_iff in Ec as [Ec|Ec]; [left; lia|right].
    unfold Apps in Ec. apply map_size_empty_iff. lia.
  - destruct (1 <? st_hours s); [done|]. by destruct (dropOldest s).
Qed.

Lemma trimStep_inl s0 budget out s out' s' :
  st_profiles s0 !! "" = None -> trim_inv s0 (t_Dropped out) s ->
  trimStep marshal budget out s = inl (out', s') ->
  trim_inv s0 (t_Dropped out') s' /\
  (Z.to_nat (st_hours s') + size (st_profiles s') < Z.to_nat (st_hours s) + size (st_profiles s))%nat.
Proof.
  intros H0 [Hh Hl Hd Hx Hs Hu]. unfold trimStep.
  destruct (marshal (SnapshotOf s)) as [b|e]; [|done].
  destruct ((b <=? budget) || (Apps s =? 0)) eqn:Ec; [done|].
  apply orb_false_iff in Ec as [_ Ha]. unfold Apps in Ha.
  destruct (Z.ltb_spec 1 (st_hours s)) as [Hgt|Hle].
  - intros [= <- <-]. cbn [t_Dropped st_hours st_profiles]. split; [|rewrite map_size_fmap; lia].
    split; cbn [st_hours st_profiles]; [lia| | | | |].
    + intros Hne. apply Hl in Hne. lia.
    + intros app. by rewrite lookup_fmap, fmap_is_Some.
    + intros app Hin. by rewrite lookup_fmap, Hx.
    + intros app p. rewrite lookup_fmap. intros (q & Hq & ->)%fmap_Some. by apply Hs in Hq.
    + intros a c p q Hin Hp. rewrite lookup_fmap. intros (q' & Hq & ->)%fmap_Some.
      exact (Hu a c p q' Hin Hp Hq).
  - destruct (dropOldest_spec s) as (app & p & Hp & -> & Hmin).
    { intros E0. rewrite E0, map_size_empty in Ha. done. }
    { destruct (st_profiles s !! "") eqn:E0; [|done].
      apply Hs in E0. by rewrite H0 in E0. }
    intros [= <- <-]. cbn [t_Dropped st_hours st_profiles]. split.
    2: { rewrite map_size_delete_Some by eauto.
         assert (size (st_profiles s) <> 0)%nat by lia. lia. }
    split; cbn [st_hours st_profiles]; [lia|lia| | | |].
    + intros a. rewrite Hd, elem_of_app, list_elem_of_singleton, lookup_delete_is_Some.
      destruct (decide (a = app)) as [->|Hne]; [|intuition congruence].
      split; intros _; [left; by right|right; eauto].
    + intros a [Hin| ->%list_elem_of_singleton]%elem_of_app; [|apply lookup_delete_eq].
      rewrite lookup_delete_None. right. by apply Hx.
    + intros a q [_ Hq]%lookup_delete_Some. by apply Hs.
    + intros a c p' q [Hin| ->%list_elem_of_singleton]%elem_of_app Hp' [_ Hq]%lookup_delete_Some.
      * by eapply Hu.
      * apply Hs in Hp. rewrite Hp' in Hp. injection Hp as ->. by eapply Hmin.
Qed.

Lemma trimLoop_spec s0 budget fuel : forall out s,
  st_profiles s0 !! "" = None -> trim_inv s0 (t_Dropped out) s ->
  (Z.to_nat (st_hours s) + size (st_profiles s) < fuel)%nat ->
  exists r s', trimLoop marshal fuel budget out s = Some (r, s') /\
  match r with
  | Err e => exists s1, marshal (SnapshotOf s1) = Err e
  | Ok t => t_Hours t = st_hours s' /\ marshal (SnapshotOf s') = Ok (t_Bytes t) /\
      (t_Bytes t <= budget \/ st_profiles s' = ∅) /\ trim_inv s0 (t_Dropped t) s'
  end.
Proof.
  induction fuel as [|fuel IH]; intros out s H0 Hinv Hf; [lia|]. cbn [trimLoop].
  destruct (trimStep marshal budget out s) as [[out' s']|[r s']] eqn:Es.
  - destruct (trimStep_inl _ _ _ _ _ _ H0 Hinv Es) as [Hinv' Hm]. apply IH; [done|done|lia].
  - exists r, s'. split; [done|]. apply trimStep_inr in Es as [-> Hr].
    destruct r as [t|e]; [|eauto]. destruct Hr as (? & Hd & ? & ?). by rewrite Hd.
Qed.

Lemma trim_terminates s budget :
  0 < st_hours s -> st_profiles s !! "" = None ->
  exists r s', Trim marshal s budget = Some (r, s') /\
  match r with
  | Err e => exists s1, marshal (SnapshotOf s1) = Err e
  | Ok t => t_Hours t = st_hours s' /\ marshal (SnapshotOf s') = Ok (t_Bytes t) /\
      (t_Bytes t <= effective budget \/ st_profiles s' = ∅) /\ trim_inv s (t_Dropped t) s'
  end.
Proof.
  intros Hh H0. unfold Trim. fold (effective budget).
  apply trimLoop_spec; [done| |unfold trimFuel; lia].
  split; cbn [t_Dropped].
  - lia.
  - done.
  - intros app. split; [by right|]. by intros [Hin%not_elem_of_nil|?].
  - by intros app Hin%not_elem_of_nil.
  - intros app p Hp. by rewrite Hp.
  - by intros a b p q Hin%not_elem_of_nil.
Qed.

End trim_facts.

(** ** Properties *)

(** A persisted store reads back as itself, and a document of any other
    version is refused with that version rather than read. *)
Theorem store_roundtrip `{GoRange} s :
  0 < st_hours s ->
  Restore (SnapshotOf s) = Ok s /\
  forall snap, sn_Version snap <> SnapshotVersion -> Restore snap = Err (sn_Version snap).
Proof. intros Hh. split; [by apply restore_snapshot_of|apply restore_refuses_version]. Qed.

(** Recording a tick's readings of an application leaves every other
    application alone, counts its pods, keeps the largest request of any of them,
    samples each reading once, and never moves the time it was last seen back; no
    readings, or no application, records nothing. *)
Theorem recording s at_ app pods :
  let s' := RecordUsage s at_ app pods in
  if decide (app = "" \/ pods = []) then s' = s
  else
    (forall other, other <> app -> st_profiles s' !! other = st_profiles s !! other) /\
    exists p', st_profiles s' !! app = Some p' /\ st_hours s' = st_hours s /\
      p_Pods p' = Z.of_nat (length pods) /\
      p_RequestCPUMilli p' = fold_left Z.max (map u_RequestCPUMilli pods) 0 /\
      p_RequestMemMiB p' = fold_left Z.max (map u_RequestMemMiB pods) 0 /\
      p_CPU p' = fold_left (fun sr u => SampleSeries sr at_ (u_CPUMilli u)) pods (p_CPU (profile_for s at_ app)) /\
      p_Mem p' = fold_left (fun sr u => SampleSeries sr at_ (u_MemMiB u)) pods (p_Mem (profile_for s at_ app)) /\
      p_LastSeen p' = Z.max (p_LastSeen (profile_for s at_ app)) at_.
Proof.
  intros s'. case_decide as Hd.
  { unfold s', RecordUsage. destruct Hd as [->| ->]; [done|]. by rewrite orb_true_r. }
  assert (app <> "" /\ pods <> []) as [Happ Hpods] by tauto.
  assert (forall l p rc rm, exists p', fold_left (recordPod at_) l (p, rc, rm) =
      (p', fold_left Z.max (map u_RequestCPUMilli l) rc, fold_left Z.max (map u_RequestMemMiB l) rm) /\
      p_CPU p' = fold_left (fun sr u => SampleSeries sr at_ (u_CPUMilli u)) l (p_CPU p) /\
      p_Mem p' = fold_left (fun sr u => SampleSeries sr at_ (u_MemMiB u)) l (p_Mem p) /\
      p_LastSeen p' = p_LastSeen p /\ p_FirstSeen p' = p_FirstSeen p) as Hfold.
  { induction l as [|u l IH]; intros p rc rm; [by exists p|]. cbn [fold_left map recordPod].
    edestruct IH as (p' & -> & H1 & H2 & H3 & H4). exists p'. by split_and!. }
  unfold s', RecordUsage. rewrite decide_False by done. destruct pods as [|u pods]; [done|]. cbn [orb].
  fold (profile_for s at_ app).
  destruct (Hfold (u :: pods) (profile_for s at_ app) 0 0) as (p' & -> & H1 & H2 & H3 & _). cbn [st_profiles st_hours].
  split; [intros other Ho; by rewrite lookup_insert_ne|].
  eexists. split; [by rewrite lookup_insert_eq|]. cbn [p_Pods p_RequestCPUMilli p_RequestMemMiB p_CPU p_Mem p_LastSeen].
  split_and!; try done. rewrite H3. unfold After. destruct (Z.ltb_spec (p_LastSeen (profile_for s at_ app)) at_); lia.
Qed.
