(* ===== verification/Pricing.v ===== *)
(** * The rate card ([technocore/pricing/pricing.go])

    What Autopilot charges for a pod's requests, floors applied. *)

From S2P Require Import Prelude Float64.

Definition VCPUHourUSD : float64 := flit 445 10000.
Definition GiBHourUSD : float64 := flit 49 10000.
Definition HoursPerMonth : Z := 730.

Definition BurstingMinCPUMilli : Z := 50.
Definition BurstingMinMemMiB : Z := 52.
Definition NoBurstingMinCPUMilli : Z := 250.
Definition NoBurstingMinMemMiB : Z := 512.

Definition podMonthlyUSD (cpuMilli memMiB minCPUMilli minMemMiB : Z) : float64 :=
  let cpuMilli := if cpuMilli <? minCPUMilli then minCPUMilli else cpuMilli in
  let memMiB := if memMiB <? minMemMiB then minMemMiB else memMiB in
  if (cpuMilli <? 0) || (memMiB <? 0) then fzero
  else
    let vcpu := fdiv (of_int cpuMilli) (of_int 1000) in
    let gib := fdiv (of_int memMiB) (of_int 1024) in
    fmul (fadd (fmul vcpu VCPUHourUSD) (fmul gib GiBHourUSD)) (of_int HoursPerMonth).

Definition PodMonthlyUSD (cpuMilli memMiB : Z) : float64 :=
  podMonthlyUSD cpuMilli memMiB BurstingMinCPUMilli BurstingMinMemMiB.

Definition PodMonthlyUSDNoBursting (cpuMilli memMiB : Z) : float64 :=
  podMonthlyUSD cpuMilli memMiB NoBurstingMinCPUMilli NoBurstingMinMemMiB.

Definition PodHourlyUSD (cpuMilli memMiB : Z) : float64 :=
  fdiv (PodMonthlyUSD cpuMilli memMiB) (of_int HoursPerMonth).

Definition WorkloadMonthlyUSD (replicas cpuMilli memMiB : Z) : float64 :=
  if replicas <=? 0 then fzero else fmul (of_int replicas) (PodMonthlyUSD cpuMilli memMiB).

Definition MarginalReplicaMonthlyUSD (cpuMilli memMiB : Z) : float64 :=
  PodMonthlyUSD cpuMilli memMiB.

(** Only the floored request is priced. *)
Lemma PodMonthlyUSD_floor cpu mem :
  PodMonthlyUSD cpu mem =
  PodMonthlyUSD (Z.max cpu BurstingMinCPUMilli) (Z.max mem BurstingMinMemMiB).
Proof.
  unfold PodMonthlyUSD, podMonthlyUSD, BurstingMinCPUMilli, BurstingMinMemMiB.
  destruct (Z.ltb_spec cpu 50), (Z.ltb_spec mem 52);
    destruct (Z.ltb_spec (Z.max cpu 50) 50), (Z.ltb_spec (Z.max mem 52) 52); try lia;
    repeat first [rewrite (Z.max_l cpu) by lia | rewrite (Z.max_r cpu) by lia
                 | rewrite (Z.max_l mem) by lia | rewrite (Z.max_r mem) by lia]; done.
Qed.
