(* ===== verification/Tier.v ===== *)
(** * Workload tiers ([technocore/tier/tier.go])

    A [Tier] is the label's string, as in the source. *)

From S2P Require Import Prelude.

Definition Label : string := "farcast.sofmon.com/tier".

Abbreviation Tier := string (only parsing).

Definition Kernel : Tier := "kernel".
Definition System : Tier := "system".
Definition App : Tier := "app".
Definition Unknown : Tier := "".

Definition Of (labels : gmap string string) : Tier :=
  let t := labels.[Label] in
  if decide (t = Kernel \/ t = System \/ t = App) then t else Unknown.

Definition Stoppable (t : Tier) : bool := bool_decide (t = App).

Definition Rank (t : Tier) : Z :=
  if decide (t = App) then 0
  else if decide (t = Unknown) then 1
  else if decide (t = System) then 2
  else if decide (t = Kernel) then 3
  else 1.

Definition Valid (t : Tier) : bool := bool_decide (t = Kernel \/ t = System \/ t = App).

Lemma Stoppable_App t : Stoppable t = true <-> t = App.
Proof. unfold Stoppable. apply bool_decide_eq_true. Qed.

(** Only a workload whose label says [app] can be stopped: a missing or unknown
    label never classifies as stoppable. *)
Lemma Of_Stoppable labels : Stoppable (Of labels) = true <-> labels !! Label = Some App.
Proof.
  rewrite Stoppable_App. unfold Of. case_decide as Hd; split.
  - intros E. destruct (labels !! Label) as [t|]; cbn in *; [by subst|]. by destruct Hd as [|[]].
  - by intros ->.
  - done.
  - intros E. rewrite E in Hd. cbn in Hd. tauto.
Qed.

(** ** Properties *)

(** Only a workload whose label is exactly [app] is ever stoppable: a
    missing, misspelt or unknown label, like the kernel's and the system's, is
    protected, and an application is the first of the shutdown order. *)
Theorem only_labelled_apps_stop labels :
  (Stoppable (Of labels) = true <-> labels !! Label = Some App) /\
  (forall t, Valid t = true -> Stoppable t = false -> Rank App < Rank t) /\
  (Stoppable (Of labels) = false -> Of labels = Unknown \/ Of labels = System \/ Of labels = Kernel).
Proof.
  split; [apply Of_Stoppable|]. split.
  - intros t Ht Hs. unfold Valid in Ht. apply bool_decide_eq_true in Ht as [->|[->| ->]]; [done|done|].
    by vm_compute in Hs.
  - intros Hs. unfold Of in *. case_decide as Hd; [|by left]. destruct Hd as [E|[E|E]]; rewrite E in *; auto.
    by vm_compute in Hs.
Qed.
