(* ===== verification/Quantity.v ===== *)
(** * Kubernetes quantities ([technocore/kube/quantity.go])

    Text to base units to the integers the meter prices, rounded up. *)

From Stdlib Require Import SpecFloat.
From S2P Require Import Prelude Float64 Rounding GoStrings ParseFloat.

(** The last [n] bytes of a string and the rest. *)
Definition splitEnd (n : nat) (s : string) : string * string :=
  let k := (String.length s - n)%nat in (String.substring 0 k s, String.substring k n s).

Definition binarySuffix (s : string) : option float64 :=
  match s with
  | "Ki" => Some (of_int (2 ^ 10)) | "Mi" => Some (of_int (2 ^ 20)) | "Gi" => Some (of_int (2 ^ 30))
  | "Ti" => Some (of_int (2 ^ 40)) | "Pi" => Some (of_int (2 ^ 50)) | "Ei" => Some (of_int (2 ^ 60))
  | _ => None
  end.

Definition decimalSuffix (s : string) : option float64 :=
  match s with
  | "n" => Some (flit 1 1000000000) | "u" => Some (flit 1 1000000) | "m" => Some (flit 1 1000)
  | "k" => Some (of_int (10 ^ 3)) | "M" => Some (of_int (10 ^ 6)) | "G" => Some (of_int (10 ^ 9))
  | "T" => Some (of_int (10 ^ 12)) | "P" => Some (of_int (10 ^ 15)) | "E" => Some (of_int (10 ^ 18))
  | _ => None
  end.

Inductive quantity_error :=
| EmptyQuantity
| Unrecognised (s : string)
| NotFinite (s : string)
| Negative (s : string)
| ImplausiblyLarge.

#[export] Instance quantity_error_eq_dec : EqDecision quantity_error.
Proof. solve_decision. Defined.

Definition finite (v : float64) (orig : string) : result quantity_error float64 :=
  if is_nan v || is_inf v then Err (NotFinite orig)
  else if fltb v fzero then Err (Negative orig)
  else Ok v.

Definition scale (num : string) (mult : float64) (orig : string) : result quantity_error float64 :=
  match ParseFloat num with
  | None => Err (Unrecognised orig)
  | Some v => finite (fmul v mult) orig
  end.

Definition ParseQuantity (s : string) : result quantity_error float64 :=
  let s := TrimSpace s in
  if decide (s = "") then Err EmptyQuantity
  else
    let plain :=
      match ParseFloat s with
      | Some v => finite v s
      | None =>
          match decimalSuffix (splitEnd 1 s).2 with
          | Some mult => scale (splitEnd 1 s).1 mult s
          | None => Err (Unrecognised s)
          end
      end in
    if 2 <? len s then
      match binarySuffix (splitEnd 2 s).2 with
      | Some mult => scale (splitEnd 2 s).1 mult s
      | None => plain
      end
    else plain.

Definition MaxInt32 : Z := 2 ^ 31 - 1.

Definition ceilInt (v : float64) : result quantity_error Z :=
  let c := fceil v in
  if fltb (of_int MaxInt32) c then Err ImplausiblyLarge else Ok (int_of c).

Definition ParseCPUMilli (s : string) : result quantity_error Z :=
  cores ← ParseQuantity s; ceilInt (fmul cores (of_int 1000)).

Definition ParseMemMiB (s : string) : result quantity_error Z :=
  b ← ParseQuantity s; ceilInt (fdiv b (of_int (2 ^ 20))).

Example ParseQuantity_cases :
  (map ParseCPUMilli ["100m"; "0.0001"; "2"; " 1.5 "; "1e3"; "100M"; "-1"; "1Ki"; ""; "1x"; "1e400"],
   map ParseMemMiB ["64Mi"; "1Gi"; "1"; "128M"; "1Ei"])
  = ([Ok 100; Ok 1; Ok 2000; Ok 1500; Ok 1000000; Err ImplausiblyLarge; Err (Negative "-1");
      Ok 1024000; Err EmptyQuantity; Err (Unrecognised "1x"); Err (Unrecognised "1e400")],
     [Ok 64; Ok 1024; Ok 1; Ok 123; Err ImplausiblyLarge]).
Proof. vm_compute. reflexivity. Qed.

(** ** Rounding up *)

(** A value not above the bound once rounded up is far below 2^53. *)
Lemma below_power m e :
  canonical m e -> fltb (of_int MaxInt32) (fceil (S754_finite false m e)) = false ->
  scaled (Zpos m) e <= scaled (2 ^ 53) 0.
Proof.
  intros Hc Hf. assert (canonical m e) as (He & Hm & _) by done.
  destruct (Z.lt_ge_cases e 0) as [Hn|Hp].
  - replace 0 with (e + (- e)) by lia. rewrite scaled_shift by lia. apply scaled_le.
    assert (1 <= 2 ^ (- e)) by (change 1 with (2 ^ 0); apply Z.pow_le_mono_r; lia). nia.
  - cbn [fceil] in Hf. destruct (Z.leb_spec 0 e); [|lia].
    destruct (of_int_exact MaxInt32 ltac:(done)) as (mM & eM & EM & CM & SM). rewrite EM in Hf.
    rewrite fltb_negb in Hf by done. apply negb_false_iff, fleb_fle, finite_fle in Hf; [|done|done].
    rewrite SM in Hf. etrans; [exact Hf|]. by apply scaled_le.
Qed.

(** [ceilInt] is the least integer not below the value, or an error. *)
Lemma ceilInt_up v z : valid v -> fnonneg v -> ceilInt v = Ok z ->
  0 <= z <= MaxInt32 /\ fle v (of_int z) /\ (0 < z -> fle v (of_int (z - 1)) -> False).
Proof.
  intros Vv Nv. unfold ceilInt.
  destruct (fnonneg_inv v Nv) as [[s ->]|[->|(m & e & ->)]].
  - cbn. destruct s; cbn; intros [= <-]; split_and!; try done; lia.
  - done.
  - destruct (fltb (of_int MaxInt32) _) eqn:E; [done|]. intros Hz.
    pose proof (below_power m e Vv E) as Hle.
    pose proof (int_ceil m e Vv Hle) as Hi. cbv zeta in Hi.
    destruct (fceil_int m e Vv Hle) as (q & mq & eq & Eq & Cq & Sq & Hq & Hs).
    assert (int_of (fceil (S754_finite false m e)) = z) as Hz' by congruence. rewrite Hz' in Hi.
    destruct (of_int_exact MaxInt32 ltac:(done)) as (mM & eM & EM & CM & SM).
    rewrite EM, Eq, fltb_negb in E by done. apply negb_false_iff, fleb_fle, finite_fle in E; [|done|done].
    rewrite Sq, SM, scaled_int_le in E.
    assert (z - 1 < q) as Hzq.
    { apply Z.nle_gt. rewrite <- scaled_int_le. lia. }
    change MaxInt32 with 2147483647 in *.
    destruct (of_int_exact z ltac:(lia)) as (mz & ez & Ez & Cz & Sz).
    split; [lia|]. split; [rewrite Ez; apply finite_fle; [done|done|lia]|].
    intros _ Hv. destruct (Z.eq_dec (z - 1) 0) as [E0|N0]; [by rewrite E0 in Hv|].
    destruct (of_int_exact (z - 1) ltac:(lia)) as (my & ey & Ey & Cy & Sy).
    rewrite Ey in Hv. apply finite_fle in Hv; [|done|done]. lia.
Qed.

(** Every accepted quantity is a nonnegative finite number. *)
Lemma finite_ok v orig q : finite v orig = Ok q ->
  q = v /\ is_inf q = false /\ fnonneg q.
Proof.
  unfold finite. destruct (is_nan v || is_inf v) eqn:E; [done|].
  apply orb_false_iff in E as [En Ei]. destruct (fltb v fzero) eqn:El; [done|]. intros [= <-].
  split_and!; [done|done|]. rewrite fltb_negb in El by done. by apply negb_false_iff, fleb_fle in El.
Qed.

Lemma ParseQuantity_ok s q : ParseQuantity s = Ok q -> is_inf q = false /\ fnonneg q.
Proof.
  assert (forall n m o, scale n m o = Ok q -> is_inf q = false /\ fnonneg q) as Hscale.
  { intros n m o. unfold scale. destruct (ParseFloat n); [|done]. by intros (_ & ? & ?)%finite_ok. }
  unfold ParseQuantity. destruct (decide _); [done|]. cbv zeta.
  destruct (2 <? len _); [destruct (binarySuffix _); [apply Hscale|]|];
    (destruct (ParseFloat _); [by intros (_ & ? & ?)%finite_ok|]);
    (destruct (decimalSuffix _); [apply Hscale|done]).
Qed.

Lemma fdiv_int_nonneg q n : valid q -> fnonneg q -> is_inf q = false -> 0 < n < 2 ^ 53 ->
  valid (fdiv q (of_int n)) /\ fnonneg (fdiv q (of_int n)).
Proof.
  intros Vq Nq Iq Hn. destruct (of_int_exact n Hn) as (m2 & e2 & -> & C2 & _).
  destruct (fnonneg_inv q Nq) as [[s ->]|[->|(m1 & e1 & ->)]]; [by destruct s|done|].
  destruct (fdiv_quotient m1 e1 m2 e2 Vq C2) as (N & HN & _).
  split; [by eapply rounded_valid|by eapply rounded_nonneg].
Qed.

(** ** Properties *)

(** A request is never rounded in the flattering direction: an accepted CPU
    quantity becomes the least whole number of millicores not below it and a
    memory quantity the least whole number of MiB not below it, within int32. *)
Theorem quantity_rounds_up s q :
  ParseQuantity s = Ok q -> valid q ->
  (forall m, ParseCPUMilli s = Ok m -> let cores := fmul q (of_int 1000) in
    0 <= m <= MaxInt32 /\ fle cores (of_int m) /\ (0 < m -> ~ fle cores (of_int (m - 1)))) /\
  (forall m, ParseMemMiB s = Ok m -> let mib := fdiv q (of_int (2 ^ 20)) in
    0 <= m <= MaxInt32 /\ fle mib (of_int m) /\ (0 < m -> ~ fle mib (of_int (m - 1)))).
Proof.
  intros Hq Vq. destruct (ParseQuantity_ok s q Hq) as [Iq Nq].
  unfold ParseCPUMilli, ParseMemMiB. rewrite Hq. cbn [mbind result_bind]. split.
  - intros m Hm. destruct (of_int_exact 1000 ltac:(done)) as (mk & ek & Ek & Ck & _).
    destruct (fmul_nonneg q (of_int 1000)) as [Vp Np]; rewrite ?Ek; try done.
    rewrite <- Ek in *. by apply ceilInt_up.
  - intros m Hm. destruct (fdiv_int_nonneg q (2 ^ 20)) as [Vp Np]; try done. by apply ceilInt_up.
Qed.

(** A tenth of a millicore reserves a whole one; 128 decimal megabytes are 123 MiB. *)
