(* ===== verification/Kube.v ===== *)
(** * Kubernetes objects ([technocore/kube/types.go], [metrics.go])

    The fields the kernel reads, and what it computes from them.  Absent label
    and annotation maps are empty maps. *)

From S2P Require Import Prelude Float64 GoTime GoStrings Quantity.

Record Container := mkContainer { cn_Name : string; cn_CPU : string; cn_Memory : string }.

Record Pod := mkPod {
  pod_Name : string;
  pod_Namespace : string;
  pod_Labels : gmap string string;
  pod_Containers : list Container;
  pod_InitContainers : list Container;
  pod_Phase : string;
  pod_Conditions : list (string * string)
}.

Definition PodPending : string := "Pending".
Definition PodRunning : string := "Running".
Definition PodSucceeded : string := "Succeeded".
Definition PodFailed : string := "Failed".

Definition Billable (p : Pod) : bool :=
  bool_decide (pod_Phase p = PodPending \/ pod_Phase p = PodRunning).

(** The first condition of type Ready decides. *)
Definition Ready (p : Pod) : bool :=
  match head (filter (fun c => c.1 = "Ready"%string) (pod_Conditions p)) with
  | Some c => bool_decide (c.2 = "True"%string)
  | None => false
  end.

Definition containerRequests (c : Container) : result quantity_error (Z * Z) :=
  cpu ← (if decide (cn_CPU c = "") then Ok 0 else ParseCPUMilli (cn_CPU c));
  mem ← (if decide (cn_Memory c = "") then Ok 0 else ParseMemMiB (cn_Memory c));
  Ok (cpu, mem).

Definition addRequests (acc : Z * Z) (c : Container) : result quantity_error (Z * Z) :=
  '(cpu, mem) ← containerRequests c; Ok (acc.1 + cpu, acc.2 + mem).

Definition maxRequests (acc : Z * Z) (c : Container) : result quantity_error (Z * Z) :=
  '(cpu, mem) ← containerRequests c; Ok (Z.max acc.1 cpu, Z.max acc.2 mem).

Definition Requests (p : Pod) : result quantity_error (Z * Z) :=
  main ← foldM addRequests (0, 0) (pod_Containers p);
  foldM maxRequests main (pod_InitContainers p).

Record LabelSelector := mkSelector { MatchLabels : gmap string string }.

(** A nil selector is [None]. *)
Definition Matches `{GoRange} (s : option LabelSelector) (labels : gmap string string) : bool :=
  match s with
  | None => false
  | Some s =>
      if (size (MatchLabels s) =? 0)%nat then false
      else forallb (fun '(k, v) => bool_decide (labels.[k] = v)) (go_range (MatchLabels s))
  end.

Record Deployment := mkDeployment {
  dep_Name : string;
  dep_Labels : gmap string string;
  dep_Annotations : gmap string string;
  dep_SpecReplicas : option Z;
  dep_StatusReplicas : Z;
  dep_Selector : option LabelSelector
}.

Record ContainerMetrics := mkContainerMetrics { cm_Name : string; cm_CPU : string; cm_Memory : string }.

Record PodMetrics := mkPodMetrics {
  pm_Name : string;
  pm_Timestamp : Time;
  pm_Containers : list ContainerMetrics
}.

(** The container the error names, if it is about one. *)
Definition usage_error : Type := option string * quantity_error.

Definition addUsage (acc : float64 * float64) (c : ContainerMetrics) : result usage_error (float64 * float64) :=
  let '(cores, mem) := acc in
  cores ← (if decide (cm_CPU c = "") then Ok cores
           else match ParseQuantity (cm_CPU c) with
                | Ok v => Ok (fadd cores v)
                | Err e => Err (Some (cm_Name c), e)
                end);
  mem ← (if decide (cm_Memory c = "") then Ok mem
         else match ParseQuantity (cm_Memory c) with
              | Ok v => Ok (fadd mem v)
              | Err e => Err (Some (cm_Name c), e)
              end);
  Ok (cores, mem).

Definition ceilUsage (v : float64) : result usage_error Z :=
  match ceilInt v with Ok z => Ok z | Err e => Err (None, e) end.

Definition UsageOf (m : PodMetrics) : result usage_error (Z * Z) :=
  '(cores, mem) ← foldM addUsage (fzero, fzero) (pm_Containers m);
  cpuMilli ← ceilUsage (fmul cores (of_int 1000));
  memMiB ← ceilUsage (fdiv mem (of_int (2 ^ 20)));
  Ok (cpuMilli, memMiB).

(** ** What a pod reserves *)

Definition sumOf (l : list Z) : Z := foldr Z.add 0 l.

(** Container requests, each parsed on its own. *)
Definition parsed (c : Container) (r : Z * Z) : Prop := containerRequests c = Ok r.

Lemma addRequests_fold cs : forall acc r,
  foldM addRequests acc cs = Ok r <->
  exists rs, Forall2 parsed cs rs /\ r = (acc.1 + sumOf rs.*1, acc.2 + sumOf rs.*2).
Proof.
  induction cs as [|c cs IH]; intros acc r; cbn [foldM].
  - split.
    + intros [= <-]. exists []. split; [constructor|]. destruct acc; cbn; f_equal; lia.
    + intros (rs & Hrs & ->). apply Forall2_nil_inv_l in Hrs as ->. destruct acc; cbn. do 2 f_equal; lia.
  - unfold addRequests at 1. destruct (containerRequests c) as [[cpu mem]|e] eqn:E; cbn [mbind result_bind].
    + rewrite IH. cbn [fst snd]. split.
      * intros (rs & Hrs & ->). exists ((cpu, mem) :: rs). split; [by constructor|]. unfold sumOf. cbn. f_equal; lia.
      * intros (rs & Hrs & ->). apply Forall2_cons_inv_l in Hrs as (x & rs' & Hx & Hrs & ->).
        unfold parsed in Hx. rewrite E in Hx. injection Hx as <-. exists rs'. split; [done|]. unfold sumOf. cbn. f_equal; lia.
    + split; [done|]. intros (rs & Hrs & _). apply Forall2_cons_inv_l in Hrs as (x & rs' & Hx & _).
      unfold parsed in Hx. congruence.
Qed.

Lemma maxRequests_fold cs : forall acc r,
  foldM maxRequests acc cs = Ok r <->
  exists rs, Forall2 parsed cs rs /\ r = (foldl Z.max acc.1 rs.*1, foldl Z.max acc.2 rs.*2).
Proof.
  induction cs as [|c cs IH]; intros acc r; cbn [foldM].
  - split.
    + intros [= <-]. exists []. split; [constructor|]. by destruct acc.
    + intros (rs & Hrs & ->). apply Forall2_nil_inv_l in Hrs as ->. by destruct acc.
  - unfold maxRequests at 1. destruct (containerRequests c) as [[cpu mem]|e] eqn:E; cbn [mbind result_bind].
    + rewrite IH. cbn [fst snd]. split.
      * intros (rs & Hrs & ->). exists ((cpu, mem) :: rs). split; [by constructor|]. done.
      * intros (rs & Hrs & ->). apply Forall2_cons_inv_l in Hrs as (x & rs' & Hx & Hrs & ->).
        unfold parsed in Hx. rewrite E in Hx. injection Hx as <-. by exists rs'.
    + split; [done|]. intros (rs & Hrs & _). apply Forall2_cons_inv_l in Hrs as (x & rs' & Hx & _).
      unfold parsed in Hx. congruence.
Qed.

(** ** Properties *)

(** A pod reserves the sum of its main containers' requests, floored by its
    largest init container, and a single request that cannot be parsed, main or
    init, makes the pod's reservation an error rather than a smaller number. *)
Theorem requests_spec p r :
  Requests p = Ok r <->
  exists mains inits, Forall2 parsed (pod_Containers p) mains /\
    Forall2 parsed (pod_InitContainers p) inits /\
    r = (foldl Z.max (sumOf mains.*1) inits.*1, foldl Z.max (sumOf mains.*2) inits.*2).
Proof.
  unfold Requests. split.
  - destruct (foldM addRequests _ _) as [m|] eqn:E; [|done]. cbn [mbind result_bind].
    apply addRequests_fold in E as (mains & Hm & ->). intros (inits & Hi & ->)%maxRequests_fold.
    exists mains, inits. by split_and!.
  - intros (mains & inits & Hm & Hi & ->).
    assert (foldM addRequests (0, 0) (pod_Containers p) = Ok (sumOf mains.*1, sumOf mains.*2)) as ->.
    { apply addRequests_fold. by exists mains. }
    cbn [mbind result_bind]. apply maxRequests_fold. by exists inits.
Qed.

Lemma matches_spec `{GoRange} s labels :
  Matches s labels = true <->
  exists sel, s = Some sel /\ MatchLabels sel <> ∅ /\
    forall k v, MatchLabels sel !! k = Some v -> labels.[k] = v.
Proof.
  unfold Matches. destruct s as [sel|]; [|naive_solver].
  destruct (Nat.eqb_spec (size (MatchLabels sel)) 0) as [E|E].
  - apply map_size_empty_iff in E. naive_solver.
  - rewrite forallb_forall. split.
    + intros Hf. exists sel. split; [done|]. split.
      * intros E0. by rewrite E0, map_size_empty in E.
      * intros k v Hk. apply elem_of_go_range, list_elem_of_In, Hf in Hk. by apply bool_decide_eq_true in Hk.
    + intros (sel' & [= <-] & _ & Hs) [k v] Hin. apply list_elem_of_In, elem_of_go_range in Hin.
      by apply bool_decide_eq_true, Hs.
Qed.

Example requests_example :
  Requests (mkPod "p" "n" ∅ [mkContainer "a" "100m" "64Mi"; mkContainer "b" "0.2" ""] [mkContainer "i" "50m" "128Mi"] "Pending" [])
  = Ok (300, 128).
Proof. vm_compute. reflexivity. Qed.
