(* ===== verification/Ledger.v ===== *)
(** * The cost ledger ([technocore/cost/ledger.go], [snapshot.go], [period.go])

    One instance's spending for one period: expected spend by hour bucket and by
    application, and the provider's confirmations.  The Go methods mutate the
    receiver; here they return it. *)

From Stdlib Require Import SpecFloat.
From S2P Require Import Prelude Float64 Rounding GoTime Strconv Calendar.

(** ** Data *)

Definition MinCalibration : float64 := flit 5 10.
Definition MaxCalibration : float64 := of_int 2.

Record Confirmation := mkConfirmation {
  cf_Start : Time;
  cf_End : Time;
  cf_USD : float64;
  cf_AsOf : Time
}.

Record Discrepancy := mkDiscrepancy {
  d_Confirmation : Confirmation;
  d_Expected : float64;
  d_Ratio : float64
}.

Record Accrual := mkAccrual {
  ac_Confirmed : float64;
  ac_Expected : float64;
  ac_Total : float64;
  ac_HasConfirmation : bool;
  ac_ConfirmedThrough : Time;
  ac_Calibration : float64;
  ac_Discrepancies : list Discrepancy
}.

Record Ledger := mkLedger {
  l_periodStart : Time;
  l_periodEnd : Time;
  l_hourly : gmap Z float64;
  l_apps : gmap string float64;
  l_confirmations : list Confirmation;
  l_discrepancies : list Discrepancy
}.

Inductive confirm_error :=
| ErrAmountNegative
| ErrWindowEmpty
| ErrWindowOutsidePeriod
| ErrWindowOverlaps.

#[export] Instance confirmation_eq_dec : EqDecision Confirmation.
Proof. solve_decision. Defined.
#[export] Instance confirm_error_eq_dec : EqDecision confirm_error.
Proof. solve_decision. Defined.

(** ** Accruing *)

(** [Err] carries the period the error names. *)
Definition NewLedger (start end_ : Time) : result (Time * Time) Ledger :=
  if negb (After end_ start) then Err (start, end_)
  else Ok (mkLedger start end_ ∅ ∅ [] []).

Definition hourKey (t : Time) : Z := Z.quot (Unix t) 3600.

(** [m[k] += v]. *)
Definition fbump {K} `{Countable K} (m : gmap K float64) (k : K) (v : float64) : gmap K float64 :=
  <[k := fadd (default fzero (m !! k)) v]> m.

(** [time.Unix((h+1)*3600, 0)], cut at [now]: where the slice that starts at
    [cur] ends. *)
Definition sliceEnd (now cur : Time) : Time :=
  let next := (hourKey cur + 1) * 3600 * Second in
  if After next now then now else next.

(** The loop over the hour buckets; [None] is running out of fuel. *)
Fixpoint accrueLoop (fuel : nat) (now : Time) (usdPerHour : float64) (cur : Time)
    (hourly : gmap Z float64) : option (gmap Z float64) :=
  if Before cur now then
    match fuel with
    | O => None
    | S fuel =>
        let h := hourKey cur in
        let next := sliceEnd now cur in
        accrueLoop fuel now usdPerHour next
          (fbump hourly h (fmul usdPerHour (Hours (Sub next cur))))
    end
  else Some hourly.

(** Each pass but the first and the last covers a whole hour. *)
Definition accrueFuel (d : Duration) : nat := Z.to_nat (d / Hour) + 2.

Definition Accrue (l : Ledger) (now : Time) (app : string) (usdPerHour : float64) (d : Duration)
    : option Ledger :=
  if (d <=? 0) || fleb usdPerHour fzero then Some l
  else
    let apps := fbump (l_apps l) app (fmul usdPerHour (Hours d)) in
    hourly ← accrueLoop (accrueFuel d) now usdPerHour (now - d) (l_hourly l);
    Some (mkLedger (l_periodStart l) (l_periodEnd l) hourly apps
            (l_confirmations l) (l_discrepancies l)).

(** ** Confirming *)

Definition overlaps (c existing : Confirmation) : bool :=
  Before (cf_Start c) (cf_End existing) && Before (cf_Start existing) (cf_End c).

Definition earlier (a b : Confirmation) : bool := Before (cf_Start a) (cf_Start b).

(** Outside the clamp. *)
Definition refused (ratio : float64) : bool :=
  fltb ratio MinCalibration || fltb MaxCalibration ratio.

Section ranged.
Context `{GoRange}.

(** The start of a bucket's hour lies in [[start, end_)]. *)
Definition inWindow (start end_ : Time) (h : Z) : bool :=
  let t := h * 3600 * Second in negb (Before t start) && Before t end_.

Definition expectedIn (l : Ledger) (start end_ : Time) : float64 :=
  fold_left (fun sum '(h, v) => if inWindow start end_ h then fadd sum v else sum)
    (go_range (l_hourly l)) fzero.

Definition Confirm (l : Ledger) (c : Confirmation)
    : result confirm_error (option Discrepancy * Ledger) :=
  if fltb (cf_USD c) fzero then Err ErrAmountNegative
  else if negb (After (cf_End c) (cf_Start c)) then Err ErrWindowEmpty
  else if Before (cf_Start c) (l_periodStart l) || After (cf_End c) (l_periodEnd l)
  then Err ErrWindowOutsidePeriod
  else if existsb (overlaps c) (l_confirmations l) then Err ErrWindowOverlaps
  else
    let expected := expectedIn l (cf_Start c) (cf_End c) in
    let l := mkLedger (l_periodStart l) (l_periodEnd l) (l_hourly l) (l_apps l)
               (sort_slice earlier (l_confirmations l ++ [c])) (l_discrepancies l) in
    if fleb expected fzero then Ok (None, l)
    else
      let ratio := fdiv (cf_USD c) expected in
      if refused ratio then
        let d := mkDiscrepancy c expected ratio in
        Ok (Some d, mkLedger (l_periodStart l) (l_periodEnd l) (l_hourly l) (l_apps l)
                      (l_confirmations l) (l_discrepancies l ++ [d]))
      else Ok (None, l).

(** ** Reporting *)

(** The running totals of [Accrued]'s loop. *)
Record totals := mkTotals {
  t_confirmed : float64;
  t_expected : float64;
  t_from : float64;
  t_to : float64;
  t_through : Time
}.

Definition accruedStep (l : Ledger) (t : totals) (c : Confirmation) : totals :=
  let expected := expectedIn l (cf_Start c) (cf_End c) in
  let '(amount, from, to) :=
    if fltb fzero expected then
      if refused (fdiv (cf_USD c) expected)
      then (fmax (cf_USD c) expected, t_from t, t_to t)
      else (cf_USD c, fadd (t_from t) expected, fadd (t_to t) (cf_USD c))
    else (cf_USD c, t_from t, t_to t) in
  mkTotals (fadd (t_confirmed t) amount) (fadd (t_expected t) expected) from to
    (if After (cf_End c) (t_through t) then cf_End c else t_through t).

Definition Accrued (l : Ledger) : Accrual :=
  let t := fold_left (accruedStep l) (l_confirmations l)
             (mkTotals fzero fzero fzero fzero zero_time) in
  let calibration := if fltb fzero (t_from t) then fdiv (t_to t) (t_from t) else of_int 1 in
  let rawExpected := fsub (expectedIn l (l_periodStart l) (l_periodEnd l)) (t_expected t) in
  let rawExpected := if fltb rawExpected fzero then fzero else rawExpected in
  let expected := fmul rawExpected calibration in
  mkAccrual (t_confirmed t) expected (fadd (t_confirmed t) expected)
    (match l_confirmations l with [] => false | _ => true end)
    (t_through t) calibration (l_discrepancies l).

Definition Period (l : Ledger) : Time * Time := (l_periodStart l, l_periodEnd l).

Definition ByApp (l : Ledger) : gmap string float64 := fill id (go_range (l_apps l)) ∅.

(** ** The persisted form *)

Definition SnapshotVersion : Z := 1.

Record Snapshot := mkSnapshot {
  sn_Version : Z;
  sn_PeriodStart : Time;
  sn_PeriodEnd : Time;
  sn_Hourly : gmap string float64;
  sn_Apps : gmap string float64;
  sn_Confirmations : list Confirmation
}.

Definition SnapshotOf (l : Ledger) : Snapshot :=
  mkSnapshot SnapshotVersion (l_periodStart l) (l_periodEnd l)
    (fill FormatInt (go_range (l_hourly l)) ∅) (fill id (go_range (l_apps l)) ∅)
    (l_confirmations l).

Inductive restore_error :=
| UnknownVersion (v : Z)
| BadPeriod (p : Time * Time)
| BadHourKey (k : string)
| NegativeHour (k : string)
| NegativeApp (k : string)
| BadConfirmation (e : confirm_error).

Definition restoreHour (m : gmap Z float64) (kv : string * float64)
    : result restore_error (gmap Z float64) :=
  let '(k, v) := kv in
  match ParseInt k with
  | None => Err (BadHourKey k)
  | Some h => if fltb v fzero then Err (NegativeHour k) else Ok (<[h := v]> m)
  end.

Definition restoreApp (m : gmap string float64) (kv : string * float64)
    : result restore_error (gmap string float64) :=
  let '(k, v) := kv in
  if fltb v fzero then Err (NegativeApp k) else Ok (<[k := v]> m).

Definition replayConfirmation (l : Ledger) (c : Confirmation) : result restore_error Ledger :=
  match Confirm l c with
  | Err e => Err (BadConfirmation e)
  | Ok (_, l) => Ok l
  end.

Definition Restore (s : Snapshot) : result restore_error Ledger :=
  if negb (sn_Version s =? SnapshotVersion) then Err (UnknownVersion (sn_Version s))
  else
    match NewLedger (sn_PeriodStart s) (sn_PeriodEnd s) with
    | Err p => Err (BadPeriod p)
    | Ok l =>
        hourly ← foldM restoreHour (l_hourly l) (go_range (sn_Hourly s));
        apps ← foldM restoreApp (l_apps l) (go_range (sn_Apps s));
        foldM replayConfirmation
          (mkLedger (l_periodStart l) (l_periodEnd l) hourly apps [] []) (sn_Confirmations s)
    end.

End ranged.

(** ** Accounting periods *)

Definition PeriodMonthly : string := "monthly".
Definition PeriodDaily : string := "daily".

(** [Err] carries the period the error names. *)
Definition PeriodFor (now : Time) (period : string) : result string (Time * Time) :=
  if decide (period = PeriodMonthly) then
    let start := DateUTC (Year now) (Month now) 1 in Ok (start, AddDate start 1 0)
  else if decide (period = PeriodDaily) then
    let start := DateUTC (Year now) (Month now) (DayOfMonth now) in Ok (start, AddDate start 0 1)
  else Err period.

(** ** The hour buckets *)

Lemma hourKey_nonneg t : 0 <= t -> hourKey t = t / Hour.
Proof.
  intros Ht. unfold hourKey, Unix. rewrite Z.quot_div_nonneg by (try apply Z.div_pos; done).
  by rewrite Z.div_div by done.
Qed.

Lemma hourKey_neg t : t < 0 -> hourKey t = - ((- t + Second - 1) / Hour).
Proof.
  intros Ht. unfold hourKey, Unix.
  assert (t / Second = - ((- t + Second - 1) / Second)) as ->.
  { pose proof (Z.div_mod t Second ltac:(done)). pose proof (Z.mod_pos_bound t Second ltac:(done)).
    assert ((- t + Second - 1) / Second = - (t / Second)) as ->; [|lia].
    symmetry. apply (Z.div_unique_pos _ _ _ (Second - 1 - t mod Second)); lia. }
  rewrite Z.quot_opp_l, Z.quot_div_nonneg by (try (apply Z.div_pos; [|done]; change Second with 1000000000; lia); done).
  by rewrite Z.div_div by done.
Qed.

Lemma div_succ_le a b n : 0 < n -> a <= b -> a / n <= b / n <= a / n + (b - a) / n + 1.
Proof.
  intros Hn Hab.
  pose proof (Z.div_mod a n ltac:(lia)). pose proof (Z.mod_pos_bound a n Hn).
  pose proof (Z.div_mod b n ltac:(lia)). pose proof (Z.mod_pos_bound b n Hn).
  pose proof (Z.div_mod (b - a) n ltac:(lia)). pose proof (Z.mod_pos_bound (b - a) n Hn).
  nia.
Qed.

(** Buckets ascend with time, about one an hour. *)
Lemma hourKey_span a b : a <= b -> hourKey a <= hourKey b <= hourKey a + (b - a) / Hour + 1.
Proof.
  intros Hab. destruct (Z.lt_ge_cases a 0) as [Ha|Ha], (Z.lt_ge_cases b 0) as [Hb|Hb]; [| |lia|].
  - rewrite !hourKey_neg by done.
    pose proof (div_succ_le (- b + Second - 1) (- a + Second - 1) Hour ltac:(done) ltac:(lia)) as H1.
    replace (- a + Second - 1 - (- b + Second - 1)) with (b - a) in H1 by lia. lia.
  - rewrite hourKey_neg, hourKey_nonneg by done.
    set (x := (- a + Second - 1) / Hour).
    assert (x <= - a / Hour + 1) as Hx.
    { pose proof (div_succ_le (- a) (- a + Second - 1) Hour ltac:(done) ltac:(change Second with 1000000000; lia)) as H1.
      replace (- a + Second - 1 - - a) with (Second - 1) in H1 by lia.
      change ((Second - 1) / Hour) with 0 in H1. unfold x. lia. }
    assert (0 <= x) by (apply Z.div_pos; [change Second with 1000000000; lia|done]).
    pose proof (Z.div_pos b Hour Hb ltac:(done)).
    assert (- a / Hour + b / Hour <= (b - a) / Hour); [|lia].
    apply Z.div_le_lower_bound; [done|].
    pose proof (Z.mul_div_le (- a) Hour ltac:(done)). pose proof (Z.mul_div_le b Hour ltac:(done)). lia.
  - rewrite !hourKey_nonneg by lia. apply div_succ_le; [done|lia].
Qed.

(** The next bucket starts after the instant, and is the next bucket. *)
Lemma next_hour t : t < (hourKey t + 1) * 3600 * Second /\
  hourKey t + 1 <= hourKey ((hourKey t + 1) * 3600 * Second).
Proof.
  replace ((hourKey t + 1) * 3600 * Second) with ((hourKey t + 1) * Hour) by (unfold Hour, Minute; lia).
  split.
  - destruct (Z.lt_ge_cases t 0).
    + rewrite hourKey_neg by done.
      pose proof (Z.mul_div_le (- t + Second - 1) Hour ltac:(done)).
      change Hour with 3600000000000 in *. change Second with 1000000000 in *. lia.
    + rewrite hourKey_nonneg by done. pose proof (Z.mul_succ_div_gt t Hour ltac:(done)). lia.
  - set (k := hourKey t + 1). unfold hourKey, Unix.
    replace (k * Hour) with (k * 3600 * Second) by (unfold Hour, Minute; lia).
    rewrite Z.div_mul, Z.quot_mul by done. done.
Qed.

(** [Accrue]'s loop ends. *)
Lemma accrueLoop_total fuel now usd : forall cur m,
  (cur < now -> hourKey now - hourKey cur + 1 <= Z.of_nat fuel) ->
  exists m', accrueLoop fuel now usd cur m = Some m'.
Proof.
  induction fuel as [|fuel IH]; intros cur m Hf; cbn [accrueLoop]; unfold Before;
    (destruct (Z.ltb_spec cur now) as [Hlt|]; [|eauto]).
  - specialize (Hf Hlt). pose proof (hourKey_span cur now ltac:(lia)). lia.
  - apply IH. unfold sliceEnd, After. destruct (next_hour cur) as [_ Hk].
    destruct (Z.ltb_spec now ((hourKey cur + 1) * 3600 * Second)); [lia|].
    specialize (Hf Hlt). lia.
Qed.

Lemma accrue_total l now app usd d : exists l', Accrue l now app usd d = Some l'.
Proof.
  unfold Accrue. destruct ((d <=? 0) || fleb usd fzero) eqn:E; [eauto|].
  destruct (accrueLoop_total (accrueFuel d) now usd (now - d) (l_hourly l)) as [m' ->]; [|cbn; eauto].
  intros _. apply orb_false_iff in E as [E _].
  pose proof (hourKey_span (now - d) now ltac:(lia)) as Hs.
  replace (now - (now - d)) with d in Hs by lia.
  pose proof (Z.div_pos d Hour ltac:(lia) ltac:(done)). unfold accrueFuel. lia.
Qed.

(** *** What each bucket receives *)

(** How much of hour [h] the interval [[a, b)] covers. *)
Definition overlap (a b : Time) (h : Z) : Duration :=
  Z.max 0 (Z.min b ((h + 1) * Hour) - Z.max a (h * Hour)).

(** A bucket after an accrual over [[a, b)]. *)
Definition bucketAfter (usd : float64) (a b : Time) (m : gmap Z float64) (h : Z) : option float64 :=
  if 0 <? overlap a b h
  then Some (fadd (default fzero (m !! h)) (fmul usd (Hours (overlap a b h))))
  else m !! h.

Lemma accrueLoop_spec fuel now usd : forall cur m m',
  0 <= cur -> accrueLoop fuel now usd cur m = Some m' ->
  forall h, m' !! h = bucketAfter usd cur now m h.
Proof.
  induction fuel as [|fuel IH]; intros cur m m' Hc; cbn [accrueLoop]; unfold Before;
    destruct (Z.ltb_spec cur now) as [Hlt|Hge]; try done.
  1, 3: intros [= ->] h; unfold bucketAfter, overlap; destruct (Z.ltb_spec 0 (Z.max 0 (Z.min now ((h + 1) * Hour) - Z.max cur (h * Hour)))); [lia|done].
  destruct (next_hour cur) as [Hn _]. rewrite hourKey_nonneg in * by done.
  set (k := cur / Hour) in *. unfold sliceEnd. rewrite hourKey_nonneg by done. fold k.
  replace ((k + 1) * 3600 * Second) with ((k + 1) * Hour) in * by (unfold Hour, Minute; lia).
  assert (k * Hour <= cur) as Hk by (pose proof (Z.mul_div_le cur Hour ltac:(done)); unfold k; lia).
  unfold After. set (next := if now <? (k + 1) * Hour then now else (k + 1) * Hour).
  assert (next = Z.min now ((k + 1) * Hour)) as Hnext
    by (unfold next; destruct (Z.ltb_spec now ((k + 1) * Hour)); lia).
  intros Hl h. rewrite (IH next _ _ ltac:(lia) Hl h). unfold bucketAfter.
  change Hour with 3600000000000 in *.
  assert (Sub next cur = overlap cur now k) as ->.
  { rewrite Sub_small; unfold overlap, minDuration, maxDuration; change Hour with 3600000000000; lia. }
  unfold fbump. destruct (Z.eq_dec h k) as [->|Hne].
  - rewrite lookup_insert_eq.
    destruct (Z.ltb_spec 0 (overlap next now k)) as [H1|H1]; unfold overlap in *; change Hour with 3600000000000 in *; [lia|].
    destruct (Z.ltb_spec 0 (Z.max 0 (Z.min now ((k + 1) * 3600000000000) - Z.max cur (k * 3600000000000)))); [done|lia].
  - rewrite lookup_insert_ne by done. 
    assert (overlap next now h = overlap cur now h) as ->; [|done].
    unfold overlap; change Hour with 3600000000000. lia.
Qed.

Lemma accrue_inv l now app usd d l' :
  0 < d -> fleb usd fzero = false -> 0 <= now - d -> Accrue l now app usd d = Some l' ->
  (forall h, l_hourly l' !! h = bucketAfter usd (now - d) now (l_hourly l) h) /\
  l_apps l' = fbump (l_apps l) app (fmul usd (Hours d)) /\
  l_periodStart l' = l_periodStart l /\ l_periodEnd l' = l_periodEnd l /\
  l_confirmations l' = l_confirmations l /\ l_discrepancies l' = l_discrepancies l.
Proof.
  intros Hd Hu Ht. unfold Accrue. rewrite Hu. destruct (Z.leb_spec d 0); [lia|]. cbn [orb].
  destruct (accrueLoop _ _ _ _ _) as [m'|] eqn:E; [|done]. cbn. intros [= <-]. cbn.
  split_and!; try done. by eapply accrueLoop_spec.
Qed.

(** Accruing changes amounts only. *)
Lemma accrue_frame l now app usd d l' : Accrue l now app usd d = Some l' ->
  Period l' = Period l /\ l_confirmations l' = l_confirmations l /\ l_discrepancies l' = l_discrepancies l.
Proof.
  unfold Accrue. destruct (_ || _); [by intros [= ->]|].
  destruct (accrueLoop _ _ _ _ _); [|done]. cbn. by intros [= <-].
Qed.

(** The hours of an interval cover it exactly. *)
Definition hoursOf (a b : Time) : list Z := seqZ (a / Hour) ((b - 1) / Hour - a / Hour + 1).

Lemma overlap_sum a b : a < b -> foldr Z.add 0 (map (overlap a b) (hoursOf a b)) = b - a.
Proof.
  intros Hab. unfold hoursOf.
  assert (forall n k, a / Hour <= k -> k + Z.of_nat n - 1 = (b - 1) / Hour ->
    foldr Z.add 0 (map (overlap a b) (seqZ k (Z.of_nat n))) = b - Z.min b (Z.max a (k * Hour))) as Hgen.
  { pose proof (Z.mul_div_le (b - 1) Hour ltac:(done)) as Hb1.
    pose proof (Z.mul_succ_div_gt (b - 1) Hour ltac:(done)) as Hb2.
    pose proof (Z.mul_succ_div_gt a Hour ltac:(done)) as Ha2.
    induction n as [|n IH]; intros k Hk Hn.
    - rewrite seqZ_nil by lia. cbn [map foldr]. change Hour with 3600000000000 in *. lia.
    - rewrite seqZ_cons by lia. cbn [map foldr].
      replace (Z.pred (Z.of_nat (S n))) with (Z.of_nat n) by lia.
      rewrite IH by lia. unfold overlap. change Hour with 3600000000000 in *. lia. }
  pose proof (Z.div_le_mono a (b - 1) Hour ltac:(done) ltac:(lia)).
  pose proof (Z.mul_div_le a Hour ltac:(done)).
  specialize (Hgen (Z.to_nat ((b - 1) / Hour - a / Hour + 1)) (a / Hour)).
  rewrite Z2Nat.id in Hgen by lia. rewrite Hgen; lia.
Qed.

(** ** The ledger's invariant *)

(** An amount of money: a nonnegative binary64 value, possibly +Inf. *)
Definition amount (x : float64) : Prop := valid x /\ fnonneg x.

(** Whatever the order, windows do not meet and ascend. *)
Definition precedes (a b : Confirmation) : Prop := cf_End a <= cf_Start b.

Record window_ok (lo hi : Time) (c : Confirmation) : Prop := {
  wo_nonempty : cf_Start c < cf_End c;
  wo_inside : lo <= cf_Start c /\ cf_End c <= hi;
  wo_amount : amount (cf_USD c)
}.

Record ledger_wf (l : Ledger) : Prop := {
  lw_period : l_periodStart l < l_periodEnd l;
  lw_hourly : map_Forall (fun _ => amount) (l_hourly l);
  lw_apps : map_Forall (fun _ => amount) (l_apps l);
  lw_windows : Forall (window_ok (l_periodStart l) (l_periodEnd l)) (l_confirmations l);
  lw_sorted : StronglySorted precedes (l_confirmations l)
}.

Lemma amount_zero : amount fzero.
Proof. done. Qed.

Lemma amount_add x y : amount x -> amount y -> amount (fadd x y) /\ fle x (fadd x y) /\ fle y (fadd x y).
Proof. intros [Vx Nx] [Vy Ny]. destruct (fadd_ge x y) as (? & ? & ? & ?); done. Qed.

Lemma amount_default (o : option float64) :
  (forall x, o = Some x -> amount x) -> amount (default fzero o).
Proof. destruct o; [by auto|done]. Qed.

Lemma amount_refl x : amount x -> fle x x.
Proof. intros [_ Hx]. apply fle_refl. by apply (fle_not_nan fzero x). Qed.

Lemma amount_hours usd d : amount usd -> is_inf usd = false -> 0 <= d <= maxDuration ->
  amount (fmul usd (Hours d)).
Proof.
  intros [Vu Nu] Hi Hd. destruct (Hours_nonneg d Hd) as (? & ? & ?).
  by apply fmul_nonneg.
Qed.

Lemma fbump_amount {K} `{Countable K} (m : gmap K float64) k v :
  map_Forall (fun _ => amount) m -> amount v -> map_Forall (fun _ => amount) (fbump m k v).
Proof.
  intros Hm Hv. apply map_Forall_insert_2; [|done].
  apply amount_add; [|done]. apply amount_default. apply Hm.
Qed.

Lemma overlap_range a b h : 0 <= overlap a b h <= Hour.
Proof. unfold overlap. change Hour with 3600000000000. lia. Qed.

Lemma sliceEnd_range now cur : cur < now -> cur < sliceEnd now cur <= now.
Proof.
  intros Hlt. destruct (next_hour cur) as [Hn _]. unfold sliceEnd, After. case_match; lia.
Qed.

Lemma accrueLoop_amount fuel now usd : forall cur m m',
  amount usd -> is_inf usd = false -> now - cur <= maxDuration ->
  map_Forall (fun _ => amount) m -> accrueLoop fuel now usd cur m = Some m' ->
  map_Forall (fun _ => amount) m'.
Proof.
  induction fuel as [|fuel IH]; intros cur m m' Hu Hi Hd Hm; cbn [accrueLoop]; unfold Before;
    destruct (Z.ltb_spec cur now) as [Hlt|]; try done; try by intros [= <-].
  destruct (sliceEnd_range now cur Hlt) as [H1 H2].
  apply IH; [done|done|lia|]. apply fbump_amount; [done|].
  rewrite Sub_small by (change minDuration with (- 2 ^ 63); lia). apply amount_hours; [done|done|lia].
Qed.

Lemma accrue_wf l now app usd d l' :
  d <= maxDuration -> is_nan usd = false -> valid usd -> is_inf usd = false ->
  ledger_wf l -> Accrue l now app usd d = Some l' -> ledger_wf l'.
Proof.
  intros Hd Hn Vu Hi Hwf. unfold Accrue. destruct (Z.leb_spec d 0); [by intros [= <-]|].
  destruct (fleb usd fzero) eqn:Eu; [by intros [= <-]|]. cbn [orb].
  assert (amount usd) as Hu.
  { split; [done|]. destruct (fle_total fzero usd) as [|Hle]; [done|done|done|].
    apply fleb_fle in Hle. congruence. }
  destruct (accrueLoop _ _ _ _ _) as [m'|] eqn:E; [|done]. cbn. intros [= <-].
  destruct Hwf as [Hp Hh Ha Hw Hs]. split; cbn; [done| | |done|done].
  - eapply accrueLoop_amount; [exact Hu|done| |exact Hh|exact E]. lia.
  - apply fbump_amount; [done|]. apply amount_hours; [done|done|lia].
Qed.

(** ** Confirmations *)

Lemma precedes_trans a b c :
  cf_Start b < cf_End b -> precedes a b -> precedes b c -> precedes a c.
Proof. unfold precedes. lia. Qed.

Lemma overlaps_false c e :
  overlaps c e = false <-> precedes e c \/ precedes c e.
Proof. unfold overlaps, Before, precedes. destruct (Z.ltb_spec (cf_Start c) (cf_End e)), (Z.ltb_spec (cf_Start e) (cf_End c)); cbn; intuition (try done; lia). Qed.

(** Windows that ascend by start and never meet ascend end to start. *)
Lemma sort_windows l :
  Forall (fun c => cf_Start c < cf_End c) l ->
  (forall i j a b, l !! i = Some a -> l !! j = Some b -> i ≠ j -> precedes a b \/ precedes b a) ->
  StronglySorted precedes (sort_slice earlier l).
Proof.
  intros Hne Hdis.
  assert (StronglySorted (fun a b => cf_Start a <= cf_Start b) (sort_slice earlier l)) as Hs.
  { apply sort_slice_strong; unfold earlier, Before.
    - lia.
    - lia.
    - intros a b c. lia. }
  pose proof (sort_slice_perm earlier l) as Hp.
  assert (forall i j a b, sort_slice earlier l !! i = Some a -> sort_slice earlier l !! j = Some b ->
    i ≠ j -> precedes a b \/ precedes b a) as Hd'.
  { apply Permutation_inj in Hp as (_ & f & Hf & Hl).
    intros i j a b Hi Hj Hij. rewrite Hl in Hi, Hj. eapply Hdis; [exact Hi|exact Hj|].
    intros E. by apply Hf in E. }
  assert (Forall (fun c => cf_Start c < cf_End c) (sort_slice earlier l)) as Hne' by by rewrite Hp.
  revert Hs Hd' Hne'. generalize (sort_slice earlier l). clear. intros l.
  induction 1 as [|x l Hs IH Hx]; intros Hd Hne; [constructor|].
  apply Forall_cons in Hne as [Hxne Hne]. constructor.
  - apply IH; [|done]. intros i j a b Hi Hj Hij. by apply (Hd (S i) (S j)); auto.
  - apply Forall_forall. intros y Hy. rewrite Forall_forall in Hx, Hne.
    pose proof (Hx _ Hy). pose proof (Hne _ Hy). cbv beta in *.
    apply list_elem_of_lookup in Hy as [j Hj].
    destruct (Hd 0%nat (S j) x y) as [|Hyx]; [done|done|done|done|]. unfold precedes in *. lia.
Qed.

Lemma sorted_disjoint (l : list Confirmation) : StronglySorted precedes l ->
  forall i j a b, l !! i = Some a -> l !! j = Some b -> i ≠ j -> precedes a b \/ precedes b a.
Proof.
  intros Hs i j a b Hi Hj Hij. destruct (decide (i < j)%nat).
  - left. by eapply (StronglySorted_lookup_le precedes).
  - right. eapply (StronglySorted_lookup_le precedes _ j i); [done..|lia].
Qed.

Section confirm.
Context `{GoRange}.

(** A sorted list with one more window, none of the others meeting it. *)
Lemma insert_window l c :
  StronglySorted precedes l -> Forall (fun c => cf_Start c < cf_End c) l -> cf_Start c < cf_End c ->
  existsb (overlaps c) l = false -> StronglySorted precedes (sort_slice earlier (l ++ [c])).
Proof.
  intros Hs Hne Hc Hno. apply sort_windows.
  - apply Forall_app. split; [done|]. by constructor.
  - assert (forall a i, l !! i = Some a -> precedes a c \/ precedes c a) as Hcl.
    { intros a i Hi. apply overlaps_false. apply not_true_iff_false. intros E.
      apply not_true_iff_false in Hno. apply Hno, existsb_exists. exists a. split; [|done].
      apply list_elem_of_In. by eapply list_elem_of_lookup_2. }
    intros i j a b Hi Hj Hij.
    apply lookup_app_Some in Hi as [Hi|[Hi1 Hi2]]; apply lookup_app_Some in Hj as [Hj|[Hj1 Hj2]].
    + by eapply sorted_disjoint.
    + apply list_lookup_singleton_Some in Hj2 as [_ <-]. by eapply Hcl.
    + apply list_lookup_singleton_Some in Hi2 as [_ <-]. destruct (Hcl _ _ Hj); auto.
    + apply list_lookup_singleton_Some in Hi2 as [? _], Hj2 as [? _]. lia.
Qed.

(** What a recorded confirmation changes, and when it is flagged. *)
Lemma confirm_ok l c o l' : Confirm l c = Ok (o, l') ->
  fltb (cf_USD c) fzero = false /\ cf_Start c < cf_End c /\
  l_periodStart l <= cf_Start c /\ cf_End c <= l_periodEnd l /\
  existsb (overlaps c) (l_confirmations l) = false /\
  l_periodStart l' = l_periodStart l /\ l_periodEnd l' = l_periodEnd l /\
  l_hourly l' = l_hourly l /\ l_apps l' = l_apps l /\
  l_confirmations l' = sort_slice earlier (l_confirmations l ++ [c]) /\
  l_discrepancies l' = l_discrepancies l ++ option_list o /\
  let expected := expectedIn l (cf_Start c) (cf_End c) in
  let ratio := fdiv (cf_USD c) expected in
  o = if negb (fleb expected fzero) && refused ratio then Some (mkDiscrepancy c expected ratio) else None.
Proof.
  unfold Confirm, After, Before. destruct (fltb (cf_USD c) fzero); [done|].
  destruct (Z.ltb_spec (cf_Start c) (cf_End c)); [|done]. cbn [negb].
  destruct (Z.ltb_spec (cf_Start c) (l_periodStart l)); [done|].
  destruct (Z.ltb_spec (l_periodEnd l) (cf_End c)); [done|]. cbn [orb].
  destruct (existsb _ _) eqn:E; [done|].
  destruct (fleb _ fzero) eqn:E2; [|destruct (refused _) eqn:E3];
    intros [= <- <-]; cbn [l_periodStart l_periodEnd l_hourly l_apps l_confirmations l_discrepancies option_list];
    rewrite ?app_nil_r; split_and!; try done; cbn [negb andb].
Qed.

Local Ltac confirm_case :=
  split; intros Hx; first
    [discriminate Hx | reflexivity | exfalso; intuition (first [discriminate | lia]) | intuition lia].

(** The four refusals, in the order they are tried. *)
Lemma confirm_err l c e : Confirm l c = Err e <->
  match e with
  | ErrAmountNegative => fltb (cf_USD c) fzero = true
  | ErrWindowEmpty => fltb (cf_USD c) fzero = false /\ cf_End c <= cf_Start c
  | ErrWindowOutsidePeriod => fltb (cf_USD c) fzero = false /\ cf_Start c < cf_End c /\
      (cf_Start c < l_periodStart l \/ l_periodEnd l < cf_End c)
  | ErrWindowOverlaps => fltb (cf_USD c) fzero = false /\ cf_Start c < cf_End c /\
      l_periodStart l <= cf_Start c /\ cf_End c <= l_periodEnd l /\
      exists existing, existing ∈ l_confirmations l /\
        cf_Start c < cf_End existing /\ cf_Start existing < cf_End c
  end.
Proof.
  assert (existsb (overlaps c) (l_confirmations l) = true <->
    exists existing, existing ∈ l_confirmations l /\
        cf_Start c < cf_End existing /\ cf_Start existing < cf_End c) as Hex.
  { rewrite existsb_exists. unfold overlaps, Before. split.
    - intros (x & Hin & Hx). exists x. rewrite list_elem_of_In. split; [done|lia].
    - intros (x & Hin & Hx). exists x. rewrite <- list_elem_of_In. split; [done|lia]. }
  set (meets := exists existing, existing ∈ l_confirmations l /\
        cf_Start c < cf_End existing /\ cf_Start existing < cf_End c) in *. clearbody meets.
  unfold Confirm, After, Before. destruct (fltb (cf_USD c) fzero); [destruct e; naive_solver|].
  destruct (Z.ltb_spec (cf_Start c) (cf_End c)); cbn [negb]; [|destruct e; by confirm_case].
  destruct (Z.ltb_spec (cf_Start c) (l_periodStart l)); cbn [orb]; [destruct e; by confirm_case|].
  destruct (Z.ltb_spec (l_periodEnd l) (cf_End c)); cbn [orb]; [destruct e; by confirm_case|].
  destruct (existsb _ _).
  - assert meets by by apply Hex. destruct e; by confirm_case.
  - assert (~ meets) by by intros ?%Hex. destruct (fleb _ fzero); [|destruct (refused _)]; destruct e; by confirm_case.
Qed.

Lemma confirm_wf l c o l' :
  valid (cf_USD c) -> is_nan (cf_USD c) = false ->
  ledger_wf l -> Confirm l c = Ok (o, l') -> ledger_wf l'.
Proof.
  intros Vc Nc [Hp Hh Ha Hw Hs] Hc.
  destruct (confirm_ok _ _ _ _ Hc) as (H1 & H2 & H3 & H4 & H5 & E1 & E2 & E3 & E4 & E5 & _).
  split; rewrite ?E1, ?E2, ?E3, ?E4, ?E5; try done.
  - rewrite sort_slice_perm. apply Forall_app. split.
    + done.
    + constructor; [|done]. split; [done|done|]. split; [done|].
      rewrite fltb_negb in H1 by done. by apply negb_false_iff, fleb_fle in H1.
  - apply insert_window; [done| |done|done].
    rewrite Forall_forall in Hw. apply Forall_forall. intros x Hx%Hw. apply Hx.
Qed.

End confirm.

(** ** What is reported *)

Section accrued.
Context `{GoRange}.

(** What a confirmation contributes to the confirmed total. *)
Definition counted (l : Ledger) (c : Confirmation) : float64 :=
  let expected := expectedIn l (cf_Start c) (cf_End c) in
  if fltb fzero expected && refused (fdiv (cf_USD c) expected)
  then fmax (cf_USD c) expected else cf_USD c.

Lemma fmax_amount x y : amount x -> amount y ->
  amount (fmax x y) /\ fle x (fmax x y) /\ fle y (fmax x y).
Proof.
  intros [Vx Nx] [Vy Ny].
  destruct (fle_not_nan _ _ Nx) as [_ Hx]. destruct (fle_not_nan _ _ Ny) as [_ Hy].
  destruct (fmax_ub x y Hx Hy) as [H1 H2]. split_and!; [|done|done]. split.
  - unfold fmax. destruct x as [[]|[]| |[] ? ?], y as [[]|[]| |[] ? ?]; try done; by case_match.
  - eapply fle_trans; [exact Nx|exact H1].
Qed.

Lemma expectedIn_amount l a b :
  map_Forall (fun _ => amount) (l_hourly l) -> amount (expectedIn l a b) /\ expectedIn l a b <> S754_zero true.
Proof.
  intros Hm. unfold expectedIn.
  assert (forall p, p ∈ go_range (l_hourly l) -> amount p.2) as Hr.
  { intros [h v] Hin%elem_of_go_range. by apply Hm in Hin. }
  assert (amount fzero /\ fzero <> S754_zero true) as H0 by done.
  revert Hr H0. generalize fzero as s. generalize (go_range (l_hourly l)) as r. clear.
  induction r as [|[h v] r IH]; intros s Hr [Hs Hz]; [done|]. cbn [fold_left].
  apply IH; [intros p Hp; apply Hr; by right|].
  destruct (inWindow a b h); [|done].
  assert (amount v) as Hv by (apply (Hr (h, v)); by left).
  split; [by apply amount_add|].
  destruct Hs as [Vs Ns], Hv as [Vv Nv].
  destruct (fnonneg_inv s Ns) as [[[] ->]|[->|(m1 & e1 & ->)]]; try done;
    destruct (fnonneg_inv v Nv) as [[[] ->]|[->|(m2 & e2 & ->)]]; try done.
  intros E. destruct (rd_shape _ _ _ _ (fadd_pos_rounded m1 e1 m2 e2 Vs Vv)) as [E'|[(? & ? & E' & _)|E']]; congruence.
Qed.

Lemma counted_amount l c :
  ledger_wf l -> c ∈ l_confirmations l ->
  amount (counted l c) /\ fle (cf_USD c) (counted l c) /\
  (let expected := expectedIn l (cf_Start c) (cf_End c) in
   fltb fzero expected && refused (fdiv (cf_USD c) expected) = true -> fle expected (counted l c)).
Proof.
  intros Hwf Hc. pose proof (lw_windows _ Hwf) as Hw. rewrite Forall_forall in Hw.
  apply Hw in Hc as [_ _ Ha]. unfold counted. cbv zeta.
  destruct (expectedIn_amount l (cf_Start c) (cf_End c) (lw_hourly _ Hwf)) as [He _].
  destruct (fltb _ _ && _).
  - destruct (fmax_amount _ _ Ha He) as (? & ? & ?). done.
  - split_and!; [done|by apply amount_refl|done].
Qed.

Definition runTotals (l : Ledger) (cs : list Confirmation) : totals :=
  fold_left (accruedStep l) cs (mkTotals fzero fzero fzero fzero zero_time).

Lemma runTotals_snoc l cs c : runTotals l (cs ++ [c]) = accruedStep l (runTotals l cs) c.
Proof. unfold runTotals. by rewrite fold_left_app. Qed.

Lemma accruedStep_confirmed l t c :
  t_confirmed (accruedStep l t c) = fadd (t_confirmed t) (counted l c).
Proof.
  unfold accruedStep, counted. destruct (fltb fzero _); cbn [andb]; [|done].
  by destruct (refused _).
Qed.

(** The confirmed total is below no contribution. *)
Lemma confirmed_ge l cs :
  ledger_wf l -> (forall c, c ∈ cs -> c ∈ l_confirmations l) ->
  amount (t_confirmed (runTotals l cs)) /\
  forall c, c ∈ cs -> fle (counted l c) (t_confirmed (runTotals l cs)).
Proof.
  intros Hwf. induction cs as [|c cs IH] using rev_ind; intros Hin.
  { split; [done|]. by intros c ?%not_elem_of_nil. }
  destruct IH as [Ha Hle]; [intros x Hx; apply Hin; set_solver|].
  rewrite runTotals_snoc, accruedStep_confirmed.
  destruct (counted_amount l c Hwf) as (Hc & _); [apply Hin; set_solver|].
  destruct (amount_add _ _ Ha Hc) as (H1 & H2 & H3). split; [done|].
  intros x [Hx|Hx%list_elem_of_singleton]%elem_of_app; [|by subst].
  eapply fle_trans; [by apply Hle|done].
Qed.

Lemma fmul_one x : valid x -> fnonneg x -> fmul x (of_int 1) = x.
Proof.
  intros Vx Nx. destruct (fnonneg_inv x Nx) as [[[] ->]|[->|(m & e & ->)]]; try done.
  destruct fone_val as (m1 & e1 & E1 & C1 & S1). change (of_int 1) with fone. rewrite E1.
  apply (rounded_exact false 1); [lia|done|].
  pose proof (fmul_pos_rounded m e m1 e1 Vx C1) as Hr.
  replace (scaled (Z.pos m) e * 1) with (scaled (Z.pos (m * m1)) (e + e1)); [done|].
  pose proof (scaled_mul m e m1 e1 ltac:(destruct Vx; lia) ltac:(destruct C1; lia)) as Hm.
  rewrite S1 in Hm. pose proof (units_pos 0 ltac:(lia)). nia.
Qed.

End accrued.

(** ** Checkpoints *)

Section snapshot.
Context `{GoRange}.

(** The discrepancy a window stands for under the current buckets. *)
Definition flag (l : Ledger) (c : Confirmation) : option Discrepancy :=
  let expected := expectedIn l (cf_Start c) (cf_End c) in
  let ratio := fdiv (cf_USD c) expected in
  if negb (fleb expected fzero) && refused ratio then Some (mkDiscrepancy c expected ratio) else None.

Lemma flag_hourly l l' c : l_hourly l' = l_hourly l -> flag l' c = flag l c.
Proof. intros E. unfold flag, expectedIn. by rewrite E. Qed.

Lemma sort_snoc l c lo hi :
  Forall (window_ok lo hi) (l ++ [c]) -> StronglySorted precedes (l ++ [c]) ->
  existsb (overlaps c) l = false /\ sort_slice earlier (l ++ [c]) = l ++ [c].
Proof.
  intros Hw Hs.
  assert (Forall (fun c => cf_Start c < cf_End c) (l ++ [c])) as Hne.
  { eapply Forall_impl; [exact Hw|]. intros x Hx. apply Hx. }
  assert (forall a, a ∈ l -> precedes a c) as Hac.
  { intros a Ha. apply list_elem_of_lookup in Ha as [i Hi].
    apply (StronglySorted_lookup_le precedes (l ++ [c]) i (length l)).
    - done.
    - by apply lookup_app_l_Some.
    - by apply list_lookup_middle.
    - by apply lookup_lt_Some in Hi. }
  split.
  - apply not_true_iff_false. intros (a & Hin & Ho)%existsb_exists.
    apply list_elem_of_In, Hac in Hin. rewrite (proj2 (overlaps_false c a)) in Ho; [done|by left].
  - apply (StronglySorted_unique_strong precedes).
    + rewrite Forall_forall in Hne. intros a b Ha Hb. unfold precedes.
      rewrite sort_slice_perm in Ha. apply Hne in Ha, Hb. cbv beta in *. lia.
    + apply sort_windows; [done|]. by apply sorted_disjoint.
    + done.
    + auto with go.
Qed.

(** Replaying ascending windows records them all, flagging what the current
    buckets flag. *)
Lemma replay_windows l0 cs :
  l_confirmations l0 = [] -> l_discrepancies l0 = [] ->
  Forall (window_ok (l_periodStart l0) (l_periodEnd l0)) cs -> StronglySorted precedes cs ->
  foldM replayConfirmation l0 cs =
  Ok (mkLedger (l_periodStart l0) (l_periodEnd l0) (l_hourly l0) (l_apps l0) cs (omap (flag l0) cs)).
Proof.
  intros Hc0 Hd0. induction cs as [|c cs IH] using rev_ind; intros Hw Hs.
  { destruct l0; cbn in *; by subst. }
  destruct (sort_snoc cs c _ _ Hw Hs) as [Hno Hsort].
  apply Forall_app in Hw as [Hw Hwc]. apply Forall_singleton in Hwc as [Hne [Hlo Hhi] [Vc Nc]].
  apply StronglySorted_app_1_l in Hs.
  rewrite foldM_app, IH by done. cbn [foldM mbind result_bind].
  unfold replayConfirmation, Confirm. cbn [l_periodStart l_periodEnd l_confirmations l_discrepancies l_hourly l_apps].
  assert (fltb (cf_USD c) fzero = false) as ->.
  { destruct (fle_not_nan _ _ Nc) as [_ Nn]. rewrite fltb_negb by done. by apply negb_false_iff, fleb_fle. }
  unfold After, Before. destruct (Z.ltb_spec (cf_Start c) (cf_End c)); [|lia]. cbn [negb].
  destruct (Z.ltb_spec (cf_Start c) (l_periodStart l0)); [lia|].
  destruct (Z.ltb_spec (l_periodEnd l0) (cf_End c)); [lia|]. cbn [orb].
  rewrite Hno, Hsort, omap_app.
  replace (omap (flag l0) [c]) with (option_list (flag l0 c)) by (cbn; by destruct (flag l0 c)).
  change (expectedIn (mkLedger (l_periodStart l0) (l_periodEnd l0) (l_hourly l0) (l_apps l0) cs (omap (flag l0) cs)))
    with (expectedIn l0).
  set (ds := omap (flag l0) cs). unfold flag. cbv zeta.
  destruct (fleb _ fzero); cbn [negb andb option_list]; [by rewrite app_nil_r|].
  destruct (refused _); cbn [option_list]; [done|by rewrite app_nil_r].
Qed.

(** Hours are int64 values. *)
Definition hours_fit (l : Ledger) : Prop :=
  forall h, is_Some (l_hourly l !! h) -> - 2 ^ 63 <= h < 2 ^ 63.

Lemma amount_not_negative x : amount x -> fltb x fzero = false.
Proof.
  intros [_ Nx]. destruct (fle_not_nan _ _ Nx) as [_ Hx].
  rewrite fltb_negb by done. by apply negb_false_iff, fleb_fle.
Qed.

Lemma restore_hours l : ledger_wf l -> hours_fit l ->
  foldM restoreHour ∅ (go_range (fill FormatInt (go_range (l_hourly l)) ∅)) = Ok (l_hourly l).
Proof.
  intros Hwf Hfit. rewrite (foldM_fill _ (fun k => default 0 (ParseInt k))).
  - f_equal. apply fill_roundtrip. intros h Hh%Hfit. by rewrite ParseInt_FormatInt.
  - intros m k v Hin%elem_of_go_range.
    apply fill_inv in Hin as [Hin|(h & Hin%elem_of_go_range & <-)]; [by rewrite lookup_empty in Hin|].
    unfold restoreHour. rewrite ParseInt_FormatInt by eauto. cbn [default].
    by rewrite amount_not_negative by by apply (lw_hourly _ Hwf) in Hin.
Qed.

Lemma restore_apps l : ledger_wf l ->
  foldM restoreApp ∅ (go_range (fill id (go_range (l_apps l)) ∅)) = Ok (l_apps l).
Proof.
  intros Hwf. rewrite (foldM_fill _ id).
  - f_equal. by apply fill_roundtrip.
  - intros m k v Hin%elem_of_go_range.
    apply fill_inv in Hin as [Hin|(h & Hin%elem_of_go_range & <-)]; [by rewrite lookup_empty in Hin|].
    unfold restoreApp. by rewrite amount_not_negative by by apply (lw_apps _ Hwf) in Hin.
Qed.

Lemma restore_snapshot l : ledger_wf l -> hours_fit l ->
  Restore (SnapshotOf l) = Ok (mkLedger (l_periodStart l) (l_periodEnd l) (l_hourly l) (l_apps l)
    (l_confirmations l) (omap (flag l) (l_confirmations l))).
Proof.
  intros Hwf Hfit. unfold Restore, SnapshotOf. cbn [sn_Version sn_PeriodStart sn_PeriodEnd sn_Hourly sn_Apps sn_Confirmations].
  rewrite Z.eqb_refl. unfold NewLedger, After. pose proof (lw_period _ Hwf).
  destruct (Z.ltb_spec (l_periodStart l) (l_periodEnd l)); [|lia]. cbn [negb l_hourly l_apps l_periodStart l_periodEnd].
  rewrite restore_hours by done. cbn [mbind result_bind]. rewrite restore_apps by done. cbn [mbind result_bind].
  rewrite replay_windows; [| done | done | apply Hwf | apply Hwf]. done.
Qed.

(** A restored ledger obeys the invariant, whatever the document said, as long
    as its figures are numbers. *)
Lemma foldM_restoreHour_amount r m m' :
  (forall kv, kv ∈ r -> valid kv.2 /\ is_nan kv.2 = false) -> map_Forall (fun _ => amount) m ->
  foldM restoreHour m r = Ok m' -> map_Forall (fun _ => amount) m'.
Proof.
  intros Hr Hm Hf. refine (foldM_inv _ _ _ _ _ _ Hm Hf). intros s [k v] s' Hin Hs.
  unfold restoreHour. destruct (ParseInt k); [|done].
  destruct (fltb v fzero) eqn:E; [done|]. intros [= <-].
  apply Hr in Hin as [Vv Nv]. cbn in *. apply map_Forall_insert_2; [|done]. split; [done|].
  rewrite fltb_negb in E by done. by apply negb_false_iff, fleb_fle in E.
Qed.

Lemma foldM_restoreApp_amount r m m' :
  (forall kv, kv ∈ r -> valid kv.2 /\ is_nan kv.2 = false) -> map_Forall (fun _ => amount) m ->
  foldM restoreApp m r = Ok m' -> map_Forall (fun _ => amount) m'.
Proof.
  intros Hr Hm Hf. refine (foldM_inv _ _ _ _ _ _ Hm Hf). intros s [k v] s' Hin Hs.
  unfold restoreApp. destruct (fltb v fzero) eqn:E; [done|]. intros [= <-].
  apply Hr in Hin as [Vv Nv]. cbn in *. apply map_Forall_insert_2; [|done]. split; [done|].
  rewrite fltb_negb in E by done. by apply negb_false_iff, fleb_fle in E.
Qed.

(** Every figure of a document is a number. *)
Record numeric (s : Snapshot) : Prop := {
  nu_hourly : map_Forall (fun _ v => valid v /\ is_nan v = false) (sn_Hourly s);
  nu_apps : map_Forall (fun _ v => valid v /\ is_nan v = false) (sn_Apps s);
  nu_usd : Forall (fun c => valid (cf_USD c) /\ is_nan (cf_USD c) = false) (sn_Confirmations s)
}.

Lemma restore_wf s l : numeric s -> Restore s = Ok l -> ledger_wf l.
Proof.
  intros [Nh Na Nc]. unfold Restore, NewLedger. destruct (negb (_ =? _)); [done|].
  destruct (negb (After _ _)) eqn:Ep; [done|]. cbn [l_hourly l_apps l_periodStart l_periodEnd].
  destruct (foldM restoreHour _ _) as [hs|] eqn:Eh; [|done].
  cbn [mbind result_bind]. destruct (foldM restoreApp _ _) as [aps|] eqn:Ea; [|done].
  cbn [mbind result_bind]. intros Hf. apply negb_false_iff in Ep. unfold After in Ep.
  refine (foldM_inv ledger_wf _ _ _ _ _ _ Hf).
  - intros l1 c l2 Hin Hwf. unfold replayConfirmation.
    destruct (Confirm l1 c) as [[o l3]|] eqn:Ec; [|done]. intros [= <-].
    rewrite Forall_forall in Nc. destruct (Nc c Hin) as [? ?]. by eapply confirm_wf.
  - split; cbn; [lia| | |constructor|constructor].
    + eapply foldM_restoreHour_amount; [|apply map_Forall_empty|exact Eh].
      intros [k v] Hin%elem_of_go_range. by apply Nh in Hin.
    + eapply foldM_restoreApp_amount; [|apply map_Forall_empty|exact Ea].
      intros [k v] Hin%elem_of_go_range. by apply Na in Hin.
Qed.

End snapshot.

(** ** Periods *)

(** The civil date of an instant, as the period computation uses it. *)
Lemma date_bounds t :
  1 <= Month t <= 12 /\ 1 <= DayOfMonth t <= month_length (Year t) (Month t) /\
  days_of_civil (Year t) (Month t) (DayOfMonth t) = t / Day.
Proof.
  pose proof (civil_spec (t / Day)) as Hs. unfold Month, Year, DayOfMonth, civil.
  by destruct (civil_of_days (t / Day)) as [[y m] d].
Qed.

Lemma AddDate_midnight y m d months days : 1 <= m <= 12 -> 1 <= d <= month_length y m ->
  AddDate (days_of_civil y m d * Day) months days = DateUTC y (m + months) (d + days).
Proof.
  intros Hm Hd. unfold AddDate, Year, Month, DayOfMonth, civil.
  rewrite Z.div_mul by done. by rewrite civil_of_civil.
Qed.

(** The monthly period of an instant, in days. *)
Lemma monthly t : PeriodFor t PeriodMonthly =
  let first := days_of_civil (Year t) (Month t) 1 in
  Ok (first * Day, (first + month_length (Year t) (Month t)) * Day).
Proof.
  destruct (date_bounds t) as (Hm & Hd & _). unfold PeriodFor. rewrite decide_True by done.
  cbv zeta. rewrite DateUTC_in_range by done. pose proof (month_length_pos (Year t) (Month t)).
  rewrite AddDate_midnight by lia.
  rewrite DateUTC_next, month_step by done. done.
Qed.

Lemma daily t : PeriodFor t PeriodDaily = Ok (t / Day * Day, (t / Day + 1) * Day).
Proof.
  destruct (date_bounds t) as (Hm & Hd & He). unfold PeriodFor. rewrite decide_False, decide_True by done.
  cbv zeta. rewrite DateUTC_in_range by done. rewrite AddDate_midnight by done. rewrite Z.add_0_r, DateUTC_in_range by done.
  rewrite (days_linear _ _ (DayOfMonth t + 1)). rewrite (days_linear _ _ (DayOfMonth t)) in *.
  do 2 f_equal; lia.
Qed.

(** Every instant of a month has that month's date. *)
Lemma same_month t y m : 1 <= m <= 12 ->
  days_of_civil y m 1 <= t / Day < days_of_civil y m 1 + month_length y m ->
  Year t = y /\ Month t = m.
Proof.
  intros Hm Ht. assert (civil t = (y, m, t / Day - days_of_civil y m 1 + 1)) as E.
  { unfold civil. rewrite <- (civil_of_civil y m (t / Day - days_of_civil y m 1 + 1)) by lia.
    f_equal. rewrite days_linear. lia. }
  unfold Year, Month. by rewrite E.
Qed.

(** A period contains its instant, and is the period of every instant in it. *)
Lemma period_of now period start end_ : PeriodFor now period = Ok (start, end_) ->
  (period = PeriodMonthly \/ period = PeriodDaily) /\ start <= now < end_ /\
  forall t, start <= t < end_ -> PeriodFor t period = Ok (start, end_).
Proof.
  destruct (decide (period = PeriodMonthly)) as [->|Hm]; [|destruct (decide (period = PeriodDaily)) as [->|Hd]].
  - rewrite monthly. cbv zeta. intros [= <- <-]. destruct (date_bounds now) as (Hm & Hd & He).
    pose proof (day_spec now). rewrite days_linear in He.
    split; [by left|]. split; [change Day with 86400000000000 in *; lia|].
    intros t Ht. destruct (same_month t (Year now) (Month now) Hm) as [Ey Em].
    { pose proof (day_spec t). change Day with 86400000000000 in *. lia. }
    rewrite monthly, Ey, Em. done.
  - rewrite daily. intros [= <- <-]. pose proof (day_spec now). split; [by right|].
    split; [change Day with 86400000000000 in *; lia|]. intros t Ht. rewrite daily.
    pose proof (day_spec t). assert (t / Day = now / Day) as ->; [|done].
    change Day with 86400000000000 in *. lia.
  - unfold PeriodFor. by rewrite !decide_False by done.
Qed.

(** ** Properties *)

(** An accrual over [[now - d, now)] ends, and spreads the amount over the
    hour buckets the interval spans: every bucket receives the rate times the
    part of the interval inside its hour and no other bucket changes, the parts
    add up to [d], and the application receives the rate times [d]. *)
Theorem accrue_spreads l now app usd d :
  0 < d <= now -> fltb fzero usd = true ->
  exists l', Accrue l now app usd d = Some l' /\
    (forall h, l_hourly l' !! h =
      if 0 <? overlap (now - d) now h
      then Some (fadd (default fzero (l_hourly l !! h)) (fmul usd (Hours (overlap (now - d) now h))))
      else l_hourly l !! h) /\
    foldr Z.add 0 (map (overlap (now - d) now) (hoursOf (now - d) now)) = d /\
    (forall h, h ∉ hoursOf (now - d) now -> overlap (now - d) now h = 0) /\
    l_apps l' = <[app := fadd (default fzero (l_apps l !! app)) (fmul usd (Hours d))]> (l_apps l) /\
    l_confirmations l' = l_confirmations l.
Proof.
  intros Hd Hu. destruct (accrue_total l now app usd d) as [l' Hl]. exists l'. split; [done|].
  assert (fleb usd fzero = false) as Hu'.
  { unfold fltb, fleb, SFltb, SFleb in *. by destruct usd as [[]|[]| |[] ? ?]. }
  destruct (accrue_inv l now app usd d l' (proj1 Hd) Hu' ltac:(lia) Hl) as (H1 & H2 & _ & _ & H3 & _).
  split_and!; [done| | |done|done].
  - rewrite overlap_sum; lia.
  - intros h Hh. unfold hoursOf in Hh. rewrite elem_of_seqZ in Hh. unfold overlap.
    pose proof (Z.mul_div_le (now - d) Hour ltac:(done)).
    pose proof (Z.mul_succ_div_gt (now - d) Hour ltac:(done)).
    pose proof (Z.mul_div_le (now - 1) Hour ltac:(done)).
    pose proof (Z.mul_succ_div_gt (now - 1) Hour ltac:(done)).
    generalize dependent ((now - d) / Hour). generalize dependent ((now - 1) / Hour).
    change Hour with 3600000000000. intros; lia.
Qed.

Lemma accrue_spreads_witness :
  exists l', Accrue (mkLedger 0 (DateUTC 1970 2 1) ∅ ∅ [] []) (3 * Hour + 30 * Minute) "web"
      (of_int 2) (2 * Hour) = Some l' /\
    map (fun h => l_hourly l' !! h) [0; 1; 2; 3; 4]
      = [None; Some (of_int 1); Some (of_int 2); Some (of_int 1); None].
Proof.
  destruct (accrue_spreads (mkLedger 0 (DateUTC 1970 2 1) ∅ ∅ [] []) (3 * Hour + 30 * Minute) "web"
    (of_int 2) (2 * Hour) ltac:(done) eq_refl) as (l' & H1 & H2 & _).
  exists l'. split; [exact H1|]. cbn [map]. rewrite !H2. vm_compute. reflexivity.
Defined.

(** What can happen to a ledger.  Rates and bills are numbers, as anything read
    from JSON or computed from the rate card is. *)
Inductive reachable `{GoRange} : Ledger -> Prop :=
| reach_new start end_ l : NewLedger start end_ = Ok l -> reachable l
| reach_restore s l : numeric s -> Restore s = Ok l -> reachable l
| reach_accrue l now app usd d l' :
    reachable l -> d <= maxDuration -> valid usd -> is_nan usd = false -> is_inf usd = false ->
    Accrue l now app usd d = Some l' -> reachable l'
| reach_confirm l c o l' :
    reachable l -> valid (cf_USD c) -> is_nan (cf_USD c) = false ->
    Confirm l c = Ok (o, l') -> reachable l'.

(** C21: whatever is accrued, confirmed or restored, every recorded figure is a
    nonnegative number, and the confirmed windows are non-empty, lie inside the
    period, ascend and never meet: no hour is billed by two confirmations. *)
Theorem ledger_invariant `{GoRange} l : reachable l ->
  map_Forall (fun _ => amount) (l_hourly l) /\ map_Forall (fun _ => amount) (l_apps l) /\
  Forall (fun c => cf_Start c < cf_End c /\ l_periodStart l <= cf_Start c /\
                   cf_End c <= l_periodEnd l /\ amount (cf_USD c)) (l_confirmations l) /\
  StronglySorted precedes (l_confirmations l).
Proof.
  intros Hr. assert (ledger_wf l) as [Hp Hh Ha Hw Hs].
  { induction Hr as [s e l Hn|s l Hnum Hs|l now app usd d l' _ IH ? ? ? ? Ha|l c o l' _ IH ? ? Hc].
    - unfold NewLedger, After in Hn. destruct (Z.ltb_spec s e); [|done]. injection Hn as <-.
      split; cbn; [done|apply map_Forall_empty|apply map_Forall_empty|constructor|constructor].
    - by eapply restore_wf.
    - by eapply accrue_wf.
    - by eapply confirm_wf. }
  split_and!; try done. eapply Forall_impl; [exact Hw|]. intros c [? [? ?] ?]. done.
Qed.

(** Three metered hours of one application at $2, and bills for the first two. *)
Definition exampleLedger : Ledger :=
  mkLedger 0 (DateUTC 1970 2 1) (<[0 := of_int 2]> (<[1 := of_int 2]> {[2 := of_int 2]}))
    {["web"%string := of_int 6]} [] [].

Definition billed (usd : Z) : Confirmation := mkConfirmation 0 (2 * Hour) (of_int usd) (4 * Hour).

Lemma int_amount z : 0 < z < 2 ^ 53 -> amount (of_int z).
Proof. intros Hz. destruct (of_int_exact z Hz) as (m & e & -> & Hc & _). done. Qed.

Lemma exampleLedger_wf : ledger_wf exampleLedger.
Proof.
  split; cbn [exampleLedger l_periodStart l_periodEnd l_hourly l_apps l_confirmations].
  - reflexivity.
  - repeat (apply map_Forall_insert_2; [by apply int_amount|]). apply map_Forall_empty.
  - apply map_Forall_singleton. by apply int_amount.
  - constructor.
  - constructor.
Qed.

Lemma exampleLedger_reachable `{GoRange} : reachable exampleLedger.
Proof.
  refine (reach_accrue (mkLedger 0 (DateUTC 1970 2 1) ∅ ∅ [] []) (3 * Hour) "web" (of_int 2) (3 * Hour)
    exampleLedger (reach_new 0 (DateUTC 1970 2 1) _ eq_refl) _ _ eq_refl eq_refl _).
  - done.
  - apply bounded_canonical. reflexivity.
  - vm_compute. reflexivity.
Qed.

Lemma ledger_invariant_witness :
  exists l', Confirm exampleLedger (billed 3) = Ok (None, l') /\
    StronglySorted precedes (l_confirmations l').
Proof.
  destruct (Confirm exampleLedger (billed 3)) as [[[d|] l']|e] eqn:Ec;
    [exfalso; vm_compute in Ec; discriminate Ec| |exfalso; vm_compute in Ec; discriminate Ec].
  exists l'. split; [reflexivity|]. apply (ledger_invariant l').
  refine (reach_confirm exampleLedger (billed 3) None l' exampleLedger_reachable _ eq_refl Ec).
  apply bounded_canonical. reflexivity.
Defined.

(** A confirmation is refused exactly when its amount is negative, its
    window is empty, leaves the period, or meets a recorded one, in that order;
    otherwise it is recorded, changes no bucket, and is reported as a
    discrepancy exactly when the model expected something and the ratio is
    outside the clamp. *)
Theorem confirm_outcome `{GoRange} l c :
  match Confirm l c with
  | Err ErrAmountNegative => fltb (cf_USD c) fzero = true
  | Err ErrWindowEmpty => fltb (cf_USD c) fzero = false /\ cf_End c <= cf_Start c
  | Err ErrWindowOutsidePeriod => fltb (cf_USD c) fzero = false /\ cf_Start c < cf_End c /\
      (cf_Start c < l_periodStart l \/ l_periodEnd l < cf_End c)
  | Err ErrWindowOverlaps => fltb (cf_USD c) fzero = false /\ cf_Start c < cf_End c /\
      l_periodStart l <= cf_Start c /\ cf_End c <= l_periodEnd l /\
      exists existing, existing ∈ l_confirmations l /\
        cf_Start c < cf_End existing /\ cf_Start existing < cf_End c
  | Ok (o, l') =>
      fltb (cf_USD c) fzero = false /\ cf_Start c < cf_End c /\
      l_periodStart l <= cf_Start c /\ cf_End c <= l_periodEnd l /\
      (forall existing, existing ∈ l_confirmations l ->
        cf_End existing <= cf_Start c \/ cf_End c <= cf_Start existing) /\
      l_confirmations l' ≡ₚ c :: l_confirmations l /\
      l_hourly l' = l_hourly l /\ l_apps l' = l_apps l /\
      l_discrepancies l' = l_discrepancies l ++ option_list o /\
      o = flag l c
  end.
Proof.
  destruct (Confirm l c) as [[o l']|e] eqn:E.
  - destruct (confirm_ok _ _ _ _ E) as (H1 & H2 & H3 & H4 & H5 & _ & _ & E3 & E4 & E5 & E6 & E7).
    split_and!; try done.
    + intros x Hx. apply overlaps_false. apply not_true_iff_false. intros Ho.
      apply not_true_iff_false in H5. apply H5, existsb_exists. exists x. by rewrite <- list_elem_of_In.
    + rewrite E5, sort_slice_perm. by rewrite Permutation_app_comm.
  - apply confirm_err in E. by destruct e.
Qed.

(** The guard never counts less than the provider billed: the confirmed
    total is at least every confirmed bill, and where a bill and the model
    disagree beyond the clamp it is at least what the model expected too, so a
    feed that reports too little cannot loosen the guard.  The total enforced is
    at least the confirmed part. *)
Theorem accrued_conservative `{GoRange} l c :
  ledger_wf l -> c ∈ l_confirmations l ->
  let expected := expectedIn l (cf_Start c) (cf_End c) in
  let a := Accrued l in
  fle (cf_USD c) (ac_Confirmed a) /\
  (is_Some (flag l c) -> fle expected (ac_Confirmed a)) /\
  (amount (ac_Expected a) -> fle (ac_Confirmed a) (ac_Total a)) /\
  ac_HasConfirmation a = true.
Proof.
  intros Hwf Hc expected a.
  destruct (confirmed_ge l (l_confirmations l) Hwf ltac:(done)) as [Ha Hge].
  destruct (counted_amount l c Hwf Hc) as (_ & H1 & H2). cbv zeta in H2. fold expected in H2.
  specialize (Hge _ Hc). change (t_confirmed (runTotals l (l_confirmations l))) with (ac_Confirmed a) in *.
  split_and!.
  - by eapply fle_trans.
  - intros Hf. eapply fle_trans; [apply H2|exact Hge].
    unfold flag in Hf. fold expected in Hf. destruct (negb _ && _) eqn:E; [|by destruct Hf].
    apply andb_true_iff in E as [E1 E2]. rewrite E2, andb_true_r.
    destruct (expectedIn_amount l (cf_Start c) (cf_End c) (lw_hourly _ Hwf)) as [[_ Ne] _].
    fold expected in Ne. destruct (fle_not_nan _ _ Ne) as [_ Nn].
    rewrite fltb_negb by done. exact E1.
  - intros He. by apply amount_add.
  - unfold a, Accrued. cbn. destruct (l_confirmations l); [by apply not_elem_of_nil in Hc|done].
Qed.

(** A bill far below what two metered hours cost counts as what they cost. *)
(** With nothing confirmed, the total enforced is the metered model's sum
    for the period, uncorrected, and is reported as not confirmed. *)
Theorem accrued_metered `{GoRange} l :
  ledger_wf l -> l_confirmations l = [] ->
  let a := Accrued l in
  ac_Total a = expectedIn l (l_periodStart l) (l_periodEnd l) /\
  ac_Expected a = ac_Total a /\ ac_Confirmed a = fzero /\
  ac_Calibration a = of_int 1 /\ ac_HasConfirmation a = false.
Proof.
  intros Hwf Hc. unfold Accrued. rewrite Hc. cbn [fold_left t_confirmed t_expected t_from t_to t_through].
  change (fltb fzero fzero) with false. cbn [ac_Total ac_Expected ac_Confirmed ac_Calibration ac_HasConfirmation].
  destruct (expectedIn_amount l (l_periodStart l) (l_periodEnd l) (lw_hourly _ Hwf)) as [[Vx Nx] Hz].
  set (x := expectedIn _ _ _) in *.
  assert (fsub x fzero = x) as -> by (destruct (fnonneg_inv x Nx) as [[[] E]|[E|(? & ? & E)]]; rewrite E in *; done).
  rewrite amount_not_negative, fmul_one by done.
  split_and!; try done.
  all: destruct (fnonneg_inv x Nx) as [[[] E]|[E|(? & ? & E)]]; rewrite E in *; done.
Qed.

(** A checkpointed ledger restores to the same period, buckets,
    applications and confirmations, so to the same figures; the discrepancies
    are those the current buckets give. *)
Theorem checkpoint_roundtrip `{GoRange} l : ledger_wf l -> hours_fit l ->
  exists l', Restore (SnapshotOf l) = Ok l' /\
    Period l' = Period l /\ l_hourly l' = l_hourly l /\ l_apps l' = l_apps l /\
    l_confirmations l' = l_confirmations l /\
    l_discrepancies l' = omap (flag l) (l_confirmations l) /\
    ac_Total (Accrued l') = ac_Total (Accrued l) /\
    ac_Confirmed (Accrued l') = ac_Confirmed (Accrued l).
Proof.
  intros Hwf Hfit. rewrite restore_snapshot by done. eexists. split; [done|]. by split_and!.
Qed.

Lemma checkpoint_roundtrip_witness :
  exists l', Restore (SnapshotOf exampleLedger) = Ok l' /\ l_hourly l' = l_hourly exampleLedger.
Proof.
  assert (hours_fit exampleLedger) as Hfit.
  { intros h [v Hv]. cbn in Hv.
    repeat (apply lookup_insert_Some in Hv as [[<- _]|[_ Hv]]; [lia|]).
    apply lookup_singleton_Some in Hv as [<- _]. lia. }
  destruct (checkpoint_roundtrip exampleLedger exampleLedger_wf Hfit) as (l' & H1 & _ & H2 & _).
  exists l'. split; [exact H1|exact H2].
Defined.

(** An accounting period is the half-open calendar month or day of the
    instant, and every instant inside it gets the same period: periods neither
    overlap nor leave a gap.  Any other period name is an error. *)
Theorem period_partition now period :
  match PeriodFor now period with
  | Ok (start, end_) => (period = PeriodMonthly \/ period = PeriodDaily) /\ start <= now < end_ /\
      forall t, start <= t < end_ -> PeriodFor t period = Ok (start, end_)
  | Err p => p = period /\ period <> PeriodMonthly /\ period <> PeriodDaily
  end.
Proof.
  destruct (PeriodFor now period) as [[start end_]|p] eqn:E; [by apply period_of|].
  unfold PeriodFor in E. repeat case_decide; try done. by injection E as <-.
Qed.
