(* ===== verification/Limit.v ===== *)
(** * The cost limit ([technocore/cost/limit.go])

    Where an accrued total stands against the instance's limit, and what the
    current burn rate projects. *)

From Stdlib Require Import SpecFloat.
From S2P Require Import Prelude Float64 Rounding GoTime.

Inductive Level := LevelOK | LevelWarn50 | LevelWarn75 | LevelWarn90 | LevelReached.

#[export] Instance Level_eq_dec : EqDecision Level.
Proof. solve_decision. Defined.

Definition LevelString (l : Level) : string :=
  match l with
  | LevelWarn50 => "50%"
  | LevelWarn75 => "75%"
  | LevelWarn90 => "90%"
  | LevelReached => "limit reached"
  | LevelOK => "ok"
  end.

Definition Acts (l : Level) : bool := bool_decide (l = LevelReached).

Record Assessment := mkAssessment {
  as_Total : float64;
  as_Limit : float64;
  as_Fraction : float64;
  as_Level : Level;
  as_Projected : float64;
  as_ProjectedOver : bool;
  as_ProjectedAt : Time
}.

Definition levelOf (fraction : float64) : Level :=
  if fleb (of_int 1) fraction then LevelReached
  else if fleb (flit 9 10) fraction then LevelWarn90
  else if fleb (flit 75 100) fraction then LevelWarn75
  else if fleb (flit 5 10) fraction then LevelWarn50
  else LevelOK.

Definition Assess (total limit ratePerHour : float64) (now periodEnd : Time) : Assessment :=
  if fleb limit fzero then mkAssessment total limit fzero LevelOK fzero false zero_time
  else
    let fraction := fdiv total limit in
    let level := levelOf fraction in
    let remaining := Sub periodEnd now in
    if (remaining <=? 0) || fleb ratePerHour fzero
    then mkAssessment total limit fraction level total false zero_time
    else
      let projected := fadd total (fmul ratePerHour (Hours remaining)) in
      if fltb limit projected && negb (bool_decide (level = LevelReached)) then
        let hoursToLimit := fdiv (fsub limit total) ratePerHour in
        mkAssessment total limit fraction level projected true
          (now + int_of (fmul hoursToLimit (of_int Hour)))
      else mkAssessment total limit fraction level projected false zero_time.

(** ** Levels *)

Definition level_rank (l : Level) : Z :=
  match l with
  | LevelOK => 0 | LevelWarn50 => 1 | LevelWarn75 => 2 | LevelWarn90 => 3 | LevelReached => 4
  end.

Lemma levelOf_reached f : levelOf f = LevelReached <-> fleb (of_int 1) f = true.
Proof. unfold levelOf. repeat case_match; done. Qed.

Lemma assess_level total limit rate now e :
  fleb limit fzero = false -> as_Level (Assess total limit rate now e) = levelOf (fdiv total limit).
Proof. intros Hl. unfold Assess. rewrite Hl. cbv zeta. repeat case_match; done. Qed.

(** A positive finite limit and a nonnegative total. *)
Lemma fraction_reached total limit :
  valid total -> fnonneg total -> valid limit -> fltb fzero limit = true -> is_inf limit = false ->
  fleb (of_int 1) (fdiv total limit) = fleb limit total.
Proof.
  intros Vt Nt Vl Pl Il. pose proof (fltb_fle _ _ Pl) as Nl.
  destruct (fnonneg_inv limit Nl) as [[s ->]|[->|(ml & el & ->)]]; [by destruct s|done|].
  destruct (fnonneg_inv total Nt) as [[s ->]|[->|(mt & et & ->)]].
  - by destruct s.
  - done.
  - by apply fdiv_ge_one.
Qed.

Lemma levelOf_mono x y : fle x y -> level_rank (levelOf x) <= level_rank (levelOf y).
Proof.
  intros Hxy.
  assert (forall k, fleb k x = true -> fleb k y = true) as Hk.
  { intros k Hk%fleb_fle. apply fleb_fle. by eapply fle_trans. }
  unfold levelOf.
  destruct (fleb (of_int 1) x) eqn:E1; [by rewrite (Hk _ E1)|].
  destruct (fleb (flit 9 10) x) eqn:E2; [rewrite (Hk _ E2); by case_match|].
  destruct (fleb (flit 75 100) x) eqn:E3; [rewrite (Hk _ E3); by repeat case_match|].
  destruct (fleb (flit 5 10) x) eqn:E4; [rewrite (Hk _ E4); by repeat case_match|].
  by repeat case_match.
Qed.

(** ** Properties *)

(** Protective action is authorised exactly when the accrued total has
    reached the limit, rounding of the fraction included: no total below the
    limit, however close, and no projection ever acts. *)
Theorem acts_exactly_at_limit total limit rate now periodEnd :
  valid total -> fnonneg total -> valid limit -> fltb fzero limit = true -> is_inf limit = false ->
  let a := Assess total limit rate now periodEnd in
  Acts (as_Level a) = fleb limit total /\
  (as_ProjectedOver a = true -> Acts (as_Level a) = false).
Proof.
  intros Vt Nt Vl Pl Il a.
  assert (fleb limit fzero = false) as Hl.
  { unfold fltb, fleb, SFltb, SFleb in *. by destruct limit as [[]|[]| |[] ? ?]. }
  assert (Acts (as_Level a) = fleb limit total) as Ha.
  { unfold a. rewrite assess_level by done. rewrite <- fraction_reached by done.
    unfold Acts. apply eq_true_iff_eq. rewrite bool_decide_eq_true. apply levelOf_reached. }
  split; [done|]. unfold a, Assess, Acts. rewrite Hl. cbv zeta.
  destruct (_ || _); [done|]. destruct (fltb limit _ && _) eqn:E; [|done].
  intros _. apply andb_true_iff in E as [_ E]. by apply negb_true_iff in E.
Qed.

(** A projection over the limit with the total below it: a warning only. *)
Lemma acts_exactly_at_limit_witness :
  let a := Assess (of_int 99) (of_int 100) (of_int 50) 0 (2 * Hour) in
  Acts (as_Level a) = false /\ as_ProjectedOver a = true /\ as_Level a = LevelWarn90 /\
  Acts (as_Level (Assess (of_int 100) (of_int 100) fzero 0 Hour)) = true.
Proof.
  destruct (acts_exactly_at_limit (of_int 99) (of_int 100) (of_int 50) 0 (2 * Hour)) as [H1 _];
    [apply bounded_canonical; reflexivity|reflexivity|apply bounded_canonical; reflexivity|reflexivity|reflexivity|].
  split; [rewrite H1; vm_compute; reflexivity|]. split_and!; vm_compute; reflexivity.
Defined.

(** An absent limit yields no level above ok and no projection, whatever
    the total, so a missing limit can never stop anything. *)
Theorem no_limit_never_acts total limit rate now periodEnd :
  fleb limit fzero = true ->
  let a := Assess total limit rate now periodEnd in
  as_Level a = LevelOK /\ Acts (as_Level a) = false /\ as_ProjectedOver a = false /\
  IsZero (as_ProjectedAt a) = true.
Proof. intros Hl. unfold Assess. rewrite Hl. by split_and!. Qed.

(** The level follows the fraction spent: it never falls as the fraction
    grows, and each warning is given from its threshold on. *)
Theorem levels_monotone total total' limit rate rate' now now' periodEnd :
  fleb limit fzero = false -> fle (fdiv total limit) (fdiv total' limit) ->
  level_rank (as_Level (Assess total limit rate now periodEnd)) <=
  level_rank (as_Level (Assess total' limit rate' now' periodEnd)).
Proof. intros Hl Hf. rewrite !assess_level by done. by apply levelOf_mono. Qed.
