(* ===== verification/Adapt.v ===== *)
(** * Right-sizing advice ([technocore/adapt/adapt.go])

    Pure arithmetic from a usage summary and a current reservation to what the
    reservation should be, in the program's own [float64] steps. *)

From S2P Require Import Prelude Float64 Rounding GoTime Strconv Histogram Series Profiles Pricing.

Definition DefaultCPUHeadroom : float64 := flit 13 10.
Definition DefaultMemHeadroom : float64 := flit 15 10.
Definition DefaultDeadband : float64 := flit 25 100.
Definition DefaultMaxStep : float64 := of_int 2.
Definition MinCPUMilli : Z := BurstingMinCPUMilli.
Definition MinMemMiB : Z := 64.

Record Config := mkConfig {
  c_CPUHeadroom : float64;
  c_MemHeadroom : float64;
  c_Deadband : float64;
  c_MaxStep : float64;
  c_MinCPUMilli : Z;
  c_MinMemMiB : Z
}.

(** Go's zero value, which stands for the defaults. *)
Definition zeroConfig : Config := mkConfig fzero fzero fzero fzero 0 0.

Definition withDefaults (c : Config) : Config :=
  mkConfig
    (if fleb (c_CPUHeadroom c) fzero then DefaultCPUHeadroom else c_CPUHeadroom c)
    (if fleb (c_MemHeadroom c) fzero then DefaultMemHeadroom else c_MemHeadroom c)
    (if fleb (c_Deadband c) fzero then DefaultDeadband else c_Deadband c)
    (if fleb (c_MaxStep c) (of_int 1) then DefaultMaxStep else c_MaxStep c)
    (if c_MinCPUMilli c <=? 0 then MinCPUMilli else c_MinCPUMilli c)
    (if c_MinMemMiB c <=? 0 then MinMemMiB else c_MinMemMiB c).

Record Advice := mkAdvice {
  a_App : string;
  a_CurrentCPUMilli : Z;
  a_CurrentMemMiB : Z;
  a_CPUMilli : Z;
  a_MemMiB : Z;
  a_Act : bool;
  a_Hold : string;
  a_Stepped : bool
}.

Definition MonthlyDeltaUSD (a : Advice) : float64 :=
  fsub (PodMonthlyUSD (a_CPUMilli a) (a_MemMiB a))
       (PodMonthlyUSD (a_CurrentCPUMilli a) (a_CurrentMemMiB a)).

Definition worthwhileUSD : float64 := flit 1 100.

Definition scale (observed : Z) (headroom : float64) (floor : Z) : Z :=
  let v := int_of (fceil (fmul (of_int observed) headroom)) in
  Z.max v floor.

Definition step (current target : Z) (maxStep : float64) (floor : Z) : Z * bool :=
  let upper := int_of (fceil (fmul (of_int current) maxStep)) in
  let lower := Z.max (int_of (fceil (fdiv (of_int current) maxStep))) floor in
  if upper <? target then (upper, true)
  else if target <? lower then (lower, true)
  else (target, false).

Definition outsideDeadband (current target : Z) (band : float64) : bool :=
  if current <=? 0 then 0 <? target
  else fltb band (fdiv (fabs (of_int (target - current))) (of_int current)).

Definition Recommend (s : Summary) (cfg : Config) : Advice :=
  let cfg := withDefaults cfg in
  let curCPU := su_RequestCPUMilli s in
  let curMem := su_RequestMemMiB s in
  let hold why := mkAdvice (su_App s) curCPU curMem curCPU curMem false why false in
  let cpuDay := w_Day (su_CPU s) in
  let memDay := w_Day (su_Mem s) in
  if (curCPU <=? 0) || (curMem <=? 0) then
    hold "the current reservation is unknown, so there is nothing to change from"
  else if Thin cpuDay || Thin memDay then
    hold ("only " +:+ FormatInt (Z.min (sta_Samples cpuDay) (sta_Samples memDay)) +:+
          " readings so far; " +:+ FormatInt MinSamples +:+
          " are needed before sizing anything from them")
  else
    let cpu := scale (sta_P95 cpuDay) (c_CPUHeadroom cfg) (c_MinCPUMilli cfg) in
    let mem := scale (sta_Peak memDay) (c_MemHeadroom cfg) (c_MinMemMiB cfg) in
    let '(cpu, cpuStepped) := step curCPU cpu (c_MaxStep cfg) (c_MinCPUMilli cfg) in
    let '(mem, memStepped) := step curMem mem (c_MaxStep cfg) (c_MinMemMiB cfg) in
    let cpuMoves := outsideDeadband curCPU cpu (c_Deadband cfg) in
    let memMoves := outsideDeadband curMem mem (c_Deadband cfg) in
    if negb cpuMoves && negb memMoves then
      hold "the reservation is already within a quarter of what the workload uses"
    else
      let a := mkAdvice (su_App s) curCPU curMem cpu mem true "" (cpuStepped || memStepped) in
      if fltb (fabs (MonthlyDeltaUSD a)) worthwhileUSD then
        hold "changing this reservation would not change the bill; it is already at the billing floor"
      else a.

(** ** One adjustment *)

(** With the default step, the clamp is the integer interval from half (rounded
    up, floored) to double the current reservation. *)
Lemma step_default current target floor :
  0 < current < 2 ^ 52 ->
  step current target DefaultMaxStep floor =
    let upper := 2 * current in
    let lower := Z.max ((current + 1) / 2) floor in
    if upper <? target then (upper, true)
    else if target <? lower then (lower, true) else (target, false).
Proof.
  intros Hc. unfold step, DefaultMaxStep. fold ftwo. by rewrite ceil_double, ceil_half.
Qed.

Lemma step_default_bounds current target floor :
  0 < current < 2 ^ 52 ->
  let r := (step current target DefaultMaxStep floor).1 in
  r <= Z.max (2 * current) floor /\ (current + 1) / 2 <= r /\
  (floor <= current -> floor <= target -> floor <= r) /\
  (target <= r \/ r = 2 * current).
Proof.
  intros Hc r. unfold r. rewrite step_default by done. cbv zeta.
  pose proof (Z.div_mod (current + 1) 2 ltac:(lia)).
  pose proof (Z.mod_pos_bound (current + 1) 2 ltac:(lia)).
  destruct (Z.ltb_spec (2 * current) target); [cbn; lia|].
  destruct (Z.ltb_spec target (Z.max ((current + 1) / 2) floor)); cbn; lia.
Qed.

(** Headroom never sizes below the observation. *)
Lemma scale_default_ge observed headroom floor :
  headroom = DefaultCPUHeadroom \/ headroom = DefaultMemHeadroom ->
  0 <= observed <= MaxSample -> 0 <= floor ->
  observed <= scale observed headroom floor.
Proof.
  intros Hh Ho Hf. unfold scale.
  destruct (Z.eq_dec observed 0) as [->|Hne]; [lia|].
  change MaxSample with 16777216 in Ho.
  assert (valid headroom /\ fle fone headroom /\ fle headroom ftwo) as (Vh & H1 & H2).
  { destruct Hh as [->| ->]; (split; [|split]); try (apply fleb_fle; vm_compute; reflexivity);
      apply bounded_canonical; vm_compute; reflexivity. }
  pose proof (ceil_scale_ge observed headroom ltac:(lia) Vh H1 H2). lia.
Qed.

(** ** What a recommendation may say *)

(** Advice that does not act carries the current reservation, says why, and
    claims no step; advice that acts gives no reason to hold. *)
Lemma recommend_hold s cfg :
  let a := Recommend s cfg in
  a_CurrentCPUMilli a = su_RequestCPUMilli s /\ a_CurrentMemMiB a = su_RequestMemMiB s /\
  if a_Act a then a_Hold a = "" else
    a_CPUMilli a = su_RequestCPUMilli s /\ a_MemMiB a = su_RequestMemMiB s /\
    a_Stepped a = false /\ a_Hold a <> "".
Proof.
  unfold Recommend. destruct (_ || _); [done|]. destruct (_ || _); [done|].
  destruct (step _ _ _ _) as [cpu cs]. destruct (step _ _ _ _) as [mem ms].
  destruct (_ && _); [done|]. cbv zeta. by case_match.
Qed.

(** The path of a recommendation that acts. *)
Lemma recommend_act_inv s cfg :
  let c := withDefaults cfg in let a := Recommend s cfg in
  a_Act a = true ->
  0 < su_RequestCPUMilli s /\ 0 < su_RequestMemMiB s /\
  Thin (w_Day (su_CPU s)) = false /\ Thin (w_Day (su_Mem s)) = false /\
  a_CPUMilli a = (step (su_RequestCPUMilli s)
    (scale (sta_P95 (w_Day (su_CPU s))) (c_CPUHeadroom c) (c_MinCPUMilli c))
    (c_MaxStep c) (c_MinCPUMilli c)).1 /\
  a_MemMiB a = (step (su_RequestMemMiB s)
    (scale (sta_Peak (w_Day (su_Mem s))) (c_MemHeadroom c) (c_MinMemMiB c))
    (c_MaxStep c) (c_MinMemMiB c)).1 /\
  (outsideDeadband (su_RequestCPUMilli s) (a_CPUMilli a) (c_Deadband c) = true \/
   outsideDeadband (su_RequestMemMiB s) (a_MemMiB a) (c_Deadband c) = true) /\
  fltb (fabs (MonthlyDeltaUSD a)) worthwhileUSD = false.
Proof.
  intros c. unfold Recommend. fold c.
  destruct ((su_RequestCPUMilli s <=? 0) || (su_RequestMemMiB s <=? 0)) eqn:E1; [done|].
  destruct (Thin (w_Day (su_CPU s)) || Thin (w_Day (su_Mem s))) eqn:E2; [done|].
  destruct (step (su_RequestCPUMilli s) _ _ _) as [cpu cs] eqn:Ec.
  destruct (step (su_RequestMemMiB s) _ _ _) as [mem ms] eqn:Em.
  destruct (negb _ && negb _) eqn:E3; [done|]. cbv zeta.
  destruct (fltb _ worthwhileUSD) eqn:E4; [done|]. cbn [a_Act a_CPUMilli a_MemMiB]. intros _.
  apply orb_false_iff in E1 as [? ?], E2 as [? ?].
  apply andb_false_iff in E3. rewrite !negb_false_iff in E3.
  split_and!; try done; lia.
Qed.

Section default_config.
Variable s : Summary.
Hypothesis cpu_range : 0 <= sta_P95 (w_Day (su_CPU s)) <= MaxSample.
Hypothesis mem_range : 0 <= sta_Peak (w_Day (su_Mem s)) <= MaxSample.
Hypothesis request_range : su_RequestCPUMilli s < 2 ^ 52 /\ su_RequestMemMiB s < 2 ^ 52.

Lemma recommend_default_bounds :
  let a := Recommend s zeroConfig in
  let c := su_RequestCPUMilli s in let m := su_RequestMemMiB s in
  a_Act a = true ->
  ((c + 1) / 2 <= a_CPUMilli a <= Z.max (2 * c) MinCPUMilli /\
   (sta_P95 (w_Day (su_CPU s)) <= a_CPUMilli a \/ a_CPUMilli a = 2 * c) /\
   (MinCPUMilli <= c -> MinCPUMilli <= a_CPUMilli a)) /\
  ((m + 1) / 2 <= a_MemMiB a <= Z.max (2 * m) MinMemMiB /\
   (sta_Peak (w_Day (su_Mem s)) <= a_MemMiB a \/ a_MemMiB a = 2 * m) /\
   (MinMemMiB <= m -> MinMemMiB <= a_MemMiB a)).
Proof.
  intros a c m Hact. destruct (recommend_act_inv s zeroConfig Hact)
    as (Hc & Hm & _ & _ & Ec & Em & _). fold a in Ec, Em.
  change (c_CPUHeadroom (withDefaults zeroConfig)) with DefaultCPUHeadroom in Ec.
  change (c_MemHeadroom (withDefaults zeroConfig)) with DefaultMemHeadroom in Em.
  change (c_MaxStep (withDefaults zeroConfig)) with DefaultMaxStep in Ec, Em.
  change (c_MinCPUMilli (withDefaults zeroConfig)) with MinCPUMilli in Ec.
  change (c_MinMemMiB (withDefaults zeroConfig)) with MinMemMiB in Em.
  pose proof (scale_default_ge (sta_P95 (w_Day (su_CPU s))) DefaultCPUHeadroom MinCPUMilli
    ltac:(by left) cpu_range ltac:(done)) as Sc.
  pose proof (scale_default_ge (sta_Peak (w_Day (su_Mem s))) DefaultMemHeadroom MinMemMiB
    ltac:(by right) mem_range ltac:(done)) as Sm.
  assert (MinCPUMilli <= scale (sta_P95 (w_Day (su_CPU s))) DefaultCPUHeadroom MinCPUMilli)
    by (unfold scale; lia).
  assert (MinMemMiB <= scale (sta_Peak (w_Day (su_Mem s))) DefaultMemHeadroom MinMemMiB)
    by (unfold scale; lia).
  pose proof (step_default_bounds c
    (scale (sta_P95 (w_Day (su_CPU s))) DefaultCPUHeadroom MinCPUMilli) MinCPUMilli ltac:(lia)) as Bc.
  pose proof (step_default_bounds m
    (scale (sta_Peak (w_Day (su_Mem s))) DefaultMemHeadroom MinMemMiB) MinMemMiB ltac:(lia)) as Bm.
  cbv zeta in Bc, Bm. fold c in Ec. fold m in Em. rewrite <- Ec in Bc. rewrite <- Em in Bm.
  split; (split; [lia|split; [lia|]]); intros; [apply Bc|apply Bm]; done.
Qed.

End default_config.

(** A summary used by the examples: steady readings below a given reservation. *)
Definition steady (n p95 peak : Z) : Windows :=
  let st := mkStat n (of_int p95) p95 p95 peak in mkWindows st st.

Definition sampleSummary (reqCPU reqMem p95 peak : Z) : Summary :=
  mkSummary "web" 1 0 24 reqCPU reqMem (steady 200 p95 p95) (steady 200 peak peak).

Example recommend_shrinks :
  Recommend (sampleSummary 1000 1024 100 200) zeroConfig =
  mkAdvice "web" 1000 1024 500 512 true "" true.
Proof. vm_compute. reflexivity. Qed.

Example recommend_thin :
  a_Hold (Recommend (mkSummary "web" 1 0 24 1000 1024 (steady 7 10 10) (steady 90 10 10)) zeroConfig)
  = "only 7 readings so far; 120 are needed before sizing anything from them".
Proof. vm_compute. reflexivity. Qed.

Example recommend_billing_floor :
  a_Act (Recommend (sampleSummary 50 52 1 10) zeroConfig) = false.
Proof. vm_compute. reflexivity. Qed.

Example recommend_below_floor :
  Recommend (sampleSummary 10 100 5 300) zeroConfig =
  mkAdvice "web" 10 100 20 200 true "" true.
Proof. vm_compute. reflexivity. Qed.

(** ** Properties *)

(** With the program's defaults, advice to act at most doubles and at most
    halves (rounded up) each reservation, up to the floor; it never asks for less
    than what was observed except where doubling is still too little, and never
    takes a reservation that is at or above a floor below it. *)
Theorem advice_is_bounded s :
  0 <= sta_P95 (w_Day (su_CPU s)) <= MaxSample -> 0 <= sta_Peak (w_Day (su_Mem s)) <= MaxSample ->
  su_RequestCPUMilli s < 2 ^ 52 -> su_RequestMemMiB s < 2 ^ 52 ->
  let a := Recommend s zeroConfig in
  let c := su_RequestCPUMilli s in let m := su_RequestMemMiB s in
  a_Act a = true ->
  ((c + 1) / 2 <= a_CPUMilli a <= Z.max (2 * c) MinCPUMilli /\
   (sta_P95 (w_Day (su_CPU s)) <= a_CPUMilli a \/ a_CPUMilli a = 2 * c) /\
   (MinCPUMilli <= c -> MinCPUMilli <= a_CPUMilli a)) /\
  ((m + 1) / 2 <= a_MemMiB a <= Z.max (2 * m) MinMemMiB /\
   (sta_Peak (w_Day (su_Mem s)) <= a_MemMiB a \/ a_MemMiB a = 2 * m) /\
   (MinMemMiB <= m -> MinMemMiB <= a_MemMiB a)).
Proof. intros Hc Hm Hrc Hrm. by apply recommend_default_bounds. Qed.

(** Advice that holds names its reason and leaves the reservation exactly
    as it is; too few readings or an unknown reservation always hold. *)
Theorem holding_changes_nothing s cfg :
  let a := Recommend s cfg in
  (a_Act a = false -> a_CPUMilli a = su_RequestCPUMilli s /\ a_MemMiB a = su_RequestMemMiB s /\
     a_Stepped a = false /\ a_Hold a <> "") /\
  (a_Act a = true -> a_Hold a = "") /\
  (Thin (w_Day (su_CPU s)) = true \/ Thin (w_Day (su_Mem s)) = true \/
   su_RequestCPUMilli s <= 0 \/ su_RequestMemMiB s <= 0 -> a_Act a = false).
Proof.
  intros a. pose proof (recommend_hold s cfg) as Hh. fold a in Hh. destruct Hh as (_ & _ & Hh).
  split; [intros E; by rewrite E in Hh|]. split; [intros E; by rewrite E in Hh|].
  intros Hbad. destruct (a_Act a) eqn:E; [|done]. exfalso.
  destruct (recommend_act_inv s cfg E) as (Hc & Hm & Tc & Tm & _).
  destruct Hbad as [?|[?|[?|?]]]; [congruence|congruence|lia|lia].
Qed.

(** The floors bound what a reservation may shrink to, not what it may be
    raised to: from a reservation below the floor, the step limit stops the raise
    short of it, and the advice acts on a target below the floor. *)
Theorem step_stops_short_of_the_floor :
  let s := sampleSummary 10 100 5 300 in
  let a := Recommend s zeroConfig in
  a_Act a = true /\ a_CPUMilli a = 20 /\ a_CPUMilli a < MinCPUMilli.
Proof. vm_compute. split_and!; reflexivity. Qed.
