(* ===== verification/Kernel.v ===== *)
(** * The reconcile loop ([technocore/kernel/reconcile.go], [namespaces.go],
    [confirmations.go], [usage.go])

    One tick: roll the period, take in confirmations, meter the pods, attribute
    them to deployments, sample usage, accrue the elapsed interval, assess.  The
    tick runs in [eff] on the reconciler and the cluster, so a tick that fails
    half way leaves exactly what the source leaves. *)

From Stdlib Require Import Ascii.
From S2P Require Import Prelude Effect Float64 GoTime Calendar Strconv GoStrings Histogram Series Profiles.
From S2P Require Import Pricing Tier Quantity Kube Ledger Limit Adapt.

(** ** The cluster, as the loop uses it *)

(** Errors are their messages, which is all the kernel reads of them. *)
Class Cluster (W : Type) := {
  ListPods : string -> string -> eff W string (list Pod);
  ListDeployments : string -> string -> eff W string (list Deployment);
  ListPodMetrics : string -> string -> eff W string (list PodMetrics);
  Scale : string -> string -> Z -> eff W string unit;
  SetRequests : string -> string -> string -> Z -> Z -> gmap string string -> eff W string (Z * Z)
}.

(** ** Data *)

Record Workload := mkWorkload {
  wl_Namespace : string;
  wl_Name : string;
  wl_App : string;
  wl_Tier : Tier;
  wl_Labels : gmap string string;
  wl_Containers : list string;
  wl_CPUMilli : Z;
  wl_MemMiB : Z;
  wl_HourlyUSD : float64
}.

Record Target := mkTarget {
  tg_Namespace : string;
  tg_Name : string;
  tg_Tier : Tier;
  tg_Replicas : Z;
  tg_Pods : Z;
  tg_HourlyUSD : float64;
  tg_App : string;
  tg_Containers : list string;
  tg_CPUMilli : Z;
  tg_MemMiB : Z;
  tg_Annotations : gmap string string
}.

(** One workload's advice, resolved against the cluster ([Advice] is embedded). *)
Record Adaptation := mkAdaptation {
  ad_Advice : Advice;
  ad_Namespace : string;
  ad_Deployment : string;
  ad_Container : string;
  ad_Replicas : Z;
  ad_Stored : bool;
  ad_Overridden : bool;
  ad_AskedCPUMilli : Z;
  ad_AskedMemMiB : Z
}.

(** What could not be measured: a namespace, as its message, or one reading, as
    its identity and the error it did not parse with (the source joins the two
    into a message). *)
Inductive unmeasured :=
| Unmeasured (message : string)
| Unparsed (id : string) (e : usage_error).

Record Observation := mkObservation {
  ob_At : Time;
  ob_Pods : Z;
  ob_Unclassified : Z;
  ob_RateHourlyUSD : float64;
  ob_Level : string;
  ob_Limit : float64;
  ob_Incomplete : bool;
  ob_Unreachable : list string
}.

Definition zeroObservation : Observation :=
  mkObservation zero_time 0 0 fzero "" fzero false [].

Record Report := mkReport {
  rp_At : Time;
  rp_Since : Time;
  rp_Billed : Duration;
  rp_Rolled : bool;
  rp_Metered : list string;
  rp_Unreachable : list string;
  rp_ConfirmationsApplied : Z;
  rp_ConfirmationsRefused : Z;
  rp_Reconstructed : bool;
  rp_Workloads : list Workload;
  rp_Unclassified : Z;
  rp_RateHourlyUSD : float64;
  rp_RateByTier : gmap string float64;
  rp_RateByApp : gmap string float64;
  rp_Accrual : Accrual;
  rp_Assessment : Assessment;
  rp_Targets : list Target;
  rp_UsageSampled : Z;
  rp_UsageRepeated : Z;
  rp_UsageUnavailable : list unmeasured
}.

Inductive kernel_error :=
| ErrRollPeriod (period : string)
| ErrRollLedger (p : Time * Time)
| ErrLoadConfirmations (e : string)
| ErrConfirmation (c : Confirmation) (e : confirm_error)
| ErrLoadNamespaces (e : string)
| ErrPod (ns name : string) (e : quantity_error)
| ErrNothingReadable (unreachable : list string).

Definition DefaultInterval : Duration := 30 * Second.
Definition ManagedBy : string := "app.kubernetes.io/managed-by=farcast".
Definition DefaultNamespace : string := "farcast-system".

Section reconciler.
Context {W : Type}.

Record Reconciler := mkReconciler {
  r_Namespaces : list string;
  r_Ledger : Ledger;
  r_Limit : float64;
  r_Interval : Duration;
  r_Discover : option (eff W string (list string));
  r_Confirmations : option (eff W string (list Confirmation));
  r_Period : string;
  r_Selector : string;
  r_Last : Time;
  r_Observed : Observation;
  r_Usage : option Store;
  r_lastReading : gmap string Time;
  r_Advice : Config;
  r_Cooldown : Duration;
  r_Adapting : bool;
  r_lastAdvice : list Adaptation;
  r_usageUnavailable : list unmeasured
}.

Definition setLedger (l : Ledger) (r : Reconciler) : Reconciler :=
  mkReconciler (r_Namespaces r) l (r_Limit r) (r_Interval r) (r_Discover r) (r_Confirmations r)
    (r_Period r) (r_Selector r) (r_Last r) (r_Observed r) (r_Usage r) (r_lastReading r)
    (r_Advice r) (r_Cooldown r) (r_Adapting r) (r_lastAdvice r) (r_usageUnavailable r).

Definition setLast (t : Time) (r : Reconciler) : Reconciler :=
  mkReconciler (r_Namespaces r) (r_Ledger r) (r_Limit r) (r_Interval r) (r_Discover r)
    (r_Confirmations r) (r_Period r) (r_Selector r) t (r_Observed r) (r_Usage r)
    (r_lastReading r) (r_Advice r) (r_Cooldown r) (r_Adapting r) (r_lastAdvice r)
    (r_usageUnavailable r).

Definition setObserved (o : Observation) (r : Reconciler) : Reconciler :=
  mkReconciler (r_Namespaces r) (r_Ledger r) (r_Limit r) (r_Interval r) (r_Discover r)
    (r_Confirmations r) (r_Period r) (r_Selector r) (r_Last r) o (r_Usage r)
    (r_lastReading r) (r_Advice r) (r_Cooldown r) (r_Adapting r) (r_lastAdvice r)
    (r_usageUnavailable r).

Definition setUsage (u : option Store) (readings : gmap string Time) (unavailable : list unmeasured)
    (r : Reconciler) : Reconciler :=
  mkReconciler (r_Namespaces r) (r_Ledger r) (r_Limit r) (r_Interval r) (r_Discover r)
    (r_Confirmations r) (r_Period r) (r_Selector r) (r_Last r) (r_Observed r) u
    readings (r_Advice r) (r_Cooldown r) (r_Adapting r) (r_lastAdvice r) unavailable.

Definition setLastAdvice (a : list Adaptation) (r : Reconciler) : Reconciler :=
  mkReconciler (r_Namespaces r) (r_Ledger r) (r_Limit r) (r_Interval r) (r_Discover r)
    (r_Confirmations r) (r_Period r) (r_Selector r) (r_Last r) (r_Observed r) (r_Usage r)
    (r_lastReading r) (r_Advice r) (r_Cooldown r) (r_Adapting r) a (r_usageUnavailable r).

(** ** The tick's monad *)

Definition K : Type -> Type := eff (Reconciler * W) kernel_error.

Definition self : K Reconciler := gets fst.
Definition update (f : Reconciler -> Reconciler) : K unit := modify (fun s => (f s.1, s.2)).

(** A call out of the kernel: its error comes back as a value. *)
Definition call {A} (m : eff W string A) : K (result string A) := fun s =>
  let '(x, w) := m s.2 in (Ok x, (s.1, w)).

(** ** Rolling the period *)

Definition Roll (now : Time) : K bool :=
  r ← self;
  if decide (r_Period r = "") then mret false
  else
    if Before now (Period (r_Ledger r)).2 then mret false
    else
      match PeriodFor now (r_Period r) with
      | Err p => fail (ErrRollPeriod p)
      | Ok (start, newEnd) =>
          match NewLedger start newEnd with
          | Err p => fail (ErrRollLedger p)
          | Ok ledger => _ ← update (setLedger ledger); mret true
          end
      end.

Section ranged.
Context `{GoRange}.

(** ** Confirmations *)

(** One confirmation: how many were applied and refused so far. *)
Definition applyOne (acc : Z * Z) (c : Confirmation) : K (Z * Z) :=
  r ← self;
  match Confirm (r_Ledger r) c with
  | Err ErrWindowOverlaps | Err ErrWindowOutsidePeriod => mret acc
  | Err e => fail (ErrConfirmation c e)
  | Ok (d, l) =>
      _ ← update (setLedger l);
      mret (acc.1 + 1, match d with Some _ => acc.2 + 1 | None => acc.2 end)
  end.

Definition applyConfirmations : K (Z * Z) :=
  r ← self;
  match r_Confirmations r with
  | None => mret (0, 0)
  | Some load =>
      x ← call load;
      match x with
      | Err e => fail (ErrLoadConfirmations e)
      | Ok cs => foldE applyOne (0, 0) cs
      end
  end.

(** ** Namespaces *)

Definition addFound (set : gmap string bool) (ns : string) : gmap string bool :=
  let ns := TrimSpace ns in if decide (ns = "") then set else <[ns := true]> set.

Definition meteredNamespaces : K (list string) :=
  r ← self;
  let set := fold_left (fun set ns => <[ns := true]> set) (r_Namespaces r) (∅ : gmap string bool) in
  set ← match r_Discover r with
        | None => mret set
        | Some load =>
            x ← call load;
            match x with
            | Err e => fail (ErrLoadNamespaces e)
            | Ok found => mret (fold_left addFound found set)
            end
        end;
  mret (sort_strings (map fst (go_range set))).

(** ** Metering *)

(** The first line of a message, at most 160 bytes of it. *)
Definition safeNamespaceError (e : string) : string :=
  let s := match cutByte "010"%char e with Some (line, _) => line | None => e end in
  if 160 <? len s then prefix_of 160 s +:+ "…" else s.

Definition appOf (p : Pod) : string :=
  let v1 := (pod_Labels p).["app.kubernetes.io/name"%string] in
  let v2 := (pod_Labels p).["app"%string] in
  if decide (v1 = "") then (if decide (v2 = "") then pod_Name p else v2) else v1.

Definition containerNames (p : Pod) : list string := map cn_Name (pod_Containers p).

Record Scan := mkScan {
  sc_read : list string;
  sc_unreachable : list string;
  sc_workloads : list Workload;
  sc_unclassified : Z;
  sc_rate : float64;
  sc_byTier : gmap string float64;
  sc_byApp : gmap string float64
}.

Definition emptyScan : Scan := mkScan [] [] [] 0 fzero ∅ ∅.

Definition workloadOf (ns : string) (p : Pod) (cpu mem : Z) : Workload :=
  mkWorkload (if decide (pod_Namespace p = "") then ns else pod_Namespace p) (pod_Name p) (appOf p)
    (Of (pod_Labels p)) (pod_Labels p) (containerNames p) cpu mem (PodHourlyUSD cpu mem).

Definition meterPod (ns : string) (sc : Scan) (p : Pod) : K Scan :=
  if negb (Billable p) then mret sc
  else
    match Requests p with
    | Err e => fail (ErrPod ns (pod_Name p) e)
    | Ok (cpu, mem) =>
        let w := workloadOf ns p cpu mem in
        mret (mkScan (sc_read sc) (sc_unreachable sc) (sc_workloads sc ++ [w])
                (if decide (wl_Tier w = Unknown) then sc_unclassified sc + 1 else sc_unclassified sc)
                (fadd (sc_rate sc) (wl_HourlyUSD w))
                (fbump (sc_byTier sc) (wl_Tier w) (wl_HourlyUSD w))
                (fbump (sc_byApp sc) (wl_App w) (wl_HourlyUSD w)))
    end.

Definition unreadable (ns what e : string) : string := ns +:+ what +:+ ": " +:+ safeNamespaceError e.

Section clustered.
Context `{Cluster W}.

Definition meterNamespace (sc : Scan) (ns : string) : K Scan :=
  r ← self;
  x ← call (ListPods ns (r_Selector r));
  match x with
  | Err e =>
      mret (mkScan (sc_read sc) (sc_unreachable sc ++ [unreadable ns "" e]) (sc_workloads sc)
              (sc_unclassified sc) (sc_rate sc) (sc_byTier sc) (sc_byApp sc))
  | Ok pods =>
      foldE (meterPod ns)
        (mkScan (sc_read sc ++ [ns]) (sc_unreachable sc) (sc_workloads sc) (sc_unclassified sc)
           (sc_rate sc) (sc_byTier sc) (sc_byApp sc)) pods
  end.

(** ** Attribution *)

Definition mergeNames (into add : list string) : list string :=
  fold_left (fun into n => if bool_decide (n ∈ into) then into else into ++ [n]) add into.

Definition claim (d : Deployment) (t : Target) (w : Workload) : Target :=
  if bool_decide (wl_Namespace w = tg_Namespace t) && Matches (dep_Selector d) (wl_Labels w)
  then mkTarget (tg_Namespace t) (tg_Name t) (tg_Tier t) (tg_Replicas t) (tg_Pods t + 1)
         (fadd (tg_HourlyUSD t) (wl_HourlyUSD w)) (wl_App w)
         (mergeNames (tg_Containers t) (wl_Containers w)) (wl_CPUMilli w) (wl_MemMiB w) (tg_Annotations t)
  else t.

Definition targetOf (ns : string) (workloads : list Workload) (d : Deployment) : Target :=
  fold_left (claim d) workloads
    (mkTarget ns (dep_Name d) (Of (dep_Labels d)) (default (dep_StatusReplicas d) (dep_SpecReplicas d))
       0 fzero "" [] 0 0 (dep_Annotations d)).

Definition collectNamespace (workloads : list Workload) (acc : list Target * list string) (ns : string)
    : K (list Target * list string) :=
  r ← self;
  x ← call (ListDeployments ns (r_Selector r));
  match x with
  | Err e => mret (acc.1, acc.2 ++ [unreadable ns " (deployments)" e])
  | Ok deps => mret (acc.1 ++ map (targetOf ns workloads) deps, acc.2)
  end.

Definition collectTargets (metered : list string) (workloads : list Workload) (unreachable : list string)
    : K (list Target * list string) :=
  foldE (collectNamespace workloads) ([], unreachable) metered.

(** ** Usage *)

Record Sampling := mkSampling {
  sa_byApp : gmap string (list PodUsage);
  sa_fresh : gmap string Time;
  sa_sampled : Z;
  sa_repeated : Z;
  sa_unavailable : list unmeasured
}.

Definition newReading (last : gmap string Time) (id : string) (at_ : Time) : bool :=
  IsZero at_ || negb (at_ =? default zero_time (last !! id)).

Definition sampleReading (ns : string) (index : gmap (string * string) Workload)
    (last : gmap string Time) (sa : Sampling) (m : PodMetrics) : Sampling :=
  match index !! (ns, pm_Name m) with
  | None => sa
  | Some w =>
      let id := ns +:+ "/" +:+ pm_Name m in
      let fresh := <[id := pm_Timestamp m]> (sa_fresh sa) in
      if negb (newReading last id (pm_Timestamp m)) then
        mkSampling (sa_byApp sa) fresh (sa_sampled sa) (sa_repeated sa + 1) (sa_unavailable sa)
      else
        match UsageOf m with
        | Err e =>
            mkSampling (sa_byApp sa) fresh (sa_sampled sa) (sa_repeated sa)
              (sa_unavailable sa ++ [Unparsed id e])
        | Ok (cpu, mem) =>
            let u := mkPodUsage (pm_Name m) cpu mem (wl_CPUMilli w) (wl_MemMiB w) in
            mkSampling (<[wl_App w := default [] (sa_byApp sa !! wl_App w) ++ [u]]> (sa_byApp sa)) fresh
              (sa_sampled sa + 1) (sa_repeated sa) (sa_unavailable sa)
        end
  end.

Definition sampleNamespace (index : gmap (string * string) Workload) (sa : Sampling) (ns : string)
    : K Sampling :=
  r ← self;
  x ← call (ListPodMetrics ns (r_Selector r));
  match x with
  | Err e => mret (mkSampling (sa_byApp sa) (sa_fresh sa) (sa_sampled sa) (sa_repeated sa)
                     (sa_unavailable sa ++ [Unmeasured (unreadable ns "" e)]))
  | Ok items => mret (fold_left (sampleReading ns index (r_lastReading r)) items sa)
  end.

Definition indexOf (workloads : list Workload) : gmap (string * string) Workload :=
  fold_left (fun m w => <[(wl_Namespace w, wl_Name w) := w]> m) workloads ∅.

Definition sampleUsage (at_ : Time) (namespaces : list string) (workloads : list Workload) : K Sampling :=
  r ← self;
  match r_Usage r with
  | None => mret (mkSampling ∅ ∅ 0 0 [])
  | Some store =>
      sa ← foldE (sampleNamespace (indexOf workloads)) (mkSampling ∅ ∅ 0 0 []) namespaces;
      let store := fold_left (fun st '(app, pods) => RecordUsage st at_ app pods)
                     (go_range (sa_byApp sa)) store in
      _ ← update (setUsage (Some store) (sa_fresh sa) (sa_unavailable sa));
      mret sa
  end.

(** ** The tick *)

Definition billableInterval (r : Reconciler) (now : Time) : Duration :=
  if IsZero (r_Last r) then 0
  else
    let from := r_Last r in
    let start := (Period (r_Ledger r)).1 in
    let from := if Before from start then start else from in
    if negb (After now from) then 0 else Sub now from.

(** [Accrue] always ends ([Ledger.accrue_total]). *)
Definition accrueWorkload (now : Time) (billed : Duration) (l : Ledger) (w : Workload) : Ledger :=
  from_option id l (Accrue l now (wl_App w) (wl_HourlyUSD w) billed).

Definition observationOf (now : Time) (sc : Scan) (unreachable : list string) (a : Assessment)
    (limit : float64) : Observation :=
  mkObservation now (Z.of_nat (length (sc_workloads sc))) (sc_unclassified sc) (sc_rate sc)
    (LevelString (as_Level a)) limit (negb (match unreachable with [] => true | _ => false end)) unreachable.

(** The end of a tick: accrue the elapsed interval, assess, publish. *)
Definition finishTick (now : Time) (rolled : bool) (last : Time) (applied : Z * Z) (metered : list string)
    (sc : Scan) (targets : list Target) (unreachable : list string) (sa : Sampling) : K Report :=
  r ← self;
  let billed := billableInterval r now in
  let reconstructed := (0 <? r_Interval r) && (2 * r_Interval r <? billed) in
  let ledger := if 0 <? billed
                then fold_left (accrueWorkload now billed) (sc_workloads sc) (r_Ledger r)
                else r_Ledger r in
  _ ← update (fun r => setLast now (setLedger ledger r));
  let accrual := Accrued ledger in
  let assessment := Assess (ac_Total accrual) (r_Limit r) (sc_rate sc) now (Period ledger).2 in
  _ ← update (setObserved (observationOf now sc unreachable assessment (r_Limit r)));
  mret (mkReport now last billed rolled metered unreachable applied.1 applied.2 reconstructed
          (sc_workloads sc) (sc_unclassified sc) (sc_rate sc) (sc_byTier sc) (sc_byApp sc)
          accrual assessment targets (sa_sampled sa) (sa_repeated sa) (sa_unavailable sa)).

Definition Reconcile (now : Time) : K Report :=
  rolled ← Roll now;
  r0 ← self;
  applied ← applyConfirmations;
  metered ← meteredNamespaces;
  sc ← foldE meterNamespace emptyScan metered;
  if (0 <? Z.of_nat (length (sc_unreachable sc)))
     && (Z.of_nat (length metered) <=? Z.of_nat (length (sc_unreachable sc)))
  then fail (ErrNothingReadable (sc_unreachable sc))
  else
    tu ← collectTargets metered (sc_workloads sc) (sc_unreachable sc);
    let '(targets, unreachable) := tu in
    sa ← sampleUsage now (sc_read sc) (sc_workloads sc);
    finishTick now rolled (r_Last r0) applied metered sc targets unreachable sa.

End clustered.
End ranged.
End reconciler.

Arguments Reconciler : clear implicits.
Arguments K : clear implicits.

(** Whether every namespace asked for was read. *)
Definition Complete (rep : Report) : bool :=
  match rp_Unreachable rep with [] => true | _ => false end.

(** ** A cluster with a record of its writes *)

Inductive write :=
| WroteScale (ns name : string) (replicas : Z)
| WroteRequests (ns name container : string) (cpuMilli memMiB : Z) (annotations : gmap string string).

Definition readOnly {W A} (m : eff W string A) : eff (W * list write) string A := fun s =>
  let '(x, w) := m s.1 in (x, (w, s.2)).

Definition writing {W A} (wr : write) (m : eff W string A) : eff (W * list write) string A := fun s =>
  let '(x, w) := m s.1 in (x, (w, s.2 ++ [wr])).

(** Any cluster, with every write it is asked for appended to a log. *)
#[export] Instance logged `{Cluster W} : Cluster (W * list write) := {|
  ListPods ns sel := readOnly (ListPods ns sel);
  ListDeployments ns sel := readOnly (ListDeployments ns sel);
  ListPodMetrics ns sel := readOnly (ListPodMetrics ns sel);
  Scale ns name n := writing (WroteScale ns name n) (Scale ns name n);
  SetRequests ns name c cpu mem ann :=
    writing (WroteRequests ns name c cpu mem ann) (SetRequests ns name c cpu mem ann)
|}.

(** ** Invariants of a tick's steps

    One traversal of the steps, for any property [P] of the reconciler and the
    cluster that the step's own effects preserve; [R] is what a read does to the
    cluster. *)

Section steps.
Context {W : Type} `{GoRange, Cluster W}.
Variables (P : Reconciler W * W -> Prop) (R : W -> W -> Prop).

Definition inv {A} (m : K W A) : Prop := hoare P m (fun _ => P) (fun _ => P).

Lemma inv_ret {A} (a : A) : inv (mret a).
Proof. by apply hoare_ret. Qed.

Lemma inv_fail {A} e : inv (fail e : K W A).
Proof. by intros s Hs. Qed.

Lemma inv_bind {A B} (m : K W A) (f : A -> K W B) : inv m -> (forall a, inv (f a)) -> inv (m ≫= f).
Proof. intros Hm Hf. eapply hoare_bind; [exact Hm|exact Hf]. Qed.

Lemma inv_fold {A B} (f : B -> A -> K W B) l : (forall b x, inv (f b x)) -> forall b, inv (foldE f b l).
Proof. intros Hf b. apply (hoare_foldE f (fun _ => P)). intros b' x _. apply Hf. Qed.

(** Reading the reconciler: the rest runs from the state it was read in. *)
Lemma inv_self {A} (f : Reconciler W -> K W A) :
  (forall r, hoare (fun s => P s /\ s.1 = r) (f r) (fun _ => P) (fun _ => P)) -> inv (self ≫= f).
Proof. intros Hf s Hs. by apply (Hf s.1 s). Qed.

Hypothesis P_read : forall r w w', P (r, w) -> R w w' -> P (r, w').
Hypothesis R_pods : forall ns sel w, R w (ListPods ns sel w).2.
Hypothesis R_deployments : forall ns sel w, R w (ListDeployments ns sel w).2.
Hypothesis R_metrics : forall ns sel w, R w (ListPodMetrics ns sel w).2.
Hypothesis R_discover : forall r w load, P (r, w) -> r_Discover r = Some load -> R w (load w).2.
Hypothesis R_confirmations : forall r w load, P (r, w) -> r_Confirmations r = Some load -> R w (load w).2.
Hypothesis P_usage : forall r w u fresh un, P (r, w) -> P (setUsage u fresh un r, w).
Hypothesis P_confirm : forall r w c o l, P (r, w) -> Confirm (r_Ledger r) c = Ok (o, l) -> P (setLedger l r, w).

Lemma inv_call {A} (m : eff W string A) : (forall w, R w (m w).2) -> inv (call m).
Proof.
  intros Hm [r w] Hs. unfold call. cbn. specialize (Hm w). destruct (m w) as [x w']. by eapply P_read.
Qed.

Lemma inv_applyOne acc c : inv (applyOne acc c).
Proof.
  intros [r w] Hs. unfold applyOne, self, gets, mbind, eff_bind. cbn.
  destruct (Confirm (r_Ledger r) c) as [[o l]|[]] eqn:E; try done. by eapply P_confirm.
Qed.

Lemma inv_applyConfirmations : inv applyConfirmations.
Proof.
  apply inv_self. intros r. destruct (r_Confirmations r) as [load|] eqn:E; [|by intros s [Hs _]].
  eapply hoare_bind with (R := fun _ => P).
  - intros [r' w] [Hs Hr]. cbn in Hr. subst r'. unfold call. cbn.
    pose proof (R_confirmations r w load Hs E) as Hl. destruct (load w). by eapply P_read.
  - intros [cs|e]; [|apply inv_fail]. apply inv_fold. apply inv_applyOne.
Qed.

Lemma inv_meteredNamespaces : inv meteredNamespaces.
Proof.
  apply inv_self. intros r. eapply hoare_bind with (R := fun _ => P); [|intros; apply inv_ret].
  destruct (r_Discover r) as [load|] eqn:E; [|by intros s [Hs _]].
  eapply hoare_bind with (R := fun _ => P).
  - intros [r' w] [Hs Hr]. cbn in Hr. subst r'. unfold call. cbn.
    pose proof (R_discover r w load Hs E) as Hl. destruct (load w). by eapply P_read.
  - intros [found|e]; [apply inv_ret|apply inv_fail].
Qed.

Lemma inv_self' {A} (f : Reconciler W -> K W A) : (forall r, inv (f r)) -> inv (self ≫= f).
Proof. intros Hf. apply inv_self. intros r s [Hs _]. by apply (Hf r s). Qed.

Lemma inv_meterNamespace sc ns : inv (meterNamespace sc ns).
Proof.
  apply inv_self'. intros r. apply inv_bind; [apply inv_call, R_pods|].
  intros [pods|e]; [|apply inv_ret]. apply inv_fold. intros sc' p. unfold meterPod.
  destruct (negb _); [apply inv_ret|]. destruct (Requests p) as [[]|]; [apply inv_ret|apply inv_fail].
Qed.

Lemma inv_collectTargets metered ws un : inv (collectTargets metered ws un).
Proof.
  apply inv_fold. intros acc ns. apply inv_self'. intros r.
  apply inv_bind; [apply inv_call, R_deployments|]. intros [?|?]; apply inv_ret.
Qed.

Lemma inv_sampleUsage at_ nss ws : inv (sampleUsage at_ nss ws).
Proof.
  apply inv_self'. intros r. destruct (r_Usage r); [|apply inv_ret].
  apply inv_bind.
  - apply inv_fold. intros sa ns. apply inv_self'. intros r'.
    apply inv_bind; [apply inv_call, R_metrics|]. intros [?|?]; apply inv_ret.
  - intros sa. apply inv_bind; [|intros; apply inv_ret]. intros [r' w] Hs. by apply P_usage.
Qed.

(** Everything a tick does before it accrues, given what rolling does. *)
Lemma hoare_Reconcile now (P0 : Reconciler W * W -> Prop) (Q : Report -> Reconciler W * W -> Prop)
    (X : kernel_error -> Reconciler W * W -> Prop) :
  hoare P0 (Roll now) (fun _ => P) X -> (forall e s, P s -> X e s) ->
  (forall rolled last applied metered sc targets unreachable sa,
    hoare P (finishTick now rolled last applied metered sc targets unreachable sa) Q X) ->
  hoare P0 (Reconcile now) Q X.
Proof.
  intros Hroll HX Hfin. eapply hoare_bind; [exact Hroll|]. intros rolled.
  assert (forall A (m : K W A) (f : A -> K W Report),
    inv m -> (forall a, hoare P (f a) Q X) -> hoare P (m ≫= f) Q X) as Hstep.
  { intros A m f Hm Hf. eapply hoare_bind; [|exact Hf].
    eapply hoare_conseq; [exact Hm|done|done|done]. }
  apply Hstep; [by intros s Hs|]. intros r0.
  apply Hstep; [apply inv_applyConfirmations|]. intros applied.
  apply Hstep; [apply inv_meteredNamespaces|]. intros metered.
  apply Hstep; [apply inv_fold, inv_meterNamespace|]. intros sc.
  destruct (_ && _); [intros s Hs; by apply HX|].
  apply Hstep; [apply inv_collectTargets|]. intros [targets unreachable].
  apply Hstep; [apply inv_sampleUsage|]. intros sa. apply Hfin.
Qed.

End steps.

(** ** The books

    Which accounting windows are used, when the loop last accrued, and what it has
    accrued into which period. *)

Record books := mkBooks {
  bk_Name : string;
  bk_Last : Time;
  bk_period : Time * Time;
  bk_hourly : gmap Z float64;
  bk_apps : gmap string float64
}.

Definition booksOf {W} (r : Reconciler W) : books :=
  mkBooks (r_Period r) (r_Last r) (Period (r_Ledger r)) (l_hourly (r_Ledger r)) (l_apps (r_Ledger r)).

(** The books after a roll: no change, or an empty ledger for the period of [now]. *)
Definition rolledBooks (now : Time) (b b' : books) : Prop :=
  (b' = b /\ (bk_Name b = "" \/ now < (bk_period b).2)) \/
  (exists p, PeriodFor now (bk_Name b) = Ok p /\ (bk_period b).2 <= now /\ b' = mkBooks (bk_Name b) (bk_Last b) p ∅ ∅).

(** The interval a tick at [now] bills. *)
Definition billedFrom (b : books) (now : Time) : Duration :=
  if IsZero (bk_Last b) then 0 else Z.max 0 (Sub now (Z.max (bk_Last b) (bk_period b).1)).

Lemma billable_books {W} (r : Reconciler W) now : billableInterval r now = billedFrom (booksOf r) now.
Proof.
  unfold billableInterval, billedFrom, booksOf, Before, After. cbn.
  destruct (IsZero _); [done|].
  set (start := l_periodStart (r_Ledger r)).
  assert ((if r_Last r <? start then start else r_Last r) = Z.max (r_Last r) start) as ->
    by (destruct (Z.ltb_spec (r_Last r) start); lia).
  unfold Sub. change minDuration with (- 2 ^ 63). change maxDuration with (2 ^ 63 - 1).
  destruct (Z.ltb_spec (Z.max (r_Last r) start) now); cbn [negb]; lia.
Qed.

Section tick.
Context {W : Type} `{GoRange, Cluster W}.

Lemma Roll_books now (r : Reconciler W) w :
  match Roll now (r, w) with
  | (Ok rolled, (r', w')) => w' = w /\ rolledBooks now (booksOf r) (booksOf r') /\
      r_Interval r' = r_Interval r /\ (rolled = false -> r' = r) /\
      (rolled = true -> (bk_period (booksOf r)).2 <= now)
  | (Err _, s') => s' = (r, w)
  end.
Proof.
  unfold Roll, self, gets, mbind, eff_bind. cbn [fst snd].
  destruct (decide (r_Period r = "")) as [E|E]; [split_and!; try done; left; tauto|].
  unfold Before. cbn [Period snd]. destruct (Z.ltb_spec now (l_periodEnd (r_Ledger r))).
  { split_and!; try done. left. cbn. tauto. }
  destruct (PeriodFor now (r_Period r)) as [[start end_]|p] eqn:Ep; [|done].
  unfold NewLedger. destruct (negb (After end_ start)) eqn:Ea; [done|]. cbn.
  split_and!; try done. right. by exists (start, end_).
Qed.

(** What a successful tick did to the books [b] it found after rolling. *)
Definition tickDone (now : Time) (b : books) (rep : Report) (r' : Reconciler W) : Prop :=
  exists l, Period l = bk_period b /\ l_hourly l = bk_hourly b /\ l_apps l = bk_apps b /\
    rp_At rep = now /\ rp_Billed rep = billedFrom b now /\ r_Last r' = now /\ r_Period r' = bk_Name b /\
    r_Ledger r' = (if 0 <? billedFrom b now
                   then fold_left (accrueWorkload now (billedFrom b now)) (rp_Workloads rep) l else l) /\
    rp_Accrual rep = Accrued (r_Ledger r').

Lemma finishTick_done now b rolled last applied metered sc targets unreachable sa :
  hoare (fun s => booksOf s.1 = b)
    (finishTick now rolled last applied metered sc targets unreachable sa)
    (fun rep s' => tickDone now b rep s'.1) (fun _ _ => False).
Proof.
  intros s <-. cbn. exists (r_Ledger s.1). rewrite billable_books. by split_and!.
Qed.

(** A tick that fails accrues nothing; one that succeeds accrues the elapsed
    interval for every workload it reports, and moves [Last] to [now]. *)
Lemma Reconcile_books now (r : Reconciler W) w :
  match Reconcile now (r, w) with
  | (Ok rep, (r', _)) => exists b, rolledBooks now (booksOf r) b /\ tickDone now b rep r'
  | (Err _, (r', _)) => booksOf r' = booksOf r \/ rolledBooks now (booksOf r) (booksOf r')
  end.
Proof.
  pose proof (Roll_books now r w) as Hb.
  destruct (Roll now (r, w)) as [[rolled|e] [r1 w1]] eqn:Er.
  - destruct Hb as (-> & Hb & _).
    assert (hoare (fun s => s = (r, w)) (Reconcile now)
      (fun rep s' => tickDone now (booksOf r1) rep s'.1) (fun _ s' => booksOf s'.1 = booksOf r1)) as Hh.
    { apply (hoare_Reconcile (fun s => booksOf s.1 = booksOf r1) (fun _ _ => True)); try done.
      - intros r0 w0 c o l HP Hc. cbn in *.
        apply confirm_ok in Hc as (_ & _ & _ & _ & _ & E1 & E2 & E3 & E4 & _).
        unfold booksOf, Period in *. cbn. by rewrite E1, E2, E3, E4.
      - intros s ->. by rewrite Er.
      - intros. eapply hoare_conseq; [apply (finishTick_done now (booksOf r1))|done|done|done]. }
    specialize (Hh (r, w) eq_refl). destruct (Reconcile now (r, w)) as [[rep|e] [r' w']].
    + by exists (booksOf r1).
    + right. cbn in Hh. by rewrite Hh.
  - injection Hb as -> ->. unfold Reconcile, mbind at 1, eff_bind at 1. rewrite Er. by left.
Qed.

Lemma accrueWorkloads_frame now d ws : forall l,
  Period (fold_left (accrueWorkload now d) ws l) = Period l.
Proof.
  induction ws as [|w ws IH]; intros l; cbn [fold_left]; [done|]. rewrite IH.
  unfold accrueWorkload. destruct (Accrue l now (wl_App w) (wl_HourlyUSD w) d) as [l'|] eqn:E; [|done].
  by apply accrue_frame in E as [? _].
Qed.

(** *** Ticks in sequence *)

(** What a run of ticks reported. *)
Fixpoint runTicks (ts : list Time) (s : Reconciler W * W) : list (result kernel_error Report) * (Reconciler W * W) :=
  match ts with
  | [] => ([], s)
  | t :: ts => let '(x, s) := Reconcile t s in let '(xs, s) := runTicks ts s in (x :: xs, s)
  end.

Definition billedBy (x : result kernel_error Report) : Duration :=
  match x with Ok rep => rp_Billed rep | Err _ => 0 end.

Lemma tick_in_period now (r : Reconciler W) w :
  let b := booksOf r in
  zero_time < bk_Last b -> (bk_period b).1 <= bk_Last b <= now ->
  (bk_Name b = "" \/ now < (bk_period b).2) -> now - bk_Last b <= maxDuration ->
  let '(x, (r', _)) := Reconcile now (r, w) in
  billedBy x = r_Last r' - r_Last r /\ (r_Last r' = r_Last r \/ r_Last r' = now) /\
  (is_ok x = true -> r_Last r' = now) /\
  r_Period r' = r_Period r /\ Period (r_Ledger r') = Period (r_Ledger r).
Proof.
  intros b Hz Hs He Hd. pose proof (Reconcile_books now r w) as Hb. fold b in Hb.
  assert (forall b', rolledBooks now b b' -> b' = b) as Hno.
  { intros b' [[-> _]|(p & Hp & Hle & _)]; [done|]. destruct He as [E|]; [|lia].
    rewrite E in Hp. done. }
  destruct (Reconcile now (r, w)) as [[rep|e] [r' w']].
  - destruct Hb as (b' & Hr & l & Hp & _ & _ & _ & Hbill & Hlast & Hname & Hl & _).
    apply Hno in Hr as ->. cbn [billedBy]. rewrite Hbill, Hlast, Hname.
    assert (Period (r_Ledger r') = bk_period b) as ->
      by (rewrite Hl; destruct (0 <? _); [by rewrite accrueWorkloads_frame|done]).
    assert (billedFrom b now = now - r_Last r) as ->.
    { unfold billedFrom, IsZero. destruct (Z.eqb_spec (bk_Last b) zero_time); [lia|].
      rewrite (Z.max_l (bk_Last b)), Sub_small by (change minDuration with (- 2 ^ 63); lia).
      change (bk_Last b) with (r_Last r) in *. lia. }
    split_and!; try done. by right.
  - assert (booksOf r' = b) as E by (destruct Hb as [?|Hb]; [done|by apply Hno]).
    cbn [billedBy]. pose proof (f_equal bk_Last E) as E1. pose proof (f_equal bk_Name E) as E2.
    pose proof (f_equal bk_period E) as E3. cbn in E1, E2, E3.
    split_and!; [rewrite E1; lia|by left|done|exact E2|exact E3].
Qed.

Lemma run_in_period : forall ts (r : Reconciler W) w,
  let b := booksOf r in
  zero_time < bk_Last b -> (bk_period b).1 <= bk_Last b ->
  StronglySorted Z.le (bk_Last b :: ts) ->
  Forall (fun t => (bk_Name b = "" \/ t < (bk_period b).2) /\ t - bk_Last b <= maxDuration) ts ->
  let '(xs, (r', _)) := runTicks ts (r, w) in
  foldr Z.add 0 (map billedBy xs) = r_Last r' - r_Last r /\ r_Last r <= r_Last r'.
Proof.
  induction ts as [|t ts IH]; intros r w b Hz Hs Hsort Hall.
  { cbn. lia. }
  cbn [runTicks]. apply Forall_cons in Hall as [[He Hd] Hall].
  apply StronglySorted_inv in Hsort as [Hsort Hle].
  apply Forall_cons in Hle as [Ht Hle].
  pose proof (tick_in_period t r w Hz (conj Hs Ht) He Hd) as Htick.
  destruct (Reconcile t (r, w)) as [x [r1 w1]]. destruct Htick as (Hb & Hl & _ & Hn & Hp).
  specialize (IH r1 w1). cbn [bk_Name bk_Last bk_period booksOf] in IH. rewrite Hn, Hp in IH.
  destruct (runTicks ts (r1, w1)) as [xs [r2 w2]]. cbn [map foldr].
  change (bk_Last b) with (r_Last r) in *. change (bk_period b) with (Period (r_Ledger r)) in *.
  destruct IH as [IH1 IH2].
  - destruct Hl as [->| ->]; lia.
  - destruct Hl as [->| ->]; lia.
  - destruct Hl as [->| ->]; [|done]. apply StronglySorted_inv in Hsort as [? _]. by constructor.
  - eapply Forall_impl; [exact Hall|]. cbv beta. intros t' [? ?].
    split; [done|]. destruct Hl as [->| ->]; lia.
  - rewrite Hb. destruct Hl; lia.
Qed.

End tick.

(** ** What a report says of the namespaces *)

Section report.
Context {W : Type} `{GoRange, Cluster W}.

(** A successful tick: what it scanned, and what it made of it. *)
Lemma Reconcile_inv now (s s' : Reconciler W * W) rep : Reconcile now s = (Ok rep, s') ->
  exists sc s1 s2 s3, foldE meterNamespace emptyScan (rp_Metered rep) s1 = (Ok sc, s2) /\
    ~ (0 < length (sc_unreachable sc) /\ length (rp_Metered rep) <= length (sc_unreachable sc))%nat /\
    collectTargets (rp_Metered rep) (sc_workloads sc) (sc_unreachable sc) s2
      = (Ok (rp_Targets rep, rp_Unreachable rep), s3) /\
    rp_Workloads rep = sc_workloads sc /\ rp_Unclassified rep = sc_unclassified sc /\
    rp_RateHourlyUSD rep = sc_rate sc /\ rp_RateByTier rep = sc_byTier sc /\ rp_RateByApp rep = sc_byApp sc.
Proof.
  unfold Reconcile. intros (rolled & t1 & _ & Hr)%bind_inv.
  apply bind_inv in Hr as (r0 & t2 & _ & Hr). apply bind_inv in Hr as (applied & t3 & _ & Hr).
  apply bind_inv in Hr as (metered & t4 & _ & Hr). apply bind_inv in Hr as (sc & t5 & Hsc & Hr).
  destruct (_ && _) eqn:E; [done|].
  apply bind_inv in Hr as ([targets un] & t6 & Ht & Hr). apply bind_inv in Hr as (sa & t7 & _ & Hr).
  cbn in Hr. injection Hr as <- _. cbn.
  exists sc, t4, t5, t6. split; [done|]. split; [lia|]. by split_and!.
Qed.

(** A namespace whose pods cannot be listed. *)
Definition refuses (ns : string) : Prop := forall sel w, is_ok (ListPods (W := W) ns sel w).1 = false.

Lemma meterPods_unreachable ns pods : forall sc sc' (s s' : Reconciler W * W),
  foldE (meterPod ns) sc pods s = (Ok sc', s') -> sc_unreachable sc' = sc_unreachable sc.
Proof.
  induction pods as [|p pods IH]; intros sc sc' s s'; cbn [foldE]; [by intros [= <- _]|].
  intros (sc1 & s1 & Hm & Hl)%bind_inv. apply IH in Hl as ->.
  unfold meterPod in Hm. destruct (negb _); [by injection Hm as <- _|].
  destruct (Requests p) as [[cpu mem]|]; [|done]. by injection Hm as <- _.
Qed.

(** One namespace: recorded as unreadable exactly when it could not be listed. *)
Lemma meterNamespace_unreachable ns sc sc' (s s' : Reconciler W * W) :
  meterNamespace sc ns s = (Ok sc', s') ->
  exists k, sc_unreachable sc' = sc_unreachable sc ++ k /\ (refuses ns -> length k = 1%nat).
Proof.
  intros (r & s1 & _ & Hm)%bind_inv. apply bind_inv in Hm as (x & s2 & Hc & Hm).
  destruct x as [pods|e].
  - apply meterPods_unreachable in Hm as ->. exists []. rewrite app_nil_r.
    split; [done|]. intros Hr. specialize (Hr (r_Selector r) s1.2).
    unfold call in Hc. by destruct (ListPods ns (r_Selector r) s1.2) as [[|e] w'].
  - injection Hm as <- _. by exists [unreadable ns "" e].
Qed.

(** Every refusal is recorded; the record only grows. *)
Lemma scan_unreachable l : forall sc sc' (s s' : Reconciler W * W),
  foldE meterNamespace sc l s = (Ok sc', s') ->
  exists k, sc_unreachable sc' = sc_unreachable sc ++ k /\ (forall ns, ns ∈ l -> refuses ns -> k <> []) /\ (Forall refuses l -> length k = length l).
Proof.
  induction l as [|ns l IH]; intros sc sc' s s'; cbn [foldE].
  { intros [= <- _]. exists []. rewrite app_nil_r. split_and!; [done| |done].
    intros ns Hns. by apply not_elem_of_nil in Hns. }
  intros (sc1 & s1 & Hm & Hl)%bind_inv. apply IH in Hl as (k & -> & Hex & Hall).
  apply meterNamespace_unreachable in Hm as (k1 & -> & Hone).
  exists (k1 ++ k). rewrite app_assoc. split_and!; [done| |].
  - intros ns' [->|Hin]%elem_of_cons Hr [E1 E2]%app_nil.
    + apply Hone in Hr. by rewrite E1 in Hr.
    + by eapply Hex.
  - intros [Hr Hrs]%Forall_cons. rewrite length_app, (Hone Hr), (Hall Hrs). done.
Qed.

Lemma collect_unreachable ws l : forall acc acc' (s s' : Reconciler W * W),
  foldE (collectNamespace ws) acc l s = (Ok acc', s') -> exists k, acc'.2 = acc.2 ++ k.
Proof.
  induction l as [|ns l IH]; intros acc acc' s s'; cbn [foldE].
  { intros [= <- _]. exists []. by rewrite app_nil_r. }
  intros (acc1 & s1 & Hm & Hl)%bind_inv. apply IH in Hl as (k & ->).
  apply bind_inv in Hm as (r & s2 & _ & Hm). apply bind_inv in Hm as (x & s3 & _ & Hm).
  destruct x as [deps|e]; injection Hm as <- _; [by exists k|].
  exists ([unreadable ns " (deployments)" e] ++ k). by rewrite app_assoc.
Qed.

(** *** The rates are sums over the reported workloads *)

Definition rateOf (ws : list Workload) : float64 :=
  fold_left (fun sum w => fadd sum (wl_HourlyUSD w)) ws fzero.

Record scan_sums (sc : Scan) : Prop := {
  ss_rate : sc_rate sc = rateOf (sc_workloads sc);
  ss_tier : sc_byTier sc = fold_left (fun m w => fbump m (wl_Tier w) (wl_HourlyUSD w)) (sc_workloads sc) ∅;
  ss_app : sc_byApp sc = fold_left (fun m w => fbump m (wl_App w) (wl_HourlyUSD w)) (sc_workloads sc) ∅;
  ss_unclassified : sc_unclassified sc =
    Z.of_nat (length (filter (fun w => wl_Tier w = Unknown) (sc_workloads sc)))
}.

Lemma meterPod_sums ns p sc sc' (s s' : Reconciler W * W) :
  scan_sums sc -> meterPod ns sc p s = (Ok sc', s') -> scan_sums sc'.
Proof.
  intros [H1 H2 H3 H4] Hm. unfold meterPod in Hm. destruct (negb _); [by injection Hm as <- _|].
  destruct (Requests p) as [[cpu mem]|]; [|done]. injection Hm as <- _.
  split; cbn [sc_rate sc_byTier sc_byApp sc_unclassified sc_workloads].
  - unfold rateOf. by rewrite fold_left_app, H1.
  - by rewrite fold_left_app, H2.
  - by rewrite fold_left_app, H3.
  - rewrite filter_app, length_app, H4. rewrite filter_cons, filter_nil.
    unfold workloadOf. cbn [wl_Tier]. destruct (decide (Of (pod_Labels p) = Unknown)); cbn; lia.
Qed.

Lemma fold_sums {A} (f : Scan -> A -> K W Scan) (l : list A) :
  (forall sc x sc' s s', scan_sums sc -> f sc x s = (Ok sc', s') -> scan_sums sc') ->
  forall sc sc' s s', scan_sums sc -> foldE f sc l s = (Ok sc', s') -> scan_sums sc'.
Proof.
  intros Hf. induction l as [|x l IH]; intros sc sc' s s' Hs; cbn [foldE]; [by intros [= <- _]|].
  intros (sc1 & s1 & Hm & Hl)%bind_inv. eapply IH; [|exact Hl]. by eapply Hf.
Qed.

Lemma meterNamespace_sums ns sc sc' (s s' : Reconciler W * W) :
  scan_sums sc -> meterNamespace sc ns s = (Ok sc', s') -> scan_sums sc'.
Proof.
  intros Hs (r & s1 & _ & Hm)%bind_inv. apply bind_inv in Hm as (x & s2 & _ & Hm).
  destruct x as [pods|e].
  - refine (fold_sums _ _ _ _ _ _ _ _ Hm); [|by destruct Hs].
    intros sc0 p sc0' t t'. apply meterPod_sums.
  - injection Hm as <- _. by destruct Hs.
Qed.

Lemma scan_is_sums l sc (s s' : Reconciler W * W) :
  foldE meterNamespace emptyScan l s = (Ok sc, s') -> scan_sums sc.
Proof.
  intros Hm. refine (fold_sums _ _ _ _ _ _ _ _ Hm); [|done].
  intros sc0 ns sc0' t t'. apply meterNamespace_sums.
Qed.

End report.

(** ** The metered namespaces *)

Lemma insert_all_keys (l : list string) : forall (m : gmap string bool) ns,
  is_Some (fold_left (fun set ns => <[ns := true]> set) l m !! ns) <-> ns ∈ l \/ is_Some (m !! ns).
Proof.
  induction l as [|x l IH]; intros m ns; cbn [fold_left].
  - split; [by right|]. by intros [?%not_elem_of_nil|?].
  - rewrite IH, lookup_insert_is_Some, elem_of_cons. destruct (decide (x = ns)) as [->|]; naive_solver.
Qed.

Lemma addFound_keys (l : list string) : forall (m : gmap string bool) ns,
  is_Some (fold_left addFound l m !! ns) <->
  (exists raw, raw ∈ l /\ TrimSpace raw = ns /\ ns <> "") \/ is_Some (m !! ns).
Proof.
  induction l as [|x l IH]; intros m ns; cbn [fold_left].
  - split; [by right|]. by intros [(? & ?%not_elem_of_nil & _)|?].
  - rewrite IH. unfold addFound at 1. destruct (decide (TrimSpace x = "")) as [E|E].
    + split; [intros [(raw & ? & ?)|?]; [left; exists raw; set_solver|by right]|].
      intros [(raw & [->|Hin]%elem_of_cons & E' & Hne)|?]; [congruence|left; by exists raw|by right].
    + rewrite lookup_insert_is_Some. split.
      * intros [(raw & ? & ?)|[<-|[_ ?]]]; [left; exists raw; set_solver|left; exists x; set_solver|by right].
      * intros [(raw & [->|Hin]%elem_of_cons & <- & Hne)|?].
        -- right. by left.
        -- left. by exists raw.
        -- right. destruct (decide (TrimSpace x = ns)); [by left|by right].
Qed.

Lemma sorted_keys `{GoRange} (m : gmap string bool) :
  let out := sort_strings (map fst (go_range m)) in
  StronglySorted string_le out /\ NoDup out /\ forall ns, ns ∈ out <-> is_Some (m !! ns).
Proof.
  intros out. split; [apply sort_strings_sorted|]. split.
  - unfold out. rewrite sort_strings_perm. apply NoDup_go_range.
  - intros ns. unfold out. rewrite sort_strings_perm. split.
    + intros Hin. apply list_elem_of_fmap in Hin as ([k v] & -> & Hin). apply elem_of_go_range in Hin. by exists v.
    + intros [v Hv]. apply elem_of_go_range in Hv. by apply (list_elem_of_fmap_2 fst) in Hv.
Qed.

(** ** Reads leave the log alone *)

Section quiet.
Context {W : Type} `{GoRange, Cluster W}.

(** The sources the reconciler is configured with only read. *)
Definition quiet (r : Reconciler (W * list write)) : Prop :=
  (forall load w, r_Discover r = Some load -> (load w).2.2 = w.2) /\
  (forall load w, r_Confirmations r = Some load -> (load w).2.2 = w.2).

Lemma readOnly_log {A} (m : eff W string A) (w : W * list write) : (readOnly m w).2.2 = w.2.
Proof. unfold readOnly. by destruct (m w.1). Qed.

Lemma Reconcile_log now (r : Reconciler (W * list write)) w :
  quiet r -> (Reconcile now (r, w)).2.2.2 = w.2.
Proof.
  intros Hq. set (P := fun s : Reconciler (W * list write) * (W * list write) => quiet s.1 /\ s.2.2 = w.2).
  assert (hoare P (Reconcile now) (fun _ => P) (fun _ => P)) as Hh.
  { apply (hoare_Reconcile P (fun w1 w2 => w2.2 = w1.2)); unfold P; cbn.
    - intros r0 w1 w2 [? <-] Hw. done.
    - intros ns sel w1. apply readOnly_log.
    - intros ns sel w1. apply readOnly_log.
    - intros ns sel w1. apply readOnly_log.
    - intros r0 w1 load [[Hd _] _] Hl. by apply Hd.
    - intros r0 w1 load [[_ Hc] _] Hl. by apply Hc.
    - done.
    - done.
    - intros [r0 w0] [Hq0 Hw0]. pose proof (Roll_books now r0 w0) as Hb. unfold Roll, self, gets, mbind, eff_bind in *.
      cbn [fst snd] in *. destruct (decide _); [done|]. destruct (Before _ _); [done|].
      destruct (PeriodFor _ _) as [[? ?]|]; [|done]. by destruct (NewLedger _ _).
    - done.
    - intros. intros s [Hs1 Hs2]. done. }
  specialize (Hh (r, w) (conj Hq eq_refl)). destruct (Reconcile now (r, w)) as [[?|?] [? ?]]; apply Hh.
Qed.

End quiet.

(** ** A cluster for the examples: what each readable namespace holds

    One namespace is never readable, and one deployment never scales. *)

Definition fixture : Type := gmap string (list Pod * list Deployment).

Definition inFixture {A} (f : list Pod * list Deployment -> A) (ns : string) : eff fixture string A := fun w =>
  match (if decide (ns = "gone"%string) then None else w !! ns) with
  | Some x => (Ok (f x), w)
  | None => (Err "forbidden"%string, w)
  end.

#[export] Instance fixtureCluster : Cluster fixture := {|
  ListPods ns _ := inFixture fst ns;
  ListDeployments ns _ := inFixture snd ns;
  ListPodMetrics ns _ := inFixture (fun _ => []) ns;
  Scale ns name n := fun w => if decide (name = "stuck"%string) then (Err "conflict"%string, w) else (Ok tt, w);
  SetRequests ns name c cpu mem ann := fun w => (Ok (Z.max cpu 50, Z.max mem 52), w)
|}.

Definition exPod (app : string) : Pod :=
  mkPod app "" (<[Label := App]> {["app"%string := app]}) [mkContainer "main" "500m" "1Gi"] [] "Running" [].

Definition exDeployment (app : string) : Deployment :=
  mkDeployment app {[Label := App]} ∅ (Some 1) 1 (Some (mkSelector {["app"%string := app]})).

Definition exFixture : fixture := {["apps"%string := ([exPod "web"], [exDeployment "web"])]}.

Definition exReconciler {W} (namespaces : list string) (last : Time) (limit : float64) : Reconciler W :=
  mkReconciler namespaces (mkLedger 0 (DateUTC 1970 2 1) ∅ ∅ [] []) limit DefaultInterval None None ""
    ManagedBy last zeroObservation None ∅ zeroConfig 0 false [] [].

(** ** Properties *)

Section properties.
Context {W : Type} `{GoRange, Cluster W}.

(** A tick that fails accrues nothing and does not move [Last], so the
    interval it covered is billed by the next tick that succeeds; at most it has
    opened the empty ledger of the new period. *)
Theorem failed_tick_accrues_nothing now (r r' : Reconciler W) w w' e :
  Reconcile now (r, w) = (Err e, (r', w')) ->
  r_Last r' = r_Last r /\
  ((Period (r_Ledger r') = Period (r_Ledger r) /\ l_hourly (r_Ledger r') = l_hourly (r_Ledger r) /\
    l_apps (r_Ledger r') = l_apps (r_Ledger r)) \/
   (PeriodFor now (r_Period r) = Ok (Period (r_Ledger r')) /\ (Period (r_Ledger r)).2 <= now /\
    l_hourly (r_Ledger r') = ∅ /\ l_apps (r_Ledger r') = ∅)).
Proof.
  intros E. pose proof (Reconcile_books now r w) as Hb. rewrite E in Hb.
  assert (booksOf r' = booksOf r \/ exists p, PeriodFor now (r_Period r) = Ok p /\
    (Period (r_Ledger r)).2 <= now /\ booksOf r' = mkBooks (r_Period r) (r_Last r) p ∅ ∅) as [Hs|(p & Hp & Hle & Hs)].
  { destruct Hb as [?|[[? _]|(p & ? & ? & ?)]]; [by left|by left|right; by exists p]. }
  - unfold booksOf in Hs. injection Hs as H1 H2 H3 H4 H5 H6. split; [done|left].
    unfold Period. by rewrite H3, H4, H5, H6.
  - unfold booksOf in Hs. injection Hs as H1 H2 H3 H4 H5. split; [done|right].
    by rewrite H3, H4, H5.
Qed.

(** A tick that succeeds bills every workload it reports for exactly the
    interval since [Last], floored at the start of the period in force and never
    from a [Last] that was never set, and moves [Last] to now. *)
Theorem tick_bills_elapsed now (r r' : Reconciler W) w w' rep :
  Reconcile now (r, w) = (Ok rep, (r', w')) ->
  r_Last r' = now /\
  exists start end_ l,
    ((start, end_) = Period (r_Ledger r) \/ PeriodFor now (r_Period r) = Ok (start, end_)) /\
    Period l = (start, end_) /\ Period (r_Ledger r') = (start, end_) /\
    rp_Billed rep = (if r_Last r =? zero_time then 0 else Z.max 0 (Sub now (Z.max (r_Last r) start))) /\
    (rp_Billed rep = 0 -> r_Ledger r' = l) /\
    (0 < rp_Billed rep -> r_Ledger r' = fold_left (accrueWorkload now (rp_Billed rep)) (rp_Workloads rep) l).
Proof.
  intros E. pose proof (Reconcile_books now r w) as Hb. rewrite E in Hb.
  destruct Hb as (b & Hr & l & Hp & _ & _ & _ & Hbill & Hlast & _ & Hl & _).
  split; [done|]. destruct (bk_period b) as [start end_] eqn:Ep. exists start, end_, l.
  assert (bk_Last b = r_Last r /\ ((start, end_) = Period (r_Ledger r) \/ PeriodFor now (r_Period r) = Ok (start, end_)))
    as [HbL Hper].
  { destruct Hr as [[-> _]|(p & Hpf & _ & ->)]; cbn in *; [rewrite <- Ep; by auto|].
    split; [done|right]. by rewrite <- Ep. }
  assert (Period (r_Ledger r') = (start, end_)) as Hp'.
  { rewrite Hl. destruct (0 <? _); [by rewrite accrueWorkloads_frame|done]. }
  assert (rp_Billed rep = (if r_Last r =? zero_time then 0 else Z.max 0 (Sub now (Z.max (r_Last r) start)))) as Hbill'.
  { rewrite Hbill. unfold billedFrom, IsZero. by rewrite HbL, Ep. }
  split_and!; try done.
  - intros Hz. rewrite Hl. rewrite Hbill in Hz. by rewrite Hz.
  - intros Hz. rewrite Hl. rewrite <- Hbill. by destruct (Z.ltb_spec 0 (rp_Billed rep)); [|lia].
Qed.

(** C6: over any sequence of ticks inside a period, failed ones included, the
    intervals billed add up to exactly the time from where [Last] stood to where
    it ends: no time is billed twice and none is lost. *)
Theorem ticks_partition_time ts (r : Reconciler W) w :
  zero_time < r_Last r -> (Period (r_Ledger r)).1 <= r_Last r ->
  StronglySorted Z.le (r_Last r :: ts) ->
  Forall (fun t => (r_Period r = "" \/ t < (Period (r_Ledger r)).2) /\ t - r_Last r <= maxDuration) ts ->
  let '(xs, (r', _)) := runTicks ts (r, w) in
  foldr Z.add 0 (map billedBy xs) = r_Last r' - r_Last r /\ r_Last r <= r_Last r'.
Proof. apply run_in_period. Qed.

(** A namespace that cannot be listed leaves the report incomplete, and a
    tick that could list none of its namespaces is an error rather than a report
    of an instance that spends nothing. *)
Theorem blind_tick_is_not_reported now (s s' : Reconciler W * W) rep :
  Reconcile now s = (Ok rep, s') ->
  (forall ns, ns ∈ rp_Metered rep -> refuses ns -> Complete rep = false) /\
  (Forall refuses (rp_Metered rep) -> rp_Metered rep = []).
Proof.
  intros (sc & s1 & s2 & s3 & Hsc & Hcond & Ht & _)%Reconcile_inv.
  apply scan_unreachable in Hsc as (k & Hk & Hex & Hall). cbn in Hk.
  apply collect_unreachable in Ht as (k' & Hk'). cbn in Hk'. split.
  - intros ns Hns Hr. unfold Complete. rewrite Hk', Hk. specialize (Hex _ Hns Hr). by destruct k.
  - intros Hr. apply Hall in Hr. rewrite Hk, Hr in Hcond.
    destruct (rp_Metered rep); [done|]. cbn in Hcond. lia.
Qed.

(** The reported rate, and its breakdowns by tier and by application, are
    the sums over exactly the reported workloads, and the unclassified count is
    the number of them that carry no tier. *)
Theorem report_sums now (s s' : Reconciler W * W) rep :
  Reconcile now s = (Ok rep, s') ->
  let ws := rp_Workloads rep in
  rp_RateHourlyUSD rep = fold_left (fun sum w => fadd sum (wl_HourlyUSD w)) ws fzero /\
  rp_RateByTier rep = fold_left (fun m w => fbump m (wl_Tier w) (wl_HourlyUSD w)) ws ∅ /\
  rp_RateByApp rep = fold_left (fun m w => fbump m (wl_App w) (wl_HourlyUSD w)) ws ∅ /\
  rp_Unclassified rep = Z.of_nat (length (filter (fun w => wl_Tier w = Unknown) ws)).
Proof.
  intros (sc & s1 & s2 & s3 & Hsc & _ & _ & -> & -> & -> & -> & ->)%Reconcile_inv.
  by apply scan_is_sums in Hsc as [? ? ? ?].
Qed.

(** The namespaces a tick reads are sorted without repetition, contain every
    configured namespace and every discovered one that is not blank, and no
    other; a discovery that fails is an error, never a shorter list. *)
Theorem metered_namespaces (r : Reconciler W) w :
  match meteredNamespaces (r, w) with
  | (Ok out, (r', _)) => r' = r /\ StronglySorted string_le out /\ NoDup out /\
      forall ns, ns ∈ out <->
        ns ∈ r_Namespaces r \/
        exists load found raw, r_Discover r = Some load /\ (load w).1 = Ok found /\
          raw ∈ found /\ TrimSpace raw = ns /\ ns <> ""
  | (Err e, _) => exists load e', r_Discover r = Some load /\ (load w).1 = Err e' /\ e = ErrLoadNamespaces e'
  end.
Proof.
  unfold meteredNamespaces, self, gets, call, mbind, eff_bind, mret, eff_ret. cbn [fst snd].
  destruct (r_Discover r) as [load|]; cbn [fst snd];
    [destruct (load w) as [[found|e] w'] eqn:E; cbn [fst snd]|].
  - match goal with |- context [map fst (go_range ?m)] => destruct (sorted_keys m) as (H1 & H2 & H3) end.
    split_and!; try done. intros ns. rewrite H3, addFound_keys, insert_all_keys, lookup_empty.
    split.
    + intros [(raw & ? & ? & ?)|[?|[? ?]]]; [right; exists load, found, raw; by rewrite E|by left|done].
    + intros [?|(load' & found' & raw & [= <-] & E' & ? & ? & ?)]; [by right; left|].
      rewrite E in E'. injection E' as ->. left. by exists raw.
  - exists load, e. by rewrite E.
  - match goal with |- context [map fst (go_range ?m)] => destruct (sorted_keys m) as (H1 & H2 & H3) end.
    split_and!; try done. intros ns. rewrite H3, insert_all_keys, lookup_empty.
    split; [intros [?|[? ?]]; [by left|done]|]. intros [?|(load' & _ & _ & [=] & _)]. by left.
Qed.

End properties.

(** A tick writes nothing to the cluster, whatever it observes and however
    it ends, as long as the sources it is configured with only read. *)
Theorem tick_writes_nothing {W} `{GoRange, Cluster W} now (r : Reconciler (W * list write)) w log :
  quiet r -> (Reconcile now (r, (w, log))).2.2.2 = log.
Proof. intros Hq. by apply (Reconcile_log now r (w, log)). Qed.

(** *** Witnesses *)

(** A tick of the example cluster. *)
Definition exTick (namespaces : list string) (now : Time) :
    result kernel_error Report * (Reconciler fixture * fixture) :=
  Reconcile now (exReconciler namespaces Hour (of_int 10), exFixture).

Lemma failed_tick_accrues_nothing_witness :
  exists e r' w', exTick ["gone"%string] (2 * Hour) = (Err e, (r', w')) /\ r_Last r' = Hour.
Proof.
  assert (is_ok (exTick ["gone"%string] (2 * Hour)).1 = false) as Hf by (vm_compute; reflexivity).
  destruct (exTick ["gone"%string] (2 * Hour)) as [[rep|e] [r' w']] eqn:E; [discriminate Hf|].
  exists e, r', w'. split; [reflexivity|]. exact (proj1 (failed_tick_accrues_nothing _ _ _ _ _ _ E)).
Defined.

(** Two ticks, three hours apart. *)
Lemma ticks_partition_time_witness :
  let '(xs, (r', _)) := runTicks [2 * Hour; 5 * Hour] (exReconciler ["apps"%string] Hour (of_int 10), exFixture) in
  foldr Z.add 0 (map billedBy xs) = r_Last r' - Hour.
Proof.
  pose proof (ticks_partition_time [2 * Hour; 5 * Hour] (exReconciler ["apps"%string] Hour (of_int 10)) exFixture) as Ht.
  destruct (runTicks _ _) as [xs [r' w']]. apply Ht.
  - reflexivity.
  - vm_compute. discriminate.
  - repeat constructor; vm_compute; discriminate.
  - repeat constructor; vm_compute; try discriminate.
Defined.
