(* ===== verification/Adaptation.v ===== *)
(** * Resizing workloads ([technocore/kernel/adapt.go], [Target.AdaptedAt])

    The kernel turns the sizing advice of [Adapt] into changes of the cluster's
    deployments: applications only, one container only, at most one resize per
    cooldown, and never a growth that would take the period over its limit.
    [Advise] decides and writes nothing; [Adapt] applies what [Advise] said. *)

From S2P Require Import Prelude Effect Float64 GoTime Calendar TimeText Strconv GoStrings.
From S2P Require Import Histogram Series Profiles Pricing Tier Quantity Kube Ledger Limit Adapt Kernel.

Definition DefaultCooldown : Duration := 6 * Hour.
Definition AdaptedAtLabel : string := "farcast.sofmon.com/adapted-at".
Definition AdaptedFromLabel : string := "farcast.sofmon.com/adapted-from".

(** ** Advice *)

Definition setAdvice (adv : Advice) (a : Adaptation) : Adaptation :=
  mkAdaptation adv (ad_Namespace a) (ad_Deployment a) (ad_Container a) (ad_Replicas a)
    (ad_Stored a) (ad_Overridden a) (ad_AskedCPUMilli a) (ad_AskedMemMiB a).

Definition holding (why : string) (adv : Advice) : Advice :=
  mkAdvice (a_App adv) (a_CurrentCPUMilli adv) (a_CurrentMemMiB adv) (a_CPUMilli adv) (a_MemMiB adv)
    (a_Act adv) why (a_Stepped adv).

(** [max(a.Replicas, 1)] pods of it. *)
Definition ReplicasDeltaUSD (a : Adaptation) : float64 :=
  fmul (MonthlyDeltaUSD (ad_Advice a)) (of_int (Z.max (ad_Replicas a) 1)).

Definition hourlyDelta (a : Adaptation) : float64 :=
  let adv := ad_Advice a in
  let per := fsub (PodHourlyUSD (a_CPUMilli adv) (a_MemMiB adv))
                  (PodHourlyUSD (a_CurrentCPUMilli adv) (a_CurrentMemMiB adv)) in
  fmul per (of_int (Z.max (ad_Replicas a) 1)).

Definition AdaptedAt (t : Target) : option Time :=
  let v := (tg_Annotations t).[AdaptedAtLabel] in
  if decide (v = "") then None else ParseRFC3339 v.

Definition newAdaptation (t : Target) : Adaptation :=
  mkAdaptation (mkAdvice (tg_App t) (tg_CPUMilli t) (tg_MemMiB t) (tg_CPUMilli t) (tg_MemMiB t) false "" false)
    (tg_Namespace t) (tg_Name t) "" (tg_Replicas t) false false 0 0.

Definition containersMessage (n : Z) : string :=
  "the pod has " +:+ FormatInt n +:+
  " containers, and a per-pod profile cannot say which one to resize".

Definition cooldownMessage (left : Duration) : string :=
  "resized recently; leaving it alone for another " +:+ DurationString (Round left Minute).

Definition growthMessage (delta : float64) : string :=
  "growing this reservation by USD " +:+ FormatFixed2 delta +:+
  "/month would put the instance on course to reach its limit".

Section adaptation.
Context {W : Type}.

Definition cooldownLeft (r : Reconciler W) (t : Target) (now : Time) : Duration :=
  let cd := if r_Cooldown r <=? 0 then DefaultCooldown else r_Cooldown r in
  match AdaptedAt t with
  | None => 0
  | Some last => let left := i64 (cd - Sub now last) in if 0 <? left then left else 0
  end.

Definition wouldReachLimit (r : Reconciler W) (rep : Report) (a : Adaptation) (now : Time) : bool :=
  let hourly := fadd (rp_RateHourlyUSD rep) (hourlyDelta a) in
  let after := Assess (ac_Total (rp_Accrual rep)) (r_Limit r) hourly now (Period (r_Ledger r)).2 in
  as_ProjectedOver after || Acts (as_Level after).

(** Empty when nothing stands in the way. *)
Definition holdReason (r : Reconciler W) (t : Target) (rep : Report) (a : Adaptation) (now : Time) : string :=
  let left := cooldownLeft r t now in
  if 0 <? left then cooldownMessage left
  else
    let delta := ReplicasDeltaUSD a in
    if fltb fzero delta && wouldReachLimit r rep a now then growthMessage delta else "".

(** One target's advice, from the summaries and the index of each application's. *)
Definition adviseTarget (r : Reconciler W) (rep : Report) (now : Time) (summaries : list Summary)
    (profiles : gmap string nat) (t : Target) : Adaptation :=
  let a := newAdaptation t in
  match profiles !! tg_App t ≫= (summaries !!.) with
  | None => setAdvice (holding "no usage profile for this workload yet" (ad_Advice a)) a
  | Some summary =>
      match tg_Containers t with
      | [container] =>
          let advice := Recommend summary (r_Advice r) in
          let advice := mkAdvice (tg_App t) (a_CurrentCPUMilli advice) (a_CurrentMemMiB advice)
            (a_CPUMilli advice) (a_MemMiB advice) (a_Act advice) (a_Hold advice) (a_Stepped advice) in
          let a := mkAdaptation advice (tg_Namespace t) (tg_Name t) container (tg_Replicas t) false false 0 0 in
          if a_Act advice then
            let hold := holdReason r t rep a now in
            if decide (hold = "") then a
            else setAdvice (mkAdvice (tg_App t) (a_CurrentCPUMilli advice) (a_CurrentMemMiB advice)
                   (a_CurrentCPUMilli advice) (a_CurrentMemMiB advice) false hold false) a
          else a
      | cs => setAdvice (holding (containersMessage (Z.of_nat (length cs))) (ad_Advice a)) a
      end
  end.

Definition byApp (a b : Adaptation) : bool := string_ltb (a_App (ad_Advice a)) (a_App (ad_Advice b)).

Definition profileIndex (summaries : list Summary) : gmap string nat :=
  fold_left (fun m '(i, s) => <[su_App s := i]> m) (imap pair summaries) ∅.

(** [None] is the nil slice of a reconciler that keeps no profiles. *)
Definition Advise (r : Reconciler W) (rep : Report) (now : Time)
    : option (list Adaptation) * Reconciler W :=
  match r_Usage r with
  | None => (None, r)
  | Some store =>
      let summaries := Summarize store now in
      let apps := filter (fun t => tg_Tier t = App) (rp_Targets rep) in
      let out := sort_slice byApp (map (adviseTarget r rep now summaries (profileIndex summaries)) apps) in
      (Some out, setLastAdvice out r)
  end.

(** ** Applying it *)

Record AdaptResult := mkAdaptResult {
  are_Applied : list Adaptation;
  are_Failed : list (Adaptation * string)
}.

Definition stampOf (a : Advice) (now : Time) : gmap string string :=
  {[ AdaptedAtLabel := FormatRFC3339 now;
     AdaptedFromLabel := FormatInt (a_CurrentCPUMilli a) +:+ "m/" +:+ FormatInt (a_CurrentMemMiB a) +:+ "Mi" ]}.

(** What the cluster kept, beside what it was asked for. *)
Definition stored (a : Adaptation) (cpu mem : Z) : Adaptation :=
  let adv := ad_Advice a in
  mkAdaptation
    (mkAdvice (a_App adv) (a_CurrentCPUMilli adv) (a_CurrentMemMiB adv) cpu mem (a_Act adv) (a_Hold adv)
       (a_Stepped adv))
    (ad_Namespace a) (ad_Deployment a) (ad_Container a) (ad_Replicas a)
    true (negb (cpu =? a_CPUMilli adv) || negb (mem =? a_MemMiB adv)) (a_CPUMilli adv) (a_MemMiB adv).

Section clustered.
Context `{Cluster W}.

Definition adaptOne (now : Time) (res : AdaptResult) (a : Adaptation) : K W AdaptResult :=
  if negb (a_Act (ad_Advice a)) then mret res
  else
    let adv := ad_Advice a in
    x ← call (SetRequests (ad_Namespace a) (ad_Deployment a) (ad_Container a) (a_CPUMilli adv) (a_MemMiB adv)
                (stampOf adv now));
    match x with
    | Err e => mret (mkAdaptResult (are_Applied res) (are_Failed res ++ [(a, e)]))
    | Ok (cpu, mem) => mret (mkAdaptResult (are_Applied res ++ [stored a cpu mem]) (are_Failed res))
    end.

Definition Adapt (advice : list Adaptation) (now : Time) : K W AdaptResult :=
  foldE (adaptOne now) (mkAdaptResult [] []) advice.

(** [supervisor.adapt] of [technocore/cmd/technocore/main.go], but for what it logs: the advice of every tick, applied
    only when the operator has switched that on. *)
Definition adapt (rep : Report) : K W (option AdaptResult) :=
  r ← self;
  let '(advice, r) := Advise r rep (rp_At rep) in
  _ ← update (fun _ => r);
  match advice with
  | None | Some [] => mret None
  | Some advice =>
      if negb (r_Adapting r) then mret None
      else res ← Adapt advice (rp_At rep); mret (Some res)
  end.

End clustered.
End adaptation.

(** ** What advice says *)

Lemma profileIndex_fold (P : nat -> string -> Prop) l : forall (m : gmap string nat) app i,
  (forall app i, m !! app = Some i -> P i app) -> (forall i s, (i, s) ∈ l -> P i (su_App s)) ->
  fold_left (fun m '(i, s) => <[su_App s := i]> m) l m !! app = Some i -> P i app.
Proof.
  induction l as [|[j s] l IH]; intros m app i Hm Hl; cbn [fold_left]; [apply Hm|].
  apply IH; [|intros i' s' Hin; apply Hl; by right].
  intros app' i'. rewrite lookup_insert. case_decide as E; [|apply Hm].
  intros [= ->]. subst. apply Hl. by left.
Qed.

(** The index leads to a summary of the application it was asked for. *)
Lemma profileIndex_lookup summaries app s :
  profileIndex summaries !! app ≫= (summaries !!.) = Some s -> s ∈ summaries /\ su_App s = app.
Proof.
  intros E. apply bind_Some in E as (i & Hi & Hs).
  split; [by eapply list_elem_of_lookup_2|].
  assert (exists s', summaries !! i = Some s' /\ su_App s' = app) as (s' & Hs' & <-); [|congruence].
  refine (profileIndex_fold (fun i app => exists s', summaries !! i = Some s' /\ su_App s' = app)
            (imap pair summaries) ∅ app i _ _ Hi); [done|].
  intros j s' Hin. apply elem_of_lookup_imap in Hin as (j' & s'' & [= -> ->] & Hl). eauto.
Qed.

Section facts.
Context {W : Type}.
Implicit Types (r : Reconciler W) (t : Target) (rep : Report) (now : Time).

Definition grows (a : Adaptation) : bool := fltb fzero (ReplicasDeltaUSD a).

Lemma holdReason_empty r t rep a now : holdReason r t rep a now = "" ->
  cooldownLeft r t now <= 0 /\ (grows a = true -> wouldReachLimit r rep a now = false).
Proof.
  unfold holdReason, grows. destruct (Z.ltb_spec 0 (cooldownLeft r t now)); [done|].
  intros Hh. split; [done|]. intros Hg. rewrite Hg in Hh. by destruct (wouldReachLimit r rep a now).
Qed.

Lemma holdReason_cooldown r t rep a now : 0 < cooldownLeft r t now -> holdReason r t rep a now <> "".
Proof. unfold holdReason. intros Hc. by destruct (Z.ltb_spec 0 (cooldownLeft r t now)); [|lia]. Qed.

Lemma adviseTarget_names r rep now ss idx t :
  let a := adviseTarget r rep now ss idx t in
  ad_Namespace a = tg_Namespace t /\ ad_Deployment a = tg_Name t /\ ad_Replicas a = tg_Replicas t /\
  a_App (ad_Advice a) = tg_App t.
Proof. unfold adviseTarget. by repeat case_match. Qed.

(** A target that is not resized says why, and asks for what it has. *)
Lemma adviseTarget_hold r rep now ss idx t :
  let adv := ad_Advice (adviseTarget r rep now ss idx t) in
  if a_Act adv then a_Hold adv = "" else
    a_Hold adv <> "" /\ a_Stepped adv = false /\
    a_CPUMilli adv = a_CurrentCPUMilli adv /\ a_MemMiB adv = a_CurrentMemMiB adv.
Proof.
  unfold adviseTarget. destruct (_ ≫= _) as [s|]; [|done].
  destruct (tg_Containers t) as [|c [|c' cs]]; [done| |done].
  pose proof (recommend_hold s (r_Advice r)) as Hh. cbv zeta in Hh. destruct Hh as (Hc & Hm & Hh).
  cbn zeta. cbn [a_Act]. destruct (a_Act (Recommend s (r_Advice r))) eqn:E.
  - case_decide as Eh; done.
  - cbn. destruct Hh as (H1 & H2 & H3 & H4). split_and!; congruence.
Qed.

Lemma adviseTarget_act r rep now store t :
  let ss := Summarize store now in
  let a := adviseTarget r rep now ss (profileIndex ss) t in
  a_Act (ad_Advice a) = true ->
  tg_Containers t = [ad_Container a] /\
  (exists s, s ∈ ss /\ su_App s = tg_App t /\
     let adv := Recommend s (r_Advice r) in
     a_Act adv = true /\
     a_CPUMilli (ad_Advice a) = a_CPUMilli adv /\ a_MemMiB (ad_Advice a) = a_MemMiB adv) /\
  cooldownLeft r t now <= 0 /\ (grows a = true -> wouldReachLimit r rep a now = false).
Proof.
  intros ss. unfold adviseTarget. destruct (_ ≫= _) as [s|] eqn:Es; [|done].
  apply profileIndex_lookup in Es as [Hin Happ].
  destruct (tg_Containers t) as [|c [|c' cs]]; [done| |done]. cbn zeta. cbn [a_Act].
  destruct (a_Act (Recommend s (r_Advice r))) eqn:E; [|done].
  case_decide as Eh; [|done]. intros _. split; [done|]. split; [exists s; by cbn|].
  by apply holdReason_empty.
Qed.

Lemma adviseTarget_cooldown r rep now ss idx t : 0 < cooldownLeft r t now ->
  a_Act (ad_Advice (adviseTarget r rep now ss idx t)) = false.
Proof.
  intros Hc. unfold adviseTarget. destruct (_ ≫= _) as [s|]; [|done].
  destruct (tg_Containers t) as [|c [|c' cs]]; [done| |done]. cbn zeta. cbn [a_Act].
  destruct (a_Act (Recommend s (r_Advice r))) eqn:E; [|done].
  case_decide as Eh; [|done]. by apply holdReason_cooldown in Eh.
Qed.

Lemma advise_some r rep now store : r_Usage r = Some store ->
  let ss := Summarize store now in
  Advise r rep now =
    (Some (sort_slice byApp (map (adviseTarget r rep now ss (profileIndex ss))
             (filter (fun t => tg_Tier t = App) (rp_Targets rep)))),
     (Advise r rep now).2).
Proof. intros E. unfold Advise. by rewrite E. Qed.

Lemma advise_elem r rep now store out r' a : r_Usage r = Some store ->
  Advise r rep now = (Some out, r') -> a ∈ out ->
  exists t, t ∈ rp_Targets rep /\ tg_Tier t = App /\
    a = adviseTarget r rep now (Summarize store now) (profileIndex (Summarize store now)) t.
Proof.
  intros Eu E Hin. unfold Advise in E. rewrite Eu in E. injection E as <- _.
  rewrite sort_slice_perm, list_elem_of_fmap in Hin. destruct Hin as (t & -> & Ht).
  apply list_elem_of_filter in Ht as [? ?]. eauto.
Qed.

End facts.

(** ** The record of a resize *)

Lemma stamped_target adv t0 t :
  stampOf adv t0 ⊆ tg_Annotations t -> 0 <= Year t0 < 10000 ->
  AdaptedAt t = Some (t0 / Second * Second).
Proof.
  intros Hs Hy. unfold AdaptedAt.
  assert (tg_Annotations t !! AdaptedAtLabel = Some (FormatRFC3339 t0)) as ->.
  { eapply lookup_weaken; [|exact Hs]. apply lookup_insert_eq. }
  change (default "" (Some (FormatRFC3339 t0))) with (FormatRFC3339 t0).
  pose proof (parse_stamp t0 Hy) as Hp. case_decide as E; [|exact Hp].
  assert (ParseRFC3339 "" = None) as E0 by done. congruence.
Qed.

Lemma stamped_cooldown {W} (r : Reconciler W) adv t0 t now :
  stampOf adv t0 ⊆ tg_Annotations t -> 0 <= Year t0 < 10000 ->
  let cd := if r_Cooldown r <=? 0 then DefaultCooldown else r_Cooldown r in
  let last := t0 / Second * Second in
  cd <= maxDuration -> last <= now -> now - last <= maxDuration ->
  cooldownLeft r t now = Z.max 0 (last + cd - now).
Proof.
  intros Hs Hy cd last Hcd Hl Hn. unfold cooldownLeft. rewrite (stamped_target adv t0 t Hs Hy).
  fold cd last.
  assert (0 < cd) by (unfold cd; destruct (Z.leb_spec (r_Cooldown r) 0); [by vm_compute|lia]).
  rewrite Sub_small by (change minDuration with (- 2 ^ 63); lia).
  change maxDuration with (2 ^ 63 - 1) in *. rewrite i64_small by lia.
  destruct (Z.ltb_spec 0 (cd - (now - last))); lia.
Qed.

(** ** What applying writes *)

Definition acting (advice : list Adaptation) : list Adaptation :=
  filter (fun a => a_Act (ad_Advice a) = true) advice.

Definition writeOf (now : Time) (a : Adaptation) : write :=
  WroteRequests (ad_Namespace a) (ad_Deployment a) (ad_Container a) (a_CPUMilli (ad_Advice a))
    (a_MemMiB (ad_Advice a)) (stampOf (ad_Advice a) now).

(** The advice an entry of the result answers. *)
Definition askedOf (a : Adaptation) : string * string * Z * Z :=
  (ad_Namespace a, ad_Deployment a, a_CPUMilli (ad_Advice a), a_MemMiB (ad_Advice a)).

Definition answeredOf (a : Adaptation) : string * string * Z * Z :=
  (ad_Namespace a, ad_Deployment a, ad_AskedCPUMilli a, ad_AskedMemMiB a).

Definition answers (res : AdaptResult) : list (string * string * Z * Z) :=
  map answeredOf (are_Applied res) ++ map (fun f => askedOf f.1) (are_Failed res).

Record stored_ok (a : Adaptation) : Prop := {
  so_stored : ad_Stored a = true;
  so_overridden : ad_Overridden a = false <->
    a_CPUMilli (ad_Advice a) = ad_AskedCPUMilli a /\ a_MemMiB (ad_Advice a) = ad_AskedMemMiB a
}.

Lemma stored_stored a cpu mem : stored_ok (stored a cpu mem).
Proof.
  split; [done|]. cbn. rewrite orb_false_iff, !negb_false_iff, !Z.eqb_eq. done.
Qed.

Lemma adapt_fold {W} `{Cluster W} now advice : forall res (r : Reconciler (W * list write)) w log,
  Forall stored_ok (are_Applied res) ->
  exists res' w', foldE (adaptOne now) res advice (r, (w, log)) =
    (Ok res', (r, (w', log ++ map (writeOf now) (acting advice)))) /\
    answers res' ≡ₚ answers res ++ map askedOf (acting advice) /\
    Forall stored_ok (are_Applied res').
Proof.
  induction advice as [|a advice IH]; intros res r w log Hok.
  - exists res, w. cbn. by rewrite !app_nil_r.
  - cbn [foldE]. unfold acting. rewrite filter_cons. fold (acting advice).
    unfold mbind at 1, eff_bind at 1. unfold adaptOne at 1.
    destruct (a_Act (ad_Advice a)) eqn:Ea; cbn [negb].
    2:{ case_decide; [done|]. cbn [mret eff_ret]. apply IH, Hok. }
    case_decide; [|done].
    unfold mbind at 1, eff_bind at 1, call. cbn [snd fst SetRequests logged].
    unfold writing. cbn [fst snd].
    destruct (SetRequests _ _ _ _ _ _ w) as [[[cpu mem]|e] w1]; cbn [mret eff_ret].
    + destruct (IH (mkAdaptResult (are_Applied res ++ [stored a cpu mem]) (are_Failed res)) r w1
                  (log ++ [writeOf now a])) as (res' & w' & E & Hp & Hs).
      { cbn. apply Forall_app; split; [done|]. constructor; [apply stored_stored|done]. }
      exists res', w'. split; [|split; [|done]].
      * rewrite <- app_assoc in E. exact E.
      * rewrite Hp. unfold answers. cbn [are_Applied are_Failed]. rewrite map_app. cbn [map].
        change (answeredOf (stored a cpu mem)) with (askedOf a). solve_Permutation.
    + destruct (IH (mkAdaptResult (are_Applied res) (are_Failed res ++ [(a, e)])) r w1
                  (log ++ [writeOf now a])) as (res' & w' & E & Hp & Hs); [done|].
      exists res', w'. split; [|split; [|done]].
      * rewrite <- app_assoc in E. exact E.
      * rewrite Hp. unfold answers. cbn [are_Applied are_Failed]. rewrite map_app. cbn [map].
        solve_Permutation.
Qed.

(** ** Properties *)

(** What a resize rests on: the target and the profile the advice was made from. *)
Lemma acting_guarded {W} (r r' : Reconciler W) rep now store out a :
  r_Usage r = Some store -> Advise r rep now = (Some out, r') -> a ∈ out ->
  a_Act (ad_Advice a) = true ->
  exists t s, t ∈ rp_Targets rep /\ tg_Tier t = App /\
    ad_Namespace a = tg_Namespace t /\ ad_Deployment a = tg_Name t /\
    tg_Containers t = [ad_Container a] /\
    s ∈ Summarize store now /\ su_App s = tg_App t /\
    a_Act (Recommend s (r_Advice r)) = true /\
    a_CPUMilli (ad_Advice a) = a_CPUMilli (Recommend s (r_Advice r)) /\
    a_MemMiB (ad_Advice a) = a_MemMiB (Recommend s (r_Advice r)) /\
    cooldownLeft r t now <= 0 /\ (grows a = true -> wouldReachLimit r rep a now = false).
Proof.
  intros Hu Ha Hin Hact. destruct (advise_elem r rep now store out r' a Hu Ha Hin) as (t & Ht & Happ & ->).
  destruct (adviseTarget_act r rep now store t Hact) as (Hc & (s & Hs & Es & E1 & E2 & E3) & Hcd & Hg).
  destruct (adviseTarget_names r rep now (Summarize store now) (profileIndex (Summarize store now)) t)
    as (En & Ed & _). exists t, s. split_and!; done.
Qed.

(** What a tick asks of the cluster. *)
Lemma adapt_requests {W} `{Cluster W} (r r' : Reconciler (W * list write)) rep res w log w' log' :
  adapt rep (r, (w, log)) = (res, (r', (w', log'))) ->
  log' = log ++ if r_Adapting r then map (writeOf (rp_At rep)) (acting (default [] (Advise r rep (rp_At rep)).1)) else [].
Proof.
  unfold adapt, self, update, mbind at 1, eff_bind at 1, gets at 1. cbn [fst].
  destruct (Advise r rep (rp_At rep)) as [advice r1] eqn:Ea. assert (r_Adapting r1 = r_Adapting r) as Hon.
  { unfold Advise in Ea. destruct (r_Usage r); by injection Ea as _ <-. }
  unfold mbind at 1, eff_bind at 1, modify at 1. cbn [fst snd]. destruct advice as [[|a advice]|]; cbn [default fst].
  - intros [= _ _ _ <-]. destruct (r_Adapting r); by rewrite app_nil_r.
  - rewrite Hon. destruct (r_Adapting r); cbn [negb]; [|intros [= _ _ _ <-]; by rewrite app_nil_r].
    destruct (adapt_fold (rp_At rep) (a :: advice) (mkAdaptResult [] []) r1 w log) as (res' & w1 & E & _); [constructor|].
    unfold Adapt. rewrite (bind_run _ _ _ _ _ E). by intros [= _ _ _ <-].
  - intros [= _ _ _ <-]. destruct (r_Adapting r); by rewrite app_nil_r.
Qed.


(** Every application is answered for, once per deployment and in order of
    application, resized or not; one that is not resized keeps its reservation,
    carries no step and says why. *)
Theorem every_application_is_answered {W} (r r' : Reconciler W) rep now store out :
  r_Usage r = Some store -> Advise r rep now = (Some out, r') ->
  map (fun a => (ad_Namespace a, ad_Deployment a)) out ≡ₚ
    map (fun t => (tg_Namespace t, tg_Name t)) (filter (fun t => tg_Tier t = App) (rp_Targets rep)) /\
  StronglySorted (fun a b => string_le (a_App (ad_Advice a)) (a_App (ad_Advice b))) out /\
  (forall a, a ∈ out -> a_Act (ad_Advice a) = false ->
     a_Hold (ad_Advice a) <> "" /\ a_Stepped (ad_Advice a) = false /\
     a_CPUMilli (ad_Advice a) = a_CurrentCPUMilli (ad_Advice a) /\
     a_MemMiB (ad_Advice a) = a_CurrentMemMiB (ad_Advice a)) /\
  r_lastAdvice r' = out.
Proof.
  intros Hu Ha. split_and!.
  - unfold Advise in Ha. rewrite Hu in Ha. injection Ha as <- _.
    rewrite sort_slice_perm, map_map. apply Permutation_refl'. apply map_ext.
    intros t. by destruct (adviseTarget_names r rep now (Summarize store now)
      (profileIndex (Summarize store now)) t) as (-> & -> & _).
  - unfold Advise in Ha. rewrite Hu in Ha. injection Ha as <- _.
    apply sort_slice_strong.
    + intros a b. unfold byApp. auto with go.
    + done.
    + intros a b c. apply string_le_trans.
  - intros a Hin Hact. destruct (advise_elem r rep now store out r' a Hu Ha Hin) as (t & _ & _ & ->).
    pose proof (adviseTarget_hold r rep now (Summarize store now) (profileIndex (Summarize store now)) t) as Hh.
    cbn zeta in Hh. by rewrite Hact in Hh.
  - unfold Advise in Ha. rewrite Hu in Ha. by injection Ha as <- <-.
Qed.

(** Applying advice asks the cluster for exactly the resizes the advice says
    to make, in order, each stamped with the time and what it replaces; a refusal
    stops none of the others, every request is answered as applied or failed, and
    an applied one reports what the cluster kept and whether that differs from
    what was asked. *)
Theorem applies_exactly_the_advice {W} `{Cluster W} advice now (r : Reconciler (W * list write)) w log :
  exists res w', Adapt advice now (r, (w, log)) =
    (Ok res, (r, (w', log ++ map (writeOf now) (acting advice)))) /\
    answers res ≡ₚ map askedOf (acting advice) /\
    Forall stored_ok (are_Applied res).
Proof. apply (adapt_fold now advice (mkAdaptResult [] []) r w log). constructor. Qed.

(** The stamp a resize leaves keeps the workload alone for the cooldown: as
    long as the deployment carries it, any reconciler -- one restarted since,
    too -- advises no change before the cooldown has passed from the second the
    resize was stamped in. *)
Theorem resize_starts_the_cooldown {W} (r : Reconciler W) rep adv t0 t now summaries profiles :
  stampOf adv t0 ⊆ tg_Annotations t -> 0 <= Year t0 < 10000 ->
  let cd := if r_Cooldown r <=? 0 then DefaultCooldown else r_Cooldown r in
  cd <= maxDuration -> t0 / Second * Second <= now < t0 / Second * Second + cd ->
  cooldownLeft r t now = t0 / Second * Second + cd - now /\
  a_Act (ad_Advice (adviseTarget r rep now summaries profiles t)) = false.
Proof.
  intros Hs Hy cd Hcd Hn.
  pose proof (stamped_cooldown r adv t0 t now Hs Hy ltac:(fold cd; lia) ltac:(lia) ltac:(lia)) as Hl.
  fold cd in Hl. split; [lia|]. apply adviseTarget_cooldown. lia.
Qed.

(** *** Witnesses *)

(** An application measured at a tenth of what it reserves. *)
Definition exStore (at_ : Time) : Store :=
  Nat.iter 120 (fun s => RecordUsage s at_ "web" [mkPodUsage "web-1" 40 60 500 512]) (NewStore 24).

Definition exTarget (annotations : gmap string string) : Target :=
  mkTarget "apps" "web" App 1 1 fzero "web" ["main"%string] 500 512 annotations.

(** Adapting is switched on. *)
Definition exAdaptReconciler : Reconciler (fixture * list write) :=
  mkReconciler ["apps"%string] (mkLedger 0 (DateUTC 1970 2 1) ∅ ∅ [] []) (of_int 10) DefaultInterval None None ""
    ManagedBy Hour zeroObservation (Some (exStore Hour)) ∅ zeroConfig 0 true [] [].

Definition exTick : Report :=
  mkReport Hour 0 0 false ["apps"%string] [] 0 0 false [] 0 fzero ∅ ∅
    (Accrued (mkLedger 0 (DateUTC 1970 2 1) ∅ ∅ [] []))
    (Assess fzero (of_int 10) fzero Hour (DateUTC 1970 2 1)) [exTarget ∅] 0 0 [].

Definition exAdapted : result kernel_error (option AdaptResult) * (Reconciler (fixture * list write) * (fixture * list write)) :=
  adapt exTick (exAdaptReconciler, (exFixture, [])).

