(* ===== verification/Shutdown.v ===== *)
(** * The protective shutdown ([technocore/kernel/shutdown.go])

    What a cost shutdown may stop, in what order, and what it reports. *)

From S2P Require Import Prelude Effect Float64 GoTime GoStrings Tier Kube Ledger Limit Kernel.

(** Dearer first, then by name. *)
Definition dearer (a b : Target) : bool :=
  if negb (feqb (tg_HourlyUSD a) (tg_HourlyUSD b)) then fltb (tg_HourlyUSD b) (tg_HourlyUSD a)
  else string_ltb (tg_Name a) (tg_Name b).

(** [Report.Stoppable]. *)
Definition StoppableTargets (rep : Report) : list Target :=
  sort_slice dearer
    (filter (fun t => Tier.Stoppable (tg_Tier t) = true /\ 0 < tg_Replicas t) (rp_Targets rep)).

Definition Protected (rep : Report) : list Target :=
  filter (fun t => Tier.Stoppable (tg_Tier t) = false) (rp_Targets rep).

Definition AtFloor (rep : Report) : bool :=
  Acts (as_Level (rp_Assessment rep)) && Complete rep
  && (match StoppableTargets rep with [] => true | _ => false end).

Definition SystemProtected (rep : Report) : float64 :=
  fold_left (fun sum w =>
    if decide (wl_Tier w = System \/ wl_Tier w = Tier.Kernel) then fadd sum (wl_HourlyUSD w) else sum)
    (rp_Workloads rep) fzero.

Record ShutdownResult := mkShutdownResult {
  sr_At : Time;
  sr_Stopped : list Target;
  sr_Failed : list (Target * string);
  sr_AtFloor : bool;
  sr_Unclassified : Z
}.

Definition StoppedUSDPerHour (r : ShutdownResult) : float64 :=
  fold_left (fun sum t => fadd sum (tg_HourlyUSD t)) (sr_Stopped r) fzero.

(** [ErrNotAuthorised], with the level and the fraction it reports. *)
Inductive shutdown_error := ErrNotAuthorised (level : Level) (fraction : float64).

Section shutdown.
Context {W : Type} `{Cluster W}.

Definition stopTarget (acc : list Target * list (Target * string)) (t : Target)
    : eff W shutdown_error (list Target * list (Target * string)) :=
  if negb (Tier.Stoppable (tg_Tier t)) then mret acc
  else
    x ← try (Scale (tg_Namespace t) (tg_Name t) 0);
    match x with
    | Err e => mret (acc.1, acc.2 ++ [(t, e)])
    | Ok _ => mret (acc.1 ++ [t], acc.2)
    end.

Definition Shutdown (rep : Report) (now : Time) : eff W shutdown_error ShutdownResult :=
  let level := as_Level (rp_Assessment rep) in
  if negb (Acts level) then fail (ErrNotAuthorised level (as_Fraction (rp_Assessment rep)))
  else
    out ← foldE stopTarget ([], []) (StoppableTargets rep);
    mret (mkShutdownResult now out.1 out.2
            (Complete rep && (match StoppableTargets rep with [] => true | _ => false end))
            (rp_Unclassified rep)).

End shutdown.

(** ** The list that is stopped *)

Lemma dearer_asym a b : dearer a b = true -> dearer b a = false.
Proof.
  unfold dearer. intros Hab.
  assert (forall x y, feqb x y = feqb y x) as Hsym.
  { intros x y. unfold feqb, SpecFloat.SFeqb.
    assert (forall x y, SpecFloat.SFcompare y x = option_map CompOpp (SpecFloat.SFcompare x y)) as Hc.
    { clear. intros [[]|[]| |[] m1 e1] [[]|[]| |[] m2 e2]; try done; cbn;
        rewrite (Z.compare_antisym e1 e2);
        assert (Pos.compare_cont Eq m2 m1 = CompOpp (Pos.compare_cont Eq m1 m2)) as ->
          by (by rewrite Pos.compare_cont_antisym);
        destruct (e1 ?= e2); cbn; rewrite ?CompOpp_involutive; done. }
    rewrite (Hc x y). by destruct (SpecFloat.SFcompare x y) as [[]|]. }
  rewrite Hsym. destruct (feqb (tg_HourlyUSD a) (tg_HourlyUSD b)); cbn [negb] in *.
  - auto with go.
  - destruct (fltb (tg_HourlyUSD a) (tg_HourlyUSD b)) eqn:E; [|done].
    pose proof (fltb_fle _ _ E) as Hle. destruct (fle_not_nan _ _ Hle) as [Na Nb].
    rewrite fltb_negb in Hab by done. apply fleb_fle in Hle. by rewrite Hle in Hab.
Qed.

(** Neighbours are in order: never a cheaper target before a dearer one. *)
Lemma stoppable_sorted rep : Sorted (leq_of dearer) (StoppableTargets rep).
Proof. apply sort_slice_sorted, dearer_asym. Qed.

Lemma stoppable_spec rep t :
  t ∈ StoppableTargets rep <-> t ∈ rp_Targets rep /\ tg_Tier t = App /\ 0 < tg_Replicas t.
Proof.
  unfold StoppableTargets. rewrite sort_slice_perm, list_elem_of_filter, Stoppable_App. tauto.
Qed.

Lemma leq_dearer_cost a b :
  is_nan (tg_HourlyUSD a) = false -> is_nan (tg_HourlyUSD b) = false ->
  leq_of dearer a b -> fle (tg_HourlyUSD b) (tg_HourlyUSD a).
Proof.
  intros Na Nb. unfold leq_of, dearer. destruct (feqb _ _) eqn:E; cbn [negb].
  - intros _. apply fleb_fle. unfold feqb, fleb, SpecFloat.SFeqb, SpecFloat.SFleb in *.
    by destruct (SpecFloat.SFcompare (tg_HourlyUSD b) (tg_HourlyUSD a)) as [[]|].
  - rewrite fltb_negb by done. intros Hf. by apply negb_false_iff, fleb_fle in Hf.
Qed.

(** With costs that are numbers, the whole list descends by cost. *)
Lemma stoppable_descends rep :
  Forall (fun t => is_nan (tg_HourlyUSD t) = false) (rp_Targets rep) ->
  StronglySorted (fun a b => fle (tg_HourlyUSD b) (tg_HourlyUSD a)) (StoppableTargets rep).
Proof.
  intros Hn. apply Sorted_StronglySorted.
  { intros a b c Hab Hbc. by eapply fle_trans. }
  assert (Forall (fun t => is_nan (tg_HourlyUSD t) = false) (StoppableTargets rep)) as Hn'.
  { rewrite Forall_forall in Hn. apply Forall_forall. intros t [Ht _]%stoppable_spec. by apply Hn. }
  pose proof (stoppable_sorted rep) as Hs. revert Hs Hn'. clear Hn.
  induction 1 as [|x l Hs IH Hd]; intros Hn; constructor.
  - apply IH. by apply Forall_cons in Hn as [_ ?].
  - destruct Hd as [|y l Hd]; constructor. apply Forall_cons in Hn as [Nx Hn].
    apply Forall_cons in Hn as [Ny _]. by apply leq_dearer_cost.
Qed.

(** ** The calls *)

Definition stops (t : Target) : write := WroteScale (tg_Namespace t) (tg_Name t) 0.

Section calls.
Context {W : Type} `{Cluster W}.

(** One target: a write, and a place in one of the two lists. *)
Lemma stopTarget_log acc t (w : W * list write) :
  tg_Tier t = App ->
  exists s f w', stopTarget acc t w = (Ok (acc.1 ++ s, acc.2 ++ f), w') /\
    w'.2 = w.2 ++ [stops t] /\ s ++ f.*1 = [t].
Proof.
  intros Ht. unfold stopTarget. apply Stoppable_App in Ht as ->. cbn [negb].
  unfold mbind, eff_bind, try. cbn [Scale logged]. unfold writing.
  destruct (Scale (tg_Namespace t) (tg_Name t) 0 w.1) as [[u|e] w1]; cbn.
  - exists [t], [], (w1, w.2 ++ [stops t]). by rewrite app_nil_r.
  - exists [], [(t, e)], (w1, w.2 ++ [stops t]). by rewrite app_nil_r.
Qed.

Lemma stopTargets_log l : forall acc (w : W * list write),
  Forall (fun t => tg_Tier t = App) l ->
  exists stopped failed w', foldE stopTarget acc l w = (Ok (acc.1 ++ stopped, acc.2 ++ failed), w') /\
    w'.2 = w.2 ++ map stops l /\ stopped ++ failed.*1 ≡ₚ l.
Proof.
  induction l as [|t l IH]; intros acc w Hall; cbn [foldE].
  - exists [], [], w. rewrite !app_nil_r. destruct acc. by split_and!.
  - apply Forall_cons in Hall as [Ht Hall].
    destruct (stopTarget_log acc t w Ht) as (s1 & f1 & w1 & E1 & Hl1 & Hp1).
    unfold mbind, eff_bind. rewrite E1.
    destruct (IH (acc.1 ++ s1, acc.2 ++ f1) w1 Hall) as (s & f & w' & E & Hl & Hp).
    cbn [fst snd] in E. exists (s1 ++ s), (f1 ++ f), w'. rewrite E, <- !app_assoc. split; [done|]. split.
    + rewrite Hl, Hl1, <- app_assoc. done.
    + rewrite fmap_app. change (t :: l) with ([t] ++ l). rewrite <- Hp1, <- Hp. solve_Permutation.
Qed.

(** Stopping never ends early: a call that fails is recorded. *)
Lemma stopTargets_ok l : forall acc (w : W), is_ok (foldE stopTarget acc l w).1 = true.
Proof.
  induction l as [|t l IH]; intros acc w; cbn [foldE]; [done|].
  unfold mbind, eff_bind. destruct (stopTarget acc t w) as [[a|e] w1] eqn:Es; [apply IH|].
  unfold stopTarget in Es. destruct (negb _); [done|]. unfold mbind, eff_bind, try in Es.
  by destruct (Scale _ _ _ _) as [[]].
Qed.

End calls.

(** ** Properties *)

(** C20: on a cluster that may fail any call, an authorised shutdown scales to
    zero every running application deployment, once, in the order of
    [Stoppable], and writes nothing else; each is reported as stopped or as
    failed, and none as both. *)
Theorem shutdown_stops_applications `{Cluster W} rep now (w : W) log :
  Acts (as_Level (rp_Assessment rep)) = true ->
  exists out w', Shutdown rep now (w, log) = (Ok out, w') /\
    w'.2 = log ++ map (fun t => WroteScale (tg_Namespace t) (tg_Name t) 0) (StoppableTargets rep) /\
    (forall t, t ∈ StoppableTargets rep <-> t ∈ rp_Targets rep /\ tg_Tier t = App /\ 0 < tg_Replicas t) /\
    sr_Stopped out ++ (sr_Failed out).*1 ≡ₚ StoppableTargets rep.
Proof.
  intros Ha. unfold Shutdown. rewrite Ha. cbn [negb].
  destruct (stopTargets_log (StoppableTargets rep) ([], []) (w, log)) as (s & f & w' & E & Hl & Hp).
  { apply Forall_forall. intros t Ht. by apply stoppable_spec in Ht as (_ & ? & _). }
  unfold mbind, eff_bind. rewrite E. cbn. eexists _, w'. split; [done|].
  split; [exact Hl|]. split; [apply stoppable_spec|exact Hp].
Qed.

Definition exTarget (name : string) (tier : Tier) (replicas : Z) (cost : float64) : Target :=
  mkTarget "apps" name tier replicas 1 cost name ["main"%string] 500 1024 ∅.

Definition exReport (level : Level) (unreachable : list string) (targets : list Target) : Report :=
  mkReport 0 0 0 false [] unreachable 0 0 false [] 0 fzero ∅ ∅
    (mkAccrual fzero fzero fzero false 0 fzero [])
    (mkAssessment fzero fzero (of_int 1) level fzero false 0) targets 0 0 [].

Definition exTargets : list Target :=
  [exTarget "cheap" App 1 (of_int 1); exTarget "tunnel" System 1 (of_int 9);
   exTarget "stuck" App 2 (of_int 5); exTarget "asleep" App 0 (of_int 7)].

Lemma shutdown_stops_applications_witness :
  exists out w', Shutdown (exReport LevelReached [] exTargets) 0 (exFixture, []) = (Ok out, w') /\
    w'.2 = [WroteScale "apps" "stuck" 0; WroteScale "apps" "cheap" 0] /\
    map tg_Name (sr_Stopped out) = ["cheap"%string].
Proof.
  destruct (shutdown_stops_applications (exReport LevelReached [] exTargets) 0 exFixture [] eq_refl)
    as (out & w' & E & Hl & _).
  exists out, w'. split; [exact E|]. split; [rewrite Hl; vm_compute; reflexivity|].
  assert (match (Shutdown (exReport LevelReached [] exTargets) 0 (exFixture, [])).1 with
          | Ok out => map tg_Name (sr_Stopped out) = ["cheap"%string] | Err _ => False end) as Hs
    by (vm_compute; reflexivity).
  rewrite E in Hs. exact Hs.
Defined.

(** The most expensive deployments are stopped first. *)
Theorem shutdown_order rep :
  Forall (fun t => is_nan (tg_HourlyUSD t) = false) (rp_Targets rep) ->
  StronglySorted (fun a b => fle (tg_HourlyUSD b) (tg_HourlyUSD a)) (StoppableTargets rep).
Proof. apply stoppable_descends. Qed.

(** Without an accrual that reached the limit a shutdown is an error that
    names the level, and the cluster is not called at all, whatever is projected. *)
Theorem shutdown_not_authorised `{Cluster W} rep now (w : W) :
  (as_Level (rp_Assessment rep) <> LevelReached <->
   Shutdown rep now w = (Err (ErrNotAuthorised (as_Level (rp_Assessment rep)) (as_Fraction (rp_Assessment rep))), w)).
Proof.
  unfold Shutdown, Acts. split.
  - intros Hl. rewrite bool_decide_eq_false_2 by done. done.
  - intros E Hl. rewrite Hl, bool_decide_eq_true_2 in E by done. cbn [negb] in E.
    pose proof (stopTargets_ok (StoppableTargets rep) ([], []) w) as Hok.
    unfold mbind, eff_bind in E. by destruct (foldE _ _ _ _) as [[a|e] w1].
Qed.

(** The instance floor is claimed only when the limit is reached, the whole
    instance was seen, and no application deployment is left running: never on a
    partial picture, and never because a stop failed. *)
Theorem floor_is_certain `{Cluster W} rep now (w w' : W) out :
  Shutdown rep now w = (Ok out, w') ->
  (sr_AtFloor out = true <->
   rp_Unreachable rep = [] /\ forall t, t ∈ rp_Targets rep -> tg_Tier t = App -> tg_Replicas t <= 0) /\
  AtFloor rep = sr_AtFloor out /\ sr_Unclassified out = rp_Unclassified rep.
Proof.
  unfold Shutdown, AtFloor. destruct (Acts _); [|done]. cbn [negb].
  unfold mbind, eff_bind. destruct (foldE _ _ _ _) as [[a|e] w1]; [|done]. intros [= <- _]. cbn.
  split; [|done]. rewrite andb_true_iff. unfold Complete.
  split.
  - intros [H1 H2]. split; [by destruct (rp_Unreachable rep)|].
    intros t Ht Ha. apply Z.nlt_ge. intros Hr.
    assert (t ∈ StoppableTargets rep) as Hin by by apply stoppable_spec.
    destruct (StoppableTargets rep); [by apply not_elem_of_nil in Hin|done].
  - intros [-> Hall]. split; [done|]. destruct (StoppableTargets rep) as [|t l] eqn:E; [done|].
    assert (t ∈ StoppableTargets rep) as (Hin & Ha & Hr)%stoppable_spec by (rewrite E; by left).
    specialize (Hall t Hin Ha). lia.
Qed.
