(* ===== verification/Checkpoint.v ===== *)
(** * Surviving a restart ([technocore/kernel/checkpoint.go] and the persistence
    half of [usage.go])

    What the reconciler saves and how it is seeded from it.  The stores are
    interfaces, as in the source; the ConfigMap codecs behind them are not
    modelled. *)

From S2P Require Import Prelude Effect Float64 GoTime Calendar Histogram Series Profiles Adapt Ledger Limit Kernel.

Definition CheckpointVersion : Z := 1.

Record Checkpoint := mkCheckpoint {
  cp_Version : Z;
  cp_Ledger : Ledger.Snapshot;
  cp_Last : Time;
  cp_Observed : Observation
}.

(** [Load]: [None] is a first run. *)
Class CheckpointStore (W : Type) := {
  LoadCheckpoint : eff W string (option Checkpoint);
  SaveCheckpoint : Checkpoint -> eff W string unit
}.

Inductive checkpoint_error :=
| ErrLoadCheckpoint (e : string)
| ErrRestoreLedger (e : restore_error).

Section checkpoint.
Context {W : Type} `{GoRange, CheckpointStore W}.

(** [Reconciler.Restore]. *)
Definition RestoreCheckpoint : eff (Reconciler W * W) checkpoint_error bool := fun s =>
  let '(x, w) := LoadCheckpoint s.2 in
  let r := s.1 in
  match x with
  | Err e => (Err (ErrLoadCheckpoint e), (r, w))
  | Ok None => (Ok false, (r, w))
  | Ok (Some cp) =>
      let '(start, end_) := Period (r_Ledger r) in
      if negb (sn_PeriodStart (cp_Ledger cp) =? start) || negb (sn_PeriodEnd (cp_Ledger cp) =? end_)
      then (Ok false, (r, w))
      else
        match Ledger.Restore (cp_Ledger cp) with
        | Err e => (Err (ErrRestoreLedger e), (r, w))
        | Ok l => (Ok true, (setObserved (cp_Observed cp) (setLast (cp_Last cp) (setLedger l r)), w))
        end
  end.

(** What [Reconciler.Save] hands to the store. *)
Definition checkpointOf (r : Reconciler W) : Checkpoint :=
  mkCheckpoint CheckpointVersion (Ledger.SnapshotOf (r_Ledger r)) (r_Last r) (r_Observed r).

(** [Reconciler.Save]. *)
Definition SaveReconciler : eff (Reconciler W * W) string unit := fun s =>
  let '(x, w) := SaveCheckpoint (checkpointOf s.1) s.2 in (x, (s.1, w)).

End checkpoint.

(** ** Usage documents *)

Definition ProfilesVersion : Z := 1.

Record ProfilesDoc := mkProfilesDoc {
  pd_Version : Z;
  pd_At : Time;
  pd_Store : Profiles.Snapshot;
  pd_Unavailable : list unmeasured;
  pd_Advice : list Adaptation;
  pd_Adapting : bool;
  pd_TrimmedTo : Z;
  pd_Dropped : list string
}.

Record ProfileStore (W : Type) := mkProfileStore {
  LoadProfiles : eff W string (option ProfilesDoc);
  SaveProfiles : ProfilesDoc -> eff W string unit;
  Budget : Z
}.
Arguments LoadProfiles {W} _.
Arguments SaveProfiles {W} _.
Arguments Budget {W} _.

Inductive usage_store_error (E : Type) :=
| ErrLoadProfiles (e : string)
| ErrProfilesVersion (v : Z)
| ErrMarshal (e : E)
| ErrSaveProfiles (e : string)
| OutOfFuel.
Arguments ErrLoadProfiles {E} e.
Arguments ErrProfilesVersion {E} v.
Arguments ErrMarshal {E} e.
Arguments ErrSaveProfiles {E} e.
Arguments OutOfFuel {E}.

Section usage.
Context {W E : Type} `{GoRange}.

(** The encoded length of a store document, or its error. *)
Variable marshal : Profiles.Snapshot -> result E Z.

Definition setStore (st : Store) (r : Reconciler W) : Reconciler W :=
  setUsage (Some st) (r_lastReading r) (r_usageUnavailable r) r.

Definition RestoreUsage (store : option (ProfileStore W)) :
    eff (Reconciler W * W) (usage_store_error E) bool := fun s =>
  match r_Usage s.1, store with
  | Some _, Some store =>
      let '(x, w) := LoadProfiles store s.2 in
      match x with
      | Err e => (Err (ErrLoadProfiles e), (s.1, w))
      | Ok None => (Ok false, (s.1, w))
      | Ok (Some doc) =>
          match Profiles.Restore (pd_Store doc) with
          | Err v => (Err (ErrProfilesVersion v), (s.1, w))
          | Ok st => (Ok true, (setStore st s.1, w))
          end
      end
  | _, _ => (Ok false, s)
  end.

Definition SaveUsage (store : option (ProfileStore W)) (now : Time) :
    eff (Reconciler W * W) (usage_store_error E) unit := fun s =>
  match r_Usage s.1, store with
  | Some st, Some store =>
      let configured := StoreHours st in
      let '(_, st) := Forget st (now - configured * Hour) in
      match Trim marshal st (Budget store) with
      | None => (Err OutOfFuel, (setStore st s.1, s.2))
      | Some (Err e, st) => (Err (ErrMarshal e), (setStore st s.1, s.2))
      | Some (Ok t, st) =>
          let r := setStore st s.1 in
          let doc := mkProfilesDoc ProfilesVersion now (Profiles.SnapshotOf st) (r_usageUnavailable r)
                       (r_lastAdvice r) (r_Adapting r)
                       (if Shortened t configured then t_Hours t else 0) (t_Dropped t) in
          let '(x, w) := SaveProfiles store doc s.2 in
          (match x with Ok u => Ok u | Err e => Err (ErrSaveProfiles e) end, (r, w))
      end
  | _, _ => (Ok tt, s)
  end.

End usage.

(** ** Properties *)

Section properties.
Context {W : Type} `{GoRange}.

(** What a kernel saves, a restarted kernel configured for the same period
    takes back whole: when it last accrued, what it observed, and a ledger with
    the same buckets, applications and confirmations, hence the same total. *)
Theorem restart_resumes `{CheckpointStore W} (r r0 : Reconciler W) (w w' : W) :
  ledger_wf (r_Ledger r) -> hours_fit (r_Ledger r) ->
  Period (r_Ledger r0) = Period (r_Ledger r) ->
  LoadCheckpoint w = (Ok (Some (checkpointOf r)), w') ->
  exists r', RestoreCheckpoint (r0, w) = (Ok true, (r', w')) /\
    r_Last r' = r_Last r /\ r_Observed r' = r_Observed r /\
    Period (r_Ledger r') = Period (r_Ledger r) /\
    l_hourly (r_Ledger r') = l_hourly (r_Ledger r) /\ l_apps (r_Ledger r') = l_apps (r_Ledger r) /\
    l_confirmations (r_Ledger r') = l_confirmations (r_Ledger r) /\
    ac_Total (Accrued (r_Ledger r')) = ac_Total (Accrued (r_Ledger r)).
Proof.
  intros Hwf Hfit Hp Hload. unfold RestoreCheckpoint. cbn [fst snd]. rewrite Hload, Hp.
  unfold checkpointOf, Period at 1. cbn [cp_Ledger Ledger.SnapshotOf sn_PeriodStart sn_PeriodEnd].
  rewrite !Z.eqb_refl. cbn [negb orb]. change (Ledger.mkSnapshot _ _ _ _ _ _) with (Ledger.SnapshotOf (r_Ledger r)).
  rewrite restore_snapshot by done. eexists. split; [done|]. by split_and!.
Qed.

(** A checkpoint of another period is ignored whole, and a first run and an
    unreadable checkpoint change nothing either: only a checkpoint of this
    reconciler's own period is ever merged. *)
Theorem foreign_checkpoint_ignored `{CheckpointStore W} (r : Reconciler W) (w : W) :
  match RestoreCheckpoint (r, w) with
  | (Ok true, (r', w')) => exists cp l, LoadCheckpoint w = (Ok (Some cp), w') /\
      Period (r_Ledger r) = (sn_PeriodStart (cp_Ledger cp), sn_PeriodEnd (cp_Ledger cp)) /\
      Ledger.Restore (cp_Ledger cp) = Ok l /\ r_Ledger r' = l /\ r_Last r' = cp_Last cp
  | (_, (r', _)) => r' = r
  end.
Proof.
  unfold RestoreCheckpoint. cbn [fst snd]. destruct (LoadCheckpoint w) as [[[cp|]|e] w'] eqn:E; [|done..].
  unfold Period. cbn. destruct (Z.eqb_spec (sn_PeriodStart (cp_Ledger cp)) (l_periodStart (r_Ledger r))) as [E1|];
    [|done].
  destruct (Z.eqb_spec (sn_PeriodEnd (cp_Ledger cp)) (l_periodEnd (r_Ledger r))) as [E2|]; [|done]. cbn [negb orb].
  destruct (Ledger.Restore (cp_Ledger cp)) as [l|e] eqn:El; [|done].
  exists cp, l. rewrite E1, E2. by split_and!.
Qed.

(** Saving usage always finishes, and what is kept fits the store's byte
    budget unless nothing is left to drop: applications not seen for a whole
    window are gone, any other application dropped was seen no later than every
    one kept, and hours are only given up before applications are. *)
Theorem usage_fits_budget {E} (marshal : Profiles.Snapshot -> result E Z) (ps : ProfileStore W)
    (now : Time) (r : Reconciler W) (w : W) (st : Store) :
  r_Usage r = Some st -> 0 < st_hours st -> st_profiles st !! ""%string = None ->
  match SaveUsage marshal (Some ps) now (r, w) with
  | (Ok _, (r', _)) => exists st' b, r_Usage r' = Some st' /\
      marshal (Profiles.SnapshotOf st') = Ok b /\
      (b <= effective (Budget ps) \/ st_profiles st' = ∅) /\
      1 <= st_hours st' <= st_hours st /\
      (forall app p, st_profiles st' !! app = Some p -> now - st_hours st * Hour <= p_LastSeen p) /\
      (forall app p app' p', st_profiles st !! app = Some p -> st_profiles st' !! app = None ->
        now - st_hours st * Hour <= p_LastSeen p -> st_profiles st' !! app' = Some p' ->
        p_LastSeen p <= p_LastSeen p' /\ st_hours st' = 1)
  | (Err e, _) => e <> OutOfFuel
  end.
Proof.
  intros Hu Hh Hne. unfold SaveUsage. cbn [fst]. rewrite Hu. unfold StoreHours.
  set (cut := now - st_hours st * Hour).
  pose proof (forget_spec st cut) as Hf. destruct (Forget st cut) as [gone st1].
  destruct Hf as (Hh1 & _ & Hgone & Hlook).
  destruct (trim_terminates marshal st1 (Budget ps)) as (x & st' & -> & Hx).
  { lia. } { rewrite Hlook. by case_decide. }
  destruct x as [t|e]; [|done]. destruct Hx as (_ & Hb & Hfit & Hinv).
  cbv beta iota zeta. cbn [fst snd].
  match goal with |- context [SaveProfiles ps ?d w] => destruct (SaveProfiles ps d w) as [[u|e] w1] end; [|done].
  exists st', (t_Bytes t). cbn. split_and!; try done.
  - pose proof (ti_hours _ _ _ Hinv). lia.
  - pose proof (ti_hours _ _ _ Hinv). lia.
  - intros app p Hp. apply (ti_seen _ _ _ Hinv) in Hp. apply fmap_Some in Hp as (q & Hq & Eq). rewrite Eq.
    rewrite Hlook in Hq. case_decide as Hin; [done|]. rewrite Hgone in Hin.
    apply Z.nlt_ge. intros Hlt. apply Hin. by exists q.
  - intros app p app' p' Hp Hnone Hcut Hp'.
    assert (st_profiles st1 !! app = Some p) as Hp1.
    { rewrite Hlook. case_decide as Hin; [|done]. apply Hgone in Hin as (q & Hq & Hlt). rewrite Hp in Hq.
      injection Hq as <-. lia. }
    assert (app ∈ t_Dropped t) as Hd.
    { pose proof (proj1 (ti_dom _ _ _ Hinv app) ltac:(eauto)) as [?|[? ?]]; [done|congruence]. }
    split; [by eapply (ti_lru _ _ _ Hinv)|]. apply (ti_last _ _ _ Hinv). intros E0. rewrite E0 in Hd.
    by apply not_elem_of_nil in Hd.
Qed.

End properties.

(** *** Witnesses *)

(** A store that holds one checkpoint in memory. *)
#[export] Instance memoryStore : CheckpointStore (option Checkpoint) := {|
  LoadCheckpoint s := (Ok s, s);
  SaveCheckpoint cp _ := (Ok tt, Some cp)
|}.

Definition exSaved : Reconciler (option Checkpoint) := setLedger exampleLedger (exReconciler [] (3 * Hour) (of_int 10)).

Lemma restart_resumes_witness :
  exists w r', SaveReconciler (exSaved, None) = (Ok tt, (exSaved, w)) /\
    RestoreCheckpoint (exReconciler [] zero_time (of_int 10), w) = (Ok true, (r', w)) /\
    r_Last r' = 3 * Hour /\ l_hourly (r_Ledger r') = l_hourly exampleLedger.
Proof.
  assert (hours_fit exampleLedger) as Hfit.
  { intros h [v Hv]. cbn in Hv.
    repeat (apply lookup_insert_Some in Hv as [[<- _]|[_ Hv]]; [lia|]).
    apply lookup_singleton_Some in Hv as [<- _]. lia. }
  exists (Some (checkpointOf exSaved)).
  destruct (restart_resumes exSaved (exReconciler [] zero_time (of_int 10))
    (Some (checkpointOf exSaved)) (Some (checkpointOf exSaved)) exampleLedger_wf Hfit ltac:(reflexivity) ltac:(reflexivity))
    as (r' & H1 & H2 & _ & _ & H3 & _).
  exists r'. split; [reflexivity|]. split; [exact H1|]. split; [exact H2|exact H3].
Defined.

(** Profiles of two applications, too large by one for the budget of the store. *)
Definition exUsage : Store :=
  RecordUsage (RecordUsage (NewStore 2) (50 * Hour) "old" [mkPodUsage "p" 10 20 100 100])
    (51 * Hour) "new" [mkPodUsage "q" 10 20 100 100].

Definition countBytes (s : Profiles.Snapshot) : result string Z := Ok (Z.of_nat (size (Profiles.sn_Profiles s))).
