(* ===== verification/LogicalKey.v ===== *)
(** * Logical keys and their sealed form ([datasphere/internal/crypto/crypto.go],
      [name.go])

    The rules of an object's logical key, and the plaintext its name is sealed
    as: a length, the key's bytes and zeros up to a multiple of 32.  An
    [ErrIntegrity] carries nothing, so it is the unit. *)

From Stdlib Require Import Ascii.
From S2P Require Import Prelude GoStrings.

Definition KeyLen : Z := 32.
Definition KeyIDLen : Z := 8.
Definition MaxKeyBytes : Z := 1024.
Definition MaxKeySegments : Z := 30.
Definition NamePadUnit : Z := 32.

Definition slash : ascii := "/".

(** Why a key was refused ([wrapKeyErr]'s message). *)
Inductive key_error :=
| KeyEmpty
| KeyNotUTF8
| KeyTooLong (n : Z)
| KeyTrailingSlash
| KeyTooManySegments (n : Z)
| KeyEmptySegment.

Definition ValidateLogicalKey (key : string) : result key_error unit :=
  if decide (key = "") then Err KeyEmpty
  else if negb (ValidString key) then Err KeyNotUTF8
  else if MaxKeyBytes <? len key then Err (KeyTooLong (len key))
  else if HasSuffix key "/" then Err KeyTrailingSlash
  else
    let segments := SplitByte slash key in
    if MaxKeySegments <? Z.of_nat (length segments) then Err (KeyTooManySegments (Z.of_nat (length segments)))
    else if bool_decide (""%string ∈ segments) then Err KeyEmptySegment
    else Ok tt.

(** ** The sealed name's plaintext *)

Lemma ValidateLogicalKey_utf8 key : ValidateLogicalKey key = Ok tt -> ValidString key = true.
Proof. unfold ValidateLogicalKey. case_decide; [done|]. by destruct (ValidString key). Qed.

Definition paddedLen (n : Z) : Z := Z.quot (n + NamePadUnit - 1) NamePadUnit * NamePadUnit.

Definition zeros (n : Z) : list Z := replicate (Z.to_nat n) 0.

Definition padName (logicalKey : string) : result key_error (list Z) :=
  if MaxKeyBytes <? len logicalKey then Err (KeyTooLong (len logicalKey))
  else
    let n := len logicalKey in
    Ok ([Z.shiftr n 8; Z.land n 255] ++ bytes logicalKey ++ zeros (paddedLen (2 + n) - (2 + n))).

Definition unpadName (plaintext : list Z) : result unit string :=
  let l := Z.of_nat (length plaintext) in
  if (l <? 2) || negb (l mod NamePadUnit =? 0) then Err tt
  else
    match plaintext with
    | hi :: lo :: rest =>
        let n := Z.lor (Z.shiftl hi 8) lo in
        if (l <? 2 + n) || negb (paddedLen (2 + n) =? l) then Err tt
        else if negb (forallb (Z.eqb 0) (drop (Z.to_nat n) rest)) then Err tt
        else
          let name := take (Z.to_nat n) rest in
          if negb (validUTF8 name) then Err tt else Ok (of_bytes name)
    | _ => Err tt
    end.

(** ** The layout *)

Lemma paddedLen_spec n : 0 < n ->
  n <= paddedLen n < n + NamePadUnit /\ paddedLen n mod NamePadUnit = 0.
Proof.
  intros Hn. unfold paddedLen, NamePadUnit.
  rewrite Z.quot_div_nonneg, Z_mod_mult by lia. split; [|done]. Z.div_mod_to_equations. lia.
Qed.

Lemma paddedLen_of n l : 0 < n -> n <= l < n + NamePadUnit -> l mod NamePadUnit = 0 -> paddedLen n = l.
Proof.
  unfold paddedLen, NamePadUnit. intros Hn Hl Hm. rewrite Z.quot_div_nonneg by lia.
  Z.div_mod_to_equations. lia.
Qed.

Lemma be16 n : 0 <= n < 2 ^ 16 -> Z.lor (Z.shiftl (Z.shiftr n 8) 8) (Z.land n 255) = n.
Proof.
  intros Hn. rewrite <- Z.ldiff_ones_r by lia. change 255 with (Z.ones 8). apply Z.bits_inj'. intros i Hi.
  rewrite Z.lor_spec, Z.ldiff_spec, Z.land_spec. destruct (Z.testbit n i), (Z.testbit (Z.ones 8) i); done.
Qed.

Lemma be16_inv hi lo : 0 <= hi < 256 -> 0 <= lo < 256 ->
  let n := Z.lor (Z.shiftl hi 8) lo in Z.shiftr n 8 = hi /\ Z.land n 255 = lo /\ 0 <= n < 2 ^ 16.
Proof.
  intros Hh Hl n. assert (n = hi * 256 + lo) as ->.
  { unfold n. rewrite Z.shiftl_mul_pow2 by lia.
    rewrite <- Z.lxor_lor; [rewrite <- Z.add_nocarry_lxor; [done|]|].
    all: apply Z.bits_inj'; intros i Hi; rewrite Z.land_spec, Z.bits_0.
    all: change (hi * 2 ^ 8) with (hi * 2 ^ 8); rewrite <- Z.shiftl_mul_pow2, Z.shiftl_spec by lia.
    all: destruct (Z.ltb_spec i 8); [rewrite Z.testbit_neg_r by lia; done|].
    all: rewrite (Z.bits_above_log2 lo i), andb_false_r; [done|lia|].
    all: destruct (Z.eq_dec lo 0) as [->|]; [cbn; lia|].
    all: apply Z.log2_lt_pow2; [lia|].
    all: apply Z.lt_le_trans with (2 ^ 8); [lia|]; apply Z.pow_le_mono_r; lia. }
  rewrite Z.shiftr_div_pow2 by lia. change 255 with (Z.ones 8). rewrite Z.land_ones by lia.
  change (2 ^ 8) with 256. split_and!; Z.div_mod_to_equations; lia.
Qed.

Lemma be16_range n : 0 <= n < 2 ^ 16 -> 0 <= Z.shiftr n 8 < 256 /\ 0 <= Z.land n 255 < 256.
Proof.
  intros Hn. rewrite Z.shiftr_div_pow2 by lia. change 255 with (Z.ones 8). rewrite Z.land_ones by lia.
  change (2 ^ 8) with 256. split; Z.div_mod_to_equations; lia.
Qed.

Lemma zeros_all n : forallb (Z.eqb 0) (zeros n) = true.
Proof. unfold zeros. by induction (Z.to_nat n). Qed.

Lemma all_zeros l : forallb (Z.eqb 0) l = true -> l = zeros (Z.of_nat (length l)).
Proof.
  unfold zeros. rewrite Nat2Z.id. induction l as [|x l IH]; [done|]. cbn. intros [Hx Hl]%andb_true_iff.
  destruct x; try done. f_equal. by apply IH.
Qed.

Lemma padName_ok k : len k <= MaxKeyBytes -> exists p, padName k = Ok p.
Proof. intros Hk. unfold padName. destruct (Z.ltb_spec MaxKeyBytes (len k)); [lia|eauto]. Qed.

(** What [unpadName] accepts, as a layout. *)
Lemma unpadName_spec p k : Forall (fun b => 0 <= b < 256) p ->
  unpadName p = Ok k <->
  ValidString k = true /\ len k < 2 ^ 16 /\
  p = [Z.shiftr (len k) 8; Z.land (len k) 255] ++ bytes k ++ zeros (paddedLen (2 + len k) - (2 + len k)).
Proof.
  intros Hp. split.
  - unfold unpadName. set (l := Z.of_nat (length p)).
    destruct ((l <? 2) || negb (l mod NamePadUnit =? 0)) eqn:E1; [done|].
    destruct p as [|hi [|lo rest]]; [done..|].
    apply Forall_cons in Hp as [Hhi Hp]. apply Forall_cons in Hp as [Hlo Hp].
    pose proof (be16_inv hi lo Hhi Hlo) as Hn. cbv zeta in Hn.
    set (n := Z.lor (Z.shiftl hi 8) lo) in *. destruct Hn as (Eh & El & Hn).
    destruct ((l <? 2 + n) || negb (paddedLen (2 + n) =? l)) eqn:E2; [done|].
    destruct (forallb (Z.eqb 0) (drop (Z.to_nat n) rest)) eqn:E3; [|done]. cbn [negb].
    destruct (validUTF8 (take (Z.to_nat n) rest)) eqn:E4; [|done]. cbn [negb].
    intros [= <-]. apply all_zeros in E3. rewrite length_drop in E3.
    assert (l = 2 + Z.of_nat (length rest)) as Hl by (unfold l; cbn [length]; lia).
    assert (len (of_bytes (take (Z.to_nat n) rest)) = n) as En by (rewrite len_of_bytes, length_take; lia).
    assert (bytes (of_bytes (take (Z.to_nat n) rest)) = take (Z.to_nat n) rest) as Eb
      by (apply bytes_of_bytes, Forall_take, Hp).
    unfold ValidString. rewrite En, Eb, Eh, El. split; [done|]. split; [lia|].
    cbn [app]. do 2 f_equal. rewrite <- (take_drop (Z.to_nat n) rest) at 1. f_equal.
    rewrite E3. f_equal. lia.
  - intros (Hv & Hl & ->). set (n := len k) in *. assert (0 <= n) by (unfold n, len; lia).
    destruct (paddedLen_spec (2 + n) ltac:(lia)) as [Hpl Hm].
    set (z := paddedLen (2 + n)) in *.
    assert (Z.of_nat (length (bytes k)) = n) as Hb by apply len_bytes.
    assert (Z.of_nat (length ([Z.shiftr n 8; Z.land n 255] ++ bytes k ++ zeros (z - (2 + n)))) = z) as Ht.
    { rewrite !length_app. unfold zeros. rewrite length_replicate. cbn [length]. lia. }
    unfold unpadName. rewrite Ht, Hm. destruct (Z.ltb_spec z 2); [lia|]. cbn [orb negb Z.eqb app].
    rewrite be16 by lia. fold z. destruct (Z.ltb_spec z (2 + n)); [lia|]. rewrite Z.eqb_refl. cbn [orb negb].
    rewrite drop_app_length', take_app_length' by lia. rewrite zeros_all. cbn [negb].
    unfold ValidString in Hv. rewrite Hv. cbn [negb]. by rewrite of_bytes_bytes.
Qed.

(** ** Padding and back *)

Lemma padName_layout k : len k <= MaxKeyBytes ->
  padName k = Ok ([Z.shiftr (len k) 8; Z.land (len k) 255] ++ bytes k
                    ++ zeros (paddedLen (2 + len k) - (2 + len k))).
Proof. intros Hk. unfold padName. by destruct (Z.ltb_spec MaxKeyBytes (len k)); [lia|]. Qed.

Lemma padName_roundtrip k : len k <= MaxKeyBytes -> ValidString k = true ->
  exists p, padName k = Ok p /\ Forall (fun b => 0 <= b < 256) p /\
    Z.of_nat (length p) = paddedLen (2 + len k) /\ unpadName p = Ok k.
Proof.
  intros Hk Hv. assert (0 <= len k) by (unfold len; lia). change MaxKeyBytes with 1024 in *.
  eexists. split; [by apply padName_layout|].
  destruct (paddedLen_spec (2 + len k) ltac:(lia)) as [Hpl _].
  match goal with |- Forall _ ?p /\ _ => assert (Forall (fun b => 0 <= b < 256) p) as Hb end.
  { destruct (be16_range (len k) ltac:(lia)) as [? ?]. cbn [app]. repeat constructor; try lia.
    apply Forall_app; split; [apply bytes_range|]. unfold zeros. apply Forall_replicate. lia. }
  split; [done|]. split.
  - rewrite !length_app. unfold zeros. rewrite length_replicate. cbn [length]. pose proof (len_bytes k). lia.
  - apply unpadName_spec; [done|]. split_and!; [done|lia|done].
Qed.

Lemma unpadName_only k p : len k <= MaxKeyBytes -> Forall (fun b => 0 <= b < 256) p ->
  unpadName p = Ok k -> padName k = Ok p.
Proof. intros Hk Hp Hu. apply unpadName_spec in Hu as (_ & _ & ->); [|done]. by apply padName_layout. Qed.

(** ** Properties *)

(** A sealed name has exactly one plaintext: every key the rules allow pads
    to a multiple of 32 bytes and reads back as itself, and whatever bytes read
    back as a key within the limit are the bytes that key pads to. *)
Theorem sealed_name_is_canonical k :
  len k <= MaxKeyBytes ->
  (ValidString k = true ->
   exists p, padName k = Ok p /\ Z.of_nat (length p) mod NamePadUnit = 0 /\ unpadName p = Ok k) /\
  (forall p, Forall (fun b => 0 <= b < 256) p -> unpadName p = Ok k -> padName k = Ok p).
Proof.
  intros Hk. split; [|intros p; by apply unpadName_only].
  intros Hv. destruct (padName_roundtrip k Hk Hv) as (p & Hp & _ & Hl & Hu). exists p. split; [done|].
  split; [|done]. rewrite Hl. apply paddedLen_spec. unfold len. lia.
Qed.
