(* ===== verification/Encoding.v ===== *)
(** * Bytes as text ([encoding/hex], [encoding/base64])

    [keys.yaml] writes a key's identifier in hexadecimal and its material in
    base64 ([StdEncoding]: padded, line breaks ignored, trailing bits not
    checked). *)

From S2P Require Import Prelude GoStrings Calendar.

(** ** Hexadecimal *)

Definition hexDigit (v : Z) : Z := if v <? 10 then 48 + v else 87 + v.

Definition fromHex (c : Z) : option Z :=
  if inRange 48 57 c then Some (c - 48)
  else if inRange 97 102 c then Some (c - 87)
  else if inRange 65 70 c then Some (c - 55)
  else None.

Definition hexEncode (bs : list Z) : list Z := concat (map (fun b => [hexDigit (b / 16); hexDigit (b mod 16)]) bs).

Fixpoint hexDecode (s : list Z) : option (list Z) :=
  match s with
  | [] => Some []
  | [_] => None
  | a :: b :: s =>
      x ← fromHex a; y ← fromHex b; bs ← hexDecode s; Some (x * 16 + y :: bs)
  end.

Definition HexEncodeToString (s : string) : string := of_bytes (hexEncode (bytes s)).
Definition HexDecodeString (s : string) : option string := of_bytes <$> hexDecode (bytes s).

(** ** Base64 *)

Definition base64Digit (v : Z) : Z :=
  if v <? 26 then 65 + v else if v <? 52 then 71 + v else if v <? 62 then v - 4
  else if v =? 62 then 43 else 47.

Definition fromBase64 (c : Z) : option Z :=
  if inRange 65 90 c then Some (c - 65)
  else if inRange 97 122 c then Some (c - 71)
  else if inRange 48 57 c then Some (c + 4)
  else if c =? 43 then Some 62
  else if c =? 47 then Some 63
  else None.

Definition padChar : Z := 61.

Fixpoint base64Encode (bs : list Z) : list Z :=
  match bs with
  | [] => []
  | [a] => let v := a * 65536 in [base64Digit (v / 262144); base64Digit (v / 4096 mod 64); padChar; padChar]
  | [a; b] =>
      let v := a * 65536 + b * 256 in
      [base64Digit (v / 262144); base64Digit (v / 4096 mod 64); base64Digit (v / 64 mod 64); padChar]
  | a :: b :: c :: bs =>
      let v := a * 65536 + b * 256 + c in
      base64Digit (v / 262144) :: base64Digit (v / 4096 mod 64) ::
      base64Digit (v / 64 mod 64) :: base64Digit (v mod 64) :: base64Encode bs
  end.

(** Quanta of four, of which only the last may be padded. *)
Fixpoint base64Quanta (s : list Z) : option (list Z) :=
  match s with
  | [] => Some []
  | a :: b :: c :: d :: s =>
      w ← fromBase64 a; x ← fromBase64 b;
      match fromBase64 c, fromBase64 d with
      | Some y, Some z =>
          let v := w * 262144 + x * 4096 + y * 64 + z in
          bs ← base64Quanta s; Some (v / 65536 :: v / 256 mod 256 :: v mod 256 :: bs)
      | Some y, None =>
          let v := w * 262144 + x * 4096 + y * 64 in
          if (d =? padChar) && bool_decide (s = []) then Some [v / 65536; v / 256 mod 256] else None
      | None, _ =>
          let v := w * 262144 + x * 4096 in
          if (c =? padChar) && (d =? padChar) && bool_decide (s = []) then Some [v / 65536] else None
      end
  | _ => None
  end.

Definition base64Decode (s : list Z) : option (list Z) :=
  base64Quanta (filter (fun c => c <> 10 /\ c <> 13) s).

Definition Base64EncodeToString (s : string) : string := of_bytes (base64Encode (bytes s)).
Definition Base64DecodeString (s : string) : option string := of_bytes <$> base64Decode (bytes s).

Example hex_cases :
  (HexEncodeToString "Az~", HexDecodeString "4A7b", HexDecodeString "4", HexDecodeString "4g")
  = ("417a7e"%string, Some "J{"%string, None, None).
Proof. vm_compute. reflexivity. Qed.

Example base64_cases :
  (map Base64EncodeToString ["f"; "fo"; "foo"; "foob"]%string,
   map Base64DecodeString ["Zg=="; "Zm8="; "Zm9v"; "Zg"; "Zg=a"; "Zh=="; "Z==="; "Zg==Zg=="]%string)
  = (["Zg=="; "Zm8="; "Zm9v"; "Zm9vYg=="]%string,
     [Some "f"%string; Some "fo"%string; Some "foo"%string; None; None; Some "f"%string; None; None]).
Proof. vm_compute. reflexivity. Qed.

(** ** Decoding undoes encoding *)

Lemma fromHex_digit v : 0 <= v < 16 -> fromHex (hexDigit v) = Some v.
Proof.
  intros Hv. assert (all_from (fun v => bool_decide (fromHex (hexDigit v) = Some v)) 0 16 = true) as Ha
    by (vm_compute; reflexivity).
  apply (all_from_spec _ 16 0 v) in Ha; [by apply bool_decide_eq_true in Ha|lia].
Qed.

Lemma hexDigit_byte v : 0 <= v < 16 -> 48 <= hexDigit v < 128.
Proof. unfold hexDigit. destruct (Z.ltb_spec v 10); lia. Qed.

Lemma hex_range bs : Forall (fun b => 0 <= b < 256) bs -> Forall (fun b => 0 <= b < 256) (hexEncode bs).
Proof.
  unfold hexEncode. induction 1 as [|b bs Hb _ IH]; [constructor|]. cbn [map concat].
  pose proof (hexDigit_byte (b / 16)). pose proof (hexDigit_byte (b mod 16)).
  repeat constructor; [| | | |exact IH]; revert H H0; Z.div_mod_to_equations; lia.
Qed.

Lemma hex_roundtrip bs : Forall (fun b => 0 <= b < 256) bs -> hexDecode (hexEncode bs) = Some bs.
Proof.
  unfold hexEncode. induction 1 as [|b bs Hb _ IH]; [done|]. cbn [map concat app hexDecode].
  rewrite !fromHex_digit by (Z.div_mod_to_equations; lia). cbn [mbind option_bind]. rewrite IH.
  cbn. do 2 f_equal. Z.div_mod_to_equations. lia.
Qed.

Lemma hex_string_roundtrip s : HexDecodeString (HexEncodeToString s) = Some s.
Proof.
  unfold HexDecodeString, HexEncodeToString. pose proof (bytes_range s).
  rewrite bytes_of_bytes by by apply hex_range. rewrite hex_roundtrip by done.
  cbn. by rewrite of_bytes_bytes.
Qed.

Lemma fromBase64_digit v : 0 <= v < 64 -> fromBase64 (base64Digit v) = Some v.
Proof.
  intros Hv. assert (all_from (fun v => bool_decide (fromBase64 (base64Digit v) = Some v)) 0 64 = true) as Ha
    by (vm_compute; reflexivity).
  apply (all_from_spec _ 64 0 v) in Ha; [by apply bool_decide_eq_true in Ha|lia].
Qed.

Lemma base64Digit_byte v : 0 <= v < 64 -> 33 <= base64Digit v < 128.
Proof.
  unfold base64Digit. intros Hv. repeat case_match; lia.
Qed.

(** Induction over the quanta of three bytes. *)
Lemma triple_ind (P : list Z -> Prop) :
  P [] -> (forall a, P [a]) -> (forall a b, P [a; b]) ->
  (forall a b c l, P l -> P (a :: b :: c :: l)) -> forall l, P l.
Proof.
  intros H0 H1 H2 H3. fix IH 1. intros [|a [|b [|c l]]]; [done|done|done|]. apply H3, IH.
Qed.

Lemma base64_range bs : Forall (fun b => 0 <= b < 256) bs ->
  Forall (fun c => 33 <= c < 128) (base64Encode bs).
Proof.
  induction bs as [|a|a b|a b c bs IH] using triple_ind; intros Hb; [constructor| | |].
  all: rewrite ?Forall_cons in Hb; cbn [base64Encode]; unfold padChar.
  all: repeat constructor; try lia; try (apply base64Digit_byte; Z.div_mod_to_equations; lia).
  apply IH; tauto.
Qed.

Lemma base64_quanta bs : Forall (fun b => 0 <= b < 256) bs -> base64Quanta (base64Encode bs) = Some bs.
Proof.
  induction bs as [|a|a b|a b c bs IH] using triple_ind; intros Hb; [done| | |].
  all: rewrite ?Forall_cons in Hb; cbn [base64Encode base64Quanta].
  all: rewrite !fromBase64_digit by (Z.div_mod_to_equations; lia); cbn.
  - repeat f_equal. Z.div_mod_to_equations. lia.
  - do 2 f_equal; [|f_equal]; Z.div_mod_to_equations; lia.
  - rewrite IH by tauto. cbn. do 2 f_equal; [|f_equal; [|f_equal]]; Z.div_mod_to_equations; lia.
Qed.

Lemma base64_string_roundtrip s : Base64DecodeString (Base64EncodeToString s) = Some s.
Proof.
  unfold Base64DecodeString, Base64EncodeToString, base64Decode. pose proof (bytes_range s) as Hr.
  pose proof (base64_range _ Hr) as He.
  rewrite bytes_of_bytes by (eapply Forall_impl; [exact He|]; cbn; lia).
  rewrite filter_all; [|eapply Forall_impl; [exact He|]; cbn; lia].
  rewrite base64_quanta by done. cbn. by rewrite of_bytes_bytes.
Qed.
