(* ===== verification/Keyring.v ===== *)
(** * Scopes and the keyring ([datasphere/scope.go], [keyring.go])

    The operator's keys: name keys (stable, they decide where objects are
    found), key-encryption keys (the first wraps new writes, the others read
    older objects) and scopes, named subtrees of the key space with a keyring of
    their own.  A byte slice is a string; sharing and wiping of key material
    ([Zero], [Clone]) are not modelled, a keyring here is a value. *)

From Stdlib Require Import Ascii.
From S2P Require Import Prelude Effect GoTime GoStrings LogicalKey.

#[local] Set Warnings "-register-all".

(** ** Data *)

Record KeyEntry := mkKeyEntry {
  ke_ID : string;
  ke_Created : Time;
  ke_key : string
}.

#[export] Instance KeyEntry_eq_dec : EqDecision KeyEntry.
Proof. solve_decision. Defined.

Record scopeOf (K : Type) := mkScope {
  sc_Name : string;
  sc_Prefix : string;
  sc_Created : Time;
  sc_Derivation : string;
  sc_keys : K
}.
Arguments mkScope {K}.
Arguments sc_Name {K}.
Arguments sc_Prefix {K}.
Arguments sc_Created {K}.
Arguments sc_Derivation {K}.
Arguments sc_keys {K}.

(** A scope's keyring is a keyring, scopes included. *)
Inductive Keyring := mkKeyring (nameKeys keys : list KeyEntry) (scopes : list (scopeOf Keyring)).

Abbreviation Scope := (scopeOf Keyring) (only parsing).

Definition kr_nameKeys (k : Keyring) : list KeyEntry := let '(mkKeyring n _ _) := k in n.
Definition kr_keys (k : Keyring) : list KeyEntry := let '(mkKeyring _ k _) := k in k.
Definition kr_scopes (k : Keyring) : list Scope := let '(mkKeyring _ _ s) := k in s.

(** The refusals, one constructor for each message. *)
Inductive keyring_error :=
| NameEmpty
| NameTooLong (n : Z)
| NameStart
| NameChars
| PrefixNotSubtree
| PrefixKey (e : key_error)
| NoNameKeys
| NoKeys
| KeyLength (what id : string) (n : Z)
| DuplicateID (what id : string)
| DuplicateScope (name : string)
| ScopeExists (name : string)
| ScopesOverlap (name prefix name' prefix' : string)
| TwoPrefixes (name prefix prefix' : string)
| MintedTwice (name : string)
| TwoValues (what id : string)
| NoSuchKey (name id : string)
| NoSuchScope (name : string)
| MintMaterial (e : string)
| MintID (e : string)
| ComposedTooLong (namespace app : string) (n : Z)
| InScope (name : string) (e : keyring_error)
| IndexOutOfRange.

(** ** Names and prefixes *)

Definition AppScopeRoot : string := "app".
Definition MaxAppScopeName : Z := 63.
Definition ScopePrefixSuffix : string := "/".
Definition SecretsSegment : string := "secrets".
Definition MaxSecretNameLen : Z := 128.

Definition isLower (c : Z) : bool := inRange 97 122 c.
Definition isUpper (c : Z) : bool := inRange 65 90 c.

Definition ValidateScopeName (name : string) : result keyring_error unit :=
  if decide (name = "") then Err NameEmpty
  else if 63 <? len name then Err (NameTooLong (len name))
  else if negb (isLower (default 0 (head (bytes name)))) then Err NameStart
  else if forallb (fun c => isLower c || isDigit c || (c =? 45)) (bytes name) then Ok tt
  else Err NameChars.

Definition ValidateScopePrefix (prefix : string) : result keyring_error unit :=
  if negb (HasSuffix prefix ScopePrefixSuffix) then Err PrefixNotSubtree
  else wrapErr PrefixKey (ValidateLogicalKey (TrimSuffix prefix ScopePrefixSuffix)).

Definition scopesOverlap (a b : string) : bool := HasPrefix a b || HasPrefix b a.

Definition AppScopePrefix (namespace app : string) : string :=
  AppScopeRoot +:+ ScopePrefixSuffix +:+ namespace +:+ ScopePrefixSuffix +:+ app +:+ ScopePrefixSuffix.

Definition AppSecretsPrefix (namespace app : string) : string :=
  AppScopePrefix namespace app +:+ SecretsSegment +:+ ScopePrefixSuffix.

Definition AppScopeName (namespace app : string) : result keyring_error string :=
  let name := AppScopeRoot +:+ "-" +:+ namespace +:+ "-" +:+ app in
  if MaxAppScopeName <? len name then Err (ComposedTooLong namespace app (len name))
  else _ ← ValidateScopeName name; Ok name.

Definition ParseAppScopePrefix (prefix : string) : option (string * string) :=
  rest ← CutPrefix prefix (AppScopeRoot +:+ ScopePrefixSuffix);
  match SplitByte slash (TrimSuffix rest ScopePrefixSuffix) with
  | [namespace; app] =>
      if decide (namespace = "" \/ app = "") then None else Some (namespace, app)
  | _ => None
  end.

Inductive secret_error :=
| SecretEmpty
| SecretTooLong (n : Z)
| SecretEdge (c : Z)
| SecretChars
| SecretDots.

Definition isAlnum (c : Z) : bool := isLower c || isUpper c || isDigit c.
Definition isPunct (c : Z) : bool := (c =? 95) || (c =? 45) || (c =? 46).

(** One byte of the name, at its index. *)
Definition checkSecretByte (n : nat) (ic : nat * Z) : result secret_error unit :=
  let '(i, c) := ic in
  if isAlnum c then Ok tt
  else if isPunct c then
    if bool_decide (i = 0%nat) || bool_decide (S i = n) then Err (SecretEdge c) else Ok tt
  else Err SecretChars.

Definition ValidateSecretName (name : string) : result secret_error unit :=
  if decide (name = "") then Err SecretEmpty
  else if MaxSecretNameLen <? len name then Err (SecretTooLong (len name))
  else
    let bs := bytes name in
    _ ← foldM (fun _ ic => checkSecretByte (length bs) ic) tt (imap pair bs);
    if Contains name ".." then Err SecretDots else Ok tt.

Definition IsSecretsKey (scopePrefix key : string) : bool :=
  match CutPrefix key scopePrefix ≫= (fun rest => CutPrefix rest (SecretsSegment +:+ ScopePrefixSuffix)) with
  | Some after => bool_decide (after <> "")
  | None => false
  end.

Definition Owns {K} (s : scopeOf K) (key : string) : bool := HasPrefix key (sc_Prefix s).

(** ** Validity *)

Definition validEntry (what : string) (seen : gset string) (e : KeyEntry) : result keyring_error (gset string) :=
  if negb (len (ke_key e) =? KeyLen) then Err (KeyLength what (ke_ID e) (len (ke_key e)))
  else if decide (ke_ID e ∈ seen) then Err (DuplicateID what (ke_ID e))
  else Ok ({[ke_ID e]} ∪ seen).

Definition validEntries (entries : list KeyEntry) (what : string) : result keyring_error unit :=
  _ ← foldM (validEntry what) ∅ entries; Ok tt.

(** One scope against those seen, [validKeys] being the check of its keyring. *)
Definition validScope {K} (validKeys : K -> result keyring_error unit) (s : scopeOf K) : result keyring_error unit :=
  _ ← ValidateScopeName (sc_Name s);
  _ ← ValidateScopePrefix (sc_Prefix s);
  validKeys (sc_keys s).

Fixpoint disjointScopes (l : list Scope) : result keyring_error unit :=
  match l with
  | [] => Ok tt
  | a :: l =>
      match list_find (fun b => scopesOverlap (sc_Prefix a) (sc_Prefix b) = true) l with
      | Some (_, b) => Err (ScopesOverlap (sc_Name a) (sc_Prefix a) (sc_Name b) (sc_Prefix b))
      | None => disjointScopes l
      end
  end.

Fixpoint Valid (k : Keyring) : result keyring_error unit :=
  let '(mkKeyring nameKeys keys scopes) := k in
  if decide (nameKeys = []) then Err NoNameKeys
  else if decide (keys = []) then Err NoKeys
  else
    _ ← validEntries nameKeys "name key";
    _ ← validEntries keys "key";
    _ ← foldM (fun (seen : gset string) s =>
                 _ ← validScope Valid s;
                 if decide (sc_Name s ∈ seen) then Err (DuplicateScope (sc_Name s))
                 else Ok ({[sc_Name s]} ∪ seen)) ∅ scopes;
    disjointScopes scopes.

Definition ScopeValid (s : Scope) : result keyring_error unit := validScope Valid s.

(** ** Reading *)

Definition ActiveNameKey (k : Keyring) : result keyring_error KeyEntry :=
  match kr_nameKeys k with e :: _ => Ok e | [] => Err NoNameKeys end.

Definition ActiveKEK (k : Keyring) : result keyring_error KeyEntry :=
  match kr_keys k with e :: _ => Ok e | [] => Err NoKeys end.

Definition ScopeNamed (k : Keyring) (name : string) : option Scope :=
  snd <$> list_find (fun s => sc_Name s = name) (kr_scopes k).

Definition ScopeOwning (k : Keyring) (key : string) : option Scope :=
  snd <$> list_find (fun s => Owns s key = true) (kr_scopes k).

(** The key-encryption key of an identifier ([lookup]). *)
Definition lookupKEK (k : Keyring) (id : string) : option string :=
  ke_key ∘ snd <$> list_find (fun e => ke_ID e = id) (kr_keys k).

(** ** Adding *)

Definition AddScope (k : Keyring) (s : Scope) : result keyring_error Keyring :=
  _ ← ScopeValid s;
  _ ← foldM (fun _ existing =>
               if decide (sc_Name existing = sc_Name s) then Err (ScopeExists (sc_Name s))
               else if scopesOverlap (sc_Prefix existing) (sc_Prefix s)
               then Err (ScopesOverlap (sc_Name s) (sc_Prefix s) (sc_Name existing) (sc_Prefix existing))
               else Ok tt) tt (kr_scopes k);
  Ok (mkKeyring (kr_nameKeys k) (kr_keys k) (kr_scopes k ++ [s])).

Definition AddKEK (k : Keyring) (e : KeyEntry) : Keyring :=
  mkKeyring (kr_nameKeys k) (e :: kr_keys k) (kr_scopes k).

Definition withKeys (s : Scope) (k : Keyring) : Scope :=
  mkScope (sc_Name s) (sc_Prefix s) (sc_Created s) (sc_Derivation s) k.

(** ** Minting

    The source of randomness and the clock are the package's two seams
    ([keyRand], [keyNow]); [io.ReadFull] fills the slice or fails. *)
Class Entropy (W : Type) := {
  ReadFull : Z -> eff W string string;
  keyNow : W -> Time;
  ReadFull_length : forall n w bs w', ReadFull n w = (Ok bs, w') -> len bs = n
}.

Section minting.
Context {W : Type} `{Entropy W}.

(** [io.ReadFull(rnd, buf)] of a buffer of [n] bytes. *)
Definition readRand {E} (n : Z) (f : string -> E) : eff W E string :=
  x ← try (ReadFull n); lift (wrapErr f x).

Lemma readRand_len {E} n (f : string -> E) (w w' : W) bs : readRand n f w = (Ok bs, w') -> len bs = n.
Proof.
  unfold readRand. intros E1. apply bind_inv in E1 as (x & w2 & Ex & En). unfold try in Ex.
  destruct (ReadFull n w) as [r w3] eqn:Er. injection Ex as <- <-. apply lift_inv in En as [En _].
  destruct r as [b|e]; [|done]. injection En as ->. by eapply ReadFull_length.
Qed.

Definition Mint : Type -> Type := eff W keyring_error.

Definition NewKey : Mint KeyEntry :=
  created ← gets keyNow;
  material ← readRand KeyLen MintMaterial;
  id ← readRand KeyIDLen MintID;
  mret (mkKeyEntry id created material).

Definition NewKeyring : Mint Keyring :=
  nameKey ← NewKey;
  kek ← NewKey;
  mret (mkKeyring [nameKey] [kek] []).

Definition NewScope (name prefix : string) : Mint Scope :=
  _ ← lift (ValidateScopeName name);
  _ ← lift (ValidateScopePrefix prefix);
  keys ← NewKeyring;
  created ← gets keyNow;
  mret (mkScope name prefix created "" keys).

Definition NewAppScope (namespace app : string) : Mint Scope :=
  name ← lift (AppScopeName namespace app);
  NewScope name (AppScopePrefix namespace app).

(** ** Rotation *)

Record ScopeRotation := mkRotation {
  ro_Scope : string;
  ro_Previous : string;
  ro_Active : string
}.

Definition rotateScope (acc : list Scope * list ScopeRotation) (s : Scope) : Mint (list Scope * list ScopeRotation) :=
  previous ← lift (wrapErr (InScope (sc_Name s)) (ActiveKEK (sc_keys s)));
  entry ← NewKey;
  let next := withKeys s (AddKEK (sc_keys s) entry) in
  _ ← lift (wrapErr (InScope (sc_Name s)) (ScopeValid next));
  mret (acc.1 ++ [next], acc.2 ++ [mkRotation (sc_Name s) (ke_ID previous) (ke_ID entry)]).

Definition RotateScopeKEKs (k : Keyring) : Mint (Keyring * list ScopeRotation) :=
  if decide (length (kr_scopes k) = 0%nat) then mret (k, [])
  else
    acc ← foldE rotateScope ([], []) (kr_scopes k);
    mret (mkKeyring (kr_nameKeys k) (kr_keys k) acc.1, acc.2).

End minting.

(** Randomness beside another state. *)
#[export] Program Instance entropy_beside {W Out} `{Entropy W} : Entropy (W * Out) := {|
  ReadFull n s := let '(r, w) := ReadFull n s.1 in (r, (w, s.2));
  keyNow s := keyNow s.1
|}.
Next Obligation.
  intros W Out ? n [w o] bs s'. cbn. destruct (ReadFull n w) as [r w'] eqn:E. intros [= -> _].
  by eapply ReadFull_length.
Qed.

Lemma readRand_beside {W Out E} `{Entropy W} n (f : string -> E) (s s' : W * Out) bs : readRand n f s = (Ok bs, s') -> s'.2 = s.2.
Proof.
  destruct s as [w o]. unfold readRand. intros E0. apply bind_inv in E0 as (x & s1 & Ex & E1).
  apply lift_inv in E1 as [_ ->]. unfold try in Ex. cbn in Ex. destruct (ReadFull n w). by injection Ex as _ <-.
Qed.

(** ** The active key of each scope *)

Section ranged.
Context `{GoRange}.

(** The key with that identifier first, the others in their order. *)
Definition reorder (id : string) (keys : list KeyEntry) : option (list KeyEntry) :=
  '(at_, e) ← list_find (fun e => ke_ID e = id) keys;
  Some (e :: take at_ keys ++ drop (S at_) keys).

Definition activate (acc : gmap string string * list Scope) (s : Scope)
    : result keyring_error (gmap string string * list Scope) :=
  let '(pending, scopes) := acc in
  match pending !! sc_Name s with
  | None => Ok (pending, scopes ++ [s])
  | Some id =>
      match reorder id (kr_keys (sc_keys s)) with
      | None => Err (NoSuchKey (sc_Name s) id)
      | Some keys =>
          let next := withKeys s (mkKeyring (kr_nameKeys (sc_keys s)) keys (kr_scopes (sc_keys s))) in
          _ ← wrapErr (InScope (sc_Name s)) (ScopeValid next);
          Ok (delete (sc_Name s) pending, scopes ++ [next])
      end
  end.

Definition WithScopeActive (k : Keyring) (active : gmap string string) : result keyring_error Keyring :=
  '(pending, scopes) ← foldM activate (active, []) (kr_scopes k);
  match go_range pending with
  | (name, _) :: _ => Err (NoSuchScope name)
  | [] => Ok (mkKeyring (kr_nameKeys k) (kr_keys k) scopes)
  end.

End ranged.

(** ** Merging *)

Definition mergeEntry (what : string) (acc : gmap string KeyEntry * list KeyEntry) (e : KeyEntry)
    : result keyring_error (gmap string KeyEntry * list KeyEntry) :=
  let '(held, out) := acc in
  match held !! ke_ID e with
  | None => Ok (<[ke_ID e := e]> held, out ++ [e])
  | Some existing =>
      if decide (ke_key existing = ke_key e) then Ok (held, out) else Err (TwoValues what (ke_ID e))
  end.

Definition heldBy (live : list KeyEntry) : gmap string KeyEntry :=
  fold_left (fun m e => <[ke_ID e := e]> m) live ∅.

Definition mergeEntries (live incoming : list KeyEntry) (what : string) : result keyring_error (list KeyEntry) :=
  acc ← foldM (mergeEntry what) (heldBy live, live) incoming; Ok acc.2.

Definition shareAnEntry (a b : list KeyEntry) : bool :=
  existsb (fun x => existsb (fun y => bool_decide (ke_ID x = ke_ID y)) b) a.

(** Where each scope is, the last one of a name. *)
Definition scopeIndex (scopes : list Scope) : gmap string nat :=
  fold_left (fun m '(i, s) => <[sc_Name s := i]> m) (imap pair scopes) ∅.

(** One incoming scope, [mergeKeys] being the merge of two keyrings. *)
Definition mergeScope (mergeKeys : Keyring -> result keyring_error Keyring)
    (acc : list Scope * gmap string nat) (s : Scope) : result keyring_error (list Scope * gmap string nat) :=
  let '(out, at_) := acc in
  match at_ !! sc_Name s with
  | None =>
      match list_find (fun existing => scopesOverlap (sc_Prefix existing) (sc_Prefix s) = true) out with
      | Some (_, existing) =>
          Err (ScopesOverlap (sc_Name s) (sc_Prefix s) (sc_Name existing) (sc_Prefix existing))
      | None => Ok (out ++ [s], <[sc_Name s := length out]> at_)
      end
  | Some i =>
      match out !! i with
      | None => Err IndexOutOfRange
      | Some live =>
          if decide (sc_Prefix live <> sc_Prefix s) then Err (TwoPrefixes (sc_Name s) (sc_Prefix live) (sc_Prefix s))
          else if negb (shareAnEntry (kr_nameKeys (sc_keys live)) (kr_nameKeys (sc_keys s)))
          then Err (MintedTwice (sc_Name s))
          else
            merged ← wrapErr (InScope (sc_Name s)) (mergeKeys (sc_keys live));
            Ok (<[i := withKeys live merged]> out, at_)
      end
  end.

Fixpoint mergeInto (other k : Keyring) {struct other} : result keyring_error Keyring :=
  let '(mkKeyring nameKeys keys scopes) := other in
  names ← mergeEntries (kr_nameKeys k) nameKeys "name key";
  keks ← mergeEntries (kr_keys k) keys "key";
  acc ← foldM (fun acc s => mergeScope (mergeInto (sc_keys s)) acc s) (kr_scopes k, scopeIndex (kr_scopes k)) scopes;
  Ok (mkKeyring names keks acc.1).

Definition Merge (k other : Keyring) : result keyring_error Keyring := mergeInto other k.

(** [mergeScopes] on its own. *)
Definition mergeScopes (live incoming : list Scope) : result keyring_error (list Scope) :=
  acc ← foldM (fun acc s => mergeScope (fun k => Merge k (sc_keys s)) acc s) (live, scopeIndex live) incoming;
  Ok acc.1.

Lemma Merge_unfold k other :
  Merge k other =
    (names ← mergeEntries (kr_nameKeys k) (kr_nameKeys other) "name key";
     keks ← mergeEntries (kr_keys k) (kr_keys other) "key";
     scopes ← mergeScopes (kr_scopes k) (kr_scopes other);
     Ok (mkKeyring names keks scopes)).
Proof.
  destruct other as [on ok os]. unfold Merge. cbn [mergeInto kr_nameKeys kr_keys kr_scopes].
  destruct (mergeEntries _ on _); [|done]. cbn. destruct (mergeEntries _ ok _); [|done]. cbn.
  unfold mergeScopes, Merge. by destruct (foldM _ _ os).
Qed.

(** ** What [Valid] accepts *)

(** A loop that checks each element and that no key comes twice. *)
Lemma foldM_nodup {A E} (check : A -> result E unit) (key : A -> string) (dup : A -> E) l : forall seen : gset string,
  (exists seen', foldM (fun seen x => _ ← check x;
      if decide (key x ∈ seen) then Err (dup x) else Ok ({[key x]} ∪ seen)) seen l = Ok seen') <->
  Forall (fun x => check x = Ok tt) l /\ NoDup (map key l) /\ Forall (fun x => key x ∉ seen) l.
Proof.
  induction l as [|x l IH]; intros seen; cbn [foldM map].
  - split; [intros _; split_and!; constructor|eauto].
  - rewrite !Forall_cons, NoDup_cons. destruct (check x) as [[]|e]; cbn.
    2:{ split; [by intros [? [=]]|]. intros ((?&?)&_). done. }
    case_decide as Hin; cbn.
    + split; [by intros [? [=]]|]. intros (_&_&Hn&_). done.
    + rewrite IH. rewrite list_elem_of_fmap, !Forall_forall. set_solver.
Qed.

Definition entries_ok (es : list KeyEntry) : Prop :=
  Forall (fun e => len (ke_key e) = KeyLen) es /\ NoDup (map ke_ID es).

Lemma validEntries_spec es what : validEntries es what = Ok tt <-> entries_ok es.
Proof.
  unfold validEntries, entries_ok.
  pose proof (foldM_nodup (fun e => if len (ke_key e) =? KeyLen then Ok tt
     else Err (KeyLength what (ke_ID e) (len (ke_key e)))) ke_ID (fun e => DuplicateID what (ke_ID e)) es ∅) as Hf.
  assert (forall seen, foldM (validEntry what) seen es = foldM (fun (seen : gset string) x =>
      _ ← (if len (ke_key x) =? KeyLen then Ok tt else Err (KeyLength what (ke_ID x) (len (ke_key x))));
      if decide (ke_ID x ∈ seen) then Err (DuplicateID what (ke_ID x)) else Ok ({[ke_ID x]} ∪ seen)) seen es) as ->.
  { clear Hf. induction es as [|e es IH]; intros seen; [done|]. cbn [foldM]. unfold validEntry at 1.
    destruct (len (ke_key e) =? KeyLen); [|done]. cbn. by case_decide; cbn. }
  transitivity (Forall (fun e => (if len (ke_key e) =? KeyLen then Ok tt
     else Err (KeyLength what (ke_ID e) (len (ke_key e)))) = Ok tt) es /\ NoDup (map ke_ID es)
     /\ Forall (fun e => ke_ID e ∉ (∅ : gset string)) es).
  - rewrite <- Hf, bind_ok. naive_solver.
  - rewrite !Forall_forall. split.
    + intros (Hl & Hn & _). split; [|done]. intros e He. apply Hl in He.
      by destruct (Z.eqb_spec (len (ke_key e)) KeyLen).
    + intros (Hl & Hn). split_and!; [|done|set_solver]. intros e He. by rewrite Hl, Z.eqb_refl.
Qed.

Definition apart (a b : Scope) : Prop := scopesOverlap (sc_Prefix a) (sc_Prefix b) = false.

Lemma find_overlap (f : Scope -> bool) l :
  list_find (fun b => f b = true) l = None <-> Forall (fun b => f b = false) l.
Proof.
  rewrite list_find_None. apply Forall_proper; [|done]. intros b. by rewrite not_true_iff_false.
Qed.

Lemma disjointScopes_spec l : disjointScopes l = Ok tt <-> ForallOrdPairs apart l.
Proof.
  induction l as [|a l IH]; cbn [disjointScopes]; [split; [constructor|done]|].
  destruct (list_find _ l) as [[i b]|] eqn:E.
  - split; [done|]. intros Hp. inversion Hp as [|? ? Ha Hl]; subst.
    apply (find_overlap (fun b => scopesOverlap (sc_Prefix a) (sc_Prefix b))) in Ha. congruence.
  - apply (find_overlap (fun b => scopesOverlap (sc_Prefix a) (sc_Prefix b))) in E. rewrite IH. split.
    + intros Hl. by constructor.
    + intros Hp. by inversion Hp.
Qed.

Record scopes_ok (ss : list Scope) : Prop := {
  so_valid : Forall (fun s => ScopeValid s = Ok tt) ss;
  so_names : NoDup (map sc_Name ss);
  so_apart : ForallOrdPairs apart ss
}.

Record keyring_ok (k : Keyring) : Prop := {
  ko_name : kr_nameKeys k <> [];
  ko_key : kr_keys k <> [];
  ko_names : entries_ok (kr_nameKeys k);
  ko_keys : entries_ok (kr_keys k);
  ko_scopes : scopes_ok (kr_scopes k)
}.

Lemma Valid_spec k : Valid k = Ok tt <-> keyring_ok k.
Proof.
  destruct k as [n ks ss]. cbn [Valid].
  pose proof (foldM_nodup ScopeValid sc_Name (fun s => DuplicateScope (sc_Name s)) ss ∅) as Hf.
  fold ScopeValid. unfold ScopeValid in Hf.
  case_decide as Hn; [split; [done|by intros []]|]. case_decide as Hk; [split; [done|by intros []]|].
  split.
  - intros E. ok_inv E as [] H1%validEntries_spec.
    ok_inv E as [] H2%validEntries_spec.
    apply bind_ok in E as (seen & Hs & Hp%disjointScopes_spec).
    destruct (proj1 Hf (ex_intro _ seen Hs)) as (Hv & Hd & _). by split.
  - intros [_ _ H1 H2 [Hv Hd Hp]]. cbn [kr_nameKeys kr_keys kr_scopes] in *.
    rewrite (proj2 (validEntries_spec n "name key") H1), (proj2 (validEntries_spec ks "key") H2). cbn.
    destruct (proj2 Hf) as [seen ->]; [split_and!; [done..|]; apply Forall_true; set_solver|].
    cbn. by apply disjointScopes_spec.
Qed.

Lemma ScopeValid_spec s : ScopeValid s = Ok tt <->
  ValidateScopeName (sc_Name s) = Ok tt /\ ValidateScopePrefix (sc_Prefix s) = Ok tt /\ keyring_ok (sc_keys s).
Proof.
  unfold ScopeValid, validScope. split.
  - intros E. ok_inv E as [] H1. by apply bind_ok in E as ([] & H2 & E%Valid_spec).
  - intros (H1 & H2 & H3%Valid_spec). rewrite H1. cbn. by rewrite H2.
Qed.

(** Induction on a keyring through its scopes. *)
Lemma Keyring_scopes_ind (P : Keyring -> Prop) :
  (forall n k ss, Forall (fun s => P (sc_keys s)) ss -> P (mkKeyring n k ss)) -> forall k, P k.
Proof.
  intros Hstep. fix IH 1. intros [n k ss]. apply Hstep.
  induction ss as [|s ss IHs]; constructor; [apply IH|exact IHs].
Qed.

(** ** What a merge adds

    [extends k m]: [m] has [k]'s keys and scopes where [k] has them, and more
    after them.  [absorbed o m]: everything [o] holds can be found in [m]. *)

Definition sameScope (s s' : Scope) : Prop :=
  sc_Name s' = sc_Name s /\ sc_Prefix s' = sc_Prefix s /\ sc_Created s' = sc_Created s /\
  sc_Derivation s' = sc_Derivation s.

Inductive extends : Keyring -> Keyring -> Prop :=
| extends_intro n n' k k' ss ss' more :
    Forall2 (fun s s' => sameScope s s' /\ extends (sc_keys s) (sc_keys s')) ss ss' ->
    extends (mkKeyring n k ss) (mkKeyring (n ++ n') (k ++ k') (ss' ++ more)).

Definition holds (es : list KeyEntry) (e : KeyEntry) : Prop :=
  exists e', e' ∈ es /\ ke_ID e' = ke_ID e /\ ke_key e' = ke_key e.

Inductive absorbed : Keyring -> Keyring -> Prop :=
| absorbed_intro n n' k k' ss ss' :
    Forall (holds n') n -> Forall (holds k') k ->
    Forall (fun s => exists s', s' ∈ ss' /\ sc_Name s' = sc_Name s /\ sc_Prefix s' = sc_Prefix s /\
                       absorbed (sc_keys s) (sc_keys s')) ss ->
    absorbed (mkKeyring n k ss) (mkKeyring n' k' ss').

Definition scope_extends (s s' : Scope) : Prop := sameScope s s' /\ extends (sc_keys s) (sc_keys s').

Lemma sameScope_refl s : sameScope s s.
Proof. done. Qed.

Lemma sameScope_trans s1 s2 s3 : sameScope s1 s2 -> sameScope s2 s3 -> sameScope s1 s3.
Proof. unfold sameScope. intros (?&?&?&?) (?&?&?&?). split_and!; congruence. Qed.

Lemma extends_scopes ss : Forall (fun s => extends (sc_keys s) (sc_keys s)) ss -> Forall2 scope_extends ss ss.
Proof. induction 1; constructor; [by split|done]. Qed.

#[export] Instance extends_refl : Reflexive extends.
Proof.
  intros k. induction k as [n k ss IH] using Keyring_scopes_ind.
  rewrite <- (app_nil_r n) at 2. rewrite <- (app_nil_r k) at 2. rewrite <- (app_nil_r ss) at 2.
  constructor. by apply extends_scopes.
Qed.

#[export] Instance extends_trans : Transitive extends.
Proof.
  intros k1. induction k1 as [n k ss IH] using Keyring_scopes_ind. intros k2 k3 H12 H23.
  inversion H12 as [? n' ? k' ? ss' more Hs E1 E2]; subst.
  inversion H23 as [? n'' ? k'' ? ss'' more' Hs' E1 E2]; subst.
  apply Forall2_app_inv_l in Hs' as (ssa & ssb & Ha & Hb & ->).
  rewrite <- !app_assoc. constructor.
  clear -IH Hs Ha. revert ss' ssa Hs Ha. induction IH as [|s ss Hi _ IHss]; intros ss' ssa Hs Ha.
  - inversion Hs; subst. inversion Ha; subst. constructor.
  - inversion Hs as [|? s' ? ss1 [Hh He] Hr]; subst. inversion Ha as [|? s'' ? ss2 [Hh' He'] Hr']; subst.
    constructor; [|eauto]. split; [by eapply sameScope_trans|by eapply Hi].
Qed.

Lemma scope_extends_refl s : scope_extends s s.
Proof. split; [done|]. apply extends_refl. Qed.

Lemma scope_extends_trans s1 s2 s3 : scope_extends s1 s2 -> scope_extends s2 s3 -> scope_extends s1 s3.
Proof. intros [H1 E1] [H2 E2]. split; [by eapply sameScope_trans|by etrans]. Qed.

Lemma holds_app es es' e : holds es e -> holds (es ++ es') e.
Proof. intros (e' & He & ? & ?). exists e'. split; [apply elem_of_app; by left|done]. Qed.

(** What is absorbed stays so when the keyring grows. *)
Lemma absorbed_extends o : forall m m', absorbed o m -> extends m m' -> absorbed o m'.
Proof.
  induction o as [n k ss IH] using Keyring_scopes_ind. intros m m' Ha He.
  inversion Ha as [? n1 ? k1 ? ss1 Hn Hk Hs]; subst.
  inversion He as [? n2 ? k2 ? ss2 more Hs2]; subst. constructor.
  - eapply Forall_impl; [exact Hn|]. intros e. apply holds_app.
  - eapply Forall_impl; [exact Hk|]. intros e. apply holds_app.
  - rewrite Forall_forall in IH, Hs |- *. intros s Hin. destruct (Hs s Hin) as (s1 & H1 & En & Ep & Ea).
    apply list_elem_of_lookup in H1 as [i Hi].
    destruct (Forall2_lookup_l _ _ _ _ _ Hs2 Hi) as (s2 & H2 & (En' & Ep' & _) & Ee).
    exists s2. split_and!; [apply elem_of_app; left; by eapply list_elem_of_lookup_2|congruence..|].
    by eapply (IH s Hin).
Qed.

(** *** Entries *)

(** The index of the entries a merge holds. *)
Record held_ok (held : gmap string KeyEntry) (out : list KeyEntry) : Prop := {
  ho_in : forall id e, held !! id = Some e -> e ∈ out /\ ke_ID e = id;
  ho_all : forall e, e ∈ out -> is_Some (held !! ke_ID e)
}.

Lemma held_ok_insert held out e : held_ok held out -> held !! ke_ID e = None ->
  held_ok (<[ke_ID e := e]> held) (out ++ [e]).
Proof.
  intros [Hin Hall] Hn. split.
  - intros id e'. rewrite lookup_insert. case_decide as E.
    + intros [= <-]. split; [set_solver|done].
    + intros He. destruct (Hin id e' He). set_solver.
  - intros e' [He|He%list_elem_of_singleton]%elem_of_app.
    + rewrite lookup_insert. case_decide; [done|]. by apply Hall.
    + subst. rewrite lookup_insert_eq. done.
Qed.

Lemma heldBy_ok live : held_ok (heldBy live) live.
Proof.
  unfold heldBy. induction live as [|e live IH] using rev_ind; [split; set_solver|].
  rewrite fold_left_app. cbn [fold_left]. destruct IH as [Hin Hall]. split.
  - intros id e'. rewrite lookup_insert. case_decide as E.
    + intros [= <-]. split; [set_solver|done].
    + intros He. destruct (Hin id e' He). set_solver.
  - intros e' [He|He%list_elem_of_singleton]%elem_of_app; rewrite lookup_insert; case_decide; subst; try done.
    by apply Hall.
Qed.

Lemma NoDup_map_inj {A B} (f : A -> B) l x y : NoDup (map f l) -> x ∈ l -> y ∈ l -> f x = f y -> x = y.
Proof.
  induction l as [|a l IH]; [set_solver|]. cbn. rewrite NoDup_cons, list_elem_of_fmap.
  intros [Hn Hd] [->|Hx]%elem_of_cons [->|Hy]%elem_of_cons E; [done| | |by apply IH].
  - destruct Hn. by exists y.
  - destruct Hn. by exists x.
Qed.

Lemma mergeEntry_fold what incoming : forall held out held' out',
  held_ok held out -> foldM (mergeEntry what) (held, out) incoming = Ok (held', out') ->
  exists more, out' = out ++ more /\ more `sublist_of` incoming /\
    Forall (holds out') incoming /\
    (NoDup (map ke_ID out) -> NoDup (map ke_ID out')).
Proof.
  induction incoming as [|e incoming IH]; intros held out held' out' Hh; cbn [foldM].
  - intros [= <- <-]. exists []. rewrite app_nil_r. split_and!; [done..|constructor|done].
  - unfold mergeEntry at 1. destruct (held !! ke_ID e) as [e'|] eqn:E.
    + case_decide as Ek; [|done]. cbn. intros Hf. destruct (IH _ _ _ _ Hh Hf) as (more & -> & Hs & Ha & Hd).
      exists more. split_and!; [done|by apply sublist_cons|constructor; [|done]|done].
      destruct Hh as [Hin _]. destruct (Hin _ _ E) as [Hi Hid]. apply holds_app. by exists e'.
    + cbn. intros Hf. destruct (IH _ _ _ _ (held_ok_insert _ _ _ Hh E) Hf) as (more & -> & Hs & Ha & Hd).
      exists (e :: more). rewrite <- app_assoc in *. split_and!; [done|by apply sublist_skip| |].
      * constructor; [|done]. exists e. set_solver.
      * intros Hnd. apply Hd. rewrite map_app. apply NoDup_app. split_and!; [done| |apply NoDup_singleton].
        intros id Hid [->|[]%not_elem_of_nil]%elem_of_cons. apply list_elem_of_fmap in Hid as (e2 & He2 & Hin2).
        destruct Hh as [_ Hall]. destruct (Hall e2 Hin2) as [? Hl]. cbn in He2. rewrite <- He2 in Hl. congruence.
Qed.

Lemma mergeEntries_spec live incoming what out : mergeEntries live incoming what = Ok out ->
  exists more, out = live ++ more /\ Forall (holds out) incoming /\
    (entries_ok live -> entries_ok incoming -> entries_ok out).
Proof.
  unfold mergeEntries. intros ([held' out'] & Hf & [= <-])%bind_ok. cbn [snd].
  destruct (mergeEntry_fold _ _ _ _ _ _ (heldBy_ok live) Hf) as (more & -> & Hs & Ha & Hd).
  exists more. split_and!; [done..|]. intros [Hl Hn] [Hl' _]. split; [|by apply Hd].
  apply Forall_app; split; [done|]. rewrite Forall_forall in Hl' |- *.
  intros e He. apply Hl'. by eapply elem_of_sublist.
Qed.

Lemma mergeEntry_same what live incoming :
  NoDup (map ke_ID live) -> incoming ⊆ live ->
  foldM (mergeEntry what) (heldBy live, live) incoming = Ok (heldBy live, live).
Proof.
  intros Hd. induction incoming as [|e incoming IH]; intros Hs; [done|]. cbn [foldM]. unfold mergeEntry at 1.
  destruct (heldBy_ok live) as [Hin Hall]. destruct (Hall e) as [e' He']; [set_solver|]. rewrite He'.
  destruct (Hin _ _ He') as [Hl Hid]. assert (e' = e) as -> by (eapply NoDup_map_inj; eauto; set_solver).
  rewrite decide_True by done. cbn. apply IH. set_solver.
Qed.

Lemma mergeEntries_same live what : entries_ok live -> mergeEntries live live what = Ok live.
Proof. intros [_ Hd]. unfold mergeEntries. by rewrite mergeEntry_same. Qed.

(** *** Scopes *)

(** The index of the scopes a merge holds. *)
Definition index_ok (at_ : gmap string nat) (out : list Scope) : Prop :=
  forall name i, at_ !! name = Some i <-> exists s, out !! i = Some s /\ sc_Name s = name.

Lemma index_ok_snoc at_ out s : index_ok at_ out -> at_ !! sc_Name s = None ->
  index_ok (<[sc_Name s := length out]> at_) (out ++ [s]).
Proof.
  intros Hi Hn name i. rewrite lookup_insert. case_decide as E.
  - subst. split.
    + intros [= <-]. exists s. by rewrite list_lookup_middle.
    + intros (s' & Hl & Hs'). apply lookup_app_Some in Hl as [Hl|[Hge Hl]].
      * assert (at_ !! sc_Name s = Some i) by (apply Hi; eauto). congruence.
      * apply list_lookup_singleton_Some in Hl as [Hl ->]. f_equal. lia.
  - etrans; [apply Hi|]. split; intros (s' & Hl & Hs').
    + exists s'. split; [by apply lookup_app_l_Some|done].
    + exists s'. split; [|done]. apply lookup_app_Some in Hl as [Hl|[_ Hl]]; [done|].
      apply list_lookup_singleton_Some in Hl as [_ ->]. congruence.
Qed.

Lemma scopeIndex_ok out : NoDup (map sc_Name out) -> index_ok (scopeIndex out) out.
Proof.
  unfold scopeIndex. induction out as [|s out IH] using rev_ind; intros Hd.
  - intros name i. split; [done|]. by intros (s & ? & _).
  - rewrite map_app in Hd. apply NoDup_app in Hd as (Hd & Hn & _).
    rewrite imap_app, fold_left_app. cbn [imap fold_left]. rewrite Nat.add_0_r.
    apply index_ok_snoc; [by apply IH|].
    destruct (fold_left _ _ _ !! _) as [i|] eqn:E; [|done]. apply (IH Hd) in E as (s' & Hl & Hs').
    exfalso. apply (Hn (sc_Name s)); [|set_solver]. apply list_elem_of_fmap. exists s'.
    split; [done|]. by eapply list_elem_of_lookup_2.
Qed.

Lemma index_ok_insert at_ out i s s' : index_ok at_ out -> out !! i = Some s -> sc_Name s' = sc_Name s ->
  index_ok at_ (<[i := s']> out).
Proof.
  intros Hi Hl Hn name j. etrans; [apply Hi|]. destruct (decide (i = j)) as [<-|Hij].
  - rewrite list_lookup_insert_eq by (by eapply lookup_lt_Some). rewrite Hl. naive_solver congruence.
  - by rewrite list_lookup_insert_ne.
Qed.

Lemma ForallOrdPairs_snoc {A} (R : A -> A -> Prop) l x :
  ForallOrdPairs R l -> Forall (fun y => R y x) l -> ForallOrdPairs R (l ++ [x]).
Proof.
  induction 1 as [|y l Hy _ IH]; intros Hx; cbn [app]; [apply FOP_cons; constructor|].
  apply Forall_cons in Hx as [? ?]. constructor; [|by apply IH]. apply Forall_app. split; [done|by repeat constructor].
Qed.

Lemma ForallOrdPairs_map {A B} (f : A -> B) (R : B -> B -> Prop) l :
  ForallOrdPairs (fun x y => R (f x) (f y)) l <-> ForallOrdPairs R (map f l).
Proof.
  induction l as [|x l IH]; cbn [map]; [split; constructor|].
  split; intros Hp; inversion Hp as [|? ? Hx Hl]; subst; (constructor; [|by apply IH]).
  - change (Forall (R (f x)) (f <$> l)). rewrite Forall_fmap. exact Hx.
  - change (Forall (R (f x)) (f <$> l)) in Hx. rewrite Forall_fmap in Hx. exact Hx.
Qed.

Lemma absorbed_refl k : absorbed k k.
Proof.
  induction k as [n ks ss IH] using Keyring_scopes_ind. constructor.
  - apply Forall_forall. intros e He. by exists e.
  - apply Forall_forall. intros e He. by exists e.
  - rewrite Forall_forall in IH |- *. intros s Hs. exists s. split_and!; [done..|by apply IH].
Qed.

(** A scope of [o] that [ss] answers for. *)
Definition answered (ss : list Scope) (s : Scope) : Prop :=
  exists s', s' ∈ ss /\ sc_Name s' = sc_Name s /\ sc_Prefix s' = sc_Prefix s /\ absorbed (sc_keys s) (sc_keys s').

(** [out'] grew from [out]. *)
Definition grew (out out' : list Scope) : Prop :=
  exists ss more, out' = ss ++ more /\ Forall2 scope_extends out ss.

Lemma grew_refl out : grew out out.
Proof. exists out, []. rewrite app_nil_r. split; [done|]. apply Forall_Forall2_diag, Forall_true, scope_extends_refl. Qed.

Lemma grew_trans o1 o2 o3 : grew o1 o2 -> grew o2 o3 -> grew o1 o3.
Proof.
  intros (s1 & m1 & -> & H1) (s2 & m2 & -> & H2).
  apply Forall2_app_inv_l in H2 as (sa & sb & Ha & Hb & ->).
  exists sa, (sb ++ m2). rewrite <- app_assoc. split; [done|].
  eapply Forall2_trans; [|exact H1|exact Ha]. intros x y z. apply scope_extends_trans.
Qed.

Lemma answered_grew o1 o2 s : answered o1 s -> grew o1 o2 -> answered o2 s.
Proof.
  intros (s1 & H1 & En & Ep & Ea) (ss & more & -> & H2).
  apply list_elem_of_lookup in H1 as [i Hi].
  destruct (Forall2_lookup_l _ _ _ _ _ H2 Hi) as (s2 & Hl & (En' & Ep' & _) & Ee).
  exists s2. split_and!; [apply elem_of_app; left; by eapply list_elem_of_lookup_2|congruence..|].
  by eapply absorbed_extends.
Qed.

(** What a merge of two valid keyrings gives. *)
Definition merged_ok (k other m : Keyring) : Prop := keyring_ok m /\ extends k m /\ absorbed other m.

Lemma mergeScope_step f out at_ s out' at_' :
  scopes_ok out -> index_ok at_ out -> ScopeValid s = Ok tt ->
  (forall k m, keyring_ok k -> f k = Ok m -> merged_ok k (sc_keys s) m) ->
  mergeScope f (out, at_) s = Ok (out', at_') ->
  scopes_ok out' /\ index_ok at_' out' /\ grew out out' /\ answered out' s.
Proof.
  intros [Hv Hn Ha] Hi Hs Hf. unfold mergeScope. destruct (at_ !! sc_Name s) as [i|] eqn:E.
  - destruct (out !! i) as [live|] eqn:El; [|done]. case_decide as Ep; [done|].
    destruct (shareAnEntry _ _); [|done]. cbn [negb].
    intros (merged & Hm & [= <- <-])%bind_ok.
    destruct (f (sc_keys live)) as [m|] eqn:Em; [|done]. injection Hm as ->.
    assert (sc_Name live = sc_Name s) as Enm by (apply Hi in E as (s' & ? & ?); congruence).
    assert (ScopeValid live = Ok tt) as Hlv by (by eapply Forall_lookup_1 in Hv).
    apply ScopeValid_spec in Hlv as (Hl1 & Hl2 & Hl3).
    destruct (Hf _ _ Hl3 Em) as (Hok & Hext & Habs).
    assert (forall A (g : Scope -> A), g (withKeys live merged) = g live ->
              map g (<[i:=withKeys live merged]> out) = map g out) as Hmap.
    { intros A g Hg. change (g <$> <[i:=withKeys live merged]> out = g <$> out).
      rewrite list_fmap_insert, Hg. apply list_insert_id. rewrite list_lookup_fmap, El. done. }
    split; [split|].
    + apply Forall_insert; [done|]. by apply ScopeValid_spec.
    + by rewrite Hmap.
    + apply (ForallOrdPairs_map sc_Prefix (fun a b => scopesOverlap a b = false)).
      rewrite Hmap by done. by apply ForallOrdPairs_map.
    + split; [by eapply index_ok_insert|]. split.
      * exists (<[i:=withKeys live merged]> out), []. rewrite app_nil_r. split; [done|].
        apply Forall2_same_length_lookup_2; [by rewrite length_insert|].
        intros j x y Hx Hy. destruct (decide (i = j)) as [<-|Hij].
        -- rewrite list_lookup_insert_eq in Hy by (by eapply lookup_lt_Some).
           assert (x = live) as -> by congruence. injection Hy as <-. by split.
        -- rewrite list_lookup_insert_ne in Hy by done. assert (x = y) as -> by congruence.
           apply scope_extends_refl.
      * exists (withKeys live merged). split_and!; [|done|by destruct (decide (sc_Prefix live = sc_Prefix s))|done].
        eapply list_elem_of_lookup_2 with (i := i). apply list_lookup_insert_eq. by eapply lookup_lt_Some.
  - destruct (list_find _ out) as [[j b]|] eqn:Ef; [done|]. intros [= <- <-].
    apply (find_overlap (fun b => scopesOverlap (sc_Prefix b) (sc_Prefix s))) in Ef.
    split; [split|].
    + apply Forall_app. split; [done|by repeat constructor].
    + rewrite map_app. apply NoDup_app. split_and!; [done| |apply NoDup_singleton].
      intros name Hin [->|[]%not_elem_of_nil]%elem_of_cons. apply list_elem_of_fmap in Hin as (s' & Es & Hin).
      apply list_elem_of_lookup in Hin as [j Hj]. assert (at_ !! sc_Name s = Some j) by (apply Hi; eauto).
      cbn in *. congruence.
    + by apply ForallOrdPairs_snoc.
    + split; [by apply index_ok_snoc|]. split.
      * exists out, [s]. split; [done|]. apply Forall_Forall2_diag, Forall_true, scope_extends_refl.
      * exists s. split_and!; [set_solver|done..|apply absorbed_refl].
Qed.

Lemma mergeScopes_fold incoming : forall out at_ out' at_',
  scopes_ok out -> index_ok at_ out -> Forall (fun s => ScopeValid s = Ok tt) incoming ->
  Forall (fun s => forall k m, keyring_ok k -> Merge k (sc_keys s) = Ok m -> merged_ok k (sc_keys s) m) incoming ->
  foldM (fun acc s => mergeScope (fun k => Merge k (sc_keys s)) acc s) (out, at_) incoming = Ok (out', at_') ->
  scopes_ok out' /\ grew out out' /\ Forall (answered out') incoming.
Proof.
  induction incoming as [|s incoming IH]; intros out at_ out' at_' Ho Hi Hv Hm; cbn [foldM].
  - intros [= <- <-]. split_and!; [done|apply grew_refl|constructor].
  - apply Forall_cons in Hv as [Hs Hv], Hm as [Hf Hm]. intros ([out1 at1] & E1 & E2)%bind_ok.
    destruct (mergeScope_step _ _ _ _ _ _ Ho Hi Hs Hf E1) as (Ho1 & Hi1 & Hg1 & Ha1).
    destruct (IH _ _ _ _ Ho1 Hi1 Hv Hm E2) as (Ho2 & Hg2 & Ha2).
    split_and!; [done|by eapply grew_trans|]. constructor; [by eapply answered_grew|done].
Qed.

Lemma Merge_ok other : forall k m, keyring_ok k -> keyring_ok other -> Merge k other = Ok m -> merged_ok k other m.
Proof.
  induction other as [on oks os IH] using Keyring_scopes_ind. intros k m Hk Ho E.
  rewrite Merge_unfold in E. cbn [kr_nameKeys kr_keys kr_scopes] in E.
  ok_inv E as names En. ok_inv E as keks Ek.
  ok_inv E as scopes Es. injection E as <-.
  unfold mergeScopes in Es. apply bind_ok in Es as ([scopes' at_'] & Es & E). injection E as <-. cbn [fst] in *.
  destruct Hk as [K1 K2 K3 K4 K5], Ho as [_ _ O3 O4 [O5 _ _]]. cbn [kr_nameKeys kr_keys kr_scopes] in *.
  destruct (mergeEntries_spec _ _ _ _ En) as (n' & -> & Hn & Hnok).
  destruct (mergeEntries_spec _ _ _ _ Ek) as (k' & -> & Hkk & Hkok).
  assert (Forall (fun s => forall k m, keyring_ok k -> Merge k (sc_keys s) = Ok m -> merged_ok k (sc_keys s) m) os)
    as Hf.
  { rewrite Forall_forall in IH, O5 |- *. intros s Hs k0 m0 Hk0. apply IH; [done|done|].
    apply O5, ScopeValid_spec in Hs. tauto. }
  destruct (mergeScopes_fold os _ _ _ _ K5 (scopeIndex_ok _ (so_names _ K5)) O5 Hf Es)
    as (Hso & (ss & more & -> & Hg) & Ha).
  split; [|split].
  - split; cbn [kr_nameKeys kr_keys kr_scopes]; [|..]; eauto.
    + intros [? ?]%app_eq_nil. done.
    + intros [? ?]%app_eq_nil. done.
  - destruct k as [kn kk ks]. by constructor.
  - by constructor.
Qed.
