(* ===== verification/KeyringFacts.v ===== *)
(** * What the keyring's operations guarantee ([datasphere/keyring.go], [scope.go])

    Scopes own disjoint subtrees; a merge only adds and merging twice changes
    nothing; a rotation and a change of active key keep every key; each
    application's scope is its own. *)

From Stdlib Require Import Ascii.
From S2P Require Import Prelude Effect GoTime GoStrings LogicalKey Keyring.

(** ** Subtrees *)

Lemma prefixes_of_one (a b r s : string) : a +:+ r = b +:+ s -> scopesOverlap a b = true.
Proof.
  unfold scopesOverlap. rewrite orb_true_iff, !HasPrefix_spec. revert b.
  induction a as [|x a IH]; intros b E; [right; by exists b|].
  destruct b as [|y b]; [left; by exists (String x a)|].
  rewrite !cons_app in E. injection E as -> E. destruct (IH _ E) as [[t ->]|[t ->]]; [left|right]; by exists t.
Qed.

(** Two prefixes overlap exactly when some key is under both. *)
Lemma scopesOverlap_spec a b :
  scopesOverlap a b = true <-> exists key, HasPrefix key a = true /\ HasPrefix key b = true.
Proof.
  setoid_rewrite HasPrefix_spec. split.
  - unfold scopesOverlap. rewrite orb_true_iff, !HasPrefix_spec. intros [[r ->]|[r ->]].
    + exists (b +:+ r). split; [exists ""|by exists r]. by rewrite app_string_nil_r.
    + exists (a +:+ r). split; [by exists r|exists ""]. by rewrite app_string_nil_r.
  - intros (key & [r E] & [s E']). apply (prefixes_of_one a b r s). congruence.
Qed.

Lemma scopesOverlap_sym a b : scopesOverlap a b = scopesOverlap b a.
Proof. apply orb_comm. Qed.

Lemma ForallOrdPairs_lookup {A} (R : A -> A -> Prop) l i j x y :
  ForallOrdPairs R l -> l !! i = Some x -> l !! j = Some y -> (i < j)%nat -> R x y.
Proof.
  intros Hp. revert i j. induction Hp as [|z l Hz _ IH]; intros [|i] [|j] Hi Hj Hij; try done; try lia.
  - injection Hi as ->. cbn in Hj. by eapply Forall_lookup_1 in Hz.
  - apply (IH i j); [done..|lia].
Qed.

Lemma owner_unique k key s1 s2 : scopes_ok (kr_scopes k) ->
  s1 ∈ kr_scopes k -> s2 ∈ kr_scopes k -> Owns s1 key = true -> Owns s2 key = true -> s1 = s2.
Proof.
  intros Hok [i Hi]%list_elem_of_lookup [j Hj]%list_elem_of_lookup H1 H2. pose proof (so_apart _ Hok) as Ha.
  assert (scopesOverlap (sc_Prefix s1) (sc_Prefix s2) = true) as Ho by (apply scopesOverlap_spec; by exists key).
  destruct (lt_eq_lt_dec i j) as [[Hij| ->]|Hji]; [| congruence |].
  - pose proof (ForallOrdPairs_lookup _ _ _ _ _ _ Ha Hi Hj Hij) as Hap. unfold apart in Hap. congruence.
  - pose proof (ForallOrdPairs_lookup _ _ _ _ _ _ Ha Hj Hi Hji) as Hap. unfold apart in Hap.
    rewrite scopesOverlap_sym in Hap. congruence.
Qed.

Lemma ScopeOwning_spec k key s : scopes_ok (kr_scopes k) ->
  ScopeOwning k key = Some s <-> s ∈ kr_scopes k /\ Owns s key = true.
Proof.
  intros Hok. unfold ScopeOwning. rewrite fmap_Some. split.
  - intros ((i & s') & Hf & ->). apply list_find_Some in Hf as (Hi & Ho & _).
    split; [by eapply list_elem_of_lookup_2|done].
  - intros [Hin Ho]. destruct (list_find_elem_of (fun s => Owns s key = true) (kr_scopes k) s Hin Ho) as [[i s'] Hf].
    exists (i, s'). split; [done|]. apply list_find_Some in Hf as (Hi & Ho' & _).
    eapply owner_unique; eauto using list_elem_of_lookup_2.
Qed.

(** ** Merging twice *)

Lemma shareAnEntry_refl es : es <> [] -> shareAnEntry es es = true.
Proof.
  destruct es as [|e es]; [done|]. intros _. unfold shareAnEntry. cbn. by rewrite bool_decide_true.
Qed.

Lemma mergeScopes_same at_ live incoming : scopes_ok live -> index_ok at_ live -> incoming ⊆ live ->
  Forall (fun s => keyring_ok (sc_keys s) -> Merge (sc_keys s) (sc_keys s) = Ok (sc_keys s)) incoming ->
  foldM (fun acc s => mergeScope (fun k => Merge k (sc_keys s)) acc s) (live, at_) incoming = Ok (live, at_).
Proof.
  intros Hok Hi. induction incoming as [|s incoming IH]; intros Hs Hm; [done|]. cbn [foldM].
  apply Forall_cons in Hm as [Hself Hm]. assert (s ∈ live) as Hin by set_solver.
  destruct (proj1 (list_elem_of_lookup _ _) Hin) as [i Hl].
  assert (at_ !! sc_Name s = Some i) as Ea by (apply Hi; eauto).
  assert (ScopeValid s = Ok tt) as Hv by (pose proof (so_valid _ Hok) as Hf; rewrite Forall_forall in Hf; auto).
  apply ScopeValid_spec in Hv as (_ & _ & Hk).
  unfold mergeScope at 1. rewrite Ea, Hl, decide_False by auto.
  rewrite shareAnEntry_refl by (by destruct Hk). cbn [negb].
  rewrite (Hself Hk). cbn. destruct s as [n p c d ks]. cbn.
  change (withKeys _ ks) with (mkScope n p c d ks). rewrite list_insert_id by done.
  apply IH; [set_solver|done].
Qed.

Lemma Merge_same k : keyring_ok k -> Merge k k = Ok k.
Proof.
  induction k as [n ks ss IH] using Keyring_scopes_ind. intros [_ _ H3 H4 H5]. cbn [kr_nameKeys kr_keys kr_scopes] in *.
  rewrite Merge_unfold. cbn [kr_nameKeys kr_keys kr_scopes].
  rewrite !mergeEntries_same by done. cbn. unfold mergeScopes.
  rewrite mergeScopes_same; [done|done|apply scopeIndex_ok, H5|done|exact IH].
Qed.

(** ** Adding a scope *)

Definition add_refusal (s existing : Scope) : result keyring_error unit :=
  if decide (sc_Name existing = sc_Name s) then Err (ScopeExists (sc_Name s))
  else if scopesOverlap (sc_Prefix existing) (sc_Prefix s)
  then Err (ScopesOverlap (sc_Name s) (sc_Prefix s) (sc_Name existing) (sc_Prefix existing))
  else Ok tt.

Lemma foldM_checks {A E} (f : A -> result E unit) l :
  foldM (fun _ x => f x) tt l = Ok tt <-> Forall (fun x => f x = Ok tt) l.
Proof.
  induction l as [|x l IH]; cbn [foldM]; [split; [constructor|done]|].
  rewrite Forall_cons, <- IH. destruct (f x) as [[]|e]; cbn; [tauto|]. split; [done|by intros [? _]].
Qed.

Lemma add_refusal_spec s existing :
  add_refusal s existing = Ok tt <-> sc_Name existing <> sc_Name s /\ apart existing s.
Proof.
  unfold add_refusal, apart. case_decide; [split; [done|by intros [? _]]|].
  destruct (scopesOverlap _ _); split; [done|by intros [_ ?]|done|done].
Qed.

Lemma AddScope_spec k s m : AddScope k s = Ok m <->
  ScopeValid s = Ok tt /\ Forall (fun e => sc_Name e <> sc_Name s /\ apart e s) (kr_scopes k) /\
  m = mkKeyring (kr_nameKeys k) (kr_keys k) (kr_scopes k ++ [s]).
Proof.
  unfold AddScope.
  change (foldM _ tt (kr_scopes k)) with (foldM (fun _ e => add_refusal s e) tt (kr_scopes k)).
  rewrite bind_ok. split.
  - intros ([] & Hv & E). apply bind_ok in E as ([] & Hf & [= <-]).
    apply (foldM_checks (add_refusal s)) in Hf. split_and!; [done| |done].
    eapply Forall_impl; [exact Hf|]. intros e. apply add_refusal_spec.
  - intros (Hv & Hf & ->). exists tt. split; [done|].
    rewrite (proj2 (foldM_checks (add_refusal s) (kr_scopes k))); [done|].
    eapply Forall_impl; [exact Hf|]. intros e. apply add_refusal_spec.
Qed.

Lemma scopes_ok_snoc ss s : scopes_ok ss -> ScopeValid s = Ok tt ->
  Forall (fun e => sc_Name e <> sc_Name s /\ apart e s) ss -> scopes_ok (ss ++ [s]).
Proof.
  intros [Hv Hn Ha] Hs Hf. split.
  - apply Forall_app. split; [done|by repeat constructor].
  - rewrite map_app. apply NoDup_app. split_and!; [done| |apply NoDup_singleton].
    intros name Hin [->|[]%not_elem_of_nil]%elem_of_cons. apply list_elem_of_fmap in Hin as (e & E & Hin).
    rewrite Forall_forall in Hf. by destruct (Hf e Hin) as [? _].
  - apply ForallOrdPairs_snoc; [done|]. eapply Forall_impl; [exact Hf|]. by intros e [_ ?].
Qed.

(** ** Rotating *)

Section rotation.
Context {W : Type} `{Entropy W}.

Lemma NewKey_sizes (w w' : W) e : NewKey w = (Ok e, w') -> len (ke_key e) = KeyLen /\ len (ke_ID e) = KeyIDLen.
Proof.
  unfold NewKey. intros (c & w1 & _ & Hk)%bind_inv. apply bind_inv in Hk as (m & w2 & Hm & Hk).
  apply bind_inv in Hk as (id & w3 & Hi & Hk). injection Hk as <- _.
  split; cbn; [by eapply readRand_len|by eapply readRand_len].
Qed.

(** [s'] is [s] with [e] in front of its key-encryption keys. *)
Definition rotated (s s' : Scope) (ro : ScopeRotation) : Prop :=
  exists e previous, s' = withKeys s (AddKEK (sc_keys s) e) /\ ScopeValid s' = Ok tt /\
    ActiveKEK (sc_keys s) = Ok previous /\
    ro = mkRotation (sc_Name s) (ke_ID previous) (ke_ID e).

Lemma rotate_fold l : forall acc (w w' : W) acc', foldE rotateScope acc l w = (Ok acc', w') ->
  exists ss ros, acc' = (acc.1 ++ ss, acc.2 ++ ros) /\ Forall3 rotated l ss ros.
Proof.
  induction l as [|s l IH]; intros acc w w' acc'; cbn [foldE].
  - intros [= <- _]. exists [], []. rewrite !app_nil_r. split; [by destruct acc|constructor].
  - intros (acc1 & w1 & E1 & E2)%bind_inv. unfold rotateScope in E1.
    apply bind_inv in E1 as (p & w2 & Hp & E1). apply lift_inv in Hp as [Hp ->].
    apply bind_inv in E1 as (e & w3 & He & E1). apply bind_inv in E1 as ([] & w4 & Hv & E1).
    apply lift_inv in Hv as [Hv ->]. injection E1 as <- <-.
    destruct (IH _ _ _ _ E2) as (ss & ros & -> & Hr). cbn [fst snd].
    eexists (_ :: ss), (_ :: ros). rewrite <- !app_assoc. split; [done|]. constructor; [|exact Hr].
    exists e, p. split_and!; [done| | |done].
    + by destruct (ScopeValid _) as [[]|].
    + by destruct (ActiveKEK _).
Qed.

Lemma rotated_same A (g : Scope -> A) l ss ros : (forall s k, g (withKeys s k) = g s) ->
  Forall3 rotated l ss ros -> map g ss = map g l.
Proof.
  intros Hg. induction 1 as [|s s' ro l ss ros (e & p & -> & _) _ IH]; [done|]. cbn. by rewrite Hg, IH.
Qed.

Lemma rotated_scopes_ok l ss ros : scopes_ok l -> Forall3 rotated l ss ros -> scopes_ok ss.
Proof.
  intros [_ Hn Ha] Hr. split.
  - clear Hn Ha. induction Hr as [|s s' ro l ss ros (e & p & _ & Hv & _) _ IH]; by constructor.
  - by rewrite (rotated_same _ sc_Name _ _ _ (fun _ _ => eq_refl) Hr).
  - apply (ForallOrdPairs_map sc_Prefix (fun a b => scopesOverlap a b = false)).
    rewrite (rotated_same _ sc_Prefix _ _ _ (fun _ _ => eq_refl) Hr). by apply ForallOrdPairs_map.
Qed.

(** Under distinct identifiers, a key in front hides none of the others. *)
Lemma lookupKEK_AddKEK k e id x : entries_ok (kr_keys (AddKEK k e)) ->
  lookupKEK k id = Some x -> lookupKEK (AddKEK k e) id = Some x.
Proof.
  intros [_ Hd] Hl. unfold lookupKEK in *. cbn [AddKEK kr_keys map] in *. apply NoDup_cons in Hd as [Hn _].
  apply fmap_Some in Hl as ([i e'] & Hf & ->). apply fmap_Some. exists (S i, e'). split; [|done].
  apply list_find_Some in Hf as (Hi & <- & Hbefore). apply list_find_Some. split_and!; [done..|].
  intros [|j] y Hy Hlt.
  - injection Hy as ->. intros Heq. apply Hn. rewrite Heq. apply list_elem_of_fmap.
    exists e'. split; [done|]. by eapply list_elem_of_lookup_2.
  - apply (Hbefore j y); [done|lia].
Qed.

Lemma RotateScopeKEKs_spec k (w w' : W) m ros : RotateScopeKEKs k w = (Ok (m, ros), w') ->
  kr_nameKeys m = kr_nameKeys k /\ kr_keys m = kr_keys k /\ Forall3 rotated (kr_scopes k) (kr_scopes m) ros.
Proof.
  unfold RotateScopeKEKs. case_decide as Hz.
  - intros [= <- <- _]. split_and!; [done..|]. destruct (kr_scopes k); [constructor|done].
  - intros (acc & w1 & Hf & E)%bind_inv. injection E as <- <- _.
    destruct (rotate_fold _ _ _ _ _ Hf) as (ss & rs & -> & Hr). by cbn.
Qed.

End rotation.

(** ** Choosing the active key *)

Lemma reorder_spec id keys keys' : reorder id keys = Some keys' ->
  keys' ≡ₚ keys /\ exists e, head keys' = Some e /\ ke_ID e = id.
Proof.
  unfold reorder. destruct (list_find _ keys) as [[i e]|] eqn:E; [|done]. cbn. intros [= <-].
  apply list_find_Some in E as (Hi & Hid & _). split; [|eauto].
  rewrite <- (take_drop_middle _ _ _ Hi) at 3. by rewrite Permutation_middle.
Qed.

(** What activating [active] makes of a scope. *)
Definition activated (active : gmap string string) (s s' : Scope) : Prop :=
  sameScope s s' /\ kr_nameKeys (sc_keys s') = kr_nameKeys (sc_keys s) /\
  kr_scopes (sc_keys s') = kr_scopes (sc_keys s) /\ kr_keys (sc_keys s') ≡ₚ kr_keys (sc_keys s) /\
  (ScopeValid s = Ok tt -> ScopeValid s' = Ok tt) /\
  match active !! sc_Name s with
  | Some id => exists e, head (kr_keys (sc_keys s')) = Some e /\ ke_ID e = id
  | None => s' = s
  end.

Lemma activated_weaken active name l l' : name ∉ map sc_Name l ->
  Forall2 (activated (delete name active)) l l' -> Forall2 (activated active) l l'.
Proof.
  intros Hn Hf. induction Hf as [|s s' l l' Hs _ IH]; [constructor|]. cbn in Hn.
  apply not_elem_of_cons in Hn as [Hne Hn]. constructor; [|by apply IH].
  unfold activated in *. by rewrite lookup_delete_ne in Hs by done.
Qed.

Lemma activate_fold l : forall pending out pending' out', NoDup (map sc_Name l) ->
  foldM activate (pending, out) l = Ok (pending', out') ->
  exists l', out' = out ++ l' /\ Forall2 (activated pending) l l' /\
    pending' = filter (fun p => p.1 ∉ map sc_Name l) pending.
Proof.
  induction l as [|s l IH]; intros pending out pending' out' Hd; cbn [foldM].
  - intros [= <- <-]. exists []. rewrite app_nil_r. split_and!; [done|constructor|].
    apply map_eq. intros i. rewrite map_lookup_filter. destruct (pending !! i); [|done]. cbn.
    rewrite option_guard_True; [done|]. apply not_elem_of_nil.
  - cbn [map] in *. apply NoDup_cons in Hd as [Hn Hd]. unfold activate at 1.
    destruct (pending !! sc_Name s) as [id|] eqn:Ep.
    + destruct (reorder id (kr_keys (sc_keys s))) as [keys|] eqn:Er; [|done].
      intros ([p1 o1] & E1 & E2)%bind_ok. apply bind_ok in E1 as ([] & Hv & E1). injection E1 as <- <-.
      destruct (IH _ _ _ _ Hd E2) as (l' & -> & Hl & ->). eexists (_ :: l'). rewrite <- app_assoc.
      split; [done|]. split.
      * constructor; [|by eapply activated_weaken]. destruct (reorder_spec _ _ _ Er) as [Hp He].
        split_and!; [done..| |by rewrite Ep]. intros _. by destruct (ScopeValid _) as [[]|].
      * apply map_eq. intros i. rewrite !map_lookup_filter.
        destruct (decide (i = sc_Name s)) as [->|Hne].
        -- rewrite lookup_delete_eq, Ep. cbn. rewrite option_guard_False; [done|]. set_solver.
        -- rewrite lookup_delete_ne by done. destruct (pending !! i); [|done]. cbn.
           apply option_guard_iff. set_solver.
    + cbn. intros Hf. destruct (IH _ _ _ _ Hd Hf) as (l' & -> & Hl & ->). exists (s :: l').
      rewrite <- app_assoc. split; [done|]. split.
      * constructor; [|done]. unfold activated. by rewrite Ep.
      * apply map_eq. intros i. rewrite !map_lookup_filter.
        destruct (pending !! i) eqn:Ei; [|done]. cbn. apply option_guard_iff.
        destruct (decide (i = sc_Name s)) as [->|]; [congruence|set_solver].
Qed.

(** ** Applications' scopes *)

Definition segment (s : string) : Prop := without slash s = true /\ s <> "".

Lemma slash_string s : ScopePrefixSuffix +:+ s = String slash s.
Proof. done. Qed.

(** The parts of a key under an application's prefix. *)
Lemma split_app_key namespace app r : without slash namespace = true -> without slash app = true ->
  SplitByte slash (AppScopePrefix namespace app +:+ r)
  = AppScopeRoot :: namespace :: app :: SplitByte slash r.
Proof.
  intros Hn Ha. unfold AppScopePrefix. rewrite !app_string_assoc, !slash_string.
  by rewrite !SplitByte_app by done.
Qed.

Lemma app_prefix_inj n a n' a' key :
  without slash n = true -> without slash a = true -> without slash n' = true -> without slash a' = true ->
  HasPrefix key (AppScopePrefix n a) = true -> HasPrefix key (AppScopePrefix n' a') = true -> n = n' /\ a = a'.
Proof.
  rewrite !HasPrefix_spec. intros Hn Ha Hn' Ha' [r ->] [r' E].
  assert (SplitByte slash (AppScopePrefix n a +:+ r) = SplitByte slash (AppScopePrefix n' a' +:+ r')) as Es
    by (by rewrite E).
  rewrite !split_app_key in Es by done. injection Es as -> ->. done.
Qed.

Lemma parse_app_prefix n a : segment n -> segment a ->
  ParseAppScopePrefix (AppScopePrefix n a) = Some (n, a).
Proof.
  intros [Hn Hn0] [Ha Ha0]. unfold ParseAppScopePrefix.
  assert (CutPrefix (AppScopePrefix n a) (AppScopeRoot +:+ ScopePrefixSuffix)
          = Some ((n +:+ ScopePrefixSuffix +:+ a) +:+ ScopePrefixSuffix)) as ->.
  { apply CutPrefix_spec. by unfold AppScopePrefix; rewrite !app_string_assoc. }
  cbn [mbind option_bind]. rewrite TrimSuffix_app, slash_string, SplitByte_app by done.
  rewrite SplitByte_without by done. rewrite decide_False; [done|]. tauto.
Qed.

Lemma rotated_spec s s' ro : rotated s s' ro ->
  sameScope s s' /\ kr_nameKeys (sc_keys s') = kr_nameKeys (sc_keys s) /\
  (forall id x, lookupKEK (sc_keys s) id = Some x -> lookupKEK (sc_keys s') id = Some x) /\
  (exists e previous, ActiveKEK (sc_keys s') = Ok e /\ ActiveKEK (sc_keys s) = Ok previous /\
     ro = mkRotation (sc_Name s) (ke_ID previous) (ke_ID e) /\ ke_ID e <> ke_ID previous).
Proof.
  intros (e & p & -> & Hv & Hp & ->). apply ScopeValid_spec in Hv as (_ & _ & Hk).
  pose proof (ko_keys _ Hk) as He. cbn [withKeys sc_keys] in *. split_and!; [done..| |].
  - intros id x. by apply lookupKEK_AddKEK.
  - exists e, p. split_and!; [done..|]. destruct He as [_ Hd]. cbn [AddKEK kr_keys map] in Hd.
    apply NoDup_cons in Hd as [Hn _]. intros Heq. apply Hn. rewrite Heq. apply list_elem_of_fmap. exists p.
    split; [done|]. unfold ActiveKEK in Hp. destruct (kr_keys (sc_keys s)); [done|]. injection Hp as ->. left.
Qed.

(** ** Properties *)

(** A merge of two valid keyrings is a valid keyring that has everything
    this one had, where it had it -- so the active keys do not change -- and holds
    every key and scope of the other one. *)
Theorem merge_only_adds k other m :
  Valid k = Ok tt -> Valid other = Ok tt -> Merge k other = Ok m ->
  Valid m = Ok tt /\ extends k m /\ absorbed other m /\
  ActiveNameKey m = ActiveNameKey k /\ ActiveKEK m = ActiveKEK k.
Proof.
  rewrite !Valid_spec. intros Hk Ho Hm. destruct (Merge_ok _ _ _ Hk Ho Hm) as (Hok & He & Ha).
  split_and!; [done..| |]; destruct Hk as [Hn Hks _ _ _]; inversion He; subst; unfold ActiveNameKey, ActiveKEK;
    cbn [kr_nameKeys kr_keys] in *.
  - by destruct n.
  - by destruct k0.
Qed.

(** Merging a valid keyring with itself, as importing one's own backup does,
    succeeds and changes nothing. *)
Theorem merge_with_itself k : Valid k = Ok tt -> Merge k k = Ok k.
Proof. intros Hk%Valid_spec. by apply Merge_same. Qed.

(** In a valid keyring at most one scope owns a key, and [ScopeOwning] finds
    it: no object can be stored under two scopes' keys. *)
Theorem one_scope_owns_a_key k key s :
  Valid k = Ok tt ->
  (ScopeOwning k key = Some s <-> s ∈ kr_scopes k /\ Owns s key = true) /\
  (forall s', s ∈ kr_scopes k -> s' ∈ kr_scopes k -> Owns s key = true -> Owns s' key = true -> s' = s).
Proof.
  intros Hk%Valid_spec. pose proof (ko_scopes _ Hk) as Hs. split; [by apply ScopeOwning_spec|].
  intros s' Hin Hin' Ho Ho'. by apply (owner_unique k key).
Qed.

(** A scope is added exactly when it is valid, its name is new and no key is
    under both its prefix and another scope's; the keyring stays valid and gains
    that scope only. *)
Theorem adding_a_scope k s m :
  Valid k = Ok tt ->
  (AddScope k s = Ok m <->
     ScopeValid s = Ok tt /\
     (forall e, e ∈ kr_scopes k -> sc_Name e <> sc_Name s /\
        ~ exists key, Owns e key = true /\ Owns s key = true) /\
     m = mkKeyring (kr_nameKeys k) (kr_keys k) (kr_scopes k ++ [s])) /\
  (AddScope k s = Ok m -> Valid m = Ok tt).
Proof.
  intros Hk%Valid_spec. assert (forall e, apart e s <-> ~ exists key, Owns e key = true /\ Owns s key = true) as Hap.
  { intros e. unfold apart, Owns. rewrite <- scopesOverlap_spec. by rewrite not_true_iff_false. }
  split.
  - rewrite AddScope_spec, Forall_forall. by setoid_rewrite Hap.
  - intros (Hv & Hf & ->)%AddScope_spec. apply Valid_spec. destruct Hk as [H1 H2 H3 H4 H5].
    split; [done..|]. cbn. by apply scopes_ok_snoc.
Qed.

(** A rotation gives every scope a new active key and keeps all the others:
    names, prefixes and name keys are as they were, the keyring stays valid, the
    record says which key replaced which, and every key identifier that could be
    resolved in a scope before still resolves to the same key. *)
Theorem rotation_keeps_objects_readable {W} `{Entropy W} k (w w' : W) m ros :
  Valid k = Ok tt -> RotateScopeKEKs k w = (Ok (m, ros), w') ->
  Valid m = Ok tt /\ kr_nameKeys m = kr_nameKeys k /\ kr_keys m = kr_keys k /\
  length (kr_scopes m) = length (kr_scopes k) /\
  forall i s, kr_scopes k !! i = Some s -> exists s' ro,
    kr_scopes m !! i = Some s' /\ ros !! i = Some ro /\
    sameScope s s' /\ kr_nameKeys (sc_keys s') = kr_nameKeys (sc_keys s) /\
    (forall id x, lookupKEK (sc_keys s) id = Some x -> lookupKEK (sc_keys s') id = Some x) /\
    (exists e previous, ActiveKEK (sc_keys s') = Ok e /\ ActiveKEK (sc_keys s) = Ok previous /\
       ro = mkRotation (sc_Name s) (ke_ID previous) (ke_ID e) /\ ke_ID e <> ke_ID previous).
Proof.
  intros Hk%Valid_spec Hr. apply RotateScopeKEKs_spec in Hr as (En & Ek & Hf).
  split.
  { apply Valid_spec. destruct Hk as [H1 H2 H3 H4 H5]. rewrite <- En in *. rewrite <- Ek in *. split; [done..|].
    by eapply rotated_scopes_ok. }
  split_and!; [done..|eapply eq_sym, Forall3_length_lm, Hf|].
  intros i s Hi. destruct (Forall3_lookup_l _ _ _ _ _ _ Hf Hi) as (s' & ro & Hs' & Hro & Hrot).
  exists s', ro. split; [done|]. split; [done|]. by apply rotated_spec.
Qed.

(** Setting the active keys only reorders: each named scope's active key
    becomes the one asked for, out of the keys the scope has; every other scope is
    untouched, no key is added or dropped, and it is refused unless every name is a
    scope of the keyring. *)
Theorem activation_only_reorders `{GoRange} k active m :
  Valid k = Ok tt -> WithScopeActive k active = Ok m ->
  Valid m = Ok tt /\ kr_nameKeys m = kr_nameKeys k /\ kr_keys m = kr_keys k /\
  Forall2 (activated active) (kr_scopes k) (kr_scopes m) /\
  (forall name, is_Some (active !! name) -> name ∈ map sc_Name (kr_scopes k)).
Proof.
  intros Hk%Valid_spec. destruct Hk as [K1 K2 K3 K4 K5]. unfold WithScopeActive.
  intros ([pending scopes] & Hf & E)%bind_ok.
  destruct (activate_fold _ _ _ _ _ (so_names _ K5) Hf) as (l' & -> & Hl & Hp). cbn [app] in *.
  destruct (go_range pending) as [|[name id] l] eqn:Er; [|done]. injection E as <-.
  assert (pending = ∅) as Hz.
  { apply map_empty. intros i. destruct (pending !! i) as [v|] eqn:Ei; [|done].
    apply elem_of_go_range in Ei. rewrite Er in Ei. by apply not_elem_of_nil in Ei. }
  assert (map sc_Name l' = map sc_Name (kr_scopes k) /\ map sc_Prefix l' = map sc_Prefix (kr_scopes k)) as [Hn Hpr].
  { clear -Hl. induction Hl as [|s s' l l' ((En & Ep & _) & _) _ [IH1 IH2]]; [done|]. cbn. by rewrite En, Ep, IH1, IH2. }
  split_and!; [|done..| |].
  - apply Valid_spec. split; [done..|]. cbn. destruct K5 as [V1 V2 V3]. split.
    + clear -V1 Hl. induction Hl as [|s s' l l' Hs _ IH]; [constructor|].
      apply Forall_cons in V1 as [? ?]. constructor; [by apply Hs|by apply IH].
    + by rewrite Hn.
    + apply (ForallOrdPairs_map sc_Prefix (fun a b => scopesOverlap a b = false)). rewrite Hpr.
      by apply ForallOrdPairs_map.
  - done.
  - intros name [id Hid]. destruct (decide (name ∈ map sc_Name (kr_scopes k))) as [|Hnot]; [done|].
    assert (pending !! name = Some id) as Hs; [|by rewrite Hz in Hs].
    rewrite Hp, map_lookup_filter, Hid. cbn. by rewrite option_guard_True.
Qed.

(** An application's prefix names its namespace and application and no one
    else's: it reads back as them, and no key is under the prefixes of two
    different applications. *)
Theorem applications_are_apart n a n' a' :
  segment n -> segment a -> segment n' -> segment a' ->
  ParseAppScopePrefix (AppScopePrefix n a) = Some (n, a) /\
  ((n, a) <> (n', a') -> scopesOverlap (AppScopePrefix n a) (AppScopePrefix n' a') = false).
Proof.
  intros Hn Ha Hn' Ha'. split; [by apply parse_app_prefix|]. intros Hne.
  apply not_true_iff_false. rewrite scopesOverlap_spec. intros (key & H1 & H2). apply Hne.
  destruct Hn, Ha, Hn', Ha'. by destruct (app_prefix_inj n a n' a' key) as [-> ->].
Qed.

(** *** Witnesses *)

Definition repeated (n : nat) (c : ascii) : string := String.string_of_list_ascii (replicate n c).

Lemma repeated_len n c : len (repeated n c) = Z.of_nat n.
Proof. unfold len, repeated. induction n as [|n IH]; [done|]. cbn [replicate String.string_of_list_ascii String.length]. lia. Qed.

(** A source that counts: each read is one character, repeated. *)
#[export] Program Instance countingEntropy : Entropy nat := {|
  ReadFull n w := (if 0 <=? n then Ok (repeated (Z.to_nat n) (ascii_of_nat w)) else Err "negative"%string, S w);
  keyNow w := Z.of_nat w
|}.
Next Obligation.
  intros n w bs w'. cbn. destruct (Z.leb_spec 0 n); [|done]. intros [= <- _]. rewrite repeated_len. lia.
Qed.

Definition exEntry (c : ascii) : KeyEntry := mkKeyEntry (repeated 8 c) 0 (repeated 32 c).
Definition exScope (name prefix : string) (c d : ascii) : Scope :=
  mkScope name prefix 0 "" (mkKeyring [exEntry c] [exEntry d] []).
Definition exWeb : Scope := exScope "app-apps-web" "app/apps/web/" "c" "d".
Definition exApi : Scope := exScope "app-apps-api" "app/apps/api/" "e" "f".
Definition exKeyring : Keyring := mkKeyring [exEntry "a"] [exEntry "b"] [exWeb].
Definition exBackup : Keyring := mkKeyring [exEntry "a"] [exEntry "g"; exEntry "b"] [exApi; exWeb].

Lemma merge_only_adds_witness :
  exists m, Merge exKeyring exBackup = Ok m /\ Valid m = Ok tt /\ length (kr_scopes m) = 2%nat /\
    ActiveKEK m = Ok (exEntry "b").
Proof.
  assert (is_ok (Merge exKeyring exBackup) = true) as Hok by (vm_compute; reflexivity).
  assert (match Merge exKeyring exBackup with Ok m => length (kr_scopes m) | Err _ => 0%nat end = 2%nat) as Hl
    by (vm_compute; reflexivity).
  destruct (Merge exKeyring exBackup) as [m|e] eqn:E; [|discriminate Hok]. exists m.
  destruct (merge_only_adds exKeyring exBackup m ltac:(vm_compute; reflexivity) ltac:(vm_compute; reflexivity) E)
    as (Hv & _ & _ & _ & Ha).
  split; [reflexivity|]. split; [exact Hv|]. split; [exact Hl|]. rewrite Ha. reflexivity.
Defined.

Lemma one_scope_owns_a_key_witness :
  ScopeOwning exBackup "app/apps/api/state" = Some exApi /\ Owns exWeb "app/apps/api/state" = false.
Proof.
  split; [|reflexivity].
  apply (proj1 (one_scope_owns_a_key exBackup "app/apps/api/state" exApi ltac:(vm_compute; reflexivity))).
  split; [left|reflexivity].
Defined.

Lemma rotation_keeps_objects_readable_witness :
  exists m ros w', RotateScopeKEKs exBackup 120%nat = (Ok (m, ros), w') /\ Valid m = Ok tt /\ length (kr_scopes m) = 2%nat.
Proof.
  assert (is_ok (RotateScopeKEKs exBackup 120%nat).1 = true) as Hok by (vm_compute; reflexivity).
  destruct (RotateScopeKEKs exBackup 120%nat) as [[[m ros]|e] w'] eqn:E; [|discriminate Hok].
  exists m, ros, w'. split; [reflexivity|].
  destruct (rotation_keeps_objects_readable exBackup 120%nat w' m ros ltac:(vm_compute; reflexivity) E)
    as (Hv & _ & _ & Hl & _). split; [exact Hv|exact Hl].
Defined.

Definition exTwoKeys : Keyring :=
  mkKeyring [exEntry "a"] [exEntry "b"]
    [mkScope "app-apps-web" "app/apps/web/" 0 "" (mkKeyring [exEntry "c"] [exEntry "d"; exEntry "h"] [])].
