(* ===== verification/Identity.v ===== *)
(** * Who may do what at the keyholder ([datasphere/keyholder/identity.go],
      [server.go]'s [refuseSecretMutation])

    A caller is the role its leaf's URI names.  An application's scope is found
    by the name composed from its namespace and its own. *)

From Stdlib Require Import Ascii.
From S2P Require Import Prelude GoStrings LogicalKey Keyring KeyringFacts.

(** ** Data *)

Definition RoleOperator : string := "operator".
Definition RoleKeeper : string := "keeper".
Definition RoleDevice : string := "device".
Definition RoleApp : string := "app".

Record Identity := mkIdentity {
  id_Role : string;
  id_Instance : string;
  id_Name : string;
  id_Namespace : string
}.

Inductive auth_error :=
| OtherInstance
| UnknownShape.

Definition IntentOperator : string := "operator-unseal".
Definition IntentHandOver : string := "hand-over".
Definition IntentReseed : string := "restart-reseed".

(** ** Operations *)

Definition ParseIdentity (uri instance : string) : result auth_error Identity :=
  match CutPrefix uri ("farcast://" +:+ instance +:+ "/") with
  | None => Err OtherInstance
  | Some rest =>
      if decide (instance = "") then Err OtherInstance
      else if decide (rest = RoleOperator) then Ok (mkIdentity RoleOperator instance "" "")
      else
        match SplitByte slash rest with
        | [role; name] =>
            if decide (role = RoleKeeper /\ name <> "") then Ok (mkIdentity RoleKeeper instance name "")
            else if decide (role = RoleDevice /\ name <> "") then Ok (mkIdentity RoleDevice instance name "")
            else Err UnknownShape
        | [role; namespace; name] =>
            if decide (role = RoleApp /\ namespace <> "" /\ name <> "")
            then Ok (mkIdentity RoleApp instance name namespace)
            else Err UnknownShape
        | _ => Err UnknownShape
        end
  end.

Definition AllowData (instance uri : string) : bool :=
  match ParseIdentity uri instance with
  | Ok id => bool_decide (id_Role id <> RoleKeeper)
  | Err _ => false
  end.

Definition MayReach (id : Identity) (scopeName : string) : bool :=
  if decide (id_Role id = RoleOperator \/ id_Role id = RoleDevice) then true
  else if decide (id_Role id = RoleApp) then
    match AppScopeName (id_Namespace id) (id_Name id) with
    | Ok own => bool_decide (scopeName = own)
    | Err _ => false
    end
  else false.

Definition MayPush (id : Identity) (intent : string) : bool :=
  if decide (id_Role id = RoleOperator) then
    bool_decide (intent = IntentOperator \/ intent = IntentHandOver \/ intent = IntentReseed)
  else if decide (id_Role id = RoleKeeper) then bool_decide (intent = IntentReseed)
  else false.

Definition MaySeal (id : Identity) : bool := bool_decide (id_Role id = RoleOperator).

(** [true] when the mutation is refused. *)
Definition refuseSecretMutation (id : Identity) (scope : Scope) (key : string) : bool :=
  if negb (IsSecretsKey (sc_Prefix scope) key) then false
  else bool_decide (id_Role id = RoleApp).

(** ** Composed names *)

Lemma AppScopeName_some n a name : AppScopeName n a = Ok name -> name = "app-" +:+ n +:+ "-" +:+ a.
Proof.
  unfold AppScopeName. destruct (_ <? _); [done|]. destruct (ValidateScopeName _); [|done]. by intros [= <-].
Qed.

(** Without a dash in the namespaces, the name gives back both halves. *)
Lemma composed_name_inj n a n' a' : without "-" n = true -> without "-" n' = true ->
  n +:+ "-" +:+ a = n' +:+ "-" +:+ a' -> n = n' /\ a = a'.
Proof.
  intros Hn Hn' E.
  assert (cutByte "-" (n +:+ "-" +:+ a) = cutByte "-" (n' +:+ "-" +:+ a')) as Ec by (by rewrite E).
  assert (forall m b, without "-" m = true -> cutByte "-" (m +:+ "-" +:+ b) = Some (m, b)) as Hcut.
  { clear. unfold without. intros m b. induction m as [|x m IH]; [done|]. rewrite cons_app. cbn.
    intros [Hx Hm]%andb_true_iff. apply negb_true_iff in Hx. rewrite Hx. by rewrite IH. }
  rewrite !Hcut in Ec by done. by injection Ec as -> ->.
Qed.

(** ** Properties *)

(** What a leaf admits: the operator and a device reach every scope and a
    keeper none; a keeper pushes only a re-seed, a device or an application
    nothing; only the operator seals; and a keeper's leaf is the only one of this
    instance the data path turns away. *)
Theorem roles_are_bounded id intent name uri instance :
  (id_Role id = RoleKeeper -> MayReach id name = false /\ MaySeal id = false /\
     (MayPush id intent = true <-> intent = IntentReseed)) /\
  (id_Role id = RoleDevice \/ id_Role id = RoleApp -> MayPush id intent = false /\ MaySeal id = false) /\
  (id_Role id = RoleOperator \/ id_Role id = RoleDevice -> MayReach id name = true) /\
  (AllowData instance uri = true <->
     exists i, ParseIdentity uri instance = Ok i /\ id_Role i <> RoleKeeper) /\
  (forall i, ParseIdentity uri instance = Ok i ->
     id_Instance i = instance /\ (id_Role i = RoleApp -> id_Namespace i <> "" /\ id_Name i <> "") /\
     (id_Role i = RoleKeeper \/ id_Role i = RoleDevice -> id_Name i <> "")).
Proof.
  split; [|split; [|split; [|split]]].
  - intros E. unfold MayReach, MaySeal, MayPush. rewrite E. split; [done|]. split; [done|].
    rewrite decide_False, decide_True by done. apply bool_decide_eq_true.
  - intros [E|E]; unfold MaySeal, MayPush; rewrite E; done.
  - intros E. unfold MayReach. by rewrite decide_True.
  - unfold AllowData. destruct (ParseIdentity uri instance) as [i|e].
    + rewrite bool_decide_eq_true. split; [eauto|]. intros (i' & [= ->] & Hr). done.
    + split; [done|]. by intros (i & [=] & _).
  - intros i. unfold ParseIdentity. destruct (CutPrefix _ _) as [rest|]; [|done].
    case_decide; [done|]. case_decide; [intros [= <-]; split_and!; [done..|by intros [?|?]]|].
    destruct (SplitByte _ _) as [|a [|b [|c [|d l]]]]; try done; repeat case_decide; try done; intros [= <-];
      (split; [done|split; [try done; tauto|try (intros _; tauto); by intros [?|?]]]).
Qed.

(** An application reaches the scope named for its own namespace and
    application and, between namespaces without a dash, no other application's. *)
Theorem applications_reach_their_own instance n a n' a' name name' :
  without "-" n = true -> without "-" n' = true ->
  AppScopeName n a = Ok name -> AppScopeName n' a' = Ok name' ->
  (MayReach (mkIdentity RoleApp instance a n) name' = true <-> (n, a) = (n', a')).
Proof.
  intros Hn Hn' E E'. unfold MayReach. cbn [id_Role id_Name id_Namespace].
  rewrite decide_False, decide_True by (unfold RoleApp, RoleOperator, RoleDevice; naive_solver). rewrite E.
  rewrite bool_decide_eq_true. apply AppScopeName_some in E, E'. subst. split.
  - intros Heq. assert (n' +:+ "-" +:+ a' = n +:+ "-" +:+ a) as Hc.
    { by apply (app_string_inj "app-"). }
    destruct (composed_name_inj _ _ _ _ Hn' Hn Hc) as [-> ->]. done.
  - by intros [= -> ->].
Qed.

(** With a dash in a namespace two different applications compose one scope
    name: each reaches the scope minted for the other, although their prefixes
    share no key. *)
Theorem two_applications_one_name :
  exists n a n' a' name, (n, a) <> (n', a') /\ segment n /\ segment a /\ segment n' /\ segment a' /\
    AppScopeName n a = Ok name /\ AppScopeName n' a' = Ok name /\
    scopesOverlap (AppScopePrefix n a) (AppScopePrefix n' a') = false /\
    (forall instance, MayReach (mkIdentity RoleApp instance a n) name = true /\
                      MayReach (mkIdentity RoleApp instance a' n') name = true).
Proof.
  exists "a-b"%string, "c"%string, "a"%string, "b-c"%string, "app-a-b-c"%string. split_and!; try done.
Qed.

(** Applications read secrets and never write or delete one: under the
    secrets subtree of a scope a mutation is refused exactly to them, and a
    secret's name the operator may use is one path segment below it. *)
Theorem secrets_are_read_only id scope secret :
  ValidateSecretName secret = Ok tt ->
  IsSecretsKey (sc_Prefix scope) (sc_Prefix scope +:+ SecretsSegment +:+ ScopePrefixSuffix +:+ secret) = true /\
  (refuseSecretMutation id scope (sc_Prefix scope +:+ SecretsSegment +:+ ScopePrefixSuffix +:+ secret) = true
     <-> id_Role id = RoleApp) /\
  (forall key, IsSecretsKey (sc_Prefix scope) key = false -> refuseSecretMutation id scope key = false).
Proof.
  intros Hs. assert (secret <> "") as Hne by (intros ->; done).
  assert (IsSecretsKey (sc_Prefix scope) (sc_Prefix scope +:+ SecretsSegment +:+ ScopePrefixSuffix +:+ secret) = true)
    as Hk.
  { unfold IsSecretsKey. rewrite (proj2 (CutPrefix_spec _ _ _) eq_refl). cbn [mbind option_bind].
    rewrite <- app_string_assoc, (proj2 (CutPrefix_spec _ _ _) eq_refl). by apply bool_decide_eq_true. }
  split; [done|]. split.
  - unfold refuseSecretMutation. rewrite Hk. cbn [negb]. apply bool_decide_eq_true.
  - intros key Hn. unfold refuseSecretMutation. by rewrite Hn.
Qed.

(** *** Witnesses *)
