(* ===== verification/KeyringFile.v ===== *)
(** * The keyring at rest ([ParseKeyring], [Marshal] of [datasphere/keyring.go])

    [keys.yaml] as the document the YAML library reads and writes; the library
    itself is the class [Yaml].  Parsing validates before it returns, and writing
    then reading gives the keyring back. *)

From Stdlib Require Import Ascii.
From S2P Require Import Prelude Effect GoTime GoStrings LogicalKey Encoding Keyring KeyringFacts.

(** ** The document *)

Definition keyringVersion : Z := 1.
Definition keyringVersionScopes : Z := 2.

Record keyEntryFile := mkEntryFile {
  kf_ID : string;
  kf_Key : string;
  kf_Created : Time
}.

Record scopeFile := mkScopeFile {
  sf_Name : string;
  sf_Prefix : string;
  sf_Created : Time;
  sf_Derivation : string;
  sf_NameKeys : list keyEntryFile;
  sf_Keys : list keyEntryFile
}.

Record keyringFile := mkKeyringFile {
  f_Version : Z;
  f_NameKeys : list keyEntryFile;
  f_Keys : list keyEntryFile;
  f_Scopes : list scopeFile
}.

Inductive id_error :=
| IDNotHex
| IDLength (n : Z).

Inductive parse_error :=
| NotYaml (message : string)
| BadVersion (v : Z)
| ScopesInVersion1
| BadID (what : string) (position : nat) (e : id_error)
| NotBase64 (what id : string)
| MaterialLength (what id : string) (n : Z)
| ScopeAt (position : nat) (e : keyring_error)
| ScopePrefixOf (name : string) (e : keyring_error)
| InScopeFile (name : string) (e : parse_error)
| Invalid (e : keyring_error)
| EncodeKeyring (e : string).

(** ** Reading *)

Definition ParseKeyID (s : string) : result id_error string :=
  match HexDecodeString s with
  | None => Err IDNotHex
  | Some raw => if len raw =? KeyIDLen then Ok raw else Err (IDLength (len raw))
  end.

Definition parseEntry (what : string) (ie : nat * keyEntryFile) : result parse_error KeyEntry :=
  let '(i, e) := ie in
  id ← wrapErr (BadID what (S i)) (ParseKeyID (kf_ID e));
  match Base64DecodeString (kf_Key e) with
  | None => Err (NotBase64 what (kf_ID e))
  | Some material =>
      if len material =? KeyLen then Ok (mkKeyEntry id (kf_Created e) material)
      else Err (MaterialLength what (kf_ID e) (len material))
  end.

(** [out = append(out, ...)] over a list. *)
Definition collect {E X Y} (f : X -> result E Y) (l : list X) : result E (list Y) :=
  foldM (fun out x => y ← f x; Ok (out ++ [y])) [] l.

Definition parseEntries (entries : list keyEntryFile) (what : string) : result parse_error (list KeyEntry) :=
  collect (parseEntry what) (imap pair entries).

Definition parseScope (is_ : nat * scopeFile) : result parse_error Scope :=
  let '(i, s) := is_ in
  _ ← wrapErr (ScopeAt (S i)) (ValidateScopeName (sf_Name s));
  _ ← wrapErr (ScopePrefixOf (sf_Name s)) (ValidateScopePrefix (sf_Prefix s));
  nameKeys ← wrapErr (InScopeFile (sf_Name s)) (parseEntries (sf_NameKeys s) "name key");
  keys ← wrapErr (InScopeFile (sf_Name s)) (parseEntries (sf_Keys s) "key");
  let scope := mkScope (sf_Name s) (sf_Prefix s) (sf_Created s) (sf_Derivation s) (mkKeyring nameKeys keys []) in
  _ ← wrapErr (fun e => InScopeFile (sf_Name s) (Invalid e)) (ScopeValid scope);
  Ok scope.

Definition parseScopes (entries : list scopeFile) : result parse_error (list Scope) :=
  collect parseScope (imap pair entries).

Definition parseFile (file : keyringFile) : result parse_error Keyring :=
  if negb (f_Version file =? keyringVersion) && negb (f_Version file =? keyringVersionScopes)
  then Err (BadVersion (f_Version file))
  else if (f_Version file =? keyringVersion) && (0 <? Z.of_nat (length (f_Scopes file)))
  then Err ScopesInVersion1
  else
    nameKeys ← parseEntries (f_NameKeys file) "name key";
    keys ← parseEntries (f_Keys file) "key";
    scopes ← parseScopes (f_Scopes file);
    let k := mkKeyring nameKeys keys scopes in
    _ ← wrapErr Invalid (Valid k);
    Ok k.

(** ** Writing *)

Definition marshalEntries (entries : list KeyEntry) : list keyEntryFile :=
  map (fun e => mkEntryFile (HexEncodeToString (ke_ID e)) (Base64EncodeToString (ke_key e)) (ke_Created e)) entries.

Definition marshalScopes (scopes : list Scope) : list scopeFile :=
  map (fun s => mkScopeFile (sc_Name s) (sc_Prefix s) (sc_Created s) (sc_Derivation s)
                  (marshalEntries (kr_nameKeys (sc_keys s))) (marshalEntries (kr_keys (sc_keys s)))) scopes.

Definition fileOf (k : Keyring) : keyringFile :=
  mkKeyringFile (if 0 <? Z.of_nat (length (kr_scopes k)) then keyringVersionScopes else keyringVersion)
    (marshalEntries (kr_nameKeys k)) (marshalEntries (kr_keys k)) (marshalScopes (kr_scopes k)).

(** ** The YAML library *)

Class Yaml := {
  yaml_failure : Type;
  yamlUnmarshal : string -> result yaml_failure keyringFile;
  yamlMarshal : keyringFile -> result string string;
  yamlFormatError : yaml_failure -> string
}.

Definition withheld : string :=
  "keys.yaml is not valid YAML (the parser's own message is withheld: it quotes the file, and this file holds key material)".

Definition newline : ascii := "010".

Section yaml.
Context `{Yaml}.

Definition yamlErrorMessage (data : string) (err : yaml_failure) : string :=
  let message := yamlFormatError err in
  if existsb (fun line => let trimmed := TrimSpace line in (8 <=? len trimmed) && Contains message trimmed)
       (SplitByte newline data)
  then withheld else message.

Definition ParseKeyring (data : string) : result parse_error Keyring :=
  match yamlUnmarshal data with
  | Err e => Err (NotYaml (yamlErrorMessage data e))
  | Ok file => parseFile file
  end.

Definition MarshalKeyring (k : Keyring) : result parse_error string :=
  _ ← wrapErr Invalid (Valid k);
  wrapErr EncodeKeyring (yamlMarshal (fileOf k)).

End yaml.

(** ** Collecting *)

Lemma collect_fold {E X Y} (f : X -> result E Y) l : forall out r,
  foldM (fun out x => y ← f x; Ok (out ++ [y])) out l = Ok r <->
  exists ys, r = out ++ ys /\ Forall2 (fun x y => f x = Ok y) l ys.
Proof.
  induction l as [|x l IH]; intros out r; cbn [foldM].
  - split.
    + intros [= <-]. exists []. by rewrite app_nil_r.
    + intros (ys & -> & Hf). inversion Hf; subst. by rewrite app_nil_r.
  - etrans; [apply bind_ok|]. split.
    + intros (o1 & E1 & E2). apply bind_ok in E1 as (y & Ey & [= <-]). apply IH in E2 as (ys & -> & Hf).
      exists (y :: ys). rewrite <- app_assoc. split; [done|by constructor].
    + intros (ys & -> & Hf). inversion Hf as [|? y ? ys' Ey Hf']; subst. rewrite Ey. cbn.
      exists (out ++ [y]). split; [done|]. apply IH. exists ys'. by rewrite <- app_assoc.
Qed.

Lemma collect_ok {E X Y} (f : X -> result E Y) l ys :
  collect f l = Ok ys <-> Forall2 (fun x y => f x = Ok y) l ys.
Proof. unfold collect. rewrite collect_fold. naive_solver. Qed.

(** Elements that parse back as what they were printed from, at any position. *)
Lemma collect_printed {E X Y} (f : nat * X -> result E Y) (print : Y -> X) ys :
  Forall (fun y => forall i, f (i, print y) = Ok y) ys -> collect f (imap pair (map print ys)) = Ok ys.
Proof.
  intros Hf. apply collect_ok. apply Forall2_same_length_lookup_2.
  - by rewrite length_imap, length_map.
  - intros i [j x] y Hx Hy. rewrite list_lookup_imap in Hx. change (map print ys) with (print <$> ys) in Hx.
    rewrite list_lookup_fmap, Hy in Hx. injection Hx as <- <-.
    rewrite Forall_forall in Hf. apply Hf. by eapply list_elem_of_lookup_2.
Qed.

(** ** Entries and scopes read back *)

(** The identifiers are eight bytes, as their type says in Go. *)
Definition ids_ok (es : list KeyEntry) : Prop := Forall (fun e => len (ke_ID e) = KeyIDLen) es.

Definition storable (k : Keyring) : Prop :=
  ids_ok (kr_nameKeys k) /\ ids_ok (kr_keys k) /\
  Forall (fun s => kr_scopes (sc_keys s) = [] /\ ids_ok (kr_nameKeys (sc_keys s)) /\ ids_ok (kr_keys (sc_keys s)))
    (kr_scopes k).

Lemma parse_marshal_entries es what : entries_ok es -> ids_ok es -> parseEntries (marshalEntries es) what = Ok es.
Proof.
  intros [Hl _] Hi. unfold parseEntries, marshalEntries. apply collect_printed.
  unfold ids_ok in Hi. rewrite Forall_forall in Hl, Hi |- *. intros [id c key] He i.
  pose proof (Hi _ He) as E1. pose proof (Hl _ He) as E2. cbn [ke_ID ke_key] in E1, E2.
  unfold parseEntry, ParseKeyID. cbn [kf_ID kf_Key kf_Created ke_ID ke_key ke_Created].
  rewrite hex_string_roundtrip, E1, Z.eqb_refl. cbn [wrapErr mbind result_bind].
  by rewrite base64_string_roundtrip, E2, Z.eqb_refl.
Qed.

Lemma parse_marshal_scopes ss : Forall (fun s => ScopeValid s = Ok tt) ss ->
  Forall (fun s => kr_scopes (sc_keys s) = [] /\ ids_ok (kr_nameKeys (sc_keys s)) /\ ids_ok (kr_keys (sc_keys s))) ss ->
  parseScopes (marshalScopes ss) = Ok ss.
Proof.
  intros Hv Hs. unfold parseScopes, marshalScopes. apply collect_printed.
  rewrite Forall_forall in Hv, Hs |- *. intros s Hin i. pose proof (Hv s Hin) as Hsv. destruct (Hs s Hin) as (Hf & Hn & Hk).
  destruct s as [name prefix created derivation [n k ss']]. cbn [sc_keys kr_nameKeys kr_keys kr_scopes] in Hf, Hn, Hk.
  subst ss'. pose proof (proj1 (ScopeValid_spec _) Hsv) as (H1 & H2 & [_ _ H3 H4 _]).
  cbn [sc_Name sc_Prefix sc_keys kr_nameKeys kr_keys] in H1, H2, H3, H4.
  unfold parseScope.
  cbn [sf_Name sf_Prefix sf_Created sf_Derivation sf_NameKeys sf_Keys sc_Name sc_Prefix sc_Created sc_Derivation
       sc_keys kr_nameKeys kr_keys].
  rewrite H1, H2. cbn [wrapErr mbind result_bind]. rewrite !parse_marshal_entries by done.
  cbn [wrapErr mbind result_bind]. by rewrite Hsv.
Qed.

Lemma parse_file k : keyring_ok k -> storable k -> parseFile (fileOf k) = Ok k.
Proof.
  intros Hk (Hn & Hks & Hs). pose proof (proj2 (Valid_spec k) Hk) as Hv.
  destruct Hk as [_ _ H3 H4 [H5 _ _]]. unfold parseFile, fileOf. cbn [f_Version f_NameKeys f_Keys f_Scopes].
  assert (length (marshalScopes (kr_scopes k)) = length (kr_scopes k)) as -> by apply length_map.
  rewrite !parse_marshal_entries, parse_marshal_scopes by done.
  assert (mkKeyring (kr_nameKeys k) (kr_keys k) (kr_scopes k) = k) as Ek by by destruct k.
  destruct (0 <? Z.of_nat (length (kr_scopes k))); cbn [Z.eqb keyringVersion keyringVersionScopes Pos.eqb andb negb mbind
    result_bind]; by rewrite Ek, Hv.
Qed.

Lemma parse_valid file k : parseFile file = Ok k -> Valid k = Ok tt.
Proof.
  unfold parseFile. destruct (_ && _); [done|]. destruct (_ && _); [done|].
  intros E. ok_inv E as n _. ok_inv E as ks _. ok_inv E as ss _.
  apply bind_ok in E as ([] & Hv & [= <-]). by destruct (Valid _) as [[]|].
Qed.

(** A failed loop failed on one of its elements. *)
Lemma collect_error {E X Y} (f : X -> result E Y) l : forall out e,
  foldM (fun out x => y ← f x; Ok (out ++ [y])) out l = Err e -> exists x, f x = Err e.
Proof.
  induction l as [|x l IH]; intros out e; cbn [foldM]; [done|].
  destruct (f x) as [y|e'] eqn:Ef; cbn; [apply IH|]. intros [= <-]. eauto.
Qed.

Lemma parseEntries_error es what m : parseEntries es what = Err (NotYaml m) -> False.
Proof.
  intros ([i e] & E)%collect_error. unfold parseEntry in E. destruct (ParseKeyID _); [|done]. cbn in E.
  destruct (Base64DecodeString _); [|done]. by destruct (_ =? _).
Qed.

Lemma parseScopes_error ss m : parseScopes ss = Err (NotYaml m) -> False.
Proof.
  intros ([i s] & E)%collect_error. unfold parseScope in E.
  destruct (ValidateScopeName _); [|done]. cbn in E. destruct (ValidateScopePrefix _); [|done]. cbn in E.
  destruct (parseEntries _ "name key"); [|done]. cbn in E. destruct (parseEntries _ "key"); [|done]. cbn in E.
  by destruct (ScopeValid _).
Qed.

(** ** Properties *)

(** A keyring written to [keys.yaml] reads back as itself, whenever the YAML
    library reads back the document it wrote; the version says whether there are
    scopes, and a keyring is never written unless it is valid. *)
Theorem keyring_roundtrip `{Yaml} k data :
  storable k -> MarshalKeyring k = Ok data -> yamlUnmarshal data = Ok (fileOf k) ->
  ParseKeyring data = Ok k /\ Valid k = Ok tt /\
  (f_Version (fileOf k) = keyringVersionScopes <-> kr_scopes k <> []).
Proof.
  intros Hs Hm Hy. unfold MarshalKeyring in Hm. apply bind_ok in Hm as ([] & Hv & _).
  destruct (Valid k) as [[]|] eqn:Ev; [|done]. split_and!; [|done|].
  - unfold ParseKeyring. rewrite Hy. apply parse_file; [by apply Valid_spec|done].
  - unfold fileOf. cbn [f_Version]. destruct (kr_scopes k); by cbn.
Qed.

(** Reading [keys.yaml] yields a valid keyring or an error: every key is 32
    bytes, no identifier comes twice, no two scopes overlap; and a file that is not
    YAML is reported without any line of eight bytes or more of it, unless the
    report is the fixed sentence. *)
Theorem parsing_validates `{Yaml} data :
  match ParseKeyring data with
  | Ok k => Valid k = Ok tt
  | Err (NotYaml message) =>
      message = withheld \/
      forall line, line ∈ SplitByte newline data -> 8 <= len (TrimSpace line) -> Contains message (TrimSpace line) = false
  | Err _ => True
  end.
Proof.
  unfold ParseKeyring. destruct (yamlUnmarshal data) as [file|e].
  - destruct (parseFile file) as [k|err] eqn:E; [by apply parse_valid in E|].
    destruct err; try done. exfalso. unfold parseFile in E.
    destruct (_ && _); [done|]. destruct (_ && _); [done|].
    destruct (parseEntries _ "name key") as [n|e1] eqn:E1; cbn [mbind result_bind] in E.
    2:{ injection E as ->. by apply parseEntries_error in E1. }
    destruct (parseEntries _ "key") as [ks|e1] eqn:E2; cbn [mbind result_bind] in E.
    2:{ injection E as ->. by apply parseEntries_error in E2. }
    destruct (parseScopes _) as [ss|e1] eqn:E3; cbn [mbind result_bind] in E.
    2:{ injection E as ->. by apply parseScopes_error in E3. }
    by destruct (Valid (mkKeyring n ks ss)) as [[]|].
  - unfold yamlErrorMessage. destruct (existsb _ _) eqn:Ex; [by left|right].
    intros line Hin Hlen. destruct (Contains _ (TrimSpace line)) eqn:Ec; [|done].
    assert (existsb (fun line => (8 <=? len (TrimSpace line)) && Contains (yamlFormatError e) (TrimSpace line))
              (SplitByte newline data) = true) as Ht; [|congruence].
    apply existsb_exists. exists line. split; [by apply list_elem_of_In|]. rewrite Ec. lia.
Qed.

(** *** Witnesses *)

(** A library that knows the example's document. *)
#[local] Instance oneDocument : Yaml := {|
  yaml_failure := string;
  yamlUnmarshal data := if decide (data = "doc"%string) then Ok (fileOf exBackup) else Err data;
  yamlMarshal file := Ok "doc"%string;
  yamlFormatError e := e
|}.

Lemma keyring_roundtrip_witness : ParseKeyring "doc" = Ok exBackup /\ f_Version (fileOf exBackup) = 2.
Proof.
  assert (storable exBackup) as Hs by (repeat constructor).
  assert (MarshalKeyring exBackup = Ok "doc"%string) as Hm by (vm_compute; reflexivity).
  destruct (keyring_roundtrip exBackup "doc" Hs Hm eq_refl) as (Hp & _ & Hv).
  split; [exact Hp|]. apply Hv. discriminate.
Defined.
