(* ===== verification/Material.v ===== *)
(** * Key material in memory ([Zero], [Clone], [Zeroed] of [datasphere/scope.go])

    A key entry holds a slice, so copying a scope shares its key bytes: wiping
    one copy wipes every other.  Here a slice is the address of its array in a
    [memory]; [load] gives the values ([Keyring]'s scopes) the addresses stand
    for.  A scope in a process's memory carries no scopes of its own: the
    parsers build none and [Clone] copies none. *)

From S2P Require Import Prelude GoTime GoStrings LogicalKey Keyring.

(** ** Data *)

Abbreviation addr := positive (only parsing).
Abbreviation memory := (gmap positive string) (only parsing).

Record KeyRef := mkKeyRef {
  kn_ID : string;
  kn_Created : Time;
  kn_key : addr
}.

Record KeyringRef := mkKeyringRef {
  kn_nameKeys : list KeyRef;
  kn_keys : list KeyRef
}.

Abbreviation ScopeRef := (scopeOf KeyringRef) (only parsing).

(** The arrays a scope holds. *)
Definition addrs (s : ScopeRef) : list addr :=
  map kn_key (kn_nameKeys (sc_keys s)) ++ map kn_key (kn_keys (sc_keys s)).

(** ** The values *)

Definition loadEntry (m : memory) (e : KeyRef) : KeyEntry :=
  mkKeyEntry (kn_ID e) (kn_Created e) m.[kn_key e].

Definition loadKeyring (m : memory) (k : KeyringRef) : Keyring :=
  mkKeyring (map (loadEntry m) (kn_nameKeys k)) (map (loadEntry m) (kn_keys k)) [].

Definition load (m : memory) (s : ScopeRef) : Scope :=
  mkScope (sc_Name s) (sc_Prefix s) (sc_Created s) (sc_Derivation s) (loadKeyring m (sc_keys s)).

(** ** Operations *)

Definition wiped (s : string) : string := of_bytes (zeros (len s)).

(** [clear(b)]. *)
Definition clear (m : memory) (a : addr) : memory := alter wiped a m.

Definition Zero (m : memory) (s : ScopeRef) : memory :=
  let m := foldl (fun m e => clear m (kn_key e)) m (kn_nameKeys (sc_keys s)) in
  foldl (fun m e => clear m (kn_key e)) m (kn_keys (sc_keys s)).

(** [append([]byte(nil), b...)]: an array of its own. *)
Definition alloc (m : memory) (b : string) : addr * memory :=
  let a := fresh (dom m) in (a, <[a := b]> m).

Fixpoint cloneEntries (m : memory) (entries : list KeyRef) : list KeyRef * memory :=
  match entries with
  | [] => ([], m)
  | e :: entries =>
      let '(a, m) := alloc m m.[kn_key e] in
      let '(out, m) := cloneEntries m entries in
      (mkKeyRef (kn_ID e) (kn_Created e) a :: out, m)
  end.

Definition Clone (m : memory) (s : ScopeRef) : ScopeRef * memory :=
  let '(nameKeys, m) := cloneEntries m (kn_nameKeys (sc_keys s)) in
  let '(keys, m) := cloneEntries m (kn_keys (sc_keys s)) in
  (mkScope (sc_Name s) (sc_Prefix s) (sc_Created s) (sc_Derivation s) (mkKeyringRef nameKeys keys), m).

Definition allZeroBytes (b : string) : bool :=
  if len b =? 0 then false else forallb (Z.eqb 0) (bytes b).

Definition Zeroed (m : memory) (s : ScopeRef) : bool :=
  forallb (fun e => allZeroBytes m.[kn_key e]) (kn_nameKeys (sc_keys s)) &&
  forallb (fun e => allZeroBytes m.[kn_key e]) (kn_keys (sc_keys s)).

(** A parsed key is decoded into an array of its own. *)
Fixpoint allocEntries (m : memory) (entries : list KeyEntry) : list KeyRef * memory :=
  match entries with
  | [] => ([], m)
  | e :: entries =>
      let '(a, m) := alloc m (ke_key e) in
      let '(out, m) := allocEntries m entries in
      (mkKeyRef (ke_ID e) (ke_Created e) a :: out, m)
  end.

Definition allocScope (m : memory) (s : Scope) : ScopeRef * memory :=
  let '(nameKeys, m) := allocEntries m (kr_nameKeys (sc_keys s)) in
  let '(keys, m) := allocEntries m (kr_keys (sc_keys s)) in
  (mkScope (sc_Name s) (sc_Prefix s) (sc_Created s) (sc_Derivation s) (mkKeyringRef nameKeys keys), m).

(** One scope after another, the memory threaded through. *)
Fixpoint threaded {A B} (f : memory -> A -> B * memory) (m : memory) (l : list A) : list B * memory :=
  match l with
  | [] => ([], m)
  | x :: l =>
      let '(y, m) := f m x in
      let '(out, m) := threaded f m l in
      (y :: out, m)
  end.

Definition ZeroAll (m : memory) (l : list ScopeRef) : memory := foldl Zero m l.

(** ** What changes *)

(** [m'] keeps every array of [m] and its contents. *)
Definition preserves (m m' : memory) : Prop := forall a, a ∈ dom m -> m' !! a = m !! a.

#[export] Instance preserves_preorder : PreOrder preserves.
Proof.
  split; [by intros m a|]. intros m1 m2 m3 H12 H23 a Ha.
  rewrite H23; [by apply H12|]. apply elem_of_dom. rewrite (H12 a Ha). by apply elem_of_dom.
Qed.

Lemma preserves_dom m m' a : preserves m m' -> a ∈ dom m -> a ∈ dom m'.
Proof. intros He Ha. apply elem_of_dom. rewrite (He a Ha). by apply elem_of_dom. Qed.

(** [m'] differs from [m] on the arrays of [l] only. *)
Definition touches (l : list addr) (m m' : memory) : Prop :=
  dom m' = dom m /\ forall a, a ∉ l -> m' !! a = m !! a.

(** ** Loading *)

Lemma load_agree m m' s : (forall a, a ∈ addrs s -> m' !! a = m !! a) -> load m' s = load m s.
Proof.
  intros Ha. unfold load, loadKeyring. do 2 f_equal; apply map_ext_in; intros e He%list_elem_of_In;
    unfold loadEntry; rewrite Ha; try done; unfold addrs; apply elem_of_app; [left|right];
    apply list_elem_of_fmap; eauto.
Qed.

Lemma load_preserves m m' s : preserves m m' -> Forall (fun a => a ∈ dom m) (addrs s) -> load m' s = load m s.
Proof. intros He Hs. apply load_agree. intros a Ha. apply He. rewrite Forall_forall in Hs. by apply Hs. Qed.

Lemma load_touches l m m' s : touches l m m' -> (forall a, a ∈ addrs s -> a ∉ l) -> load m' s = load m s.
Proof. intros [_ Ht] Hs. apply load_agree. intros a Ha. by apply Ht, Hs. Qed.

Lemma addrs_of s ss a : s ∈ ss -> a ∈ addrs s -> a ∈ concat (map addrs ss).
Proof.
  induction 1 as [s ss|s s' ss _ IH]; intros Ha; cbn [map concat]; apply elem_of_app; [by left|right; by apply IH].
Qed.

(** ** Wiping *)

Lemma touches_trans l l' m m' m'' : touches l m m' -> touches l' m' m'' -> touches (l ++ l') m m''.
Proof.
  intros [D1 T1] [D2 T2]. split; [by rewrite D2|]. intros a Ha.
  apply not_elem_of_app in Ha as [H1 H2]. by rewrite T2, T1.
Qed.

Lemma clear_touches m a : touches [a] m (clear m a).
Proof.
  unfold clear. split; [apply dom_alter_L|]. intros b Hb.
  apply lookup_alter_ne. intros ->. apply Hb. by left.
Qed.

Lemma clear_all_touches {X} (f : X -> addr) l : forall m,
  touches (map f l) m (foldl (fun m e => clear m (f e)) m l).
Proof.
  induction l as [|e l IH]; intros m; cbn [foldl map]; [done|].
  eapply (touches_trans [f e]); [apply clear_touches|apply IH].
Qed.

Lemma Zero_touches m s : touches (addrs s) m (Zero m s).
Proof. unfold Zero, addrs. eapply touches_trans; apply clear_all_touches. Qed.

Lemma ZeroAll_touches l : forall m, touches (concat (map addrs l)) m (ZeroAll m l).
Proof.
  unfold ZeroAll. induction l as [|s l IH]; intros m; cbn [foldl map concat]; [done|].
  eapply touches_trans; [apply Zero_touches|apply IH].
Qed.

Lemma wiped_wiped s : wiped (wiped s) = wiped s.
Proof.
  unfold wiped. f_equal. f_equal. rewrite len_of_bytes. unfold zeros. rewrite length_replicate.
  unfold len. lia.
Qed.

(** An array that is zero stays so, whatever else is wiped. *)
Definition blank (m : memory) (a : addr) : Prop := exists n, m !! a = Some (of_bytes (zeros n)).

Lemma clear_blank m a b : a ∈ dom m -> a = b \/ blank m a -> blank (clear m b) a.
Proof.
  intros Ha Hb. unfold blank, clear. destruct (decide (a = b)) as [<-|Hne].
  - apply elem_of_dom in Ha as [s Hs]. exists (len s). rewrite lookup_alter_eq, Hs. done.
  - destruct Hb as [->|[n Hn]]; [done|]. exists n. by rewrite lookup_alter_ne.
Qed.

Lemma clear_all_blank {X} (f : X -> addr) l : forall m a, a ∈ dom m -> a ∈ map f l \/ blank m a ->
  blank (foldl (fun m e => clear m (f e)) m l) a.
Proof.
  induction l as [|e l IH]; intros m a Ha Hb; cbn [foldl map] in *.
  - destruct Hb as [H%elem_of_nil|H]; done.
  - apply IH.
    + destruct (clear_touches m (f e)) as [-> _]. done.
    + destruct Hb as [[->|Hl]%elem_of_cons|Hb]; [right; apply clear_blank; auto|by left|].
      right. apply clear_blank; auto.
Qed.

Lemma Zero_blank m s a : a ∈ dom m -> a ∈ addrs s \/ blank m a -> blank (Zero m s) a.
Proof.
  intros Ha Hb. unfold Zero. apply clear_all_blank.
  - by destruct (clear_all_touches kn_key (kn_nameKeys (sc_keys s)) m) as [-> _].
  - unfold addrs in Hb. rewrite elem_of_app in Hb. destruct Hb as [[H|H]|H]; [right|by left|right];
      apply clear_all_blank; auto.
Qed.

Lemma ZeroAll_blank l : forall m a, a ∈ dom m -> a ∈ concat (map addrs l) \/ blank m a ->
  blank (ZeroAll m l) a.
Proof.
  unfold ZeroAll. induction l as [|s l IH]; intros m a Ha Hb; cbn [foldl map concat] in *.
  - destruct Hb as [H%elem_of_nil|H]; done.
  - apply IH; [by destruct (Zero_touches m s) as [-> _]|]. rewrite elem_of_app in Hb.
    destruct Hb as [[H|H]|H]; [right|by left|right]; apply Zero_blank; auto.
Qed.

Lemma bytes_zeros n : bytes (of_bytes (zeros n)) = zeros n.
Proof. apply bytes_of_bytes. unfold zeros. apply Forall_replicate. lia. Qed.

Lemma allZeroBytes_zeros n : 0 < n -> allZeroBytes (of_bytes (zeros n)) = true.
Proof.
  intros Hn. unfold allZeroBytes. rewrite len_of_bytes, bytes_zeros. unfold zeros at 1.
  rewrite length_replicate. destruct (Z.eqb_spec (Z.of_nat (Z.to_nat n)) 0); [lia|apply zeros_all].
Qed.

(** ** Allocating *)

(** [m'] is [m] with the new arrays [l]. *)
Record mints (m m' : memory) (l : list addr) : Prop := {
  mt_preserves : preserves m m';
  mt_nodup : NoDup l;
  mt_new : forall a, a ∈ l -> a ∉ dom m;
  mt_in : forall a, a ∈ l -> a ∈ dom m';
  mt_only : forall a, a ∈ dom m' -> a ∈ dom m \/ a ∈ l
}.

Lemma mints_nil m : mints m m [].
Proof. split; [done|constructor|set_solver|set_solver|by left]. Qed.

Lemma mints_app m m1 m2 l1 l2 : mints m m1 l1 -> mints m1 m2 l2 -> mints m m2 (l1 ++ l2).
Proof.
  intros [E1 N1 F1 I1 O1] [E2 N2 F2 I2 O2]. split; [by etrans| | | |].
  - apply NoDup_app. split_and!; [done| |done]. intros a Ha Hb. by apply (F2 a Hb), I1.
  - intros a [Ha|Ha]%elem_of_app; [by apply F1|]. intros Hd. apply (F2 a Ha). by eapply preserves_dom.
  - intros a [Ha|Ha]%elem_of_app; [|by apply I2]. eapply preserves_dom; [done|]. by apply I1.
  - intros a Ha. rewrite elem_of_app. destruct (O2 a Ha) as [H|H]; [|by right; right]. destruct (O1 a H); tauto.
Qed.

Lemma alloc_spec m b a m' : alloc m b = (a, m') -> mints m m' [a] /\ m' !! a = Some b.
Proof.
  unfold alloc. intros [= <- <-]. set (a := fresh (dom m)).
  assert (a ∉ dom m) as Hf by apply is_fresh.
  split; [|by apply lookup_insert_eq]. split.
  - intros c Hc. apply lookup_insert_ne. by intros ->.
  - apply NoDup_singleton.
  - by intros c ->%list_elem_of_singleton.
  - intros c ->%list_elem_of_singleton. rewrite dom_insert. set_solver.
  - intros c. rewrite dom_insert, list_elem_of_singleton, elem_of_union, elem_of_singleton. tauto.
Qed.

Lemma allocEntries_spec es : forall m out m', allocEntries m es = (out, m') ->
  mints m m' (map kn_key out) /\ map (loadEntry m') out = es.
Proof.
  induction es as [|e es IH]; intros m out m' E; cbn [allocEntries] in E.
  - injection E as <- <-. split; [apply mints_nil|done].
  - destruct (alloc m (ke_key e)) as [a m1] eqn:Ea. destruct (allocEntries m1 es) as [l m2] eqn:El.
    injection E as <- <-. apply alloc_spec in Ea as [Ma Ha]. apply IH in El as [Ml Hl].
    split; [exact (mints_app _ _ _ [a] _ Ma Ml)|]. cbn [map]. rewrite Hl. f_equal.
    unfold loadEntry. cbn [kn_ID kn_Created kn_key].
    rewrite (mt_preserves _ _ _ Ml) by (apply (mt_in _ _ _ Ma); by left). rewrite Ha. by destruct e.
Qed.

(** A scope without the scopes inside its keyring. *)
Definition flatten (s : Scope) : Scope :=
  withKeys s (mkKeyring (kr_nameKeys (sc_keys s)) (kr_keys (sc_keys s)) []).

Lemma loadKeyring_app m m' n k :
  mints m m' (map kn_key k) -> Forall (fun a => a ∈ dom m) (map kn_key n) ->
  map (loadEntry m') n = map (loadEntry m) n.
Proof.
  intros M F. apply map_ext_in. intros e He%list_elem_of_In. unfold loadEntry.
  rewrite (mt_preserves _ _ _ M); [done|]. rewrite Forall_forall in F. apply F. apply list_elem_of_fmap. eauto.
Qed.

Lemma allocScope_spec m v s m' : allocScope m v = (s, m') ->
  mints m m' (addrs s) /\ load m' s = flatten v.
Proof.
  unfold allocScope. destruct (allocEntries m _) as [n m1] eqn:E1. destruct (allocEntries m1 _) as [k m2] eqn:E2.
  intros [= <- <-]. apply allocEntries_spec in E1 as [M1 L1]. apply allocEntries_spec in E2 as [M2 L2].
  split; [exact (mints_app _ _ _ _ _ M1 M2)|].
  unfold load, flatten, withKeys, loadKeyring. cbn [sc_Name sc_Prefix sc_Created sc_Derivation sc_keys kn_nameKeys kn_keys].
  rewrite L2. rewrite (loadKeyring_app m1 m2 n k); [by rewrite L1|done|].
  apply Forall_forall. apply (mt_in _ _ _ M1).
Qed.

(** Cloning reads the arrays it copies, whatever it has allocated so far. *)
Lemma cloneEntries_alloc es : forall m m0, preserves m0 m -> Forall (fun a => a ∈ dom m0) (map kn_key es) ->
  cloneEntries m es = allocEntries m (map (loadEntry m0) es).
Proof.
  induction es as [|e es IH]; intros m m0 Hm Hin; [done|]. cbn [cloneEntries map allocEntries] in *.
  apply Forall_cons in Hin as [He Hin]. unfold loadEntry at 1. cbn [ke_key]. rewrite (Hm _ He).
  destruct (alloc m m0.[kn_key e]) as [a m1] eqn:Ea. apply alloc_spec in Ea as [[Ex _ _ _ _] _].
  rewrite (IH m1 m0); [done| |done]. by etrans.
Qed.

(** A copy is in new arrays, whatever it copies. *)
Lemma cloneEntries_mints es : forall m out m', cloneEntries m es = (out, m') -> mints m m' (map kn_key out).
Proof.
  induction es as [|e es IH]; intros m out m' E; cbn [cloneEntries] in E.
  - injection E as <- <-. apply mints_nil.
  - destruct (alloc m _) as [a m1] eqn:Ea. destruct (cloneEntries m1 es) as [l m2] eqn:El.
    injection E as <- <-. apply alloc_spec in Ea as [Ma _]. apply IH in El. exact (mints_app _ _ _ [a] _ Ma El).
Qed.

Lemma Clone_mints m s c m' : Clone m s = (c, m') -> mints m m' (addrs c) /\ sc_Name c = sc_Name s /\ sc_Prefix c = sc_Prefix s.
Proof.
  unfold Clone. destruct (cloneEntries m _) as [n m1] eqn:E1. destruct (cloneEntries m1 _) as [k m2] eqn:E2.
  intros [= <- <-]. apply cloneEntries_mints in E1, E2. split; [exact (mints_app _ _ _ _ _ E1 E2)|done].
Qed.

(** New arrays that were wiped leave what was there, and zeros. *)
Definition forgets (m m' : memory) : Prop := preserves m m' /\ forall a, a ∈ dom m' -> a ∉ dom m -> blank m' a.

Lemma forgets_refl m : forgets m m.
Proof. by split. Qed.

Lemma Zero_forgets m m1 s : mints m m1 (addrs s) -> forgets m (Zero m1 s).
Proof.
  intros [Hp _ Hn Hi Ho]. destruct (Zero_touches m1 s) as [Hd1 Ht]. split.
  - intros a Ha. rewrite Ht; [by apply Hp|]. intros Hs. by apply (Hn a Hs).
  - intros a Ha Hm. apply Zero_blank; [by rewrite <- Hd1|]. left. rewrite Hd1 in Ha. by destruct (Ho a Ha).
Qed.

Lemma Clone_alloc m s m0 : preserves m0 m -> Forall (fun a => a ∈ dom m0) (addrs s) ->
  Clone m s = allocScope m (load m0 s).
Proof.
  intros Hm [Hn Hk]%Forall_app. unfold Clone, allocScope.
  cbn [load loadKeyring sc_keys kr_nameKeys kr_keys sc_Name sc_Prefix sc_Created sc_Derivation].
  rewrite (cloneEntries_alloc _ m m0) by done.
  destruct (allocEntries m _) as [n m1] eqn:E1. apply allocEntries_spec in E1 as [[Ex _ _ _ _] _].
  rewrite (cloneEntries_alloc _ m1 m0); [done| |done]. by etrans.
Qed.

Lemma flatten_load m s : flatten (load m s) = load m s.
Proof. by destruct s as [? ? ? ? []]. Qed.

(** Many scopes, each in arrays of its own. *)
Lemma threaded_spec {A} (f : memory -> A -> ScopeRef * memory) (v : A -> Scope) l :
  (forall m x s m', x ∈ l -> f m x = (s, m') -> mints m m' (addrs s) /\ load m' s = v x) ->
  forall m out m', threaded f m l = (out, m') ->
  mints m m' (concat (map addrs out)) /\ map (load m') out = map v l.
Proof.
  induction l as [|x l IH]; intros Hf m out m' E; cbn [threaded] in E.
  - injection E as <- <-. split; [apply mints_nil|done].
  - destruct (f m x) as [s m1] eqn:E1. destruct (threaded f m1 l) as [o m2] eqn:E2. injection E as <- <-.
    apply Hf in E1 as [M1 L1]; [|by left]. apply IH in E2 as [M2 L2]; [|intros; apply Hf; [by right|done]].
    split; [by apply mints_app with m1|]. cbn [map]. rewrite L2. f_equal.
    rewrite <- L1. eapply load_preserves; [apply M2|]. apply Forall_forall. apply (mt_in _ _ _ M1).
Qed.

(** Cloning through intermediate memories. *)
Lemma threaded_Clone l m0 : Forall (fun a => a ∈ dom m0) (concat (map addrs l)) ->
  forall m out m', preserves m0 m -> threaded Clone m l = (out, m') ->
  mints m m' (concat (map addrs out)) /\ map (load m') out = map (load m0) l.
Proof.
  induction l as [|x l IH]; intros Hin m out m' Hm E; cbn [threaded map concat] in *.
  - injection E as <- <-. split; [apply mints_nil|done].
  - apply Forall_app in Hin as [Hx Hl]. rewrite (Clone_alloc m x m0) in E by done.
    destruct (allocScope m _) as [s m1] eqn:E1. destruct (threaded Clone m1 l) as [o m2] eqn:E2. injection E as <- <-.
    apply allocScope_spec in E1 as [M1 L1].
    apply IH in E2 as [M2 L2]; [|done|by etrans; [|apply M1]].
    split; [by apply mints_app with m1|]. cbn [map]. rewrite L2. f_equal.
    rewrite flatten_load in L1. rewrite <- L1. eapply load_preserves; [apply M2|].
    apply Forall_forall. apply (mt_in _ _ _ M1).
Qed.
