(* ===== verification/Bundle.v ===== *)
(** * The unseal bundle ([datasphere/bundle.go])

    The scopes a keyholder is handed, with the generation that orders bundles.
    A bundle shares the key bytes of the scopes it is built from; [Zero] wipes
    them and leaves a bundle that refuses to be written. *)

From S2P Require Import Prelude Effect GoTime GoStrings LogicalKey Encoding Keyring KeyringFacts KeyringFile Material.

(** ** Data *)

Definition bundleVersion : Z := 1.

Record Bundle := mkBundle {
  b_instance : string;
  b_generation : Z;
  b_scopes : list ScopeRef;
  b_zeroed : bool
}.

Inductive bundle_error :=
| NoInstance
| BundleScope (e : keyring_error)
| ScopeTwice (name : string)
| BundleOverlap (name prefix name' prefix' : string)
| Wiped
| EncodeBundle (e : string)
| BundleNotYaml
| BundleVersion (v : Z)
| BundleScopes (e : parse_error).

Record bundleFile := mkBundleFile {
  bf_Version : Z;
  bf_Instance : string;
  bf_Generation : Z;
  bf_Scopes : list scopeFile
}.

(** The YAML library on this document. *)
Class BundleYaml := {
  unmarshalBundle : string -> option bundleFile;
  marshalBundle : bundleFile -> result string string
}.

(** ** Operations *)

Definition checkAgainst {K} (s existing : scopeOf K) : result bundle_error unit :=
  if decide (sc_Name existing = sc_Name s) then Err (ScopeTwice (sc_Name s))
  else if scopesOverlap (sc_Prefix existing) (sc_Prefix s)
  then Err (BundleOverlap (sc_Name s) (sc_Prefix s) (sc_Name existing) (sc_Prefix existing))
  else Ok tt.

Definition NewBundle (m : memory) (instance : string) (generation : Z) (scopes : list ScopeRef)
    : result bundle_error Bundle :=
  if decide (TrimSpace instance = "") then Err NoInstance
  else
    out ← foldM (fun out s =>
      _ ← wrapErr BundleScope (ScopeValid (load m s));
      _ ← foldM (fun _ existing => checkAgainst s existing) tt out;
      Ok (out ++ [s])) [] scopes;
    Ok (mkBundle instance generation out false).

(** [b.Zero()]. *)
Definition ZeroBundle (m : memory) (b : Bundle) : Bundle * memory :=
  (mkBundle (b_instance b) (b_generation b) [] true, ZeroAll m (b_scopes b)).

Definition bundleFileOf (m : memory) (b : Bundle) : bundleFile :=
  mkBundleFile bundleVersion (b_instance b) (b_generation b) (marshalScopes (map (load m) (b_scopes b))).

Section yaml.
Context `{BundleYaml}.

Definition MarshalBundle (m : memory) (b : Bundle) : result bundle_error string :=
  if b_zeroed b then Err Wiped else wrapErr EncodeBundle (marshalBundle (bundleFileOf m b)).

Definition ParseBundle (data : string) : eff memory bundle_error Bundle :=
  match unmarshalBundle data with
  | None => fail BundleNotYaml
  | Some file =>
      if negb (bf_Version file =? bundleVersion) then fail (BundleVersion (bf_Version file))
      else
        scopes ← lift (wrapErr BundleScopes (parseScopes (bf_Scopes file)));
        refs ← (fun m => let '(refs, m) := threaded allocScope m scopes in (Ok refs, m));
        m ← get;
        lift (NewBundle m (bf_Instance file) (bf_Generation file) refs)
  end.

End yaml.

(** ** What a bundle is *)

Record bundle_ok (m : memory) (b : Bundle) : Prop := {
  bo_instance : TrimSpace (b_instance b) <> "";
  bo_scopes : scopes_ok (map (load m) (b_scopes b));
  bo_live : b_zeroed b = false
}.

Lemma checkAgainst_spec {K} (s existing : scopeOf K) :
  checkAgainst s existing = Ok tt <->
  sc_Name existing <> sc_Name s /\ scopesOverlap (sc_Prefix existing) (sc_Prefix s) = false.
Proof.
  unfold checkAgainst. case_decide; [split; [done|by intros [? _]]|].
  destruct (scopesOverlap _ _); split; [done|by intros [_ ?]|done|done].
Qed.

Lemma NewBundle_fold m ss : forall out out',
  scopes_ok (map (load m) out) ->
  foldM (fun out s =>
      _ ← wrapErr BundleScope (ScopeValid (load m s));
      _ ← foldM (fun _ existing => checkAgainst s existing) tt out;
      Ok (out ++ [s])) out ss = Ok out' ->
  out' = out ++ ss /\ scopes_ok (map (load m) out').
Proof.
  induction ss as [|s ss IH]; intros out out' Hok E; cbn [foldM] in E.
  - injection E as <-. by rewrite app_nil_r.
  - ok_inv E as o1 E1. apply bind_ok in E1 as ([] & Ev & E1). apply bind_ok in E1 as ([] & Ec & [= <-]).
    apply (foldM_checks (fun existing => checkAgainst s existing)) in Ec. apply IH in E.
    + rewrite <- app_assoc in E. exact E.
    + rewrite map_app. apply scopes_ok_snoc; [done| |].
      * by destruct (ScopeValid (load m s)) as [[]|].
      * apply Forall_map. eapply Forall_impl; [exact Ec|]. intros e He. apply checkAgainst_spec in He. exact He.
Qed.

Lemma scopes_ok_nil : scopes_ok [].
Proof. split; constructor. Qed.

Lemma NewBundle_ok m instance generation scopes b : NewBundle m instance generation scopes = Ok b ->
  b = mkBundle instance generation scopes false /\ bundle_ok m b.
Proof.
  unfold NewBundle. case_decide; [done|]. intros E. ok_inv E as out Hf. injection E as <-.
  apply NewBundle_fold in Hf as [-> Hok]; [|apply scopes_ok_nil]. by split.
Qed.

(** A well-formed list of scopes is taken as it is. *)
Lemma NewBundle_complete m instance generation ss : TrimSpace instance <> "" -> scopes_ok (map (load m) ss) ->
  NewBundle m instance generation ss = Ok (mkBundle instance generation ss false).
Proof.
  intros Hi Hok. unfold NewBundle. rewrite decide_False by done.
  assert (forall out, scopes_ok (map (load m) (out ++ ss)) ->
    foldM (fun out s =>
      _ ← wrapErr BundleScope (ScopeValid (load m s));
      _ ← foldM (fun _ existing => checkAgainst s existing) tt out;
      Ok (out ++ [s])) out ss = Ok (out ++ ss)) as Hf; [|by rewrite (Hf []) by done].
  clear Hok. induction ss as [|s ss IH]; intros out Hok; cbn [foldM]; [by rewrite app_nil_r|].
  rewrite map_app in Hok. cbn [map] in Hok. destruct Hok as [Hv Hn Ha].
  assert (ScopeValid (load m s) = Ok tt) as ->.
  { rewrite Forall_forall in Hv. apply Hv. apply elem_of_app. right. by left. }
  cbn [wrapErr mbind result_bind].
  rewrite (proj2 (foldM_checks (fun existing => checkAgainst s existing) out)).
  - cbn [mbind result_bind]. rewrite IH; [by rewrite <- app_assoc|].
    rewrite <- app_assoc, map_app. by split.
  - apply Forall_forall. intros e He. apply checkAgainst_spec. rewrite map_app in Hn. cbn [map] in Hn.
    apply NoDup_app in Hn as (_ & Hd & _). split.
    + intros E. apply (Hd (sc_Name e)); [apply list_elem_of_fmap; exists (load m e); split; [done|]|].
      * apply list_elem_of_fmap. eauto.
      * rewrite E. by left.
    + apply list_elem_of_lookup in He as [i Hi'].
      assert (map (load m) out !! i = Some (load m e)) as Hl
        by (change (map (load m) out) with (load m <$> out); by rewrite list_lookup_fmap, Hi').
      refine (ForallOrdPairs_lookup apart _ i (length (map (load m) out)) (load m e) (load m s) Ha _ _ _).
      * apply lookup_app_l_Some. exact Hl.
      * rewrite lookup_app_r, Nat.sub_diag; [done|lia].
      * by eapply lookup_lt_Some.
Qed.

(** The library reads what it wrote. *)
Class FaithfulYaml `{BundleYaml} := { faithful file data : marshalBundle file = Ok data -> unmarshalBundle data = Some file }.

Section parsing.
Context `{BundleYaml}.

(** A bundle that was read is in arrays of its own, and is well formed. *)
Lemma ParseBundle_ok data m b m' : ParseBundle data m = (Ok b, m') ->
  mints m m' (concat (map addrs (b_scopes b))) /\ bundle_ok m' b /\
  exists file scopes, unmarshalBundle data = Some file /\ parseScopes (bf_Scopes file) = Ok scopes /\
    b_instance b = bf_Instance file /\ b_generation b = bf_Generation file /\
    map (load m') (b_scopes b) = map flatten scopes.
Proof.
  unfold ParseBundle. destruct (unmarshalBundle data) as [file|]; [|done].
  destruct (negb _); [done|]. intros E. apply bind_inv in E as (scopes & m1 & E1 & E).
  apply lift_inv in E1 as [Es ->]. apply bind_inv in E as (refs & m2 & E2 & E).
  destruct (threaded allocScope m scopes) as [refs' m3] eqn:Et. injection E2 as <- <-.
  apply bind_inv in E as (m4 & m5 & [= <- <-] & E). apply lift_inv in E as [Eb ->].
  destruct (threaded_spec allocScope flatten scopes ltac:(intros; by eapply allocScope_spec) _ _ _ Et) as [Hm Hl].
  apply NewBundle_ok in Eb as [-> Hok]. cbn [b_scopes b_instance b_generation] in *.
  split_and!; [done|done|]. exists file, scopes. split_and!; try done.
  by destruct (parseScopes (bf_Scopes file)) as [?|?]; [injection Es as ->|].
Qed.

Lemma load_scopes m b : Forall (fun s => kr_scopes (sc_keys s) = []) (map (load m) (b_scopes b)).
Proof. apply Forall_map, Forall_forall. done. Qed.

(** [MarshalBundle] written and read back. *)
Lemma ParseBundle_marshal m m0 b data :
  bundle_ok m b ->
  Forall (fun s => ids_ok (kr_nameKeys (sc_keys s)) /\ ids_ok (kr_keys (sc_keys s))) (map (load m) (b_scopes b)) ->
  unmarshalBundle data = Some (bundleFileOf m b) ->
  exists b' m', ParseBundle data m0 = (Ok b', m') /\ mints m0 m' (concat (map addrs (b_scopes b'))) /\
    b_instance b' = b_instance b /\ b_generation b' = b_generation b /\
    map (load m') (b_scopes b') = map (load m) (b_scopes b).
Proof.
  intros [Hi Hs _] Hids Hy.
  assert (parseScopes (bf_Scopes (bundleFileOf m b)) = Ok (map (load m) (b_scopes b))) as Hp.
  { apply parse_marshal_scopes; [apply Hs|].
    apply Forall_and. split; [apply load_scopes|done]. }
  destruct (threaded allocScope m0 (map (load m) (b_scopes b))) as [refs m'] eqn:Et.
  destruct (threaded_spec allocScope flatten _ ltac:(intros; by eapply allocScope_spec) _ _ _ Et) as [Hm Hl].
  assert (map (load m') refs = map (load m) (b_scopes b)) as Hl'.
  { rewrite Hl, map_map. apply map_ext. intros s. apply flatten_load. }
  exists (mkBundle (b_instance b) (b_generation b) refs false), m'. split_and!; try done.
  unfold ParseBundle. rewrite Hy. cbn [bf_Version bundleFileOf]. rewrite Z.eqb_refl. cbn [negb].
  rewrite Hp. cbn [wrapErr]. unfold mbind at 1, eff_bind at 1, lift at 1.
  unfold mbind at 1, eff_bind at 1. rewrite Et. unfold mbind, eff_bind, get, lift.
  cbn [bf_Instance bf_Generation bundleFileOf]. rewrite NewBundle_complete; [done|done|by rewrite Hl'].
Qed.

End parsing.

(** ** Properties *)

(** A bundle that is sent arrives: what [MarshalBundle] writes,
    [ParseBundle] reads, in another process's memory, as the same instance,
    generation and keys in arrays of its own; wiping it leaves zeros in all of them,
    touches nothing else, and the bundle refuses to be sent again. *)
Theorem bundle_roundtrip `{BundleYaml} m m0 b data :
  bundle_ok m b ->
  Forall (fun s => ids_ok (kr_nameKeys (sc_keys s)) /\ ids_ok (kr_keys (sc_keys s))) (map (load m) (b_scopes b)) ->
  MarshalBundle m b = Ok data -> unmarshalBundle data = Some (bundleFileOf m b) ->
  exists b' m', ParseBundle data m0 = (Ok b', m') /\
    b_instance b' = b_instance b /\ b_generation b' = b_generation b /\
    map (load m') (b_scopes b') = map (load m) (b_scopes b) /\
    preserves m0 m' /\
    (let '(bz, mz) := ZeroBundle m' b' in
     (forall a, a ∈ concat (map addrs (b_scopes b')) -> (a ∉ dom m0) /\ blank mz a) /\
     preserves m0 mz /\ MarshalBundle mz bz = Err Wiped).
Proof.
  intros Hb Hids _ Hy. destruct (ParseBundle_marshal m m0 b data Hb Hids Hy) as (b' & m' & Hp & Hm & Ei & Eg & El).
  exists b', m'. split_and!; try done; [apply Hm|]. cbn. split_and!.
  - intros a Ha. split; [by apply (mt_new _ _ _ Hm)|]. apply ZeroAll_blank; [by apply (mt_in _ _ _ Hm)|by left].
  - intros a Ha. destruct (ZeroAll_touches (b_scopes b') m') as [_ Ht]. rewrite Ht; [by apply Hm|].
    intros Hin. by apply (mt_new _ _ _ Hm a Hin).
  - done.
Qed.

(** *** Witness *)

Definition exLoaded : ScopeRef * memory := allocScope ∅ exWeb.
Definition exSent : Bundle := mkBundle "prod" 3 [exLoaded.1] false.

#[local] Instance oneDocument : BundleYaml := {|
  unmarshalBundle data := if decide (data = "bundle"%string) then Some (bundleFileOf exLoaded.2 exSent) else None;
  marshalBundle _ := Ok "bundle"%string
|}.

Lemma bundle_roundtrip_witness :
  exists b' m', ParseBundle "bundle" exLoaded.2 = (Ok b', m') /\ b_generation b' = 3 /\
    map (load m') (b_scopes b') = [exWeb] /\ (ZeroBundle m' b').1 <> b'.
Proof.
  assert (NewBundle exLoaded.2 "prod" 3 [exLoaded.1] = Ok exSent) as Hn by (vm_compute; reflexivity).
  apply NewBundle_ok in Hn as [_ Hb].
  assert (map (load exLoaded.2) (b_scopes exSent) = [exWeb]) as El by (vm_compute; reflexivity).
  assert (Forall (fun s => ids_ok (kr_nameKeys (sc_keys s)) /\ ids_ok (kr_keys (sc_keys s)))
    (map (load exLoaded.2) (b_scopes exSent))) as Hids by (rewrite El; repeat constructor).
  assert (MarshalBundle exLoaded.2 exSent = Ok "bundle"%string) as Hm by (vm_compute; reflexivity).
  assert (unmarshalBundle "bundle" = Some (bundleFileOf exLoaded.2 exSent)) as Hy by (vm_compute; reflexivity).
  destruct (bundle_roundtrip exLoaded.2 exLoaded.2 exSent "bundle" Hb Hids Hm Hy)
    as (b' & m' & Hp & _ & Eg & Es & _).
  exists b', m'. split; [exact Hp|]. split; [exact Eg|]. split; [rewrite Es; exact El|].
  intros E. apply (f_equal (fun b => length (b_scopes b))) in E. cbn in E.
  assert (length (b_scopes b') = 1%nat) as Hl
    by (rewrite <- (length_map (load m')), Es, El; reflexivity).
  rewrite Hl in E. discriminate E.
Defined.
