(* ===== verification/Vault.v ===== *)
(** * The keyholder's vault ([datasphere/keyholder/vault.go])

    The process that holds key material: sealed when it starts, unsealed by a
    bundle pushed from outside, held by its operator.  The vault keeps scopes in
    arrays of its own ([Material]); it copies what it is given and hands every
    request a copy.  A method runs under the vault's lock, so it is one step on
    the process's state. *)

From S2P Require Import Prelude Effect GoTime GoStrings Encoding Keyring Material Bundle Identity.

(** ** Data *)

Inductive Phase :=
| PhaseRestartSealed
| PhaseUnsealed
| PhaseOperatorHold.

#[export] Instance Phase_eq_dec : EqDecision Phase.
Proof. solve_decision. Defined.

Record Vault := mkVault {
  va_instance : string;
  va_boot : string;
  va_phase : Phase;
  va_since : Time;
  va_holdReason : string;
  va_generation : Z;
  va_scopes : list ScopeRef
}.

(** What [State] reports. *)
Record State := mkState {
  st_Phase : Phase;
  st_Since : Time;
  st_Generation : Z;
  st_HoldReason : string;
  st_Scopes : list string;
  st_Boot : string;
  st_Keys : gmap string (list string)
}.

Inductive vault_error :=
| NilBundle
| InstanceMismatch (bundle vault : string)
| NotServing (p : Phase)
| AlreadyServing (generation : Z)
| OperatorHeld (since : Time) (reason : string)
| GenerationTooOld (bundle held : Z)
| RefusedScope (e : keyring_error)
| Sealed
| OutOfScope.

(** The process: its memory, its clock and its vault. *)
Record World := mkWorld {
  w_mem : memory;
  w_now : Time;
  w_vault : Vault
}.

Definition withMem (m : memory) (w : World) : World := mkWorld m (w_now w) (w_vault w).
Definition withVault (v : Vault) (w : World) : World := mkWorld (w_mem w) (w_now w) v.

(** ** Operations *)

Definition bootIDLen : Z := 8.

(** [newBootID]: a failure to read gives an empty label. *)
Definition newBootID (read : result string string) : string :=
  match read with Ok b => HexEncodeToString b | Err _ => "" end.

Definition New (instance : string) (read : result string string) (now : Time) : Vault :=
  mkVault instance (newBootID read) PhaseRestartSealed now "" 0 [].

Definition stateOf (v : Vault) : State :=
  mkState (va_phase v) (va_since v) (va_generation v) (va_holdReason v)
    (map sc_Name (va_scopes v)) (va_boot v)
    (foldl (fun keys s => <[sc_Name s := map (fun e => HexEncodeToString (kn_ID e)) (kn_keys (sc_keys s))]> keys)
       ∅ (va_scopes v)).

Definition SealedState (s : State) : bool := bool_decide (st_Phase s <> PhaseUnsealed).

Definition Ready (v : Vault) : bool := bool_decide (va_phase v = PhaseUnsealed).

Definition vaultString (v : Vault) : string * Phase * Z * nat :=
  let st := stateOf v in (va_instance v, st_Phase st, st_Generation st, length (st_Scopes st)).

(** [dropLocked]. *)
Definition dropLocked (w : World) : World :=
  let v := w_vault w in
  mkWorld (ZeroAll (w_mem w) (va_scopes v)) (w_now w)
    (mkVault (va_instance v) (va_boot v) (va_phase v) (va_since v) (va_holdReason v) (va_generation v) []).

(** The checks before anything is installed; [Ok false] when there is nothing to do. *)
Definition checkUnseal (v : Vault) (b : Bundle) (intent : string) : result vault_error bool :=
  if decide (b_instance b <> va_instance v) then Err (InstanceMismatch (b_instance b) (va_instance v))
  else if decide (intent = IntentHandOver /\ va_phase v <> PhaseUnsealed) then Err (NotServing (va_phase v))
  else if decide (intent = IntentReseed /\ va_phase v = PhaseUnsealed) then Err (AlreadyServing (va_generation v))
  else if decide (va_phase v = PhaseOperatorHold /\ intent <> IntentOperator)
  then Err (OperatorHeld (va_since v) (va_holdReason v))
  else if b_generation b <? va_generation v then Err (GenerationTooOld (b_generation b) (va_generation v))
  else if decide (va_phase v = PhaseUnsealed /\ b_generation b = va_generation v) then Ok false
  else Ok true.

Definition cloneScope (acc : list ScopeRef) (s : ScopeRef) : eff World vault_error (list ScopeRef) :=
  w ← get;
  _ ← lift (wrapErr RefusedScope (ScopeValid (load (w_mem w) s)));
  let '(c, m) := Clone (w_mem w) s in
  _ ← modify (withMem m);
  mret (acc ++ [c]).

Definition Unseal (b : option Bundle) (intent : string) : eff World vault_error unit :=
  match b with
  | None => fail NilBundle
  | Some b =>
      w ← get;
      install ← lift (checkUnseal (w_vault w) b intent);
      if negb install then mret tt
      else
        scopes ← foldE cloneScope [] (b_scopes b);
        _ ← modify dropLocked;
        modify (fun w =>
          let v := w_vault w in
          withVault (mkVault (va_instance v) (va_boot v) PhaseUnsealed (w_now w) "" (b_generation b) scopes) w)
  end.

Definition Seal (hold : bool) (reason : string) : eff World vault_error State :=
  _ ← modify dropLocked;
  _ ← modify (fun w =>
    let v := w_vault w in
    withVault (mkVault (va_instance v) (va_boot v) (if hold then PhaseOperatorHold else PhaseRestartSealed)
                 (w_now w) (if hold then reason else "") (va_generation v) (va_scopes v)) w);
  gets (fun w => let v := w_vault w in
    mkState (va_phase v) (va_since v) (va_generation v) (va_holdReason v) [] "" ∅).

Definition ReleaseHold : eff World vault_error State :=
  _ ← modify (fun w =>
    let v := w_vault w in
    if decide (va_phase v = PhaseOperatorHold)
    then withVault (mkVault (va_instance v) (va_boot v) PhaseRestartSealed (w_now w) "" (va_generation v) (va_scopes v)) w
    else w);
  gets (fun w => let v := w_vault w in mkState (va_phase v) (va_since v) (va_generation v) "" [] "" ∅).

(** [Scope]: the caller's own copy of the scope that owns the key. *)
Definition ScopeFor (logicalKey : string) : eff World vault_error ScopeRef :=
  w ← get;
  if decide (va_phase (w_vault w) <> PhaseUnsealed) then fail Sealed
  else
    match list_find (fun s => Owns s logicalKey = true) (va_scopes (w_vault w)) with
    | None => fail OutOfScope
    | Some (_, s) =>
        let '(c, m) := Clone (w_mem w) s in
        _ ← modify (withMem m);
        mret c
    end.

(** ** What each method does *)

(** When a bundle is accepted: it is this instance's, not older than what was
    held, and its intent fits the phase. *)
Definition fits (p : Phase) (intent : string) : Prop :=
  match p with
  | PhaseRestartSealed => intent <> IntentHandOver
  | PhaseUnsealed => intent <> IntentReseed
  | PhaseOperatorHold => intent = IntentOperator
  end.

Definition accepts (v : Vault) (b : Bundle) (intent : string) : Prop :=
  b_instance b = va_instance v /\ fits (va_phase v) intent /\ va_generation v <= b_generation b.

(** A bundle that is already the one served. *)
Definition served (v : Vault) (b : Bundle) : Prop :=
  va_phase v = PhaseUnsealed /\ b_generation b = va_generation v.

#[export] Instance fits_dec p intent : Decision (fits p intent).
Proof. destruct p; cbn; solve_decision. Defined.
#[export] Instance accepts_dec v b intent : Decision (accepts v b intent).
Proof. unfold accepts. solve_decision. Defined.
#[export] Instance served_dec v b : Decision (served v b).
Proof. unfold served. solve_decision. Defined.

Lemma checkUnseal_ok v b intent install : checkUnseal v b intent = Ok install <->
  accepts v b intent /\ (install = false <-> served v b).
Proof.
  assert (IntentOperator <> IntentReseed) as D1 by done. assert (IntentOperator <> IntentHandOver) as D2 by done.
  unfold checkUnseal, accepts, served, fits.
  destruct (Z.ltb_spec (b_generation b) (va_generation v)); destruct (va_phase v); destruct install;
    repeat case_decide; repeat match goal with H : ~ (_ <> _) |- _ => apply dec_stable in H end;
    destruct (decide (intent = IntentOperator)); intuition (congruence || lia).
Qed.

Lemma cloneScope_fold ss m0 : Forall (fun a => a ∈ dom m0) (concat (map addrs ss)) ->
  Forall (fun s => ScopeValid (load m0 s) = Ok tt) ss ->
  forall acc w, preserves m0 (w_mem w) ->
  foldE cloneScope acc ss w =
    let '(out, m) := threaded Clone (w_mem w) ss in (Ok (acc ++ out), withMem m w).
Proof.
  induction ss as [|s ss IH]; intros Ha Hv acc w Hw; cbn [foldE threaded map concat] in *.
  - rewrite app_nil_r. by destruct w.
  - apply Forall_app in Ha as [Hs Ha]. apply Forall_cons in Hv as [Hs' Hv].
    unfold mbind at 1, eff_bind at 1. unfold cloneScope at 1, mbind at 1, eff_bind at 1, get.
    unfold mbind at 1, eff_bind at 1, lift at 1.
    rewrite (load_preserves m0 (w_mem w) s) by done. rewrite Hs'. cbn [wrapErr].
    rewrite (Clone_alloc (w_mem w) s m0) by done.
    destruct (allocScope (w_mem w) (load m0 s)) as [c m1] eqn:Ec.
    apply allocScope_spec in Ec as [[Hp _ _ _ _] _].
    unfold mbind, eff_bind, modify, mret, eff_ret. rewrite IH; [|done|done|by etrans].
    cbn [w_mem withMem]. destruct (threaded Clone m1 ss) as [out m2]. rewrite <- app_assoc. done.
Qed.

(** An accepted bundle of valid scopes: a copy of its scopes replaces the vault's
    own, whose arrays are wiped. *)
Lemma Unseal_spec w b intent :
  bundle_ok (w_mem w) b -> Forall (fun a => a ∈ dom (w_mem w)) (concat (map addrs (b_scopes b))) ->
  let v := w_vault w in
  (accepts v b intent -> ~ served v b ->
    exists out m, threaded Clone (w_mem w) (b_scopes b) = (out, m) /\
      Unseal (Some b) intent w =
        (Ok tt, mkWorld (ZeroAll m (va_scopes v)) (w_now w)
                  (mkVault (va_instance v) (va_boot v) PhaseUnsealed (w_now w) "" (b_generation b) out))) /\
  (accepts v b intent -> served v b -> Unseal (Some b) intent w = (Ok tt, w)) /\
  (~ accepts v b intent -> exists e, Unseal (Some b) intent w = (Err e, w)).
Proof.
  intros [_ [Hv _ _] _] Ha v. unfold Unseal. rewrite bind_get, bind_lift. fold v. split_and!.
  - intros Hacc Hs. assert (checkUnseal v b intent = Ok true) as ->.
    { apply checkUnseal_ok. by split. }
    cbn [negb]. apply Forall_map in Hv.
    pose proof (cloneScope_fold _ (w_mem w) Ha Hv [] w ltac:(done)) as Hf.
    destruct (threaded Clone (w_mem w) (b_scopes b)) as [out m] eqn:Et. exists out, m. split; [done|].
    rewrite (bind_run _ _ _ _ _ Hf). done.
  - intros Hacc Hs. assert (checkUnseal v b intent = Ok false) as ->; [|done].
    apply checkUnseal_ok. by split.
  - intros Hacc. destruct (checkUnseal v b intent) as [i|e] eqn:Hc; [|by exists e].
    by apply checkUnseal_ok in Hc as [? _].
Qed.

Lemma Seal_spec w hold reason :
  let v := w_vault w in
  (Seal hold reason w).2 =
    mkWorld (ZeroAll (w_mem w) (va_scopes v)) (w_now w)
      (mkVault (va_instance v) (va_boot v) (if hold then PhaseOperatorHold else PhaseRestartSealed) (w_now w)
         (if hold then reason else "") (va_generation v) []).
Proof. done. Qed.

Lemma ReleaseHold_spec w :
  let v := w_vault w in
  (ReleaseHold w).2 =
    if decide (va_phase v = PhaseOperatorHold)
    then withVault (mkVault (va_instance v) (va_boot v) PhaseRestartSealed (w_now w) "" (va_generation v) (va_scopes v)) w
    else w.
Proof. unfold ReleaseHold, mbind, eff_bind, modify, gets. cbn. by case_decide. Qed.

Lemma ScopeFor_spec w key c w' : ScopeFor key w = (Ok c, w') ->
  va_phase (w_vault w) = PhaseUnsealed /\
  exists s m, s ∈ va_scopes (w_vault w) /\ Owns s key = true /\ Clone (w_mem w) s = (c, m) /\ w' = withMem m w.
Proof.
  unfold ScopeFor. rewrite bind_get. case_decide as Hp; [done|].
  destruct (list_find _ _) as [[i s]|] eqn:Ef; [|done]. destruct (Clone (w_mem w) s) as [c' m] eqn:Ec.
  intros [= <- <-]. split; [done|]. apply list_find_Some in Ef as (Hi & Ho & _).
  exists s, m. split_and!; try done. by eapply list_elem_of_lookup_2.
Qed.
