(* ===== verification/Holder.v ===== *)
(** * The keyholder process ([vault.go] with the handlers of [server.go])

    Requests and pushes in flight hold key material of their own while the vault
    is sealed, unsealed and replaced under them.  [step] interleaves the vault's
    methods with the beginnings and ends of the handlers that call them;
    [values] forgets the memory and leaves what each holder's keys are. *)

From S2P Require Import Prelude Effect GoTime GoStrings Keyring KeyringFacts Material Bundle Identity Vault.

(** ** The process *)

(** A handler in flight: a data request with its copy of a scope ([resolve]), or
    an unseal with the bundle it parsed. *)
Inductive Task :=
| Request (key : string) (s : ScopeRef)
| Push (b : Bundle).

Record Process := mkProcess {
  p_world : World;
  p_tasks : gmap nat Task
}.

Definition p_mem (p : Process) : memory := w_mem (p_world p).
Definition p_vault (p : Process) : Vault := w_vault (p_world p).

Definition start (instance : string) (read : result string string) (now : Time) : Process :=
  mkProcess (mkWorld ∅ now (New instance read now)) ∅.

(** What a step does. *)
Inductive label :=
| Clock
| Receive
| UnsealAs (intent : string)
| Discard
| SealBy (hold : bool)
| Release
| Serve
| Finish.

Section process.
Context `{BundleYaml}.

Inductive step : label -> Process -> Process -> Prop :=
| step_clock w tasks t : w_now w <= t ->
    step Clock (mkProcess w tasks) (mkProcess (mkWorld (w_mem w) t (w_vault w)) tasks)
| step_receive w tasks i data b m : tasks !! i = None -> ParseBundle data (w_mem w) = (Ok b, m) ->
    step Receive (mkProcess w tasks) (mkProcess (withMem m w) (<[i := Push b]> tasks))
| step_unseal w tasks i b intent : tasks !! i = Some (Push b) ->
    step (UnsealAs intent) (mkProcess w tasks) (mkProcess (Unseal (Some b) intent w).2 tasks)
| step_discard w tasks i b : tasks !! i = Some (Push b) ->
    step Discard (mkProcess w tasks) (mkProcess (withMem (ZeroBundle (w_mem w) b).2 w) (delete i tasks))
| step_seal w tasks hold reason :
    step (SealBy hold) (mkProcess w tasks) (mkProcess (Seal hold reason w).2 tasks)
| step_release w tasks :
    step Release (mkProcess w tasks) (mkProcess (ReleaseHold w).2 tasks)
| step_serve w tasks i key s w' : tasks !! i = None -> ScopeFor key w = (Ok s, w') ->
    step Serve (mkProcess w tasks) (mkProcess w' (<[i := Request key s]> tasks))
| step_finish w tasks i key s : tasks !! i = Some (Request key s) ->
    step Finish (mkProcess w tasks) (mkProcess (withMem (Zero (w_mem w) s) w) (delete i tasks)).

Definition any (p q : Process) : Prop := exists l, step l p q.

(** ** Who holds which arrays *)

Definition taskAddrs (t : Task) : list addr :=
  match t with Request _ s => addrs s | Push b => concat (map addrs (b_scopes b)) end.

Definition vaultAddrs (v : Vault) : list addr := concat (map addrs (va_scopes v)).

(** The arrays of the vault ([None]) and of a handler. *)
Definition arrays (v : Vault) (tasks : gmap nat Task) (o : option nat) : list addr :=
  match o with
  | None => vaultAddrs v
  | Some i => match tasks !! i with Some t => taskAddrs t | None => [] end
  end.

Record disjointly (m : memory) (h : option nat -> list addr) : Prop := {
  dj_in : forall o a, a ∈ h o -> a ∈ dom m;
  dj_apart : forall o o' a, a ∈ h o -> a ∈ h o' -> o = o'
}.

Definition taskOk (m : memory) (t : Task) : Prop :=
  match t with
  | Request key s => ScopeValid (load m s) = Ok tt /\ Owns s key = true
  | Push b => bundle_ok m b
  end.

Record process_ok (p : Process) : Prop := {
  po_arrays : disjointly (p_mem p) (arrays (p_vault p) (p_tasks p));
  po_sealed : va_phase (p_vault p) <> PhaseUnsealed -> va_scopes (p_vault p) = [];
  po_scopes : scopes_ok (map (load (p_mem p)) (va_scopes (p_vault p)));
  po_tasks : forall i t, p_tasks p !! i = Some t -> taskOk (p_mem p) t
}.

(** ** The same without memory *)

Inductive ATask :=
| ARequest (key : string) (s : Scope)
| APush (instance : string) (generation : Z) (scopes : list Scope).

Record AProcess := mkAProcess {
  a_now : Time;
  a_instance : string;
  a_phase : Phase;
  a_since : Time;
  a_hold : string;
  a_generation : Z;
  a_scopes : list Scope;
  a_tasks : gmap nat ATask
}.

Definition taskValue (m : memory) (t : Task) : ATask :=
  match t with
  | Request key s => ARequest key (load m s)
  | Push b => APush (b_instance b) (b_generation b) (map (load m) (b_scopes b))
  end.

Definition values (p : Process) : AProcess :=
  let v := p_vault p in
  mkAProcess (w_now (p_world p)) (va_instance v) (va_phase v) (va_since v) (va_holdReason v) (va_generation v)
    (map (load (p_mem p)) (va_scopes v)) (taskValue (p_mem p) <$> p_tasks p).

(** The keyholder as it is meant: keys are values, nothing a holder does changes
    another's. *)
Inductive astep : label -> AProcess -> AProcess -> Prop :=
| a_clock now i p s h g ss ts t : now <= t ->
    astep Clock (mkAProcess now i p s h g ss ts) (mkAProcess t i p s h g ss ts)
| a_receive now i p s h g ss ts n instance generation scopes :
    ts !! n = None -> TrimSpace instance <> "" -> scopes_ok scopes ->
    astep Receive (mkAProcess now i p s h g ss ts)
      (mkAProcess now i p s h g ss (<[n := APush instance generation scopes]> ts))
| a_unseal now i p s h g ss ts n generation scopes intent :
    ts !! n = Some (APush i generation scopes) -> fits p intent -> g <= generation ->
    ~ (p = PhaseUnsealed /\ generation = g) ->
    astep (UnsealAs intent) (mkAProcess now i p s h g ss ts)
      (mkAProcess now i PhaseUnsealed now "" generation scopes ts)
| a_unchanged now i p s h g ss ts n instance generation scopes intent :
    ts !! n = Some (APush instance generation scopes) ->
    instance <> i \/ ~ fits p intent \/ generation < g \/ (p = PhaseUnsealed /\ generation = g) ->
    astep (UnsealAs intent) (mkAProcess now i p s h g ss ts) (mkAProcess now i p s h g ss ts)
| a_discard now i p s h g ss ts n instance generation scopes :
    ts !! n = Some (APush instance generation scopes) ->
    astep Discard (mkAProcess now i p s h g ss ts) (mkAProcess now i p s h g ss (delete n ts))
| a_seal now i p s h g ss ts hold reason :
    astep (SealBy hold) (mkAProcess now i p s h g ss ts)
      (mkAProcess now i (if hold then PhaseOperatorHold else PhaseRestartSealed) now (if hold then reason else "") g [] ts)
| a_release now i s h g ss ts :
    astep Release (mkAProcess now i PhaseOperatorHold s h g ss ts) (mkAProcess now i PhaseRestartSealed now "" g ss ts)
| a_not_held now i p s h g ss ts : p <> PhaseOperatorHold ->
    astep Release (mkAProcess now i p s h g ss ts) (mkAProcess now i p s h g ss ts)
| a_serve now i s h g ss ts n key scope : ts !! n = None -> scope ∈ ss -> Owns scope key = true ->
    astep Serve (mkAProcess now i PhaseUnsealed s h g ss ts)
      (mkAProcess now i PhaseUnsealed s h g ss (<[n := ARequest key scope]> ts))
| a_finish now i p s h g ss ts n key scope : ts !! n = Some (ARequest key scope) ->
    astep Finish (mkAProcess now i p s h g ss ts) (mkAProcess now i p s h g ss (delete n ts)).

End process.

(** ** Holders are apart *)

Lemma disjointly_sub m m' h h' : disjointly m h -> dom m' = dom m ->
  (forall o a, a ∈ h' o -> a ∈ h o) -> disjointly m' h'.
Proof.
  intros [Hin Hap] Hd Hs. split.
  - intros o a Ha. rewrite Hd. eapply Hin, Hs, Ha.
  - intros o o' a Ha Ha'. eapply Hap; eauto.
Qed.

(** A holder that takes new arrays. *)
Lemma disjointly_mint m m' h h' o l : disjointly m h -> mints m m' l ->
  (forall a, a ∈ h' o -> a ∈ l) -> (forall o' a, o' <> o -> a ∈ h' o' -> a ∈ h o') -> disjointly m' h'.
Proof.
  intros [Hin Hap] [Hp _ Hn Hi] Ho Hs. split.
  - intros o' a Ha. destruct (decide (o' = o)) as [->|Hne]; [by apply Hi, Ho|].
    eapply preserves_dom; [done|]. by eapply Hin, Hs.
  - intros o1 o2 a H1 H2. destruct (decide (o1 = o)) as [->|N1], (decide (o2 = o)) as [->|N2]; try done.
    + destruct (Hn a (Ho a H1)). by eapply Hin, Hs.
    + destruct (Hn a (Ho a H2)). by eapply Hin, Hs.
    + eapply Hap; eauto.
Qed.

(** What a change of memory leaves alone. *)
Definition same_value (m m' : memory) (l : list addr) : Prop := forall a, a ∈ l -> m' !! a = m !! a.

Lemma load_all_same m m' ss : same_value m m' (concat (map addrs ss)) -> map (load m') ss = map (load m) ss.
Proof.
  induction ss as [|s ss IH]; intros Hs; [done|]. cbn [map concat] in *. f_equal.
  - apply load_agree. intros a Ha. apply Hs, elem_of_app. by left.
  - apply IH. intros a Ha. apply Hs, elem_of_app. by right.
Qed.

Lemma taskValue_same m m' t : same_value m m' (taskAddrs t) -> taskValue m' t = taskValue m t.
Proof.
  destruct t as [key s|b]; cbn; intros Hs; f_equal; [by apply load_agree|by apply load_all_same].
Qed.

Lemma taskOk_same m m' t : same_value m m' (taskAddrs t) -> taskOk m t -> taskOk m' t.
Proof.
  destruct t as [key s|b]; cbn; intros Hs.
  - by rewrite (load_agree m m').
  - intros [Hi Hk Hl]. split; [done| |done]. by rewrite (load_all_same m m').
Qed.

Lemma same_preserves m m' l : preserves m m' -> (forall a, a ∈ l -> a ∈ dom m) -> same_value m m' l.
Proof. intros Hp Hl a Ha. by apply Hp, Hl. Qed.

Lemma same_touches m m' l l' : touches l' m m' -> (forall a, a ∈ l -> a ∉ l') -> same_value m m' l.
Proof. intros [_ Ht] Hl a Ha. by apply Ht, Hl. Qed.

Lemma same_trans m m1 m2 l : same_value m m1 l -> same_value m1 m2 l -> same_value m m2 l.
Proof. intros H1 H2 a Ha. rewrite H2 by done. by apply H1. Qed.

(** The other holders' values survive a step that leaves their arrays alone. *)
Lemma tasks_same m m' (tasks : gmap nat Task) :
  (forall i t, tasks !! i = Some t -> same_value m m' (taskAddrs t)) ->
  taskValue m' <$> tasks = taskValue m <$> tasks /\
  ((forall i t, tasks !! i = Some t -> taskOk m t) -> forall i t, tasks !! i = Some t -> taskOk m' t).
Proof.
  intros Hs. split.
  - apply map_eq. intros i. rewrite !lookup_fmap. destruct (tasks !! i) as [t|] eqn:E; [|done]. cbn. f_equal.
    by apply taskValue_same, (Hs i).
  - intros Hok i t Ht. eapply taskOk_same; eauto.
Qed.

Lemma arrays_task v (tasks : gmap nat Task) i t : tasks !! i = Some t -> arrays v tasks (Some i) = taskAddrs t.
Proof. cbn. by intros ->. Qed.

Lemma arrays_delete v tasks i o a : a ∈ arrays v (delete i tasks) o -> a ∈ arrays v tasks o /\ o <> Some i.
Proof.
  destruct o as [j|]; cbn; [|done]. destruct (decide (i = j)) as [<-|Hne].
  - rewrite lookup_delete_eq. by intros []%not_elem_of_nil.
  - rewrite lookup_delete_ne by done. split; [done|]. by intros [= ->].
Qed.

Lemma arrays_insert v tasks i t o a : o <> Some i -> a ∈ arrays v (<[i := t]> tasks) o -> a ∈ arrays v tasks o.
Proof. destruct o as [j|]; cbn; [|done]. intros Hne. rewrite lookup_insert_ne by congruence. done. Qed.

Section apart.
Context (m : memory) (v : Vault) (tasks : gmap nat Task) (Hd : disjointly m (arrays v tasks)).

Lemma vault_in a : a ∈ vaultAddrs v -> a ∈ dom m.
Proof. exact (dj_in _ _ Hd None a). Qed.

Lemma task_in i t a : tasks !! i = Some t -> a ∈ taskAddrs t -> a ∈ dom m.
Proof. intros Ht Ha. apply (dj_in _ _ Hd (Some i)). by rewrite (arrays_task _ _ _ _ Ht). Qed.

Lemma vault_task_apart i t a : tasks !! i = Some t -> a ∈ taskAddrs t -> a ∈ vaultAddrs v -> False.
Proof.
  intros Ht Ha Hv. assert (Some i = None) as E; [|done].
  apply (dj_apart _ _ Hd _ _ a); [by rewrite (arrays_task _ _ _ _ Ht)|exact Hv].
Qed.

Lemma tasks_apart i j t u a : tasks !! i = Some t -> tasks !! j = Some u -> a ∈ taskAddrs t -> a ∈ taskAddrs u -> i = j.
Proof.
  intros Ht Hu Ha Hb. assert (Some i = Some j) as [= E]; [|done].
  apply (dj_apart _ _ Hd _ _ a); [by rewrite (arrays_task _ _ _ _ Ht)|by rewrite (arrays_task _ _ _ _ Hu)].
Qed.

End apart.

(** ** Three ways the memory changes *)

Definition withTasks (ts : gmap nat ATask) (a : AProcess) : AProcess :=
  mkAProcess (a_now a) (a_instance a) (a_phase a) (a_since a) (a_hold a) (a_generation a) (a_scopes a) ts.

Lemma values_withMem w tasks m :
  map (load m) (va_scopes (w_vault w)) = map (load (w_mem w)) (va_scopes (w_vault w)) ->
  values (mkProcess (withMem m w) tasks) = withTasks (taskValue m <$> tasks) (values (mkProcess w tasks)).
Proof. intros Hv. unfold values, p_mem, p_vault, withTasks. cbn in *. by rewrite Hv. Qed.

(** A handler begins, with arrays of its own. *)
Lemma begins w tasks m l i t : process_ok (mkProcess w tasks) -> tasks !! i = None ->
  mints (w_mem w) m l -> (forall a, a ∈ taskAddrs t -> a ∈ l) -> taskOk m t ->
  process_ok (mkProcess (withMem m w) (<[i := t]> tasks)) /\
  values (mkProcess (withMem m w) (<[i := t]> tasks)) =
    withTasks (<[i := taskValue m t]> (a_tasks (values (mkProcess w tasks)))) (values (mkProcess w tasks)).
Proof.
  intros [Ha Hse Hsc Ht] Hi Hm Hl Hok. unfold p_mem, p_vault in *. cbn in *.
  assert (same_value (w_mem w) m (vaultAddrs (w_vault w))) as Sv
    by (eapply same_preserves; [apply Hm|apply (vault_in _ _ _ Ha)]).
  assert (forall j u, tasks !! j = Some u -> same_value (w_mem w) m (taskAddrs u)) as St.
  { intros j u Hj. eapply same_preserves; [apply Hm|]. intros a. by eapply task_in. }
  destruct (tasks_same _ _ _ St) as [Ev Hkeep]. pose proof (load_all_same _ _ _ Sv) as Es. split.
  - split; unfold p_mem, p_vault; cbn; [|done|by rewrite Es|].
    + eapply (disjointly_mint _ _ _ _ (Some i)); [exact Ha|exact Hm| |].
      * intros a. cbn. rewrite lookup_insert_eq. apply Hl.
      * intros o a Ho. by apply arrays_insert.
    + intros j u Hj. apply lookup_insert_Some in Hj as [[<- <-]|[Hne Hj]]; [done|by eapply Hkeep].
  - rewrite values_withMem by done. rewrite fmap_insert, Ev. done.
Qed.

(** A handler ends, wiping what it held. *)
Lemma ends w tasks m i t : process_ok (mkProcess w tasks) -> tasks !! i = Some t ->
  touches (taskAddrs t) (w_mem w) m ->
  process_ok (mkProcess (withMem m w) (delete i tasks)) /\
  values (mkProcess (withMem m w) (delete i tasks)) =
    withTasks (delete i (a_tasks (values (mkProcess w tasks)))) (values (mkProcess w tasks)).
Proof.
  intros [Ha Hse Hsc Ht] Hi Hm. unfold p_mem, p_vault in *. cbn in *.
  assert (same_value (w_mem w) m (vaultAddrs (w_vault w))) as Sv.
  { eapply same_touches; [exact Hm|]. intros a Hv Hta. by eapply (vault_task_apart _ _ _ Ha). }
  assert (forall j u, delete i tasks !! j = Some u -> same_value (w_mem w) m (taskAddrs u)) as St.
  { intros j u Hj. apply lookup_delete_Some in Hj as [Hne Hj]. eapply same_touches; [exact Hm|].
    intros a Hu Hta. apply Hne. by eapply (tasks_apart _ _ _ Ha). }
  destruct (tasks_same _ _ _ St) as [Ev Hkeep]. pose proof (load_all_same _ _ _ Sv) as Es. split.
  - split; unfold p_mem, p_vault; cbn; [|done|by rewrite Es|].
    + eapply disjointly_sub; [exact Ha|apply Hm|]. intros o a Hin. by apply arrays_delete in Hin as [? _].
    + apply Hkeep. intros j u Hj. apply lookup_delete_Some in Hj as [_ Hj]. by apply (Ht j).
  - rewrite values_withMem by done. rewrite Ev, fmap_delete. done.
Qed.

(** The vault's scopes are replaced: new ones are copied, the old ones wiped. *)
Lemma replaces w tasks m1 m2 l v : process_ok (mkProcess w tasks) ->
  mints (w_mem w) m1 l -> touches (vaultAddrs (w_vault w)) m1 m2 ->
  (forall a, a ∈ vaultAddrs v -> a ∈ l) -> scopes_ok (map (load m1) (va_scopes v)) ->
  (va_phase v <> PhaseUnsealed -> va_scopes v = []) ->
  process_ok (mkProcess (mkWorld m2 (w_now w) v) tasks) /\
  map (load m2) (va_scopes v) = map (load m1) (va_scopes v) /\
  taskValue m2 <$> tasks = taskValue (w_mem w) <$> tasks.
Proof.
  intros [Ha Hse Hsc Ht] Hm Hz Hl Hk Hp. unfold p_mem, p_vault in *. cbn in *.
  assert (forall a, a ∈ l -> a ∉ vaultAddrs (w_vault w)) as Hnew.
  { intros a Hal Hv. apply (mt_new _ _ _ Hm a Hal). by eapply vault_in. }
  assert (map (load m2) (va_scopes v) = map (load m1) (va_scopes v)) as Es.
  { apply load_all_same. eapply same_touches; [exact Hz|]. intros a Hv. by apply Hnew, Hl. }
  assert (forall j u, tasks !! j = Some u -> same_value (w_mem w) m2 (taskAddrs u)) as St.
  { intros j u Hj. eapply same_trans.
    - eapply same_preserves; [apply Hm|]. intros a. by eapply task_in.
    - eapply same_touches; [exact Hz|]. intros a Hu Hv. by eapply (vault_task_apart _ _ _ Ha). }
  destruct (tasks_same _ _ _ St) as [Ev Hkeep]. split_and!; [|done|done].
  split; unfold p_mem, p_vault; cbn; [|done|by rewrite Es|by apply Hkeep].
  assert (disjointly m1 (arrays v tasks)) as Hd.
  { eapply (disjointly_mint _ _ _ _ None); [exact Ha|exact Hm|exact Hl|]. by intros [j|] a Ho. }
  eapply disjointly_sub; [exact Hd|apply Hz|done].
Qed.

(** ** Every step *)

Lemma start_ok instance read now : process_ok (start instance read now).
Proof.
  split; [|done|apply scopes_ok_nil|done]. split.
  - intros [j|] a; cbn; by intros []%not_elem_of_nil.
  - intros [j|] o a; cbn; by intros []%not_elem_of_nil.
Qed.

Section refinement.
Context `{BundleYaml}.

Lemma flatten_valid s : ScopeValid s = Ok tt -> ScopeValid (flatten s) = Ok tt.
Proof.
  rewrite !ScopeValid_spec. unfold flatten, withKeys. cbn [sc_Name sc_Prefix sc_keys].
  intros (H1 & H2 & [H3 H4 H5 H6 _]). split_and!; [done|done|]. split; try done. apply scopes_ok_nil.
Qed.

Lemma refine_unseal w tasks i b intent : process_ok (mkProcess w tasks) -> tasks !! i = Some (Push b) ->
  let q := mkProcess (Unseal (Some b) intent w).2 tasks in
  process_ok q /\ astep (UnsealAs intent) (values (mkProcess w tasks)) (values q).
Proof.
  intros Hok Hi q. pose proof Hok as [Ha _ _ Ht]. unfold p_mem, p_vault in *. cbn in Ha, Ht.
  pose proof (Ht i _ Hi) as Hb. cbn in Hb.
  assert (Forall (fun a => a ∈ dom (w_mem w)) (concat (map addrs (b_scopes b)))) as Hin.
  { apply Forall_forall. intros a. apply (task_in _ _ _ Ha i (Push b) a Hi). }
  pose proof (Unseal_spec w b intent Hb Hin) as (U1 & U2 & U3). subst q.
  assert ((taskValue (w_mem w) <$> tasks) !! i =
    Some (APush (b_instance b) (b_generation b) (map (load (w_mem w)) (b_scopes b)))) as Hv
    by by rewrite lookup_fmap, Hi.
  destruct (decide (accepts (w_vault w) b intent)) as [Hacc|Hacc];
    [destruct (decide (served (w_vault w) b)) as [Hs|Hs]|].
  - rewrite (U2 Hacc Hs). split; [done|]. eapply a_unchanged; [exact Hv|]. right. right. right. exact Hs.
  - destruct (U1 Hacc Hs) as (out & m & Et & ->). cbn [snd].
    destruct (threaded_Clone _ (w_mem w) Hin _ _ _ (reflexivity _) Et) as [Hm Hl].
    destruct (replaces w tasks m _ _ (mkVault (va_instance (w_vault w)) (va_boot (w_vault w)) PhaseUnsealed (w_now w) ""
      (b_generation b) out) Hok Hm (ZeroAll_touches _ m)) as (Hq & Es & Ev); [done| |done|].
    { cbn [va_scopes]. rewrite Hl. apply Hb. }
    split; [exact Hq|]. cbn [va_scopes] in Es. unfold values, p_mem, p_vault. cbn. rewrite Ev, Es, Hl.
    destruct Hacc as (E1 & E2 & E3). rewrite E1 in Hv. by eapply a_unseal; [exact Hv|..].
  - destruct (U3 Hacc) as [e ->]. split; [done|]. eapply a_unchanged; [exact Hv|].
    unfold accepts in Hacc. cbn. destruct (decide (b_instance b = va_instance (w_vault w))); [|by left].
    destruct (decide (fits (va_phase (w_vault w)) intent)); [|by right; left].
    right. right. left. apply Z.nle_gt. intros Hle. apply Hacc. by split_and!.
Qed.

Lemma refine_seal w tasks hold reason : process_ok (mkProcess w tasks) ->
  let q := mkProcess (Seal hold reason w).2 tasks in
  process_ok q /\ astep (SealBy hold) (values (mkProcess w tasks)) (values q).
Proof.
  intros Hok q. subst q. rewrite Seal_spec. cbv zeta.
  destruct (replaces w tasks (w_mem w) _ [] (mkVault (va_instance (w_vault w)) (va_boot (w_vault w))
    (if hold then PhaseOperatorHold else PhaseRestartSealed) (w_now w) (if hold then reason else "")
    (va_generation (w_vault w)) []) Hok (mints_nil _) (ZeroAll_touches _ _)) as (Hq & _ & Ev);
    [done|apply scopes_ok_nil|done|].
  split; [exact Hq|]. unfold values, p_mem, p_vault. cbn. rewrite Ev. apply a_seal.
Qed.

Lemma refine_release w tasks : process_ok (mkProcess w tasks) ->
  let q := mkProcess (ReleaseHold w).2 tasks in
  process_ok q /\ astep Release (values (mkProcess w tasks)) (values q).
Proof.
  intros Hok q. subst q. rewrite ReleaseHold_spec. cbv zeta. case_decide as Hp; [|split; [done|by apply a_not_held]].
  destruct Hok as [Ha Hse Hsc Ht]. unfold p_mem, p_vault in *. cbn in *. split.
  - split; unfold p_mem, p_vault; cbn; try done. intros _. apply Hse. by rewrite Hp.
  - unfold values, p_mem, p_vault. cbn. rewrite Hp. apply a_release.
Qed.

Lemma refine_serve w tasks i key s w' : process_ok (mkProcess w tasks) -> tasks !! i = None ->
  ScopeFor key w = (Ok s, w') ->
  let q := mkProcess w' (<[i := Request key s]> tasks) in
  process_ok q /\ astep Serve (values (mkProcess w tasks)) (values q).
Proof.
  intros Hok Hi Hs. apply ScopeFor_spec in Hs as (Hp & c & m & Hc & Ho & Ec & ->).
  pose proof Hok as [Ha Hse [Hv _ _] Ht]. unfold p_mem, p_vault in Ha, Hse, Hv, Ht. cbn in Ha, Hse, Hv, Ht.
  assert (Forall (fun a => a ∈ dom (w_mem w)) (addrs c)) as Hin.
  { apply Forall_forall. intros a Hac. apply (vault_in _ _ _ Ha). by eapply addrs_of. }
  rewrite (Clone_alloc _ _ (w_mem w)) in Ec by done.
  pose proof Ec as (Hm & Hl)%allocScope_spec. rewrite flatten_load in Hl.
  assert (ScopeValid (load (w_mem w) c) = Ok tt) as Hcv.
  { rewrite Forall_forall in Hv. apply Hv, list_elem_of_fmap. eauto. }
  assert (sc_Prefix s = sc_Prefix c) as Epre by (change (sc_Prefix (load m s) = sc_Prefix c); by rewrite Hl).
  destruct (begins w tasks m _ i (Request key s) Hok Hi Hm) as [Hq Eq]; [done| |].
  { cbn. rewrite Hl. split; [done|]. unfold Owns. by rewrite Epre. }
  split; [exact Hq|]. rewrite Eq. unfold values, withTasks, p_mem, p_vault. cbn. rewrite Hp, Hl.
  apply a_serve; [by rewrite lookup_fmap, Hi|apply list_elem_of_fmap; eauto|done].
Qed.

Lemma step_refines l p q : step l p q -> process_ok p -> process_ok q /\ astep l (values p) (values q).
Proof.
  intros Hs Hok. destruct Hs as [w tasks t Ht|w tasks i data b m Hi Hp|w tasks i b intent Hi|w tasks i b Hi
    |w tasks hold reason|w tasks|w tasks i key s w' Hi Hs|w tasks i key s Hi].
  - destruct Hok as [Ha Hse Hsc Hta]. split; [by split|by apply a_clock].
  - apply ParseBundle_ok in Hp as (Hm & Hb & _).
    destruct (begins w tasks m _ i (Push b) Hok Hi Hm) as [Hq Eq]; [done|exact Hb|].
    split; [exact Hq|]. rewrite Eq. destruct Hb as [Hn Hsc _].
    apply a_receive; [|exact Hn|exact Hsc]. cbn. by rewrite lookup_fmap, Hi.
  - by eapply refine_unseal.
  - destruct (ends w tasks (ZeroBundle (w_mem w) b).2 i (Push b) Hok Hi (ZeroAll_touches _ _)) as [Hq Eq].
    split; [exact Hq|]. rewrite Eq. eapply a_discard. cbn. by rewrite lookup_fmap, Hi.
  - by apply refine_seal.
  - by apply refine_release.
  - by eapply refine_serve.
  - destruct (ends w tasks (Zero (w_mem w) s) i (Request key s) Hok Hi (Zero_touches _ _)) as [Hq Eq].
    split; [exact Hq|]. rewrite Eq. eapply a_finish. cbn. by rewrite lookup_fmap, Hi.
Qed.

Definition reachable (p : Process) : Prop :=
  exists instance read now, rtc any (start instance read now) p.

Lemma reachable_ok p : reachable p -> process_ok p.
Proof.
  intros (instance & read & now & Hr). pose proof (start_ok instance read now) as Hok.
  induction Hr as [|p q r [l Hs] _ IH]; [done|]. apply IH. by apply (step_refines l p q).
Qed.

Lemma reachable_step l p q : reachable p -> step l p q -> reachable q.
Proof. intros (i & r & n & Hr) Hs. exists i, r, n. eapply rtc_r; [exact Hr|by exists l]. Qed.

End refinement.
