(* ===== verification/HolderFacts.v ===== *)
(** * What the keyholder process guarantees

    Properties of every run of [Holder]: the memory never matters, a request keeps
    the keys it was given, sealing wipes, who may change the seal, and that an
    operator with a bundle can always restore service. *)

From S2P Require Import Prelude Effect GoTime GoStrings LogicalKey Encoding Keyring KeyringFacts KeyringFile Material.
From S2P Require Import Bundle Identity Vault Holder.

Section facts.
Context `{BundleYaml}.

(** What an unattended keyholder sees: no person seals, releases or unseals; the
    pushes are re-seeds. *)
Definition keeperLabel (l : label) : Prop :=
  match l with
  | UnsealAs intent => intent = IntentReseed
  | SealBy _ | Release => False
  | _ => True
  end.

Definition unattended (p q : Process) : Prop := exists l, step l p q /\ keeperLabel l.

Lemma unattended_any p q : rtc unattended p q -> rtc any p q.
Proof. intros Hr. induction Hr as [|p q r (l & Hs & _) _ IH]; [done|]. eapply rtc_l; [by exists l|done]. Qed.

Lemma reachable_rtc p q : reachable p -> rtc any p q -> reachable q.
Proof. intros Hp Hr. induction Hr as [|p q r [l Hs] _ IH]; [done|]. apply IH. by eapply reachable_step. Qed.

Lemma astep_request l a b i key s : astep l a b -> a_tasks a !! i = Some (ARequest key s) ->
  a_tasks b !! i = Some (ARequest key s) \/ a_tasks b !! i = None.
Proof.
  intros Hs Hi. destruct Hs; cbn in *; try (by left);
    match goal with
    | |- <[?n := _]> ?ts !! _ = _ \/ _ => destruct (decide (n = i)) as [->|]; [congruence|left; by rewrite lookup_insert_ne]
    | |- delete ?n ?ts !! _ = _ \/ _ =>
        destruct (decide (n = i)) as [->|]; [right; apply lookup_delete_eq|left; by rewrite lookup_delete_ne]
    end.
Qed.

(** A request in flight stays or finishes. *)
Lemma step_request l p q i key s : step l p q -> p_tasks p !! i = Some (Request key s) ->
  p_tasks q !! i = Some (Request key s) \/
  (l = Finish /\ p_tasks q !! i = None /\ p_mem q = Zero (p_mem p) s).
Proof.
  intros Hs Hi. destruct Hs as [w tasks t Ht|w tasks j data b m Hj Hp|w tasks j b intent Hj|w tasks j b Hj
    |w tasks hold reason|w tasks|w tasks j key' s' w' Hj Hs|w tasks j key' s' Hj]; cbn in *; try (by left).
  - left. rewrite lookup_insert_ne; [done|congruence].
  - left. rewrite lookup_delete_ne; [done|congruence].
  - left. rewrite lookup_insert_ne; [done|congruence].
  - destruct (decide (j = i)) as [->|]; [|left; by rewrite lookup_delete_ne].
    right. assert (s' = s) as -> by congruence. split_and!; [done|apply lookup_delete_eq|done].
Qed.

Lemma memory_step p l q : reachable p -> step l p q -> astep l (values p) (values q).
Proof. intros Hp Hs. apply reachable_ok in Hp. by destruct (step_refines l p q Hs Hp). Qed.

(** ** Properties *)

(** C1: whatever happens to it, the keyholder behaves as one that keeps keys by
    value: every step of the process, wiping and copying shared arrays, is the step
    of [astep] on what the arrays hold; no holder's keys are changed by another. *)
Theorem memory_is_invisible p l q : reachable p -> step l p q ->
  astep l (values p) (values q) /\ process_ok q.
Proof. intros Hp Hs. apply reachable_ok in Hp. destruct (step_refines l p q Hs Hp). done. Qed.

(** A request in flight keeps, through every unseal and seal under it, the
    keys it was admitted with, of a valid scope that owns its key, until it ends;
    then its copy of them is zeros. *)
Theorem requests_keep_their_keys p l q i key s : reachable p -> step l p q ->
  p_tasks p !! i = Some (Request key s) ->
  (p_tasks q !! i = Some (Request key s) /\ load (p_mem q) s = load (p_mem p) s /\
   ScopeValid (load (p_mem q) s) = Ok tt /\ Owns s key = true) \/
  (l = Finish /\ p_tasks q !! i = None /\ forall a, a ∈ addrs s -> blank (p_mem q) a).
Proof.
  intros Hp Hs Hi. apply reachable_ok in Hp as Hok. destruct (step_refines l p q Hs Hok) as [[_ _ _ Hq] Ha].
  destruct (step_request l p q i key s Hs Hi) as [Hi'|(-> & Hn & Hm)].
  - left. destruct (Hq i _ Hi') as [Hv Ho]. split_and!; [done| |done|done].
    assert (a_tasks (values p) !! i = Some (ARequest key (load (p_mem p) s))) as Ea
      by (cbn; by rewrite lookup_fmap, Hi).
    assert (a_tasks (values q) !! i = Some (ARequest key (load (p_mem q) s))) as Eb
      by (cbn; by rewrite lookup_fmap, Hi').
    destruct (astep_request _ _ _ _ _ _ Ha Ea) as [E|E]; congruence.
  - right. split_and!; [done|done|]. intros a Hin. rewrite Hm. apply Zero_blank; [|by left].
    apply (dj_in _ _ (po_arrays _ Hok) (Some i)). by rewrite (arrays_task _ _ _ _ Hi).
Qed.

(** C37: key material leaves the vault only as zeros, and a vault that is not
    unsealed holds none: it answers every key with [Sealed]. *)
Theorem sealing_forgets p l q : reachable p -> step l p q ->
  (forall a, a ∈ vaultAddrs (p_vault p) -> a ∈ vaultAddrs (p_vault q) \/ blank (p_mem q) a) /\
  (va_phase (p_vault q) <> PhaseUnsealed ->
     va_scopes (p_vault q) = [] /\ forall key, ScopeFor key (p_world q) = (Err Sealed, p_world q)).
Proof.
  intros Hp Hs. pose proof (reachable_ok _ Hp) as Hok.
  pose proof (reachable_ok _ (reachable_step _ _ _ Hp Hs)) as [_ Hse _ _]. split.
  2:{ intros Hph. split; [by apply Hse|]. intros key. unfold ScopeFor. rewrite bind_get. by rewrite decide_True. }
  intros a Ha. pose proof (vault_in _ _ _ (po_arrays _ Hok) a Ha) as Hin.
  destruct Hs as [w tasks t Ht|w tasks j data b m Hj Hp'|w tasks j b intent Hj|w tasks j b Hj
    |w tasks hold reason|w tasks|w tasks j key' s' w' Hj Hs|w tasks j key' s' Hj];
    unfold p_mem, p_vault in *; cbn [p_world p_tasks withMem w_mem w_vault] in *; try (by left).
  - destruct Hok as [Hd _ _ Ht]. pose proof (Ht j _ Hj) as Hb. cbn in Hb, Hd.
    assert (Forall (fun a => a ∈ dom (w_mem w)) (concat (map addrs (b_scopes b)))) as Hbin.
    { apply Forall_forall. intros c. apply (task_in _ _ _ Hd j (Push b) c Hj). }
    pose proof (Unseal_spec w b intent Hb Hbin) as (U1 & U2 & U3).
    destruct (decide (accepts (w_vault w) b intent)) as [Hacc|Hacc];
      [destruct (decide (served (w_vault w) b)) as [Hs|Hs]|].
    + left. by rewrite (U2 Hacc Hs).
    + right. destruct (U1 Hacc Hs) as (out & m & Et & ->). cbn.
      destruct (threaded_Clone _ (w_mem w) Hbin _ _ _ (reflexivity _) Et) as [Hm _].
      apply ZeroAll_blank; [|by left]. eapply preserves_dom; [apply Hm|exact Hin].
    + left. destruct (U3 Hacc) as [e ->]. exact Ha.
  - right. rewrite Seal_spec. apply ZeroAll_blank; [exact Hin|by left].
  - left. rewrite ReleaseHold_spec. cbv zeta. by case_decide.
  - left. apply ScopeFor_spec in Hs as (_ & c & m & _ & _ & _ & ->). exact Ha.
Qed.

(** A generation is never taken back; only a push unseals, never a hand-over;
    and a hold is ended by an operator's unseal, seal or release and by nothing
    else. *)
Theorem seal_changes_are_authorised p l q : reachable p -> step l p q ->
  va_generation (p_vault p) <= va_generation (p_vault q) /\
  (va_phase (p_vault p) <> PhaseUnsealed -> va_phase (p_vault q) = PhaseUnsealed ->
     exists intent, l = UnsealAs intent /\ intent <> IntentHandOver /\
       (va_phase (p_vault p) = PhaseOperatorHold -> intent = IntentOperator)) /\
  (va_phase (p_vault p) = PhaseOperatorHold -> va_phase (p_vault q) <> PhaseOperatorHold ->
     l = UnsealAs IntentOperator \/ l = SealBy false \/ l = Release).
Proof.
  intros Hp Hs. pose proof (memory_step p l q Hp Hs) as Ha.
  change (va_generation (p_vault p)) with (a_generation (values p)).
  change (va_generation (p_vault q)) with (a_generation (values q)).
  change (va_phase (p_vault p)) with (a_phase (values p)). change (va_phase (p_vault q)) with (a_phase (values q)).
  destruct Ha; cbn in *; split_and!; try lia; try (intros; congruence).
  - intros Hn _. exists intent. destruct p0; cbn in *; [|done|]; split_and!; try done; by subst.
  - intros -> _. cbn in *. left. by f_equal.
  - by destruct hold.
  - destruct hold; [by intros|]. by intros; right; left.
  - intros _ _. by right; right.
Qed.

(** A bundle that parses in one process parses in every other. *)
Lemma ParseBundle_anywhere data m b m' m0 : ParseBundle data m = (Ok b, m') ->
  exists b0 m1, ParseBundle data m0 = (Ok b0, m1) /\ b_instance b0 = b_instance b /\
    b_generation b0 = b_generation b /\ map (load m1) (b_scopes b0) = map (load m') (b_scopes b).
Proof.
  intros Hp. pose proof Hp as (_ & [Hi Hok _] & file & scopes & Hf & Hs & Ei & Eg & El)%ParseBundle_ok.
  destruct (threaded allocScope m0 scopes) as [refs m1] eqn:Et.
  destruct (threaded_spec allocScope flatten scopes ltac:(intros; by eapply allocScope_spec) _ _ _ Et) as [_ Hl].
  assert (bf_Version file = bundleVersion) as Ever.
  { unfold ParseBundle in Hp. rewrite Hf in Hp. by destruct (Z.eqb_spec (bf_Version file) bundleVersion). }
  exists (mkBundle (bf_Instance file) (bf_Generation file) refs false), m1. split_and!; [|done|done|by rewrite El].
  unfold ParseBundle. rewrite Hf, Ever, Z.eqb_refl. cbn [negb]. rewrite bind_lift, Hs. cbn [wrapErr].
  rewrite (bind_run _ _ m0 refs m1) by by rewrite Et. rewrite bind_get. unfold lift. rewrite NewBundle_complete; [done| |].
  - by rewrite <- Ei.
  - by rewrite Hl, <- El.
Qed.

(** A push into a process that accepts it. *)
Lemma push_accepted p data b m intent :
  reachable p -> ParseBundle data (p_mem p) = (Ok b, m) -> accepts (p_vault p) b intent ->
  exists q1 q, step Receive p q1 /\ step (UnsealAs intent) q1 q /\
    va_phase (p_vault q) = PhaseUnsealed /\ va_generation (p_vault q) = b_generation b /\
    (~ served (p_vault p) b -> map (load (p_mem q)) (va_scopes (p_vault q)) = map (load m) (b_scopes b)).
Proof.
  intros Hp Hb Hacc. destruct p as [w tasks]. unfold p_mem, p_vault in *. cbn in *.
  set (i := fresh (dom tasks)). assert (tasks !! i = None) as Hi by apply not_elem_of_dom, is_fresh.
  set (q1 := mkProcess (withMem m w) (<[i := Push b]> tasks)).
  assert (step Receive (mkProcess w tasks) q1) as S1 by by eapply step_receive.
  assert (step (UnsealAs intent) q1 (mkProcess (Unseal (Some b) intent (withMem m w)).2 (<[i := Push b]> tasks))) as S2
    by (apply (step_unseal _ _ i), lookup_insert_eq).
  exists q1, (mkProcess (Unseal (Some b) intent (withMem m w)).2 (<[i := Push b]> tasks)). split; [done|]. split; [done|].
  pose proof (ParseBundle_ok _ _ _ _ Hb) as (Hm & Hok & _).
  assert (Forall (fun a => a ∈ dom m) (concat (map addrs (b_scopes b)))) as Hin
    by (apply Forall_forall; apply (mt_in _ _ _ Hm)).
  pose proof (Unseal_spec (withMem m w) b intent Hok Hin) as (U1 & U2 & _). cbn [w_vault withMem] in U1, U2.
  destruct (decide (served (w_vault w) b)) as [Hs|Hs].
  - rewrite (U2 Hacc Hs). pose proof Hs as [Hs1 Hs2]. by split_and!.
  - destruct (U1 Hacc Hs) as (out & m' & Et & Eu). rewrite Eu. cbn. split_and!; [done|done|]. intros _.
    destruct (threaded_Clone _ m Hin _ _ _ (reflexivity _) Et) as [Hm' Hl]. rewrite <- Hl.
    apply load_all_same. eapply same_touches; [apply ZeroAll_touches|]. intros a Hao Hav.
    apply (mt_new _ _ _ Hm' a Hao). eapply preserves_dom; [apply Hm|].
    apply reachable_ok in Hp as [Hd _ _ _]. by eapply (vault_in _ _ _ Hd).
Qed.

(** A push of a bundle that is not too old leads to a process that is ready, with its keys unless it was serving
    at the bundle's generation. *)
Lemma push_restores p data b m m' : reachable p ->
  ParseBundle data m = (Ok b, m') -> b_instance b = va_instance (p_vault p) ->
  va_generation (p_vault p) <= b_generation b ->
  exists q, rtc any p q /\ Ready (p_vault q) = true /\ va_generation (p_vault q) = b_generation b /\
    (~ served (p_vault p) b -> map (load (p_mem q)) (va_scopes (p_vault q)) = map (load m') (b_scopes b)) /\
    (va_phase (p_vault p) = PhaseRestartSealed -> rtc unattended p q).
Proof.
  intros Hp Hb Hi Hg. destruct (ParseBundle_anywhere _ _ _ _ (p_mem p) Hb) as (b0 & m1 & Hb0 & Ei & Eg & El).
  set (intent := if decide (va_phase (p_vault p) = PhaseRestartSealed) then IntentReseed else IntentOperator).
  destruct (push_accepted p data b0 m1 intent Hp Hb0) as (q1 & q & S1 & S2 & Hph & Hge & Hsc).
  { split; [by rewrite Ei|]. split; [|by rewrite Eg]. unfold intent, fits. by destruct (va_phase (p_vault p)); cbn. }
  exists q. split_and!.
  - eapply rtc_l; [by exists Receive|]. apply rtc_once. by exists (UnsealAs intent).
  - unfold Ready. by rewrite Hph.
  - by rewrite Hge.
  - intros Hs. rewrite Hsc, El; [done|]. unfold served in *. by rewrite Eg.
  - intros Hr. unfold intent in S2. rewrite decide_True in S2 by done.
    eapply rtc_l; [by exists Receive|]. apply rtc_once. by exists (UnsealAs IntentReseed).
Qed.


Lemma keeper_step l p q : reachable p -> step l p q -> keeperLabel l ->
  (va_phase (p_vault p) = PhaseOperatorHold ->
     va_phase (p_vault q) = PhaseOperatorHold /\ va_holdReason (p_vault q) = va_holdReason (p_vault p)) /\
  (va_phase (p_vault p) = PhaseUnsealed ->
     va_phase (p_vault q) = PhaseUnsealed /\ va_generation (p_vault q) = va_generation (p_vault p) /\
     map (load (p_mem q)) (va_scopes (p_vault q)) = map (load (p_mem p)) (va_scopes (p_vault p))).
Proof.
  intros Hp Hs Hl. pose proof (memory_step p l q Hp Hs) as Ha.
  change (map (load (p_mem p)) (va_scopes (p_vault p))) with (a_scopes (values p)).
  change (map (load (p_mem q)) (va_scopes (p_vault q))) with (a_scopes (values q)).
  change (va_generation (p_vault p)) with (a_generation (values p)).
  change (va_generation (p_vault q)) with (a_generation (values q)).
  change (va_phase (p_vault p)) with (a_phase (values p)). change (va_phase (p_vault q)) with (a_phase (values q)).
  change (va_holdReason (p_vault p)) with (a_hold (values p)). change (va_holdReason (p_vault q)) with (a_hold (values q)).
  destruct Ha; cbn in *; try done; try (split; intros; by split_and!).
  subst intent. destruct p0; cbn in *; [by split|done|].
  exfalso. by match goal with E : IntentReseed = IntentOperator |- _ => discriminate E end.
Qed.

(** Without the operator, whatever keepers push and applications ask, a hold
    stays with its reason, and a keyholder that serves goes on serving the same
    keys at the same generation. *)
Theorem keepers_only_reseed p q : reachable p -> rtc unattended p q ->
  (va_phase (p_vault p) = PhaseOperatorHold ->
     va_phase (p_vault q) = PhaseOperatorHold /\ va_holdReason (p_vault q) = va_holdReason (p_vault p)) /\
  (va_phase (p_vault p) = PhaseUnsealed ->
     va_phase (p_vault q) = PhaseUnsealed /\ va_generation (p_vault q) = va_generation (p_vault p) /\
     map (load (p_mem q)) (va_scopes (p_vault q)) = map (load (p_mem p)) (va_scopes (p_vault p))).
Proof.
  intros Hp Hr. induction Hr as [p|p q r (l & Hs & Hl) _ IH]; [done|].
  destruct (IH ltac:(by eapply reachable_step)) as [I1 I2]. destruct (keeper_step l p q Hp Hs Hl) as [K1 K2]. split.
  - intros Hh. destruct (K1 Hh) as [Hq E]. destruct (I1 Hq) as [? E']. by rewrite E'.
  - intros Hu. destruct (K2 Hu) as (Hq & E1 & E2). destruct (I2 Hq) as (? & E3 & E4). by rewrite E3, E4.
Qed.

(** A push is refused without a trace, or it replaces everything: the errors
    are those of the checks in order, nothing changes on one, a repeat of the
    generation served changes nothing, and otherwise phase, generation, reason and
    keys all become the bundle's. *)
Theorem unseal_is_all_or_nothing w b intent :
  bundle_ok (w_mem w) b -> Forall (fun a => a ∈ dom (w_mem w)) (concat (map addrs (b_scopes b))) ->
  let v := w_vault w in
  match Unseal (Some b) intent w with
  | (Ok _, w') =>
      accepts v b intent /\
      (served v b /\ w' = w \/
       ~ served v b /\ va_phase (w_vault w') = PhaseUnsealed /\ va_generation (w_vault w') = b_generation b /\
       va_holdReason (w_vault w') = "" /\ va_since (w_vault w') = w_now w)
  | (Err e, w') =>
      w' = w /\
      (e = InstanceMismatch (b_instance b) (va_instance v) /\ b_instance b <> va_instance v \/
       b_instance b = va_instance v /\
       (e = NotServing (va_phase v) /\ intent = IntentHandOver /\ va_phase v <> PhaseUnsealed \/
        e = AlreadyServing (va_generation v) /\ intent = IntentReseed /\ va_phase v = PhaseUnsealed \/
        e = OperatorHeld (va_since v) (va_holdReason v) /\ va_phase v = PhaseOperatorHold /\
          intent <> IntentOperator /\ intent <> IntentHandOver \/
        e = GenerationTooOld (b_generation b) (va_generation v) /\ fits (va_phase v) intent /\
          b_generation b < va_generation v))
  end.
Proof.
  intros Hb Hin v. destruct (Unseal_spec w b intent Hb Hin) as (U1 & U2 & U3). fold v in U1, U2, U3.
  destruct (decide (accepts v b intent)) as [Hacc|Hacc]; [destruct (decide (served v b)) as [Hs|Hs]|].
  - rewrite (U2 Hacc Hs). split; [done|]. by left.
  - destruct (U1 Hacc Hs) as (out & m & Et & ->). split; [done|]. right. by split_and!.
  - clear U1 U2. destruct (U3 Hacc) as [e E]. rewrite E. split; [done|].
    unfold Unseal in E. rewrite bind_get, bind_lift in E. fold v in E.
    assert (checkUnseal v b intent = Err e) as Ec.
    { destruct (checkUnseal v b intent) as [install|e'] eqn:Ec; [|by injection E as ->].
      by apply checkUnseal_ok in Ec as [? _]. }
    clear E U3 Hacc. assert (IntentOperator <> IntentReseed) as D1 by done. assert (IntentOperator <> IntentHandOver) as D2 by done.
    unfold checkUnseal in Ec. unfold fits. destruct (Z.ltb_spec (b_generation b) (va_generation v)); destruct (va_phase v);
      destruct (decide (intent = IntentOperator)), (decide (intent = IntentHandOver)), (decide (intent = IntentReseed));
      repeat case_decide; try discriminate Ec; injection Ec as <-; intuition (congruence || lia).
Qed.

End facts.

(** *** Witnesses *)

(** A library that knows one bundle. *)
#[local] Instance oneBundle : BundleYaml := {|
  unmarshalBundle data :=
    if decide (data = "bundle"%string) then Some (mkBundleFile 1 "prod" 3 (marshalScopes [exWeb])) else None;
  marshalBundle _ := Ok "bundle"%string
|}.

Definition exParsed : result bundle_error Bundle * memory := ParseBundle "bundle" ∅.
Definition exBundle : Bundle := match exParsed.1 with Ok b => b | Err _ => mkBundle "" 0 [] true end.

(** Started; given the bundle; unsealed; serving a request; held. *)
Definition exStart : Process := start "prod" (Err "no entropy"%string) 0.
Definition exGiven : Process := mkProcess (withMem exParsed.2 (p_world exStart)) {[0%nat := Push exBundle]}.
Definition exOpen : Process := mkProcess (Unseal (Some exBundle) IntentOperator (p_world exGiven)).2 (p_tasks exGiven).
Definition exAsked : result vault_error ScopeRef * World := ScopeFor "app/apps/web/state" (p_world exOpen).
Definition exScopeRef : ScopeRef :=
  match exAsked.1 with Ok s => s | Err _ => mkScope "" "" 0 "" (mkKeyringRef [] []) end.
Definition exServing : Process :=
  mkProcess exAsked.2 (<[1%nat := Request "app/apps/web/state" exScopeRef]> (p_tasks exOpen)).
Definition exHeld : Process := mkProcess (Seal true "audit" (p_world exServing)).2 (p_tasks exServing).

Lemma exGiven_step : step Receive exStart exGiven.
Proof. apply (step_receive _ _ _ "bundle"); [reflexivity|vm_compute; reflexivity]. Qed.
Lemma exOpen_step : step (UnsealAs IntentOperator) exGiven exOpen.
Proof. apply (step_unseal _ _ 0%nat). reflexivity. Qed.
Lemma exServing_step : step Serve exOpen exServing.
Proof.
  assert (exAsked = (Ok exScopeRef, exAsked.2)) as E by (vm_compute; reflexivity).
  assert (p_tasks exOpen !! 1%nat = None) as Hi by reflexivity.
  unfold exServing. revert Hi E. unfold exAsked. generalize exScopeRef. destruct exOpen as [w tasks].
  cbn [p_world p_tasks]. intros s Hi E. by apply step_serve.
Qed.
Lemma exHeld_step : step (SealBy true) exServing exHeld.
Proof. apply step_seal. Qed.

Lemma exStart_reachable : reachable exStart.
Proof. exists "prod"%string, (Err "no entropy"%string), 0. reflexivity. Qed.
Lemma exGiven_reachable : reachable exGiven.
Proof. exact (reachable_step _ _ _ exStart_reachable exGiven_step). Qed.
Lemma exServing_reachable : reachable exServing.
Proof. exact (reachable_step _ _ _ (reachable_step _ _ _ exGiven_reachable exOpen_step) exServing_step). Qed.
Lemma exHeld_reachable : reachable exHeld.
Proof. exact (reachable_step _ _ _ exServing_reachable exHeld_step). Qed.

Lemma memory_is_invisible_witness :
  astep (UnsealAs IntentOperator) (values exGiven) (values exOpen) /\ a_scopes (values exOpen) = [exWeb].
Proof.
  split; [|vm_compute; reflexivity].
  exact (proj1 (memory_is_invisible _ _ _ exGiven_reachable exOpen_step)).
Defined.

Lemma requests_keep_their_keys_witness :
  load (p_mem exServing) exScopeRef = exWeb /\ load (p_mem exHeld) exScopeRef = exWeb /\
  va_scopes (p_vault exHeld) = [].
Proof.
  assert (load (p_mem exServing) exScopeRef = exWeb) as Hs by (vm_compute; reflexivity).
  split; [exact Hs|]. split; [|reflexivity].
  destruct (requests_keep_their_keys _ _ _ 1%nat "app/apps/web/state" exScopeRef exServing_reachable exHeld_step eq_refl)
    as [(_ & E & _)|(E & _)]; [|discriminate E].
  rewrite E. exact Hs.
Defined.

Lemma sealing_forgets_witness :
  length (vaultAddrs (p_vault exServing)) = 2%nat /\
  (forall a, a ∈ vaultAddrs (p_vault exServing) -> blank (p_mem exHeld) a) /\
  ScopeFor "app/apps/web/state" (p_world exHeld) = (Err Sealed, p_world exHeld).
Proof.
  destruct (sealing_forgets _ _ _ exServing_reachable exHeld_step) as [Hb Hs]. split; [reflexivity|]. split.
  - intros a Ha. destruct (Hb a Ha) as [Hn|Hbl]; [|exact Hbl]. apply elem_of_nil in Hn. destruct Hn.
  - apply Hs. discriminate.
Defined.


Lemma keepers_only_reseed_witness :
  exists q, rtc unattended exHeld q /\ q <> exHeld /\ va_phase (p_vault q) = PhaseOperatorHold /\
    va_holdReason (p_vault q) = "audit"%string.
Proof.
  set (q := mkProcess (mkWorld (p_mem exHeld) 5 (p_vault exHeld)) (p_tasks exHeld)).
  assert (rtc unattended exHeld q) as Hr.
  { apply rtc_once. exists Clock. split; [apply step_clock; vm_compute; discriminate|exact I]. }
  exists q. split; [exact Hr|]. split.
  { intros E. apply (f_equal (fun p => w_now (p_world p))) in E. vm_compute in E. discriminate E. }
  destruct (keepers_only_reseed exHeld q exHeld_reachable Hr) as [Hh _].
  destruct (Hh eq_refl) as [E1 E2]. split; [exact E1|]. rewrite E2. reflexivity.
Defined.

Lemma unseal_is_all_or_nothing_witness :
  Unseal (Some exBundle) IntentReseed (p_world exHeld) =
    (Err (OperatorHeld 0 "audit"), p_world exHeld) /\ accepts (p_vault exHeld) exBundle IntentOperator.
Proof.
  assert (process_ok exHeld) as [Hd _ _ Ht] by exact (reachable_ok _ exHeld_reachable).
  pose proof (Ht 0%nat (Push exBundle) eq_refl) as Hb.
  assert (Forall (fun a => a ∈ dom (p_mem exHeld)) (concat (map addrs (b_scopes exBundle)))) as Hin
    by (apply Forall_forall; intros a; exact (task_in _ _ _ Hd 0%nat (Push exBundle) a eq_refl)).
  pose proof (unseal_is_all_or_nothing (p_world exHeld) exBundle IntentReseed Hb Hin) as Hu.
  assert ((Unseal (Some exBundle) IntentReseed (p_world exHeld)).1 = Err (OperatorHeld 0 "audit")) as E
    by (vm_compute; reflexivity).
  destruct (Unseal (Some exBundle) IntentReseed (p_world exHeld)) as [[[]|e] w']; [discriminate E|].
  cbn [fst] in E. destruct Hu as [-> _]. rewrite E. split; [reflexivity|].
  split; [vm_compute; reflexivity|]. split; [reflexivity|vm_compute; discriminate].
Defined.
