(* ===== verification/Slices.v ===== *)
(** * Slices of bytes

    [s[i:j]] and [s[i:]] of a byte slice, a byte at an offset, and the
    big-endian lengths of [encoding/binary].  The offsets the program slices at
    are within the length it has checked; past the end these give what is there. *)

From Stdlib Require Import Ascii.
From S2P Require Import Prelude GoStrings LogicalKey.

Fixpoint stake (n : nat) (s : string) : string :=
  match n, s with
  | S n, String c s => String c (stake n s)
  | _, _ => ""
  end.

Fixpoint sdrop (n : nat) (s : string) : string :=
  match n, s with
  | S n, String _ s => sdrop n s
  | _, _ => s
  end.

Definition slice (s : string) (i j : Z) : string := stake (Z.to_nat (j - i)) (sdrop (Z.to_nat i) s).
Definition after (s : string) (i : Z) : string := sdrop (Z.to_nat i) s.
Definition byteAt (s : string) (i : Z) : Z := default 0 (head (bytes (after s i))).

(** [binary.BigEndian.PutUint16] and [PutUint32]. *)
Definition PutUint16 (n : Z) : string := of_bytes [Z.shiftr n 8; Z.land n 255].
Definition PutUint32 (n : Z) : string :=
  of_bytes [Z.shiftr n 24; Z.land (Z.shiftr n 16) 255; Z.land (Z.shiftr n 8) 255; Z.land n 255].
Definition PutUint64 (n : Z) : string :=
  of_bytes (map (fun k => Z.land (Z.shiftr n (8 * k)) 255) [7; 6; 5; 4; 3; 2; 1; 0]).
Definition Uint16 (s : string) : Z := Z.lor (Z.shiftl (byteAt s 0) 8) (byteAt s 1).

(** ** Laws *)

Lemma len_app a b : len (a +:+ b) = len a + len b.
Proof. unfold len. induction a as [|c a IH]; [done|]. rewrite cons_app. cbn [String.length]. lia. Qed.

Lemma len_nonneg s : 0 <= len s.
Proof. unfold len. lia. Qed.

Lemma sdrop_app a b : sdrop (String.length a) (a +:+ b) = b.
Proof. induction a as [|c a IH]; [done|]. rewrite cons_app. exact IH. Qed.

Lemma stake_app a b : stake (String.length a) (a +:+ b) = a.
Proof. induction a as [|c a IH]; [by destruct b|]. rewrite cons_app. cbn. by rewrite IH. Qed.

Lemma stake_sdrop n : forall s, stake n s +:+ sdrop n s = s.
Proof. induction n as [|n IH]; intros [|c s]; try done. cbn [stake sdrop]. by rewrite cons_app, IH. Qed.

Lemma length_stake n : forall s, String.length (stake n s) = Nat.min n (String.length s).
Proof. induction n as [|n IH]; intros [|c s]; try done. cbn. by rewrite IH. Qed.

Lemma length_sdrop n : forall s, String.length (sdrop n s) = (String.length s - n)%nat.
Proof. induction n as [|n IH]; intros [|c s]; try done. cbn. by rewrite IH. Qed.

Lemma sdrop_sdrop n : forall k s, sdrop n (sdrop k s) = sdrop (k + n) s.
Proof.
  intros k. induction k as [|k IH]; intros [|c s]; try done; [by destruct n|]. cbn. apply IH.
Qed.

Lemma after_app a b n : len a = n -> after (a +:+ b) n = b.
Proof. unfold after, len. intros <-. rewrite Nat2Z.id. apply sdrop_app. Qed.

Lemma after_app_more a b n : len a <= n -> after (a +:+ b) n = after b (n - len a).
Proof.
  unfold after. intros Hn. pose proof (len_nonneg a).
  replace (Z.to_nat n) with (String.length a + Z.to_nat (n - len a))%nat by (unfold len in *; lia).
  by rewrite <- sdrop_sdrop, sdrop_app.
Qed.

Lemma slice_first a b n : len a = n -> slice (a +:+ b) 0 n = a.
Proof. unfold slice, len. intros <-. rewrite Z.sub_0_r, Nat2Z.id. apply stake_app. Qed.

(** A field, after the fields before it. *)
Lemma slice_app a b i j : len a <= i -> slice (a +:+ b) i j = slice b (i - len a) (j - len a).
Proof.
  intros Hi. unfold slice. replace (j - len a - (i - len a)) with (j - i) by lia. f_equal.
  exact (after_app_more a b i Hi).
Qed.

Lemma slice_field a b c i j : len a = i -> len b = j - i -> slice (a +:+ b +:+ c) i j = b.
Proof. intros <- Hb. rewrite slice_app, Z.sub_diag by lia. apply slice_first. lia. Qed.

Lemma slice_whole a j : len a = j -> slice a 0 j = a.
Proof. intros Ha. rewrite <- (app_string_nil_r a) at 1. by apply slice_first. Qed.

Lemma len_slice s i j : 0 <= i <= j -> j <= len s -> len (slice s i j) = j - i.
Proof. intros Hi Hj. unfold len, slice in *. rewrite length_stake, length_sdrop. lia. Qed.

Lemma len_after s i : 0 <= i <= len s -> len (after s i) = len s - i.
Proof. unfold len, after. intros Hi. rewrite length_sdrop. lia. Qed.

Lemma split_at s i : 0 <= i -> slice s 0 i +:+ after s i = s.
Proof. intros Hi. unfold slice, after. rewrite Z.sub_0_r. apply stake_sdrop. Qed.

Lemma slice_split s i j k : 0 <= i <= j -> j <= k -> slice s i j +:+ slice s j k = slice s i k.
Proof.
  intros Hi Hj. unfold slice. set (t := sdrop (Z.to_nat i) s).
  replace (sdrop (Z.to_nat j) s) with (sdrop (Z.to_nat (j - i)) t)
    by (unfold t; rewrite sdrop_sdrop; f_equal; lia).
  replace (Z.to_nat (k - i)) with (Z.to_nat (j - i) + Z.to_nat (k - j))%nat by lia.
  clearbody t. revert t. generalize (Z.to_nat (j - i)), (Z.to_nat (k - j)). clear. intros n m.
  induction n as [|n IH]; intros [|c t]; cbn; try done; [by destruct m|]. by rewrite cons_app, IH.
Qed.

Lemma after_split s i j : 0 <= i <= j -> slice s i j +:+ after s j = after s i.
Proof.
  intros Hi. unfold slice, after. rewrite <- (stake_sdrop (Z.to_nat (j - i)) (sdrop (Z.to_nat i) s)) at 2.
  f_equal. rewrite sdrop_sdrop. f_equal. lia.
Qed.

(** ** Lengths as bytes *)

Lemma len_PutUint16 n : len (PutUint16 n) = 2.
Proof. apply len_of_bytes. Qed.
Lemma len_PutUint32 n : len (PutUint32 n) = 4.
Proof. apply len_of_bytes. Qed.
Lemma len_PutUint64 n : len (PutUint64 n) = 8.
Proof. apply len_of_bytes. Qed.

Lemma bytes_cons c s : bytes (String c s) = Z.of_N (N_of_ascii c) :: bytes s.
Proof. done. Qed.

Lemma bytes_two hi lo s : 0 <= hi < 256 -> 0 <= lo < 256 ->
  byteAt (of_bytes [hi; lo] +:+ s) 0 = hi /\ byteAt (of_bytes [hi; lo] +:+ s) 1 = lo.
Proof.
  intros Hh Hl. unfold of_bytes. cbn [map String.string_of_list_ascii]. rewrite !cons_app.
  unfold byteAt, after. change (Z.to_nat 0) with 0%nat. change (Z.to_nat 1) with 1%nat. cbn [sdrop].
  rewrite !bytes_cons. cbn [head default from_option]. rewrite !N_ascii_embedding by lia.
  by rewrite !Z2N.id by lia.
Qed.

Lemma Uint16_PutUint16 n s : 0 <= n < 2 ^ 16 -> Uint16 (PutUint16 n +:+ s) = n.
Proof.
  intros Hn. destruct (be16_range n Hn) as [H1 H2]. unfold Uint16, PutUint16.
  destruct (bytes_two _ _ s H1 H2) as [-> ->]. by apply be16.
Qed.

Lemma byteAt_range s i : 0 <= byteAt s i < 256.
Proof.
  unfold byteAt. pose proof (bytes_range (after s i)) as Hb.
  destruct (bytes (after s i)) as [|b bs]; cbn; [lia|]. by apply Forall_cons in Hb as [? _].
Qed.

Lemma two_bytes s : len s = 2 -> s = of_bytes [byteAt s 0; byteAt s 1].
Proof.
  intros Hs. rewrite <- (of_bytes_bytes s) at 1. f_equal.
  destruct s as [|a [|b [|]]]; unfold len in Hs; cbn in Hs; try lia. done.
Qed.

(** Two bytes are the number they encode. *)
Lemma PutUint16_Uint16 s : len s = 2 -> PutUint16 (Uint16 s) = s /\ 0 <= Uint16 s < 2 ^ 16.
Proof.
  intros Hs. pose proof (be16_inv _ _ (byteAt_range s 0) (byteAt_range s 1)) as (E1 & E2 & Hr). cbv zeta in *.
  unfold PutUint16, Uint16. rewrite E1, E2. split; [by rewrite <- two_bytes|done].
Qed.

Lemma byteAt_app_l a b i : 0 <= i < len a -> byteAt (a +:+ b) i = byteAt a i.
Proof.
  unfold byteAt, after, len. intros Hi. assert (Z.to_nat i < String.length a)%nat as Hn by lia.
  revert Hn. generalize (Z.to_nat i). clear. intros n. revert a.
  induction n as [|n IH]; intros [|c a] Hn; cbn in Hn; try lia; rewrite cons_app; [done|].
  cbn [sdrop]. apply IH. lia.
Qed.

Lemma byteAt_app_r a b i : len a <= i -> byteAt (a +:+ b) i = byteAt b (i - len a).
Proof. intros Hi. unfold byteAt. by rewrite after_app_more. Qed.

(** ** What a concatenation is of *)

Lemma app_string_split a b a' b' : len a = len a' -> a +:+ b = a' +:+ b' -> a = a' /\ b = b'.
Proof.
  intros Hl E. split.
  - by rewrite <- (slice_first a b (len a)), E, (slice_first a' b' (len a)).
  - by rewrite <- (after_app a b (len a)), E, (after_app a' b' (len a)).
Qed.

Lemma of_bytes_inj l l' : Forall (fun z => 0 <= z < 256) l -> Forall (fun z => 0 <= z < 256) l' ->
  of_bytes l = of_bytes l' -> l = l'.
Proof. intros H H' E. by rewrite <- (bytes_of_bytes l), E, bytes_of_bytes. Qed.

Lemma u64_digit n k : 0 <= k -> Z.land (Z.shiftr n (8 * k)) 255 = (n / 2 ^ (8 * k)) mod 256.
Proof. intros Hk. change 255 with (Z.ones 8). rewrite Z.land_ones, Z.shiftr_div_pow2 by lia. done. Qed.

(** The eight digits of a word determine it. *)
Lemma PutUint64_inj n n' : 0 <= n < 2 ^ 64 -> 0 <= n' < 2 ^ 64 -> PutUint64 n = PutUint64 n' -> n = n'.
Proof.
  intros Hn Hn' E. unfold PutUint64 in E. apply of_bytes_inj in E.
  2,3: apply Forall_forall; intros z (k & -> & Hk)%list_elem_of_fmap;
       change 255 with (Z.ones 8); rewrite Z.land_ones by lia; apply Z.mod_pos_bound; lia.
  assert (forall k, 0 <= k < 8 -> (n / 2 ^ (8 * k)) mod 256 = (n' / 2 ^ (8 * k)) mod 256) as Hd.
  { cbn [map] in E. injection E as E7 E6 E5 E4 E3 E2 E1 E0. intros k Hk. rewrite <- !u64_digit by lia.
    assert (k = 0 \/ k = 1 \/ k = 2 \/ k = 3 \/ k = 4 \/ k = 5 \/ k = 6 \/ k = 7) as Hc by lia.
    repeat destruct Hc as [->|Hc]; try done. by subst k. }
  assert (forall j : nat, (j <= 8)%nat -> n / 2 ^ (8 * (8 - Z.of_nat j)) = n' / 2 ^ (8 * (8 - Z.of_nat j))) as Hq.
  { induction j as [|j IH]; intros Hj.
    - rewrite !Z.div_small by lia. done.
    - set (k := 8 - Z.of_nat (S j)). replace (8 - Z.of_nat j) with (k + 1) in IH by lia.
      specialize (IH ltac:(lia)). specialize (Hd k ltac:(lia)).
      replace (2 ^ (8 * (k + 1))) with (2 ^ (8 * k) * 256) in IH
        by (replace (8 * (k + 1)) with (8 * k + 8) by lia; rewrite Z.pow_add_r by lia; done).
      rewrite <- !Z.div_div in IH by lia.
      rewrite (Z.div_mod (n / 2 ^ (8 * k)) 256), (Z.div_mod (n' / 2 ^ (8 * k)) 256) by lia. congruence. }
  specialize (Hq 8%nat ltac:(lia)). change (2 ^ (8 * (8 - Z.of_nat 8))) with 1 in Hq. by rewrite !Z.div_1_r in Hq.
Qed.
