(* ===== verification/Cipher.v ===== *)
(** * The cryptographic library ([crypto/aes], [cipher], [hkdf], [hmac])

    AES-256-GCM, HKDF-SHA-256 and HMAC-SHA-256 are the parameters [Cipher]; what
    the code relies on of them is [CipherLaws].  The checks around them are the
    program's ([newGCM], [derive] of [datasphere/internal/crypto]). *)

From Stdlib Require Import Ascii.
From S2P Require Import Prelude Effect GoStrings LogicalKey Slices.

Class Cipher := {
  (** key, nonce, plaintext (or ciphertext and tag), associated data *)
  gcmSeal : string -> string -> string -> string -> string;
  gcmOpen : string -> string -> string -> string -> option string;
  (** [hkdf.Key(sha256.New, secret, nil, info, 32)] *)
  hkdfKey : string -> string -> result string string;
  hmacSum : string -> string -> string
}.

Definition NonceLen : Z := 12.
Definition TagLen : Z := 16.

(** GCM with a 12-byte nonce: a tag longer, opens what it sealed, and opens nothing
    but a seal under the same key, nonce and associated data. *)
Class CipherLaws `{Cipher} := {
  seal_len : forall k n p a, len (gcmSeal k n p a) = len p + TagLen;
  open_seal : forall k n p a, gcmOpen k n (gcmSeal k n p a) a = Some p;
  open_only : forall k n c a p, gcmOpen k n c a = Some p -> c = gcmSeal k n p a;
  hkdf_len : forall secret info k, hkdfKey secret info = Ok k -> len k = KeyLen;
  hmac_len : forall k m, len (hmacSum k m) = 32
}.

Inductive blob_error :=
| BadLogicalKey (e : key_error)
| TooLarge (n : Z)
| BadKeyLen (n : Z)
| MintDataKey (e : string)
| ReadWrapNonce (e : string)
| ReadNameNonce (e : string)
| ReadDataNonce (e : string)
| ReadSalt (e : string)
| NameOverflow (n : Z)
| NameBlock (n : Z)
| DeriveNameKey (e : string)
| ErrIntegrity
| UnknownKey (id : string)
| BadExponent (e : Z)
| ReadPlaintext (e : string)
| ReadBlob (e : string)
| WriteHeader (e : string)
| WriteFrame (index : Z) (e : string)
| OverLimit (limit : Z)
| TooManyFrames
(** The loops' fuel; no run returns it ([streams_terminate]). *)
| NoFuel.

(** [newGCM] refuses a key that is not 32 bytes; the result is the key. *)
Definition newGCM (key : string) : result blob_error string :=
  if negb (len key =? KeyLen) then Err (BadKeyLen (len key)) else Ok key.

Section cipher.
Context `{Cipher}.

Definition derive (secret info : string) : result string string := hkdfKey secret info.

End cipher.

Lemma newGCM_ok key k : newGCM key = Ok k <-> k = key /\ len key = KeyLen.
Proof. unfold newGCM. destruct (Z.eqb_spec (len key) KeyLen); cbn; naive_solver. Qed.

(** ** A library for examples

    The tag is a checksum of everything the seal covers; nothing is hidden. *)

Definition checksum (s : string) : Z := foldl (fun acc b => (31 * acc + b + 7) mod 251) 1 (bytes s).
Definition stamp (n : nat) (s : string) : string := String.string_of_list_ascii (replicate n (ascii_of_N (Z.to_N (checksum s)))).
Definition exTag (k n p a : string) : string := stamp 16 (k +:+ n +:+ p +:+ a).

#[export] Instance exCipher : Cipher | 100 := {|
  gcmSeal k n p a := p +:+ exTag k n p a;
  gcmOpen k n c a :=
    if len c <? TagLen then None
    else
      let p := slice c 0 (len c - TagLen) in
      if decide (after c (len c - TagLen) = exTag k n p a) then Some p else None;
  hkdfKey secret info := Ok (stamp 32 (secret +:+ info));
  hmacSum k m := stamp 32 (k +:+ m)
|}.

Lemma len_stamp n s : len (stamp n s) = Z.of_nat n.
Proof.
  unfold stamp, len. generalize (ascii_of_N (Z.to_N (checksum s))). intros c. f_equal.
  induction n as [|n IH]; [done|]. cbn. by rewrite IH.
Qed.

#[export] Instance exCipherLaws : CipherLaws | 100.
Proof.
  split; cbn [gcmSeal gcmOpen hkdfKey hmacSum exCipher].
  - intros. unfold exTag. by rewrite len_app, len_stamp.
  - intros k n p a. assert (len (p +:+ exTag k n p a) = len p + TagLen) as -> by (unfold exTag; by rewrite len_app, len_stamp).
    pose proof (len_nonneg p). destruct (Z.ltb_spec (len p + TagLen) TagLen); [lia|].
    rewrite Z.add_simpl_r, slice_first, after_app by done. by rewrite decide_True.
  - intros k n c a p. destruct (Z.ltb_spec (len c) TagLen); [done|].
    case_decide as Ht; [|done]. intros [= <-]. rewrite <- Ht. symmetry. apply split_at. unfold TagLen in *. lia.
  - intros secret info k [= <-]. apply len_stamp.
  - intros. apply len_stamp.
Qed.
