(* ===== verification/Names.v ===== *)
(** * Stored names ([datasphere/internal/crypto/name.go])

    The path an object is stored under, one token for each segment of its logical
    key, and the sealed copy of the key that lies beside it. *)

From Stdlib Require Import Ascii.
From S2P Require Import Prelude Effect GoTime GoStrings LogicalKey Encoding Keyring KeyringFacts Slices Cipher.

Definition TokenBytes : Z := 16.
Definition infoNameToken : string := "farcast/datasphere/v1/name-token".
Definition infoNameCryptPrefix : string := "farcast/datasphere/v1/name-crypt/".

(** [strings.LastIndex(s, c)] of one byte. *)
Fixpoint LastIndexByte (c : ascii) (s : string) : option nat :=
  match s with
  | EmptyString => None
  | String a s =>
      match LastIndexByte c s with
      | Some n => Some (S n)
      | None => if Ascii.eqb a c then Some 0%nat else None
      end
  end.

Section names.
Context `{Cipher}.

Definition NameTokenKey (nameKey : string) : result string string := derive nameKey infoNameToken.

Definition token (tokenKey path : string) : string :=
  HexEncodeToString (slice (hmacSum tokenKey path) 0 TokenBytes).

(** The loop of [TokenPath]: [end_] is where the last segment ended. *)
Fixpoint tokensFrom (tokenKey logicalKey : string) (i : nat) (end_ : Z) (segments : list string) : list string :=
  match segments with
  | [] => []
  | seg :: segments =>
      let end_ := if decide (0 < i)%nat then end_ + 1 else end_ in
      let end_ := end_ + len seg in
      token tokenKey (slice logicalKey 0 end_) :: tokensFrom tokenKey logicalKey (S i) end_ segments
  end.

Definition TokenPath (tokenKey logicalKey : string) : string :=
  Join (tokensFrom tokenKey logicalKey 0 0 (SplitByte slash logicalKey)) "/".

Definition TokenPrefix (tokenKey prefix : string) : string :=
  match LastIndexByte slash prefix with
  | None => ""
  | Some cut =>
      let aligned := slice prefix 0 (Z.of_nat cut) in
      if decide (aligned = "") then "" else TokenPath tokenKey aligned +:+ "/"
  end.

(** ** Sealed names *)

Definition nameGCM (nameKey storedPath : string) : result blob_error string :=
  key ← wrapErr DeriveNameKey (derive nameKey (infoNameCryptPrefix +:+ storedPath));
  newGCM key.

Section sealing.
Context {W : Type} `{Entropy W}.

Definition SealName (nameKey storedPath logicalKey : string) : eff W blob_error string :=
  gcm ← lift (nameGCM nameKey storedPath);
  plaintext ← lift (wrapErr BadLogicalKey (padName logicalKey));
  nonce ← readRand NonceLen ReadNameNonce;
  mret (nonce +:+ gcmSeal gcm nonce (of_bytes plaintext) storedPath).

End sealing.

Definition OpenName (nameKey storedPath sealed : string) : result blob_error string :=
  if len sealed <? NonceLen + TagLen then Err ErrIntegrity
  else
    gcm ← nameGCM nameKey storedPath;
    match gcmOpen gcm (slice sealed 0 NonceLen) (after sealed NonceLen) storedPath with
    | None => Err ErrIntegrity
    | Some plaintext => wrapErr (fun _ => ErrIntegrity) (unpadName (bytes plaintext))
    end.

End names.

(** ** Segments *)

(** What the segments and the separators between them add up to. *)
Fixpoint total (segments : list string) : Z :=
  match segments with [] => 0 | s :: l => len s + 1 + total l end.

Lemma SplitByte_total c s : total (SplitByte c s) = len s + 1.
Proof.
  induction s as [|a s IH]; cbn [SplitByte]; [done|]. unfold len in *. cbn [String.length].
  destruct (Ascii.eqb a c); cbn [total].
  - rewrite IH. unfold len. cbn. lia.
  - pose proof (SplitByte_nonempty c s). destruct (SplitByte c s) as [|x l]; [done|]. cbn [total] in *.
    unfold len in *. cbn [String.length]. lia.
Qed.

Lemma LastIndexByte_none c s : LastIndexByte c s = None -> without c s = true.
Proof.
  unfold without. induction s as [|a s IH]; [done|]. cbn. destruct (LastIndexByte c s); [done|].
  destruct (Ascii.eqb a c); [done|]. intros _. by apply IH.
Qed.

Lemma LastIndexByte_some c s : forall n, LastIndexByte c s = Some n ->
  exists a b, s = a +:+ String c b /\ String.length a = n /\ without c b = true.
Proof.
  induction s as [|x s IH]; intros n; cbn; [done|]. destruct (LastIndexByte c s) as [m|] eqn:E.
  - intros [= <-]. destruct (IH m eq_refl) as (a & b & -> & <- & Hb).
    exists (String x a), b. split_and!; [by rewrite cons_app|done|done].
  - destruct (Ascii.eqb_spec x c) as [->|]; [|done]. intros [= <-].
    exists "", s. split_and!; [by rewrite nil_app|done|by apply LastIndexByte_none].
Qed.

Lemma Join_app l1 l2 sep : l1 <> [] -> l2 <> [] -> Join (l1 ++ l2) sep = Join l1 sep +:+ sep +:+ Join l2 sep.
Proof.
  intros H1 H2. unfold Join. induction l1 as [|x l1 IH]; [done|]. cbn [app].
  destruct l1 as [|y l1].
  - cbn [app]. by destruct l2.
  - change (String.concat sep (x :: (y :: l1) ++ l2)) with (x +:+ sep +:+ String.concat sep ((y :: l1) ++ l2)).
    rewrite IH by done. change (String.concat sep (x :: y :: l1)) with (x +:+ sep +:+ String.concat sep (y :: l1)).
    by rewrite !app_string_assoc.
Qed.

Section paths.
Context `{Cipher}.

(** Where the segments end, from where the ones before did. *)
Definition endOf (i : nat) (end_ : Z) (segments : list string) : Z :=
  end_ + total segments - (if decide (0 < i)%nat then 0 else 1).

Lemma tokensFrom_app tk key l1 l2 : forall i end_, l1 <> [] ->
  tokensFrom tk key i end_ (l1 ++ l2) =
  tokensFrom tk key i end_ l1 ++ tokensFrom tk key (i + length l1) (endOf i end_ l1) l2.
Proof.
  induction l1 as [|s l1 IH]; intros i end_ Hne; [done|]. cbn [app tokensFrom length].
  destruct l1 as [|s' l1].
  - cbn [tokensFrom app]. f_equal. f_equal; [cbn; lia|]. unfold endOf. cbn [total]. case_decide; lia.
  - rewrite IH by done. cbn [app]. f_equal. f_equal. f_equal; [cbn [length]; lia|].
    unfold endOf. cbn [total]. rewrite (decide_True (P := (0 < S i)%nat)) by lia. case_decide; lia.
Qed.

Lemma total_nonneg l : 0 <= total l.
Proof. induction l as [|s l IH]; cbn; [lia|]. pose proof (len_nonneg s). lia. Qed.

(** Only the part of the key that is split matters. *)
Lemma tokensFrom_agree tk k k' segs : forall i end_,
  (forall e, 0 <= e <= endOf i end_ segs -> slice k 0 e = slice k' 0 e) -> 0 <= end_ ->
  tokensFrom tk k i end_ segs = tokensFrom tk k' i end_ segs.
Proof.
  induction segs as [|s segs IH]; intros i end_ Hs He; [done|]. cbn [tokensFrom].
  pose proof (len_nonneg s). pose proof (total_nonneg segs).
  assert (endOf i end_ (s :: segs) =
    endOf (S i) ((if decide (0 < i)%nat then end_ + 1 else end_) + len s) segs) as Ee.
  { unfold endOf. cbn [total]. rewrite (decide_True (P := (0 < S i)%nat)) by lia. case_decide; lia. }
  rewrite Ee in Hs. f_equal.
  - f_equal. apply Hs. unfold endOf. rewrite (decide_True (P := (0 < S i)%nat)) by lia. case_decide; lia.
  - apply IH; [exact Hs|case_decide; lia].
Qed.

Lemma tokensFrom_length tk key segs : forall i end_, length (tokensFrom tk key i end_ segs) = length segs.
Proof. induction segs as [|s segs IH]; intros i end_; [done|]. cbn. by rewrite IH. Qed.

Lemma slice_app_within a b e : 0 <= e <= len a -> slice (a +:+ b) 0 e = slice a 0 e.
Proof.
  intros He. unfold slice. rewrite Z.sub_0_r. change (Z.to_nat 0) with 0%nat. cbn [sdrop].
  assert (Z.to_nat e <= String.length a)%nat as Hn by (unfold len in He; lia). revert Hn.
  generalize (Z.to_nat e). clear. intros n. revert a.
  induction n as [|n IH]; intros [|c a] Hn; cbn in Hn; try lia; [done|by destruct b|].
  rewrite cons_app. cbn. by rewrite IH by lia.
Qed.

(** A key in a subtree is stored in the subtree's path. *)
Lemma TokenPath_under tk aligned rest :
  TokenPath tk (aligned +:+ String slash rest) =
  TokenPath tk aligned +:+ "/" +:+
    Join (tokensFrom tk (aligned +:+ String slash rest) (length (SplitByte slash aligned)) (len aligned)
            (SplitByte slash rest)) "/".
Proof.
  unfold TokenPath. rewrite SplitByte_app_sep.
  pose proof (SplitByte_nonempty slash aligned) as Hne. pose proof (SplitByte_nonempty slash rest) as Hne'.
  assert (endOf 0 0 (SplitByte slash aligned) = len aligned) as Ee.
  { unfold endOf. rewrite SplitByte_total. case_decide; lia. }
  rewrite tokensFrom_app by done. rewrite Ee. cbn [Nat.add]. rewrite Join_app.
  - do 2 f_equal. apply tokensFrom_agree; [|lia]. rewrite Ee. intros e He. by apply slice_app_within.
  - intros E. apply Hne. apply length_zero_iff_nil. by rewrite <- (tokensFrom_length tk (aligned +:+ String slash rest) _ 0 0), E.
  - intros E. apply Hne'. apply length_zero_iff_nil.
    by rewrite <- (tokensFrom_length tk (aligned +:+ String slash rest) _ (length (SplitByte slash aligned)) (len aligned)), E.
Qed.

Lemma HasPrefix_refl_app a b : HasPrefix (a +:+ b) a = true.
Proof. apply HasPrefix_spec. eauto. Qed.

Lemma TokenPrefix_covers tk key prefix : HasPrefix key prefix = true ->
  HasPrefix (TokenPath tk key) (TokenPrefix tk prefix) = true.
Proof.
  intros (r & ->)%HasPrefix_spec. unfold TokenPrefix. destruct (LastIndexByte slash prefix) as [cut|] eqn:Ec.
  2:{ apply HasPrefix_spec. by eexists. }
  apply LastIndexByte_some in Ec as (a & b & -> & <- & _).
  change (Z.of_nat (String.length a)) with (len a). rewrite slice_first by done.
  case_decide; [apply HasPrefix_spec; by eexists|].
  rewrite app_string_assoc, cons_app, TokenPath_under, <- app_string_assoc. apply HasPrefix_refl_app.
Qed.

Context `{!CipherLaws}.

Lemma hexEncode_length bs : length (hexEncode bs) = (2 * length bs)%nat.
Proof. unfold hexEncode. induction bs as [|b bs IH]; [done|]. cbn [map concat]. rewrite length_app, IH. cbn. lia. Qed.

Lemma len_token tk path : len (token tk path) = 32.
Proof.
  unfold token, HexEncodeToString. rewrite len_of_bytes, hexEncode_length.
  pose proof (len_bytes (slice (hmacSum tk path) 0 TokenBytes)) as Hl.
  unfold TokenBytes in *. rewrite len_slice in Hl by (rewrite ?hmac_len; lia). lia.
Qed.

Lemma len_Join l : Forall (fun t => len t = 32) l -> l <> [] -> len (Join l "/") = 33 * Z.of_nat (length l) - 1.
Proof.
  unfold Join. induction 1 as [|t l Ht _ IH]; [done|]. intros _. destruct l as [|t' l]; [cbn; lia|].
  change (String.concat "/" (t :: t' :: l)) with (t +:+ "/" +:+ String.concat "/" (t' :: l)).
  rewrite !len_app, Ht, IH by done. cbn [length]. change (len "/") with 1. lia.
Qed.

Lemma tokensFrom_len tk key segs : forall i end_, Forall (fun t => len t = 32) (tokensFrom tk key i end_ segs).
Proof. induction segs as [|s segs IH]; intros i end_; cbn; [constructor|]. constructor; [apply len_token|apply IH]. Qed.

Lemma len_TokenPath tk key : len (TokenPath tk key) = 33 * Z.of_nat (length (SplitByte slash key)) - 1.
Proof.
  unfold TokenPath. rewrite len_Join; [by rewrite tokensFrom_length|apply tokensFrom_len|].
  intros E. apply (SplitByte_nonempty slash key). apply length_zero_iff_nil. by rewrite <- (tokensFrom_length tk key _ 0 0), E.
Qed.

End paths.

(** ** Sealing and opening a name *)

Section names_facts.
Context `{CipherLaws}.

Lemma nameGCM_ok nameKey path k : nameGCM nameKey path = Ok k ->
  hkdfKey nameKey (infoNameCryptPrefix +:+ path) = Ok k.
Proof.
  unfold nameGCM, derive. intros E. apply bind_ok in E as (k' & E & Ek). apply newGCM_ok in Ek as [-> _].
  destruct (hkdfKey _ _) as [k0|e]; [by injection E as ->|done].
Qed.

(** What a sealed name looks like. *)
Definition sealedAs (nameKey path logicalKey sealed : string) : Prop :=
  exists gcm nonce p, nameGCM nameKey path = Ok gcm /\ len nonce = NonceLen /\ padName logicalKey = Ok p /\
    sealed = nonce +:+ gcmSeal gcm nonce (of_bytes p) path.

Lemma SealName_ok {W} `{Entropy W} nameKey path key (w w' : W) sealed :
  SealName nameKey path key w = (Ok sealed, w') -> sealedAs nameKey path key sealed.
Proof.
  unfold SealName. rewrite bind_lift. destruct (nameGCM nameKey path) as [gcm|e] eqn:Eg; [|done].
  rewrite bind_lift. destruct (padName key) as [p|e] eqn:Ep; [|done]. cbn [wrapErr].
  intros E. apply bind_inv in E as (nonce & w1 & En & E). injection E as <- _.
  exists gcm, nonce, p. split_and!; try done. unfold readRand in En.
  apply bind_inv in En as (x & w2 & Ex & En). unfold try in Ex. destruct (ReadFull NonceLen w) as [r w3] eqn:Er.
  injection Ex as <- <-. apply lift_inv in En as [En _]. destruct r as [bs|e]; [|done]. injection En as ->.
  by eapply ReadFull_length.
Qed.

Lemma sealedAs_len nameKey path key sealed : sealedAs nameKey path key sealed ->
  len key <= MaxKeyBytes /\ len sealed = NonceLen + paddedLen (2 + len key) + TagLen.
Proof.
  intros (gcm & nonce & p & _ & Hn & Hp & ->). rewrite len_app, seal_len, Hn, len_of_bytes.
  unfold padName in Hp. destruct (Z.ltb_spec MaxKeyBytes (len key)); [done|]. split; [done|]. injection Hp as <-.
  cbn [app length]. rewrite length_app. unfold zeros. rewrite length_replicate. pose proof (len_bytes key).
  pose proof (len_nonneg key). destruct (paddedLen_spec (2 + len key) ltac:(lia)) as [? _]. lia.
Qed.

Lemma OpenName_sealed nameKey path key sealed : ValidString key = true ->
  sealedAs nameKey path key sealed -> OpenName nameKey path sealed = Ok key.
Proof.
  intros Hv Hs. pose proof (sealedAs_len _ _ _ _ Hs) as [Hk Hl]. destruct Hs as (gcm & nonce & p & Hg & Hn & Hp & ->).
  destruct (padName_roundtrip key Hk Hv) as (p' & Hp' & Hb & _ & Hu). assert (p' = p) as -> by congruence.
  unfold OpenName. rewrite Hl. pose proof (len_nonneg key).
  destruct (paddedLen_spec (2 + len key) ltac:(lia)) as [? _].
  destruct (Z.ltb_spec (NonceLen + paddedLen (2 + len key) + TagLen) (NonceLen + TagLen)); [lia|].
  rewrite Hg. cbn [mbind result_bind]. rewrite slice_first, after_app by done. rewrite open_seal.
  rewrite bytes_of_bytes by done. by rewrite Hu.
Qed.

(** Nothing else opens: a block that opens is the seal of that name for that path. *)
Lemma OpenName_only nameKey path sealed key : OpenName nameKey path sealed = Ok key -> len key <= MaxKeyBytes ->
  sealedAs nameKey path key sealed.
Proof.
  unfold OpenName. destruct (Z.ltb_spec (len sealed) (NonceLen + TagLen)); [done|].
  intros E Hk. apply bind_ok in E as (gcm & Hg & E).
  destruct (gcmOpen gcm _ _ path) as [pt|] eqn:Eo; [|done]. apply open_only in Eo.
  destruct (unpadName (bytes pt)) as [k|e] eqn:Eu; [|done]. injection E as ->.
  exists gcm, (slice sealed 0 NonceLen), (bytes pt). split_and!.
  - done.
  - rewrite len_slice; unfold NonceLen, TagLen in *; lia.
  - apply unpadName_only; [done|apply bytes_range|done].
  - rewrite of_bytes_bytes, <- Eo. symmetry. apply split_at. done.
Qed.

End names_facts.

(** ** Properties *)

(** A listing never misses an object: when a key starts with a prefix, the
    path it is stored under starts with the path listed for that prefix; and the
    path of a key the rules allow fits the provider's 1024 bytes. *)
Theorem listing_misses_nothing `{CipherLaws} tokenKey key prefix :
  (HasPrefix key prefix = true ->
     HasPrefix (TokenPath tokenKey key) (TokenPrefix tokenKey prefix) = true) /\
  (ValidateLogicalKey key = Ok tt -> len (TokenPath tokenKey key) <= 989).
Proof.
  split; [apply TokenPrefix_covers|]. unfold ValidateLogicalKey.
  repeat (case_decide || case_match; try done). intros _. rewrite len_TokenPath. unfold MaxKeySegments in *. lia.
Qed.

(** A name sealed for a path opens there as itself, and a block opens as a
    name only where it was sealed as that name, for that path and under that key. *)
Theorem sealed_names_open `{CipherLaws} {W} `{Entropy W} nameKey path key (w w' : W) sealed :
  ValidateLogicalKey key = Ok tt -> SealName nameKey path key w = (Ok sealed, w') ->
  OpenName nameKey path sealed = Ok key /\
  (forall nameKey' path' sealed' key', OpenName nameKey' path' sealed' = Ok key' -> len key' <= MaxKeyBytes ->
     sealedAs nameKey' path' key' sealed').
Proof.
  intros Hv Hs. split; [|intros; by apply OpenName_only].
  apply OpenName_sealed; [by apply ValidateLogicalKey_utf8|by eapply SealName_ok].
Qed.

(** *** Witnesses *)
