(* ===== verification/Blob.v ===== *)
(** * The stored blob, version 1 ([datasphere/internal/crypto/blob.go])

    What the cloud holds of an object: a fixed prefix with the data key wrapped
    under a key-encryption key, the sealed name and the sealed body.  A rekey
    rewrites the wrap and nothing else. *)

From Stdlib Require Import Ascii.
From S2P Require Import Prelude Effect GoTime GoStrings LogicalKey Keyring KeyringFacts Slices Cipher Names.

(** ** The format *)

Definition Version : Z := 1.
Definition Version2 : Z := 2.
Definition Magic : string := "FCDS".
Definition WrappedDEKLen : Z := 48.
Definition offVersion : Z := 4.
Definition offKeyID : Z := 5.
Definition offWrapNonce : Z := 13.
Definition offWrappedDEK : Z := 25.
Definition offNameLen : Z := 73.
Definition HeaderLen : Z := 75.
Definition MaxPlaintext : Z := Z.shiftl 64 20.

Record Key := mkKey { k_ID : string; k_Material : string }.

Abbreviation KeyLookup := (string -> option string) (only parsing).

Record Header := mkHeader {
  h_Version : Z;
  h_KeyID : string;
  h_WrapNonce : string;
  h_WrappedDEK : string;
  h_SealedName : string;
  h_Body : string;
  h_BodyOffset : Z
}.

Definition byte (b : Z) : string := of_bytes [b].

Definition dataAAD (logicalKey : string) : string := Magic +:+ byte Version +:+ logicalKey.
Definition wrapAAD (version : Z) (id : string) : string := Magic +:+ byte version +:+ id.

(** The fixed prefix: every field is an array of its width. *)
Definition prefixOf (version : Z) (id wrapNonce wrapped : string) (nameLen : Z) : string :=
  Magic +:+ byte version +:+ id +:+ wrapNonce +:+ wrapped +:+ PutUint16 nameLen.

Definition known (version : Z) : bool := (version =? Version) || (version =? Version2).

Definition ParseHeader (b : string) : result blob_error Header :=
  if len b <? HeaderLen then Err ErrIntegrity
  else
    let version := byteAt b offVersion in
    if bool_decide (slice b 0 4 <> Magic) || negb (known version) then Err ErrIntegrity
    else
      let nameLen := Uint16 (after b offNameLen) in
      let bodyOffset := HeaderLen + nameLen in
      if (nameLen <? NonceLen + TagLen) || (len b <? bodyOffset) then Err ErrIntegrity
      else if (version =? Version) && (len b - bodyOffset <? NonceLen + TagLen) then Err ErrIntegrity
      else Ok (mkHeader version (slice b offKeyID (offKeyID + KeyIDLen))
                 (slice b offWrapNonce (offWrapNonce + NonceLen))
                 (slice b offWrappedDEK (offWrappedDEK + WrappedDEKLen))
                 (slice b HeaderLen bodyOffset) (after b bodyOffset) bodyOffset).

Section blob.
Context `{Cipher}.

Definition unwrap (version : Z) (id wrapNonce wrappedDEK : string) (lookup : KeyLookup) : result blob_error string :=
  match lookup id with
  | None => Err (UnknownKey id)
  | Some material =>
      kek ← newGCM material;
      match gcmOpen kek wrapNonce wrappedDEK (wrapAAD version id) with
      | None => Err ErrIntegrity
      | Some dek => Ok dek
      end
  end.

Definition unwrapHeader (h : Header) (lookup : KeyLookup) : result blob_error string :=
  unwrap (h_Version h) (h_KeyID h) (h_WrapNonce h) (h_WrappedDEK h) lookup.

Definition HeaderName (nameKey storedPath b : string) : result blob_error string :=
  h ← ParseHeader b; OpenName nameKey storedPath (h_SealedName h).

(** What [Open] does with a header of version 1. *)
Definition openBody (lookup : KeyLookup) (logicalKey : string) (h : Header) : result blob_error string :=
  dek ← unwrapHeader h lookup;
  dekGCM ← newGCM dek;
  match gcmOpen dekGCM (slice (h_Body h) 0 NonceLen) (after (h_Body h) NonceLen) (dataAAD logicalKey) with
  | None => Err ErrIntegrity
  | Some plaintext => Ok plaintext
  end.

Section sealing.
Context {W : Type} `{Entropy W}.

(** The blob and its sealed name. *)
Definition Seal (kek : Key) (nameKey storedPath logicalKey plaintext : string) : eff W blob_error (string * string) :=
  _ ← lift (wrapErr BadLogicalKey (ValidateLogicalKey logicalKey));
  if MaxPlaintext <? len plaintext then fail (TooLarge (len plaintext))
  else
    kekGCM ← lift (newGCM (k_Material kek));
    dek ← readRand KeyLen MintDataKey;
    wrapNonce ← readRand NonceLen ReadWrapNonce;
    sealedName ← SealName nameKey storedPath logicalKey;
    if 65535 <? len sealedName then fail (NameOverflow (len sealedName))
    else
      dataNonce ← readRand NonceLen ReadDataNonce;
      dekGCM ← lift (newGCM dek);
      mret (prefixOf Version (k_ID kek) wrapNonce (gcmSeal kekGCM wrapNonce dek (wrapAAD Version (k_ID kek)))
              (len sealedName)
              +:+ sealedName +:+ dataNonce +:+ gcmSeal dekGCM dataNonce plaintext (dataAAD logicalKey),
            sealedName).

Definition RekeyPrefix (lookup : KeyLookup) (newKEK : Key) (prefix : string) : eff W blob_error string :=
  if len prefix <? HeaderLen then fail ErrIntegrity
  else
    let version := byteAt prefix offVersion in
    if bool_decide (slice prefix 0 4 <> Magic) || negb (known version) then fail ErrIntegrity
    else
      newGCMKEK ← lift (newGCM (k_Material newKEK));
      dek ← lift (unwrap version (slice prefix offKeyID (offKeyID + KeyIDLen))
                    (slice prefix offWrapNonce (offWrapNonce + NonceLen))
                    (slice prefix offWrappedDEK (offWrappedDEK + WrappedDEKLen)) lookup);
      nonce ← readRand NonceLen ReadWrapNonce;
      mret (slice prefix 0 offKeyID +:+ k_ID newKEK +:+ nonce
              +:+ gcmSeal newGCMKEK nonce dek (wrapAAD version (k_ID newKEK)) +:+ slice prefix offNameLen HeaderLen).

Definition Rekey (lookup : KeyLookup) (newKEK : Key) (b : string) : eff W blob_error string :=
  _ ← lift (ParseHeader b);
  prefix ← RekeyPrefix lookup newKEK (slice b 0 HeaderLen);
  mret (prefix +:+ after b (len prefix)).

End sealing.
End blob.

(** ** The layout *)

Definition widths (id wrapNonce wrapped : string) : Prop :=
  len id = KeyIDLen /\ len wrapNonce = NonceLen /\ len wrapped = WrappedDEKLen.

Lemma len_prefixOf v id wn wd n : widths id wn wd -> len (prefixOf v id wn wd n) = HeaderLen.
Proof.
  intros (H1 & H2 & H3). unfold prefixOf. rewrite !len_app, H1, H2, H3, len_PutUint16.
  unfold byte. rewrite len_of_bytes. done.
Qed.

Lemma byteAt_byte v s : 0 <= v < 256 -> byteAt (byte v +:+ s) 0 = v.
Proof.
  intros Hv. unfold byte, of_bytes. cbn [map String.string_of_list_ascii]. rewrite cons_app.
  unfold byteAt, after. change (Z.to_nat 0) with 0%nat. cbn [sdrop].
  rewrite bytes_cons. cbn [head default from_option]. rewrite N_ascii_embedding by lia. rewrite Z2N.id by lia. done.
Qed.

Lemma byte_byteAt s : len s = 1 -> byte (byteAt s 0) = s.
Proof.
  intros Hs. unfold byte. rewrite <- (of_bytes_bytes s) at 2. f_equal.
  destruct s as [|a [|]]; unfold len in Hs; cbn in Hs; try lia. done.
Qed.

(** The fields of a prefix, whatever follows. *)
Lemma prefix_fields v id wn wd n rest : widths id wn wd -> 0 <= v < 256 -> 0 <= n < 2 ^ 16 ->
  let b := prefixOf v id wn wd n +:+ rest in
  slice b 0 4 = Magic /\ byteAt b offVersion = v /\ slice b offKeyID (offKeyID + KeyIDLen) = id /\
  slice b offWrapNonce (offWrapNonce + NonceLen) = wn /\
  slice b offWrappedDEK (offWrappedDEK + WrappedDEKLen) = wd /\ Uint16 (after b offNameLen) = n /\
  slice b 0 HeaderLen = prefixOf v id wn wd n /\ after b HeaderLen = rest.
Proof.
  intros Hw Hv Hn b. pose proof (len_prefixOf v id wn wd n Hw) as Hl. destruct Hw as (H1 & H2 & H3).
  assert (len (byte v) = 1) as Hb by apply len_of_bytes. assert (len Magic = 4) as Hm by done.
  change KeyIDLen with 8 in *. change NonceLen with 12 in *. change WrappedDEKLen with 48 in *.
  change HeaderLen with 75 in *. unfold offVersion, offKeyID, offWrapNonce, offWrappedDEK, offNameLen.
  assert (b = Magic +:+ byte v +:+ id +:+ wn +:+ wd +:+ PutUint16 n +:+ rest) as Eb
    by (unfold b, prefixOf; by rewrite !app_string_assoc).
  split_and!; [| | | | | |by apply slice_first|by apply after_app]; rewrite Eb.
  - by apply slice_first.
  - rewrite byteAt_app_r, Hm by (rewrite Hm; lia). by apply byteAt_byte.
  - do 2 rewrite slice_app by lia. rewrite Hm, Hb. apply slice_first. lia.
  - do 3 rewrite slice_app by lia. rewrite Hm, Hb, H1. apply slice_first. lia.
  - do 4 rewrite slice_app by lia. rewrite Hm, Hb, H1, H2. apply slice_first. lia.
  - rewrite !after_app_more by lia. rewrite Hm, Hb, H1, H2, H3.
    change (after ?s (73 - 4 - 1 - 8 - 12 - 48)) with s. by apply Uint16_PutUint16.
Qed.

(** Every prefix that starts with the magic is one of its fields. *)
Lemma prefix_split b : HeaderLen <= len b -> slice b 0 4 = Magic ->
  b = prefixOf (byteAt b offVersion) (slice b offKeyID (offKeyID + KeyIDLen))
        (slice b offWrapNonce (offWrapNonce + NonceLen)) (slice b offWrappedDEK (offWrappedDEK + WrappedDEKLen))
        (Uint16 (after b offNameLen)) +:+ after b HeaderLen.
Proof.
  unfold HeaderLen, offVersion, offKeyID, offWrapNonce, offWrappedDEK, offNameLen, KeyIDLen, NonceLen, WrappedDEKLen.
  intros Hl Hm. cbn [Z.add Pos.add Pos.succ]. rewrite <- (split_at b 4) at 1 by lia. rewrite Hm.
  unfold prefixOf. rewrite !app_string_assoc. f_equal.
  assert (byte (byteAt b 4) = slice b 4 5) as ->.
  { rewrite <- (split_at b 4) at 1 by lia. rewrite byteAt_app_r by (rewrite len_slice; lia).
    rewrite len_slice, Z.sub_diag by lia. rewrite <- (after_split b 4 5) by lia.
    rewrite byteAt_app_l by (rewrite len_slice; lia). apply byte_byteAt. rewrite len_slice; lia. }
  assert (PutUint16 (Uint16 (after b 73)) = slice b 73 75) as ->.
  { assert (Uint16 (after b 73) = Uint16 (slice b 73 75)) as ->.
    { rewrite <- (after_split b 73 75) by lia. unfold Uint16. rewrite !byteAt_app_l by (rewrite len_slice; lia). done. }
    apply PutUint16_Uint16. rewrite len_slice; lia. }
  rewrite <- (after_split b 4 5), <- (after_split b 5 13), <- (after_split b 13 25), <- (after_split b 25 73),
    <- (after_split b 73 75) by lia. done.
Qed.

(** A header and the bytes it was parsed from. *)
Record parses (b : string) (h : Header) : Prop := {
  ps_bytes : b = prefixOf (h_Version h) (h_KeyID h) (h_WrapNonce h) (h_WrappedDEK h) (len (h_SealedName h))
                   +:+ h_SealedName h +:+ h_Body h;
  ps_widths : widths (h_KeyID h) (h_WrapNonce h) (h_WrappedDEK h);
  ps_known : known (h_Version h) = true;
  ps_name : NonceLen + TagLen <= len (h_SealedName h) < 2 ^ 16;
  ps_body : h_Version h = Version -> NonceLen + TagLen <= len (h_Body h);
  ps_offset : h_BodyOffset h = HeaderLen + len (h_SealedName h)
}.

Lemma known_byte v : known v = true -> 0 <= v < 256.
Proof. unfold known, Version, Version2. lia. Qed.

Lemma ParseHeader_spec b h : ParseHeader b = Ok h <-> parses b h.
Proof.
  split.
  - unfold ParseHeader. destruct (Z.ltb_spec (len b) HeaderLen) as [|Hl]; [done|].
    destruct (bool_decide (slice b 0 4 <> Magic)) eqn:Em; [done|]. apply bool_decide_eq_false, dec_stable in Em.
    destruct (known (byteAt b offVersion)) eqn:Ek; [|done]. cbn [orb negb].
    pose proof (prefix_split b Hl Em) as Eb. set (n := Uint16 (after b offNameLen)) in *.
    destruct (Z.ltb_spec n (NonceLen + TagLen)); [done|]. destruct (Z.ltb_spec (len b) (HeaderLen + n)); [done|].
    cbn [orb]. destruct (_ && _) eqn:Ev; [done|]. intros [= <-].
    assert (0 <= n < 2 ^ 16) as Hn.
    { unfold n. assert (Uint16 (after b offNameLen) = Uint16 (slice b 73 75)) as ->.
      { unfold offNameLen, HeaderLen in *. rewrite <- (after_split b 73 75) by lia. unfold Uint16.
        rewrite !byteAt_app_l by (rewrite len_slice; lia). done. }
      apply PutUint16_Uint16. unfold HeaderLen in *. rewrite len_slice; lia. }
    change HeaderLen with 75 in *. change NonceLen with 12 in *. change TagLen with 16 in *.
    assert (len (slice b 75 (75 + n)) = n) as Hs by (rewrite len_slice; lia).
    split; cbn [h_Version h_KeyID h_WrapNonce h_WrappedDEK h_SealedName h_Body h_BodyOffset]; rewrite ?Hs; try done.
    + rewrite after_split by lia. exact Eb.
    + unfold widths, offKeyID, offWrapNonce, offWrappedDEK, KeyIDLen, WrappedDEKLen, NonceLen. rewrite !len_slice; lia.
    + change NonceLen with 12. change TagLen with 16. lia.
    + intros E. rewrite E in Ev. cbn in Ev. change NonceLen with 12 in *. change TagLen with 16 in *.
      rewrite len_after by lia. lia.
  - intros [Eb Hw Hk Hn Hbody Ho]. destruct h as [v id wn wd sn body off]. cbn in *. subst off.
    pose proof (len_prefixOf v id wn wd (len sn) Hw) as Hl. pose proof (len_nonneg body).
    destruct (prefix_fields v id wn wd (len sn) (sn +:+ body) Hw (known_byte v Hk)
      ltac:(unfold NonceLen, TagLen in *; lia)) as (F1 & F2 & F3 & F4 & F5 & F6 & F7 & F8).
    rewrite <- Eb in F1, F2, F3, F4, F5, F6, F7, F8.
    assert (len b = HeaderLen + len sn + len body) as Lb by (rewrite Eb, !len_app; lia).
    unfold ParseHeader. rewrite F1, F2, F6, F3, F4, F5, Lb, Hk.
    change HeaderLen with 75 in *. change NonceLen with 12 in *. change TagLen with 16 in *.
    rewrite bool_decide_eq_false_2 by (intros Hne; by apply Hne). cbn [orb negb].
    destruct (Z.ltb_spec (75 + len sn + len body) 75); [lia|]. destruct (Z.ltb_spec (len sn) (12 + 16)); [lia|].
    destruct (Z.ltb_spec (75 + len sn + len body) (75 + len sn)); [lia|]. cbn [orb].
    assert ((v =? Version) && (75 + len sn + len body - (75 + len sn) <? 12 + 16) = false) as ->.
    { destruct (Z.eqb_spec v Version) as [E|]; [|done]. specialize (Hbody E).
      change NonceLen with 12 in *. change TagLen with 16 in *. cbn [andb]. lia. }
    do 2 f_equal.
    + rewrite Eb, slice_app by lia. rewrite Hl. replace (75 - 75) with 0 by lia. apply slice_first. lia.
    + rewrite Eb, after_app_more by lia. rewrite Hl. apply after_app. lia.
Qed.

Section facts.
Context `{CipherLaws}.

(** ** Wrapping *)

(** [wrapped] is [dek] under a key the lookup holds. *)
Definition wrapsTo (lookup : KeyLookup) (version : Z) (id wrapNonce wrapped dek : string) : Prop :=
  exists material, lookup id = Some material /\ len material = KeyLen /\
    wrapped = gcmSeal material wrapNonce dek (wrapAAD version id).

Lemma unwrap_spec lookup version id wn wd dek :
  unwrap version id wn wd lookup = Ok dek <-> wrapsTo lookup version id wn wd dek.
Proof.
  unfold unwrap, wrapsTo. split.
  - destruct (lookup id) as [material|]; [|done]. intros E. apply bind_ok in E as (k & Ek & E).
    apply newGCM_ok in Ek as [-> Hl]. destruct (gcmOpen _ _ _ _) as [d|] eqn:Eo; [|done]. injection E as ->.
    apply open_only in Eo. eauto.
  - intros (material & -> & Hl & ->). rewrite (proj2 (newGCM_ok material material)) by done.
    cbn [mbind result_bind]. by rewrite open_seal.
Qed.

Lemma wrapsTo_unique lookup version id wn wd d d' :
  wrapsTo lookup version id wn wd d -> wrapsTo lookup version id wn wd d' -> d = d'.
Proof. rewrite <- !unwrap_spec. congruence. Qed.

(** ** Sealing, as bytes *)

(** [b] is [plaintext] sealed for the key, under the wrap key [kek]. *)
Record sealedBlob (kek : Key) (nameKey path logicalKey plaintext b sn : string) : Prop := {
  sb_name : sealedAs nameKey path logicalKey sn;
  sb_kek : len (k_Material kek) = KeyLen;
  sb_bytes : exists wn dek dn, len wn = NonceLen /\ len dek = KeyLen /\ len dn = NonceLen /\
    b = prefixOf Version (k_ID kek) wn (gcmSeal (k_Material kek) wn dek (wrapAAD Version (k_ID kek))) (len sn)
          +:+ sn +:+ dn +:+ gcmSeal dek dn plaintext (dataAAD logicalKey)
}.

Lemma Seal_ok {W} `{Entropy W} kek nameKey path key plaintext (w w' : W) b sn :
  Seal kek nameKey path key plaintext w = (Ok (b, sn), w') ->
  ValidateLogicalKey key = Ok tt /\ len plaintext <= MaxPlaintext /\
  sealedBlob kek nameKey path key plaintext b sn.
Proof.
  unfold Seal. intros E. apply bind_inv in E as ([] & w1 & E1 & E). apply lift_inv in E1 as [Ev ->].
  destruct (Z.ltb_spec MaxPlaintext (len plaintext)) as [|Hp]; [done|].
  apply bind_inv in E as (kg & w2 & E1 & E). apply lift_inv in E1 as [Ek ->]. apply newGCM_ok in Ek as [-> Hk].
  apply bind_inv in E as (dek & w3 & E1 & E). pose proof (readRand_len _ _ _ _ _ E1) as Hd. clear E1.
  apply bind_inv in E as (wn & w4 & E1 & E). pose proof (readRand_len _ _ _ _ _ E1) as Hw. clear E1.
  apply bind_inv in E as (sn' & w5 & E1 & E). apply SealName_ok in E1 as Hs.
  destruct (Z.ltb_spec 65535 (len sn')); [done|].
  apply bind_inv in E as (dn & w6 & E2 & E). pose proof (readRand_len _ _ _ _ _ E2) as Hn.
  apply bind_inv in E as (dg & w7 & E3 & E). apply lift_inv in E3 as [Ed ->]. apply newGCM_ok in Ed as [-> _].
  injection E as <- <- _. split_and!; [by destruct (ValidateLogicalKey key) as [[]|]|done|].
  split; [done|done|]. exists wn, dek, dn. by split_and!.
Qed.

(** The header of a sealed blob, and its body. *)
Lemma sealedBlob_parses kek nameKey path key plaintext b sn : len (k_ID kek) = KeyIDLen ->
  sealedBlob kek nameKey path key plaintext b sn ->
  exists h dek dn, parses b h /\ h_Version h = Version /\ h_KeyID h = k_ID kek /\ h_SealedName h = sn /\
    len dn = NonceLen /\ len dek = KeyLen /\
    h_Body h = dn +:+ gcmSeal dek dn plaintext (dataAAD key) /\
    forall lookup, lookup (k_ID kek) = Some (k_Material kek) ->
      wrapsTo lookup Version (k_ID kek) (h_WrapNonce h) (h_WrappedDEK h) dek.
Proof.
  intros Hid [Hn Hk (wn & dek & dn & Hw & Hd & Hdn & ->)].
  set (wd := gcmSeal (k_Material kek) wn dek (wrapAAD Version (k_ID kek))).
  set (body := dn +:+ gcmSeal dek dn plaintext (dataAAD key)).
  exists (mkHeader Version (k_ID kek) wn wd sn body (HeaderLen + len sn)), dek, dn.
  pose proof (sealedAs_len _ _ _ _ Hn) as [Hkl Hsl]. pose proof (len_nonneg key). pose proof (len_nonneg plaintext).
  destruct (paddedLen_spec (2 + len key) ltac:(lia)) as [Hpad _].
  split_and!; try done.
  - split; cbn [h_Version h_KeyID h_WrapNonce h_WrappedDEK h_SealedName h_Body h_BodyOffset]; try done.
    + split_and!; [done|done|]. unfold wd. by rewrite seal_len, Hd.
    + unfold MaxKeyBytes, NamePadUnit, NonceLen, TagLen in *. lia.
    + intros _. unfold body. rewrite len_app, seal_len, Hdn. lia.
  - intros lookup Hlook. exists (k_Material kek). by split_and!.
Qed.

(** ** Opening *)

Lemma openBody_spec lookup key h p : NonceLen <= len (h_Body h) ->
  openBody lookup key h = Ok p <->
  exists dek dn, wrapsTo lookup (h_Version h) (h_KeyID h) (h_WrapNonce h) (h_WrappedDEK h) dek /\
    len dek = KeyLen /\ len dn = NonceLen /\ h_Body h = dn +:+ gcmSeal dek dn p (dataAAD key).
Proof.
  intros Hb. unfold openBody, unwrapHeader. split.
  - intros E. apply bind_ok in E as (dek & Eu & E). apply unwrap_spec in Eu.
    apply bind_ok in E as (dg & Eg & E). apply newGCM_ok in Eg as [-> Hd].
    destruct (gcmOpen dek _ _ _) as [pt|] eqn:Eo; [|done]. injection E as ->. apply open_only in Eo.
    exists dek, (slice (h_Body h) 0 NonceLen). split_and!; try done.
    + rewrite len_slice; unfold NonceLen in *; lia.
    + rewrite <- Eo. symmetry. by apply split_at.
  - intros (dek & dn & Hw & Hd & Hn & ->). apply unwrap_spec in Hw. rewrite Hw. cbn [mbind result_bind].
    rewrite (proj2 (newGCM_ok dek dek)) by done. cbn [mbind result_bind].
    rewrite slice_first, after_app by done. by rewrite open_seal.
Qed.

(** ** Rekeying *)

(** The header under another wrap. *)
Definition rewrapped (h : Header) (kek : Key) (nonce dek : string) : Header :=
  mkHeader (h_Version h) (k_ID kek) nonce (gcmSeal (k_Material kek) nonce dek (wrapAAD (h_Version h) (k_ID kek)))
    (h_SealedName h) (h_Body h) (h_BodyOffset h).

(** A prefix of a blob, at least as long as the fixed one, starts with the fields. *)
Lemma parses_head b rest h : parses (b +:+ rest) h -> HeaderLen <= len b ->
  let fixed := prefixOf (h_Version h) (h_KeyID h) (h_WrapNonce h) (h_WrappedDEK h) (len (h_SealedName h)) in
  b = fixed +:+ after b HeaderLen /\ after b HeaderLen +:+ rest = h_SealedName h +:+ h_Body h /\
  slice b offNameLen HeaderLen = PutUint16 (len (h_SealedName h)).
Proof.
  intros [Eb Hw Hk Hn Hbody Ho] Hl fixed. assert (len fixed = HeaderLen) as HlP by by apply len_prefixOf.
  assert (b = fixed +:+ after b HeaderLen) as Eb'.
  { rewrite <- (split_at b HeaderLen) at 1 by done. f_equal.
    rewrite <- (slice_app_within b rest HeaderLen) by (unfold HeaderLen in *; lia). rewrite Eb. by apply slice_first. }
  split_and!; [done|rewrite Eb', app_string_assoc in Eb; by apply app_string_inj in Eb|].
  rewrite Eb'. unfold fixed, prefixOf. rewrite !app_string_assoc. destruct Hw as (W1 & W2 & W3).
  assert (len (byte (h_Version h)) = 1) as W4 by apply len_of_bytes.
  unfold KeyIDLen, NonceLen, WrappedDEKLen, offNameLen, HeaderLen in *.
  rewrite slice_app by (change (len Magic) with 4; lia). change (len Magic) with 4.
  do 4 rewrite slice_app by lia. rewrite W1, W2, W3, W4. apply slice_first, len_PutUint16.
Qed.

(** A prefix of the blob at least as long as the fixed one is rewritten. *)
Lemma RekeyPrefix_ok {W} `{Entropy W} lookup kek h b rest (w w' : W) prefix :
  parses (b +:+ rest) h -> HeaderLen <= len b -> len (k_ID kek) = KeyIDLen ->
  RekeyPrefix lookup kek b w = (Ok prefix, w') ->
  exists nonce dek, len nonce = NonceLen /\ len dek = KeyLen /\ len (k_Material kek) = KeyLen /\
    wrapsTo lookup (h_Version h) (h_KeyID h) (h_WrapNonce h) (h_WrappedDEK h) dek /\
    let h' := rewrapped h kek nonce dek in
    prefix = prefixOf (h_Version h') (h_KeyID h') (h_WrapNonce h') (h_WrappedDEK h') (len (h_SealedName h')) /\
    widths (h_KeyID h') (h_WrapNonce h') (h_WrappedDEK h').
Proof.
  intros Hp Hl Hid E. destruct (parses_head _ _ _ Hp Hl) as (Eb' & _ & En). destruct Hp as [Eb Hw Hk Hn Hbody Ho].
  unfold RekeyPrefix in E. destruct (Z.ltb_spec (len b) HeaderLen); [done|].
  set (P := prefixOf (h_Version h) (h_KeyID h) (h_WrapNonce h) (h_WrappedDEK h) (len (h_SealedName h))) in *.
  destruct (prefix_fields (h_Version h) (h_KeyID h) (h_WrapNonce h) (h_WrappedDEK h) (len (h_SealedName h))
    (after b HeaderLen) Hw (known_byte _ Hk) ltac:(unfold NonceLen, TagLen in *; lia))
    as (F1 & F2 & F3 & F4 & F5 & F6 & F7 & _).
  fold P in F1, F2, F3, F4, F5, F6, F7. rewrite <- Eb' in F1, F2, F3, F4, F5, F6, F7.
  rewrite F1, F2, F3, F4, F5, Hk in E. rewrite bool_decide_eq_false_2 in E by (intros Hne; by apply Hne).
  cbn [orb negb] in E.
  apply bind_inv in E as (kg & w1 & E1 & E). apply lift_inv in E1 as [Ek ->]. apply newGCM_ok in Ek as [-> Hkl].
  apply bind_inv in E as (dek & w2 & E1 & E). apply lift_inv in E1 as [Eu ->]. apply unwrap_spec in Eu.
  apply bind_inv in E as (nonce & w3 & E1 & E). pose proof (readRand_len _ _ _ _ _ E1) as Hno. injection E as <- _.
  assert (len dek = KeyLen) as Hd.
  { destruct Hw as (_ & _ & Hwd). destruct Eu as (m & _ & _ & Em). rewrite Em, seal_len in Hwd.
    unfold KeyLen, WrappedDEKLen, TagLen in *. lia. }
  exists nonce, dek. do 4 (split; [done|]). cbn [rewrapped h_Version h_KeyID h_WrapNonce h_WrappedDEK h_SealedName].
  split; [|split_and!; [done|done|by rewrite seal_len, Hd]].
  - assert (slice b 0 offKeyID = Magic +:+ byte (h_Version h)) as ->.
    { rewrite Eb'. unfold P, prefixOf. rewrite <- !(app_string_assoc Magic). rewrite !app_string_assoc.
      rewrite <- (app_string_assoc Magic). apply slice_first. unfold byte. by rewrite len_app, len_of_bytes. }
    rewrite En. unfold prefixOf. by rewrite !app_string_assoc.
Qed.

Lemma Rekey_ok {W} `{Entropy W} lookup kek b (w w' : W) b' : len (k_ID kek) = KeyIDLen ->
  Rekey lookup kek b w = (Ok b', w') ->
  exists h nonce dek, parses b h /\ len dek = KeyLen /\ len nonce = NonceLen /\ len (k_Material kek) = KeyLen /\
    wrapsTo lookup (h_Version h) (h_KeyID h) (h_WrapNonce h) (h_WrappedDEK h) dek /\
    parses b' (rewrapped h kek nonce dek) /\ len b' = len b.
Proof.
  intros Hid E. unfold Rekey in E. apply bind_inv in E as (h & w1 & E1 & E). apply lift_inv in E1 as [Ep ->].
  apply ParseHeader_spec in Ep as Hp. apply bind_inv in E as (prefix & w2 & Er & E). injection E as <- _.
  pose proof Hp as [Eb Hw Hk Hn Hbody Ho].
  assert (len (prefixOf (h_Version h) (h_KeyID h) (h_WrapNonce h) (h_WrappedDEK h) (len (h_SealedName h))) = HeaderLen)
    as HlP by by apply len_prefixOf.
  assert (HeaderLen <= len b) as Hl.
  { rewrite Eb, len_app, HlP. pose proof (len_nonneg (h_SealedName h +:+ h_Body h)). lia. }
  destruct (RekeyPrefix_ok lookup kek h (slice b 0 HeaderLen) (after b HeaderLen) w w2 prefix) as
    (nonce & dek & Hno & Hd & Hkl & Hwr & Epre & Hw'); [by rewrite split_at|rewrite len_slice; unfold HeaderLen in *; lia|done|done|].
  exists h, nonce, dek.
  assert (len prefix = HeaderLen) as Hlp by (rewrite Epre; by apply len_prefixOf).
  assert (after b (len prefix) = h_SealedName h +:+ h_Body h) as Ea by (rewrite Hlp, Eb; by apply after_app).
  split_and!; try done.
  - split; try done. rewrite Ea, Epre. done.
  - rewrite Ea, Eb, !len_app, Hlp, HlP. done.
Qed.

End facts.

(** ** Properties *)

(** What is written is what is read: a sealed blob opens, under its key and for
    its logical key, as exactly the plaintext; its header carries the sealed name,
    which opens as the logical key. *)
Theorem blob_roundtrip `{CipherLaws} {W} `{Entropy W} kek nameKey path key plaintext (w w' : W) b sn lookup :
  Seal kek nameKey path key plaintext w = (Ok (b, sn), w') ->
  len (k_ID kek) = KeyIDLen -> lookup (k_ID kek) = Some (k_Material kek) ->
  exists h, ParseHeader b = Ok h /\ h_KeyID h = k_ID kek /\ h_SealedName h = sn /\
    openBody lookup key h = Ok plaintext /\ HeaderName nameKey path b = Ok key.
Proof.
  intros Hs Hid Hlook. apply Seal_ok in Hs as (Hv & _ & Hb).
  destruct (sealedBlob_parses _ _ _ _ _ _ _ Hid Hb) as (h & dek & dn & Hp & Ev & Ei & En & Hdn & Hd & Ebody & Hwr).
  exists h. apply ParseHeader_spec in Hp as Eh. split_and!; try done.
  - apply openBody_spec; [rewrite Ebody, len_app, Hdn; pose proof (len_nonneg (gcmSeal dek dn plaintext (dataAAD key))); lia|].
    exists dek, dn. rewrite Ev, Ei. split_and!; try done. by apply Hwr.
  - unfold HeaderName. rewrite Eh. cbn [mbind result_bind]. rewrite En. apply OpenName_sealed; [by apply ValidateLogicalKey_utf8|apply Hb].
Qed.

(** A rekey changes the wrap and nothing else: the blob keeps its length, its
    sealed name and its body, names the new key, and opens under it as exactly what
    it opened as before. *)
Theorem rekey_keeps_the_object `{CipherLaws} {W} `{Entropy W} lookup kek b (w w' : W) b' :
  Rekey lookup kek b w = (Ok b', w') -> len (k_ID kek) = KeyIDLen ->
  exists h h', ParseHeader b = Ok h /\ ParseHeader b' = Ok h' /\ len b' = len b /\
    h_Version h' = h_Version h /\ h_SealedName h' = h_SealedName h /\ h_Body h' = h_Body h /\
    h_KeyID h' = k_ID kek /\
    forall lookup' key p, lookup' (k_ID kek) = Some (k_Material kek) -> h_Version h = Version ->
      (openBody lookup' key h' = Ok p <-> openBody lookup key h = Ok p).
Proof.
  intros Hr Hid. destruct (Rekey_ok _ _ _ _ _ _ Hid Hr) as (h & nonce & dek & Hp & Hd & Hno & Hkl & Hwr & Hp' & Hl).
  exists h, (rewrapped h kek nonce dek). split_and!; try done; [by apply ParseHeader_spec|by apply ParseHeader_spec|].
  intros lookup' key p Hlook Hv. pose proof (ps_body _ _ Hp Hv) as Hb.
  assert (NonceLen <= len (h_Body h)) as Hb' by (unfold NonceLen, TagLen in *; lia).
  rewrite !openBody_spec by done.
  assert (wrapsTo lookup' (h_Version h) (k_ID kek) nonce (h_WrappedDEK (rewrapped h kek nonce dek)) dek) as Hwr'
    by (exists (k_Material kek); by split_and!).
  split; intros (d & dn & Hwd & Hd' & Hdn & Eb).
  - assert (d = dek) as -> by exact (wrapsTo_unique _ _ _ _ _ _ _ Hwd Hwr'). by exists dek, dn.
  - assert (d = dek) as -> by exact (wrapsTo_unique _ _ _ _ _ _ _ Hwd Hwr). by exists dek, dn.
Qed.

(** An object that opens was sealed: bytes that open as a plaintext for a key
    are, field by field, a data key wrapped under a key the keyring holds and that
    plaintext sealed under it for that logical key. *)
Theorem opened_blobs_were_sealed `{CipherLaws} lookup key b h p :
  ParseHeader b = Ok h -> h_Version h = Version -> openBody lookup key h = Ok p ->
  exists material dek dn, lookup (h_KeyID h) = Some material /\ len dek = KeyLen /\
    b = prefixOf Version (h_KeyID h) (h_WrapNonce h) (gcmSeal material (h_WrapNonce h) dek (wrapAAD Version (h_KeyID h)))
          (len (h_SealedName h)) +:+ h_SealedName h +:+ dn +:+ gcmSeal dek dn p (dataAAD key).
Proof.
  intros Hp Hv Ho. apply ParseHeader_spec in Hp. pose proof (ps_body _ _ Hp Hv) as Hb.
  apply openBody_spec in Ho as (dek & dn & (m & Hm & Hl & Ew) & Hd & _ & Eb);
    [|unfold NonceLen, TagLen in *; lia].
  exists m, dek, dn. split_and!; [done|done|]. rewrite (ps_bytes _ _ Hp) at 1. by rewrite Ew, Eb, Hv.
Qed.

(** *** Witnesses *)

(** The version-1 header of a blob and what its body opens as. *)
Definition reads (lookup : KeyLookup) (key b : string) : option (Header * string) :=
  match ParseHeader b with
  | Ok h => if h_Version h =? Version then
      match openBody lookup key h with Ok p => Some (h, p) | Err _ => None end else None
  | Err _ => None
  end.

Lemma reads_some lookup key b h p : reads lookup key b = Some (h, p) ->
  ParseHeader b = Ok h /\ h_Version h = Version /\ openBody lookup key h = Ok p.
Proof.
  unfold reads. destruct (ParseHeader b) as [h'|]; [|done]. destruct (Z.eqb_spec (h_Version h') Version); [|done].
  destruct (openBody lookup key h') eqn:E; [|done]. by intros [= <- <-].
Qed.

Definition exKEK : Key := mkKey (repeated 8 "a") (repeated 32 "k").
Definition exNewKEK : Key := mkKey (repeated 8 "b") (repeated 32 "n").
Definition exLookup (id : string) : option string :=
  if decide (id = k_ID exKEK) then Some (k_Material exKEK)
  else if decide (id = k_ID exNewKEK) then Some (k_Material exNewKEK) else None.

Definition exSealed : result blob_error (string * string) * nat :=
  Seal exKEK (repeated 32 "m") "path" "app/state" "hello" 65%nat.
Definition exBlob : string := match exSealed.1 with Ok (b, _) => b | Err _ => "" end.

Lemma exSealed_ok : exists sn, exSealed = (Ok (exBlob, sn), exSealed.2).
Proof.
  assert (is_ok exSealed.1 = true) as Hok by (vm_compute; reflexivity).
  unfold exBlob. destruct exSealed as [[[b sn]|e] w]; [by exists sn|discriminate Hok].
Qed.

Lemma opened_blobs_were_sealed_witness :
  exists h material dek dn, exLookup (h_KeyID h) = Some material /\ len dek = KeyLen /\
    exBlob = prefixOf Version (h_KeyID h) (h_WrapNonce h)
        (gcmSeal material (h_WrapNonce h) dek (wrapAAD Version (h_KeyID h))) (len (h_SealedName h))
      +:+ h_SealedName h +:+ dn +:+ gcmSeal dek dn "hello" (dataAAD "app/state").
Proof.
  assert (snd <$> reads exLookup "app/state" exBlob = Some "hello"%string) as Hb by (vm_compute; reflexivity).
  destruct (reads exLookup "app/state" exBlob) as [[h p]|] eqn:E0; [|discriminate Hb]. injection Hb as ->.
  apply reads_some in E0 as (Hp & Hv & Hb).
  destruct (opened_blobs_were_sealed exLookup "app/state" exBlob h "hello" Hp Hv Hb) as (m & dek & dn & Hm & Hd & E).
  exists h, m, dek, dn. split; [exact Hm|]. split; [exact Hd|exact E].
Defined.
