(* ===== verification/Stream.v ===== *)
(** * The stored blob, version 2 ([datasphere/internal/crypto/blob2.go])

    The chunked format: after the sealed name a salt, the frame size and frames,
    each sealed with its index and whether it is the last.  The last frame is
    shorter than the others, so a reader knows where the object ends.  Also [Open]
    and [OpenStream], which read either version. *)

From Stdlib Require Import Ascii.
From S2P Require Import Prelude Effect GoTime GoStrings LogicalKey Keyring KeyringFacts Slices Cipher Names Blob.

Definition SaltLen : Z := 8.
Definition MinChunkExp : Z := 16.
Definition MaxChunkExp : Z := 26.
Definition DefaultChunkExp : Z := 20.

Definition u32 (z : Z) : Z := z mod 2 ^ 32.

(** ** Readers and writers *)

(** What a read fails with: [io.ErrUnexpectedEOF] or an error that wraps it, which
    is also how [io.ReadFull] says that the end came early; or anything else. *)
Inductive read_error :=
| UnexpectedEOF
| ReadError (message : string).

#[export] Instance read_error_eq_dec : EqDecision read_error.
Proof. solve_decision. Defined.

Definition readErrorText (e : read_error) : string :=
  match e with UnexpectedEOF => "unexpected EOF" | ReadError message => message end.

(** A reader yields its bytes, then the end or an error, which it repeats. *)
Record Reader := mkReader { rd_data : string; rd_error : option read_error }.

(** A reader that ends, for code that takes [io.ErrUnexpectedEOF] as the end. *)
Definition ended (r : Reader) : Prop := rd_error r = None \/ rd_error r = Some UnexpectedEOF.

(** [io.ReadFull(r, buf)]: a full buffer; fewer bytes with [io.EOF] or
    [io.ErrUnexpectedEOF], whether the end made it so or the reader said it; or the
    reader's other error. *)
Inductive chunk :=
| Full (s : string)
| Final (s : string)
| Broken (e : string).

Definition readFull (n : Z) (r : Reader) : chunk * Reader :=
  if n <=? len (rd_data r) then (Full (slice (rd_data r) 0 n), mkReader (after (rd_data r) n) (rd_error r))
  else
    match rd_error r with
    | Some (ReadError e) => (Broken e, mkReader "" (rd_error r))
    | _ => (Final (rd_data r), mkReader "" (rd_error r))
    end.

(** [io.ReadAll(io.LimitReader(r, limit+1))], refused when longer than the limit. *)
Definition readAtMost (r : Reader) (limit : Z) : result blob_error string :=
  if limit <? len (rd_data r) then Err (OverLimit limit)
  else match rd_error r with Some e => Err (ReadBlob (readErrorText e)) | None => Ok (rd_data r) end.

Section stream.
Context `{Cipher}.

Definition frameAAD (exp index : Z) (final : bool) (logicalKey : string) : string :=
  Magic +:+ byte Version2 +:+ byte exp +:+ PutUint32 index +:+ byte (if final then 1 else 0) +:+ logicalKey.

(** ** Writing *)

Section writing.
Context {W Out : Type} `{Entropy W} (write : string -> eff Out string unit).

Definition writeTo (f : string -> blob_error) (p : string) : eff (W * Out) blob_error unit := fun s =>
  let '(r, o) := write p s.2 in (wrapErr f r, (s.1, o)).

Fixpoint sealFrames (fuel : nat) (dek salt : string) (exp : Z) (logicalKey : string) (index : Z) (r : Reader)
    : eff (W * Out) blob_error unit :=
  match fuel with
  | O => fail NoFuel
  | S fuel =>
      let frame (final : bool) (p : string) :=
        gcmSeal dek (salt +:+ PutUint32 index) p (frameAAD exp index final logicalKey) in
      match readFull (Z.shiftl 1 exp) r with
      | (Broken e, _) => fail (ReadPlaintext e)
      | (Final p, _) => writeTo (WriteFrame index) (frame true p)
      | (Full p, r) =>
          _ ← writeTo (WriteFrame index) (frame false p);
          if index =? 2 ^ 32 - 1 then fail TooManyFrames
          else sealFrames fuel dek salt exp logicalKey (u32 (index + 1)) r
      end
  end.

Definition SealStream (kek : Key) (logicalKey sealedName : string) (exp : Z) (r : Reader)
    : eff (W * Out) blob_error unit :=
  _ ← lift (wrapErr BadLogicalKey (ValidateLogicalKey logicalKey));
  if (exp <? MinChunkExp) || (MaxChunkExp <? exp) then fail (BadExponent exp)
  else
    kekGCM ← lift (newGCM (k_Material kek));
    if (len sealedName <? NonceLen + TagLen) || (65535 <? len sealedName) then fail (NameBlock (len sealedName))
    else
      dek ← readRand KeyLen MintDataKey;
      wrapNonce ← readRand NonceLen ReadWrapNonce;
      salt ← readRand SaltLen ReadSalt;
      _ ← writeTo WriteHeader
            (prefixOf Version2 (k_ID kek) wrapNonce (gcmSeal kekGCM wrapNonce dek (wrapAAD Version2 (k_ID kek)))
               (len sealedName) +:+ sealedName +:+ salt +:+ byte exp);
      dekGCM ← lift (newGCM dek);
      sealFrames (S (String.length (rd_data r))) dekGCM salt exp logicalKey 0 r.

End writing.

(** ** Reading *)

Section reading.
Context {Out : Type} (write : string -> eff Out blob_error unit).

Fixpoint openFrames (fuel : nat) (dek salt : string) (exp : Z) (logicalKey : string) (index : Z) (r : Reader)
    : eff Out blob_error unit :=
  match fuel with
  | O => fail NoFuel
  | S fuel =>
      let opened (final : bool) (c : string) :=
        gcmOpen dek (salt +:+ PutUint32 index) c (frameAAD exp index final logicalKey) in
      match readFull (Z.shiftl 1 exp + TagLen) r with
      | (Broken e, _) => fail (ReadBlob e)
      | (Final c, r) =>
          if len c <? TagLen then fail ErrIntegrity
          else
            match opened true c with
            | None => fail ErrIntegrity
            | Some p =>
                _ ← write p;
                if bool_decide (rd_data r <> "") || bool_decide (rd_error r <> None) then fail ErrIntegrity
                else mret tt
            end
      | (Full c, r) =>
          match opened false c with
          | None => fail ErrIntegrity
          | Some p => _ ← write p; openFrames fuel dek salt exp logicalKey (u32 (index + 1)) r
          end
      end
  end.

(** [Open] of a blob whose version byte is 1. *)
Definition openBuffered (lookup : KeyLookup) (logicalKey b : string) : result blob_error string :=
  h ← ParseHeader b; openBody lookup logicalKey h.

(** [OpenStream] after the header, for version 2. *)
Definition openChunked (lookup : KeyLookup) (logicalKey : string) (h : Header) (r : Reader) : eff Out blob_error unit :=
  match readFull (SaltLen + 1) r with
  | (Full tail, r) =>
      let salt := slice tail 0 SaltLen in
      let exp := byteAt tail SaltLen in
      if (exp <? MinChunkExp) || (MaxChunkExp <? exp) then fail ErrIntegrity
      else
        dek ← lift (unwrapHeader h lookup);
        dekGCM ← lift (newGCM dek);
        openFrames (S (String.length (rd_data r))) dekGCM salt exp logicalKey 0 r
  | _ => fail ErrIntegrity
  end.

Definition OpenStream (lookup : KeyLookup) (logicalKey : string) (r : Reader) : eff Out blob_error unit :=
  match readFull HeaderLen r with
  | (Full prefix, r) =>
      let nameLen := Uint16 (after prefix offNameLen) in
      if nameLen <? NonceLen + TagLen then fail ErrIntegrity
      else
        match readFull nameLen r with
        | (Full rest, r) =>
            if byteAt prefix offVersion =? Version then
              body ← lift (readAtMost r (MaxPlaintext + NonceLen + TagLen + 1));
              plaintext ← lift (openBuffered lookup logicalKey (prefix +:+ rest +:+ body));
              write plaintext
            else
              h ← lift (ParseHeader (prefix +:+ rest));
              openChunked lookup logicalKey h r
        | _ => fail ErrIntegrity
        end
  | _ => fail ErrIntegrity
  end.

End reading.

(** [cappedBuffer.Write]. *)
Definition cappedWrite (limit : Z) (p : string) : eff string blob_error unit := fun buf =>
  if limit <? len buf + len p then (Err (OverLimit limit), buf) else (Ok tt, buf +:+ p).

Definition Open (lookup : KeyLookup) (logicalKey b : string) : result blob_error string :=
  h ← ParseHeader b;
  if h_Version h =? Version2 then
    match OpenStream (cappedWrite MaxPlaintext) lookup logicalKey (mkReader b None) "" with
    | (Ok _, out) => Ok out
    | (Err e, _) => Err e
    end
  else openBody lookup logicalKey h.

End stream.

(** ** Reading and chunks *)

Lemma readFull_app n a b e : len a = n -> readFull n (mkReader (a +:+ b) e) = (Full a, mkReader b e).
Proof.
  intros Ha. unfold readFull. cbn [rd_data rd_error]. rewrite len_app. pose proof (len_nonneg b).
  destruct (Z.leb_spec n (len a + len b)); [|lia]. by rewrite slice_first, after_app.
Qed.

Lemma readFull_short n a e : len a < n -> ended (mkReader a e) -> readFull n (mkReader a e) = (Final a, mkReader "" e).
Proof.
  intros Ha He. unfold readFull. cbn [rd_data rd_error]. destruct (Z.leb_spec n (len a)); [lia|].
  by destruct He as [He|He]; cbn in He; rewrite He.
Qed.

Lemma readFull_full n r s r' : 0 <= n -> readFull n r = (Full s, r') ->
  len s = n /\ rd_data r = s +:+ rd_data r' /\ rd_error r' = rd_error r.
Proof.
  unfold readFull. intros Hn. destruct (Z.leb_spec n (len (rd_data r))).
  - intros [= <- <-]. split_and!; [rewrite len_slice; lia|by rewrite split_at|done].
  - by destruct (rd_error r) as [[]|].
Qed.

Lemma readFull_final n r s r' : readFull n r = (Final s, r') ->
  len s < n /\ rd_data r = s /\ ended r /\ r' = mkReader "" (rd_error r).
Proof.
  unfold readFull, ended. destruct (Z.leb_spec n (len (rd_data r))); [done|].
  destruct (rd_error r) as [[|m]|]; [|done|]; intros [= <- <-]; eauto.
Qed.

(** A writer that takes what it is given; [taken] is what it has taken. *)
Definition appends {Out E} (taken : Out -> string) (write : string -> eff Out E unit) : Prop :=
  forall p o o', write p o = (Ok tt, o') -> taken o' = taken o +:+ p.

(** It takes what is given as long as it holds no more than [room]. *)
Definition accepts {Out E} (taken : Out -> string) (room : Z) (write : string -> eff Out E unit) : Prop :=
  forall p o, len (taken o) + len p <= room -> exists o', write p o = (Ok tt, o').

Lemma shiftl_one e : 0 <= e -> 0 < Z.shiftl 1 e.
Proof. intros. rewrite Z.shiftl_1_l. lia. Qed.

(** What is left of a reader is shorter by what was read. *)
Lemma readFull_shrinks n r s r' fuel : 0 < n -> readFull n r = (Full s, r') ->
  (String.length (rd_data r) < S fuel)%nat -> (String.length (rd_data r') < fuel)%nat.
Proof.
  intros Hn Hr Hf. apply readFull_full in Hr as (Hl & E & _); [|lia].
  assert (len (rd_data r) = n + len (rd_data r')) as Hd by (by rewrite E, len_app, Hl). unfold len in Hd. lia.
Qed.

(** ** Frames

    The specification of a stream: the plaintext cut into whole frames and a
    shorter last one, each sealed for its place. *)

Section frames.
Context `{Cipher}.

Inductive framed (dek salt : string) (exp : Z) (key : string) : Z -> string -> string -> Prop :=
| framed_last i p : len p < Z.shiftl 1 exp ->
    framed dek salt exp key i p (gcmSeal dek (salt +:+ PutUint32 i) p (frameAAD exp i true key))
| framed_more i p q fs : len p = Z.shiftl 1 exp -> framed dek salt exp key (u32 (i + 1)) q fs ->
    framed dek salt exp key i (p +:+ q)
      (gcmSeal dek (salt +:+ PutUint32 i) p (frameAAD exp i false key) +:+ fs).

Section writing_facts.
Context {W Out : Type} `{Entropy W} (write : string -> eff Out string unit) (taken : Out -> string).

Lemma writeTo_inv f p (s s' : W * Out) u : writeTo write f p s = (Ok u, s') ->
  exists o', write p s.2 = (Ok tt, o') /\ s' = (s.1, o').
Proof.
  unfold writeTo. destruct (write p s.2) as [[[]|e] o']; cbn [wrapErr]; [|done]. intros [= _ <-]. eauto.
Qed.

Lemma sealFrames_ok dek salt exp key : 0 <= exp -> appends taken write -> forall fuel i r (s s' : W * Out),
  sealFrames write fuel dek salt exp key i r s = (Ok tt, s') ->
  ended r /\ exists fs, framed dek salt exp key i (rd_data r) fs /\ taken s'.2 = taken s.2 +:+ fs.
Proof.
  intros He Hw. induction fuel as [|fuel IH]; intros i r s s'; [done|]. cbn [sealFrames].
  pose proof (shiftl_one exp He) as Hpos. destruct (readFull (Z.shiftl 1 exp) r) as [[p|p|e] r'] eqn:Er; [| |done].
  - apply readFull_full in Er as (Hl & -> & Hre); [|lia]. intros E. apply bind_inv in E as ([] & s1 & Ew & E).
    apply writeTo_inv in Ew as (o1 & Ew & ->). destruct (Z.eqb_spec i (2 ^ 32 - 1)); [done|].
    apply IH in E as (Hn & fs & Hfs & Ht). split; [unfold ended in *; by rewrite <- Hre|]. eexists. split; [by apply framed_more|].
    rewrite Ht. cbn [snd]. rewrite (Hw _ _ _ Ew). by rewrite app_string_assoc.
  - apply readFull_final in Er as (Hl & -> & Hn & ->). intros E. apply writeTo_inv in E as (o1 & Ew & ->).
    split; [done|]. eexists. split; [by apply framed_last|]. cbn [snd]. by rewrite (Hw _ _ _ Ew).
Qed.

Lemma sealFrames_fuel dek salt exp key : 0 <= exp -> forall fuel i r (s : W * Out),
  (String.length (rd_data r) < fuel)%nat -> (sealFrames write fuel dek salt exp key i r s).1 <> Err NoFuel.
Proof.
  intros He. induction fuel as [|fuel IH]; intros i r s Hf; [lia|]. cbn [sealFrames].
  pose proof (shiftl_one exp He). destruct (readFull (Z.shiftl 1 exp) r) as [[p|p|e] r'] eqn:Er; [| |done].
  - unfold mbind, eff_bind. unfold writeTo at 1. destruct (write _ s.2) as [[[]|e] o1]; cbn [wrapErr]; [|done].
    destruct (i =? 2 ^ 32 - 1); [done|]. apply IH. by eapply readFull_shrinks.
  - unfold writeTo. by destruct (write _ s.2) as [[[]|e] o1].
Qed.

(** A source that breaks off with [io.ErrUnexpectedEOF] is sealed as if it had ended. *)
Lemma sealFrames_cut dek salt exp key d : forall fuel i (s : W * Out),
  sealFrames write fuel dek salt exp key i (mkReader d (Some UnexpectedEOF)) s =
  sealFrames write fuel dek salt exp key i (mkReader d None) s.
Proof.
  intros fuel. revert d. induction fuel as [|fuel IH]; intros d i s; [done|]. cbn [sealFrames]. unfold readFull.
  cbn [rd_data rd_error]. destruct (_ <=? len d); [|done]. unfold mbind, eff_bind.
  destruct (writeTo _ _ _ s) as [[[]|e] s1]; [|done]. destruct (i =? 2 ^ 32 - 1); [done|apply IH].
Qed.

End writing_facts.

Context `{!CipherLaws}.

Section reading_facts.
Context {Out : Type} (write : string -> eff Out blob_error unit) (taken : Out -> string).

Lemma frame_len dek n p a exp : len (gcmSeal dek n p a) = Z.shiftl 1 exp + TagLen <-> len p = Z.shiftl 1 exp.
Proof. rewrite seal_len. lia. Qed.

(** Frames that open are the frames of what they open as. *)
Lemma openFrames_only dek salt exp key : 0 <= exp -> appends taken write -> forall fuel i r o o',
  openFrames write fuel dek salt exp key i r o = (Ok tt, o') ->
  rd_error r = None /\ exists p, framed dek salt exp key i p (rd_data r) /\ taken o' = taken o +:+ p.
Proof.
  intros He Hw. induction fuel as [|fuel IH]; intros i r o o'; [done|]. cbn [openFrames].
  pose proof (shiftl_one exp He). destruct (readFull (Z.shiftl 1 exp + TagLen) r) as [[c|c|e] r'] eqn:Er; [| |done].
  - apply readFull_full in Er as (Hl & -> & Hre); [|unfold TagLen; lia].
    destruct (gcmOpen _ _ _ _) as [p|] eqn:Eo; [|done]. apply open_only in Eo as ->. apply frame_len in Hl.
    intros E. apply bind_inv in E as ([] & o1 & Ew & E). apply IH in E as (Hn & q & Hq & Ht).
    split; [congruence|]. exists (p +:+ q). split; [by apply framed_more|].
    rewrite Ht, (Hw _ _ _ Ew). by rewrite app_string_assoc.
  - apply readFull_final in Er as (Hl & -> & Hn & ->). destruct (len c <? TagLen); [done|].
    destruct (gcmOpen _ _ _ _) as [p|] eqn:Eo; [|done]. apply open_only in Eo as ->. rewrite seal_len in Hl.
    intros E. apply bind_inv in E as ([] & o1 & Ew & E). cbn [rd_data rd_error] in E.
    destruct (_ || _) eqn:Ht in E; [done|]. apply orb_false_elim in Ht as [_ Ht%bool_decide_eq_false].
    split; [by destruct (rd_error r); [destruct Ht|]|]. exists p.
    split; [apply framed_last; lia|]. injection E as <-. exact (Hw _ _ _ Ew).
Qed.

(** And the frames of a plaintext open as it, where the writer has room for it. *)
Lemma openFrames_framed dek salt exp key room : 0 <= exp -> appends taken write -> accepts taken room write ->
  forall i p fs, framed dek salt exp key i p fs -> forall fuel o, (String.length fs < fuel)%nat ->
  len (taken o) + len p <= room ->
  exists o', openFrames write fuel dek salt exp key i (mkReader fs None) o = (Ok tt, o') /\ taken o' = taken o +:+ p.
Proof.
  intros He Hw Hn i p fs Hf. induction Hf as [i p Hl|i p q fs Hl Hf IH]; intros fuel o Hfuel Hr;
    (destruct fuel as [|fuel]; [lia|]); cbn [openFrames].
  - rewrite readFull_short by (first [rewrite seal_len; unfold TagLen; lia|by left]).
    destruct (Z.ltb_spec (len (gcmSeal dek (salt +:+ PutUint32 i) p (frameAAD exp i true key))) TagLen) as [Hb|_];
      [rewrite seal_len in Hb; pose proof (len_nonneg p); lia|].
    rewrite open_seal. destruct (Hn p o Hr) as [o1 E1]. exists o1. rewrite (bind_run _ _ _ _ _ E1). by rewrite (Hw _ _ _ E1).
  - pose proof (shiftl_one exp He). rewrite len_app in Hr. pose proof (len_nonneg q).
    rewrite readFull_app by (by apply frame_len). rewrite open_seal. destruct (Hn p o) as [o1 E1]; [lia|].
    rewrite (bind_run _ _ _ _ _ E1).
    pose proof (seal_len dek (salt +:+ PutUint32 i) p (frameAAD exp i false key)) as Hs.
    destruct (IH fuel o1) as (o' & E' & Ht).
    { pose proof (len_app (gcmSeal dek (salt +:+ PutUint32 i) p (frameAAD exp i false key)) fs) as La.
      unfold len, TagLen in *. lia. }
    { rewrite (Hw _ _ _ E1), len_app. lia. }
    exists o'. split; [done|]. by rewrite Ht, (Hw _ _ _ E1), app_string_assoc.
Qed.

Lemma openFrames_fuel dek salt exp key : 0 <= exp -> (forall p o, (write p o).1 <> Err NoFuel) ->
  forall fuel i r o, (String.length (rd_data r) < fuel)%nat ->
  (openFrames write fuel dek salt exp key i r o).1 <> Err NoFuel.
Proof.
  intros He Hw. induction fuel as [|fuel IH]; intros i r o Hf; [lia|]. cbn [openFrames].
  pose proof (shiftl_one exp He). destruct (readFull (Z.shiftl 1 exp + TagLen) r) as [[c|c|e] r'] eqn:Er; [| |done].
  - destruct (gcmOpen _ _ _ _) as [p|]; [|done]. unfold mbind, eff_bind. specialize (Hw p o).
    destruct (write p o) as [[[]|e] o1]; [|done]. apply IH. eapply readFull_shrinks; [|done|done]. unfold TagLen. lia.
  - destruct (len c <? TagLen); [done|]. destruct (gcmOpen _ _ _ _) as [p|]; [|done].
    unfold mbind, eff_bind. specialize (Hw p o). destruct (write p o) as [[[]|e] o1]; [|done].
    by destruct (_ || _).
Qed.

End reading_facts.
End frames.

(** ** The whole blob *)

(** The bytes of a streamed object: the fields of its header, and its frames. *)
Record streamed `{Cipher} (id wn wd sn salt : string) (exp : Z) (frames b : string) : Prop := {
  st_bytes : b = prefixOf Version2 id wn wd (len sn) +:+ sn +:+ (salt +:+ byte exp) +:+ frames;
  st_widths : widths id wn wd;
  st_name : NonceLen + TagLen <= len sn < 2 ^ 16;
  st_salt : len salt = SaltLen;
  st_exp : MinChunkExp <= exp <= MaxChunkExp
}.

Section whole.
Context `{CipherLaws}.

Lemma SealStream_ok {W Out} `{Entropy W} (write : string -> eff Out string unit) (taken : Out -> string)
    kek key sn exp r (s s' : W * Out) :
  len (k_ID kek) = KeyIDLen -> appends taken write ->
  SealStream write kek key sn exp r s = (Ok tt, s') ->
  ValidateLogicalKey key = Ok tt /\ ended r /\ len (k_Material kek) = KeyLen /\
  exists wn dek salt frames b, len dek = KeyLen /\
    streamed (k_ID kek) wn (gcmSeal (k_Material kek) wn dek (wrapAAD Version2 (k_ID kek))) sn salt exp frames b /\
    framed dek salt exp key 0 (rd_data r) frames /\ taken s'.2 = taken s.2 +:+ b.
Proof.
  intros Hid Hw E. unfold SealStream in E.
  apply bind_inv in E as ([] & s1 & E1 & E). apply lift_inv in E1 as [Ev ->].
  destruct (_ || _) eqn:He; [done|]. apply orb_false_elim in He as [He1%Z.ltb_ge He2%Z.ltb_ge].
  apply bind_inv in E as (kg & s2 & E1 & E). apply lift_inv in E1 as [Ek ->]. apply newGCM_ok in Ek as [-> Hk].
  destruct (_ || _) eqn:Hn; [done|]. apply orb_false_elim in Hn as [Hn1%Z.ltb_ge Hn2%Z.ltb_ge].
  apply bind_inv in E as (dek & s3 & E1 & E). pose proof (readRand_len _ _ _ _ _ E1) as Hd.
  apply bind_inv in E as (wn & s4 & E2 & E). pose proof (readRand_len _ _ _ _ _ E2) as Hwn.
  apply bind_inv in E as (salt & s5 & E3 & E). pose proof (readRand_len _ _ _ _ _ E3) as Hs.
  apply bind_inv in E as ([] & s6 & E4 & E). apply writeTo_inv in E4 as (o1 & E4 & ->).
  apply bind_inv in E as (dg & s7 & E5 & E). apply lift_inv in E5 as [Ed ->]. apply newGCM_ok in Ed as [-> _].
  apply (sealFrames_ok _ taken) in E as (Hr & fs & Hfs & Ht); [|unfold MinChunkExp in *; lia|done].
  split_and!; [by destruct (ValidateLogicalKey key) as [[]|]|done|done|].
  exists wn, dek, salt, fs. eexists. split_and!; [done| |done|].
  - split; [reflexivity| |lia|done|done]. split_and!; [done|done|]. by rewrite seal_len, Hd.
  - rewrite Ht. cbn [snd]. rewrite (Hw _ _ _ E4).
    assert (taken s5.2 = taken s.2) as Es
      by (by rewrite (readRand_beside _ _ _ _ _ E3), (readRand_beside _ _ _ _ _ E2), (readRand_beside _ _ _ _ _ E1)).
    rewrite Es, !app_string_assoc. done.
Qed.

Lemma byteAt_salt salt exp : len salt = SaltLen -> 0 <= exp < 256 ->
  slice (salt +:+ byte exp) 0 SaltLen = salt /\ byteAt (salt +:+ byte exp) SaltLen = exp.
Proof.
  intros Hs He. split; [by apply slice_first|]. rewrite byteAt_app_r, Hs, Z.sub_diag by lia.
  rewrite <- (app_string_nil_r (byte exp)). by apply byteAt_byte.
Qed.

(** Only the wrap and the body of a version-2 header matter. *)
Lemma OpenStream_v2 {Out} (write : string -> eff Out blob_error unit) lookup key b h e o :
  ParseHeader b = Ok h -> h_Version h = Version2 ->
  OpenStream write lookup key (mkReader b e) o = openChunked write lookup key h (mkReader (h_Body h) e) o.
Proof.
  intros [Eb Hw Hk Hn Hbody Ho]%ParseHeader_spec Hv. rewrite Hv in *.
  destruct (prefix_fields Version2 (h_KeyID h) (h_WrapNonce h) (h_WrappedDEK h) (len (h_SealedName h)) "" Hw
    ltac:(unfold Version2; lia) ltac:(unfold NonceLen, TagLen in *; lia)) as (_ & F2 & _ & _ & _ & F6 & _).
  rewrite app_string_nil_r in F2, F6. unfold OpenStream. rewrite Eb.
  rewrite readFull_app by (by apply len_prefixOf). rewrite F6, F2. change (Version2 =? Version) with false.
  destruct (Z.ltb_spec (len (h_SealedName h)) (NonceLen + TagLen)); [lia|]. rewrite readFull_app by done.
  set (h0 := mkHeader Version2 (h_KeyID h) (h_WrapNonce h) (h_WrappedDEK h) (h_SealedName h) "" (h_BodyOffset h)).
  assert (ParseHeader (prefixOf Version2 (h_KeyID h) (h_WrapNonce h) (h_WrappedDEK h) (len (h_SealedName h)) +:+ h_SealedName h)
    = Ok h0) as ->.
  { apply ParseHeader_spec. split; try done. unfold h0. cbn. by rewrite app_string_nil_r. }
  rewrite bind_lift. unfold openChunked, unwrapHeader. cbn [h_Version h_KeyID h_WrapNonce h_WrappedDEK h0]. by rewrite Hv.
Qed.

Lemma streamed_header id wn wd sn salt exp frames b : streamed id wn wd sn salt exp frames b ->
  ParseHeader b = Ok (mkHeader Version2 id wn wd sn ((salt +:+ byte exp) +:+ frames) (HeaderLen + len sn)).
Proof. intros [-> Hw Hn Hs He]. apply ParseHeader_spec. by split. Qed.

Lemma OpenStream_streamed {Out} (write : string -> eff Out blob_error unit) lookup key id wn wd sn salt exp frames b e o :
  streamed id wn wd sn salt exp frames b ->
  OpenStream write lookup key (mkReader b e) o =
    (dek ← lift (unwrap Version2 id wn wd lookup);
     dekGCM ← lift (newGCM dek);
     openFrames write (S (String.length frames)) dekGCM salt exp key 0 (mkReader frames e)) o.
Proof.
  intros Hst. rewrite (OpenStream_v2 _ _ _ _ _ _ _ (streamed_header _ _ _ _ _ _ _ _ Hst) eq_refl).
  destruct Hst as [-> Hw Hn Hs He]. unfold openChunked, unwrapHeader.
  cbn [h_Version h_KeyID h_WrapNonce h_WrappedDEK h_Body].
  rewrite readFull_app by (unfold byte; rewrite len_app, len_of_bytes, Hs; done).
  destruct (byteAt_salt salt exp Hs ltac:(unfold MinChunkExp, MaxChunkExp in *; lia)) as [-> ->].
  destruct (Z.ltb_spec exp MinChunkExp); [lia|]. by destruct (Z.ltb_spec MaxChunkExp exp); [lia|].
Qed.

(** A stream that opens, outside version 1, is the bytes of a streamed object. *)
Lemma OpenStream_inv {Out} (write : string -> eff Out blob_error unit) lookup key b e o o' :
  OpenStream write lookup key (mkReader b e) o = (Ok tt, o') -> byteAt b offVersion <> Version ->
  exists id wn wd sn salt exp frames, streamed id wn wd sn salt exp frames b.
Proof.
  unfold OpenStream. intros E Hv.
  destruct (readFull HeaderLen _) as [[prefix|?|?] r1] eqn:E1; [|done|done].
  apply readFull_full in E1 as (Hl1 & D1 & _); [|done]. cbn [rd_data] in D1.
  destruct (Z.ltb_spec (Uint16 (after prefix offNameLen)) (NonceLen + TagLen)) as [|Hn]; [done|].
  destruct (readFull (Uint16 _) _) as [[rest|?|?] r2] eqn:E2; [|done|done].
  apply readFull_full in E2 as (Hl2 & D2 & _); [|unfold NonceLen, TagLen in *; lia].
  assert (byteAt prefix offVersion = byteAt b offVersion) as Eb.
  { rewrite D1, byteAt_app_l; [done|]. unfold offVersion, HeaderLen in *. lia. }
  rewrite Eb in E. destruct (Z.eqb_spec (byteAt b offVersion) Version); [done|].
  apply bind_inv in E as (h & o1 & E3 & E). apply lift_inv in E3 as [Ep ->].
  apply ParseHeader_spec in Ep as [Pb Pw Pk Pn Pbody Po].
  set (P := prefixOf (h_Version h) (h_KeyID h) (h_WrapNonce h) (h_WrappedDEK h) (len (h_SealedName h))) in *.
  assert (len P = HeaderLen) as HlP by (by apply len_prefixOf).
  assert (prefix = P) as ->.
  { rewrite <- (slice_first prefix rest HeaderLen Hl1), Pb. by apply slice_first. }
  assert (rest = h_SealedName h +:+ h_Body h) as Er.
  { rewrite <- (after_app P rest HeaderLen HlP), Pb. by apply after_app. }
  destruct (prefix_fields (h_Version h) (h_KeyID h) (h_WrapNonce h) (h_WrappedDEK h) (len (h_SealedName h)) "" Pw
    (known_byte _ Pk) ltac:(unfold NonceLen, TagLen in *; lia)) as (_ & F2 & _ & _ & _ & F6 & _).
  rewrite app_string_nil_r in F2, F6. fold P in F2, F6. rewrite F6 in Hl2.
  assert (h_Version h = Version2) as Ev.
  { unfold known in Pk. rewrite <- F2 in *. rewrite Eb in *. lia. }
  assert (rest = h_SealedName h) as Er'.
  { rewrite Er. assert (len (h_Body h) = 0) as Hb by (rewrite Er, len_app in Hl2; lia).
    destruct (h_Body h); [by rewrite app_string_nil_r|]. unfold len in Hb. cbn in Hb. lia. }
  unfold openChunked in E.
  destruct (readFull (SaltLen + 1) r2) as [[tail|?|?] r3] eqn:E3; [|done|done].
  apply readFull_full in E3 as (Hl3 & D3 & _); [|done].
  destruct (_ || _) eqn:He; [done|]. apply orb_false_elim in He as [He1%Z.ltb_ge He2%Z.ltb_ge].
  exists (h_KeyID h), (h_WrapNonce h), (h_WrappedDEK h), (h_SealedName h), (slice tail 0 SaltLen),
    (byteAt tail SaltLen), (rd_data r3).
  split; [|done|done|rewrite len_slice; unfold SaltLen in *; lia|done].
  assert (slice tail 0 SaltLen +:+ byte (byteAt tail SaltLen) = tail) as ->.
  { rewrite <- (split_at tail SaltLen) at 3 by done. f_equal.
    rewrite <- (split_at tail SaltLen) at 1 by done. rewrite byteAt_app_r by (rewrite len_slice; unfold SaltLen in *; lia).
    rewrite len_slice by (unfold SaltLen in *; lia). change (SaltLen - (SaltLen - 0)) with 0.
    apply byte_byteAt. rewrite len_after; unfold SaltLen in *; lia. }
  rewrite D1, D2, D3, Er'. unfold P. by rewrite Ev.
Qed.

End whole.

(** ** Two writers, two versions *)

(** A writer that keeps everything. *)
Definition collect {E} (p : string) : eff string E unit := fun o => (Ok tt, o +:+ p).

Lemma collect_appends {E} : appends id (@collect E).
Proof. by intros p o o' [= <-]. Qed.

Lemma collect_accepts {E} room : accepts id room (@collect E).
Proof. intros p o _. by eexists. Qed.

Lemma capped_appends limit : appends id (cappedWrite limit).
Proof. intros p o o'. unfold cappedWrite. destruct (_ <? _); [done|]. by intros [= <-]. Qed.

Lemma capped_accepts limit : accepts id limit (cappedWrite limit).
Proof.
  intros p o Hl. unfold id in Hl. unfold cappedWrite. destruct (Z.ltb_spec limit (len o + len p)); [lia|]. by eexists.
Qed.

Lemma capped_within limit p o o' : cappedWrite limit p o = (Ok tt, o') -> len o' <= limit.
Proof. unfold cappedWrite. destruct (Z.ltb_spec limit (len o + len p)); [done|]. intros [= <-]. by rewrite len_app. Qed.

Section versions.
Context `{CipherLaws}.

(** What a stream gives to one writer it gives to any other with room for it. *)
Lemma OpenStream_any_writer {Out1 Out2} (w1 : string -> eff Out1 blob_error unit) (w2 : string -> eff Out2 blob_error unit)
    t1 t2 room lookup key b o1 o1' o2 p :
  appends t1 w1 -> appends t2 w2 -> accepts t2 room w2 -> byteAt b offVersion <> Version ->
  OpenStream w1 lookup key (mkReader b None) o1 = (Ok tt, o1') -> t1 o1' = t1 o1 +:+ p -> len (t2 o2) + len p <= room ->
  exists o2', OpenStream w2 lookup key (mkReader b None) o2 = (Ok tt, o2') /\ t2 o2' = t2 o2 +:+ p.
Proof.
  intros H1 H2 Ha Hv E Ht Hr.
  destruct (OpenStream_inv _ _ _ _ _ _ _ E Hv) as (id & wn & wd & sn & salt & exp & fs & Hst).
  rewrite (OpenStream_streamed _ _ _ _ _ _ _ _ _ _ _ _ _ Hst) in E.
  rewrite (OpenStream_streamed _ _ _ _ _ _ _ _ _ _ _ _ _ Hst).
  apply bind_inv in E as (dek & s1 & E1 & E). apply lift_inv in E1 as [Eu ->].
  apply bind_inv in E as (dg & s2 & E2 & E). apply lift_inv in E2 as [Ed ->].
  rewrite Eu, bind_lift, Ed, bind_lift. pose proof (st_exp _ _ _ _ _ _ _ _ Hst) as He.
  apply (openFrames_only _ t1) in E as (_ & q & Hq & Eq); [|unfold MinChunkExp in *; lia|done].
  cbn [rd_data] in Hq. assert (q = p) as -> by (rewrite Ht in Eq; by apply app_string_inj in Eq).
  eapply openFrames_framed; [unfold MinChunkExp in *; lia|done|done|done|lia|done].
Qed.

(** A version-1 blob streams as its one body. *)
Lemma OpenStream_v1 {Out} (write : string -> eff Out blob_error unit) lookup key b h o :
  ParseHeader b = Ok h -> h_Version h = Version -> len (h_Body h) <= MaxPlaintext + NonceLen + TagLen + 1 ->
  OpenStream write lookup key (mkReader b None) o = (plaintext ← lift (openBody lookup key h); write plaintext) o.
Proof.
  intros Hp Hv Hb. pose proof Hp as Hp'. apply ParseHeader_spec in Hp' as [Eb Hw Hk Hn Hbody Ho]. rewrite Hv in *.
  destruct (prefix_fields Version (h_KeyID h) (h_WrapNonce h) (h_WrappedDEK h) (len (h_SealedName h)) "" Hw
    ltac:(unfold Version; lia) ltac:(unfold NonceLen, TagLen in *; lia)) as (_ & F2 & _ & _ & _ & F6 & _).
  rewrite app_string_nil_r in F2, F6. unfold OpenStream. rewrite Eb.
  rewrite readFull_app by (by apply len_prefixOf). rewrite F6, F2. change (Version =? Version) with true.
  destruct (Z.ltb_spec (len (h_SealedName h)) (NonceLen + TagLen)); [lia|]. rewrite readFull_app by done.
  unfold readAtMost. cbn [rd_data rd_error]. destruct (Z.ltb_spec (MaxPlaintext + NonceLen + TagLen + 1) (len (h_Body h))); [lia|].
  rewrite bind_lift. cbv beta. rewrite <- Eb. unfold openBuffered. rewrite Hp. reflexivity.
Qed.

(** [Open] reads either version into a buffer of its own. *)
Lemma Open_versions lookup key b p : Open lookup key b = Ok p <->
  exists h, ParseHeader b = Ok h /\
    ((h_Version h = Version /\ openBody lookup key h = Ok p) \/
     (h_Version h = Version2 /\ OpenStream (cappedWrite MaxPlaintext) lookup key (mkReader b None) "" = (Ok tt, p))).
Proof.
  unfold Open. rewrite bind_ok. apply exist_proper. intros h. split; (intros [Hp E]; split; [done|]).
  - apply ParseHeader_spec in Hp as [_ _ Hk _ _ _]. unfold known in Hk.
    destruct (Z.eqb_spec (h_Version h) Version2) as [Ev|Ev]; [right|left; split; [lia|done]].
    split; [done|]. destruct (OpenStream _ _ _ _ _) as [[[]|e] out]; [|done]. by injection E as ->.
  - destruct E as [[Ev E]|[Ev E]]; rewrite Ev; [done|]. change (Version2 =? Version2) with true. by rewrite E.
Qed.

Lemma not_v1 b h : ParseHeader b = Ok h -> h_Version h = Version2 -> byteAt b offVersion <> Version.
Proof.
  intros [Eb Hw Hk Hn _ _]%ParseHeader_spec Hv.
  destruct (prefix_fields (h_Version h) (h_KeyID h) (h_WrapNonce h) (h_WrappedDEK h) (len (h_SealedName h))
    (h_SealedName h +:+ h_Body h) Hw (known_byte _ Hk) ltac:(unfold NonceLen, TagLen in *; lia)) as (_ & F2 & _).
  rewrite Eb, F2, Hv. done.
Qed.

(** A stream of version 1 that opens parses as one. *)
Lemma v1_parses lookup key b p o : OpenStream collect lookup key (mkReader b None) o = (Ok tt, p) ->
  byteAt b offVersion = Version -> exists h, ParseHeader b = Ok h /\ h_Version h = Version.
Proof.
  unfold OpenStream. intros E Hv.
  destruct (readFull HeaderLen _) as [[prefix|?|?] r1] eqn:E1; [|done|done].
  apply readFull_full in E1 as (Hl1 & D1 & X1); [|done]. cbn [rd_data] in D1.
  destruct (Z.ltb_spec (Uint16 (after prefix offNameLen)) (NonceLen + TagLen)) as [|Hn]; [done|].
  destruct (readFull (Uint16 _) _) as [[rest|?|?] r2] eqn:E2; [|done|done].
  apply readFull_full in E2 as (Hl2 & D2 & X2); [|unfold NonceLen, TagLen in *; lia].
  assert (byteAt prefix offVersion = byteAt b offVersion) as Eb.
  { rewrite D1, byteAt_app_l; [done|]. unfold offVersion, HeaderLen in *. lia. }
  rewrite Eb, Hv in E. change (Version =? Version) with true in E.
  apply bind_inv in E as (body & o1 & E3 & E). apply lift_inv in E3 as [Er ->].
  unfold readAtMost in Er. destruct (_ <? _); [done|]. rewrite X2, X1 in Er. cbn in Er. injection Er as <-.
  rewrite <- D2, <- D1 in E. unfold openBuffered in E.
  destruct (ParseHeader b) as [h|e] eqn:Ep; [|done]. exists h. split; [done|].
  apply ParseHeader_spec in Ep as [Pb Pw Pk Pn _ _].
  destruct (prefix_fields (h_Version h) (h_KeyID h) (h_WrapNonce h) (h_WrappedDEK h) (len (h_SealedName h))
    (h_SealedName h +:+ h_Body h) Pw (known_byte _ Pk) ltac:(unfold NonceLen, TagLen in *; lia)) as (_ & F2 & _).
  rewrite <- Pb in F2. congruence.
Qed.

(** A streamed object opens as its plaintext under its key. *)
Lemma streamed_opens {Out} (read : string -> eff Out blob_error unit) taken room lookup id material wn dek sn salt exp
    frames b key data o :
  appends taken read -> accepts taken room read -> lookup id = Some material -> len material = KeyLen ->
  len dek = KeyLen -> streamed id wn (gcmSeal material wn dek (wrapAAD Version2 id)) sn salt exp frames b ->
  framed dek salt exp key 0 data frames -> len (taken o) + len data <= room ->
  exists o', OpenStream read lookup key (mkReader b None) o = (Ok tt, o') /\ taken o' = taken o +:+ data.
Proof.
  intros Hr Ha Hl Hm Hd Hst Hf Hroom. pose proof (st_exp _ _ _ _ _ _ _ _ Hst) as He.
  assert (unwrap Version2 id wn (gcmSeal material wn dek (wrapAAD Version2 id)) lookup = Ok dek) as Hu
    by (apply unwrap_spec; by exists material).
  rewrite (OpenStream_streamed _ _ _ _ _ _ _ _ _ _ _ _ _ Hst), Hu, bind_lift.
  rewrite (proj2 (newGCM_ok dek dek)), bind_lift by done.
  eapply openFrames_framed; [unfold MinChunkExp in *; lia|done|done|done|lia|done].
Qed.

Lemma streamed_Open lookup id material wn dek sn salt exp frames b key data : lookup id = Some material ->
  len material = KeyLen -> len dek = KeyLen ->
  streamed id wn (gcmSeal material wn dek (wrapAAD Version2 id)) sn salt exp frames b ->
  framed dek salt exp key 0 data frames -> len data <= MaxPlaintext -> Open lookup key b = Ok data.
Proof.
  intros Hl Hm Hd Hst Hf Hroom. apply Open_versions.
  eexists. split; [by apply (streamed_header _ _ _ _ _ _ _ _ Hst)|right; split; [done|]].
  destruct (streamed_opens (cappedWrite MaxPlaintext) Datatypes.id MaxPlaintext lookup id material wn dek sn salt exp frames b key
    data "") as (o' & -> & Eo); try done; [apply capped_appends|apply capped_accepts|].
  unfold Datatypes.id in Eo. by rewrite Eo, nil_app.
Qed.

(** What opens was read to its end: a stream cut short by its reader does not. *)
Lemma OpenStream_prefix lookup id material wn dek sn salt exp frames b key data d e out :
  lookup id = Some material -> len material = KeyLen -> len dek = KeyLen ->
  streamed id wn (gcmSeal material wn dek (wrapAAD Version2 id)) sn salt exp frames b ->
  framed dek salt exp key 0 data frames -> (exists rest, b = d +:+ rest) -> (e = None -> d = b) ->
  OpenStream collect lookup key (mkReader d e) "" = (Ok tt, out) -> out = data.
Proof.
  intros Hl Hm Hd Hst Hf [rest Hb] He E.
  assert (HeaderLen <= len d) as Hlen.
  { unfold OpenStream in E. destruct (readFull HeaderLen (mkReader d e)) as [[s|s|x] r] eqn:Er; [|done|done].
    apply readFull_full in Er as (Hs & Ed & _); [|done]. cbn in Ed. rewrite Ed, len_app, Hs. pose proof (len_nonneg (rd_data r)). lia. }
  assert (byteAt d offVersion <> Version) as Hv.
  { rewrite <- (byteAt_app_l d rest) by (unfold offVersion, HeaderLen in *; lia). rewrite <- Hb.
    by eapply not_v1; [apply (streamed_header _ _ _ _ _ _ _ _ Hst)|]. }
  destruct (OpenStream_inv _ _ _ _ _ _ _ E Hv) as (id' & wn' & wd' & sn' & salt' & exp' & fs' & Hst').
  pose proof E as E'. rewrite (OpenStream_streamed _ _ _ _ _ _ _ _ _ _ _ _ _ Hst') in E'.
  apply bind_inv in E' as (dek' & s1 & E1 & E'). apply lift_inv in E1 as [_ ->].
  apply bind_inv in E' as (dg & s2 & E1 & E'). apply lift_inv in E1 as [_ ->].
  apply (openFrames_only _ Datatypes.id) in E' as [Hn _];
    [|pose proof (st_exp _ _ _ _ _ _ _ _ Hst'); unfold MinChunkExp in *; lia|apply collect_appends].
  cbn in Hn. subst e. rewrite (He eq_refl) in E.
  destruct (streamed_opens (@collect blob_error) Datatypes.id (len data) lookup id material wn dek sn salt exp frames b key
    data "") as (o' & Eo & Ho); try done; [apply collect_appends|apply collect_accepts|].
  rewrite Eo in E. injection E as <-. by rewrite nil_app in Ho.
Qed.

(** ** Rewrapping *)

Lemma openChunked_wrap {Out} (write : string -> eff Out blob_error unit) lookup lookup' key h h' r o :
  unwrapHeader h lookup = unwrapHeader h' lookup' ->
  openChunked write lookup key h r o = openChunked write lookup' key h' r o.
Proof. intros E. unfold openChunked. by rewrite E. Qed.

(** Whatever the version, an object opens after a new wrap as it did before. *)
Lemma Open_rewrapped lookup lookup' key b b' h kek nonce dek : parses b h -> parses b' (rewrapped h kek nonce dek) ->
  wrapsTo lookup (h_Version h) (h_KeyID h) (h_WrapNonce h) (h_WrappedDEK h) dek ->
  lookup' (k_ID kek) = Some (k_Material kek) -> len (k_Material kek) = KeyLen ->
  Open lookup' key b' = Open lookup key b.
Proof.
  intros Hp Hp' Hw Hl Hm. apply ParseHeader_spec in Hp as Ep. apply ParseHeader_spec in Hp' as Ep'.
  assert (unwrapHeader (rewrapped h kek nonce dek) lookup' = unwrapHeader h lookup) as Eu.
  { unfold unwrapHeader. rewrite (proj2 (unwrap_spec _ _ _ _ _ dek) Hw). apply unwrap_spec.
    exists (k_Material kek). by split_and!. }
  unfold Open. rewrite Ep, Ep'. cbn [mbind result_bind]. change (h_Version (rewrapped h kek nonce dek)) with (h_Version h).
  destruct (Z.eqb_spec (h_Version h) Version2) as [Ev|].
  - rewrite (OpenStream_v2 _ _ _ _ _ _ _ Ep Ev), (OpenStream_v2 _ _ _ _ _ _ _ Ep' Ev).
    by rewrite (openChunked_wrap _ _ _ _ _ _ _ _ Eu).
  - unfold openBody. by rewrite Eu.
Qed.

(** The last frame is short: frames are never a whole number of full ones. *)
Lemma framed_len dek salt exp key i p fs : 0 <= exp -> framed dek salt exp key i p fs ->
  TagLen <= len fs mod (Z.shiftl 1 exp + TagLen).
Proof.
  intros He. pose proof (shiftl_one exp He) as Hp. induction 1 as [i p Hl|i p q fs Hl Hf IH].
  - rewrite seal_len. pose proof (len_nonneg p). rewrite Z.mod_small by (unfold TagLen; lia). lia.
  - rewrite len_app, seal_len, Hl. rewrite <- Z.add_mod_idemp_l by (unfold TagLen; lia).
    by rewrite Z.mod_same, Z.add_0_l by (unfold TagLen; lia).
Qed.

End versions.

(** ** Fuel *)

Section fuel.
Context `{Cipher}.

Lemma bind_fuel {S A B} (m : eff S blob_error A) (f : A -> eff S blob_error B) s :
  (m s).1 <> Err NoFuel -> (forall a s', (f a s').1 <> Err NoFuel) -> ((m ≫= f) s).1 <> Err NoFuel.
Proof. intros Hm Hf. unfold mbind, eff_bind. destruct (m s) as [[a|e] s1]; [apply Hf|]. intros [= ->]. by apply Hm. Qed.

Lemma newGCM_fuel {S} k (s : S) : (lift (newGCM k) s).1 <> Err NoFuel.
Proof. unfold lift, newGCM. cbn. by destruct (negb _). Qed.

Lemma wrapE_fuel {X A S} (f : X -> blob_error) (x : result X A) (s : S) : (forall e, f e <> NoFuel) ->
  (lift (wrapErr f x) s).1 <> Err NoFuel.
Proof. intros Hf. destruct x as [a|e]; [done|]. cbn. intros [= Ee]. by apply (Hf e). Qed.

Lemma readRand_fuel {W} `{Entropy W} n f (w : W) : (forall e, f e <> NoFuel) -> (readRand n f w).1 <> Err NoFuel.
Proof.
  intros Hf. unfold readRand. apply bind_fuel; [unfold try; by destruct (ReadFull n w)|]. intros. by apply wrapE_fuel.
Qed.

Lemma ParseHeader_fuel {S} b (s : S) : (lift (ParseHeader b) s).1 <> Err NoFuel.
Proof. unfold lift, ParseHeader. cbn. repeat case_match; done. Qed.

Lemma unwrap_fuel {S} v id wn wd lookup (s : S) : (lift (unwrap v id wn wd lookup) s).1 <> Err NoFuel.
Proof.
  unfold lift, unwrap, newGCM. cbn. destruct (lookup id); [|done]. destruct (negb _); cbn; [done|]. by destruct (gcmOpen _ _ _ _).
Qed.

Lemma openBody_fuel lookup key h : openBody lookup key h <> Err NoFuel.
Proof.
  unfold openBody. pose proof (unwrap_fuel (h_Version h) (h_KeyID h) (h_WrapNonce h) (h_WrappedDEK h) lookup tt) as Hu.
  unfold unwrapHeader. unfold lift in Hu. cbn in Hu. destruct (unwrap _ _ _ _ _) as [dek|e]; cbn [mbind result_bind]; [|congruence].
  unfold newGCM. destruct (negb _); cbn [mbind result_bind]; [done|]. by destruct (gcmOpen _ _ _ _).
Qed.

Lemma SealStream_fuel {W Out} `{Entropy W} (write : string -> eff Out string unit) kek key sn exp r (s : W * Out) :
  (SealStream write kek key sn exp r s).1 <> Err NoFuel.
Proof.
  unfold SealStream. apply bind_fuel; [by apply wrapE_fuel|]. intros _ s1.
  destruct (_ || _) eqn:He; [done|]. apply orb_false_elim in He as [He1%Z.ltb_ge _].
  apply bind_fuel; [apply newGCM_fuel|]. intros kg s2. destruct (_ || _); [done|].
  do 3 (apply bind_fuel; [by apply readRand_fuel|]; intros ? ?).
  apply bind_fuel; [unfold writeTo; by destruct (write _ _) as [[]]|]. intros _ ?.
  apply bind_fuel; [apply newGCM_fuel|]. intros ? ?. apply sealFrames_fuel; [unfold MinChunkExp in *; lia|lia].
Qed.

Lemma OpenStream_fuel {Out} (write : string -> eff Out blob_error unit) lookup key r (o : Out) :
  (forall p o, (write p o).1 <> Err NoFuel) -> (OpenStream write lookup key r o).1 <> Err NoFuel.
Proof.
  intros Hw. unfold OpenStream. destruct (readFull _ _) as [[prefix|?|?] r1]; [|done|done].
  destruct (_ <? _); [done|]. destruct (readFull _ _) as [[rest|?|?] r2]; [|done|done].
  destruct (_ =? _).
  - apply bind_fuel; [unfold readAtMost, lift; cbn; destruct (_ <? _); [done|]; by destruct (rd_error r2)|].
    intros body s1. apply bind_fuel; [|intros; apply Hw]. unfold lift, openBuffered. cbn.
    pose proof (ParseHeader_fuel (prefix +:+ rest +:+ body) tt) as Hp. unfold lift in Hp. cbn in Hp.
    destruct (ParseHeader _) as [h|e]; cbn; [apply openBody_fuel|congruence].
  - apply bind_fuel; [apply ParseHeader_fuel|]. intros h s1. unfold openChunked.
    destruct (readFull (SaltLen + 1) r2) as [[tail|?|?] r3]; [|done|done].
    destruct (_ || _) eqn:He; [done|]. apply orb_false_elim in He as [He1%Z.ltb_ge _].
    apply bind_fuel; [apply unwrap_fuel|]. intros dek s2. apply bind_fuel; [apply newGCM_fuel|]. intros dg s3.
    apply openFrames_fuel; [unfold MinChunkExp in *; lia|done|lia].
Qed.

End fuel.

(** ** Properties *)

(** What is streamed in is streamed out: the blob [SealStream] writes, opened
    for its key under its key-encryption key, is the plaintext, of any length, and
    nothing else; and [Open] gives the same when it fits the buffered limit. *)
Theorem stream_roundtrip `{CipherLaws} {W Out Out'} `{Entropy W} (write : string -> eff Out string unit)
    (read : string -> eff Out' blob_error unit) taken taken' kek key sn exp data (w : W) (o : Out) s' o1 lookup :
  appends taken write -> appends taken' read -> (forall room, accepts taken' room read) ->
  len (k_ID kek) = KeyIDLen -> lookup (k_ID kek) = Some (k_Material kek) -> taken o = "" ->
  SealStream write kek key sn exp (mkReader data None) (w, o) = (Ok tt, s') ->
  let blob := taken s'.2 in
  (exists o', OpenStream read lookup key (mkReader blob None) o1 = (Ok tt, o') /\ taken' o' = taken' o1 +:+ data) /\
  (len data <= MaxPlaintext -> Open lookup key blob = Ok data).
Proof.
  intros Hw Hr Ha Hid Hl Ho E.
  apply (SealStream_ok _ taken) in E as (_ & _ & Hk & wn & dek & salt & fs & b & Hd & Hst & Hf & Ht); [|done..].
  cbn [snd rd_data] in *. rewrite Ho, nil_app in Ht. cbv zeta. rewrite Ht. split.
  - by eapply (streamed_opens read taken' (len (taken' o1) + len data)).
  - intros Hm. by eapply streamed_Open.
Qed.

(** C33: a damaged stream is not an object: what opens outside version 1 is, byte for
    byte, a header whose data key is wrapped under a key the keyring holds and the
    frames of exactly the plaintext given out, in order, for that logical key, up to
    the last; so an object cut where a frame ends does not open. *)
Theorem opened_streams_were_sealed `{CipherLaws} {Out} (write : string -> eff Out blob_error unit) taken lookup key b o o' :
  appends taken write -> byteAt b offVersion <> Version ->
  OpenStream write lookup key (mkReader b None) o = (Ok tt, o') ->
  exists id material wn sn salt exp dek frames p,
    lookup id = Some material /\ len dek = KeyLen /\
    streamed id wn (gcmSeal material wn dek (wrapAAD Version2 id)) sn salt exp frames b /\
    framed dek salt exp key 0 p frames /\ taken o' = taken o +:+ p /\
    TagLen <= len frames mod (Z.shiftl 1 exp + TagLen).
Proof.
  intros Hw Hv E. destruct (OpenStream_inv _ _ _ _ _ _ _ E Hv) as (id & wn & wd & sn & salt & exp & fs & Hst).
  rewrite (OpenStream_streamed _ _ _ _ _ _ _ _ _ _ _ _ _ Hst) in E.
  apply bind_inv in E as (dek & s1 & E1 & E). apply lift_inv in E1 as [Eu ->].
  apply bind_inv in E as (dg & s2 & E2 & E). apply lift_inv in E2 as [Ed ->].
  apply newGCM_ok in Ed as [-> Hd]. apply unwrap_spec in Eu as (m & Hm & _ & ->).
  pose proof (st_exp _ _ _ _ _ _ _ _ Hst) as He. assert (0 <= exp) as He' by (unfold MinChunkExp in *; lia).
  apply (openFrames_only _ taken) in E as (_ & p & Hp & Ht); [|done|done]. cbn [rd_data] in Hp.
  exists id, m, wn, sn, salt, exp, dek, fs, p. split_and!; try done. by eapply framed_len.
Qed.

(** C10: streaming always ends: whatever is read and wherever it is written, sealing
    and opening a stream finish within one frame more than there are bytes; neither
    ever runs out of fuel. *)
Theorem streams_terminate `{Cipher} {W Out Out'} `{Entropy W} (write : string -> eff Out string unit)
    (read : string -> eff Out' blob_error unit) kek key sn exp r r' (s : W * Out) lookup (o : Out') :
  (forall p o, (read p o).1 <> Err NoFuel) ->
  (SealStream write kek key sn exp r s).1 <> Err NoFuel /\ (OpenStream read lookup key r' o).1 <> Err NoFuel.
Proof.
  intros Hr. split; [apply SealStream_fuel|by apply OpenStream_fuel].
Qed.

(** The two readers agree: an object [Open] gives, [OpenStream] gives, and one
    [OpenStream] gives that fits the buffered limit, [Open] gives; a version-1 object
    is held to that limit. *)
Theorem open_agrees_with_stream `{CipherLaws} lookup key b p :
  (forall h, ParseHeader b = Ok h -> h_Version h = Version -> len (h_Body h) <= MaxPlaintext + NonceLen + TagLen) ->
  len p <= MaxPlaintext ->
  Open lookup key b = Ok p <-> OpenStream collect lookup key (mkReader b None) "" = (Ok tt, p).
Proof.
  intros Hb Hl. rewrite Open_versions. split.
  - intros (h & Hp & [[Hv E]|[Hv E]]).
    + rewrite (OpenStream_v1 _ _ _ _ _ _ Hp Hv) by (specialize (Hb _ Hp Hv); lia). rewrite bind_lift, E.
      unfold collect. by rewrite nil_app.
    + destruct (OpenStream_any_writer (cappedWrite MaxPlaintext) (@collect blob_error) id id MaxPlaintext
        lookup key b "" p "" p) as (o2 & E2 & Ho); try done;
        [apply capped_appends|apply collect_appends|apply collect_accepts|by eapply not_v1|].
      unfold id in Ho. rewrite nil_app in Ho. by subst o2.
  - intros E. destruct (decide (byteAt b offVersion = Version)) as [Ev|Ev].
    + destruct (v1_parses _ _ _ _ _ E Ev) as (h & Hp & Hv). exists h. split; [done|left; split; [done|]].
      rewrite (OpenStream_v1 _ _ _ _ _ _ Hp Hv) in E by (specialize (Hb _ Hp Hv); lia). rewrite bind_lift in E.
      destruct (openBody lookup key h); [|done]. unfold collect in E. rewrite nil_app in E. by injection E as ->.
    + destruct (OpenStream_inv _ _ _ _ _ _ _ E Ev) as (? & ? & ? & ? & ? & ? & ? & Hst).
      eexists. split; [by apply (streamed_header _ _ _ _ _ _ _ _ Hst)|right; split; [done|]].
      destruct (OpenStream_any_writer (@collect blob_error) (cappedWrite MaxPlaintext) id id MaxPlaintext
        lookup key b "" p "" p) as (o2 & E2 & Ho); try done;
        [apply collect_appends|apply capped_appends|apply capped_accepts|].
      unfold id in Ho. rewrite nil_app in Ho. by subst o2.
Qed.

(** A truncated source makes the object of what it yielded: nothing tells the caller, or a reader of the object, that it
    broke off. *)
Theorem a_cut_source_is_sealed_as_whole `{Cipher} {W Out} `{Entropy W} (write : string -> eff Out string unit)
    kek key sn exp data (s : W * Out) :
  SealStream write kek key sn exp (mkReader data (Some UnexpectedEOF)) s =
  SealStream write kek key sn exp (mkReader data None) s.
Proof.
  unfold SealStream, mbind, eff_bind.
  repeat first [done | rewrite sealFrames_cut | match goal with |- context [match ?x with _ => _ end] => destruct x end].
Qed.

(** *** Witnesses *)

Definition exName : string := repeated 60 "s".
Definition exStreamed : result blob_error unit * (nat * string) :=
  SealStream collect exKEK "app/state" exName 16 (mkReader "hello" None) (65%nat, "").
Definition exStream : string := exStreamed.2.2.

Lemma exStreamed_ok : exStreamed = (Ok tt, exStreamed.2).
Proof.
  assert (is_ok exStreamed.1 = true) as Hok by (vm_compute; reflexivity).
  destruct exStreamed as [[[]|e] s]; [reflexivity|discriminate Hok].
Qed.

Lemma exStream_opens : OpenStream collect exLookup "app/state" (mkReader exStream None) "" = (Ok tt, "hello"%string).
Proof. vm_compute. reflexivity. Qed.

Lemma exStream_version : byteAt exStream offVersion <> Version.
Proof. vm_compute. discriminate. Qed.

Lemma stream_roundtrip_witness :
  (exists o', OpenStream collect exLookup "app/state" (mkReader exStream None) "" = (Ok tt, o') /\ o' = "hello"%string) /\
  Open exLookup "app/state" exStream = Ok "hello"%string.
Proof.
  destruct (stream_roundtrip (@collect string) (@collect blob_error) id id exKEK "app/state" exName 16 "hello"
    65%nat "" exStreamed.2 "" exLookup collect_appends collect_appends collect_accepts eq_refl eq_refl eq_refl
    exStreamed_ok) as [Hs Ho].
  split; [exact Hs|]. apply Ho. vm_compute. discriminate.
Defined.

Lemma opened_streams_were_sealed_witness :
  exists id material wn sn salt exp dek frames p,
    exLookup id = Some material /\ len dek = KeyLen /\
    streamed id wn (gcmSeal material wn dek (wrapAAD Version2 id)) sn salt exp frames exStream /\
    framed dek salt exp "app/state" 0 p frames /\ "hello"%string = "" +:+ p /\
    TagLen <= len frames mod (Z.shiftl 1 exp + TagLen).
Proof.
  exact (opened_streams_were_sealed (@collect blob_error) id exLookup "app/state" exStream "" "hello"
    collect_appends exStream_version exStream_opens).
Defined.

Lemma streams_terminate_witness :
  (SealStream (@collect string) exKEK "app/state" exName 16 (mkReader "hello" None) (65%nat, "")).1 <> Err NoFuel /\
  (OpenStream (@collect blob_error) exLookup "app/state" (mkReader exStream (Some (ReadError "reset"))) "").1 <> Err NoFuel.
Proof. apply streams_terminate. intros p o. unfold collect. cbn. discriminate. Defined.

Lemma open_agrees_with_stream_witness :
  Open exLookup "app/state" exStream = Ok "hello"%string <->
  OpenStream collect exLookup "app/state" (mkReader exStream None) "" = (Ok tt, "hello"%string).
Proof.
  apply open_agrees_with_stream.
  - assert (match ParseHeader exStream with Ok h => h_Version h =? Version2 | Err _ => false end = true) as Hv
      by (vm_compute; reflexivity).
    intros h Hp Hv1. rewrite Hp in Hv. apply Z.eqb_eq in Hv. rewrite Hv1 in Hv. discriminate Hv.
  - vm_compute. discriminate.
Defined.
