(* ===== verification/Envelope.v ===== *)
(** * The unseal envelope ([datasphere/keyholder/envelope.go])

    How a bundle reaches one keyholder process: the process issues a challenge
    that works once and for two minutes, the sender seals the bundle to the
    process's public key under a key bound to that challenge, and the process
    opens it.  A challenge is consumed by the first attempt to answer it. *)

From Stdlib Require Import Ascii.
From S2P Require Import Prelude Effect GoTime GoStrings LogicalKey Keyring KeyringFacts Slices Cipher.

(** ** The format *)

Definition envelopeMagic : string := "FCUS".
Definition envelopeVersion : Z := 1.
Definition sessionIDLen : Z := 8.
Definition challengeLen : Z := 32.
Definition pubKeyLen : Z := 32.
Definition nonceLen : Z := 12.
Definition offVersion : Z := 4.
Definition offSessionID : Z := 5.
Definition offSenderPub : Z := offSessionID + sessionIDLen.
Definition offNonce : Z := offSenderPub + pubKeyLen.
Definition offCiphertext : Z := offNonce + nonceLen.
Definition envelopeInfo : string := "farcast/datasphere/v1/unseal".
Definition challengeTTL : Duration := 2 * Minute.
Definition maxOutstanding : Z := 64.

Inductive envelope_error :=
| ErrEnvelopeInvalid
| MalformedChallenge
| MalformedRecipient
| AgreementFailed
| MintRecipient (e : string)
| MintSessionID (e : string)
| MintChallenge (e : string)
| MintSender (e : string)
| MintEnvelopeNonce (e : string)
| DeriveEnvelopeKey (e : string)
| TooManyOutstanding.

Record Challenge := mkChallenge { c_SessionID : string; c_Nonce : string; c_PublicKey : string }.

Record Challenger := mkChallenger {
  ch_priv : string;
  outstanding : gmap string Time;
  nonces : gmap string string
}.

(** ** X25519 ([crypto/ecdh])

    A private key is 32 random bytes.  Both ends agree on the secret; a peer's
    key can make the agreement fail. *)
Class KeyAgreement := {
  publicKey : string -> string;
  ECDH : string -> string -> option string
}.

Class KeyAgreementLaws `{KeyAgreement} := {
  publicKey_len : forall priv, len (publicKey priv) = pubKeyLen;
  ECDH_both : forall a b, ECDH a (publicKey b) = ECDH b (publicKey a)
}.

(** [ecdh.X25519().NewPublicKey] checks the length. *)
Definition NewPublicKey (key : string) : option string := if len key =? pubKeyLen then Some key else None.

Section envelope.
Context `{Cipher, KeyAgreement}.

Definition envelopeCipher (shared recipientPub senderPub challenge : string) : result envelope_error string :=
  wrapErr DeriveEnvelopeKey (hkdfKey shared (envelopeInfo +:+ recipientPub +:+ senderPub +:+ challenge)).

Definition envelopeAAD (instance session challenge : string) : string :=
  envelopeMagic +:+ of_bytes [envelopeVersion] +:+ PutUint64 (len instance) +:+ instance +:+ session +:+ challenge.

Definition PublicKey (c : Challenger) : string := publicKey (ch_priv c).

(** [expireLocked]. *)
Definition expire (now : Time) (c : Challenger) : Challenger :=
  mkChallenger (ch_priv c)
    (filter (fun sd => After now sd.2 = false) (outstanding c))
    (filter (fun sn => After now (default now (outstanding c !! sn.1)) = false) (nonces c)).

Section minting.
Context {W : Type} `{Entropy W}.

Definition NewChallenger : eff W envelope_error Challenger :=
  priv ← readRand pubKeyLen MintRecipient;
  mret (mkChallenger priv ∅ ∅).

(** [now1] is what the clock says when challenges expire, [now2] when the new one
    is entered. *)
Definition Issue (now1 now2 : Time) : eff (W * Challenger) envelope_error Challenge :=
  session ← readRand sessionIDLen MintSessionID;
  nonce ← readRand challengeLen MintChallenge;
  _ ← modify (fun s => (s.1, expire now1 s.2));
  s ← get;
  let c := s.2 in
  if maxOutstanding <=? Z.of_nat (size (outstanding c)) then fail TooManyOutstanding
  else
    _ ← modify (fun s => (s.1, mkChallenger (ch_priv c) (<[session := now2 + challengeTTL]> (outstanding c))
                                 (<[session := nonce]> (nonces c))));
    mret (mkChallenge session nonce (PublicKey c)).

Definition SealBundle (plaintext instance : string) (ch : Challenge) : eff W envelope_error string :=
  if negb (len (c_SessionID ch) =? sessionIDLen) || negb (len (c_Nonce ch) =? challengeLen)
     || negb (len (c_PublicKey ch) =? pubKeyLen)
  then fail MalformedChallenge
  else
    match NewPublicKey (c_PublicKey ch) with
    | None => fail MalformedRecipient
    | Some recipient =>
        sender ← readRand pubKeyLen MintSender;
        match ECDH sender recipient with
        | None => fail AgreementFailed
        | Some shared =>
            gcm ← lift (envelopeCipher shared (c_PublicKey ch) (publicKey sender) (c_Nonce ch));
            nonce ← readRand nonceLen MintEnvelopeNonce;
            mret (envelopeMagic +:+ of_bytes [envelopeVersion] +:+ c_SessionID ch +:+ publicKey sender +:+ nonce
                    +:+ gcmSeal gcm nonce plaintext (envelopeAAD instance (c_SessionID ch) (c_Nonce ch)))
        end
    end.

End minting.

(** What [Open] does with the challenge it consumed. *)
Definition openWith (priv envelope instance session nonce : string) : result envelope_error string :=
  match NewPublicKey (slice envelope offSenderPub (offSenderPub + pubKeyLen)) with
  | None => Err ErrEnvelopeInvalid
  | Some senderPub =>
      match ECDH priv senderPub with
      | None => Err ErrEnvelopeInvalid
      | Some shared =>
          match envelopeCipher shared (publicKey priv) senderPub nonce with
          | Err _ => Err ErrEnvelopeInvalid
          | Ok gcm =>
              match gcmOpen gcm (slice envelope offNonce (offNonce + nonceLen)) (after envelope offCiphertext)
                      (envelopeAAD instance session nonce) with
              | None => Err ErrEnvelopeInvalid
              | Some plaintext => Ok plaintext
              end
          end
      end
  end.

(** An array of 32 zero bytes is what [nonces] gives for an unknown session. *)
Definition zeroNonce : string := of_bytes (zeros challengeLen).

Definition Open (envelope instance : string) (now1 now2 : Time) : eff Challenger envelope_error string :=
  if len envelope <? offCiphertext + 16 then fail ErrEnvelopeInvalid
  else if bool_decide (slice envelope 0 4 <> envelopeMagic) || negb (byteAt envelope offVersion =? envelopeVersion)
  then fail ErrEnvelopeInvalid
  else
    let session := slice envelope offSessionID (offSessionID + sessionIDLen) in
    _ ← modify (expire now1);
    c ← get;
    let nonce := default zeroNonce (nonces c !! session) in
    _ ← modify (fun c => mkChallenger (ch_priv c) (delete session (outstanding c)) (delete session (nonces c)));
    match outstanding c !! session with
    | None => fail ErrEnvelopeInvalid
    | Some deadline =>
        if After now2 deadline then fail ErrEnvelopeInvalid
        else lift (openWith (ch_priv c) envelope instance session nonce)
    end.

End envelope.

(** ** Well-formedness *)

(** Every challenge has its nonce and deadline, and there are at most 64. *)
Record challenger_ok (c : Challenger) : Prop := {
  co_dom : dom (outstanding c) = dom (nonces c);
  co_size : Z.of_nat (size (outstanding c)) <= maxOutstanding;
  co_nonces : map_Forall (fun _ n => len n = challengeLen) (nonces c)
}.

Lemma expire_lookup now c s d : outstanding (expire now c) !! s = Some d <->
  outstanding c !! s = Some d /\ now <= d.
Proof. cbn. rewrite map_lookup_filter_Some. cbn. unfold After. f_equiv. lia. Qed.

Lemma expire_nonce now c s n : nonces (expire now c) !! s = Some n <->
  nonces c !! s = Some n /\ forall d, outstanding c !! s = Some d -> now <= d.
Proof.
  cbn. rewrite map_lookup_filter_Some. cbn. f_equiv. unfold After.
  destruct (outstanding c !! s) as [d|]; cbn; split; try lia; try done.
  - intros Hd ? [= <-]. lia.
  - intros Hd. specialize (Hd d eq_refl). lia.
Qed.

Lemma expire_ok now c : challenger_ok c -> challenger_ok (expire now c).
Proof.
  intros [Hd Hs Hn]. split.
  - apply set_eq. intros s. rewrite !elem_of_dom. unfold is_Some. setoid_rewrite expire_lookup. setoid_rewrite expire_nonce.
    assert (is_Some (outstanding c !! s) <-> is_Some (nonces c !! s)) as Hi by (by rewrite <- !elem_of_dom, Hd).
    split.
    + intros (d & Ho & Hle). assert (is_Some (nonces c !! s)) as [n Hn'] by (apply Hi; eauto).
      exists n. split; [done|]. intros d' Hd'. naive_solver.
    + intros (n & Hn' & Hle). assert (is_Some (outstanding c !! s)) as [d Ho] by (apply Hi; eauto). eauto.
  - cbn. etrans; [|exact Hs]. apply inj_le. apply map_size_filter.
  - intros s n. rewrite expire_nonce. intros [Hl _]. by apply (Hn s).
Qed.

(** ** What the two operations do *)

Definition issued (session nonce : string) (deadline : Time) (c : Challenger) : Challenger :=
  mkChallenger (ch_priv c) (<[session := deadline]> (outstanding c)) (<[session := nonce]> (nonces c)).

Definition consumed (session : string) (c : Challenger) : Challenger :=
  mkChallenger (ch_priv c) (delete session (outstanding c)) (delete session (nonces c)).

(** The session a well-formed envelope names. *)
Definition sessionOf (envelope : string) : option string :=
  if (offCiphertext + 16 <=? len envelope) && bool_decide (slice envelope 0 4 = envelopeMagic)
     && (byteAt envelope offVersion =? envelopeVersion)
  then Some (slice envelope offSessionID (offSessionID + sessionIDLen)) else None.

Section specs.
Context `{Cipher, KeyAgreement}.

Lemma Issue_cases {W} `{Entropy W} now1 now2 (w w' : W) c c' r : Issue now1 now2 (w, c) = (r, (w', c')) ->
  (exists session nonce, r = Ok (mkChallenge session nonce (PublicKey c)) /\
     len session = sessionIDLen /\ len nonce = challengeLen /\
     Z.of_nat (size (outstanding (expire now1 c))) < maxOutstanding /\
     c' = issued session nonce (now2 + challengeTTL) (expire now1 c)) \/
  (is_ok r = false /\ (c' = c \/ c' = expire now1 c)).
Proof.
  unfold Issue. intros E.
  destruct (readRand sessionIDLen MintSessionID (w, c)) as [[session|e] [w1 c1]] eqn:E1.
  2:{ rewrite (bind_fails _ _ _ _ _ E1) in E. injection E as <- _ <-. right. split; [done|].
      left. unfold readRand, try, mbind, eff_bind in E1. cbn in E1. destruct (ReadFull _ w) as [x w2]. by injection E1. }
  rewrite (bind_run _ _ _ _ _ E1) in E. pose proof (readRand_len _ _ _ _ _ E1) as Hs.
  apply readRand_beside in E1. cbn in E1. subst c1.
  destruct (readRand challengeLen MintChallenge (w1, c)) as [[nonce|e] [w2 c2]] eqn:E2.
  2:{ rewrite (bind_fails _ _ _ _ _ E2) in E. injection E as <- _ <-. right. split; [done|].
      left. unfold readRand, try, mbind, eff_bind in E2. cbn in E2. destruct (ReadFull _ w1) as [x w3]. by injection E2. }
  rewrite (bind_run _ _ _ _ _ E2) in E. pose proof (readRand_len _ _ _ _ _ E2) as Hn.
  apply readRand_beside in E2. cbn in E2. subst c2.
  rewrite bind_modify, bind_get in E. cbn [snd fst] in E.
  destruct (Z.leb_spec maxOutstanding (Z.of_nat (size (outstanding (expire now1 c))))) as [Hm|Hm].
  - injection E as <- _ <-. right. split; [done|by right].
  - injection E as <- _ <-. left. exists session, nonce. by split_and!.
Qed.

Lemma Open_malformed envelope instance now1 now2 c : sessionOf envelope = None ->
  Open envelope instance now1 now2 c = (Err ErrEnvelopeInvalid, c).
Proof.
  unfold sessionOf, Open. destruct (Z.ltb_spec (len envelope) (offCiphertext + 16)); [done|].
  destruct (Z.leb_spec (offCiphertext + 16) (len envelope)); [|lia]. cbn [andb].
  destruct (decide (slice envelope 0 4 = envelopeMagic)) as [E|E].
  - rewrite bool_decide_eq_true_2 by done. rewrite bool_decide_eq_false_2 by (intros Hne; by apply Hne).
    cbn [andb orb]. by destruct (byteAt envelope offVersion =? envelopeVersion).
  - by rewrite (bool_decide_eq_true_2 (slice envelope 0 4 <> envelopeMagic)).
Qed.

Lemma Open_wellformed envelope instance now1 now2 c session : sessionOf envelope = Some session ->
  Open envelope instance now1 now2 c =
    (match outstanding (expire now1 c) !! session with
     | None => Err ErrEnvelopeInvalid
     | Some deadline =>
         if After now2 deadline then Err ErrEnvelopeInvalid
         else openWith (ch_priv c) envelope instance session (default zeroNonce (nonces (expire now1 c) !! session))
     end, consumed session (expire now1 c)).
Proof.
  unfold sessionOf, Open. destruct (Z.leb_spec (offCiphertext + 16) (len envelope)); [|done].
  destruct (Z.ltb_spec (len envelope) (offCiphertext + 16)); [lia|]. cbn [andb].
  destruct (decide (slice envelope 0 4 = envelopeMagic)) as [E|E].
  2:{ by rewrite bool_decide_eq_false_2. }
  rewrite bool_decide_eq_true_2 by done. rewrite bool_decide_eq_false_2 by (intros Hne; by apply Hne). cbn [andb].
  destruct (byteAt envelope offVersion =? envelopeVersion); [|done]. intros [= <-]. cbn [orb negb].
  rewrite bind_modify, bind_get, bind_modify. cbn [ch_priv].
  destruct (outstanding (expire now1 c) !! _) as [deadline|]; [|done]. by destruct (After now2 deadline).
Qed.

Lemma issued_ok session nonce deadline c : challenger_ok c -> len nonce = challengeLen ->
  Z.of_nat (size (outstanding c)) < maxOutstanding -> challenger_ok (issued session nonce deadline c).
Proof.
  intros [Hd Hs Hn] Hl Hlt. split; cbn.
  - by rewrite !dom_insert_L, Hd.
  - rewrite map_size_insert. destruct (outstanding c !! session); cbn -[Z.of_nat]; lia.
  - by apply map_Forall_insert_2.
Qed.

Lemma consumed_ok session c : challenger_ok c -> challenger_ok (consumed session c).
Proof.
  intros [Hd Hs Hn]. split; cbn.
  - by rewrite !dom_delete_L, Hd.
  - rewrite map_size_delete. destruct (outstanding c !! session); cbn -[Z.of_nat]; lia.
  - by apply map_Forall_delete.
Qed.

(** ** Runs *)

Inductive event :=
| Issued (at_ : Time) (session : string)
| Attempt (at_ : Time) (session : string) (opened : bool)
| Quiet.

(** One call, as it is seen from outside. *)
Inductive moves {W} `{Entropy W} : Challenger -> event -> Challenger -> Prop :=
| moves_issue now1 now2 (w w' : W) c c' ch : Issue now1 now2 (w, c) = (Ok ch, (w', c')) ->
    moves c (Issued now2 (c_SessionID ch)) c'
| moves_issue_fails now1 now2 (w w' : W) c c' e : Issue now1 now2 (w, c) = (Err e, (w', c')) ->
    moves c Quiet c'
| moves_open envelope instance now1 now2 c c' r session : sessionOf envelope = Some session ->
    Open envelope instance now1 now2 c = (r, c') -> moves c (Attempt now2 session (is_ok r)) c'
| moves_open_malformed envelope instance now1 now2 c c' r : sessionOf envelope = None ->
    Open envelope instance now1 now2 c = (r, c') -> moves c Quiet c'.

Inductive run {W} `{Entropy W} (c0 : Challenger) : list event -> Challenger -> Prop :=
| run_start : run c0 [] c0
| run_more es c e c' : run c0 es c -> moves c e c' -> run c0 (es ++ [e]) c'.

Lemma moves_ok {W} `{Entropy W} c e c' : challenger_ok c -> moves (W := W) c e c' -> challenger_ok c'.
Proof.
  intros Hc Hm. destruct Hm as [n1 n2 w w' c c' ch E|n1 n2 w w' c c' x E|env i n1 n2 c c' r s Hs E|env i n1 n2 c c' r Hs E].
  - apply Issue_cases in E as [(s & n & _ & _ & Hl & Hlt & ->)|[? _]]; [|done].
    by apply issued_ok; [apply expire_ok|..].
  - apply Issue_cases in E as [(s & n & ? & _)|[_ [-> | ->]]]; [done|done|by apply expire_ok].
  - rewrite (Open_wellformed _ _ _ _ _ _ Hs) in E. injection E as _ <-. by apply consumed_ok, expire_ok.
  - rewrite Open_malformed in E by done. by injection E as _ <-.
Qed.

(** An attempt at a session. *)
Definition tries (session : string) (e : event) : Prop :=
  match e with Attempt _ s _ => s = session | _ => False end.

(** The challenge of [session] stands: issued for a deadline and not tried since. *)
Definition standing (session : string) (deadline : Time) (es : list event) : Prop :=
  exists t before since, es = before ++ Issued t session :: since /\ deadline = t + challengeTTL /\
    Forall (fun e => ~ tries session e) since.

Lemma standing_more session d es e : standing session d es -> ~ tries session e -> standing session d (es ++ [e]).
Proof.
  intros (t & b & s & -> & -> & Hs) He. exists t, b, (s ++ [e]). split_and!; [by rewrite <- app_assoc|done|].
  apply Forall_app. split; [done|by repeat constructor].
Qed.

Lemma run_standing {W} `{Entropy W} c0 es c : outstanding c0 = ∅ -> run (W := W) c0 es c ->
  forall s d, outstanding c !! s = Some d -> standing s d es.
Proof.
  intros Hempty Hr. induction Hr as [|es c e c' Hr IH Hm]; intros s d Hl; [by rewrite Hempty, lookup_empty in Hl|].
  destruct Hm as [n1 n2 w w' c c' ch E|n1 n2 w w' c c' x E|env i n1 n2 c c' r s0 Hs E|env i n1 n2 c c' r Hs E].
  - apply Issue_cases in E as [(s1 & n & [= ->] & _ & _ & _ & ->)|[? _]]; [|done]. cbn in Hl |- *.
    apply lookup_insert_Some in Hl as [[-> <-]|[Hne Hl]].
    + by exists n2, es, [].
    + apply expire_lookup in Hl as [Hl _]. apply standing_more; [by apply IH|intros []].
  - apply standing_more; [|intros []]. apply IH.
    apply Issue_cases in E as [(? & ? & ? & _)|[_ [-> | ->]]]; [done|done|by apply expire_lookup in Hl as [? _]].
  - rewrite (Open_wellformed _ _ _ _ _ _ Hs) in E. injection E as _ <-. cbn in Hl.
    apply lookup_delete_Some in Hl as [Hne Hl]. apply expire_lookup in Hl as [Hl _].
    apply standing_more; [by apply IH|]. cbn. congruence.
  - rewrite Open_malformed in E by done. injection E as _ <-. apply standing_more; [by apply IH|intros []].
Qed.

(** What opens was outstanding, in time, and sealed for it. *)
Lemma Open_ok envelope instance now1 now2 c p c' : Open envelope instance now1 now2 c = (Ok p, c') ->
  exists session deadline, sessionOf envelope = Some session /\ outstanding c !! session = Some deadline /\
    now2 <= deadline /\ c' = consumed session (expire now1 c) /\
    openWith (ch_priv c) envelope instance session (default zeroNonce (nonces (expire now1 c) !! session)) = Ok p.
Proof.
  intros E. destruct (sessionOf envelope) as [session|] eqn:Es.
  2:{ rewrite Open_malformed in E by done. done. }
  rewrite (Open_wellformed _ _ _ _ _ _ Es) in E. apply pair_equal_spec in E as [Ho <-].
  destruct (outstanding (expire now1 c) !! session) as [deadline|] eqn:El; [|done].
  apply expire_lookup in El as [El _]. exists session, deadline. unfold After in Ho.
  destruct (Z.ltb_spec deadline now2); [done|]. by split_and!.
Qed.

End specs.

(** ** Sealing and opening *)

Section laws.
Context `{CipherLaws, KeyAgreementLaws}.

(** The bytes of an envelope. *)
Definition envelopeOf (session senderPub nonce sealed : string) : string :=
  envelopeMagic +:+ of_bytes [envelopeVersion] +:+ session +:+ senderPub +:+ nonce +:+ sealed.

Lemma envelope_fields session pub nonce sealed : len session = sessionIDLen -> len pub = pubKeyLen ->
  len nonce = nonceLen -> 16 <= len sealed ->
  let e := envelopeOf session pub nonce sealed in
  sessionOf e = Some session /\ slice e offSenderPub (offSenderPub + pubKeyLen) = pub /\
  slice e offNonce (offNonce + nonceLen) = nonce /\ after e offCiphertext = sealed.
Proof.
  intros Hs Hp Hn Hl e. assert (len (of_bytes [envelopeVersion]) = 1) as Hv by apply len_of_bytes.
  unfold sessionOf, offCiphertext, offNonce, offSenderPub, offSessionID, sessionIDLen, pubKeyLen, nonceLen, offVersion in *.
  assert (len envelopeMagic = 4) as Hm by done.
  assert (len e = 57 + len sealed) as Le by (unfold e, envelopeOf; rewrite !len_app; lia).
  split_and!; unfold e, envelopeOf in *.
  - destruct (Z.leb_spec (5 + 8 + 32 + 12 + 16) (len (envelopeMagic +:+ of_bytes [envelopeVersion] +:+ session +:+ pub +:+ nonce +:+ sealed)));
      [|rewrite Le in *; lia].
    rewrite slice_first by done. rewrite bool_decide_eq_true_2 by done.
    rewrite byteAt_app_r by (rewrite Hm; lia). rewrite byteAt_app_l by (rewrite Hm, Hv; lia).
    change (byteAt (of_bytes [envelopeVersion]) (4 - len envelopeMagic) =? envelopeVersion) with true. cbn [andb].
    do 2 rewrite slice_app by lia. f_equal. rewrite Hm, Hv. apply slice_first. lia.
  - do 3 rewrite slice_app by lia. rewrite Hm, Hv, Hs. apply slice_first. lia.
  - do 4 rewrite slice_app by lia. rewrite Hm, Hv, Hs, Hp. apply slice_first. lia.
  - do 5 rewrite after_app_more by lia. rewrite Hm, Hv, Hs, Hp, Hn. done.
Qed.

Lemma SealBundle_ok {W} `{Entropy W} plaintext instance ch (w w' : W) envelope :
  SealBundle plaintext instance ch w = (Ok envelope, w') ->
  exists sender shared gcm nonce, len nonce = nonceLen /\ ECDH sender (c_PublicKey ch) = Some shared /\
    len (c_SessionID ch) = sessionIDLen /\
    envelopeCipher shared (c_PublicKey ch) (publicKey sender) (c_Nonce ch) = Ok gcm /\
    envelope = envelopeOf (c_SessionID ch) (publicKey sender) nonce
      (gcmSeal gcm nonce plaintext (envelopeAAD instance (c_SessionID ch) (c_Nonce ch))).
Proof.
  unfold SealBundle, NewPublicKey.
  destruct (Z.eqb_spec (len (c_SessionID ch)) sessionIDLen) as [Hs|]; [|done].
  destruct (Z.eqb_spec (len (c_Nonce ch)) challengeLen); [|done].
  destruct (Z.eqb_spec (len (c_PublicKey ch)) pubKeyLen); [|done]. cbn [negb orb].
  intros E. apply bind_inv in E as (sender & w1 & _ & E).
  destruct (ECDH sender (c_PublicKey ch)) as [shared|] eqn:Es; [|done].
  apply bind_inv in E as (gcm & w2 & Eg & E). apply lift_inv in Eg as [Eg ->].
  apply bind_inv in E as (nonce & w3 & En & E). injection E as <- _.
  exists sender, shared, gcm, nonce. pose proof (readRand_len _ _ _ _ _ En). by split_and!.
Qed.

(** What opens for a challenge was sealed for it, under what both ends agree on. *)
Lemma openWith_spec priv envelope instance session challenge p : openWith priv envelope instance session challenge = Ok p <->
  exists shared gcm,
    let pub := slice envelope offSenderPub (offSenderPub + pubKeyLen) in
    let nonce := slice envelope offNonce (offNonce + nonceLen) in
    len pub = pubKeyLen /\ ECDH priv pub = Some shared /\
    envelopeCipher shared (publicKey priv) pub challenge = Ok gcm /\
    after envelope offCiphertext = gcmSeal gcm nonce p (envelopeAAD instance session challenge).
Proof.
  unfold openWith, NewPublicKey. cbv zeta. set (pub := slice envelope offSenderPub _). split.
  - destruct (Z.eqb_spec (len pub) pubKeyLen); [|done]. destruct (ECDH priv pub) as [shared|] eqn:Es; [|done].
    destruct (envelopeCipher _ _ _ _) as [gcm|] eqn:Eg; [|done]. destruct (gcmOpen _ _ _ _) as [q|] eqn:Eo; [|done].
    intros [= ->]. apply open_only in Eo. exists shared, gcm. by split_and!.
  - intros (shared & gcm & Hl & Es & Eg & Ea). destruct (Z.eqb_spec (len pub) pubKeyLen); [|done].
    by rewrite Es, Eg, Ea, open_seal.
Qed.

Lemma envelopeAAD_inj i s c i' s' c' : len i < 2 ^ 64 -> len i' < 2 ^ 64 ->
  len s = sessionIDLen -> len s' = sessionIDLen ->
  envelopeAAD i s c = envelopeAAD i' s' c' -> i = i' /\ s = s' /\ c = c'.
Proof.
  intros Hi Hi' Hs Hs' E. unfold envelopeAAD in E. do 2 apply app_string_inj in E.
  pose proof (len_nonneg i). pose proof (len_nonneg i').
  apply app_string_split in E as [El E]; [|by rewrite !len_PutUint64].
  apply PutUint64_inj in El; [|lia|lia].
  apply app_string_split in E as [-> E]; [|done]. apply app_string_split in E as [-> E]; [done|lia].
Qed.

End laws.

(** ** Properties *)

(** C35: a challenge is answered at most once and in time: in any sequence of calls
    on a fresh process, an envelope opens for a session only when that session was
    issued, no attempt on it (successful or not) was made since, and the two minutes
    have not passed. *)
Theorem challenge_opens_once `{Cipher, KeyAgreement} {W} `{Entropy W} (w w' : W) c0 es before now session after_ c :
  NewChallenger w = (Ok c0, w') -> run (W := W) c0 es c ->
  es = before ++ Attempt now session true :: after_ ->
  exists at_ earlier since, before = earlier ++ Issued at_ session :: since /\
    now <= at_ + challengeTTL /\ Forall (fun e => ~ tries session e) since.
Proof.
  intros En Hr. apply bind_inv in En as (priv & w1 & _ & En). injection En as <- _.
  revert before after_. induction Hr as [|es c e c' Hr IH Hm]; intros before after_ Es.
  { by destruct before. }
  destruct after_ as [|x after_ _] using rev_ind.
  - apply app_inj_tail in Es as [<- ->].
    inversion Hm as [| |env i n1 n2 c1 c1' r s0 Hs E|]; subst. destruct r as [p|x]; [|done].
    apply Open_ok in E as (s & d & Es & Hd & Hle & _). rewrite Es in Hs. injection Hs as ->.
    destruct (run_standing (mkChallenger priv ∅ ∅) _ _ eq_refl Hr _ _ Hd) as (t & b & si & -> & -> & Hsi). by exists t, b, si.
  - rewrite app_comm_cons, app_assoc in Es. apply app_inj_tail in Es as [-> _]. by eapply IH.
Qed.

(** A process's challenges stay well formed: whatever is called, there are never
    more than 64 and each has its deadline and its 32-byte nonce. *)
Theorem challenges_stay_bounded `{Cipher, KeyAgreement} {W} `{Entropy W} (w w' : W) c0 es c :
  NewChallenger w = (Ok c0, w') -> run (W := W) c0 es c -> challenger_ok c.
Proof.
  intros En Hr. apply bind_inv in En as (priv & w1 & _ & En). injection En as <- _.
  induction Hr as [|es c e c' Hr IH Hm]; [|by eapply moves_ok].
  split; cbn; [by rewrite !dom_empty_L|by rewrite map_size_empty|by apply map_Forall_empty].
Qed.

(** A bundle sealed for a challenge opens as itself: within the two minutes, the
    process that issued the challenge opens the envelope as exactly what was sealed,
    and consumes the challenge. *)
Theorem envelope_roundtrip `{CipherLaws, KeyAgreementLaws} {W} `{Entropy W} (w w1 w2 w3 : W) c c1 ch now1 now2
    m1 m2 plaintext instance envelope :
  Issue now1 now2 (w, c) = (Ok ch, (w1, c1)) -> SealBundle plaintext instance ch w2 = (Ok envelope, w3) ->
  m1 <= now2 + challengeTTL -> m2 <= now2 + challengeTTL ->
  Open envelope instance m1 m2 c1 = (Ok plaintext, consumed (c_SessionID ch) (expire m1 c1)).
Proof.
  intros Ei Es H1m H2m. apply Issue_cases in Ei as [(session & challenge & [= ->] & Hs & Hc & _ & ->)|[? _]]; [|done].
  apply SealBundle_ok in Es as (sender & shared & gcm & nonce & Hn & Ea & _ & Eg & ->). cbn [c_SessionID c_Nonce c_PublicKey] in *.
  destruct (envelope_fields session (publicKey sender) nonce
    (gcmSeal gcm nonce plaintext (envelopeAAD instance session challenge)) Hs (publicKey_len _) Hn) as (F1 & F2 & F3 & F4).
  { rewrite seal_len. pose proof (len_nonneg plaintext). unfold TagLen. lia. }
  rewrite (Open_wellformed _ _ _ _ _ _ F1). f_equal.
  rewrite (proj2 (expire_lookup _ _ session (now2 + challengeTTL))) by (split; [apply lookup_insert_eq|done]).
  unfold After. destruct (Z.ltb_spec (now2 + challengeTTL) m2); [lia|].
  rewrite (proj2 (expire_nonce _ _ session challenge)).
  2:{ split; [apply lookup_insert_eq|]. intros d. cbn. rewrite lookup_insert_eq. by intros [= <-]. }
  apply openWith_spec. exists shared, gcm. cbv zeta. rewrite F2, F3, F4. cbn [default from_option].
  split_and!; [apply publicKey_len| |done|done]. cbn. rewrite <- Ea. apply ECDH_both.
Qed.

(** What opens was sealed for this process, this challenge and this instance: the
    ciphertext is the seal of exactly the plaintext given out, under the key agreed
    with the sender and bound to the outstanding challenge, and the associated data
    names one instance only. *)
Theorem opened_envelopes_were_sealed `{CipherLaws, KeyAgreementLaws} envelope instance now1 now2 c p c' :
  challenger_ok c -> len instance < 2 ^ 64 -> Open envelope instance now1 now2 c = (Ok p, c') ->
  exists session challenge deadline shared gcm,
    let pub := slice envelope offSenderPub (offSenderPub + pubKeyLen) in
    let nonce := slice envelope offNonce (offNonce + nonceLen) in
    sessionOf envelope = Some session /\ outstanding c !! session = Some deadline /\ now2 <= deadline /\
    nonces c !! session = Some challenge /\ ECDH (ch_priv c) pub = Some shared /\
    envelopeCipher shared (PublicKey c) pub challenge = Ok gcm /\
    after envelope offCiphertext = gcmSeal gcm nonce p (envelopeAAD instance session challenge) /\
    (forall instance', len instance' < 2 ^ 64 ->
       envelopeAAD instance' session challenge = envelopeAAD instance session challenge -> instance' = instance) /\
    outstanding c' !! session = None.
Proof.
  intros Hc Hi E. rewrite (surjective_pairing (Open envelope instance now1 now2 c)) in E.
  destruct (sessionOf envelope) as [session|] eqn:Es; [|by rewrite Open_malformed in E].
  rewrite (Open_wellformed _ _ _ _ _ _ Es) in E. apply pair_equal_spec in E as [Ho <-]. cbn [fst] in Ho.
  destruct (outstanding (expire now1 c) !! session) as [deadline|] eqn:Ed; [|done].
  unfold After in Ho. destruct (Z.ltb_spec deadline now2) as [|Hle]; [done|].
  pose proof (expire_ok now1 c Hc) as [Hdom _ _]. assert (is_Some (nonces (expire now1 c) !! session)) as [challenge En].
  { apply elem_of_dom. rewrite <- Hdom. apply elem_of_dom. eauto. }
  rewrite En in Ho. cbn [default from_option] in Ho. apply openWith_spec in Ho as (shared & gcm & _ & Ea & Eg & Ec).
  apply expire_lookup in Ed as [Ed _]. apply expire_nonce in En as [En _].
  exists session, challenge, deadline, shared, gcm. cbv zeta. split_and!; try done.
  - intros i' Hi' E. assert (len session = sessionIDLen) as Hs.
    { unfold sessionOf in Es. destruct (_ && _) eqn:Eb in Es; [|done]. injection Es as <-.
      apply andb_prop in Eb as [Eb _]. apply andb_prop in Eb as [Eb _]. apply Z.leb_le in Eb.
      unfold offCiphertext, offNonce, offSenderPub, offSessionID, sessionIDLen, pubKeyLen, nonceLen in *.
      rewrite len_slice; lia. }
    by apply envelopeAAD_inj in E as [-> _].
  - apply lookup_delete_eq.
Qed.

(** *** Witnesses *)

(** A toy agreement: the secret is the sum of the checksums of both public keys. *)
#[export] Instance exAgreement : KeyAgreement | 100 := {|
  publicKey priv := stamp 32 priv;
  ECDH priv pub := Some (of_bytes (replicate 32 ((checksum (stamp 32 priv) + checksum pub) mod 256)))
|}.

#[export] Instance exAgreementLaws : KeyAgreementLaws | 100.
Proof. split; [intros; apply len_stamp|]. intros a b. cbn. by rewrite Z.add_comm. Qed.

Definition exFresh : Challenger := mkChallenger (repeated 32 "A") ∅ ∅.
Definition exIssued : result envelope_error Challenge * (nat * Challenger) := Issue 0 1 (66%nat, exFresh).
Definition exChallenge : Challenge := match exIssued.1 with Ok ch => ch | Err _ => mkChallenge "" "" "" end.
Definition exEnvelope : string :=
  match (SealBundle "bundle" "home" exChallenge 70%nat).1 with Ok e => e | Err _ => "" end.

Lemma exIssued_ok : exIssued = (Ok exChallenge, exIssued.2).
Proof.
  assert (is_ok exIssued.1 = true) as Hok by (vm_compute; reflexivity). unfold exChallenge.
  destruct exIssued as [[ch|e] s]; [reflexivity|discriminate Hok].
Qed.

Lemma exEnvelope_ok : SealBundle "bundle" "home" exChallenge 70%nat = (Ok exEnvelope, 72%nat).
Proof. vm_compute. reflexivity. Qed.

Lemma exFresh_ok : NewChallenger 65%nat = (Ok exFresh, 66%nat).
Proof. vm_compute. reflexivity. Qed.

Lemma envelope_roundtrip_witness :
  (Open exEnvelope "home" 5 5 exIssued.2.2).1 = Ok "bundle"%string.
Proof.
  pose proof exIssued_ok as Ei. destruct exIssued.2 as [w1 c1]. cbn [snd].
  rewrite (envelope_roundtrip 66%nat w1 70%nat 72%nat exFresh c1 exChallenge 0 1 5 5 "bundle" "home" exEnvelope
    Ei exEnvelope_ok); [reflexivity|vm_compute; discriminate|vm_compute; discriminate].
Defined.

(** A process that issues a challenge and opens what answers it. *)
Definition exOpened : Challenger := (Open exEnvelope "home" 5 5 exIssued.2.2).2.

Lemma exEnvelope_opens : Open exEnvelope "home" 5 5 exIssued.2.2 = (Ok "bundle"%string, exOpened).
Proof.
  unfold exOpened. assert ((Open exEnvelope "home" 5 5 exIssued.2.2).1 = Ok "bundle"%string) as Ho by (vm_compute; reflexivity).
  destruct (Open exEnvelope "home" 5 5 exIssued.2.2) as [r c]. cbn in Ho |- *. by rewrite Ho.
Qed.

Lemma exEnvelope_session : sessionOf exEnvelope = Some (c_SessionID exChallenge).
Proof. vm_compute. reflexivity. Qed.

Lemma exRun : run (W := nat) exFresh [Issued 1 (c_SessionID exChallenge); Attempt 5 (c_SessionID exChallenge) true] exOpened.
Proof.
  apply (run_more exFresh [Issued 1 (c_SessionID exChallenge)] exIssued.2.2 (Attempt 5 (c_SessionID exChallenge) true)).
  - apply (run_more exFresh [] exFresh (Issued 1 (c_SessionID exChallenge))); [apply run_start|].
    apply (moves_issue 0 1 66%nat exIssued.2.1). fold exIssued. rewrite exIssued_ok at 1. by destruct exIssued.2.
  - exact (moves_open exEnvelope "home" 5 5 exIssued.2.2 exOpened (Ok "bundle"%string) _ exEnvelope_session exEnvelope_opens).
Qed.

Lemma challenge_opens_once_witness :
  exists at_ earlier since, [Issued 1 (c_SessionID exChallenge)] = earlier ++ Issued at_ (c_SessionID exChallenge) :: since /\
    5 <= at_ + challengeTTL /\ Forall (fun e => ~ tries (c_SessionID exChallenge) e) since.
Proof.
  exact (challenge_opens_once 65%nat 66%nat exFresh _ [Issued 1 (c_SessionID exChallenge)] 5 (c_SessionID exChallenge) []
    exOpened exFresh_ok exRun eq_refl).
Defined.

Lemma challenges_stay_bounded_witness : challenger_ok exOpened.
Proof. exact (challenges_stay_bounded 65%nat 66%nat exFresh _ exOpened exFresh_ok exRun). Defined.

Lemma exIssued_wf : challenger_ok exIssued.2.2.
Proof.
  split; [vm_compute; reflexivity|vm_compute; discriminate|].
  assert (forallb (fun '(_, n) => len n =? challengeLen) (map_to_list (nonces exIssued.2.2)) = true) as Hb
    by (vm_compute; reflexivity).
  intros s n Hn. rewrite forallb_forall in Hb. apply elem_of_map_to_list, list_elem_of_In in Hn.
  specialize (Hb _ Hn). cbn in Hb. lia.
Qed.
