(* ===== verification/Provider.v ===== *)
(** * Object storage ([Provider] of [datasphere/types.go])

    What an adapter promises: whole objects under opaque names, replaced
    atomically and visible to the reads that follow.  The store is written against
    this interface; [cloud] is the smallest thing that keeps it. *)

From Stdlib Require Import Ascii.
From S2P Require Import Prelude Effect GoTime GoStrings LogicalKey Keyring KeyringFacts Slices Cipher Names Blob Stream.

Record Object := mkObject { o_Name : string; o_Data : string; o_Meta : gmap string string }.

Record StreamObject := mkStreamObject {
  so_Name : string;
  so_Data : Reader;
  so_Size : Z;
  so_Meta : gmap string string
}.

Record ObjectInfo := mkObjectInfo {
  oi_Name : string;
  oi_Size : Z;
  oi_Created : Time;
  oi_Meta : gmap string string
}.

Inductive provider_error :=
| ErrObjectNotFound (name : string)
| ProviderFailed (message : string).

Class Provider (P : Type) := {
  pPut : string -> Object -> eff P provider_error unit;
  pGet : string -> string -> eff P provider_error Object;
  pList : string -> string -> eff P provider_error (list ObjectInfo);
  pDelete : string -> string -> eff P provider_error unit;
  pPutStream : string -> StreamObject -> eff P provider_error unit;
  (** bucket, name, offset, length ([-1] to the end) *)
  pGetStream : string -> string -> Z -> Z -> eff P provider_error Reader
}.

(** What a bucket holds of an object. *)
Record Stored := mkStored { sd_Data : string; sd_Meta : gmap string string; sd_Created : Time }.

Definition range (data : string) (offset length : Z) : string :=
  if length <? 0 then after data offset else slice data offset (offset + length).

Definition infoOf (no : string * Stored) : ObjectInfo :=
  mkObjectInfo no.1 (len (sd_Data no.2)) (sd_Created no.2) (sd_Meta no.2).

(** The contract, over what each bucket holds.  A failed upload may have been made:
    the caller is only told that it was not told.  A stream is uploaded whole or not
    at all, where one that breaks off with [io.ErrUnexpectedEOF] is whole:
    [gcs/stream.go] takes that error for the end.  A missing object is what a get
    reports; a delete of one is no error. *)
Class ProviderLaws P `{Provider P} := {
  holding : P -> string -> gmap string Stored;
  put_ok : forall bucket o s s', pPut bucket o s = (Ok tt, s') -> exists created,
    holding s' bucket = <[o_Name o := mkStored (o_Data o) (o_Meta o) created]> (holding s bucket);
  put_failed : forall bucket o e s s', pPut bucket o s = (Err e, s') -> holding s' bucket = holding s bucket \/
    exists created, holding s' bucket = <[o_Name o := mkStored (o_Data o) (o_Meta o) created]> (holding s bucket);
  put_found : forall bucket o s s' n, pPut bucket o s <> (Err (ErrObjectNotFound n), s');
  get_ok : forall bucket name s s' o, pGet bucket name s = (Ok o, s') ->
    holding s' bucket = holding s bucket /\
    exists st, holding s bucket !! name = Some st /\ o_Data o = sd_Data st;
  get_failed : forall bucket name s s' e, pGet bucket name s = (Err e, s') ->
    holding s' bucket = holding s bucket /\ (forall n, e = ErrObjectNotFound n -> holding s bucket !! name = None);
  list_ok : forall bucket prefix s s' infos, pList bucket prefix s = (Ok infos, s') ->
    holding s' bucket = holding s bucket /\
    infos ≡ₚ map infoOf (filter (fun no => HasPrefix no.1 prefix = true) (map_to_list (holding s bucket)));
  list_failed : forall bucket prefix s s' e, pList bucket prefix s = (Err e, s') -> holding s' bucket = holding s bucket;
  list_found : forall bucket prefix s s' n, pList bucket prefix s <> (Err (ErrObjectNotFound n), s');
  delete_ok : forall bucket name s s', pDelete bucket name s = (Ok tt, s') ->
    holding s' bucket = delete name (holding s bucket);
  delete_failed : forall bucket name s s' e, pDelete bucket name s = (Err e, s') ->
    holding s' bucket = holding s bucket \/ holding s' bucket = delete name (holding s bucket);
  delete_found : forall bucket name s s' n, pDelete bucket name s <> (Err (ErrObjectNotFound n), s');
  put_stream_ok : forall bucket o s s', pPutStream bucket o s = (Ok tt, s') ->
    ended (so_Data o) /\ exists created,
      holding s' bucket = <[so_Name o := mkStored (rd_data (so_Data o)) (so_Meta o) created]> (holding s bucket);
  put_stream_failed : forall bucket o s s' e, pPutStream bucket o s = (Err e, s') ->
    holding s' bucket = holding s bucket \/
    (ended (so_Data o) /\ exists created,
      holding s' bucket = <[so_Name o := mkStored (rd_data (so_Data o)) (so_Meta o) created]> (holding s bucket));
  get_stream_ok : forall bucket name offset length s s' r, pGetStream bucket name offset length s = (Ok r, s') ->
    holding s' bucket = holding s bucket /\
    exists st, holding s bucket !! name = Some st /\
      (rd_error r = None -> rd_data r = range (sd_Data st) offset length) /\
      exists rest, range (sd_Data st) offset length = rd_data r +:+ rest;
  get_stream_failed : forall bucket name offset length s s' e, pGetStream bucket name offset length s = (Err e, s') ->
    holding s' bucket = holding s bucket /\ (forall n, e = ErrObjectNotFound n -> holding s bucket !! name = None)
}.

(** ** A provider for examples: buckets in memory, and a clock *)

Record cloud := mkCloud { cl_buckets : gmap string (gmap string Stored); cl_now : Time }.

Definition bucketOf (s : cloud) (bucket : string) : gmap string Stored := default ∅ (cl_buckets s !! bucket).

Definition withBucket (s : cloud) (bucket : string) (m : gmap string Stored) : cloud :=
  mkCloud (<[bucket := m]> (cl_buckets s)) (cl_now s + 1).

#[export] Instance cloudProvider : Provider cloud | 100 := {|
  pPut bucket o s :=
    (Ok tt, withBucket s bucket (<[o_Name o := mkStored (o_Data o) (o_Meta o) (cl_now s)]> (bucketOf s bucket)));
  pGet bucket name s :=
    (match bucketOf s bucket !! name with
     | Some st => Ok (mkObject name (sd_Data st) ∅)
     | None => Err (ErrObjectNotFound name)
     end, s);
  pList bucket prefix s :=
    (Ok (map infoOf (filter (fun no => HasPrefix no.1 prefix = true) (map_to_list (bucketOf s bucket)))), s);
  pDelete bucket name s := (Ok tt, withBucket s bucket (delete name (bucketOf s bucket)));
  pPutStream bucket o s :=
    match rd_error (so_Data o) with
    | Some (ReadError e) => (Err (ProviderFailed e), s)
    | _ =>
        (Ok tt, withBucket s bucket
                  (<[so_Name o := mkStored (rd_data (so_Data o)) (so_Meta o) (cl_now s)]> (bucketOf s bucket)))
    end;
  pGetStream bucket name offset length s :=
    (match bucketOf s bucket !! name with
     | Some st => Ok (mkReader (range (sd_Data st) offset length) None)
     | None => Err (ErrObjectNotFound name)
     end, s)
|}.

#[export] Program Instance cloudLaws : ProviderLaws cloud | 100 := {| holding s b := bucketOf s b |}.
Solve All Obligations with
  (intros; unfold bucketOf, withBucket, ended in *; cbn in *; repeat case_match; simplify_eq; cbn; rewrite ?lookup_insert_eq; cbn;
   naive_solver (eauto using app_string_nil_r)).
