(* ===== verification/Usage.v ===== *)
(** * What a bucket physically holds ([datasphere/usage.go])

    Counted from the provider's listing alone, with no key: how many objects, how
    many bytes, and their sizes in bands that double. *)

From Stdlib Require Import Ascii.
From S2P Require Import Prelude Effect GoTime GoStrings LogicalKey Keyring KeyringFacts Slices Cipher Names Blob Stream Provider.

Record SizeBucket := mkSizeBucket { sb_UpTo : Z; sb_Objects : Z; sb_Bytes : Z }.

Record Usage := mkUsage {
  u_Objects : Z;
  u_StoredBytes : Z;
  u_Oldest : Time;
  u_Newest : Time;
  u_Sizes : list SizeBucket
}.

Fixpoint boundsFrom (fuel : nat) (n : Z) : list Z :=
  match fuel with
  | O => []
  | S fuel => if n <=? Z.shiftl 64 20 then n :: boundsFrom fuel (i64 (n * 2)) else []
  end.

Definition sizeBounds : list Z := boundsFrom 64 1024.

(** The band of a size: the first bound it fits, or the open-ended one. *)
Definition bandOf (size : Z) : nat :=
  match list_find (fun bound => size <= bound) sizeBounds with
  | Some (i, _) => i
  | None => length sizeBounds
  end.

Record tally := mkTally { t_usage : Usage; t_counts : list Z; t_bytes : list Z }.

Definition countInfo (t : tally) (info : ObjectInfo) : tally :=
  let u := t_usage t in
  let band := bandOf (oi_Size info) in
  let add n l := alter (fun c => i64 (c + n)) band l in
  let '(oldest, newest) :=
    if IsZero (oi_Created info) then (u_Oldest u, u_Newest u)
    else
      (if IsZero (u_Oldest u) || Before (oi_Created info) (u_Oldest u) then oi_Created info else u_Oldest u,
       if After (oi_Created info) (u_Newest u) then oi_Created info else u_Newest u) in
  mkTally (mkUsage (i64 (u_Objects u + 1)) (i64 (u_StoredBytes u + oi_Size info)) oldest newest (u_Sizes u))
    (add 1 (t_counts t)) (add (oi_Size info) (t_bytes t)).

(** The bands that are not empty, smallest first. *)
Definition bucketAt (icb : nat * (Z * Z)) : option SizeBucket :=
  let '(i, (n, b)) := icb in
  if n =? 0 then None else Some (mkSizeBucket (default 0 (sizeBounds !! i)) n b).

Definition sizesOf (counts bytes_ : list Z) : list SizeBucket :=
  omap bucketAt (zip (seq 0 (length counts)) (zip counts bytes_)).

Definition usageOf (infos : list ObjectInfo) : Usage :=
  let zeros := replicate (S (length sizeBounds)) 0 in
  let t := foldl countInfo (mkTally (mkUsage 0 0 zero_time zero_time []) zeros zeros) infos in
  let u := t_usage t in
  mkUsage (u_Objects u) (u_StoredBytes u) (u_Oldest u) (u_Newest u) (sizesOf (t_counts t) (t_bytes t)).

Definition BucketUsage {P} `{Provider P} (bucket : string) : eff P provider_error Usage :=
  infos ← pList bucket ""; mret (usageOf infos).

(** ** Bands *)

Definition sum (l : list Z) : Z := foldr Z.add 0 l.
Definition sizes (infos : list ObjectInfo) : list Z := map oi_Size infos.
Definition inBand (i : nat) (infos : list ObjectInfo) : list ObjectInfo :=
  filter (fun info => bandOf (oi_Size info) = i) infos.

Lemma sum_app l l' : sum (l ++ l') = sum l + sum l'.
Proof. unfold sum. induction l as [|x l IH]; cbn; [done|]. rewrite IH. lia. Qed.

Lemma sum_nonneg l : Forall (fun x => 0 <= x) l -> 0 <= sum l.
Proof. induction 1 as [|x l Hx _ IH]; cbn; [lia|]. unfold sum in IH. lia. Qed.

Lemma bandOf_lt size : (bandOf size < S (length sizeBounds))%nat.
Proof.
  unfold bandOf. destruct (list_find _ _) as [[i b]|] eqn:E; [|lia].
  apply list_find_Some in E as (Hl & _). apply lookup_lt_Some in Hl. lia.
Qed.

(** A band holds the sizes above the band before and up to its own bound. *)
Lemma bandOf_bound size i b : bandOf size = i -> sizeBounds !! i = Some b ->
  size <= b /\ forall j b', (j < i)%nat -> sizeBounds !! j = Some b' -> b' < size.
Proof.
  unfold bandOf. destruct (list_find _ _) as [[k c]|] eqn:E.
  - apply list_find_Some in E as (Hl & Hle & Hn). intros -> Hb. assert (c = b) as -> by congruence.
    split; [done|]. intros j b' Hj Hb'. specialize (Hn j b' Hb' Hj). lia.
  - intros <- Hb. by rewrite lookup_ge_None_2 in Hb by lia.
Qed.

(** The counts of a listing, band by band. *)
Definition banded (infos : list ObjectInfo) (f : list ObjectInfo -> Z) : list Z :=
  map (fun i => f (inBand i infos)) (seq 0 (S (length sizeBounds))).

Lemma banded_lookup infos f i : (i < S (length sizeBounds))%nat -> banded infos f !! i = Some (f (inBand i infos)).
Proof. intros Hi. unfold banded. rewrite list_lookup_fmap, lookup_seq_lt by done. done. Qed.

Lemma inBand_snoc i infos info :
  inBand i (infos ++ [info]) = inBand i infos ++ (if decide (bandOf (oi_Size info) = i) then [info] else []).
Proof. unfold inBand. by rewrite filter_app, filter_cons. Qed.

Lemma banded_snoc infos info f n :
  (forall l, f (l ++ [info]) = i64 (f l + n)) ->
  banded (infos ++ [info]) f = alter (fun c => i64 (c + n)) (bandOf (oi_Size info)) (banded infos f).
Proof.
  intros Hf. apply list_eq. intros i. destruct (decide (i < S (length sizeBounds))%nat) as [Hi|Hi].
  - rewrite banded_lookup, inBand_snoc by done. case_decide as E.
    + rewrite E, list_lookup_alter_eq, banded_lookup by done. cbn. by rewrite Hf.
    + rewrite list_lookup_alter_ne by done. by rewrite banded_lookup, app_nil_r.
  - rewrite !lookup_ge_None_2; [done| |]; unfold banded; rewrite ?length_alter, length_map, length_seq; lia.
Qed.

(** Splitting a listing by band loses nothing. *)
Lemma bands_partition (f : ObjectInfo -> Z) infos :
  sum (map (fun i => sum (map f (inBand i infos))) (seq 0 (S (length sizeBounds)))) = sum (map f infos).
Proof.
  induction infos as [|info infos IH] using rev_ind.
  - generalize (seq 0 (S (length sizeBounds))). intros l. induction l as [|x l IHl]; [done|].
    cbn [map]. change (sum (?x :: ?y)) with (x + sum y). by rewrite IHl.
  - rewrite map_app, sum_app, <- IH. clear IH. pose proof (bandOf_lt (oi_Size info)) as Hb.
    assert (forall l, NoDup l -> sum (map (fun i => sum (map f (inBand i (infos ++ [info])))) l) =
      sum (map (fun i => sum (map f (inBand i infos))) l) + (if decide (bandOf (oi_Size info) ∈ l) then f info else 0)) as Hl.
    { induction l as [|i l IHl]; intros Hnd; [by rewrite decide_False by apply not_elem_of_nil|].
      apply NoDup_cons in Hnd as [Hni Hnd]. cbn [map]. change (sum (?x :: ?y)) with (x + sum y). rewrite IHl by done.
      rewrite inBand_snoc, map_app, sum_app. destruct (decide (bandOf (oi_Size info) = i)) as [E|E]; cbn [map sum foldr].
      - rewrite decide_False by congruence. rewrite decide_True by (rewrite E; by left). cbn. lia.
      - rewrite (decide_ext (bandOf (oi_Size info) ∈ i :: l) (bandOf (oi_Size info) ∈ l)) by (rewrite elem_of_cons; tauto). cbn. lia. }
    rewrite Hl by apply NoDup_seq. rewrite decide_True; [cbn; lia|]. apply elem_of_seq. lia.
Qed.

(** ** The tally *)

Definition countOf (l : list ObjectInfo) : Z := i64 (Z.of_nat (length l)).
Definition bytesOf (l : list ObjectInfo) : Z := i64 (sum (sizes l)).

Definition emptyTally : tally :=
  mkTally (mkUsage 0 0 zero_time zero_time []) (replicate (S (length sizeBounds)) 0) (replicate (S (length sizeBounds)) 0).

Lemma countInfo_spec infos : let t := foldl countInfo emptyTally infos in
  u_Objects (t_usage t) = countOf infos /\ u_StoredBytes (t_usage t) = bytesOf infos /\
  t_counts t = banded infos countOf /\ t_bytes t = banded infos bytesOf.
Proof.
  induction infos as [|info infos IH] using rev_ind.
  - split_and!; try done; cbn [foldl emptyTally t_counts t_bytes]; apply list_eq; intros i;
      (destruct (decide (i < S (length sizeBounds))%nat);
       [by rewrite lookup_replicate_2, banded_lookup
       |rewrite !lookup_ge_None_2; [done|unfold banded; rewrite length_map, length_seq; lia|rewrite length_replicate; lia]]).
  - rewrite foldl_app. cbn [foldl]. destruct IH as (I1 & I2 & I3 & I4).
    set (t := foldl countInfo emptyTally infos) in *. unfold countInfo.
    destruct (IsZero (oi_Created info)); cbn [t_usage u_Objects u_StoredBytes t_counts t_bytes].
    all: cbv zeta in *; rewrite I1, I2, I3, I4; split_and!;
      [unfold countOf; rewrite length_app, i64_add_l; f_equal; cbn; lia
      |unfold bytesOf, sizes; rewrite map_app, sum_app, i64_add_l; f_equal; cbn; lia
      |symmetry; apply banded_snoc; intros l; unfold countOf; rewrite length_app, i64_add_l; f_equal; cbn; lia
      |symmetry; apply banded_snoc; intros l; unfold bytesOf, sizes; rewrite map_app, sum_app, i64_add_l; f_equal; cbn; lia].
Qed.

(** A band that is left out held nothing. *)
Lemma sizesOf_sums (f : nat -> Z) (g : nat -> Z) n : (forall i, f i = 0 -> g i = 0) ->
  let l := omap bucketAt (map (fun i => (i, (f i, g i))) n) in
  sum (map sb_Objects l) = sum (map f n) /\ sum (map sb_Bytes l) = sum (map g n) /\
  forall b, b ∈ l -> exists i, i ∈ n /\ f i <> 0 /\ b = mkSizeBucket (default 0 (sizeBounds !! i)) (f i) (g i).
Proof.
  intros H0 l. unfold l. clear l. induction n as [|i n (I1 & I2 & I3)]; [split_and!; [done|done|set_solver]|].
  cbn [map]. change (omap bucketAt (?x :: ?l)) with (match bucketAt x with Some y => y :: omap bucketAt l | None => omap bucketAt l end).
  destruct (bucketAt (i, (f i, g i))) as [y|] eqn:Ey; unfold bucketAt in Ey; destruct (Z.eqb_spec (f i) 0) as [Ef|Ef]; try discriminate Ey; cycle 1.
  - rewrite I1, I2. change (sum (?x :: ?y)) with (x + sum y). rewrite (H0 i Ef), Ef. split_and!; [done|done|].
    intros b Hb. apply I3 in Hb as (j & ? & ?). exists j. split; [by right|done].
  - apply (inj Some) in Ey as <-. cbn [map sb_Objects sb_Bytes]. change (sum (?x :: ?y)) with (x + sum y). rewrite I1, I2. split_and!; [done|done|].
    intros b [->|Hb]%elem_of_cons; [exists i; by split_and!; [left|..]|].
    apply I3 in Hb as (j & ? & ?). exists j. split; [by right|done].
Qed.

Lemma zip_banded infos :
  zip (seq 0 (length (banded infos countOf))) (zip (banded infos countOf) (banded infos bytesOf)) =
  map (fun i => (i, (countOf (inBand i infos), bytesOf (inBand i infos)))) (seq 0 (S (length sizeBounds))).
Proof.
  unfold banded. rewrite length_map, length_seq. generalize (seq 0 (S (length sizeBounds))). intros l.
  induction l as [|i l IH]; [done|]. cbn. by rewrite IH.
Qed.

Lemma sum_inBand_le infos i : Forall (fun info => 0 <= oi_Size info) infos ->
  0 <= sum (sizes (inBand i infos)) <= sum (sizes infos).
Proof.
  unfold sizes. induction 1 as [|info infos Hs _ IH]; [done|]. unfold inBand. rewrite filter_cons.
  fold (inBand i infos). case_decide; cbn; unfold sum in *; cbn; lia.
Qed.

(** ** Properties *)

(** Nothing a bucket holds goes uncounted: the objects and bytes reported are all
    of the listing's, the bands add up to the totals, and each band that appears counts
    exactly the objects larger than the bound before it and no larger than its own. *)
Theorem usage_accounts_for_everything infos :
  Forall (fun info => 0 <= oi_Size info) infos -> sum (sizes infos) < 2 ^ 63 -> Z.of_nat (length infos) < 2 ^ 63 ->
  let u := usageOf infos in
  u_Objects u = Z.of_nat (length infos) /\ u_StoredBytes u = sum (sizes infos) /\
  sum (map sb_Objects (u_Sizes u)) = u_Objects u /\ sum (map sb_Bytes (u_Sizes u)) = u_StoredBytes u /\
  forall b, b ∈ u_Sizes u -> exists i, sb_UpTo b = default 0 (sizeBounds !! i) /\
    sb_Objects b = Z.of_nat (length (inBand i infos)) /\ 0 < sb_Objects b /\
    forall info bound, info ∈ inBand i infos -> sizeBounds !! i = Some bound ->
      oi_Size info <= bound /\ forall j b', (j < i)%nat -> sizeBounds !! j = Some b' -> b' < oi_Size info.
Proof.
  intros Hs Hb Hn u. assert (0 <= sum (sizes infos)) as Hp by (apply sum_nonneg, Forall_fmap; exact Hs).
  destruct (countInfo_spec infos) as (T1 & T2 & T3 & T4).
  assert (u_Objects u = Z.of_nat (length infos)) as E1.
  { unfold u, usageOf. cbn [u_Objects]. fold emptyTally. rewrite T1. apply i64_small. lia. }
  assert (u_StoredBytes u = sum (sizes infos)) as E2.
  { unfold u, usageOf. cbn [u_StoredBytes]. fold emptyTally. rewrite T2. apply i64_small. lia. }
  assert (forall i, countOf (inBand i infos) = Z.of_nat (length (inBand i infos))) as Ec.
  { intros i. apply i64_small. pose proof (length_filter (fun info => bandOf (oi_Size info) = i) infos). unfold inBand. lia. }
  assert (forall i, bytesOf (inBand i infos) = sum (sizes (inBand i infos))) as Eb.
  { intros i. apply i64_small. pose proof (sum_inBand_le infos i Hs). lia. }
  assert (u_Sizes u = omap bucketAt
    (map (fun i => (i, (countOf (inBand i infos), bytesOf (inBand i infos)))) (seq 0 (S (length sizeBounds))))) as Es.
  { unfold u, usageOf. cbn [u_Sizes]. fold emptyTally. rewrite T3, T4. unfold sizesOf. by rewrite zip_banded. }
  destruct (sizesOf_sums (fun i => countOf (inBand i infos)) (fun i => bytesOf (inBand i infos))
    (seq 0 (S (length sizeBounds)))) as (S1 & S2 & S3).
  { intros i. rewrite Ec, Eb. destruct (inBand i infos); [done|cbn [length]; lia]. }
  rewrite <- Es in S1, S2, S3. split_and!; [done|done| | |].
  - rewrite S1, E1. rewrite (map_ext _ (fun i => sum (map (fun _ => 1) (inBand i infos)))).
    + rewrite bands_partition. clear. induction infos as [|? ? IH]; [done|]. cbn [map length]. change (sum (?x :: ?y)) with (x + sum y). lia.
    + intros i. rewrite Ec. generalize (inBand i infos). clear. intros l. induction l as [|? ? IH]; [done|].
      cbn [map length]. change (sum (?x :: ?y)) with (x + sum y). lia.
  - rewrite S2, E2, (map_ext _ _ Eb). apply (bands_partition oi_Size).
  - intros b Hb'. destruct (S3 b Hb') as (i & Hi & Hne & ->). exists i. cbn. rewrite Ec in *. split_and!; [done|done|lia|].
    intros info bound [Hin _]%list_elem_of_filter Hbound. by apply bandOf_bound.
Qed.

(** *** Witness *)

Definition exInfo (name : string) (n : Z) : ObjectInfo := mkObjectInfo name n 5 ∅.

Lemma usage_accounts_for_everything_witness :
  u_Objects (usageOf [exInfo "a" 10; exInfo "b" 2000; exInfo "c" 1024]) = 3 /\
  sum (map sb_Bytes (u_Sizes (usageOf [exInfo "a" 10; exInfo "b" 2000; exInfo "c" 1024]))) = 3034.
Proof.
  destruct (usage_accounts_for_everything [exInfo "a" 10; exInfo "b" 2000; exInfo "c" 1024]) as (H1 & H2 & _ & H4 & _).
  - repeat constructor; vm_compute; discriminate.
  - vm_compute. reflexivity.
  - vm_compute. reflexivity.
  - split; [exact H1|]. rewrite H4, H2. reflexivity.
Defined.
