(* ===== verification/Store.v ===== *)
(** * The encrypting store ([datasphere/store.go], [rekey.go])

    Logical keys and plaintext above, opaque names and sealed blobs below: the store
    keeps its objects in a [Provider], each under the path of its key, its name
    sealed in the blob's header and mirrored in the object's metadata. *)

From Stdlib Require Import Ascii.
From S2P Require Import Prelude Effect GoTime GoStrings LogicalKey Encoding Keyring KeyringFacts Slices Cipher Names.
From S2P Require Import Blob Stream Provider.

Definition MetaName : string := "farcast-name".
Definition MaxHeaderLen : Z := HeaderLen + NonceLen + 1056 + TagLen + SaltLen + 1.

Record Store := mkStore {
  s_bucket : string;
  s_keys : Keyring;
  s_nameKey : string;
  s_tokenKey : string
}.

Record Entry := mkEntry { e_Key : string; e_Stored : string; e_Size : Z; e_Created : Time }.

Inductive store_error :=
| NoBucket
| InvalidKeyring (e : keyring_error)
| DeriveTokenKey (e : string)
| InvalidKey (e : key_error)
| FromProvider (e : provider_error)
| FromBlob (e : blob_error)
| ReadFailed (e : string)
| ErrForeignObject
| IncompleteName
| NameError (stored : string) (e : store_error).

Definition encodeMirror (sealed : string) : string := Base64EncodeToString sealed.

Section store.
Context `{Cipher}.

Definition NewStore (bucket : string) (keys : Keyring) : result store_error Store :=
  if decide (bucket = "") then Err NoBucket
  else
    _ ← wrapErr InvalidKeyring (Valid keys);
    nameKey ← wrapErr InvalidKeyring (ActiveNameKey keys);
    tokenKey ← wrapErr DeriveTokenKey (NameTokenKey (ke_key nameKey));
    Ok (mkStore bucket keys (ke_key nameKey) tokenKey).

Definition StoredName (s : Store) (key : string) : result store_error string :=
  _ ← wrapErr InvalidKey (ValidateLogicalKey key);
  Ok (TokenPath (s_tokenKey s) key).

Definition StoredPrefix (s : Store) (prefix : string) : string := TokenPrefix (s_tokenKey s) prefix.

Definition activeKey (s : Store) : result store_error Key :=
  kek ← wrapErr InvalidKeyring (ActiveKEK (s_keys s));
  Ok (mkKey (ke_ID kek) (ke_key kek)).

Definition lookupOf (s : Store) : KeyLookup := lookupKEK (s_keys s).

Section operations.
Context {W P : Type} `{Entropy W, Provider P}.

Definition onCloud {A} (m : eff P provider_error A) : eff (W * P) store_error A := fun s =>
  let '(r, p) := m s.2 in (wrapErr FromProvider r, (s.1, p)).

Definition Read (s : Store) (key : string) : eff (W * P) store_error string :=
  stored ← lift (StoredName s key);
  obj ← onCloud (pGet (s_bucket s) stored);
  lift (wrapErr FromBlob (Open (lookupOf s) key (o_Data obj))).

Definition Write (s : Store) (key data : string) : eff (W * P) store_error unit :=
  stored ← lift (StoredName s key);
  kek ← lift (activeKey s);
  '(blob, sealedName) ← withErr FromBlob (Seal kek (s_nameKey s) stored key data);
  onCloud (pPut (s_bucket s) (mkObject stored blob {[ MetaName := encodeMirror sealedName ]})).

Definition Delete (s : Store) (key : string) : eff (W * P) store_error unit :=
  stored ← lift (StoredName s key);
  onCloud (pDelete (s_bucket s) stored).

(** ** Listing *)

(** [io.ReadAll(io.LimitReader(body, limit))]. *)
Definition readLimited (r : Reader) (limit : Z) : result store_error string :=
  if limit <=? len (rd_data r) then Ok (slice (rd_data r) 0 limit)
  else match rd_error r with Some e => Err (ReadFailed (readErrorText e)) | None => Ok (rd_data r) end.

Definition header (s : Store) (stored : string) : eff (W * P) store_error string :=
  body ← onCloud (pGetStream (s_bucket s) stored 0 MaxHeaderLen);
  lift (readLimited body MaxHeaderLen).

(** The name of an entry's mirror, when it has one that opens. *)
Definition mirrorName (s : Store) (info : ObjectInfo) : option string :=
  let mirror := (oi_Meta info).[MetaName] in
  if decide (mirror = "") then None
  else
    match Base64DecodeString mirror with
    | None => None
    | Some sealed =>
        match OpenName (s_nameKey s) (oi_Name info) sealed with Ok name => Some name | Err _ => None end
    end.

Definition logicalName (s : Store) (info : ObjectInfo) : eff (W * P) store_error string :=
  match mirrorName s info with
  | Some name => mret name
  | None =>
      head ← withErr (NameError (oi_Name info)) (header s (oi_Name info));
      h ← lift (wrapErr (fun e => NameError (oi_Name info) (FromBlob e)) (ParseHeader head));
      lift (wrapErr (fun _ => NameError (oi_Name info) ErrForeignObject)
              (OpenName (s_nameKey s) (oi_Name info) (h_SealedName h)))
  end.

(** One pass of [ListEntries]: an entry, or a failure kept for the end. *)
Definition listEntry (s : Store) (prefix : string) (acc : list Entry * list store_error) (info : ObjectInfo)
    : eff (W * P) store_error (list Entry * list store_error) :=
  let '(entries, failures) := acc in
  name ← try (logicalName s info);
  mret match name with
       | Err e => (entries, failures ++ [e])
       | Ok name =>
           if HasPrefix name prefix
           then (entries ++ [mkEntry name (oi_Name info) (oi_Size info) (oi_Created info)], failures)
           else (entries, failures)
       end.

(** The entries, and the failures that are joined beside them. *)
Definition ListEntries (s : Store) (prefix : string) : eff (W * P) store_error (list Entry * list store_error) :=
  infos ← onCloud (pList (s_bucket s) (StoredPrefix s prefix));
  '(entries, failures) ← foldE (listEntry s prefix) ([], []) infos;
  mret (sort_slice (fun a b => string_ltb (e_Key a) (e_Key b)) entries, failures).

Definition List (s : Store) (prefix : string) : eff (W * P) store_error (list string * list store_error) :=
  '(entries, failures) ← ListEntries s prefix;
  mret (map e_Key entries, failures).

(** ** Streams *)

(** [SealStream] writing into the pipe the upload reads: the upload reads its bytes,
    then its end or that it failed.  No failure of [SealStream] is taken for the end
    there: of a source it passes on only errors that are not [io.ErrUnexpectedEOF],
    and [rand.Reader] is never short. *)
Definition sealInto (s : Store) (kek : Key) (key sealedName : string) (r : Reader) : eff W store_error Reader := fun w =>
  let '(res, (w, out)) := SealStream collect kek key sealedName DefaultChunkExp r (w, "") in
  (Ok (mkReader out (match res with Ok _ => None | Err _ => Some (ReadError "seal") end)), w).

Definition onEntropy {A} (m : eff W store_error A) : eff (W * P) store_error A := fun s =>
  let '(r, w) := m s.1 in (r, (w, s.2)).

Definition WriteStream (s : Store) (key : string) (r : Reader) : eff (W * P) store_error unit :=
  stored ← lift (StoredName s key);
  kek ← lift (activeKey s);
  sealedName ← withErr FromBlob (SealName (s_nameKey s) stored key);
  body ← onEntropy (sealInto s kek key sealedName r);
  onCloud (pPutStream (s_bucket s) (mkStreamObject stored body (-1) {[ MetaName := encodeMirror sealedName ]})).

(** [ReadStream], with the bytes it has written when it returns. *)
Definition ReadStream (s : Store) (key : string) : eff (W * P) store_error (result blob_error unit * string) :=
  stored ← lift (StoredName s key);
  body ← onCloud (pGetStream (s_bucket s) stored 0 (-1));
  mret (OpenStream collect (lookupOf s) key body "").

(** ** Rekeying *)

Definition readHead (r : Reader) : result store_error (string * Reader) :=
  if MaxHeaderLen <=? len (rd_data r)
  then Ok (slice (rd_data r) 0 MaxHeaderLen, mkReader (after (rd_data r) MaxHeaderLen) (rd_error r))
  else if len (rd_data r) <? HeaderLen then Err (FromBlob ErrIntegrity)
  else Ok (rd_data r, mkReader "" (rd_error r)).

Definition sealedNameOf (head : string) : result store_error string :=
  let nameLen := Uint16 (slice head 73 75) in
  if (nameLen <? NonceLen + TagLen) || (len head <? HeaderLen + nameLen) then Err IncompleteName
  else Ok (encodeMirror (slice head HeaderLen (HeaderLen + nameLen))).

Definition Rekey (s : Store) (key : string) : eff (W * P) store_error bool :=
  stored ← lift (StoredName s key);
  kek ← lift (activeKey s);
  body ← onCloud (pGetStream (s_bucket s) stored 0 (-1));
  '(head, body) ← lift (readHead body);
  if decide (slice head 5 (5 + KeyIDLen) = k_ID kek) then mret false
  else
    prefix ← withErr FromBlob (RekeyPrefix (lookupOf s) kek head);
    sealedName ← lift (sealedNameOf head);
    let head := prefix +:+ after head (len prefix) in
    _ ← onCloud (pPutStream (s_bucket s)
                   (mkStreamObject stored (mkReader (head +:+ rd_data body) (rd_error body)) (-1)
                      {[ MetaName := sealedName ]}));
    mret true.

End operations.
End store.
