(* ===== verification/StoreFacts.v ===== *)
(** * What the store keeps

    An object's value is what its blob opens as under the store's keys.  Against
    that view the operations are those of a map from logical keys to bytes; a
    listing finds every name that was written; a rekey changes no value. *)

From Stdlib Require Import Ascii.
From S2P Require Import Prelude Effect GoTime GoStrings LogicalKey Encoding Keyring KeyringFacts KeyringFile Slices Cipher.
From S2P Require Import Names Blob Stream Provider Store.

(** ** The store's keys *)

(** Key identifiers are arrays of 8 bytes. *)
Record store_ok (s : Store) : Prop := {
  so_entries : entries_ok (kr_keys (s_keys s));
  so_ids : ids_ok (kr_keys (s_keys s))
}.

Section keys.
Context `{Cipher}.

Lemma NewStore_ok bucket keys s : NewStore bucket keys = Ok s -> ids_ok (kr_keys keys) ->
  store_ok s /\ s_bucket s = bucket /\ s_keys s = keys.
Proof.
  unfold NewStore. case_decide; [done|]. intros E Hids. apply bind_ok in E as ([] & Ev & E).
  apply bind_ok in E as (nk & _ & E). apply bind_ok in E as (tk & _ & E). injection E as <-.
  split; [|done]. split; [|done]. cbn. destruct (Valid keys) as [[]|] eqn:Hv; [|done].
  by apply Valid_spec in Hv as [_ ? _].
Qed.

Lemma activeKey_ok s kek : store_ok s -> activeKey s = Ok kek ->
  lookupOf s (k_ID kek) = Some (k_Material kek) /\ len (k_ID kek) = KeyIDLen.
Proof.
  intros [_ Hids] E. unfold activeKey in E. apply bind_ok in E as (e & Ea & [= <-]). cbn.
  unfold ActiveKEK in Ea. unfold lookupOf, lookupKEK. destruct (kr_keys (s_keys s)) as [|e' es]; [done|].
  cbn in Ea. injection Ea as ->. apply Forall_cons in Hids as [Hid _]. split; [|done].
  cbn. by rewrite decide_True.
Qed.

End keys.

(** ** Steps that only draw randomness *)

Definition draws {W P E A} (m : eff (W * P) E A) : Prop := leaves snd m.

Section draws.
Context {W P : Type} `{Entropy W}.

Lemma draws_read n : draws (P := P) (ReadFull (W := W * P) n).
Proof. intros [w p] r s'. cbn. destruct (ReadFull n w). by intros [= _ <-]. Qed.

Lemma draws_readRand {E} n (f : string -> E) : draws (P := P) (readRand (W := W * P) n f).
Proof. apply leaves_bind; [apply leaves_try, draws_read|intros; apply leaves_lift]. Qed.

Hint Extern 1 (leaves snd (readRand _ _)) => apply draws_readRand : leaves.

Context `{Cipher}.

Lemma draws_SealName nk path key : draws (SealName (W := W * P) nk path key).
Proof. unfold draws, SealName. leave. Qed.

Hint Extern 1 (leaves snd (SealName _ _ _)) => apply draws_SealName : leaves.

Lemma draws_Seal kek nk path key data : draws (Seal (W := W * P) kek nk path key data).
Proof. unfold draws, Seal. leave. Qed.

Lemma draws_RekeyPrefix lookup kek prefix : draws (RekeyPrefix (W := W * P) lookup kek prefix).
Proof. unfold draws, RekeyPrefix. leave. Qed.

End draws.

(** ** What an object is worth *)

Section values.
Context `{CipherLaws} {W P : Type} `{Entropy W, ProviderLaws P}.

Definition pathOf (s : Store) (key : string) : string := TokenPath (s_tokenKey s) key.
Definition objects (s : Store) (p : P) : gmap string Stored := holding p (s_bucket s).

Definition blobValue (s : Store) (key blob : string) : option string :=
  match Open (lookupOf s) key blob with Ok d => Some d | Err _ => None end.

(** The value of a key: what the blob at its path opens as. *)
Definition value (s : Store) (p : P) (key : string) : option string :=
  st ← objects s p !! pathOf s key; blobValue s key (sd_Data st).

Lemma blobValue_some s key b d : blobValue s key b = Some d <-> Open (lookupOf s) key b = Ok d.
Proof. unfold blobValue. destruct (Open _ _ _); naive_solver. Qed.

(** The same objects but for one. *)
Lemma value_other s p p' name st key : objects s p' = <[name := st]> (objects s p) -> pathOf s key <> name ->
  value s p' key = value s p key.
Proof. unfold value. intros -> Hne. by rewrite lookup_insert_ne. Qed.

Lemma value_at s p p' key st : objects s p' = <[pathOf s key := st]> (objects s p) ->
  value s p' key = blobValue s key (sd_Data st).
Proof. unfold value. intros ->. by rewrite lookup_insert_eq. Qed.

Lemma value_same s p p' key : objects s p' = objects s p -> value s p' key = value s p key.
Proof. unfold value. by intros ->. Qed.

Lemma onCloud_inv {A} (m : eff P provider_error A) w p r w' p' : onCloud (W := W) m (w, p) = (r, (w', p')) ->
  w' = w /\ exists r', m p = (r', p') /\ r = wrapErr FromProvider r'.
Proof.
  unfold onCloud. cbn. destruct (m p) as [r' p1]. intros [= <- <- <-]. eauto.
Qed.

Lemma onCloud_ok {A} (m : eff P provider_error A) w p a w' p' : onCloud (W := W) m (w, p) = (Ok a, (w', p')) ->
  w' = w /\ m p = (Ok a, p').
Proof.
  intros (Hw & r & Hm & Hr)%onCloud_inv. split; [done|]. destruct r; [|done]. by injection Hr as ->.
Qed.

Lemma StoredName_ok s key name : StoredName s key = Ok name ->
  name = pathOf s key /\ ValidateLogicalKey key = Ok tt.
Proof.
  unfold StoredName. intros E. apply bind_ok in E as ([] & Ev & [= <-]). split; [done|].
  by destruct (ValidateLogicalKey key) as [[]|].
Qed.

(** A blob that was sealed for a key is worth what was sealed. *)
Lemma sealed_value s kek key path data b sn : store_ok s -> activeKey s = Ok kek ->
  sealedBlob kek (s_nameKey s) path key data b sn -> blobValue s key b = Some data.
Proof.
  intros Hs Ha Hb. destruct (activeKey_ok s kek Hs Ha) as [Hl Hid].
  destruct (sealedBlob_parses _ _ _ _ _ _ _ Hid Hb) as (h & dek & dn & Hp & Ev & Ei & En & Hdn & Hd & Ebody & Hwr).
  apply blobValue_some, Open_versions. exists h. apply ParseHeader_spec in Hp as Eh. split; [done|left; split; [done|]].
  apply openBody_spec; [rewrite Ebody, len_app, Hdn; pose proof (len_nonneg (gcmSeal dek dn data (dataAAD key))); lia|].
  exists dek, dn. rewrite Ev, Ei. split_and!; try done. by apply Hwr.
Qed.

(** Steps that leave the objects as they were. *)
Definition keeps {E A} (s : Store) (m : eff (W * P) E A) : Prop := leaves (fun st => objects s st.2) m.

Lemma keeps_get s name offset n : keeps s (onCloud (pGetStream (s_bucket s) name offset n)).
Proof.
  intros [w p] r [w' p'] (-> & r' & E & _)%onCloud_inv. unfold objects. cbn. destruct r' as [body|e].
  - by apply get_stream_ok in E as [-> _].
  - by apply get_stream_failed in E as [-> _].
Qed.

Lemma keeps_draws {E A} s (m : eff (W * P) E A) : draws m -> keeps s m.
Proof. intros Hm st r st' E1. by rewrite (Hm _ _ _ E1). Qed.

Lemma keeps_then {E A B} s (m : eff (W * P) E A) (f : A -> eff (W * P) E B) st r st' :
  keeps s m -> (m ≫= f) st = (r, st') ->
  (is_ok r = false /\ objects s st'.2 = objects s st.2) \/
  exists a st1, m st = (Ok a, st1) /\ objects s st1.2 = objects s st.2 /\ f a st1 = (r, st').
Proof. exact (leaves_then (fun st => objects s st.2) m f st r st'). Qed.

(** The objects are as they were, or one is replaced. *)
Definition replaced (s : Store) (p p' : P) (key blob : string) (meta : gmap string string) : Prop :=
  exists created, objects s p' = <[pathOf s key := mkStored blob meta created]> (objects s p).

Lemma put_cases s key blob meta w p r w' p' :
  onCloud (W := W) (pPut (s_bucket s) (mkObject (pathOf s key) blob meta)) (w, p) = (r, (w', p')) ->
  replaced s p p' key blob meta \/ (is_ok r = false /\ objects s p' = objects s p).
Proof.
  intros (_ & r' & E & ->)%onCloud_inv. destruct r' as [[]|e].
  - left. exact (put_ok _ _ _ _ E).
  - apply put_failed in E as [E|E]; [by right|left; exact E].
Qed.

Lemma put_stream_cases s key body meta w p r w' p' :
  onCloud (W := W) (pPutStream (s_bucket s) (mkStreamObject (pathOf s key) body (-1) meta)) (w, p) = (r, (w', p')) ->
  (ended body /\ replaced s p p' key (rd_data body) meta) \/ (is_ok r = false /\ objects s p' = objects s p).
Proof.
  intros (_ & r' & E & ->)%onCloud_inv. destruct r' as [[]|e].
  - left. exact (put_stream_ok _ _ _ _ E).
  - apply put_stream_failed in E as [E|E]; [by right|left; exact E].
Qed.

(** What a write does: the object is put, or nothing is and the caller is told. *)
Lemma Write_cases s key data w p r w' p' : Write s key data (w, p) = (r, (w', p')) ->
  (exists kek blob sn, activeKey s = Ok kek /\ ValidateLogicalKey key = Ok tt /\
     sealedBlob kek (s_nameKey s) (pathOf s key) key data blob sn /\
     replaced s p p' key blob {[ MetaName := encodeMirror sn ]}) \/
  (is_ok r = false /\ objects s p' = objects s p).
Proof.
  unfold Write. intros E. apply (keeps_then s) in E as [?|(stored & s1 & E1 & _ & E)]; [by right| |apply leaves_lift].
  apply lift_inv in E1 as [En ->]. apply StoredName_ok in En as [-> Hv].
  apply (keeps_then s) in E as [?|(kek & s1 & E1 & _ & E)]; [by right| |apply leaves_lift]. apply lift_inv in E1 as [Ek ->].
  apply (keeps_then s) in E as [?|([blob sn] & [w1 p1] & E1 & Ho & E)]; [by right| |apply leaves_withErr, keeps_draws, draws_Seal].
  apply withErr_inv in E1. pose proof (Seal_ok _ _ _ _ _ _ _ _ _ E1) as (_ & _ & Hb).
  apply put_cases in E as [E|[? E]]; [left|right; split; [done|cbn in *; congruence]].
  exists kek, blob, sn. split_and!; try done. unfold replaced. by setoid_rewrite <- Ho.
Qed.

(** ** Listing *)

Definition mirrorMeta (sealed : string) : gmap string string := {[ MetaName := encodeMirror sealed ]}.

(** The mirror of a name that was sealed for the object's path opens. *)
Lemma mirror_opens s key sn st : ValidateLogicalKey key = Ok tt -> sealedAs (s_nameKey s) (pathOf s key) key sn ->
  sd_Meta st = mirrorMeta sn -> mirrorName s (infoOf (pathOf s key, st)) = Some key.
Proof.
  intros Hv Hs Hm. pose proof (sealedAs_len _ _ _ _ Hs) as [_ Hl]. unfold mirrorName, infoOf. cbn [oi_Meta oi_Name fst snd].
  rewrite Hm. unfold mirrorMeta. rewrite lookup_singleton_eq. cbv zeta. cbn [default from_option id].
  pose proof (base64_string_roundtrip sn) as Hr. unfold encodeMirror. case_decide as Hz.
  - rewrite Hz in Hr. cbn in Hr. injection Hr as Hr. rewrite <- Hr in Hl. unfold NonceLen, TagLen in Hl. change (len "") with 0 in Hl.
    pose proof (len_nonneg key). destruct (paddedLen_spec (2 + len key) ltac:(lia)). lia.
  - rewrite Hr. rewrite (OpenName_sealed _ _ key) by (done || by apply ValidateLogicalKey_utf8). done.
Qed.

(** Where a listed name came from: the mirror, or the header of the object itself. *)
Definition nameFrom (s : Store) (p : P) (info : ObjectInfo) (name : string) : Prop :=
  mirrorName s info = Some name \/
  exists st head rest h, objects s p !! oi_Name info = Some st /\ sd_Data st = head +:+ rest /\
    ParseHeader head = Ok h /\ OpenName (s_nameKey s) (oi_Name info) (h_SealedName h) = Ok name.

Lemma readLimited_ok r n x : 0 <= n -> readLimited r n = Ok x -> exists rest, rd_data r = x +:+ rest.
Proof.
  intros Hn. unfold readLimited. destruct (n <=? _).
  - intros [= <-]. exists (after (rd_data r) n). by rewrite split_at.
  - destruct (rd_error r); [done|]. intros [= <-]. exists "". by rewrite app_string_nil_r.
Qed.

Lemma range_prefix data n : 0 <= n -> exists rest, data = range data 0 n +:+ rest.
Proof. intros Hn. unfold range. destruct (Z.ltb_spec n 0); [lia|]. exists (after data n). by rewrite split_at. Qed.

Lemma logicalName_spec s info w p r w' p' : logicalName (W := W) s info (w, p) = (r, (w', p')) ->
  objects s p' = objects s p /\
  (forall name, mirrorName s info = Some name -> r = Ok name) /\ (forall name, r = Ok name -> nameFrom s p info name).
Proof.
  unfold logicalName. destruct (mirrorName s info) as [name|] eqn:Em.
  { intros [= <- _ <-]. split; [done|]. split; [by intros ? [= <-]|]. intros ? [= <-]. by left. }
  unfold header. intros E. split; [|split; [done|]].
  - revert E. apply (leaves_bind (fun st => objects s st.2)); [apply leaves_withErr, leaves_bind; [apply keeps_get|]|];
      intros ?; leave.
  - intros name ->. apply bind_inv in E as (head & s1 & Eh & E). apply withErr_inv in Eh.
    apply bind_inv in Eh as (body & [w2 p2] & Eg & Eh). apply onCloud_ok in Eg as [-> Eg].
    apply get_stream_ok in Eg as (_ & st & Hst & _ & rest & Hr). apply lift_inv in Eh as [Eh ->].
    apply readLimited_ok in Eh as [rest' Eh]; [|done].
    apply bind_inv in E as (h & s2 & Ep & E). apply lift_inv in Ep as [Ep ->]. apply lift_inv in E as [Eo _].
    destruct (range_prefix (sd_Data st) MaxHeaderLen ltac:(done)) as [rest'' Hd].
    right. exists st, head. eexists. exists h. split; [done|]. split.
    { rewrite Hd, Hr, Eh, !app_string_assoc. reflexivity. }
    destruct (ParseHeader head) as [h'|]; [|done]. injection Ep as ->.
    by destruct (OpenName _ _ (h_SealedName h)) as [n|]; [injection Eo as ->|].
Qed.

(** What one pass over the provider's listing collects. *)
Record collected (s : Store) (p : P) (prefix : string) (infos : list ObjectInfo) (entries : list Entry)
    (failures : list store_error) : Prop := {
  cd_sound : forall e, e ∈ entries -> HasPrefix (e_Key e) prefix = true /\ exists info, info ∈ infos /\
    e_Stored e = oi_Name info /\ e_Size e = oi_Size info /\ e_Created e = oi_Created info /\ nameFrom s p info (e_Key e);
  cd_complete : forall info name, info ∈ infos -> mirrorName s info = Some name -> HasPrefix name prefix = true ->
    exists e, e ∈ entries /\ e_Key e = name /\ e_Stored e = oi_Name info;
  cd_reported : (length entries + length failures <= length infos)%nat;
  cd_failures : forall info, info ∈ infos -> failures = [] -> exists name, nameFrom s p info name
}.

Lemma nameFrom_same s p p' info name : objects s p' = objects s p -> nameFrom s p' info name -> nameFrom s p info name.
Proof. unfold nameFrom. by intros ->. Qed.

(** What a pass adds to the two lists. *)
Definition added (prefix : string) (info : ObjectInfo) (r : result store_error string) : list Entry * list store_error :=
  match r with
  | Err e => ([], [e])
  | Ok name =>
      if HasPrefix name prefix then ([mkEntry name (oi_Name info) (oi_Size info) (oi_Created info)], []) else ([], [])
  end.

Lemma listEntry_adds s prefix es fs info w p r w' p' : logicalName (W := W) s info (w, p) = (r, (w', p')) ->
  listEntry (W := W) s prefix (es, fs) info (w, p) =
    (Ok (es ++ (added prefix info r).1, fs ++ (added prefix info r).2), (w', p')).
Proof.
  intros E. unfold listEntry, mbind, eff_bind, try. rewrite E. destruct r as [name|e]; cbn; [|by rewrite app_nil_r].
  destruct (HasPrefix name prefix); cbn; by rewrite ?app_nil_r.
Qed.

Lemma collected_cons s p p' prefix info infos r es fs : objects s p' = objects s p ->
  (forall name, mirrorName s info = Some name -> r = Ok name) -> (forall name, r = Ok name -> nameFrom s p info name) ->
  collected s p' prefix infos es fs ->
  collected s p prefix (info :: infos) ((added prefix info r).1 ++ es) ((added prefix info r).2 ++ fs).
Proof.
  intros Ho Hm Hf [C1 C2 C3 C4]. split.
  - intros e [He|He]%elem_of_app.
    + destruct r as [name|x]; cbn in He; [|set_solver]. destruct (HasPrefix name prefix) eqn:Hp; [|set_solver].
      apply list_elem_of_singleton in He as ->. split; [done|]. exists info. split_and!; [by left|done..|by apply Hf].
    + apply C1 in He as (? & info' & Hi & ? & ? & ? & Hn). split; [done|]. exists info'.
      split_and!; [by right|done..|by eapply nameFrom_same].
  - intros info' name [->|Hi]%elem_of_cons Hn Hpre.
    + rewrite (Hm _ Hn). cbn. rewrite Hpre. eexists. split_and!; [by left|done|done].
    + destruct (C2 _ _ Hi Hn Hpre) as (e & He & ? & ?). exists e. split_and!; [apply elem_of_app; by right|done|done].
  - rewrite !length_app. destruct r as [name|x]; cbn; [destruct (HasPrefix name prefix)|]; cbn; lia.
  - intros info' [->|Hi]%elem_of_cons Hnil; apply app_nil in Hnil as [Hn1 Hn2].
    + destruct r as [name|x]; [|done]. exists name. by apply Hf.
    + destruct (C4 _ Hi Hn2) as [name' Hn]. exists name'. by eapply nameFrom_same.
Qed.

Lemma listEntries_collects s prefix infos : forall es fs w p, exists es' fs' w' p',
  foldE (listEntry (W := W) s prefix) (es, fs) infos (w, p) = (Ok (es ++ es', fs ++ fs'), (w', p')) /\
  objects s p' = objects s p /\ collected s p prefix infos es' fs'.
Proof.
  induction infos as [|info infos IH]; intros es fs w p; cbn [foldE].
  { exists [], [], w, p. rewrite !app_nil_r. split_and!; [done|done|]. split; cbn; [set_solver|set_solver|lia|set_solver]. }
  destruct (logicalName (W := W) s info (w, p)) as [r [w1 p1]] eqn:El.
  rewrite (bind_run _ _ _ _ _ (listEntry_adds _ prefix es fs _ _ _ _ _ _ El)).
  apply logicalName_spec in El as (Ho & Hm & Hf).
  destruct (IH (es ++ (added prefix info r).1) (fs ++ (added prefix info r).2) w1 p1) as (es' & fs' & w' & p' & E & Ho' & Hc).
  exists ((added prefix info r).1 ++ es'), ((added prefix info r).2 ++ fs'), w', p'.
  rewrite E, !app_assoc. split_and!; [done|congruence|]. by eapply collected_cons.
Qed.

Lemma keeps_ListEntries s prefix : keeps s (ListEntries (W := W) s prefix).
Proof.
  unfold keeps, ListEntries. apply leaves_bind.
  { intros [w p] r [w' p'] (-> & r' & E & _)%onCloud_inv. unfold objects. cbn. destruct r' as [infos|e].
    - by apply list_ok in E as [-> _].
    - by apply list_failed in E as ->. }
  intros infos. apply leaves_bind; [|intros [? ?]; leave]. apply leaves_foldE. intros [es fs] info [w p] r [w' p'] E.
  destruct (logicalName (W := W) s info (w, p)) as [x [w1 p1]] eqn:El.
  rewrite (listEntry_adds _ _ _ _ _ _ _ _ _ _ El) in E. injection E as _ <- <-. by apply logicalName_spec in El as [El _].
Qed.

Lemma keeps_List s prefix : keeps s (Store.List (W := W) s prefix).
Proof. unfold keeps, Store.List. apply leaves_bind; [apply keeps_ListEntries|intros [? ?]; leave]. Qed.

(** ** Streams *)

Lemma draws_sealInto s kek key sn r : draws (onEntropy (P := P) (sealInto (W := W) s kek key sn r)).
Proof.
  intros [w p] x st'. unfold onEntropy, sealInto. cbn [fst snd].
  destruct (SealStream collect kek key sn DefaultChunkExp r (w, "")) as [res [w1 out]]. by intros [= _ <-].
Qed.

Lemma WriteStream_cases s key data w p r w' p' : store_ok s -> WriteStream s key data (w, p) = (r, (w', p')) ->
  (ended data /\ exists id material wn dek sn salt frames blob,
    lookupOf s id = Some material /\ len material = KeyLen /\ len dek = KeyLen /\
    ValidateLogicalKey key = Ok tt /\ sealedAs (s_nameKey s) (pathOf s key) key sn /\
    streamed id wn (gcmSeal material wn dek (wrapAAD Version2 id)) sn salt DefaultChunkExp frames blob /\
    framed dek salt DefaultChunkExp key 0 (rd_data data) frames /\
    replaced s p p' key blob (mirrorMeta sn)) \/
  (is_ok r = false /\ objects s p' = objects s p).
Proof.
  intros Hs. unfold WriteStream. intros E.
  apply (keeps_then s) in E as [?|(stored & s1 & E1 & _ & E)]; [by right| |apply leaves_lift].
  apply lift_inv in E1 as [En ->]. apply StoredName_ok in En as [-> Hv].
  apply (keeps_then s) in E as [?|(kek & s1 & E1 & _ & E)]; [by right| |apply leaves_lift]. apply lift_inv in E1 as [Ek ->].
  destruct (activeKey_ok s kek Hs Ek) as [Hl Hid].
  apply (keeps_then s) in E as [?|(sn & [w1 p1] & E1 & Ho1 & E)]; [by right| |apply leaves_withErr, keeps_draws, draws_SealName].
  apply withErr_inv in E1. pose proof (SealName_ok _ _ _ _ _ _ E1) as Hsn.
  apply (keeps_then s) in E as [[? E]|(body & [w2 p2] & E1' & Ho2 & E)];
    [right; split; [done|cbn in *; congruence]| |apply keeps_draws, draws_sealInto].
  unfold onEntropy, sealInto in E1'. cbn [fst snd] in E1', Ho1, Ho2.
  destruct (SealStream collect kek key sn DefaultChunkExp data (w1, "")) as [res [w3 out]] eqn:Er. injection E1' as <- _ <-.
  apply put_stream_cases in E as [[He E]|[? E]]; [left|right; split; [done|cbn in *; congruence]].
  cbn [rd_data rd_error] in *. destruct res as [[]|e]; [|by destruct He].
  apply (SealStream_ok collect id) in Er as (_ & Hn & Hk & wn & dek & salt & fs & b & Hd & Hst & Hf & Ht);
    [|done|apply collect_appends].
  cbn [snd] in Ht. unfold id in Ht. rewrite nil_app in Ht. subst out.
  split; [done|]. exists (k_ID kek), (k_Material kek), wn, dek, sn, salt, fs, b. split_and!; try done.
  unfold replaced. by setoid_rewrite <- Ho1.
Qed.

(** ** Rekeying *)

Lemma readHead_ok r head body : readHead r = Ok (head, body) ->
  rd_data r = head +:+ rd_data body /\ rd_error body = rd_error r /\ HeaderLen <= len head.
Proof.
  unfold readHead. destruct (Z.leb_spec MaxHeaderLen (len (rd_data r))) as [Hm|Hm].
  - intros [= <- <-]. cbn. rewrite split_at by done. split_and!; [done|done|].
    rewrite len_slice by (change MaxHeaderLen with 1168 in *; lia). done.
  - destruct (Z.ltb_spec (len (rd_data r)) HeaderLen); [done|]. intros [= <- <-]. cbn. by rewrite app_string_nil_r.
Qed.

(** The name a header names is the one that is declared again. *)
Lemma sealedNameOf_ok head rest h mirror : parses (head +:+ rest) h -> HeaderLen <= len head ->
  sealedNameOf head = Ok mirror -> mirror = encodeMirror (h_SealedName h).
Proof.
  intros Hp Hl. destruct (parses_head _ _ _ Hp Hl) as (Eh & Ea & En). destruct Hp as [Eb Hw Hk Hn _ _].
  assert (len (prefixOf (h_Version h) (h_KeyID h) (h_WrapNonce h) (h_WrappedDEK h) (len (h_SealedName h))) = HeaderLen)
    as HlP by by apply len_prefixOf.
  unfold sealedNameOf. change (slice head 73 75) with (slice head offNameLen HeaderLen). rewrite En.
  rewrite <- (app_string_nil_r (PutUint16 _)), Uint16_PutUint16 by (unfold NonceLen, TagLen in *; lia).
  destruct (_ || _) eqn:Eo; [done|]. apply orb_false_elim in Eo as [_ Eo%Z.ltb_ge]. intros [= <-]. f_equal.
  rewrite Eh, slice_app, HlP by lia. change (HeaderLen - HeaderLen) with 0.
  replace (HeaderLen + len (h_SealedName h) - HeaderLen) with (len (h_SealedName h)) by lia.
  rewrite <- (slice_app_within _ rest).
  - rewrite Ea. by apply slice_first.
  - rewrite len_after by (unfold HeaderLen in *; lia). pose proof (len_nonneg (h_SealedName h)). lia.
Qed.

(** The head with its new prefix, before what follows it. *)
Lemma rekeyed_parses lookup kek head rest h prefix mirror (st st' : W * P) : len (k_ID kek) = KeyIDLen ->
  parses (head +:+ rest) h -> HeaderLen <= len head -> RekeyPrefix lookup kek head st = (Ok prefix, st') ->
  sealedNameOf head = Ok mirror ->
  exists nonce dek, parses ((prefix +:+ after head (len prefix)) +:+ rest) (rewrapped h kek nonce dek) /\
    mirror = encodeMirror (h_SealedName h) /\ len (k_Material kek) = KeyLen /\
    wrapsTo lookup (h_Version h) (h_KeyID h) (h_WrapNonce h) (h_WrappedDEK h) dek.
Proof.
  intros Hid Hp Hlh Er Em.
  destruct (RekeyPrefix_ok _ _ h head rest _ _ _ Hp Hlh Hid Er) as (nonce & dek & Hno & Hd & Hm & Hw & Epre & Hw').
  exists nonce, dek. split_and!; [|by eapply sealedNameOf_ok|done|done].
  assert (len prefix = HeaderLen) as Hlp by (rewrite Epre; by apply len_prefixOf).
  destruct (parses_head _ _ _ Hp Hlh) as (_ & Ea & _). destruct Hp as [Eb Pw Pk Pn Pb Po]. split; try done.
  by rewrite app_string_assoc, Hlp, Ea, Epre.
Qed.

(** The download of a key's object that a rekey makes. *)
Definition download (s : Store) (p : P) (key : string) (body : Reader) : Prop :=
  exists p1, pGetStream (s_bucket s) (pathOf s key) 0 (-1) p = (Ok body, p1).

(** It does not break off in the way that is taken for its end. *)
Definition notCut (s : Store) (p : P) (key : string) : Prop :=
  forall body, download s p key body -> rd_error body <> Some UnexpectedEOF.

(** What a rekey does: nothing, or it puts the object back under the active key, as
    much of it as the download gave. *)
Lemma Rekey_cases s key w p r w' p' : store_ok s -> Store.Rekey s key (w, p) = (r, (w', p')) ->
  (exists kek st blob mirror, activeKey s = Ok kek /\ lookupOf s (k_ID kek) = Some (k_Material kek) /\ len (k_ID kek) = KeyIDLen /\
     objects s p !! pathOf s key = Some st /\ replaced s p p' key blob {[ MetaName := mirror ]} /\
     (notCut s p key -> forall h, parses (sd_Data st) h -> exists nonce dek,
        parses blob (rewrapped h kek nonce dek) /\ mirror = encodeMirror (h_SealedName h) /\
        len (k_Material kek) = KeyLen /\
        wrapsTo (lookupOf s) (h_Version h) (h_KeyID h) (h_WrapNonce h) (h_WrappedDEK h) dek)) \/
  (r <> Ok true /\ objects s p' = objects s p).
Proof.
  intros Hs. unfold Store.Rekey. intros E.
  apply (keeps_then s) in E as [[? ?]|(stored & s1 & E1 & _ & E)]; [right; by split; [destruct r|]| |apply leaves_lift].
  apply lift_inv in E1 as [En ->]. apply StoredName_ok in En as [-> _].
  apply (keeps_then s) in E as [[? ?]|(kek & s1 & E1 & _ & E)]; [right; by split; [destruct r|]| |apply leaves_lift].
  apply lift_inv in E1 as [Ek ->]. destruct (activeKey_ok s kek Hs Ek) as [Hl Hid].
  apply (keeps_then s) in E as [[? ?]|(body0 & [w1 p1] & E1 & Ho1 & E)]; [right; by split; [destruct r|]| |apply keeps_get].
  apply onCloud_ok in E1 as [-> E1]. assert (download s p key body0) as Hdl by (by exists p1).
  apply get_stream_ok in E1 as (_ & st & Hst & Hfull & _). cbn [snd] in Ho1.
  apply (keeps_then s) in E as [[? E]|([head body] & s1 & E1 & _ & E)];
    [right; split; [by destruct r|cbn in *; congruence]| |apply leaves_lift].
  apply lift_inv in E1 as [Eh ->]. apply readHead_ok in Eh as (Ed & Ee & Hlh). cbn [fst snd] in E.
  case_decide; [right; injection E as <- _ <-; done|].
  apply (keeps_then s) in E as [[? E]|(prefix & [w2 p2] & E1 & Ho2 & E)];
    [right; split; [by destruct r|cbn in *; congruence]| |apply leaves_withErr, keeps_draws, draws_RekeyPrefix].
  apply withErr_inv in E1. cbn [snd] in Ho2.
  apply (keeps_then s) in E as [[? E]|(mirror & s1 & E2 & _ & E)];
    [right; split; [by destruct r|cbn in *; congruence]| |apply leaves_lift]. apply lift_inv in E2 as [Em ->].
  assert (exists x, onCloud (W := W) (pPutStream (s_bucket s) (mkStreamObject (pathOf s key)
      (mkReader ((prefix +:+ after head (len prefix)) +:+ rd_data body) (rd_error body)) (-1) {[ MetaName := mirror ]}))
      (w2, p2) = (x, (w', p')) /\ (is_ok x = false -> r <> Ok true)) as (x & Ex & Hx).
  { apply bind_cases in E as [(e & E & ->)|([] & [w3 p3] & E & [= <- <- <-])]; eauto. }
  apply put_stream_cases in Ex as [[Hn Ex]|[? Ex]]; [left|right; split; [by apply Hx|cbn in *; congruence]].
  unfold ended in Hn. cbn [rd_data rd_error] in Hn, Ex. rewrite Ee in Hn.
  exists kek, st, ((prefix +:+ after head (len prefix)) +:+ rd_data body), mirror. split_and!; [done|done|done|done| |].
  - unfold replaced in *. by rewrite <- Ho1, <- Ho2.
  - intros Hnc h Hp. destruct Hn as [Hn|Hn]; [|by destruct (Hnc _ Hdl)].
    specialize (Hfull Hn). unfold range in Hfull. cbn in Hfull.
    change (after (sd_Data st) 0) with (sd_Data st) in Hfull. rewrite Ed in Hfull.
    rewrite <- Hfull in Hp. by eapply rekeyed_parses.
Qed.

(** ** The store as a map *)

Definition untouched (s : Store) (p p' : P) : Prop := forall key, value s p' key = value s p key.

(** One key has a new value; every key stored elsewhere has the one it had. *)
Definition updated (s : Store) (p p' : P) (key : string) (v : option string) : Prop :=
  value s p' key = v /\ forall key', pathOf s key' <> pathOf s key -> value s p' key' = value s p key'.

Lemma untouched_objects s p p' : objects s p' = objects s p -> untouched s p p'.
Proof. intros E key. by apply value_same. Qed.

Lemma replaced_updated s p p' key blob meta : replaced s p p' key blob meta -> updated s p p' key (blobValue s key blob).
Proof.
  intros [created E]. split; [by rewrite (value_at _ _ _ _ _ E)|]. intros key' Hne. by eapply value_other.
Qed.

Lemma Delete_cases s key w p r w' p' : Delete (W := W) s key (w, p) = (r, (w', p')) ->
  objects s p' = delete (pathOf s key) (objects s p) \/ (is_ok r = false /\ objects s p' = objects s p).
Proof.
  unfold Delete. intros E. apply (keeps_then s) in E as [?|(stored & s1 & E1 & _ & E)]; [by right| |apply leaves_lift].
  apply lift_inv in E1 as [En ->]. apply StoredName_ok in En as [-> Hv].
  apply onCloud_inv in E as (_ & r' & E & ->). destruct r' as [[]|e].
  - left. exact (delete_ok _ _ _ _ E).
  - apply delete_failed in E as [E|E]; [by right|by left].
Qed.

(** What a read says of the value. *)
Definition says (v : option string) (r : result store_error string) : Prop :=
  match r with
  | Ok d => v = Some d
  | Err (FromProvider (ErrObjectNotFound _)) | Err (FromBlob _) => v = None
  | Err _ => True
  end.

Lemma Read_spec s key w p r w' p' : Store.Read (W := W) s key (w, p) = (r, (w', p')) ->
  objects s p' = objects s p /\ says (value s p key) r.
Proof.
  unfold Store.Read. intros E. apply bind_cases in E as [(e & E1 & ->)|(stored & s1 & E1 & E)].
  { unfold StoredName in E1. destruct (ValidateLogicalKey key); [done|]. by injection E1 as <- _ <-. }
  apply lift_inv in E1 as [En ->]. apply StoredName_ok in En as [-> Hv].
  apply bind_cases in E as [(e & E1 & ->)|(obj & s1 & E1 & E)].
  - apply onCloud_inv in E1 as (_ & r' & E1 & Hr). destruct r' as [|e']; [done|]. injection Hr as ->.
    apply get_failed in E1 as [Ho Hn]. split; [exact Ho|]. destruct e' as [n|]; [|done]. cbn. unfold value, objects.
    by rewrite (Hn n eq_refl).
  - destruct s1 as [w1 p1]. apply onCloud_ok in E1 as [-> E1]. apply get_ok in E1 as (Ho & st & Hst & Hd).
    injection E as <- _ <-. split; [exact Ho|]. unfold value, objects. rewrite Hst. cbn. unfold blobValue. rewrite Hd.
    by destruct (Open _ _ _).
Qed.

(** An object of this store's at its key's path, with its name beside it. *)
Definition kept (s : Store) (p : P) (key : string) : Prop :=
  exists st sn, objects s p !! pathOf s key = Some st /\ ValidateLogicalKey key = Ok tt /\
    sealedAs (s_nameKey s) (pathOf s key) key sn /\ sd_Meta st = mirrorMeta sn.

Lemma replaced_kept s p p' key blob sn : replaced s p p' key blob (mirrorMeta sn) -> ValidateLogicalKey key = Ok tt ->
  sealedAs (s_nameKey s) (pathOf s key) key sn -> kept s p' key.
Proof. intros [created E] Hv Hs. eexists _, sn. split_and!; [by rewrite E, lookup_insert_eq|done..]. Qed.

Lemma kept_named s p key : kept s p key -> exists st, objects s p !! pathOf s key = Some st /\
  mirrorName s (infoOf (pathOf s key, st)) = Some key.
Proof. intros (st & sn & Hst & Hv & Hs & Hm). exists st. split; [done|]. by eapply mirror_opens. Qed.

Lemma List_spec s prefix w p names failures w' p' : Store.List (W := W) s prefix (w, p) = (Ok (names, failures), (w', p')) ->
  objects s p' = objects s p /\ exists infos entries,
    infos ≡ₚ map infoOf (filter (fun no => HasPrefix no.1 (StoredPrefix s prefix) = true) (map_to_list (objects s p))) /\
    names = map e_Key (sort_slice (fun a b => string_ltb (e_Key a) (e_Key b)) entries) /\
    collected s p prefix infos entries failures.
Proof.
  unfold Store.List, ListEntries. intros E. apply bind_inv in E as ([entries fs] & s1 & E & E').
  injection E' as <- <- ->. apply bind_inv in E as (infos & [w1 p1] & E1 & E). apply onCloud_ok in E1 as [-> E1].
  apply list_ok in E1 as [Ho Hp]. apply bind_inv in E as ([es fs'] & s2 & E2 & E).
  destruct (listEntries_collects s prefix infos [] [] w p1) as (es' & fs'' & w2 & p2 & E3 & Ho' & Hc).
  rewrite E3 in E2. injection E2 as <- <- <-. injection E as <- <- _ <-. cbn [app].
  split; [by rewrite Ho'|]. exists infos, es'. split_and!; [done|done|].
  destruct Hc as [C1 C2 C3 C4]. split; [|done|done|].
  - intros e He. apply C1 in He as (? & info & ? & ? & ? & ? & Hn). split; [done|]. exists info. split_and!; try done.
    by apply (nameFrom_same s p p1).
  - intros info Hi Hf. destruct (C4 _ Hi Hf) as [name Hn]. exists name. by apply (nameFrom_same s p p1).
Qed.

(** A rekey changes no value: of the key itself when its download is not cut, and of a key of any store of the bucket
    that is at another path. *)
Lemma rekey_kept s key w p r w' p' s0 key0 d : store_ok s -> Store.Rekey s key (w, p) = (r, (w', p')) -> s_bucket s0 = s_bucket s ->
  (s0 = s /\ key0 = key /\ notCut s p key) \/ pathOf s0 key0 <> pathOf s key -> value s0 p key0 = Some d -> value s0 p' key0 = Some d.
Proof.
  intros Hs E Hb Hor Hd. assert (objects s0 p = objects s p /\ objects s0 p' = objects s p') as [O O'] by (unfold objects; by rewrite Hb).
  apply Rekey_cases in E as [(kek & st & blob & mirror & Ha & Hl & Hid & Hst & Hr & Hp)|[_ E]]; [| |done].
  2:{ rewrite <- Hd. apply value_same. congruence. }
  destruct Hor as [(-> & -> & Hnc)|Hne].
  - apply replaced_updated in Hr as [Hv _]. rewrite Hv. unfold value in Hd. rewrite Hst in Hd. cbn in Hd.
    apply blobValue_some in Hd as Hd'. apply blobValue_some. apply Open_versions in Hd' as (h & Hh & _). apply ParseHeader_spec in Hh.
    destruct (Hp Hnc h Hh) as (nonce & dek & Hp' & _ & Hm & Hw). rewrite (Open_rewrapped _ _ key _ _ _ _ _ _ Hh Hp' Hw Hl Hm). by apply blobValue_some.
  - destruct Hr as [created Hr]. rewrite <- Hd. eapply value_other; [|exact Hne]. rewrite O', O. exact Hr.
Qed.

End values.

Lemma sorted_names entries :
  StronglySorted string_le (map e_Key (sort_slice (fun a b => string_ltb (e_Key a) (e_Key b)) entries)).
Proof.
  assert (StronglySorted (fun a b => string_le (e_Key a) (e_Key b))
    (sort_slice (fun a b => string_ltb (e_Key a) (e_Key b)) entries)) as Hs.
  { apply sort_slice_strong; [intros a b; apply string_ltb_asym|done|]. intros a b c. apply string_le_trans. }
  induction Hs as [|e es _ IH Hf]; cbn; constructor; [done|]. by apply Forall_fmap.
Qed.

(** ** Properties *)

(** C2: the store is a map from logical keys to bytes: whatever the provider does, a
    write gives the key exactly the bytes written or changes nothing and says so, a
    delete removes it or changes nothing and says so, no operation changes the value
    of a key stored elsewhere, and a read changes nothing and returns the value the
    key has; it says there is none only when there is none. *)
Theorem store_is_a_map `{CipherLaws} {W P} `{Entropy W, ProviderLaws P} s key data (w w' : W) (p p' : P) :
  store_ok s ->
  (forall r, Write s key data (w, p) = (r, (w', p')) ->
     updated s p p' key (Some data) \/ (is_ok r = false /\ untouched s p p')) /\
  (forall r, Delete (W := W) s key (w, p) = (r, (w', p')) ->
     updated s p p' key None \/ (is_ok r = false /\ untouched s p p')) /\
  (forall r, Store.Read (W := W) s key (w, p) = (r, (w', p')) -> untouched s p p' /\ says (value s p key) r).
Proof.
  intros Hs. split_and!; intros r E.
  - apply Write_cases in E as [(kek & blob & sn & Ha & Hv & Hb & E)|[? E]]; [left|right; split; [done|by apply untouched_objects]].
    apply replaced_updated in E. by rewrite (sealed_value _ _ _ _ _ _ _ Hs Ha Hb) in E.
  - apply Delete_cases in E as [E|[? E]]; [left|right; split; [done|by apply untouched_objects]].
    unfold updated, value. rewrite E, lookup_delete_eq. split; [done|]. intros key' Hne. by rewrite lookup_delete_ne.
  - apply Read_spec in E as [E ?]. split; [by apply untouched_objects|done].
Qed.

(** C36: a listing finds every object the store wrote: each key written, streamed or
    not, that starts with the prefix is listed; every name listed starts with it and
    is the name its object carries; the names are sorted; and with no failure
    reported, no object under the path was left out. *)
Theorem listing_is_complete `{CipherLaws} {W P} `{Entropy W, ProviderLaws P} s prefix (w w' : W) (p p' : P) names failures :
  store_ok s -> Store.List (W := W) s prefix (w, p) = (Ok (names, failures), (w', p')) ->
  (forall key, HasPrefix key prefix = true -> kept s p key -> key ∈ names) /\
  (forall name, name ∈ names -> HasPrefix name prefix = true /\ exists info, nameFrom s p info name /\ is_Some (objects s p !! oi_Name info)) /\
  StronglySorted string_le names /\
  (failures = [] -> forall path st, objects s p !! path = Some st -> HasPrefix path (StoredPrefix s prefix) = true ->
     exists name, nameFrom s p (infoOf (path, st)) name) /\
  (forall key data (w0 w1 : W) p0, Write s key data (w0, p0) = (Ok tt, (w1, p)) -> kept s p key) /\
  (forall key r (w0 w1 : W) p0, WriteStream s key r (w0, p0) = (Ok tt, (w1, p)) -> kept s p key).
Proof.
  intros Hs E. apply List_spec in E as (_ & infos & entries & Hi & -> & [C1 C2 _ C4]).
  assert (forall e, e ∈ sort_slice (fun a b => string_ltb (e_Key a) (e_Key b)) entries <-> e ∈ entries) as Hin
    by (intros e; by rewrite sort_slice_perm).
  assert (forall path st, objects s p !! path = Some st -> HasPrefix path (StoredPrefix s prefix) = true ->
    infoOf (path, st) ∈ infos) as Hinfo.
  { intros path st Hst Hp. rewrite Hi. apply list_elem_of_fmap_2, list_elem_of_filter. split; [done|].
    by apply elem_of_map_to_list. }
  split_and!.
  - intros key Hp Hk. apply kept_named in Hk as (st & Hst & Hm).
    destruct (C2 (infoOf (pathOf s key, st)) key) as (e & He & <- & _); [|done|done|by apply list_elem_of_fmap_2, Hin].
    apply Hinfo; [done|]. by apply TokenPrefix_covers.
  - intros name (e & -> & He)%list_elem_of_fmap. apply Hin, C1 in He as (? & info & Hinf & _ & _ & _ & Hn).
    split; [done|]. exists info. split; [done|]. rewrite Hi in Hinf. apply list_elem_of_fmap in Hinf as ([path st] & -> & Hf).
    apply list_elem_of_filter in Hf as [_ Hf]. apply elem_of_map_to_list in Hf. cbn. eauto.
  - apply sorted_names.
  - intros Hnil path st Hst Hp. by apply (C4 (infoOf (path, st))); [apply Hinfo|].
  - intros key data w0 w1 p0 Ew. apply Write_cases in Ew as [(kek & blob & sn & Ha & Hv & Hb & Ew)|[? _]]; [|done].
    by eapply replaced_kept; [exact Ew|done|apply Hb].
  - intros key r w0 w1 p0 Ew. apply WriteStream_cases in Ew as [(_ & ? & ? & ? & ? & sn & ? & ? & ? & _ & _ & _ & Hv & Hsn & _ & _ & Ew)|[? _]];
      [by eapply replaced_kept|done|done].
Qed.



(** *** Witnesses *)

Definition exStore : Store :=
  match NewStore "bucket" exKeyring with Ok s => s | Err _ => mkStore "" exKeyring "" "" end.

Lemma exStore_ok : store_ok exStore.
Proof.
  assert (NewStore "bucket" exKeyring = Ok exStore) as E by (vm_compute; reflexivity).
  apply (NewStore_ok _ _ _ E). repeat constructor.
Qed.

Definition exEmpty : cloud := mkCloud ∅ 100.
Definition exWritten : result store_error unit * (nat * cloud) := Write exStore "app/state" "hello" (65%nat, exEmpty).
Definition exWorld : nat * cloud := exWritten.2.

Lemma exWritten_ok : Write exStore "app/state" "hello" (65%nat, exEmpty) = (Ok tt, (exWorld.1, exWorld.2)).
Proof.
  assert (is_ok exWritten.1 = true) as Hok by (vm_compute; reflexivity). unfold exWorld. fold exWritten.
  destruct exWritten as [[[]|e] [w p]]; [reflexivity|discriminate Hok].
Qed.

Lemma store_is_a_map_witness : value exStore exWorld.2 "app/state" = Some "hello"%string.
Proof.
  destruct (store_is_a_map exStore "app/state" "hello" 65%nat exWorld.1 exEmpty exWorld.2 exStore_ok) as (Hw & _ & _).
  destruct (Hw (Ok tt) exWritten_ok) as [[Hv _]|[Hf _]]; [exact Hv|discriminate Hf].
Defined.

Definition exListed : result store_error (list string * list store_error) * (nat * cloud) :=
  Store.List exStore "app/" (exWorld.1, exWorld.2).
Definition exNames : list string := match exListed.1 with Ok (ns, _) => ns | Err _ => [] end.

Lemma exListed_ok : Store.List exStore "app/" (exWorld.1, exWorld.2) = (Ok (exNames, []), (exListed.2.1, exListed.2.2)).
Proof.
  assert (match exListed.1 with Ok (_, fs) => (length fs =? 0)%nat | Err _ => false end = true) as Hok by (vm_compute; reflexivity).
  unfold exNames. fold exListed. destruct exListed as [[[ns fs]|e] [w p]]; [|discriminate Hok].
  destruct fs; [reflexivity|discriminate Hok].
Qed.

Lemma listing_is_complete_witness : "app/state"%string ∈ exNames.
Proof.
  destruct (listing_is_complete exStore "app/" exWorld.1 exListed.2.1 exWorld.2 exListed.2.2 exNames [] exStore_ok exListed_ok)
    as (Hc & _ & _ & _ & Hw & _).
  apply Hc; [reflexivity|]. exact (Hw "app/state"%string "hello"%string 65%nat exWorld.1 exEmpty exWritten_ok).
Defined.

(** The same bucket under a keyring with a newer key. *)
Definition exRotated : Store :=
  match NewStore "bucket" (mkKeyring [exEntry "a"] [exEntry "z"; exEntry "b"] []) with
  | Ok s => s | Err _ => mkStore "" exKeyring "" "" end.

Lemma exRotated_ok : store_ok exRotated.
Proof.
  assert (NewStore "bucket" (mkKeyring [exEntry "a"] [exEntry "z"; exEntry "b"] []) = Ok exRotated) as E by (vm_compute; reflexivity).
  apply (NewStore_ok _ _ _ E). repeat constructor.
Qed.

Definition exRekeyed : result store_error bool * (nat * cloud) := Store.Rekey exRotated "app/state" (exWorld.1, exWorld.2).

Lemma exRekeyed_ok : Store.Rekey exRotated "app/state" (exWorld.1, exWorld.2) = (Ok true, (exRekeyed.2.1, exRekeyed.2.2)).
Proof.
  assert (match exRekeyed.1 with Ok b => b | Err _ => false end = true) as Hok by (vm_compute; reflexivity).
  fold exRekeyed. destruct exRekeyed as [[[]|e] [w p]]; [reflexivity|discriminate Hok..].
Qed.

(** The example provider's downloads never break off. *)
Lemma cloud_not_cut s (p : cloud) key : notCut s p key.
Proof. intros body [p1 E]. cbn in E. destruct (bucketOf p (s_bucket s) !! _); [|done]. by injection E as <- _. Qed.


Definition exStreamWrite : result store_error unit * (nat * cloud) :=
  WriteStream exStore "app/log" (mkReader "lines" None) (65%nat, exEmpty).
Definition exStreamRead : result store_error (result blob_error unit * string) * (nat * cloud) :=
  ReadStream exStore "app/log" (exStreamWrite.2.1, exStreamWrite.2.2).
Definition exOut : result blob_error unit * string := match exStreamRead.1 with Ok x => x | Err _ => (Err NoFuel, "") end.

Lemma exStreamRead_ok : ReadStream exStore "app/log" (exStreamWrite.2.1, exStreamWrite.2.2) =
  (Ok (exOut.1, exOut.2), (exStreamRead.2.1, exStreamRead.2.2)).
Proof.
  assert (is_ok exStreamRead.1 = true) as Hok by (vm_compute; reflexivity). unfold exOut. fold exStreamRead.
  destruct exStreamRead as [[[r o]|e] [w p]]; [reflexivity|discriminate Hok].
Qed.

Lemma exStreamWrite_ok : exStreamWrite = (Ok tt, (exStreamWrite.2.1, exStreamWrite.2.2)).
Proof.
  assert (is_ok exStreamWrite.1 = true) as Hok by (vm_compute; reflexivity).
  destruct exStreamWrite as [[[]|e] [w p]]; [reflexivity|discriminate Hok].
Qed.


(** *** A download that is cut short

    A provider whose streamed downloads break off after 140 bytes the way a lost connection does in [net/http].  It keeps
    every law of the contract. *)

Record lossy := mkLossy { ls_cloud : cloud }.

Definition onLossy {A} (m : eff cloud provider_error A) : eff lossy provider_error A := fun s =>
  let '(r, c) := m (ls_cloud s) in (r, mkLossy c).

#[export] Instance lossyProvider : Provider lossy | 100 := {|
  pPut bucket o := onLossy (pPut bucket o);
  pGet bucket name := onLossy (pGet bucket name);
  pList bucket prefix := onLossy (pList bucket prefix);
  pDelete bucket name := onLossy (pDelete bucket name);
  pPutStream bucket o := onLossy (pPutStream bucket o);
  pGetStream bucket name offset length := fun s =>
    let '(r, s) := onLossy (pGetStream bucket name offset length) s in
    (body ← r; Ok (mkReader (slice (rd_data body) 0 140) (Some UnexpectedEOF)), s)
|}.

Lemma onLossy_inv {A} (m : eff cloud provider_error A) s r s' : onLossy m s = (r, s') ->
  exists c, m (ls_cloud s) = (r, c) /\ s' = mkLossy c.
Proof. unfold onLossy. destruct (m _) as [x c]. intros [= <- <-]. by exists c. Qed.

#[export] Program Instance lossyLaws : ProviderLaws lossy | 100 := {| holding s b := holding (ls_cloud s) b |}.
Solve All Obligations with
  (try solve [intros; match goal with E : _ = (_, _) |- _ => apply onLossy_inv in E as (c & E & ->) end;
   eauto using put_ok, put_failed, get_ok, get_failed, list_ok, list_failed, delete_ok, delete_failed, put_stream_ok, put_stream_failed
   | intros; intros E; apply onLossy_inv in E as (c & E & _); revert E; first [apply put_found|apply list_found|apply delete_found]]).
Next Obligation.
  intros bucket name offset length s s' r E. cbn in E. destruct (bucketOf (ls_cloud s) bucket !! name) as [st|] eqn:El; [|done].
  injection E as <- <-. split; [done|]. exists st. split_and!; [done|done|].
  exists (after (range (sd_Data st) offset length) 140). symmetry. by apply split_at.
Qed.
Next Obligation.
  intros bucket name offset length s s' e E. cbn in E. destruct (bucketOf (ls_cloud s) bucket !! name) as [st|] eqn:El; [done|].
  injection E as <- <-. split; [done|]. by intros n _.
Qed.

Definition exCut : result store_error bool * (nat * lossy) :=
  Store.Rekey exRotated "app/state" (exWorld.1, mkLossy exWorld.2).

(** A rekey whose download is cut reports that it moved the object, and has replaced it by what it was given of it. *)
Example a_cut_download_replaces_the_object :
  value exRotated (mkLossy exWorld.2) "app/state" = Some "hello" /\
  exCut.1 = Ok true /\ value exRotated exCut.2.2 "app/state" = None.
Proof. split_and!; vm_compute; reflexivity. Qed.
