(* ===== verification/Server.v ===== *)
(** * The keyholder's HTTP surface ([datasphere/keyholder/server.go], [wire.go])

    Three surfaces over one vault: probes for anyone, control for the operator and
    keepers, data for applications and devices.  A handler is a step on the whole
    process - its memory and vault, its challenges, and the store's cloud - and
    answers with a status, a code and a message.  What runs between the beginning
    and the end of a handler is [Holder]'s. *)

From Stdlib Require Import Ascii.
From S2P Require Import Prelude Effect GoTime GoStrings LogicalKey Encoding Keyring KeyringFacts Identity KeyringFile.
From S2P Require Import Material Bundle Slices Cipher Blob Stream Envelope Provider Store Vault.

(** ** What can go wrong *)

Inductive server_error :=
| ErrNoIdentity
| ErrNotAuthorized
| MissingKey
| NotBase64Key
| MissingScope
| OtherScope (owner declared : string)
| ErrSecretsReadOnly
| UnknownIntent (intent : string)
| NotSealedType
| UnreadableBody
| BodyTooLarge (max : Z)
| FromVault (e : vault_error)
| FromBundle (e : bundle_error)
| FromEnvelope (e : envelope_error)
| FromStore (e : store_error)
| ListFailed (es : list store_error).

(** The errors callers branch on. *)
Inductive sentinel :=
| SSealed | SOperatorHold | SGenerationTooOld | SInstanceMismatch | SOutOfScope | SSecretsReadOnly | SNotAuthorized
| SNoIdentity | SObjectNotFound | SIntegrity | SUnknownKey | SInvalidKey | STooLarge | SBundleInvalid
| SKeyringInvalid | SNotServing | SAlreadyServing | SEnvelopeInvalid.

#[export] Instance sentinel_eq_dec : EqDecision sentinel.
Proof. solve_decision. Defined.

(** What each error wraps ([%w]). *)
Fixpoint keyringWraps (e : keyring_error) : list sentinel :=
  match e with
  | MintMaterial _ | MintID _ | IndexOutOfRange => []
  | PrefixKey _ => [SKeyringInvalid; SInvalidKey]
  | InScope _ e => keyringWraps e
  | _ => [SKeyringInvalid]
  end.

Fixpoint parseWraps (e : parse_error) : list sentinel :=
  match e with
  | EncodeKeyring _ => []
  | InScopeFile _ e => parseWraps e
  | ScopeAt _ e | ScopePrefixOf _ e | Invalid e => keyringWraps e
  | _ => [SKeyringInvalid]
  end.

Definition bundleWraps (e : bundle_error) : list sentinel :=
  match e with
  | EncodeBundle _ => []
  | BundleScope e => SBundleInvalid :: keyringWraps e
  | BundleScopes e => SBundleInvalid :: parseWraps e
  | _ => [SBundleInvalid]
  end.

Definition vaultWraps (e : vault_error) : list sentinel :=
  match e with
  | NilBundle => []
  | InstanceMismatch _ _ => [SInstanceMismatch]
  | NotServing _ => [SNotServing]
  | AlreadyServing _ => [SAlreadyServing]
  | OperatorHeld _ _ => [SOperatorHold]
  | GenerationTooOld _ _ => [SGenerationTooOld]
  | RefusedScope e => keyringWraps e
  | Sealed => [SSealed]
  | OutOfScope => [SOutOfScope]
  end.

Definition blobWraps (e : blob_error) : list sentinel :=
  match e with
  | BadLogicalKey _ => [SInvalidKey]
  | TooLarge _ | OverLimit _ => [STooLarge]
  | ErrIntegrity => [SIntegrity]
  | UnknownKey _ => [SUnknownKey]
  | _ => []
  end.

Fixpoint storeWraps (e : store_error) : list sentinel :=
  match e with
  | InvalidKeyring e => keyringWraps e
  | InvalidKey _ => [SInvalidKey]
  | FromProvider (ErrObjectNotFound _) => [SObjectNotFound]
  | FromBlob e => blobWraps e
  | IncompleteName => [SIntegrity]
  | NameError _ e => storeWraps e
  | _ => []
  end.

Definition wraps (e : server_error) : list sentinel :=
  match e with
  | ErrNoIdentity => [SNoIdentity]
  | ErrNotAuthorized => [SNotAuthorized]
  | MissingKey | NotBase64Key => [SInvalidKey]
  | MissingScope | OtherScope _ _ => [SOutOfScope]
  | ErrSecretsReadOnly => [SSecretsReadOnly]
  | UnknownIntent _ | NotSealedType | UnreadableBody => [SBundleInvalid]
  | BodyTooLarge _ => [STooLarge]
  | FromVault e => vaultWraps e
  | FromBundle e => bundleWraps e
  | FromEnvelope ErrEnvelopeInvalid | FromEnvelope MalformedChallenge | FromEnvelope MalformedRecipient
  | FromEnvelope AgreementFailed => [SEnvelopeInvalid]
  | FromEnvelope _ => []
  | FromStore e => storeWraps e
  | ListFailed es => concat (map storeWraps es)
  end.

(** [errors.Is]. *)
Definition Is (e : server_error) (s : sentinel) : bool := bool_decide (s ∈ wraps e).

(** ** The wire *)

Definition StatusOK : Z := 200.
Definition StatusNoContent : Z := 204.
Definition StatusBadRequest : Z := 400.
Definition StatusForbidden : Z := 403.
Definition StatusNotFound : Z := 404.
Definition StatusConflict : Z := 409.
Definition StatusRequestEntityTooLarge : Z := 413.
Definition StatusTooManyRequests : Z := 429.
Definition StatusInternalServerError : Z := 500.
Definition StatusBadGateway : Z := 502.
Definition StatusServiceUnavailable : Z := 503.

Definition CodeSealed : string := "sealed".
Definition CodeNotFound : string := "not-found".
Definition CodeIntegrity : string := "integrity".
Definition CodeInvalidKey : string := "invalid-key".
Definition CodeTooLarge : string := "too-large".
Definition CodePermission : string := "permission".
Definition CodeOperatorHold : string := "operator-hold".
Definition CodeGenerationOld : string := "generation-too-old".
Definition CodeInstanceMismatch : string := "instance-mismatch".
Definition CodeBadRequest : string := "bad-request".
Definition CodeNotServing : string := "not-serving".
Definition CodeAlreadyServing : string := "already-serving".

Definition classify (err : option server_error) : Z * string :=
  match err with
  | None => (StatusOK, "")
  | Some e =>
      if Is e SSealed then (StatusServiceUnavailable, CodeSealed)
      else if Is e SOutOfScope || Is e SSecretsReadOnly || Is e SNotAuthorized || Is e SNoIdentity
      then (StatusForbidden, CodePermission)
      else if Is e SObjectNotFound then (StatusNotFound, CodeNotFound)
      else if Is e SIntegrity || Is e SUnknownKey then (StatusBadGateway, CodeIntegrity)
      else if Is e SInvalidKey then (StatusBadRequest, CodeInvalidKey)
      else if Is e STooLarge then (StatusRequestEntityTooLarge, CodeTooLarge)
      else if Is e SOperatorHold then (StatusConflict, CodeOperatorHold)
      else if Is e SGenerationTooOld then (StatusConflict, CodeGenerationOld)
      else if Is e SInstanceMismatch then (StatusConflict, CodeInstanceMismatch)
      else if Is e SNotServing then (StatusConflict, CodeNotServing)
      else if Is e SAlreadyServing then (StatusConflict, CodeAlreadyServing)
      else if Is e SEnvelopeInvalid then (StatusForbidden, CodeBadRequest)
      else if Is e SBundleInvalid || Is e SKeyringInvalid then (StatusBadRequest, CodeBadRequest)
      else (StatusInternalServerError, "")
  end.

Definition sentinelText (s : sentinel) : string :=
  match s with
  | SSealed => "keyholder: sealed"
  | SOperatorHold => "keyholder: sealed by the operator; a keeper may not clear an operator hold"
  | SGenerationTooOld => "keyholder: bundle generation is older than the one already held"
  | SInstanceMismatch => "keyholder: bundle names a different instance"
  | SOutOfScope => "keyholder: key is outside every scope this keyholder holds"
  | SSecretsReadOnly => "keyholder: the secrets subtree is read-only on the application data path"
  | SNotAuthorized => "keyholder: this identity is not authorized for that key"
  | SNoIdentity => "keyholder: this surface requires a client identity"
  | SObjectNotFound => "datasphere: object not found"
  | SIntegrity => "datasphere: stored data failed integrity check"
  | SUnknownKey => "datasphere: blob is sealed under a key the keyring does not hold"
  | SInvalidKey => "datasphere: invalid object key"
  | STooLarge => "datasphere: object exceeds the size limit"
  | SBundleInvalid => "datasphere: invalid unseal bundle"
  | SKeyringInvalid => "datasphere: invalid keyring"
  | SNotServing => "keyholder: a hand-over only reaches a replica that is already serving; this one is sealed"
  | SAlreadyServing => "keyholder: a re-seed only reaches a replica that restarted; this one is serving"
  | SEnvelopeInvalid => "keyholder: unseal envelope refused"
  end.

Definition safeSentinels : list sentinel :=
  [SSealed; SOperatorHold; SGenerationTooOld; SInstanceMismatch; SOutOfScope; SSecretsReadOnly; SNotAuthorized;
   SNoIdentity; SObjectNotFound; SIntegrity; SUnknownKey; SInvalidKey; STooLarge; SBundleInvalid; SKeyringInvalid].

Definition safeMessage (e : server_error) : string :=
  match list_find (fun s => Is e s = true) safeSentinels with
  | Some (_, known) => sentinelText known
  | None => "request refused"
  end.

(** ** Requests and replies *)

Inductive body :=
| BodyState (st : State) (control : bool)
| BodyChallenge (ch : Challenge)
| BodyBytes (data : string)
| BodyKeys (keys : list string)
| BodyText (text : string)
| BodyError (code message : string)
| NoBody.

Record reply := mkReply { re_status : Z; re_code : string; re_body : body }.

(** [fail]. *)
Definition failReply (e : server_error) : reply :=
  let '(status, code) := classify (Some e) in
  if status =? StatusInternalServerError then mkReply status code (BodyError code "internal error")
  else mkReply status code (BodyError code (safeMessage e)).

Record Request := mkRequest {
  (** the URIs of the client's leaf; none without mutual TLS *)
  rq_uris : option (list string);
  rq_key : string;
  rq_prefix : string;
  rq_scope : string;
  rq_contentType : string;
  rq_intent : string;
  rq_hold : bool;
  rq_reason : string;
  rq_body : Reader
}.

Definition ContentTypeSealed : string := "application/vnd.farcast.sealed-bundle".
Definition DefaultMaxObjectBytes : Z := Z.shiftl 64 20.

(** [NewServer]'s cap. *)
Definition maxObject (configured : Z) : Z := if configured <=? 0 then DefaultMaxObjectBytes else configured.

Record ServerConfig := mkServerConfig { cf_instance : string; cf_bucket : string; cf_max : Z }.

Definition firstIdentity (instance : string) (uris : list string) : option Identity :=
  head (omap (fun u => match ParseIdentity u instance with Ok id => Some id | Err _ => None end) uris).

Definition identityFrom (rq : Request) (instance : string) : result server_error Identity :=
  match rq_uris rq with
  | None => Err ErrNoIdentity
  | Some uris => match firstIdentity instance uris with Some id => Ok id | None => Err ErrNotAuthorized end
  end.

Definition controlCaller (instance : string) (rq : Request) : result server_error Identity :=
  id ← identityFrom rq instance;
  if decide (id_Role id <> RoleOperator /\ id_Role id <> RoleKeeper) then Err ErrNotAuthorized else Ok id.

Definition mayChangeSeal (instance : string) (rq : Request) : result server_error unit :=
  id ← controlCaller instance rq;
  if MaySeal id then Ok tt else Err ErrNotAuthorized.

(** An absent intent is the one of a caller that is not a person. *)
Definition intentOf (rq : Request) : result server_error string :=
  if decide (rq_intent rq = "") then Ok IntentReseed
  else if decide (rq_intent rq = IntentOperator \/ rq_intent rq = IntentReseed \/ rq_intent rq = IntentHandOver)
  then Ok (rq_intent rq)
  else Err (UnknownIntent (rq_intent rq)).

(** [io.ReadAll(http.MaxBytesReader(w, r.Body, max))]. *)
Definition readBody (rq : Request) (max : Z) (e : server_error) : result server_error string :=
  if max <? len (rd_data (rq_body rq)) then Err e
  else match rd_error (rq_body rq) with Some _ => Err e | None => Ok (rd_data (rq_body rq)) end.

Inductive keyHeader := HeaderKey | HeaderPrefix.

#[export] Instance keyHeader_eq_dec : EqDecision keyHeader.
Proof. solve_decision. Defined.

(** ** The process *)

Record Server (W P : Type) := mkServer { sv_world : World; sv_challenger : Challenger; sv_cloud : W * P }.
Arguments mkServer {W P} _ _ _.
Arguments sv_world {W P} _.
Arguments sv_challenger {W P} _.
Arguments sv_cloud {W P} _.

Section server.
Context `{Cipher, KeyAgreement, BundleYaml} {W P : Type} `{Entropy W, Provider P} (cfg : ServerConfig).

Abbreviation handler := (eff (Server W P) server_error).

Definition onWorld {A} (m : eff World vault_error A) : handler A := fun s =>
  let '(r, w) := m (sv_world s) in (wrapErr FromVault r, mkServer w (sv_challenger s) (sv_cloud s)).

Definition onMemory {A} (m : eff memory bundle_error A) : handler A := fun s =>
  let '(r, mem) := m (w_mem (sv_world s)) in
  (wrapErr FromBundle r, mkServer (withMem mem (sv_world s)) (sv_challenger s) (sv_cloud s)).

Definition onChallenger {A} (m : eff Challenger envelope_error A) : handler A := fun s =>
  let '(r, c) := m (sv_challenger s) in (wrapErr FromEnvelope r, mkServer (sv_world s) c (sv_cloud s)).

Definition onStore {A} (m : eff (W * P) store_error A) : handler A := fun s =>
  let '(r, c) := m (sv_cloud s) in (wrapErr FromStore r, mkServer (sv_world s) (sv_challenger s) c).

Definition zeroScope (sc : ScopeRef) : handler unit :=
  modify (fun s => mkServer (withMem (Zero (w_mem (sv_world s)) sc) (sv_world s)) (sv_challenger s) (sv_cloud s)).

Definition now : handler Time := gets (fun s => w_now (sv_world s)).
Definition stateNow : handler State := gets (fun s => stateOf (w_vault (sv_world s))).

(** [defer f()] around the rest of a handler. *)
Definition deferring {A} (f : handler unit) (m : handler A) : handler A :=
  r ← try m; _ ← f; lift r.

(** *** Control *)

Definition unseal (rq : Request) : handler State :=
  id ← lift (controlCaller (cf_instance cfg) rq);
  intent ← lift (intentOf rq);
  if negb (MayPush id intent) then fail ErrNotAuthorized
  else if decide (rq_contentType rq <> ContentTypeSealed) then fail NotSealedType
  else
    sealed ← lift (readBody rq (maxObject (cf_max cfg)) UnreadableBody);
    t ← now;
    payload ← onChallenger (Envelope.Open sealed (cf_instance cfg) t t);
    bundle ← onMemory (ParseBundle payload);
    deferring (modify (fun s => mkServer (withMem (ZeroBundle (w_mem (sv_world s)) bundle).2 (sv_world s))
                                  (sv_challenger s) (sv_cloud s)))
      (_ ← onWorld (Unseal (Some bundle) intent); stateNow).

Definition seal (rq : Request) : handler State :=
  _ ← lift (mayChangeSeal (cf_instance cfg) rq);
  onWorld (Vault.Seal (rq_hold rq) (rq_reason rq)).

Definition releaseHold (rq : Request) : handler State :=
  _ ← lift (mayChangeSeal (cf_instance cfg) rq);
  onWorld ReleaseHold.

Definition controlState (rq : Request) : handler State :=
  _ ← lift (controlCaller (cf_instance cfg) rq); stateNow.

(** A challenge draws from the process's randomness. *)
Definition onIssue (t : Time) : handler (result envelope_error Challenge) := fun s =>
  let '(r, (w, c)) := Issue t t (fst (sv_cloud s), sv_challenger s) in
  (Ok r, mkServer (sv_world s) c (w, snd (sv_cloud s))).

Definition issue (rq : Request) : handler (result envelope_error Challenge) :=
  _ ← lift (controlCaller (cf_instance cfg) rq);
  t ← now;
  onIssue t.

(** *** Data *)


Definition headerOf (rq : Request) (h : keyHeader) : string :=
  match h with HeaderKey => rq_key rq | HeaderPrefix => rq_prefix rq end.

(** A refusal after the scope was copied wipes the copy. *)
Definition refuse {A} (sc : ScopeRef) (e : server_error) : handler A :=
  _ ← zeroScope sc; fail e.

Definition storeFor (m : memory) (sc : ScopeRef) : result store_error Store :=
  NewStore (cf_bucket cfg) (sc_keys (load m sc)).

Definition resolve (rq : Request) (h : keyHeader) : handler (string * Identity * ScopeRef * Store) :=
  id ← lift (identityFrom rq (cf_instance cfg));
  let raw := headerOf rq h in
  if decide (raw = "" /\ h = HeaderKey) then fail MissingKey
  else
    match Base64DecodeString raw with
    | None => fail NotBase64Key
    | Some key =>
        if decide (rq_scope rq = "") then fail MissingScope
        else
          sc ← onWorld (ScopeFor key);
          if negb (MayReach id (sc_Name sc)) then refuse sc ErrNotAuthorized
          else if decide (sc_Name sc <> rq_scope rq) then refuse sc (OtherScope (sc_Name sc) (rq_scope rq))
          else
            s ← get;
            match storeFor (w_mem (sv_world s)) sc with
            | Err e => refuse sc (FromStore e)
            | Ok store => mret (key, id, sc, store)
            end
    end.

Definition mayMutate (id : Identity) (sc : ScopeRef) (key : string) : handler unit :=
  s ← get;
  if refuseSecretMutation id (load (w_mem (sv_world s)) sc) key then fail ErrSecretsReadOnly else mret tt.

Definition read (rq : Request) : handler string :=
  '(key, _, sc, store) ← resolve rq HeaderKey;
  deferring (zeroScope sc) (onStore (Store.Read store key)).

Definition write (rq : Request) : handler unit :=
  '(key, id, sc, store) ← resolve rq HeaderKey;
  deferring (zeroScope sc)
    (_ ← mayMutate id sc key;
     data ← lift (readBody rq (maxObject (cf_max cfg)) (BodyTooLarge (maxObject (cf_max cfg))));
     onStore (Store.Write store key data)).

Definition delete (rq : Request) : handler unit :=
  '(key, id, sc, store) ← resolve rq HeaderKey;
  deferring (zeroScope sc) (_ ← mayMutate id sc key; onStore (Store.Delete store key)).

Definition list (rq : Request) : handler (list string) :=
  '(prefix, _, sc, store) ← resolve rq HeaderPrefix;
  deferring (zeroScope sc)
    ('(keys, failures) ← onStore (Store.List store prefix);
     if decide (failures = []) then mret keys else fail (ListFailed failures)).

(** *** The muxes *)

Inductive route :=
| GetLive | GetReady | GetStatus
| GetControlState | GetChallenge | PostUnseal | PostSeal | PostReleaseHold
| GetObject | PutObject | DeleteObject | GetList.

(** [err] to [fail], the rest to the reply. *)
Definition answer {A} (f : A -> reply) (m : handler A) : Server W P -> reply * Server W P := fun s =>
  match m s with
  | (Ok a, s) => (f a, s)
  | (Err e, s) => (failReply e, s)
  end.

Definition phaseText (p : Phase) : string :=
  match p with
  | PhaseRestartSealed => "restart-sealed"
  | PhaseUnsealed => "unsealed"
  | PhaseOperatorHold => "operator-hold"
  end.

Definition stateReply (control : bool) (st : State) : reply := mkReply StatusOK "" (BodyState st control).

Definition challengeReply (r : result envelope_error Challenge) : reply :=
  match r with
  | Ok ch => mkReply StatusOK "" (BodyChallenge ch)
  | Err _ => mkReply StatusTooManyRequests CodeBadRequest (BodyError CodeBadRequest "cannot issue a challenge")
  end.

Definition serve (r : route) (rq : Request) (s : Server W P) : reply * Server W P :=
  match r with
  | GetLive => (mkReply StatusOK "" (BodyText "ok"), s)
  | GetReady =>
      (if Ready (w_vault (sv_world s)) then mkReply StatusOK "" (BodyText "ready")
       else mkReply StatusServiceUnavailable "" (BodyText (phaseText (va_phase (w_vault (sv_world s))))), s)
  | GetStatus => (stateReply false (stateOf (w_vault (sv_world s))), s)
  | GetControlState => answer (stateReply true) (controlState rq) s
  | GetChallenge => answer challengeReply (issue rq) s
  | PostUnseal => answer (stateReply true) (unseal rq) s
  | PostSeal => answer (stateReply true) (seal rq) s
  | PostReleaseHold => answer (stateReply true) (releaseHold rq) s
  | GetObject => answer (fun data => mkReply StatusOK "" (BodyBytes data)) (read rq) s
  | PutObject => answer (fun _ => mkReply StatusNoContent "" NoBody) (write rq) s
  | DeleteObject => answer (fun _ => mkReply StatusNoContent "" NoBody) (delete rq) s
  | GetList => answer (fun keys => mkReply StatusOK "" (BodyKeys keys)) (list rq) s
  end.

End server.
