(* ===== verification/ServerFacts.v ===== *)
(** * What the keyholder's surface answers

    Who changes the vault, what a data request changes, what a sealed keyholder
    says, and what an error tells its caller. *)

From Stdlib Require Import Ascii.
From S2P Require Import Prelude Effect GoTime GoStrings LogicalKey Encoding Keyring KeyringFacts Identity KeyringFile.
From S2P Require Import Material Bundle Slices Cipher Names Blob Stream Envelope Provider Store StoreFacts Vault Holder HolderFacts Server.

Section facts.
Context `{CipherLaws, KeyAgreement, BundleYaml} {W P : Type} `{Entropy W, ProviderLaws P} (cfg : ServerConfig).
Implicit Types s : Server W P.

Definition vaultOf s : Vault := w_vault (sv_world s).
Definition memoryOf s : memory := w_mem (sv_world s).
Definition bucketIn s : gmap string Stored := holding (snd (sv_cloud s)) (cf_bucket cfg).

(** The vault's arrays exist. *)
Definition allocated s : Prop := Forall (fun a => a ∈ dom (memoryOf s)) (concat (map addrs (va_scopes (vaultOf s)))).

(** ** The parts a step works on *)

Lemma onWorld_inv {A} (m : eff World vault_error A) s r s' : onWorld (W := W) (P := P) m s = (r, s') ->
  exists r' w', m (sv_world s) = (r', w') /\ r = wrapErr FromVault r' /\ s' = mkServer w' (sv_challenger s) (sv_cloud s).
Proof. unfold onWorld. destruct (m (sv_world s)) as [r' w'] eqn:E. intros [= <- <-]. eauto. Qed.

Lemma onStore_inv {A} (m : eff (W * P) store_error A) s r s' : onStore m s = (r, s') ->
  exists r' c, m (sv_cloud s) = (r', c) /\ r = wrapErr FromStore r' /\ s' = mkServer (sv_world s) (sv_challenger s) c.
Proof. unfold onStore. destruct (m (sv_cloud s)) as [r' c] eqn:E. intros [= <- <-]. eauto. Qed.

Lemma onMemory_vault {A} (m : eff memory bundle_error A) : leaves vaultOf (onMemory (W := W) (P := P) m).
Proof. intros s r s'. unfold onMemory. destruct (m _). by intros [= _ <-]. Qed.

Lemma onChallenger_vault {A} (m : eff Challenger envelope_error A) : leaves vaultOf (onChallenger (W := W) (P := P) m).
Proof. intros s r s'. unfold onChallenger. destruct (m _). by intros [= _ <-]. Qed.

Lemma onStore_world {A} (m : eff (W * P) store_error A) : leaves sv_world (onStore m).
Proof. intros s r s' (r' & c & _ & _ & ->)%onStore_inv. done. Qed.

Lemma deferring_inv {A} (f : eff (Server W P) server_error unit) (m : eff (Server W P) server_error A) s r s' :
  (forall s, (f s).1 = Ok tt) -> deferring f m s = (r, s') -> exists s1, m s = (r, s1) /\ s' = (f s1).2.
Proof.
  intros Hf. unfold deferring, try, lift, mbind, eff_bind. destruct (m s) as [r1 s1]. specialize (Hf s1).
  destruct (f s1) as [x s2] eqn:Ef. cbn in Hf. subst x. intros E. exists s1. rewrite Ef. by destruct r1; injection E as <- <-.
Qed.

(** ** Control *)

Hint Extern 1 (leaves vaultOf (onMemory _)) => apply onMemory_vault : leaves.
Hint Extern 1 (leaves vaultOf (onChallenger _)) => apply onChallenger_vault : leaves.

(** An unseal changes the vault by accepting the bundle, or does not change it. *)
Lemma Unseal_vault b intent w r w' : Unseal b intent w = (r, w') ->
  w_vault w' = w_vault w \/
  exists b', b = Some b' /\ r = Ok tt /\ accepts (w_vault w) b' intent /\
    va_phase (w_vault w') = PhaseUnsealed /\ va_generation (w_vault w') = b_generation b' /\
    va_holdReason (w_vault w') = "".
Proof.
  unfold Unseal. destruct b as [b|]; [|intros [= _ <-]; by left]. rewrite bind_get, bind_lift.
  destruct (checkUnseal (w_vault w) b intent) as [install|] eqn:Ec; [|intros [= _ <-]; by left].
  destruct install; [|intros [= _ <-]; by left]. cbn [negb]. apply checkUnseal_ok in Ec as [Ha _].
  intros [[_ E]|(scopes & w1 & _ & Hv & E)]%(leaves_then w_vault); [by left| |].
  - right. by exists b; injection E as <- <-.
  - apply leaves_foldE. intros acc sc. unfold cloneScope. leave. by apply leaves_modify.
Qed.

Lemma controlCaller_ok rq id : controlCaller (cf_instance cfg) rq = Ok id ->
  identityFrom rq (cf_instance cfg) = Ok id /\ (id_Role id = RoleOperator \/ id_Role id = RoleKeeper).
Proof.
  unfold controlCaller. intros (id' & Hi & E)%bind_ok. case_decide as Hr; [done|]. injection E as ->. split; [done|].
  destruct (decide (id_Role id = RoleOperator)); [by left|]. destruct (decide (id_Role id = RoleKeeper)); [by right|].
  by destruct Hr.
Qed.

Lemma mayChangeSeal_ok rq : mayChangeSeal (cf_instance cfg) rq = Ok tt ->
  exists id, identityFrom rq (cf_instance cfg) = Ok id /\ id_Role id = RoleOperator.
Proof.
  unfold mayChangeSeal. intros (id & Hi & E)%bind_ok. apply controlCaller_ok in Hi as [Hi _]. exists id. split; [done|].
  destruct (MaySeal id) eqn:Hs; [|done]. by apply bool_decide_eq_true in Hs.
Qed.

(** What a keeper may push. *)
Lemma keeper_push id intent : id_Role id = RoleOperator \/ id_Role id = RoleKeeper -> MayPush id intent = true ->
  id_Role id = RoleOperator \/ id_Role id = RoleKeeper /\ intent = IntentReseed.
Proof.
  intros [Hr|Hr] E; [by left|right]. split; [done|]. unfold MayPush in E. rewrite Hr in E. rewrite decide_False, decide_True in E by done.
  by apply bool_decide_eq_true in E.
Qed.

Lemma seal_changes rq s r s' : seal cfg rq s = (r, s') \/ releaseHold cfg rq s = (r, s') -> vaultOf s' <> vaultOf s ->
  is_ok r = true /\ exists id, identityFrom rq (cf_instance cfg) = Ok id /\ id_Role id = RoleOperator.
Proof.
  intros [E|E] Hne; unfold seal, releaseHold in E; rewrite bind_lift in E;
    destruct (mayChangeSeal _ rq) as [[]|] eqn:Em; try (by injection E as _ <-);
    apply onWorld_inv in E as (r' & w' & E & -> & ->); (split; [by injection E as <- _|by apply mayChangeSeal_ok]).
Qed.

Lemma unseal_changes rq s r s' : unseal cfg rq s = (r, s') -> vaultOf s' <> vaultOf s ->
  is_ok r = true /\ exists id intent b, identityFrom rq (cf_instance cfg) = Ok id /\ accepts (vaultOf s) b intent /\
    va_phase (vaultOf s') = PhaseUnsealed /\ va_generation (vaultOf s') = b_generation b /\
    (id_Role id = RoleOperator \/ id_Role id = RoleKeeper /\ intent = IntentReseed).
Proof.
  intros E Hne. unfold unseal in E.
  apply (leaves_then vaultOf) in E as [[_ ?]|(id & s1 & E1 & Hv & E)]; [done| |apply leaves_lift].
  apply lift_inv in E1 as [Hid ->]. apply controlCaller_ok in Hid as [Hid Hrole].
  apply (leaves_then vaultOf) in E as [[_ ?]|(intent & s1 & E1 & _ & E)]; [done| |apply leaves_lift].
  apply lift_inv in E1 as [_ ->]. destruct (MayPush id intent) eqn:Hp; cbn [negb] in E; [|by injection E as _ <-].
  case_decide; [by injection E as _ <-|].
  apply (leaves_then vaultOf) in E as [[_ ?]|(sealed & s1 & _ & Hv1 & E)]; [done| |apply leaves_lift].
  apply (leaves_then vaultOf) in E as [[_ ?]|(t & s2 & _ & Hv2 & E)]; [congruence| |apply leaves_gets].
  apply (leaves_then vaultOf) in E as [[_ ?]|(payload & s3 & _ & Hv3 & E)]; [congruence| |apply onChallenger_vault].
  apply (leaves_then vaultOf) in E as [[_ ?]|(b & s4 & _ & Hv4 & E)]; [congruence| |apply onMemory_vault].
  apply deferring_inv in E as (s5 & E & ->); [|done]. cbn in Hne |- *. change (vaultOf s5 <> vaultOf s) in Hne.
  assert (vaultOf s4 = vaultOf s) as Hv0 by congruence.
  apply bind_cases in E as [(e & E & ->)|([] & s6 & E & E')].
  - apply onWorld_inv in E as (r' & w' & E & Hr & ->). apply Unseal_vault in E as [E|(b' & _ & -> & _)]; [|done].
    exfalso. apply Hne. by rewrite <- Hv0.
  - injection E' as <- <-. split; [done|]. apply onWorld_inv in E as (r' & w' & E & Hr & ->).
    apply Unseal_vault in E as [E|(b' & [= <-] & _ & Ha & Hph & Hg & _)]; [exfalso; apply Hne; by rewrite <- Hv0|].
    exists id, intent, b. unfold vaultOf at 1 in Hv0. rewrite Hv0 in Ha. split_and!; try done. by apply keeper_push.
Qed.

(** ** Data *)

(** What [resolve] found when it let a request through. *)
Record resolved (rq : Request) (h : keyHeader) s key id sc c store s' : Prop := {
  rs_caller : identityFrom rq (cf_instance cfg) = Ok id;
  rs_key : Base64DecodeString (headerOf rq h) = Some key;
  rs_open : va_phase (vaultOf s) = PhaseUnsealed;
  rs_held : sc ∈ va_scopes (vaultOf s);
  rs_owns : Owns sc key = true;
  rs_declared : sc_Name sc = rq_scope rq;
  rs_reach : MayReach id (sc_Name sc) = true;
  rs_name : sc_Name c = sc_Name sc /\ sc_Prefix c = sc_Prefix sc;
  rs_copy : mints (memoryOf s) (memoryOf s') (addrs c);
  rs_store : NewStore (cf_bucket cfg) (sc_keys (load (memoryOf s') c)) = Ok store;
  rs_value : allocated s -> load (memoryOf s') c = load (memoryOf s) sc;
  rs_state : s' = mkServer (withMem (memoryOf s') (sv_world s)) (sv_challenger s) (sv_cloud s)
}.

(** A request that changed nothing but memory, and left only zeros there. *)
Definition traceless s s' : Prop :=
  forgets (memoryOf s) (memoryOf s') /\ s' = mkServer (withMem (memoryOf s') (sv_world s)) (sv_challenger s) (sv_cloud s').

Lemma traceless_refl s : traceless s s.
Proof. split; [apply forgets_refl|]. by destruct s as [[] ? ?]. Qed.

(** The errors of a refused key. *)
Definition refusals s (c : string) (rq : Request) (e : server_error) : Prop :=
  e = ErrNoIdentity \/ e = ErrNotAuthorized \/ e = MissingKey \/ e = NotBase64Key \/ e = MissingScope \/
  (e = FromVault Sealed /\ va_phase (vaultOf s) <> PhaseUnsealed) \/ e = FromVault OutOfScope \/ e = OtherScope c (rq_scope rq) \/
  exists e', e = FromStore e' /\ exists k, NewStore (cf_bucket cfg) k = Err e'.

Lemma identityFrom_err rq e : identityFrom rq (cf_instance cfg) = Err e -> e = ErrNoIdentity \/ e = ErrNotAuthorized.
Proof. unfold identityFrom. destruct (rq_uris rq); [destruct (firstIdentity _ _)|]; intros [=]; auto. Qed.

Lemma refuse_run {A} sc e s : refuse (A := A) sc e s =
  (Err e, mkServer (withMem (Zero (memoryOf s) sc) (sv_world s)) (sv_challenger s) (sv_cloud s)).
Proof. done. Qed.

Lemma resolve_cases rq h s r s' : resolve cfg rq h s = (r, s') ->
  match r with
  | Ok (key, id, c, store) => exists sc, resolved rq h s key id sc c store s'
  | Err e => traceless s s' /\ sv_cloud s' = sv_cloud s /\ exists c, refusals s c rq e
  end.
Proof.
  unfold resolve, refusals. rewrite bind_lift. destruct (identityFrom rq _) as [id|e] eqn:Hid.
  2:{ intros [= <- <-]. split; [apply traceless_refl|]. split; [done|]. exists "". destruct (identityFrom_err _ _ Hid); auto. }
  cbv zeta. case_decide; [intros [= <- <-]; split_and!; [apply traceless_refl|done|exists ""; tauto]|].
  destruct (Base64DecodeString (headerOf rq h)) as [key|] eqn:Hk;
    [|intros [= <- <-]; split_and!; [apply traceless_refl|done|exists ""; tauto]].
  case_decide; [intros [= <- <-]; split_and!; [apply traceless_refl|done|exists ""; tauto]|].
  intros [(e & E & ->)|(c & s1 & E & E')]%bind_cases.
  - apply onWorld_inv in E as (r' & w' & E & Hr & ->). unfold ScopeFor in E. rewrite bind_get in E.
    assert ((r' = Err Sealed /\ va_phase (vaultOf s) <> PhaseUnsealed \/ r' = Err OutOfScope) /\ w' = sv_world s) as [Hr' ->].
    { case_decide; [injection E as <- <-; auto|]. destruct (list_find _ _) as [[i sc]|]; [|injection E as <- <-; auto].
      destruct (Clone _ sc) as [c m]. injection E as <- <-. done. }
    split_and!; [by destruct s as [[] ? ?]; apply traceless_refl|done|]. exists "". destruct Hr' as [[-> ?]| ->]; injection Hr as ->; tauto.
  - apply onWorld_inv in E as (r' & w' & E & Hr & ->). destruct r' as [c'|]; [|done]. injection Hr as ->.
    apply ScopeFor_spec in E as (Hph & sc & m & Hsc & Ho & Hc & ->). pose proof (Clone_mints _ _ _ _ Hc) as (Hm & Hn & Hp).
    assert (traceless s (mkServer (withMem (Zero m c') (withMem m (sv_world s))) (sv_challenger s) (sv_cloud s))) as Ht
      by (split; [by apply Zero_forgets|done]).
    destruct (MayReach id (sc_Name c')) eqn:Hre; cbn [negb] in E'; [|injection E' as <- <-; split_and!; [done|done|exists ""; tauto]].
    case_decide as Hd; [injection E' as <- <-; split_and!; [done|done|eexists; do 7 right; left; reflexivity]|].
    rewrite bind_get in E'. unfold storeFor in E'. cbn [sv_world w_mem withMem] in E'.
    destruct (NewStore _ _) as [store|e] eqn:Es; [|injection E' as <- <-; split_and!; [done|done|exists ""; do 8 right; eauto]].
    injection E' as <- <-. exists sc. split; try done; [by rewrite <- Hn|by rewrite <- Hn|].
    intros Ha. cbn. rewrite (Clone_alloc _ _ (memoryOf s)) in Hc; [by apply allocScope_spec in Hc as [_ ->]|done|].
    apply Forall_forall. intros a Hin. unfold allocated in Ha. rewrite Forall_forall in Ha. apply Ha. by eapply addrs_of.
Qed.

(** Neither the process's own state nor its challenges. *)
Definition quiet {A} (m : eff (Server W P) server_error A) : Prop := leaves (fun s => (sv_world s, sv_challenger s)) m.

Lemma onStore_quiet {A} (m : eff (W * P) store_error A) : quiet (onStore m).
Proof. intros s r s' (r' & c & _ & _ & ->)%onStore_inv. done. Qed.

Lemma mayMutate_quiet id c key : quiet (mayMutate (W := W) (P := P) id c key).
Proof. apply leaves_bind; [apply leaves_get|]. intros s. leave. Qed.

Hint Extern 1 (leaves _ (onStore _)) => apply onStore_quiet : leaves.
Hint Extern 1 (leaves _ (mayMutate _ _ _)) => apply mayMutate_quiet : leaves.

(** A data handler: it is refused before its key is reached, or it runs on its copy
    of the keys and wipes it. *)
Lemma data_cases {A} (m : string -> Identity -> ScopeRef -> Store -> eff (Server W P) server_error A) rq h s r s' :
  (forall key id c store, quiet (m key id c store)) ->
  ('(key, id, c, store) ← resolve cfg rq h; deferring (zeroScope c) (m key id c store)) s = (r, s') ->
  traceless s s' /\
  ((exists c e, r = Err e /\ refusals s c rq e /\ sv_cloud s' = sv_cloud s) \/
   exists key id sc c store s1 s2, resolved rq h s key id sc c store s1 /\ m key id c store s1 = (r, s2) /\
     sv_cloud s' = sv_cloud s2).
Proof.
  intros Hq [(e & E & ->)|([[[key id] c] store] & s1 & E & E')]%bind_cases; apply resolve_cases in E.
  - destruct E as ([? Hs] & Hc & c & Hr). split; [split; [done|by rewrite Hs]|]. left. exists c, e. done.
  - destruct E as [sc Hres]. apply deferring_inv in E' as (s2 & E & ->); [|done].
    pose proof (Hq _ _ _ _ _ _ _ E) as Hw. injection Hw as Hw Hch.
    split; [|right; exists key, id, sc, c, store, s1, s2; done]. pose proof (rs_state _ _ _ _ _ _ _ _ _ Hres) as Es.
    assert (memoryOf s2 = memoryOf s1) as Em by (unfold memoryOf; by rewrite Hw).
    split.
    + change (memoryOf (zeroScope c s2).2) with (Zero (memoryOf s2) c). rewrite Em. apply Zero_forgets, Hres.
    + change (zeroScope c s2).2 with (mkServer (withMem (Zero (memoryOf s2) c) (sv_world s2)) (sv_challenger s2) (sv_cloud s2)).
      cbn. rewrite Hw, Hch, Es. done.
Qed.

(** An application changes no secret. *)
Definition mutable (id : Identity) (sc : ScopeRef) (key : string) : Prop :=
  id_Role id = RoleApp -> IsSecretsKey (sc_Prefix sc) key = false.

Lemma mayMutate_run id c key s : mayMutate (W := W) (P := P) id c key s = (Ok tt, s) /\ mutable id c key \/
  mayMutate id c key s = (Err ErrSecretsReadOnly, s) /\ ~ mutable id c key.
Proof.
  unfold mayMutate, refuseSecretMutation, mutable. rewrite bind_get. cbn [load sc_Prefix].
  destruct (IsSecretsKey _ _) eqn:Hs; cbn [negb]; [|by left].
  case_bool_decide as Hr; [right|left]; split; try done. intros Hm. by discriminate Hm.
Qed.

(** What a data request does once it is let through. *)
Definition outcome (rt : route) (rq : Request) key id (sc : ScopeRef) store (st st' : W * P) (rep : reply) : Prop :=
  let done_ {A} (x : result store_error A) ok := rep = match x with Ok a => ok a | Err e => failReply (FromStore e) end in
  match rt with
  | GetObject => exists x, Store.Read store key st = (x, st') /\ done_ x (fun d => mkReply StatusOK "" (BodyBytes d))
  | PutObject =>
      (rep = failReply ErrSecretsReadOnly /\ st' = st /\ ~ mutable id sc key) \/
      mutable id sc key /\
        ((rep = failReply (BodyTooLarge (maxObject (cf_max cfg))) /\ st' = st) \/
         exists data x, readBody rq (maxObject (cf_max cfg)) (BodyTooLarge (maxObject (cf_max cfg))) = Ok data /\
           Write store key data st = (x, st') /\ done_ x (fun _ => mkReply StatusNoContent "" NoBody))
  | DeleteObject =>
      (rep = failReply ErrSecretsReadOnly /\ st' = st /\ ~ mutable id sc key) \/
      mutable id sc key /\
        exists x, Store.Delete store key st = (x, st') /\ done_ x (fun _ => mkReply StatusNoContent "" NoBody)
  | GetList => exists x, Store.List store key st = (x, st') /\
      done_ x (fun '(keys, failures) =>
        if decide (failures = []) then mkReply StatusOK "" (BodyKeys keys) else failReply (ListFailed failures))
  | _ => False
  end.

Definition isData (rt : route) : bool :=
  match rt with GetObject | PutObject | DeleteObject | GetList => true | _ => false end.

Definition headerFor (rt : route) : keyHeader := match rt with GetList => HeaderPrefix | _ => HeaderKey end.

(** The same, with what is answered. *)
Lemma data_answer {A} (f : A -> reply) (m : string -> Identity -> ScopeRef -> Store -> eff (Server W P) server_error A) rt rq s rep s' :
  (forall key id c store, quiet (m key id c store)) ->
  answer f ('(key, id, c, store) ← resolve cfg rq (headerFor rt); deferring (zeroScope c) (m key id c store)) s = (rep, s') ->
  (forall key id sc c store s1 r s2, resolved rq (headerFor rt) s key id sc c store s1 -> m key id c store s1 = (r, s2) ->
     sv_cloud s1 = sv_cloud s -> (mutable id c key <-> mutable id sc key) ->
     outcome rt rq key id sc store (sv_cloud s) (sv_cloud s2) (match r with Ok a => f a | Err e => failReply e end)) ->
  traceless s s' /\
  ((exists c e, rep = failReply e /\ refusals s c rq e /\ sv_cloud s' = sv_cloud s) \/
   exists key id sc c store s1, resolved rq (headerFor rt) s key id sc c store s1 /\
     outcome rt rq key id sc store (sv_cloud s) (sv_cloud s') rep).
Proof.
  intros Hq E Hout. unfold answer in E.
  match type of E with match ?x with _ => _ end = _ => destruct x as [r s2] eqn:Er end.
  assert (s2 = s' /\ rep = match r with Ok a => f a | Err e => failReply e end) as [-> Hrep]
    by (destruct r; by injection E as <- <-).
  apply data_cases in Er as [Ht [(c & e & -> & Hr & Hc)|(key & id & sc & c & store & s1 & s3 & Hr & Eo & Hc)]]; [| |done].
  - split; [done|]. left. eauto.
  - split; [done|]. right. exists key, id, sc, c, store, s1. split; [done|]. rewrite Hc, Hrep.
    apply (Hout key id sc c store s1 r s3); try done; [by rewrite (rs_state _ _ _ _ _ _ _ _ _ Hr)|].
    unfold mutable. by destruct (rs_name _ _ _ _ _ _ _ _ _ Hr) as [_ ->].
Qed.

(** What comes of a data request: refused without a trace, or let through. *)
Lemma data_route rt rq s rep s' : isData rt = true -> serve cfg rt rq s = (rep, s') ->
  traceless s s' /\
  ((exists c e, rep = failReply e /\ refusals s c rq e /\ sv_cloud s' = sv_cloud s) \/
   exists key id sc c store s1, resolved rq (headerFor rt) s key id sc c store s1 /\
     outcome rt rq key id sc store (sv_cloud s) (sv_cloud s') rep).
Proof.
  intros Hd E. destruct rt; try discriminate Hd; cbn [serve] in E.
  - eapply (data_answer _ (fun key _ _ store => onStore (Store.Read store key)) GetObject); [intros; apply onStore_quiet|exact E|clear E]. intros key id sc c store s1 r s2 _ (x & st & Ex & -> & ->)%onStore_inv Hc _.
    exists x. rewrite <- Hc. by destruct x.
  - eapply (data_answer _ (fun key id c store => _ ← mayMutate id c key; data ← lift (readBody rq _ _); onStore (Store.Write store key data)) PutObject); [intros; unfold quiet; leave|exact E|clear E]. intros key id sc c store s1 r s2 _ E Hc Hm. cbn [outcome].
    destruct (mayMutate_run id c key s1) as [[Er Hmu]|[Er Hmu]]; [right|left]; rewrite Hm in Hmu.
    2:{ rewrite (bind_fails _ _ _ _ _ Er) in E. injection E as <- <-. done. }
    split; [done|]. rewrite (bind_run _ _ _ _ _ Er), bind_lift in E. destruct (readBody rq _ _) as [data|e] eqn:Eb.
    + right. apply onStore_inv in E as (x & st & Ex & -> & ->). exists data, x. rewrite <- Hc. by destruct x.
    + left. injection E as <- <-. split; [|done]. unfold readBody in Eb. destruct (_ <? _); [by injection Eb as <-|].
      destruct (rd_error _); [by injection Eb as <-|done].
  - eapply (data_answer _ (fun key id c store => _ ← mayMutate id c key; onStore (Store.Delete store key)) DeleteObject); [intros; unfold quiet; leave|exact E|clear E]. intros key id sc c store s1 r s2 _ E Hc Hm. cbn [outcome].
    destruct (mayMutate_run id c key s1) as [[Er Hmu]|[Er Hmu]]; [right|left]; rewrite Hm in Hmu.
    2:{ rewrite (bind_fails _ _ _ _ _ Er) in E. injection E as <- <-. done. }
    split; [done|]. rewrite (bind_run _ _ _ _ _ Er) in E. apply onStore_inv in E as (x & st & Ex & -> & ->).
    exists x. rewrite <- Hc. by destruct x.
  - eapply (data_answer _ (fun prefix _ _ store => '(keys, failures) ← onStore (Store.List store prefix);
       if decide (failures = []) then mret keys else fail (ListFailed failures)) GetList); [intros; unfold quiet; leave|exact E|clear E]. intros key id sc c store s1 r s2 _ E Hc _. cbn [outcome].
    apply bind_cases in E as [(e & (x & st & Ex & Hx & ->)%onStore_inv & ->)|([keys fs] & s3 & (x & st & Ex & Hx & ->)%onStore_inv & E)];
      destruct x as [x|e']; try discriminate Hx; injection Hx as Hx; subst.
    + exists (Err e'). by rewrite <- Hc.
    + exists (Ok (keys, fs)). rewrite <- Hc. case_decide; by injection E as <- <-.
Qed.

(** ** What changes in the cloud *)

Lemma NewStore_bucket k store : NewStore (cf_bucket cfg) k = Ok store -> s_bucket store = cf_bucket cfg.
Proof.
  unfold NewStore. case_decide; [done|]. intros ([] & _ & E)%bind_ok. apply bind_ok in E as (nk & _ & E).
  apply bind_ok in E as (tk & _ & [= <-]). done.
Qed.

(** A change is one mutation of one object. *)
Lemma outcome_changes rt rq key id sc store st st' rep : s_bucket store = cf_bucket cfg ->
  outcome rt rq key id sc store st st' rep -> objects store st'.2 <> objects store st.2 ->
  (rt = PutObject \/ rt = DeleteObject) /\ mutable id sc key /\
  forall path, path <> pathOf store key -> objects store st'.2 !! path = objects store st.2 !! path.
Proof.
  intros Hb Ho Hne. destruct st as [w p], st' as [w' p']. destruct rt; try done; cbn [outcome] in Ho.
  - destruct Ho as (x & E & _). by apply Read_spec in E as [E _].
  - destruct Ho as [(_ & [= -> ->] & _)|[Hm [(_ & [= -> ->])|(data & x & _ & E & _)]]]; [done|done|].
    split_and!; [by left|done|]. intros path Hp. apply Write_cases in E as [(? & ? & ? & _ & _ & _ & created & E)|[_ E]]; [|done].
    cbn. rewrite E. by rewrite lookup_insert_ne.
  - destruct Ho as [(_ & [= -> ->] & _)|[Hm (x & E & _)]]; [done|]. split_and!; [by right|done|].
    intros path Hp. apply Delete_cases in E as [E|[_ E]]; [|done]. cbn. rewrite E. by rewrite lookup_delete_ne.
  - destruct Ho as (x & E & _). by apply keeps_List in E.
Qed.

Definition provider s : P := snd (sv_cloud s).

Lemma onWorld_cloud {A} (m : eff World vault_error A) : leaves provider (onWorld (W := W) (P := P) m).
Proof. by intros s r s' (r' & w' & _ & _ & ->)%onWorld_inv. Qed.
Lemma onMemory_cloud {A} (m : eff memory bundle_error A) : leaves provider (onMemory (W := W) (P := P) m).
Proof. intros s r s'. unfold onMemory. destruct (m _). by intros [= _ <-]. Qed.
Lemma onChallenger_cloud {A} (m : eff Challenger envelope_error A) : leaves provider (onChallenger (W := W) (P := P) m).
Proof. intros s r s'. unfold onChallenger. destruct (m _). by intros [= _ <-]. Qed.
Lemma onIssue_cloud t : leaves provider (onIssue (W := W) (P := P) t).
Proof. intros s r s'. unfold onIssue. destruct (Issue _ _ _) as [? [? ?]]. by intros [= _ <-]. Qed.

Hint Extern 1 (leaves provider (onWorld _)) => apply onWorld_cloud : leaves.
Hint Extern 1 (leaves provider (onMemory _)) => apply onMemory_cloud : leaves.
Hint Extern 1 (leaves provider (onChallenger _)) => apply onChallenger_cloud : leaves.
Hint Extern 1 (leaves provider (onIssue _)) => apply onIssue_cloud : leaves.

Lemma leaves_deferring {A T} (g : Server W P -> T) f (m : eff (Server W P) server_error A) :
  leaves g f -> leaves g m -> leaves g (deferring f m).
Proof. intros Hf Hm. unfold deferring. leave. Qed.

Lemma leaves_answer {A T} (g : Server W P -> T) (f : A -> reply) m s rep s' :
  leaves g m -> answer f m s = (rep, s') -> g s' = g s.
Proof. intros Hm. unfold answer. destruct (m s) as [[a|e] s1] eqn:E; intros [= _ <-]; exact (Hm _ _ _ E). Qed.

Lemma control_cloud rt rq s rep s' : isData rt = false -> serve cfg rt rq s = (rep, s') -> provider s' = provider s.
Proof.
  intros Hd E. destruct rt; try discriminate Hd; cbn [serve] in E; try (by injection E as _ <-);
    (eapply leaves_answer; [|exact E]).
  - unfold controlState, stateNow. leave.
  - unfold issue, now. leave.
  - unfold unseal, now, stateNow. leave. apply leaves_deferring; [by apply leaves_modify|]. leave.
  - unfold seal. leave.
  - unfold releaseHold. leave.
Qed.

(** ** A sealed keyholder, and errors *)

(** A request that names its caller, a key and a scope. *)
Definition addressed (rq : Request) (h : keyHeader) : Prop :=
  is_ok (identityFrom rq (cf_instance cfg)) = true /\ ~ (headerOf rq h = "" /\ h = HeaderKey) /\
  is_Some (Base64DecodeString (headerOf rq h)) /\ rq_scope rq <> "".

Lemma resolve_sealed rq h s : va_phase (vaultOf s) <> PhaseUnsealed ->
  exists e, resolve cfg rq h s = (Err e, s) /\
    (addressed rq h /\ e = FromVault Sealed \/
     ~ addressed rq h /\ (e = ErrNoIdentity \/ e = ErrNotAuthorized \/ e = MissingKey \/ e = NotBase64Key \/ e = MissingScope)).
Proof.
  intros Hp. unfold resolve, addressed. rewrite bind_lift. destruct (identityFrom rq _) as [id|e] eqn:Hid; cbn [is_ok].
  2:{ exists e. split; [done|]. right. split; [by intros [? _]|]. destruct (identityFrom_err _ _ Hid); auto. }
  cbv zeta. case_decide; [exists MissingKey; split; [done|right; tauto]|].
  destruct (Base64DecodeString (headerOf rq h)) as [key|].
  2:{ exists NotBase64Key. split; [done|]. right. split; [|tauto]. by intros (_ & _ & [? [=]] & _). }
  case_decide; [exists MissingScope; split; [done|right; tauto]|]. exists (FromVault Sealed). split; [|left; split_and!; done].
  apply bind_fails. unfold onWorld, ScopeFor. rewrite bind_get, decide_True by done. by destruct s.
Qed.

(** A code is given for what it stands for. *)
Lemma code_not_found e : re_code (failReply e) = CodeNotFound -> SObjectNotFound ∈ wraps e.
Proof.
  unfold failReply, classify. intros Hc. apply (bool_decide_eq_true_1 (SObjectNotFound ∈ wraps e)).
  change (Is e SObjectNotFound = true). repeat case_match; simplify_eq; done.
Qed.

Lemma keyring_known e x : x ∈ keyringWraps e -> x = SKeyringInvalid \/ x = SInvalidKey.
Proof. induction e; cbn; rewrite ?elem_of_cons, ?elem_of_nil; try tauto. Qed.

Lemma NewStore_known k e : NewStore (cf_bucket cfg) k = Err e -> SObjectNotFound ∉ storeWraps e.
Proof.
  unfold NewStore. case_decide; [intros [= <-]; apply not_elem_of_nil|].
  destruct (wrapErr InvalidKeyring (Valid k)) as [[]|e1] eqn:E1.
  - destruct (wrapErr InvalidKeyring (ActiveNameKey k)) as [nk|e2] eqn:E2.
    + cbn. destruct (NameTokenKey (ke_key nk)); cbn; [done|]. intros [= <-]. apply not_elem_of_nil.
    + destruct (ActiveNameKey k); [done|]. injection E2 as <-. intros [= <-] Hx%keyring_known. by destruct Hx.
  - destruct (Valid k); [done|]. injection E1 as <-. intros [= <-] Hx%keyring_known. by destruct Hx.
Qed.

Lemma refusals_known s c rq e : refusals s c rq e -> SObjectNotFound ∉ wraps e.
Proof.
  intros [->|[->|[->|[->|[->|[[-> _]|[->|[->|(e' & -> & k & E)]]]]]]]]; cbn [wraps vaultWraps]; [set_solver..|].
  by eapply NewStore_known.
Qed.

(** Neither a write, a delete nor a listing says that an object is missing: of what a listing named, all is there. *)
Lemma blob_found e : SObjectNotFound ∉ blobWraps e.
Proof. destruct e; cbn; set_solver. Qed.

Lemma onCloud_found {A} (m : eff P provider_error A) w p e st : (forall n p', m p <> (Err (ErrObjectNotFound n), p')) ->
  onCloud (W := W) m (w, p) = (Err e, st) -> SObjectNotFound ∉ storeWraps e.
Proof.
  intros Hm. destruct st as [w' p']. intros (_ & r & E & Hr)%onCloud_inv. destruct r as [a|x]; [done|]. injection Hr as ->.
  destruct x as [n|m']; [by destruct (Hm n p')|apply not_elem_of_nil].
Qed.

Lemma StoredName_found store key e : StoredName store key = Err e -> SObjectNotFound ∉ storeWraps e.
Proof. unfold StoredName. destruct (ValidateLogicalKey key); [done|]. intros [= <-]. cbn. set_solver. Qed.

Lemma activeKey_found store e : activeKey store = Err e -> SObjectNotFound ∉ storeWraps e.
Proof. unfold activeKey. destruct (ActiveKEK _) as [a|x]; [done|]. intros [= <-] Hx%keyring_known. by destruct Hx. Qed.

Lemma Write_found store key data (st st' : W * P) e : Write store key data st = (Err e, st') -> SObjectNotFound ∉ storeWraps e.
Proof.
  unfold Write. intros [(x & E & [= <-])|(stored & s1 & _ & E)]%bind_cases.
  { injection E as E _. by eapply StoredName_found. }
  apply bind_cases in E as [(x & E & [= <-])|(kek & s2 & _ & E)].
  { injection E as E _. by eapply activeKey_found. }
  apply bind_cases in E as [(x & E & [= <-])|([blob sn] & [w2 p2] & _ & E)].
  { unfold withErr in E. destruct (Blob.Seal _ _ _ _ _ _) as [[a|b] s3]; [done|]. injection E as <- _. apply blob_found. }
  eapply onCloud_found; [|exact E]. intros n p'. apply put_found.
Qed.

Lemma Delete_found store key (st st' : W * P) e : Store.Delete store key st = (Err e, st') -> SObjectNotFound ∉ storeWraps e.
Proof.
  unfold Store.Delete. intros [(x & E & [= <-])|(stored & [w1 p1] & _ & E)]%bind_cases.
  { injection E as E _. by eapply StoredName_found. }
  eapply onCloud_found; [|exact E]. intros n p'. apply delete_found.
Qed.

Lemma logicalName_found store info w p e st : is_Some (objects store p !! oi_Name info) ->
  logicalName (W := W) store info (w, p) = (Err e, st) -> SObjectNotFound ∉ storeWraps e.
Proof.
  intros [o Ho]. unfold logicalName. destruct (mirrorName store info); [done|].
  intros [(x & E & [= <-])|(head & s1 & _ & E)]%bind_cases.
  - unfold withErr in E. destruct (header store (oi_Name info) (w, p)) as [[a|y] [w1 p1]] eqn:Eh; [done|]. injection E as <- _. cbn [storeWraps].
    unfold header in Eh. apply bind_cases in Eh as [(x & Eh & [= <-])|(body & s2 & _ & Eh)].
    + eapply onCloud_found; [|exact Eh]. intros n p' En. apply get_stream_failed in En as [_ Hn].
      specialize (Hn n eq_refl). unfold objects in Ho. congruence.
    + injection Eh as Eh _. unfold readLimited in Eh. destruct (_ <=? _); [done|].
      destruct (rd_error body); [|done]. injection Eh as <-. apply not_elem_of_nil.
  - apply bind_cases in E as [(x & E & [= <-])|(h & s2 & _ & E)].
    + injection E as E _. destruct (ParseHeader head) as [|b]; [done|]. injection E as <-. apply blob_found.
    + injection E as E _. destruct (OpenName _ _ _); [done|]. injection E as <-. apply not_elem_of_nil.
Qed.

Lemma listEntries_found store prefix infos : forall es fs w p r st,
  Forall (fun info => is_Some (objects store p !! oi_Name info)) infos -> Forall (fun e => SObjectNotFound ∉ storeWraps e) fs ->
  foldE (listEntry (W := W) store prefix) (es, fs) infos (w, p) = (r, st) ->
  exists es' fs', r = Ok (es', fs') /\ Forall (fun e => SObjectNotFound ∉ storeWraps e) fs'.
Proof.
  induction infos as [|info infos IH]; intros es fs w p r st Hi Hf; cbn [foldE]; [intros [= <- _]; eauto|].
  apply Forall_cons in Hi as [Hi1 Hi]. destruct (logicalName (W := W) store info (w, p)) as [x [w1 p1]] eqn:El.
  rewrite (bind_run _ _ _ _ _ (listEntry_adds _ prefix es fs _ _ _ _ _ _ El)). apply IH.
  - apply logicalName_spec in El as (Ho & _). by rewrite Ho.
  - apply Forall_app. split; [done|]. destruct x as [name|e]; cbn; [by destruct (HasPrefix name prefix); constructor|].
    constructor; [|constructor]. by eapply logicalName_found.
Qed.

Lemma List_found store prefix (st st' : W * P) r : Store.List store prefix st = (r, st') ->
  match r with
  | Ok (_, failures) => Forall (fun e => SObjectNotFound ∉ storeWraps e) failures
  | Err e => SObjectNotFound ∉ storeWraps e
  end.
Proof.
  destruct st as [w p]. unfold Store.List, ListEntries. intros E.
  assert (forall infos w1 p1 x st2, onCloud (W := W) (pList (s_bucket store) (StoredPrefix store prefix)) (w, p) = (Ok infos, (w1, p1)) ->
    foldE (listEntry (W := W) store prefix) ([], []) infos (w1, p1) = (x, st2) ->
    exists es' fs', x = Ok (es', fs') /\ Forall (fun e => SObjectNotFound ∉ storeWraps e) fs') as Hall.
  { intros infos w1 p1 x st2 E1. apply onCloud_ok in E1 as [-> E1]. apply list_ok in E1 as [Ho Hp].
    apply listEntries_found; [|constructor]. apply Forall_forall. intros info Hin. rewrite Hp in Hin.
    apply list_elem_of_fmap in Hin as ([name o] & -> & [_ Hin]%list_elem_of_filter).
    apply elem_of_map_to_list in Hin. cbn. exists o. unfold objects. by rewrite Ho. }
  apply bind_cases in E as [(e & E & ->)|([es fs] & s1 & E & [= <- _])].
  - apply bind_cases in E as [(x & E & [= <-])|(infos & [w1 p1] & E1 & E)].
    { eapply onCloud_found; [|exact E]. intros n p'. apply list_found. }
    apply bind_cases in E as [(x & E & [= <-])|([? ?] & s2 & _ & [=])].
    by destruct (Hall _ _ _ _ _ E1 E) as (? & ? & [=] & _).
  - apply bind_inv in E as (infos & [w1 p1] & E1 & E). apply bind_inv in E as ([es' fs'] & s2 & E2 & [= _ <- _]).
    by destruct (Hall _ _ _ _ _ E1 E2) as (? & ? & [= <- <-] & ?).
Qed.

(** A read that says so found nothing. *)
Lemma Read_missing store key (st st' : W * P) e : Store.Read store key st = (Err e, st') -> SObjectNotFound ∈ storeWraps e ->
  objects store st.2 !! pathOf store key = None.
Proof.
  destruct st as [w p], st' as [w' p']. unfold Store.Read. intros [(e' & E & [= <-])|(stored & s1 & E1 & E)]%bind_cases He.
  { unfold StoredName in E. destruct (ValidateLogicalKey key); [done|]. injection E as <- _ _. cbn in He. set_solver. }
  apply lift_inv in E1 as [En ->]. apply StoredName_ok in En as [-> _].
  apply bind_cases in E as [(e' & E & [= <-])|(obj & s1 & _ & E)].
  - apply onCloud_inv in E as (_ & r' & E & Hr). destruct r' as [|e']; [done|]. injection Hr as ->.
    apply get_failed in E as [_ Hn]. destruct e' as [n|]; [|by apply elem_of_nil in He]. exact (Hn n eq_refl).
  - injection E as E _. destruct (Stream.Open _ _ _) as [|b]; [done|]. injection E as <-. cbn in He. destruct b; cbn in He; set_solver.
Qed.

(** Of the requests that are let through, only a read says so. *)
Lemma outcome_missing rt rq key id sc store st st' rep : outcome rt rq key id sc store st st' rep -> re_code rep = CodeNotFound ->
  rt = GetObject /\ objects store st.2 !! pathOf store key = None.
Proof.
  destruct rt; try done; cbn [outcome].
  - intros (x & Ex & ->). destruct x as [d|e]; [done|]. intros Hc%code_not_found. split; [done|]. by eapply Read_missing.
  - intros [(-> & _)|[_ [(-> & _)|(data & x & _ & Ex & ->)]]]; [done|done|]. destruct x as [d|e]; [done|].
    intros Hc%code_not_found. by apply Write_found in Ex.
  - intros [(-> & _)|[_ (x & Ex & ->)]]; [done|]. destruct x as [d|e]; [done|]. intros Hc%code_not_found. by apply Delete_found in Ex.
  - intros (x & Ex & ->). apply List_found in Ex. destruct x as [[keys failures]|e]; [|by intros Hc%code_not_found].
    case_decide; [done|]. intros Hc%code_not_found. cbn [wraps] in Hc.
    apply list_elem_of_In, in_concat in Hc as (l & Hl & Hin). apply in_map_iff in Hl as (e & <- & He).
    rewrite Forall_forall in Ex. by destruct (Ex e (proj2 (list_elem_of_In _ _) He)); apply list_elem_of_In.
Qed.

(** Who may do what on the control surface. *)
Definition permitted (rt : route) (rq : Request) : Prop :=
  exists id, identityFrom rq (cf_instance cfg) = Ok id /\
    match rt with
    | PostSeal | PostReleaseHold => id_Role id = RoleOperator
    | PostUnseal => id_Role id = RoleOperator \/ id_Role id = RoleKeeper /\ intentOf rq = Ok IntentReseed
    | _ => id_Role id = RoleOperator \/ id_Role id = RoleKeeper
    end.

Definition isControl (rt : route) : bool :=
  match rt with GetControlState | GetChallenge | PostUnseal | PostSeal | PostReleaseHold => true | _ => false end.

Lemma bind_err {E A B} (x : result E A) (f : A -> result E B) e : x ≫= f = Err e -> x = Err e \/ exists a, x = Ok a /\ f a = Err e.
Proof. destruct x as [a|e']; cbn; [eauto|]. intros [= ->]. by left. Qed.

(** How the control surface refuses a caller, or what it asks. *)
Definition unpermitted (rq : Request) (e : server_error) : Prop :=
  e = ErrNoIdentity \/ e = ErrNotAuthorized \/ e = UnknownIntent (rq_intent rq) /\ intentOf rq = Err e.

Lemma controlCaller_refuses rq e : controlCaller (cf_instance cfg) rq = Err e -> unpermitted rq e.
Proof.
  unfold controlCaller. intros [Hi|(id & _ & E)]%bind_err; [destruct (identityFrom_err _ _ Hi) as [-> | ->]; [by left|by right; left]|].
  case_decide; [|done]. injection E as <-. by right; left.
Qed.

Lemma mayChangeSeal_refuses rq e : mayChangeSeal (cf_instance cfg) rq = Err e -> unpermitted rq e.
Proof.
  unfold mayChangeSeal. intros [Hi|(id & _ & E)]%bind_err; [by eapply controlCaller_refuses|]. destruct (MaySeal id); [done|].
  injection E as <-. by right; left.
Qed.

Lemma unseal_refuses rq s : ~ permitted PostUnseal rq ->
  exists e, unseal cfg rq s = (Err e, s) /\ unpermitted rq e.
Proof.
  intros Hn. unfold unseal. rewrite bind_lift. destruct (controlCaller _ rq) as [id|e] eqn:Hc.
  2:{ exists e. split; [done|]. by apply controlCaller_refuses. }
  rewrite bind_lift. destruct (intentOf rq) as [intent|e] eqn:Hi.
  2:{ exists e. split; [done|]. do 2 right. split; [|done]. unfold intentOf in Hi.
      case_decide; [done|]. case_decide; [done|]. by injection Hi as <-. }
  destruct (MayPush id intent) eqn:Hp; cbn [negb]; [|eexists; split; [done|by right; left]]. destruct Hn. apply controlCaller_ok in Hc as [Hid Hr].
  exists id. split; [done|]. destruct (keeper_push id intent Hr Hp) as [?|[? ->]]; auto.
Qed.

(** Who is not permitted is told so, and has changed nothing whatever. *)
Lemma not_permitted rt rq s : isControl rt = true -> ~ permitted rt rq ->
  exists e, serve cfg rt rq s = (failReply e, s) /\ unpermitted rq e.
Proof.
  intros Hc Hn. destruct rt; try discriminate Hc; cbn [serve]; unfold answer.
  - unfold controlState. rewrite bind_lift. destruct (controlCaller _ rq) as [id|e] eqn:E.
    + apply controlCaller_ok in E as [? ?]. destruct Hn. by exists id.
    + exists e. split; [done|]. by apply controlCaller_refuses.
  - unfold issue. rewrite bind_lift. destruct (controlCaller _ rq) as [id|e] eqn:E.
    + apply controlCaller_ok in E as [? ?]. destruct Hn. by exists id.
    + exists e. split; [done|]. by apply controlCaller_refuses.
  - destruct (unseal_refuses rq s Hn) as (e & -> & He). eauto.
  - unfold seal. rewrite bind_lift. destruct (mayChangeSeal _ rq) as [[]|e] eqn:E.
    + apply mayChangeSeal_ok in E as (id & ? & ?). destruct Hn. by exists id.
    + exists e. split; [done|]. by apply mayChangeSeal_refuses.
  - unfold releaseHold. rewrite bind_lift. destruct (mayChangeSeal _ rq) as [[]|e] eqn:E.
    + apply mayChangeSeal_ok in E as (id & ? & ?). destruct Hn. by exists id.
    + exists e. split; [done|]. by apply mayChangeSeal_refuses.
Qed.

(** What an error may say. *)
Definition messages : Datatypes.list string := "request refused" :: "internal error" :: "cannot issue a challenge" :: map sentinelText safeSentinels.

Definition codes : Datatypes.list string :=
  [""; CodeSealed; CodeNotFound; CodeIntegrity; CodeInvalidKey; CodeTooLarge; CodePermission; CodeOperatorHold;
   CodeGenerationOld; CodeInstanceMismatch; CodeBadRequest; CodeNotServing; CodeAlreadyServing].

Definition harmless (rep : reply) : Prop :=
  forall code message, re_body rep = BodyError code message ->
    code = re_code rep /\ code ∈ codes /\ message ∈ messages /\ (code = "" <-> re_status rep = StatusInternalServerError).

Lemma classify_known e : (classify (Some e)).2 ∈ codes /\ ((classify (Some e)).2 = "" <-> (classify (Some e)).1 = StatusInternalServerError).
Proof.
  unfold classify. repeat match goal with |- context [if ?b then _ else _] => destruct b end; cbn [fst snd];
    (split; [apply (bool_decide_unpack _); exact I|done]).
Qed.

Lemma failReply_harmless e : harmless (failReply e) /\ exists code message, re_body (failReply e) = BodyError code message.
Proof.
  assert (safeMessage e ∈ messages) as Hm.
  { unfold safeMessage, messages. destruct (list_find _ _) as [[i x]|] eqn:Ef; [|by left].
    do 3 right. apply list_elem_of_fmap_2. apply list_find_Some in Ef as [Hi _]. by eapply list_elem_of_lookup_2. }
  unfold failReply. pose proof (classify_known e) as Hc. destruct (classify (Some e)) as [status code]. destruct Hc as [Hc Hs].
  destruct (Z.eqb_spec status StatusInternalServerError) as [Hi|Hi]; (split; [|by eexists _, _]); intros ? ? [= <- <-];
    split_and!; try done. right. by left.
Qed.

Lemma answer_harmless {A} (f : A -> reply) m s rep s' : (forall a, harmless (f a)) -> answer f m s = (rep, s') -> harmless rep.
Proof. intros Hf. unfold answer. destruct (m s) as [[a|e] s1]; intros [= <- _]; [done|apply failReply_harmless]. Qed.

End facts.

(** ** Properties *)


(** C8: a data request changes nothing of the process and leaves no key behind it:
    the arrays it allocated are zeros.  It changes the bucket only as a write or a
    delete of one object, whose key its caller named, in the scope of the unsealed
    vault that owns it, which the caller declared and may reach; and never a secret
    for an application. *)
Theorem data_stays_in_scope `{CipherLaws, KeyAgreement, BundleYaml} {W P} `{Entropy W, ProviderLaws P} cfg rt rq
    (s : Server W P) rep s' :
  allocated s -> serve cfg rt rq s = (rep, s') ->
  (isData rt = true -> traceless s s') /\
  (bucketIn cfg s' <> bucketIn cfg s -> exists key id sc store,
     (rt = PutObject \/ rt = DeleteObject) /\ identityFrom rq (cf_instance cfg) = Ok id /\
     Base64DecodeString (rq_key rq) = Some key /\ va_phase (vaultOf s) = PhaseUnsealed /\
     sc ∈ va_scopes (vaultOf s) /\ Owns sc key = true /\ sc_Name sc = rq_scope rq /\ MayReach id (sc_Name sc) = true /\
     mutable id sc key /\ NewStore (cf_bucket cfg) (sc_keys (load (memoryOf s) sc)) = Ok store /\
     forall path, path <> pathOf store key -> bucketIn cfg s' !! path = bucketIn cfg s !! path).
Proof.
  intros Ha E. split; [intros Hd; by apply data_route in E as [? _]|]. intros Hne.
  destruct (isData rt) eqn:Hd.
  2:{ apply control_cloud in E; [|done]. unfold bucketIn in Hne. unfold provider in E. congruence. }
  apply data_route in E as [_ [(c & e & _ & _ & E)|(key & id & sc & c & store & s1 & [Hcall Hkey Hopen Hheld Howns Hdecl Hreach _ _ Hst Hval _] & Ho)]]; [| |done].
  { unfold bucketIn in Hne. congruence. }
  pose proof (NewStore_bucket _ _ _ Hst) as Hb. rewrite (Hval Ha) in Hst.
  unfold bucketIn in *. rewrite <- Hb in Hne |- *.
  destruct (outcome_changes cfg _ _ _ _ _ _ _ _ _ Hb Ho Hne) as (Hrt & Hm & Hpath).
  exists key, id, sc, store. split_and!; try done; [by destruct Hrt as [-> | ->]|by rewrite Hb].
Qed.

(** C40: a seal is never an absence.  Sealed, every data request is refused with
    nothing changed, as sealed when it names its caller, a key and a scope; and of all
    data requests only a read of an object answers with the code for a missing one,
    and only when the bucket holds nothing at the path of the key that was asked for.
    (Nothing else changes the bucket while a request is answered: a listing whose
    object is deleted before its name is read from it answers that code too.) *)
Theorem a_seal_is_never_an_absence `{CipherLaws, KeyAgreement, BundleYaml} {W P} `{Entropy W, ProviderLaws P} cfg rt rq
    (s : Server W P) rep s' :
  allocated s -> isData rt = true -> serve cfg rt rq s = (rep, s') ->
  (va_phase (vaultOf s) <> PhaseUnsealed ->
     s' = s /\ re_code rep ∈ [CodeSealed; CodePermission; CodeInvalidKey] /\
     (re_code rep = CodeSealed <-> addressed cfg rq (headerFor rt))) /\
  (re_code rep = CodeNotFound -> rt = GetObject /\ exists key id sc store,
     identityFrom rq (cf_instance cfg) = Ok id /\ Base64DecodeString (rq_key rq) = Some key /\
     va_phase (vaultOf s) = PhaseUnsealed /\ sc ∈ va_scopes (vaultOf s) /\ Owns sc key = true /\
     MayReach id (sc_Name sc) = true /\ NewStore (cf_bucket cfg) (sc_keys (load (memoryOf s) sc)) = Ok store /\
     bucketIn cfg s !! pathOf store key = None).
Proof.
  intros Ha Hd E. split.
  - intros Hp. destruct (resolve_sealed cfg rq (headerFor rt) s Hp) as (e & Er & He).
    assert (rep = failReply e /\ s' = s) as [-> ->].
    { destruct rt; try discriminate Hd; cbn [serve headerFor] in *; unfold answer, read, write, Server.delete, Server.list in E;
        rewrite (bind_fails _ _ _ _ _ Er) in E; by injection E as <- <-. }
    split; [done|].
    destruct He as [[He ->]|[He [->|[->|[->|[->| ->]]]]]];
      (split; [apply (bool_decide_unpack _); exact I|]); split; done.
  - intros Hc. apply data_route in E as [_ [(c & e & -> & Hr & _)|(key & id & sc & c & store & s1 & [Hcall Hkey Hopen Hheld Howns Hdecl Hreach _ _ Hst Hval _] & Ho)]]; [| |done].
    + apply code_not_found in Hc. by apply (refusals_known cfg s c rq e Hr) in Hc.
    + apply outcome_missing in Ho as [-> Hn]; [|done]. split; [done|]. exists key, id, sc, store.
      unfold objects in Hn. rewrite (NewStore_bucket cfg _ _ Hst) in Hn. rewrite (Hval Ha) in Hst. done.
Qed.

(** Whatever is asked, of a sealed keyholder or not, an error tells its caller
    one of a fixed list of sentences and one of the codes of the wire, the same code
    in its header and its body, and none at all exactly when the error was not
    foreseen; and the process is alive. *)
Theorem errors_say_no_more `{CipherLaws, KeyAgreement, BundleYaml} {W P} `{Entropy W, ProviderLaws P} cfg rt rq
    (s : Server W P) : harmless (serve cfg rt rq s).1 /\ re_status (serve cfg GetLive rq s).1 = StatusOK.
Proof.
  split; [|done]. destruct (serve cfg rt rq s) as [rep s'] eqn:Es. cbn [fst].
  destruct rt; cbn [serve] in Es; try (eapply answer_harmless; [|exact Es]; by intros ? ? ? [=]);
    try (by injection Es as <- _; intros ? ? [=]).
  - destruct (Ready _); by injection Es as <- _; intros ? ? [=].
  - eapply answer_harmless; [|exact Es]. intros [ch|e] ? ? [=]. subst. split_and!; try done.
    + apply (bool_decide_unpack _). exact I.
    + do 2 right. by left.
Qed.

(** *** Witnesses *)

#[local] Existing Instance oneBundle.

Definition exConfig : ServerConfig := mkServerConfig "prod" "bucket" 0.

(** A replica that serves one application, and one that restarted. *)
Definition exServer : Server nat cloud := mkServer (p_world exServing) (mkChallenger "" ∅ ∅) (65%nat, mkCloud ∅ 100).
Definition exRestarted : Server nat cloud := mkServer (p_world exStart) (mkChallenger "" ∅ ∅) (65%nat, mkCloud ∅ 100).

Definition exRequest (caller : string) : Request :=
  mkRequest (Some ["farcast://prod/" +:+ caller]) (Base64EncodeToString "app/apps/web/state") "" "app-apps-web" "" "" true
    "audit" (mkReader "hello" None).

Lemma exServer_allocated : allocated exServer.
Proof. apply (bool_decide_unpack _). vm_compute. exact I. Qed.

Definition exPut : reply * Server nat cloud := serve exConfig PutObject (exRequest "app/apps/web") exServer.
Definition exSealing : reply * Server nat cloud := serve exConfig PostSeal (exRequest "operator") exServer.
Definition exMissing : reply * Server nat cloud := serve exConfig GetObject (exRequest "app/apps/web") exServer.

Lemma exPut_ran : serve exConfig PutObject (exRequest "app/apps/web") exServer = (exPut.1, exPut.2).
Proof. unfold exPut. apply surjective_pairing. Qed.
Lemma exMissing_ran : serve exConfig GetObject (exRequest "app/apps/web") exServer = (exMissing.1, exMissing.2).
Proof. unfold exMissing. apply surjective_pairing. Qed.


Lemma data_stays_in_scope_witness : traceless exServer exPut.2 /\ exists key id sc store,
  Base64DecodeString (rq_key (exRequest "app/apps/web")) = Some key /\ MayReach id (sc_Name sc) = true /\
  NewStore "bucket" (sc_keys (load (memoryOf exServer) sc)) = Ok store.
Proof.
  destruct (data_stays_in_scope exConfig PutObject (exRequest "app/apps/web") exServer exPut.1 exPut.2
    exServer_allocated exPut_ran) as [Ht Hc].
  assert (bucketIn exConfig exPut.2 <> bucketIn exConfig exServer) as Hne.
  { intros E. assert (size (bucketIn exConfig exPut.2) = 1%nat) as Hs by (vm_compute; reflexivity).
    assert (size (bucketIn exConfig exServer) = 0%nat) as Hs' by (vm_compute; reflexivity). rewrite E, Hs' in Hs. discriminate Hs. }
  split; [exact (Ht eq_refl)|]. destruct (Hc Hne) as (key & id & sc & store & _ & _ & Hk & _ & _ & _ & _ & Hr & _ & Hst & _).
  exists key, id, sc, store. exact (conj Hk (conj Hr Hst)).
Defined.

Lemma a_seal_is_never_an_absence_witness :
  (exists key id (sc : ScopeRef) store, identityFrom (exRequest "app/apps/web") "prod" = Ok id /\
     Base64DecodeString (rq_key (exRequest "app/apps/web")) = Some key /\ Owns sc key = true /\
     bucketIn exConfig exServer !! pathOf store key = None) /\
  re_code (serve exConfig PutObject (exRequest "app/apps/web") exRestarted).1 = CodeSealed.
Proof.
  assert (re_code exMissing.1 = CodeNotFound) as Hc by (vm_compute; reflexivity).
  destruct (a_seal_is_never_an_absence exConfig GetObject (exRequest "app/apps/web") exServer exMissing.1 exMissing.2
    exServer_allocated eq_refl exMissing_ran) as [_ Hm].
  destruct (Hm Hc) as (_ & key & id & sc & store & Hid & Hk & _ & _ & Ho & _ & _ & Hn). split.
  - exists key, id, sc, store. exact (conj Hid (conj Hk (conj Ho Hn))).
  - vm_compute. reflexivity.
Defined.

Lemma errors_say_no_more_witness : harmless exMissing.1.
Proof. exact (proj1 (errors_say_no_more exConfig GetObject (exRequest "app/apps/web") exServer)). Defined.
