(* ===== verification/Net.v ===== *)
(** * Host names and addresses as text ([strings.ToLower], [strings.EqualFold],
      [net.ParseIP], [net.SplitHostPort], [net.JoinHostPort])

    What the boundary reads of the standard library to tell one host from
    another.  The tables of Unicode case are data of the library, taken as the
    class [CaseTables]; below 128 the case of a letter is written out. *)

From Stdlib Require Import Ascii.
From S2P Require Import Prelude GoStrings Strconv Slices.

(** ** Code points *)

(** [utf8.DecodeRune] of what is not empty: an invalid byte is one [RuneError]. *)
Definition RuneError : Z := 65533.

Definition decodeRune (a : Z) (s : list Z) : Z * list Z :=
  if a <? 128 then (a, s)
  else if inRange 194 223 a then
    match s with
    | b :: s' => if continuation b then (Z.land a 31 * 64 + Z.land b 63, s') else (RuneError, s)
    | [] => (RuneError, s)
    end
  else if inRange 224 239 a then
    match s with
    | b :: c :: s' =>
        if inRange (if a =? 224 then 160 else 128) (if a =? 237 then 159 else 191) b && continuation c
        then (Z.land a 15 * 4096 + Z.land b 63 * 64 + Z.land c 63, s') else (RuneError, s)
    | _ => (RuneError, s)
    end
  else if inRange 240 244 a then
    match s with
    | b :: c :: d :: s' =>
        if inRange (if a =? 240 then 144 else 128) (if a =? 244 then 143 else 191) b && continuation c && continuation d
        then (Z.land a 7 * 262144 + Z.land b 63 * 4096 + Z.land c 63 * 64 + Z.land d 63, s') else (RuneError, s)
    | _ => (RuneError, s)
    end
  else (RuneError, s).

(** [range] over a string; the fuel is its length. *)
Fixpoint runesFrom (fuel : nat) (s : list Z) : list Z :=
  match fuel, s with
  | S fuel, a :: s => let '(r, s) := decodeRune a s in r :: runesFrom fuel s
  | _, _ => []
  end.

Definition runes (s : string) : list Z := runesFrom (String.length s) (bytes s).

(** [utf8.AppendRune]. *)
Definition encodeRune (r : Z) : list Z :=
  if r <? 128 then [r]
  else if r <? 2048 then [192 + Z.shiftr r 6; 128 + Z.land r 63]
  else if r <? 65536 then [224 + Z.shiftr r 12; 128 + Z.land (Z.shiftr r 6) 63; 128 + Z.land r 63]
  else [240 + Z.shiftr r 18; 128 + Z.land (Z.shiftr r 12) 63; 128 + Z.land (Z.shiftr r 6) 63; 128 + Z.land r 63].

Example runes_case : concat (map encodeRune (runes "aµ…x")) = bytes "aµ…x" /\ runes (of_bytes [97; 255]) = [97; RuneError].
Proof. vm_compute. done. Qed.

(** ** Case *)

Class CaseTables := {
  (** [unicode.ToLower] from 128 on *)
  lowerRune : Z -> Z;
  (** two different code points, one of them from 128 on, that [unicode.SimpleFold] joins *)
  sameFold : Z -> Z -> bool
}.

Definition asciiLower (c : Z) : Z := if inRange 65 90 c then c + 32 else c.
Definition isASCII (s : string) : bool := forallb (fun c => c <? 128) (bytes s).

Section case.
Context `{CaseTables}.

Definition toLowerRune (r : Z) : Z := if r <? 128 then asciiLower r else lowerRune r.

Definition ToLower (s : string) : string :=
  if isASCII s then of_bytes (map asciiLower (bytes s))
  else of_bytes (concat (map (fun r => encodeRune (toLowerRune r)) (runes s))).

Definition foldsTo (r r' : Z) : bool :=
  (r =? r') || (if (r <? 128) && (r' <? 128) then asciiLower r =? asciiLower r' else sameFold r r').

Definition EqualFold (s t : string) : bool :=
  let s := runes s in let t := runes t in
  Nat.eqb (length s) (length t) && forallb (fun '(r, r') => foldsTo r r') (zip s t).

End case.

(** ** [net.ParseIP(s) != nil] *)

Definition hexByte (c : Z) : bool := isDigit c || inRange 97 102 c || inRange 65 70 c.

(** A field of an IPv4 address: no leading zero, at most 255. *)
Definition octet (s : string) : bool :=
  match bytes s with
  | [] => false
  | c :: cs =>
      forallb isDigit (c :: cs) && (negb (c =? 48) || bool_decide (cs = [])) &&
      (Z.of_nat (length cs) <? 3) && (foldl (fun v d => v * 10 + (d - 48)) 0 (c :: cs) <=? 255)
  end.

Definition ipv4 (s : string) : bool :=
  match SplitByte "." s with
  | [a; b; c; d] => octet a && octet b && octet c && octet d
  | _ => false
  end.

(** The digits a group starts with, and the rest. *)
Fixpoint hexGroup (s : string) : string * string :=
  match s with
  | String a s' => if hexByte (Z.of_N (N_of_ascii a)) then let '(g, r) := hexGroup s' in (String a g, r) else ("", s)
  | EmptyString => ("", "")
  end.

(** The loop of [parseIPv6]: [i] bytes are set, the ellipsis was seen or not. *)
Fixpoint ipv6Groups (fuel : nat) (i : Z) (ellipsis : bool) (s : string) : bool :=
  match fuel with
  | O => false
  | S fuel =>
      let stop (i : Z) (ellipsis : bool) := if i <? 16 then ellipsis else negb ellipsis in
      let '(g, rest) := hexGroup s in
      if (len g =? 0) || (4 <? len g) then false
      else
        match rest with
        | String "."%char _ => (ellipsis || (i =? 12)) && (i + 4 <=? 16) && ipv4 s && stop (i + 4) ellipsis
        | EmptyString => stop (i + 2) ellipsis
        | String ":"%char EmptyString => false
        | String ":"%char (String ":"%char more) =>
            if ellipsis then false
            else if decide (more = "") then stop (i + 2) true
            else if i + 2 <? 16 then ipv6Groups fuel (i + 2) true more else false
        | String ":"%char more => if i + 2 <? 16 then ipv6Groups fuel (i + 2) ellipsis more else false
        | _ => false
        end
  end.

Definition ipv6 (s : string) : bool :=
  match s with
  | String ":"%char (String ":"%char rest) => if decide (rest = "") then true else ipv6Groups 8 0 true rest
  | _ => ipv6Groups 8 0 false s
  end.

(** The first of these bytes decides; an address with a zone is none. *)
Fixpoint addressKind (s : string) : option ascii :=
  match s with
  | EmptyString => None
  | String a s => if Ascii.eqb a "." || Ascii.eqb a ":" || Ascii.eqb a "%" then Some a else addressKind s
  end.

Definition ParseIP (s : string) : bool :=
  match addressKind s with
  | Some "."%char => ipv4 s
  | Some ":"%char => if without "%" s then ipv6 s else false
  | _ => false
  end.

Example ParseIP_cases :
  map ParseIP ["1.2.3.4"; "::1"; "::"; "2001:db8::7"; "1:2:3:4:5:6:7:8"; "::ffff:1.2.3.4"; "1:2:3:4:5:6:1.2.3.4"; "::1:2:3:4:5:6:7"]
  = [true; true; true; true; true; true; true; true] /\
  map ParseIP ["1.2.3"; "01.2.3.4"; "256.1.1.1"; "1.2.3.4.5"; "a.b"; "::1%eth0"; "1::2::3"; "1:2:3:4:5:6:7:8:9"; "12345::"; "1:2";
               "1:2:3:4:5:6:7::8:9"; "::1:2:3:4:5:6:7:8"; ":1"; "1:"; ""; "api.stripe.com"; "1.2.3.4:80"; "cafe"]
  = repeat false 18.
Proof. vm_compute. done. Qed.

(** ** [host:port] *)

Fixpoint LastIndex (c : ascii) (s : string) : option nat :=
  match s with
  | EmptyString => None
  | String a s =>
      match LastIndex c s with
      | Some i => Some (S i)
      | None => if Ascii.eqb a c then Some O else None
      end
  end.

(** The host before the first [\]], and what follows it. *)
Definition SplitHostPort (hostport : string) : option (string * string) :=
  match LastIndex ":" hostport with
  | None => None
  | Some i =>
      let port := String.substring (S i) (String.length hostport - S i) hostport in
      match CutPrefix hostport "[" with
      | Some inner =>
          match cutByte "]" inner with
          | None => None
          | Some (host, tail) =>
              (* the colon after the bracket is the last one *)
              if Nat.eqb i (S (S (String.length host))) then
                if without "[" inner && without "]" tail then Some (host, port) else None
              else None
          end
      | None =>
          let host := prefix_of i hostport in
          if without ":" host && without "[" hostport && without "]" hostport then Some (host, port) else None
      end
  end.

Definition JoinHostPort (host port : string) : string :=
  if without ":" host then host +:+ ":" +:+ port else "[" +:+ host +:+ "]:" +:+ port.

Example SplitHostPort_cases :
  map SplitHostPort ["api.x:443"; "[::1]:80"; "api.x"; "::1"; "[::1]"; "[::1]x:80"; "a:b:c"; ":80"; "h:"; "a]b:1"; "[a[b]:1"]
  = [Some ("api.x", "443"); Some ("::1", "80"); None; None; None; None; None; Some ("", "80"); Some ("h", ""); None; None]%string.
Proof. vm_compute. done. Qed.

(** *** Joined, a host and a port split again *)

Lemma without_app c a b : without c (a +:+ b) = without c a && without c b.
Proof. unfold without. by rewrite list_ascii_app, forallb_app. Qed.

Lemma length_app_string a b : String.length (a +:+ b) = (String.length a + String.length b)%nat.
Proof. induction a as [|c a IH]; [done|]. rewrite cons_app. cbn. by rewrite IH. Qed.

Lemma addressKind_without s : without ":" s = true -> without "%" s = true -> addressKind s = Some "."%char \/ addressKind s = None.
Proof.
  induction s as [|a s IH]; [by right|].
  change (without ":" (String a s)) with (negb (Ascii.eqb a ":") && without ":" s).
  change (without "%" (String a s)) with (negb (Ascii.eqb a "%") && without "%" s). cbn [addressKind].
  intros [Hc H1]%andb_true_iff [Hp H2]%andb_true_iff. apply negb_true_iff in Hc, Hp. rewrite Hc, Hp, !orb_false_r.
  destruct (Ascii.eqb_spec a "."); [left; congruence|by apply IH].
Qed.

Lemma LastIndex_none c s : without c s = true -> LastIndex c s = None.
Proof.
  induction s as [|a s IH]; [done|]. change (without c (String a s)) with (negb (Ascii.eqb a c) && without c s).
  intros [Ha Hs]%andb_true_iff. apply negb_true_iff in Ha. cbn [LastIndex]. by rewrite IH, Ha.
Qed.

Lemma LastIndex_app c a b : without c b = true -> LastIndex c (a +:+ String c b) = Some (String.length a).
Proof.
  intros Hb. induction a as [|x a IH]; [rewrite nil_app; cbn [LastIndex]; by rewrite LastIndex_none, Ascii.eqb_refl|].
  rewrite cons_app. cbn [LastIndex]. by rewrite IH.
Qed.

Lemma substring_whole b : String.substring 0 (String.length b) b = b.
Proof. induction b as [|x b IH]; [done|]. cbn. by rewrite IH. Qed.

Lemma substring_tail a b n : String.substring (String.length a + n) (String.length b - n) (a +:+ b) = String.substring n (String.length b - n) b.
Proof. induction a as [|x a IH]; [by rewrite nil_app|]. rewrite cons_app. cbn. apply IH. Qed.

Lemma substring_head a b : prefix_of (String.length a) (a +:+ b) = a.
Proof. unfold prefix_of. induction a as [|x a IH]; [by destruct b|]. rewrite cons_app. cbn. by rewrite IH. Qed.

Lemma port_after a b : String.substring (S (String.length a)) (String.length (a +:+ String ":" b) - S (String.length a)) (a +:+ String ":" b) = b.
Proof.
  pose proof (substring_tail a (String ":" b) 1) as Hs. cbn in Hs. rewrite Nat.sub_0_r, substring_whole, Nat.add_1_r in Hs.
  rewrite length_app_string. cbn. replace (_ - _)%nat with (String.length b) by lia. exact Hs.
Qed.

Lemma CutPrefix_none c s : without c s = true -> CutPrefix s (String c "") = None.
Proof.
  destruct s as [|a s]; [done|]. change (without c (String a s)) with (negb (Ascii.eqb a c) && without c s).
  intros [Ha _]%andb_true_iff. destruct (CutPrefix _ _) eqn:E; [|done]. apply CutPrefix_spec in E.
  rewrite cons_app in E. injection E as -> _. by rewrite Ascii.eqb_refl in Ha.
Qed.

Lemma SplitHostPort_join host port :
  without "[" host && without "]" host = true ->
  without ":" port && without "[" port && without "]" port = true ->
  SplitHostPort (JoinHostPort host port) = Some (host, port).
Proof.
  intros [Hl Hr]%andb_true_iff [[Hc Hpl]%andb_true_iff Hpr]%andb_true_iff. unfold JoinHostPort.
  destruct (without ":" host) eqn:Hcol.
  - change (host +:+ ":" +:+ port) with (host +:+ String ":" port). unfold SplitHostPort. rewrite LastIndex_app, port_after by done.
    assert (without "[" (host +:+ String ":" port) = true) as Hwl by (rewrite without_app, Hl; exact Hpl).
    assert (without "]" (host +:+ String ":" port) = true) as Hwr by (rewrite without_app, Hr; exact Hpr).
    by rewrite CutPrefix_none, substring_head, Hcol, Hwl, Hwr.
  - change ("[" +:+ host +:+ "]:" +:+ port) with (String "[" (host +:+ String "]" (String ":" port))).
    assert (String "[" (host +:+ String "]" (String ":" port)) = String "[" (host +:+ "]") +:+ String ":" port) as E
      by (by rewrite cons_app, app_string_assoc).
    unfold SplitHostPort. rewrite E at 1. rewrite LastIndex_app by done.
    assert (CutPrefix (String "[" (host +:+ String "]" (String ":" port))) "[" = Some (host +:+ String "]" (String ":" port))) as ->
      by (by apply CutPrefix_spec).
    rewrite cutByte_app, E, port_after by done.
    change (String.length (String "[" (host +:+ "]"))) with (S (String.length (host +:+ "]"))). rewrite length_app_string, Nat.add_1_r, Nat.eqb_refl.
    rewrite without_app, Hl. change (without "[" (String "]" (String ":" port))) with (without "[" port).
    change (without "]" (String ":" port)) with (without "]" port). by rewrite Hpl, Hpr.
Qed.

Lemma LastIndex_some c s i : LastIndex c s = Some i -> exists a b, s = a +:+ String c b /\ i = String.length a /\ without c b = true.
Proof.
  revert i. induction s as [|x s IH]; intros i; [done|]. cbn [LastIndex]. destruct (LastIndex c s) as [j|] eqn:E.
  - intros [= <-]. destruct (IH j eq_refl) as (a & b & -> & -> & ?). by exists (String x a), b.
  - destruct (Ascii.eqb_spec x c) as [->|]; [|done]. intros [= <-]. exists "", s. split_and!; [done|done|].
    clear IH. induction s as [|y s IH]; [done|]. cbn [LastIndex] in E. destruct (LastIndex c s) eqn:E'; [done|].
    change (without c (String y s)) with (negb (Ascii.eqb y c) && without c s). destruct (Ascii.eqb y c); [done|]. by rewrite IH.
Qed.

Lemma cutByte_some c s a b : cutByte c s = Some (a, b) -> s = a +:+ String c b /\ without c a = true.
Proof.
  revert a. induction s as [|x s IH]; intros a; [done|]. cbn [cutByte]. destruct (Ascii.eqb_spec x c) as [->|Hne].
  - by intros [= <- <-].
  - destruct (cutByte c s) as [[a' b']|]; [|done]. cbn. intros [= <- <-]. destruct (IH a' eq_refl) as [-> Ha].
    split; [done|]. change (without c (String x a')) with (negb (Ascii.eqb x c) && without c a'). rewrite Ha, andb_true_r.
    by apply negb_true_iff, Ascii.eqb_neq.
Qed.

(** What a split gives has no bracket, and no colon in the port. *)
Lemma SplitHostPort_parts hp host port : SplitHostPort hp = Some (host, port) ->
  without "[" host && without "]" host = true /\ without ":" port && without "[" port && without "]" port = true.
Proof.
  unfold SplitHostPort. destruct (LastIndex ":" hp) as [i|] eqn:Ei; [|done].
  apply LastIndex_some in Ei as (a & b & -> & -> & Hb). rewrite port_after, substring_head.
  assert (forall x y, without x (a +:+ String y b) = true -> without x a = true /\ without x b = true) as Hw.
  { intros x y. rewrite without_app. change (without x (String y b)) with (negb (Ascii.eqb y x) && without x b). by intros [? [_ ?]%andb_true_iff]%andb_true_iff. }
  destruct (CutPrefix _ "[") as [inner|] eqn:Ep.
  - destruct (cutByte "]" inner) as [[h tail]|] eqn:Ec; [|done]. apply cutByte_some in Ec as [Ei Hh].
    destruct (Nat.eqb_spec (String.length a) (S (S (String.length h)))) as [El|]; [|done].
    destruct (without "[" inner) eqn:Hin; [|done]. destruct (without "]" tail) eqn:Ht; [|done]. cbn [andb]. intros [= -> ->].
    apply CutPrefix_spec in Ep. subst inner. rewrite without_app in Hin. apply andb_true_iff in Hin as [Hhl Htl].
    change (without "[" (String "]" tail)) with (without "[" tail) in Htl.
    assert (a +:+ String ":" port = ("[" +:+ host +:+ "]") +:+ tail) as Es by (rewrite Ep, !app_string_assoc; done).
    apply app_string_split in Es as [_ <-]; [|unfold len; rewrite El, !length_app_string; cbn; lia].
    change (without "[" (String ":" port)) with (without "[" port) in Htl. change (without "]" (String ":" port)) with (without "]" port) in Ht.
    by rewrite Hhl, Hh, Hb, Htl, Ht.
  - destruct (without ":" a) eqn:Ha; [|done]. destruct (without "[" _) eqn:H1; [|done]. destruct (without "]" _) eqn:H2; [|done].
    intros [= -> ->]. apply Hw in H1 as [-> ->], H2 as [-> ->]. by rewrite Hb.
Qed.
