(* ===== verification/Armor.v ===== *)
(** * Material that leaves the machine ([datasphere/armor.go], [datasphere/keyexport.go])

    A passphrase becomes a key, and the key seals a keeper's packet or a keyring
    together with the parameters and the kind of what is sealed.  The key
    derivation and the YAML library are parameters. *)

From Stdlib Require Import Ascii Decimal DecimalString DecimalZ.
From S2P Require Import Prelude Effect GoTime Strconv GoStrings PosText LogicalKey Encoding Slices Keyring KeyringFacts KeyringFile Cipher Net.

(** [pbkdf2.Key(sha256.New, password, salt, iter, keyLength)]. *)
Class Pbkdf2 := { pbkdf2Key : string -> string -> Z -> Z -> result string string }.

Record armorFile := mkArmorFile {
  af_Version : Z;
  af_Label : string;
  af_KDF : string;
  af_Iterations : Z;
  af_Salt : string;
  af_Nonce : string;
  af_Payload : string
}.

Record exportFile := mkExportFile {
  ef_Version : Z;
  ef_KDF : string;
  ef_Iterations : Z;
  ef_Salt : string;
  ef_Nonce : string;
  ef_Payload : string
}.

Definition ArmorKeeperPacket : string := "keeper-packet".
Definition exportVersion : Z := 1.
Definition exportKDF : string := "pbkdf2-sha256".
Definition exportIterations : Z := 600000.
Definition exportSaltLen : Z := 16.
Definition minPassphraseLen : Z := 12.

(** What [ErrExportInvalid] is wrapped with. *)
Inductive invalid :=
| NotAnExport
| UnsupportedExport
| WrongLabel (got want : string)
| FewRounds (n : Z)
| MalformedSalt
| MalformedNonce
| MalformedPayload
| DoesNotOpen.

Inductive armor_error :=
| Unlabelled
| ShortPassphrase
| ReadArmorSalt (e : string)
| ReadArmorNonce (e : string)
| DeriveExportKey (e : string)
| KeySizeError (n : Z)
| EncodeArmor (e : string)
| ErrExportInvalid (why : invalid)
| OfKeyring (e : parse_error).

(** The YAML library on the two documents. *)
Class ArmorYaml := {
  armorMarshal : armorFile -> result string string;
  armorUnmarshal : string -> result string armorFile;
  exportMarshal : exportFile -> result string string;
  exportUnmarshal : string -> result string exportFile
}.

Class ArmorYamlLaws `{ArmorYaml} := {
  armor_reads : forall f s, armorMarshal f = Ok s -> armorUnmarshal s = Ok f;
  export_reads : forall f s, exportMarshal f = Ok s -> exportUnmarshal s = Ok f
}.

Definition nl : string := String "010" "".

Definition armorAAD (file : armorFile) : string :=
  "farcast/datasphere/armor/v" +:+ FormatInt (af_Version file) +:+ nl +:+ af_Label file +:+ nl +:+ af_KDF file +:+ nl +:+
  FormatInt (af_Iterations file) +:+ nl +:+ af_Salt file.

Definition exportAAD (file : exportFile) : string :=
  "farcast/datasphere/keyring-export/v" +:+ FormatInt (ef_Version file) +:+ nl +:+ ef_KDF file +:+ nl +:+
  FormatInt (ef_Iterations file) +:+ nl +:+ ef_Salt file.

Section armor.
Context `{Cipher, Pbkdf2, ArmorYaml, CaseTables, Yaml} {W : Type} `{Entropy W}.

(** The key of the cipher; [aes.NewCipher] takes 16, 24 or 32 bytes. *)
Definition exportCipher (passphrase salt : string) (iterations : Z) : result armor_error string :=
  key ← wrapErr DeriveExportKey (pbkdf2Key passphrase salt iterations KeyLen);
  if decide (len key ∈ [16; 24; 32]) then Ok key else Err (KeySizeError (len key)).

(** [len([]rune(passphrase)) < minPassphraseLen]. *)
Definition tooShort (passphrase : string) : bool := Z.of_nat (length (runes passphrase)) <? minPassphraseLen.

Definition Armor (label plaintext passphrase : string) : eff W armor_error string :=
  if decide (label = "") then fail Unlabelled
  else if tooShort passphrase then fail ShortPassphrase
  else
    salt ← readRand exportSaltLen ReadArmorSalt;
    nonce ← readRand NonceLen ReadArmorNonce;
    gcm ← lift (exportCipher passphrase salt exportIterations);
    let file := mkArmorFile exportVersion label exportKDF exportIterations (Base64EncodeToString salt)
                  (Base64EncodeToString nonce) "" in
    let payload := Base64EncodeToString (gcmSeal gcm nonce plaintext (armorAAD file)) in
    lift (wrapErr EncodeArmor (armorMarshal (mkArmorFile (af_Version file) (af_Label file) (af_KDF file)
      (af_Iterations file) (af_Salt file) (af_Nonce file) payload))).

Definition bad {A} (why : invalid) : result armor_error A := Err (ErrExportInvalid why).

(** [base64.StdEncoding.DecodeString], under the sentinel. *)
Definition field (s : string) (why : invalid) : result armor_error string :=
  match Base64DecodeString s with Some raw => Ok raw | None => bad why end.

Definition nonceField (s : string) : result armor_error string :=
  nonce ← field s MalformedNonce;
  if decide (len nonce = NonceLen) then Ok nonce else bad MalformedNonce.

Definition Unarmor (label data passphrase : string) : result armor_error string :=
  match armorUnmarshal data with
  | Err _ => bad NotAnExport
  | Ok file =>
      if decide (af_Version file <> exportVersion \/ af_KDF file <> exportKDF) then bad UnsupportedExport
      else if negb (EqualFold (af_Label file) label) then bad (WrongLabel (af_Label file) label)
      else if af_Iterations file <? exportIterations then bad (FewRounds (af_Iterations file))
      else
        salt ← field (af_Salt file) MalformedSalt;
        nonce ← nonceField (af_Nonce file);
        payload ← field (af_Payload file) MalformedPayload;
        gcm ← exportCipher passphrase salt (af_Iterations file);
        match gcmOpen gcm nonce payload (armorAAD file) with
        | Some plaintext => Ok plaintext
        | None => bad DoesNotOpen
        end
  end.

Definition ExportKeyring (keyring : Keyring) (passphrase : string) : eff W armor_error string :=
  if tooShort passphrase then fail ShortPassphrase
  else
    plaintext ← lift (wrapErr OfKeyring (MarshalKeyring keyring));
    salt ← readRand exportSaltLen ReadArmorSalt;
    nonce ← readRand NonceLen ReadArmorNonce;
    gcm ← lift (exportCipher passphrase salt exportIterations);
    let file := mkExportFile exportVersion exportKDF exportIterations (Base64EncodeToString salt)
                  (Base64EncodeToString nonce) "" in
    let payload := Base64EncodeToString (gcmSeal gcm nonce plaintext (exportAAD file)) in
    lift (wrapErr EncodeArmor (exportMarshal (mkExportFile (ef_Version file) (ef_KDF file) (ef_Iterations file)
      (ef_Salt file) (ef_Nonce file) payload))).

Definition ImportKeyring (data passphrase : string) : result armor_error Keyring :=
  match exportUnmarshal data with
  | Err _ => bad NotAnExport
  | Ok file =>
      if decide (ef_Version file <> exportVersion \/ ef_KDF file <> exportKDF) then bad UnsupportedExport
      else if ef_Iterations file <? 1 then bad (FewRounds (ef_Iterations file))
      else
        salt ← field (ef_Salt file) MalformedSalt;
        nonce ← nonceField (ef_Nonce file);
        payload ← field (ef_Payload file) MalformedPayload;
        gcm ← exportCipher passphrase salt (ef_Iterations file);
        match gcmOpen gcm nonce payload (exportAAD file) with
        | Some plaintext => wrapErr OfKeyring (ParseKeyring plaintext)
        | None => bad DoesNotOpen
        end
  end.

End armor.

(** ** What is written *)

Lemma foldsTo_refl `{CaseTables} l : forallb (fun '(r, r') => foldsTo r r') (zip l l) = true.
Proof. induction l as [|r l IH]; [done|]. cbn [zip zip_with forallb]. unfold foldsTo at 1. by rewrite Z.eqb_refl. Qed.

Lemma EqualFold_refl `{CaseTables} s : EqualFold s s = true.
Proof. unfold EqualFold. rewrite Nat.eqb_refl. exact (foldsTo_refl (runes s)). Qed.

Lemma field_encoded s why : field (Base64EncodeToString s) why = Ok s.
Proof. unfold field. by rewrite base64_string_roundtrip. Qed.

Lemma nonce_encoded s : len s = NonceLen -> nonceField (Base64EncodeToString s) = Ok s.
Proof. intros Hl. unfold nonceField. rewrite field_encoded. cbn. by rewrite decide_True. Qed.

Section written.
Context `{CipherLaws, Pbkdf2, ArmorYamlLaws, CaseTables, Yaml} {W : Type} `{Entropy W}.

(** The document an armoring writes. *)
Definition armored (label plaintext passphrase : string) (file : armorFile) : Prop :=
  exists salt nonce key, len nonce = NonceLen /\ exportCipher passphrase salt exportIterations = Ok key /\
  file = mkArmorFile exportVersion label exportKDF exportIterations (Base64EncodeToString salt) (Base64EncodeToString nonce)
           (Base64EncodeToString (gcmSeal key nonce plaintext (armorAAD file))).

Definition exported (plaintext passphrase : string) (file : exportFile) : Prop :=
  exists salt nonce key, len nonce = NonceLen /\ exportCipher passphrase salt exportIterations = Ok key /\
  file = mkExportFile exportVersion exportKDF exportIterations (Base64EncodeToString salt) (Base64EncodeToString nonce)
           (Base64EncodeToString (gcmSeal key nonce plaintext (exportAAD file))).

Lemma Armor_ok label plaintext passphrase (w w' : W) data : Armor label plaintext passphrase w = (Ok data, w') ->
  label <> "" /\ tooShort passphrase = false /\ exists file, armored label plaintext passphrase file /\ armorMarshal file = Ok data.
Proof.
  unfold Armor. case_decide as Hl; [done|]. destruct (tooShort passphrase); [done|]. intros E.
  apply bind_inv in E as (salt & w1 & _ & E). apply bind_inv in E as (nonce & w2 & En%readRand_len & E).
  apply bind_inv in E as (key & w3 & [Ek _]%lift_inv & [E _]%lift_inv). split_and!; [done..|].
  destruct (armorMarshal _) as [s|] eqn:Em; [|done]. injection E as ->. eexists. split; [|exact Em].
  exists salt, nonce, key. by split_and!.
Qed.

Lemma Unarmor_armored label plaintext passphrase file data : armored label plaintext passphrase file ->
  armorMarshal file = Ok data -> Unarmor label data passphrase = Ok plaintext.
Proof.
  intros (salt & nonce & key & Hn & Hk & Hf) Hm%armor_reads. unfold Unarmor. rewrite Hm.
  destruct file as [version fileLabel kdf rounds fileSalt fileNonce payload]. injection Hf as -> -> -> -> -> -> Hf.
  unfold armorAAD in *. cbn [af_Version af_KDF af_Label af_Iterations af_Salt af_Nonce af_Payload] in *. subst payload.
  rewrite decide_False by naive_solver. rewrite EqualFold_refl. cbn [negb]. rewrite Z.ltb_irrefl.
  rewrite !field_encoded. cbn [mbind result_bind]. rewrite nonce_encoded by done. cbn [mbind result_bind].
  rewrite Hk. cbn [mbind result_bind]. by rewrite open_seal.
Qed.

Lemma ExportKeyring_ok k passphrase (w w' : W) data : ExportKeyring k passphrase w = (Ok data, w') ->
  tooShort passphrase = false /\ exists plaintext file, MarshalKeyring k = Ok plaintext /\
  exported plaintext passphrase file /\ exportMarshal file = Ok data.
Proof.
  unfold ExportKeyring. destruct (tooShort passphrase); [done|]. intros E. split; [done|].
  apply bind_inv in E as (plaintext & w0 & [Ep _]%lift_inv & E). destruct (MarshalKeyring k) as [p|] eqn:Em; [|done].
  injection Ep as ->.
  apply bind_inv in E as (salt & w1 & _ & E). apply bind_inv in E as (nonce & w2 & En%readRand_len & E).
  apply bind_inv in E as (key & w3 & [Ek _]%lift_inv & [E _]%lift_inv).
  destruct (exportMarshal _) as [s|] eqn:Ex; [|done]. injection E as ->. exists plaintext. eexists. split_and!; [done| |exact Ex].
  exists salt, nonce, key. by split_and!.
Qed.

Lemma ImportKeyring_exported plaintext passphrase file data : exported plaintext passphrase file ->
  exportMarshal file = Ok data -> ImportKeyring data passphrase = wrapErr OfKeyring (ParseKeyring plaintext).
Proof.
  intros (salt & nonce & key & Hn & Hk & Hf) Hm%export_reads. unfold ImportKeyring. rewrite Hm.
  destruct file as [version kdf rounds fileSalt fileNonce payload]. injection Hf as -> -> -> -> -> Hf.
  unfold exportAAD in *. cbn [ef_Version ef_KDF ef_Iterations ef_Salt ef_Nonce ef_Payload] in *. subst payload.
  rewrite decide_False by naive_solver. change (exportIterations <? 1) with false.
  rewrite !field_encoded. cbn [mbind result_bind]. rewrite nonce_encoded by done. cbn [mbind result_bind].
  rewrite Hk. cbn [mbind result_bind]. by rewrite open_seal.
Qed.

End written.

(** ** What the associated data says *)

Lemma without_uint d : without newline (NilEmpty.string_of_uint d) = true.
Proof. by induction d. Qed.

Lemma without_FormatInt z : without newline (FormatInt z) = true.
Proof.
  unfold FormatInt, Z.to_int. destruct z as [|p|p]; [done| |]; cbn [NilZero.string_of_int NilZero.string_of_uint];
    pose proof (to_uint_nonnil p); destruct (Pos.to_uint p); try done; exact (without_uint _).
Qed.

Lemma FormatInt_inj a b : FormatInt a = FormatInt b -> a = b.
Proof.
  unfold FormatInt. intros E%(f_equal NilZero.int_of_string).
  assert (forall z, NilZero.int_of_string (NilZero.string_of_int (Z.to_int z)) = Some (Z.to_int z)) as Hi.
  { intros z. apply NilZero.isi; destruct z as [|p|p]; cbn; try done; intros [=]; by destruct (to_uint_nonnil p). }
  rewrite !Hi in E. injection E as E. rewrite <- (DecimalZ.of_to a), <- (DecimalZ.of_to b). by rewrite E.
Qed.

Lemma line_inj a b x y : without newline a = true -> without newline b = true ->
  a +:+ nl +:+ x = b +:+ nl +:+ y -> a = b /\ x = y.
Proof.
  intros Ha Hb E%(f_equal (cutByte newline)). unfold nl in E. change ("010"%char) with newline in E.
  rewrite !cons_app, !nil_app, !cutByte_app in E by done. by injection E.
Qed.

(** An armored file's parameters, its label among them, are what is authenticated. *)
Lemma armorAAD_inj f g : without newline (af_Label f) = true -> without newline (af_Label g) = true ->
  without newline (af_KDF f) = true -> without newline (af_KDF g) = true -> armorAAD f = armorAAD g ->
  af_Version f = af_Version g /\ af_Label f = af_Label g /\ af_KDF f = af_KDF g /\ af_Iterations f = af_Iterations g /\
  af_Salt f = af_Salt g.
Proof.
  intros Hl Hl' Hk Hk' E%app_string_inj. pose proof without_FormatInt as Hi.
  apply line_inj in E as [Ev%FormatInt_inj E]; [|done..]. apply line_inj in E as [El E]; [|done..].
  apply line_inj in E as [Ek E]; [|done..]. by apply line_inj in E as [Er%FormatInt_inj Es].
Qed.

Lemma exportAAD_inj f g : without newline (ef_KDF f) = true -> without newline (ef_KDF g) = true -> exportAAD f = exportAAD g ->
  ef_Version f = ef_Version g /\ ef_KDF f = ef_KDF g /\ ef_Iterations f = ef_Iterations g /\ ef_Salt f = ef_Salt g.
Proof.
  intros Hk Hk' E%app_string_inj. pose proof without_FormatInt as Hi.
  apply line_inj in E as [Ev%FormatInt_inj E]; [|done..]. apply line_inj in E as [Ek E]; [|done..].
  by apply line_inj in E as [Er%FormatInt_inj Es].
Qed.

Lemma kinds_differ f g : armorAAD f <> exportAAD g.
Proof. done. Qed.

(** ** What opens was sealed with what the file says *)

Section opened.
Context `{CipherLaws, Pbkdf2, ArmorYamlLaws, CaseTables, Yaml}.

Lemma field_ok s why raw : field s why = Ok raw -> Base64DecodeString s = Some raw.
Proof. unfold field. by destruct (Base64DecodeString s) as [r|]; [intros [= ->]|]. Qed.

Lemma nonceField_ok s raw : nonceField s = Ok raw -> Base64DecodeString s = Some raw /\ len raw = NonceLen.
Proof. unfold nonceField. intros (r & Er%field_ok & E)%bind_ok. case_decide; [|done]. by injection E as ->. Qed.

(** The payload of a file is a seal under the key its own salt and rounds derive, of that associated data. *)
Definition sealedBy (passphrase salt nonce payload : string) (rounds : Z) (aad plaintext : string) : Prop :=
  exists s n c key, Base64DecodeString salt = Some s /\ Base64DecodeString nonce = Some n /\ len n = NonceLen /\
  Base64DecodeString payload = Some c /\ exportCipher passphrase s rounds = Ok key /\ c = gcmSeal key n plaintext aad.

Lemma Unarmor_opened label data passphrase plaintext : Unarmor label data passphrase = Ok plaintext ->
  exists file, armorUnmarshal data = Ok file /\ af_Version file = exportVersion /\ af_KDF file = exportKDF /\
  EqualFold (af_Label file) label = true /\ exportIterations <= af_Iterations file /\
  sealedBy passphrase (af_Salt file) (af_Nonce file) (af_Payload file) (af_Iterations file) (armorAAD file) plaintext.
Proof.
  unfold Unarmor. destruct (armorUnmarshal data) as [file|]; [|done]. case_decide as Hv; [done|].
  destruct (EqualFold _ _) eqn:Hl; [|done]. cbn [negb]. destruct (Z.ltb_spec (af_Iterations file) exportIterations); [done|].
  intros (s & Hs%field_ok & E)%bind_ok. apply bind_ok in E as (n & [Hn Hn']%nonceField_ok & E).
  apply bind_ok in E as (c & Hc%field_ok & E). apply bind_ok in E as (key & Hk & E).
  destruct (gcmOpen key n c (armorAAD file)) as [p|] eqn:Eo; [|done]. injection E as ->. apply open_only in Eo.
  exists file. split_and!; [done| | |done|lia|by exists s, n, c, key].
  - destruct (decide (af_Version file = exportVersion)); [done|by destruct Hv; left].
  - destruct (decide (af_KDF file = exportKDF)); [done|by destruct Hv; right].
Qed.

Lemma ImportKeyring_opened data passphrase k : ImportKeyring data passphrase = Ok k ->
  exists file plaintext, exportUnmarshal data = Ok file /\ ef_KDF file = exportKDF /\ ParseKeyring plaintext = Ok k /\
  sealedBy passphrase (ef_Salt file) (ef_Nonce file) (ef_Payload file) (ef_Iterations file) (exportAAD file) plaintext.
Proof.
  unfold ImportKeyring. destruct (exportUnmarshal data) as [file|]; [|done]. case_decide as Hv; [done|].
  destruct (Z.ltb_spec (ef_Iterations file) 1); [done|].
  intros (s & Hs%field_ok & E)%bind_ok. apply bind_ok in E as (n & [Hn Hn']%nonceField_ok & E).
  apply bind_ok in E as (c & Hc%field_ok & E). apply bind_ok in E as (key & Hk & E).
  destruct (gcmOpen key n c (exportAAD file)) as [p|] eqn:Eo; [|done]. apply open_only in Eo.
  destruct (ParseKeyring p) as [k'|] eqn:Ep; [|done]. injection E as ->.
  exists file, p. split_and!; [done| |done|by exists s, n, c, key].
  destruct (decide (ef_KDF file = exportKDF)); [done|by destruct Hv; right].
Qed.

Lemma ParseKeyring_valid text k : ParseKeyring text = Ok k -> Valid k = Ok tt.
Proof. unfold ParseKeyring. destruct (yamlUnmarshal text); [apply parse_valid|done]. Qed.

End opened.

(** ** Properties *)

(** C18: A keyring moves between machines whole: what is exported under a passphrase is imported under it as it was,
    and merging it into a live keyring keeps every key and the active ones of that, and holds every key of this.
    Whatever file is imported, the keyring is valid and was sealed under the key the passphrase gives with the file's
    own salt and rounds, together with those; so no file edited to cost fewer rounds opens as another's seal, and none
    that was armored as something else is a keyring. *)
Theorem an_exported_keyring_moves_whole `{CipherLaws, Pbkdf2, ArmorYamlLaws, CaseTables, Yaml} {W : Type} `{Entropy W}
    k passphrase (w w' : W) data :
  storable k -> (forall text, yamlMarshal (fileOf k) = Ok text -> yamlUnmarshal text = Ok (fileOf k)) ->
  ExportKeyring k passphrase w = (Ok data, w') ->
  ImportKeyring data passphrase = Ok k /\
  (forall live merged, Valid live = Ok tt -> Merge live k = Ok merged ->
     Valid merged = Ok tt /\ extends live merged /\ absorbed k merged /\ ActiveKEK merged = ActiveKEK live) /\
  (forall data' passphrase' k', ImportKeyring data' passphrase' = Ok k' -> Valid k' = Ok tt /\
     exists file text, exportUnmarshal data' = Ok file /\ ParseKeyring text = Ok k' /\
       sealedBy passphrase' (ef_Salt file) (ef_Nonce file) (ef_Payload file) (ef_Iterations file) (exportAAD file) text /\
       (forall other : exportFile, without newline (ef_KDF other) = true -> exportAAD other = exportAAD file -> ef_Iterations other = ef_Iterations file /\ ef_Salt other = ef_Salt file) /\
       (forall other : armorFile, armorAAD other <> exportAAD file)).
Proof.
  intros Hs Hy E. apply ExportKeyring_ok in E as (_ & plaintext & file & Hm & He & Hx).
  assert (Valid k = Ok tt) as Hk by (unfold MarshalKeyring in Hm; apply bind_ok in Hm as ([] & Hv & _); by destruct (Valid k) as [[]|]).
  split_and!.
  - rewrite (ImportKeyring_exported _ _ _ _ He Hx). assert (yamlMarshal (fileOf k) = Ok plaintext) as Hf.
    { unfold MarshalKeyring in Hm. rewrite Hk in Hm. cbn in Hm. by destruct (yamlMarshal _); [injection Hm as ->|]. }
    unfold ParseKeyring. rewrite (Hy _ Hf), parse_file; [done|by apply Valid_spec|done].
  - intros live merged Hl Hmg. apply Valid_spec in Hl, Hk. destruct (Merge_ok _ _ _ Hl Hk Hmg) as (Hok & Hext & Habs).
    split_and!; [by apply Valid_spec|done|done|]. destruct Hl as [_ Hks _ _ _]. inversion Hext; subst. unfold ActiveKEK.
    cbn [kr_keys] in *. by destruct k0.
  - intros data' p' k' (f & text & Hf & Hkdf & Hp & Hsl)%ImportKeyring_opened. split; [by eapply ParseKeyring_valid|].
    exists f, text. split_and!; [done..| |done]. intros other Ho Ha.
    apply exportAAD_inj in Ha as (_ & _ & ? & ?); [done|done|by rewrite Hkdf].
Qed.

(** ** Witnesses *)

#[export] Instance exPbkdf2 : Pbkdf2 | 100 := {|
  pbkdf2Key password salt rounds n := Ok (stamp (Z.to_nat (n - 1)) (password +:+ salt) +:+ stamp 1 (password +:+ FormatInt rounds))
|}.

#[export] Instance exArmorYaml : ArmorYaml | 100 := {|
  armorMarshal f := Ok (carry (af_Version f, af_Label f, af_KDF f, af_Iterations f, af_Salt f, af_Nonce f, af_Payload f));
  armorUnmarshal s :=
    match uncarry s with
    | Some (version, label, kdf, rounds, salt, nonce, payload) => Ok (mkArmorFile version label kdf rounds salt nonce payload)
    | None => Err "not a mapping"%string
    end;
  exportMarshal f := Ok (carry (ef_Version f, ef_KDF f, ef_Iterations f, ef_Salt f, ef_Nonce f, ef_Payload f));
  exportUnmarshal s :=
    match uncarry s with
    | Some (version, kdf, rounds, salt, nonce, payload) => Ok (mkExportFile version kdf rounds salt nonce payload)
    | None => Err "not a mapping"%string
    end
|}.

#[export] Instance exArmorYamlLaws : ArmorYamlLaws | 100.
Proof. split; intros [] s [= <-]; cbn [armorUnmarshal exportUnmarshal exArmorYaml]; by rewrite uncarry_carry. Qed.

#[local] Instance exFold : CaseTables := {| lowerRune r := r; sameFold _ _ := false |}.
#[local] Existing Instance oneDocument.

Definition exPassphrase : string := "correct horse battery".
Definition exExport : string := match (ExportKeyring exBackup exPassphrase 65%nat).1 with Ok data => data | Err _ => "" end.

Lemma exExport_ok : ExportKeyring exBackup exPassphrase 65%nat = (Ok exExport, 67%nat).
Proof. vm_compute. reflexivity. Qed.

Lemma an_exported_keyring_moves_whole_witness :
  ImportKeyring exExport exPassphrase = Ok exBackup /\
  ImportKeyring exExport "incorrect horse" = Err (ErrExportInvalid DoesNotOpen) /\
  Unarmor ArmorKeeperPacket exExport exPassphrase = Err (ErrExportInvalid NotAnExport).
Proof.
  assert (storable exBackup) as Hs by (repeat constructor).
  assert (forall text, yamlMarshal (fileOf exBackup) = Ok text -> yamlUnmarshal text = Ok (fileOf exBackup)) as Hy
    by (intros text [= <-]; reflexivity).
  split; [|split].
  - exact (proj1 (an_exported_keyring_moves_whole exBackup exPassphrase 65%nat 67%nat exExport Hs Hy exExport_ok)).
  - vm_compute. reflexivity.
  - vm_compute. reflexivity.
Defined.
