(* ===== verification/Bucket.v ===== *)
(** * Bucket names and the providers' registry ([datasphere/bucket.go], [datasphere/datasphere.go])

    The name minted for an instance's bucket is one the clouds take, whatever the
    instance is called; adapters register under a name and are opened by it. *)

From Stdlib Require Import Ascii.
From S2P Require Import Prelude Effect GoStrings LogicalKey Encoding Slices Keyring KeyringFacts Net.

(** ** Names *)

Definition BucketNamePrefix : string := "farcast-".
Definition MaxBucketNameLen : Z := 63.
Definition bucketSuffixBytes : Z := 4.

Inductive bucket_error := NothingUsable | MintSuffix (e : string) | NoRoom.

Definition labelRune (r : Z) : list Z :=
  if inRange 97 122 r || inRange 48 57 r then [r] else if (r =? 45) || (r =? 95) then [45] else [].

Section names.
Context `{CaseTables}.

Definition bucketLabel (instance : string) : string :=
  TrimRight (trimLeft "-" (of_bytes (concat (map labelRune (runes (ToLower instance)))))) "-".

Definition mintBucketName {W} `{Entropy W} (instance : string) : eff W bucket_error string :=
  let label := bucketLabel instance in
  if decide (label = "") then fail NothingUsable
  else
    suffix ← readRand bucketSuffixBytes MintSuffix;
    let tail := "-" +:+ HexEncodeToString suffix in
    let room := MaxBucketNameLen - len BucketNamePrefix - len tail in
    if room <? len label then
      let label := TrimRight (slice label 0 room) "-" in
      if decide (label = "") then fail NoRoom else mret (BucketNamePrefix +:+ label +:+ tail)
    else mret (BucketNamePrefix +:+ label +:+ tail).

End names.

(** ** The registry *)

Section registry.
Context {F : Type} `{GoRange}.

Inductive registry_error := EmptyName | DuplicateProvider (name : string) | UnknownProvider (name : string) (registered : list string).

(** [Register] panics on an empty name, on a nil factory -- which is no factory here -- and on a name that is taken. *)
Definition Register (name : string) (f : option F) (registry : gmap string F) : result registry_error (gmap string F) :=
  match f with
  | None => Err EmptyName
  | Some f =>
      if decide (name = "") then Err EmptyName
      else match registry !! name with Some _ => Err (DuplicateProvider name) | None => Ok (<[name := f]> registry) end
  end.

Definition Providers (registry : gmap string F) : list string := sort_strings (map fst (go_range registry)).

Definition OpenProvider (name : string) (registry : gmap string F) : result registry_error F :=
  match registry !! name with Some f => Ok f | None => Err (UnknownProvider name (Providers registry)) end.

End registry.

(** ** Facts *)

Lemma trimLeft_spec c s : exists pre, s = pre +:+ trimLeft c s /\ forall a r, trimLeft c s = String a r -> a <> c.
Proof.
  induction s as [|x s (pre & E & Hn)]; [by exists ""|]. cbn [trimLeft]. destruct (Ascii.eqb_spec x c) as [->|Hx].
  - exists (String c pre). split; [by rewrite cons_app, <- E|done].
  - exists "". split; [done|]. by intros a r [= <- _].
Qed.

Lemma TrimRight_spec c s : exists post, s = TrimRight s c +:+ post.
Proof.
  unfold TrimRight. destruct (trimLeft_spec c (rev_string s)) as (pre & E & _). exists (rev_string pre).
  rewrite <- rev_string_app, <- E. by rewrite rev_string_invol.
Qed.

Lemma trimLeft_head c a s : a <> c -> trimLeft c (String a s) = String a s.
Proof. intros Ha. cbn [trimLeft]. by destruct (Ascii.eqb_spec a c). Qed.

(** A string that starts with another character is not trimmed away. *)
Lemma TrimRight_keeps c a s : a <> c -> TrimRight (String a s) c <> "".
Proof.
  intros Ha E. unfold TrimRight in E. apply (f_equal rev_string) in E. rewrite rev_string_invol in E. change (rev_string "") with ""%string in E.
  change (String a s) with (String a "" +:+ s) in E. rewrite rev_string_app in E. change (rev_string (String a "")) with (String a "") in E.
  revert E. generalize (rev_string s). intros t. induction t as [|x t IH]; [by rewrite nil_app, trimLeft_head|].
  rewrite cons_app. cbn [trimLeft]. by destruct (Ascii.eqb x c).
Qed.

(** What a bucket's name may hold. *)
Definition bucketByte (c : Z) : bool := inRange 97 122 c || inRange 48 57 c || (c =? 45).

Definition bucketText (s : string) : Prop := Forall (fun c => bucketByte c = true) (bytes s).

Lemma bucketText_app a b : bucketText (a +:+ b) <-> bucketText a /\ bucketText b.
Proof. unfold bucketText. rewrite bytes_app. apply Forall_app. Qed.

Lemma bucketText_hex s : bucketText (HexEncodeToString s).
Proof.
  unfold bucketText, HexEncodeToString. rewrite bytes_of_bytes by (apply hex_range, bytes_range). unfold hexEncode.
  apply Forall_concat, Forall_map. eapply Forall_impl; [apply bytes_range|]. intros b Hb. cbn beta in Hb.
  assert (forall v, 0 <= v < 16 -> bucketByte (hexDigit v) = true) as Hd.
  { intros v Hv. unfold bucketByte, hexDigit, inRange. destruct (Z.ltb_spec v 10); lia. }
  repeat constructor; apply Hd; Z.div_mod_to_equations; lia.
Qed.

Lemma hex_length s : len (HexEncodeToString s) = 2 * len s.
Proof.
  unfold HexEncodeToString. rewrite len_of_bytes, <- len_bytes. unfold hexEncode. induction (bytes s) as [|b bs IH]; [done|].
  cbn [map concat Datatypes.app length] in *. lia.
Qed.

Section facts.
Context `{CaseTables} {W : Type} `{Entropy W}.

Lemma bucketLabel_text instance : bucketText (bucketLabel instance).
Proof.
  unfold bucketLabel. set (written := of_bytes (concat (map labelRune (runes (ToLower instance))))).
  assert (bucketText written) as Hw.
  { assert (forall r, Forall (fun c => bucketByte c = true /\ 0 <= c < 256) (labelRune r)) as Hr.
    { intros r. unfold labelRune, bucketByte. destruct (inRange 97 122 r || inRange 48 57 r) eqn:E;
        [|destruct ((r =? 45) || (r =? 95)); [|by constructor]]; (constructor; [|by constructor]); unfold inRange in *; lia. }
    assert (Forall (fun c => bucketByte c = true /\ 0 <= c < 256) (concat (map labelRune (runes (ToLower instance))))) as Hf
      by (apply Forall_concat, Forall_map, Forall_forall; intros r _; apply Hr).
    apply Forall_and in Hf as [Hb Hf]. unfold bucketText, written. by rewrite bytes_of_bytes. }
  destruct (TrimRight_spec "-" (trimLeft "-" written)) as [post E]. destruct (trimLeft_spec "-" written) as (pre & E' & _).
  rewrite E' in Hw. apply bucketText_app in Hw as [_ Hw]. rewrite E in Hw. by apply bucketText_app in Hw as [Hw _].
Qed.

Lemma bucketLabel_head instance a r : bucketLabel instance = String a r -> a <> "-"%char.
Proof.
  unfold bucketLabel. set (written := of_bytes _). intros E. destruct (TrimRight_spec "-" (trimLeft "-" written)) as [post Ep].
  rewrite E in Ep. destruct (trimLeft_spec "-" written) as (pre & _ & Hn). by eapply Hn.
Qed.

(** A minted name is one every cloud takes, whatever the instance is called: FarCast's prefix, at most 63 bytes, lower
    case letters, digits and dashes, and eight random hexadecimal digits at its end. An instance is refused only when
    it has no character that could be used, and truncation never leaves nothing. *)
Theorem minted_names_are_taken instance (w w' : W) r : mintBucketName instance w = (r, w') ->
  match r with
  | Ok name => exists label suffix, name = BucketNamePrefix +:+ label +:+ "-" +:+ HexEncodeToString suffix /\
      label <> "" /\ (exists rest, bucketLabel instance = label +:+ rest) /\ len suffix = bucketSuffixBytes /\
      len name <= MaxBucketNameLen /\ bucketText name
  | Err e => e <> NoRoom /\ (e = NothingUsable <-> bucketLabel instance = "")
  end.
Proof.
  unfold mintBucketName. case_decide as Hl; [by intros [= <- _]|]. intros [(e & Er & ->)|(suffix & w1 & Es & E)]%bind_cases.
  { unfold readRand in Er. apply bind_cases in Er as [(e' & Et & _)|(x & w2 & _ & Ex)]; [by unfold try in Et; destruct (ReadFull _ _)|].
    unfold lift in Ex. injection Ex as Ex _. destruct x; [done|]. injection Ex as <-. by split. }
  apply readRand_len in Es. pose proof (hex_length suffix) as Hh. pose proof (bucketText_hex suffix) as Ht. rewrite Es in Hh.
  pose proof (bucketLabel_text instance) as Hb. unfold MaxBucketNameLen, bucketSuffixBytes in *.
  assert (len BucketNamePrefix = 8 /\ len "-" = 1) as [L1 L2] by done. assert (bucketText BucketNamePrefix /\ bucketText "-") as [T1 T2] by by repeat constructor.
  rewrite len_app in E. destruct (Z.ltb_spec (63 - len BucketNamePrefix - (len "-" + len (HexEncodeToString suffix))) (len (bucketLabel instance))) as [Hlong|Hshort].
  - set (cut := slice (bucketLabel instance) 0 _) in E. destruct (TrimRight_spec "-" cut) as [post Ep].
    pose proof (split_at (bucketLabel instance) (63 - len BucketNamePrefix - (len "-" + len (HexEncodeToString suffix))) ltac:(lia)) as Esp. fold cut in Esp.
    assert (len cut = 46) as Hc by (unfold cut; rewrite len_slice; lia).
    assert (TrimRight cut "-" <> "") as Hne.
    { destruct cut as [|a rest] eqn:Ec; [done|]. apply TrimRight_keeps. rewrite cons_app in Esp. by eapply bucketLabel_head. }
    rewrite decide_False in E by done. injection E as <- <-. exists (TrimRight cut "-"), suffix.
    assert (len cut = len (TrimRight cut "-") + len post) as Hlen by (rewrite Ep at 1; by rewrite len_app). pose proof (len_nonneg post).
    split_and!; [done|done| |done| |].
    + exists (post +:+ Slices.after (bucketLabel instance) (63 - len BucketNamePrefix - (len "-" + len (HexEncodeToString suffix)))).
      by rewrite <- app_string_assoc, <- Ep.
    + rewrite !len_app. lia.
    + rewrite <- Esp, Ep, app_string_assoc in Hb. apply bucketText_app in Hb as [Hb _]. rewrite !bucketText_app. by split_and!.
  - injection E as <- <-. exists (bucketLabel instance), suffix. split_and!; [done|done| |done| |].
    + exists "". by rewrite app_string_nil_r.
    + rewrite !len_app. lia.
    + rewrite !bucketText_app. by split_and!.
Qed.

End facts.
