(* ===== verification/Manifest.v ===== *)
(** * The application manifest ([manifest/parser/parser.go])

    What an operator declares: the applications, and the hosts each may reach.
    The YAML library decodes the document into optional fields; validation goes
    over all of them and reports every failure it finds. *)

From Stdlib Require Import Ascii.
From S2P Require Import Prelude GoStrings Strconv Slices Net.

(** ** Data *)

Record External := mkExternal { ex_Host : string; ex_Reason : string }.

Record App := mkApp {
  ap_Name : string;
  ap_Containerfile : string;
  ap_Context : string;
  ap_External : list External
}.

Record Manifest := mkManifest { mf_Name : string; mf_Apps : list App }.

(** What went wrong, for its message. *)
Inductive field_message :=
| IsRequired
| NeedsOneApp
| DuplicateApp (name : string) (first : Z)
| DuplicateHost (host : string) (first : Z)
| MustNotBeEmpty
| TooLong (max got : Z)
| MustStartLower
| EndsWithHyphen
| InvalidCharacter (c : Z) (index : Z)
| AbsolutePath (s : string)
| ParentSegment
| HasScheme
| HasPortOrPath
| HasWildcard
| HasWhitespace
| IsAddress
| DotAtEdge
| EmptyLabel
| LabelTooLong (label : string)
| LabelHyphen (label : string)
| LabelCharacter (label : string) (c : Z)
| ManifestEmpty
| YamlFailed (message : string).

Record FieldError := mkFieldError { fe_Path : string; fe_Message : field_message }.

Record rawExternal := mkRawExternal { re_Host : option string; re_Reason : option string }.

Record rawApp := mkRawApp {
  ra_Name : option string;
  ra_Containerfile : option string;
  ra_Context : option string;
  ra_External : option (list rawExternal)
}.

Record rawManifest := mkRawManifest { rm_Name : option string; rm_Apps : option (list rawApp) }.

(** [yaml.UnmarshalWithOptions(data, &raw, yaml.Strict())]. *)
Class ManifestYaml := unmarshalManifest : string -> result string rawManifest.

(** ** Scalars *)

Definition isLower (c : Z) : bool := inRange 97 122 c.
Definition isUpper (c : Z) : bool := inRange 65 90 c.
Definition hyphen : Z := 45.

Definition labelByte (c : Z) : bool := isLower c || isDigit c || (c =? hyphen).
Definition hostByte (c : Z) : bool := isLower c || isUpper c || isDigit c || (c =? hyphen).

(** The loop over the characters: the first that does not belong. *)
Definition firstBad (ok : Z -> bool) (s : string) : option (nat * Z) := list_find (fun c => ok c = false) (bytes s).

Definition validateDNSLabel (s path : string) : result FieldError unit :=
  let err m := Err (mkFieldError path m) in
  if decide (s = "") then err MustNotBeEmpty
  else if 63 <? len s then err (TooLong 63 (len s))
  else if negb (isLower (byteAt s 0)) then err MustStartLower
  else if len s =? 1 then Ok tt
  else if byteAt s (len s - 1) =? hyphen then err EndsWithHyphen
  else match firstBad labelByte s with
       | Some (i, c) => err (InvalidCharacter c (Z.of_nat i))
       | None => Ok tt
       end.

Definition validateRelPath (s path : string) : result FieldError unit :=
  let err m := Err (mkFieldError path m) in
  if decide (s = "") then err MustNotBeEmpty
  else if HasPrefix s "/" then err (AbsolutePath s)
  else if HasPrefix s "\" then err (AbsolutePath s)
  else if bool_decide (".." ∈ SplitByte "/" s)%string then err ParentSegment
  else Ok tt.

Definition validateHostnameLabel (label path : string) : result FieldError unit :=
  let err m := Err (mkFieldError path m) in
  if len label =? 0 then err EmptyLabel
  else if 63 <? len label then err (LabelTooLong label)
  else if (byteAt label 0 =? hyphen) || (byteAt label (len label - 1) =? hyphen) then err (LabelHyphen label)
  else match firstBad hostByte label with
       | Some (_, c) => err (LabelCharacter label c)
       | None => Ok tt
       end.

Definition validateHostname (s path : string) : result FieldError unit :=
  let err m := Err (mkFieldError path m) in
  if decide (s = "") then err MustNotBeEmpty
  else if Contains s "://" then err HasScheme
  else if negb (without ":" s && without "/" s) then err HasPortOrPath
  else if negb (without "*" s) then err HasWildcard
  else if negb (without " " s) then err HasWhitespace
  else if ParseIP s then err IsAddress
  else if 253 <? len s then err (TooLong 253 (len s))
  else if HasPrefix s "." || HasSuffix s "." then err DotAtEdge
  else foldM (fun _ label => validateHostnameLabel label path) tt (SplitByte "." s).

(** ** The document *)

(** The value a check passed, or nothing and its error. *)
Definition checked {A} (x : result FieldError unit) (v : A) (zero : A) : A * list FieldError :=
  match x with Ok _ => (v, []) | Err e => (zero, [e]) end.

Definition required (raw : option string) (path : string) (check : string -> string -> result FieldError unit)
    : string * list FieldError :=
  match raw with
  | None => (""%string, [mkFieldError path IsRequired])
  | Some s => checked (check s path) s ""%string
  end.

Definition validateReason (s path : string) : result FieldError unit :=
  if decide (s = "") then Err (mkFieldError path MustNotBeEmpty) else Ok tt.

Definition validateExternal (raw : rawExternal) (path : string) : option External * list FieldError :=
  let '(host, e1) := required (re_Host raw) (path +:+ ".host") validateHostname in
  let '(reason, e2) := required (re_Reason raw) (path +:+ ".reason") validateReason in
  if decide (e1 ++ e2 = []) then (Some (mkExternal host reason), []) else (None, e1 ++ e2).

(** A name that was seen, kept with the index it was first seen at. *)
Definition note (seen : gmap string Z) (name : option string) (i : Z) (dup : string -> Z -> FieldError)
    : gmap string Z * list FieldError :=
  match name with
  | None | Some "" => (seen, [])
  | Some n => match seen !! n with Some prev => (seen, [dup n prev]) | None => (<[n := i]> seen, []) end
  end.

(** One pass of a loop over entries: what was kept, the errors, the names seen and the index. *)
Definition entryStep {R A} (validate : R -> string -> option A * list FieldError) (name : R -> option string)
    (pathAt : Z -> string) (dup : string -> Z -> string -> FieldError)
    (acc : list A * list FieldError * gmap string Z * Z) (raw : R) : list A * list FieldError * gmap string Z * Z :=
  let '(out, errs, seen, i) := acc in
  let '(x, es) := validate raw (pathAt i) in
  let '(seen, ds) := note seen (name raw) i (fun n prev => dup n prev (pathAt i)) in
  (match x with Some a => out ++ [a] | None => out end, errs ++ es ++ ds, seen, i + 1).

Definition entries {R A} validate name pathAt dup (l : list R) : list A * list FieldError :=
  let '(out, errs, _, _) := foldl (entryStep validate name pathAt dup) ([], [], ∅, 0) l in (out, errs).

Definition externals (path : string) (l : list rawExternal) : list External * list FieldError :=
  entries validateExternal re_Host (fun i => path +:+ ".external[" +:+ FormatInt i +:+ "]")
    (fun h prev p => mkFieldError (p +:+ ".host") (DuplicateHost h prev)) l.

Definition validateApp (raw : rawApp) (path : string) : option App * list FieldError :=
  let '(name, e1) := required (ra_Name raw) (path +:+ ".name") validateDNSLabel in
  let '(file, e2) := required (ra_Containerfile raw) (path +:+ ".containerfile") validateRelPath in
  let '(context, e3) :=
    match ra_Context raw with
    | None => (""%string, [])
    | Some s => checked (validateRelPath s (path +:+ ".context")) s ""%string
    end in
  let '(external, e4) := match ra_External raw with None => ([], []) | Some l => externals path l end in
  let errs := e1 ++ e2 ++ e3 ++ e4 in
  if decide (errs = []) then (Some (mkApp name file context external), []) else (None, errs).

Definition apps (l : list rawApp) : list App * list FieldError :=
  entries validateApp ra_Name (fun i => "apps[" +:+ FormatInt i +:+ "]")
    (fun n prev p => mkFieldError (p +:+ ".name") (DuplicateApp n prev)) l.

Definition validate (raw : rawManifest) : option Manifest * list FieldError :=
  let '(name, e1) := required (rm_Name raw) "name" validateDNSLabel in
  match rm_Apps raw with
  | None => (None, e1 ++ [mkFieldError "apps" IsRequired])
  | Some [] => (None, e1 ++ [mkFieldError "apps" NeedsOneApp])
  | Some l =>
      let '(out, e2) := apps l in
      if decide (e1 ++ e2 = []) then (Some (mkManifest name out), []) else (None, e1 ++ e2)
  end.

Definition BOM : string := of_bytes [239; 187; 191].

Definition blankLine (line : string) : bool := let t := TrimSpace line in bool_decide (t = "") || HasPrefix t "#".

Definition isBlank (data : string) : bool := forallb blankLine (SplitByte "010" (TrimPrefix data BOM)).

(** [ErrInvalidManifest] is joined to whatever is reported. *)
Definition Parse `{ManifestYaml} (data : string) : result (list FieldError) Manifest :=
  let data := TrimPrefix data BOM in
  if isBlank data then Err [mkFieldError "" ManifestEmpty]
  else
    match unmarshalManifest data with
    | Err e => Err [mkFieldError "" (YamlFailed e)]
    | Ok raw =>
        match validate raw with
        | (Some m, []) => Ok m
        | (_, errs) => Err errs
        end
    end.

(** ** What a valid manifest is *)

(** [/^[a-z][a-z0-9-]{0,61}[a-z0-9]$/], or one lower-case letter. *)
Definition dns_label (s : string) : Prop :=
  (exists c, bytes s = [c] /\ isLower c = true) \/
  exists c mid d, bytes s = c :: mid ++ [d] /\ isLower c = true /\ forallb labelByte mid = true /\
    (isLower d || isDigit d) = true /\ (length mid <= 61)%nat.

Definition rel_path (s : string) : Prop :=
  s <> "" /\ HasPrefix s "/" = false /\ HasPrefix s "\" = false /\ ".."%string ∉ SplitByte "/" s.

Definition host_label (l : string) : Prop :=
  1 <= len l <= 63 /\ forallb hostByte (bytes l) = true /\ byteAt l 0 <> hyphen /\ byteAt l (len l - 1) <> hyphen.

(** Dot-separated labels, not an address. *)
Definition hostname (s : string) : Prop :=
  Forall host_label (SplitByte "." s) /\ len s <= 253 /\ ParseIP s = false.

Definition external_ok (raw : rawExternal) (e : External) : Prop :=
  re_Host raw = Some (ex_Host e) /\ hostname (ex_Host e) /\ re_Reason raw = Some (ex_Reason e) /\ ex_Reason e <> "".

Record app_ok (raw : rawApp) (a : App) : Prop := {
  ao_name : ra_Name raw = Some (ap_Name a) /\ dns_label (ap_Name a);
  ao_file : ra_Containerfile raw = Some (ap_Containerfile a) /\ rel_path (ap_Containerfile a);
  ao_context : match ra_Context raw with None => ap_Context a = "" | Some c => ap_Context a = c /\ rel_path c end;
  ao_external : match ra_External raw with
                | None => ap_External a = []
                | Some l => Forall2 external_ok l (ap_External a) /\ NoDup (map ex_Host (ap_External a))
                end
}.

Record manifest_ok (raw : rawManifest) (m : Manifest) : Prop := {
  mo_name : rm_Name raw = Some (mf_Name m) /\ dns_label (mf_Name m);
  mo_apps : exists l, rm_Apps raw = Some l /\ l <> [] /\ Forall2 app_ok l (mf_Apps m);
  mo_names : NoDup (map ap_Name (mf_Apps m))
}.

(** ** Scalars *)

Lemma firstBad_none ok s : firstBad ok s = None <-> forallb ok (bytes s) = true.
Proof.
  unfold firstBad. rewrite list_find_None, forallb_forall, Forall_forall. split; intros Hf x Hx.
  - apply list_elem_of_In in Hx. apply Hf in Hx. by destruct (ok x).
  - apply list_elem_of_In in Hx. by rewrite Hf.
Qed.

Lemma byteAt_nth s i : 0 <= i -> byteAt s i = default 0 (bytes s !! Z.to_nat i).
Proof.
  intros Hi. unfold byteAt, after. revert s. induction (Z.to_nat i) as [|n IH]; intros s.
  - destruct s; [done|]. by rewrite bytes_cons.
  - destruct s as [|c s]; [done|]. rewrite bytes_cons. cbn [sdrop lookup list_lookup]. apply IH.
Qed.

Lemma len_length s : len s = Z.of_nat (length (bytes s)).
Proof. by rewrite len_bytes. Qed.

Lemma empty_bytes s : s = "" <-> bytes s = [].
Proof. destruct s; [done|]. rewrite bytes_cons. done. Qed.

(** The bytes that are neither first nor last. *)
Lemma ends_split {A} (l : list A) : (2 <= length l)%nat -> exists c mid d, l = c :: mid ++ [d].
Proof.
  destruct l as [|c l]; cbn; [lia|]. intros Hl. exists c. destruct l as [|x l _] using rev_ind; [cbn in Hl; lia|].
  by exists l, x.
Qed.

Lemma last_byte s c mid d : bytes s = c :: mid ++ [d] -> byteAt s 0 = c /\ byteAt s (len s - 1) = d /\ len s = Z.of_nat (length mid) + 2.
Proof.
  intros E. assert (len s = Z.of_nat (length mid) + 2) as Hl by (rewrite len_length, E; cbn; rewrite length_app; cbn; lia).
  split_and!; [by rewrite byteAt_nth, E| |done]. rewrite byteAt_nth by lia. rewrite E, Hl.
  replace (Z.to_nat _) with (S (length mid)) by lia. change ((c :: mid ++ [d]) !! S (length mid)) with ((mid ++ [d]) !! length mid).
  by rewrite lookup_app_r, Nat.sub_diag.
Qed.

Lemma validateDNSLabel_spec s path : validateDNSLabel s path = Ok tt <-> dns_label s.
Proof.
  unfold validateDNSLabel, dns_label. case_decide as Hs.
  { apply empty_bytes in Hs. rewrite Hs. split; [done|]. intros [(c & [=] & _)|(c & mid & d & [=] & _)]. }
  assert (bytes s <> []) as Hne by (by intros E%empty_bytes).
  destruct (bytes s) as [|c [|c' l']] eqn:E; [done| |].
  - assert (len s = 1) as Hl by (rewrite len_length, E; done). rewrite Hl. cbn [Z.ltb Z.eqb].
    rewrite byteAt_nth, E by done. change (default 0 ([c] !! Z.to_nat 0)) with c.
    destruct (isLower c) eqn:Hc; cbn [negb]; split; try done.
    + intros _. left. eauto.
    + intros [(? & [= <-] & ?)|(? & mid & ? & [=] & _)]; [congruence|]. by destruct mid.
  - destruct (ends_split (bytes s)) as (c0 & mid & d & Es); [rewrite E; cbn; lia|]. rewrite <- E, Es.
    destruct (last_byte s c0 mid d Es) as (H0 & Hlast & Hl). rewrite H0, Hlast, Hl.
    assert (forall X, (exists x, c0 :: mid ++ [d] = [x] /\ X x) <-> False) as Hno.
    { intros X. split; [|done]. intros (x & Hx & _). by destruct mid. }
    destruct (Z.ltb_spec 63 (Z.of_nat (length mid) + 2)).
    { split; [done|]. intros [?%Hno|(c1 & m1 & d1 & Em & _ & _ & _ & ?)]; [done|].
      injection Em as <- Em. apply app_inj_tail in Em as [-> _]. lia. }
    assert (forall P : Z -> list Z -> Z -> Prop, (exists c1 m1 d1, c0 :: mid ++ [d] = c1 :: m1 ++ [d1] /\ P c1 m1 d1) <-> P c0 mid d) as Hex.
    { intros P. split; [|eauto 6]. intros (c1 & m1 & d1 & Em & HP). injection Em as <- Em.
      by apply app_inj_tail in Em as [-> ->]. }
    rewrite (Hex (fun c1 m1 d1 => isLower c1 = true /\ forallb labelByte m1 = true /\ (isLower d1 || isDigit d1) = true /\ (length m1 <= 61)%nat)).
    destruct (isLower c0) eqn:Hc0; cbn [negb]; [|split; [done|]; intros [?%Hno|[? _]]; done].
    destruct (Z.eqb_spec (Z.of_nat (length mid) + 2) 1); [lia|].
    destruct (Z.eqb_spec d hyphen) as [->|Hd].
    { split; [done|]. intros [?%Hno|(_ & _ & Hd & _)]; done. }
    destruct (firstBad labelByte s) as [[i c1]|] eqn:Hb.
    + split; [done|]. intros [?%Hno|(_ & Hm & Hd' & _)]; [done|].
      assert (firstBad labelByte s = None) as Hn; [|congruence]. apply firstBad_none. rewrite Es. cbn.
      rewrite forallb_app, Hm. cbn. unfold labelByte. rewrite Hc0, Hd'. done.
    + split; [|done]. intros _. right. apply firstBad_none in Hb. rewrite Es in Hb. cbn in Hb.
      rewrite forallb_app in Hb. cbn in Hb. apply andb_true_iff in Hb as [_ Hb]. apply andb_true_iff in Hb as [Hm Hd'].
      split_and!; [done|done| |lia]. unfold labelByte in Hd'. apply Z.eqb_neq in Hd. rewrite Hd in Hd'.
      by rewrite orb_false_r, andb_true_r in Hd'.
Qed.

Lemma validateRelPath_spec s path : validateRelPath s path = Ok tt <-> rel_path s.
Proof.
  unfold validateRelPath, rel_path. case_decide; [split; [done|naive_solver]|].
  destruct (HasPrefix s "/"); [split; [done|naive_solver]|]. destruct (HasPrefix s "\"); [split; [done|naive_solver]|].
  case_bool_decide; [split; [done|naive_solver]|done].
Qed.

Lemma SplitByte_some c s : exists x l, SplitByte c s = x :: l.
Proof. destruct s as [|a s]; cbn; [eauto|]. destruct (Ascii.eqb a c); [eauto|]. destruct (SplitByte c s); eauto. Qed.

(** Every byte of a string is a separator or of a piece. *)
Lemma SplitByte_bytes (P : Z -> bool) c s :
  Forall (fun l => forallb P (bytes l) = true) (SplitByte c s) ->
  forallb (fun b => P b || (b =? Z.of_N (N_of_ascii c))) (bytes s) = true.
Proof.
  induction s as [|a s IH]; [done|]. rewrite bytes_cons. cbn [SplitByte forallb]. destruct (Ascii.eqb_spec a c) as [->|Hne].
  - intros [_ Hf]%Forall_cons. by rewrite Z.eqb_refl, orb_true_r, IH.
  - destruct (SplitByte_some c s) as (x & l & E). rewrite E in *. intros [Hx Hf]%Forall_cons. rewrite bytes_cons in Hx.
    cbn in Hx. apply andb_true_iff in Hx as [Ha Hx]. rewrite Ha. cbn. apply IH. by constructor.
Qed.

Lemma SplitByte_end c r : SplitByte c (r +:+ String c "") = SplitByte c r ++ [""%string].
Proof.
  induction r as [|a r IH]; [rewrite nil_app; cbn; by rewrite Ascii.eqb_refl|]. rewrite cons_app. cbn [SplitByte]. rewrite IH.
  destruct (SplitByte_some c r) as (x & l & ->). by destruct (Ascii.eqb a c).
Qed.

Lemma without_bytes (P : Z -> bool) a s : forallb P (bytes s) = true -> P (Z.of_N (N_of_ascii a)) = false -> without a s = true.
Proof.
  unfold without, bytes. intros Hf Ha. apply forallb_forall. intros b Hb. rewrite forallb_forall in Hf.
  destruct (Ascii.eqb_spec b a) as [->|]; [|done]. rewrite Hf in Ha; [done|]. by apply (in_map (fun a => Z.of_N (N_of_ascii a))).
Qed.

Lemma Contains_without a sub s : Contains s (String a sub) = true -> without a s = false.
Proof.
  induction s as [|b s IH]; [done|]. change (without a (String b s)) with (negb (Ascii.eqb b a) && without a s).
  cbn [Contains]. intros [H|H]%orb_true_iff.
  - apply HasPrefix_spec in H as [r H]. rewrite cons_app in H. injection H as -> _. by rewrite Ascii.eqb_refl.
  - rewrite IH by done. by rewrite andb_false_r.
Qed.

Lemma validateHostnameLabel_spec l path : validateHostnameLabel l path = Ok tt <-> host_label l.
Proof.
  unfold validateHostnameLabel, host_label. pose proof (len_nonneg l).
  destruct (Z.eqb_spec (len l) 0); [split; [done|lia]|]. destruct (Z.ltb_spec 63 (len l)); [split; [done|lia]|].
  destruct (Z.eqb_spec (byteAt l 0) hyphen), (Z.eqb_spec (byteAt l (len l - 1)) hyphen); cbn [orb]; try (split; [done|tauto]).
  destruct (firstBad hostByte l) as [[i c]|] eqn:Hb.
  - split; [done|]. intros (_ & Hf & _). by apply firstBad_none in Hf; rewrite Hf in Hb.
  - apply firstBad_none in Hb. split; [|done]. intros _. split_and!; [lia|lia|done|done|done].
Qed.

Lemma foldM_check {E A} (f : A -> result E unit) l : foldM (fun _ x => f x) tt l = Ok tt <-> Forall (fun x => f x = Ok tt) l.
Proof.
  induction l as [|x l IH]; cbn; [by split|]. rewrite Forall_cons, <- IH.
  destruct (f x) as [[]|]; split; [tauto|intros [_ ?]; done|done|by intros [? _]].
Qed.

Lemma labels_bytes s : Forall host_label (SplitByte "." s) -> forallb (fun b => hostByte b || (b =? 46)) (bytes s) = true.
Proof. intros Hl. apply (SplitByte_bytes hostByte "."), (Forall_impl _ _ _ Hl). by intros l (_ & ? & _). Qed.

Lemma validateHostname_spec s path : validateHostname s path = Ok tt <-> hostname s.
Proof.
  assert (foldM (fun _ label => validateHostnameLabel label path) tt (SplitByte "." s) = Ok tt <-> Forall host_label (SplitByte "." s)) as Hfold.
  { rewrite foldM_check. apply Forall_iff. intros l. apply validateHostnameLabel_spec. }
  unfold validateHostname, hostname. split.
  - case_decide; [done|]. destruct (Contains _ _); [done|]. destruct (negb _); [done|]. destruct (negb _); [done|].
    destruct (negb _); [done|]. destruct (ParseIP s); [done|]. destruct (Z.ltb_spec 253 (len s)); [done|].
    destruct (_ || _); [done|]. by rewrite Hfold.
  - intros (Hl & Hlen & Hip). assert (~ host_label "") as Hnil by (intros [Hz _]; change (len "") with 0 in Hz; lia).
    pose proof (labels_bytes s Hl) as Hb.
    assert (without ":" s = true) as Hcolon by exact (without_bytes _ ":" s Hb eq_refl).
    rewrite decide_False by (intros ->; by apply Forall_cons in Hl as [? _]).
    destruct (Contains s "://") eqn:Hs; [apply Contains_without in Hs; congruence|].
    rewrite Hcolon, (without_bytes _ "/" s Hb eq_refl), (without_bytes _ "*" s Hb eq_refl), (without_bytes _ " " s Hb eq_refl).
    cbn [negb andb]. rewrite Hip. destruct (Z.ltb_spec 253 (len s)); [lia|].
    destruct (HasPrefix s ".") eqn:Hpre.
    { apply HasPrefix_spec in Hpre as [r ->]. by apply Forall_cons in Hl as [? _]. }
    destruct (HasSuffix s ".") eqn:Hsuf.
    { apply HasSuffix_spec in Hsuf as [r ->]. rewrite SplitByte_end in Hl. apply Forall_app in Hl as [_ Hl].
      by apply Forall_cons in Hl as [? _]. }
    cbn [orb]. by apply Hfold.
Qed.

(** ** The document *)

Section entries.
Context {R A : Type} (validate : R -> string -> option A * list FieldError) (ok : R -> A -> Prop).

(** A validator that keeps what is valid, and says so when it is not. *)
Definition exact : Prop := forall raw p,
  (exists a, validate raw p = (Some a, []) /\ ok raw a) \/
  (exists es, validate raw p = (None, es) /\ es <> [] /\ forall a, ~ ok raw a).

Context (name : R -> option string) (nameOf : A -> string) (pathAt : Z -> string) (dup : string -> Z -> string -> FieldError).
Hypothesis Hexact : exact.
Hypothesis Hname : forall raw a, ok raw a -> name raw = Some (nameOf a) /\ nameOf a <> "".

(** Valid entries whose names are new and different. *)
Definition fresh (seen : gmap string Z) (l : list R) (out : list A) : Prop :=
  Forall2 ok l out /\ NoDup (map nameOf out) /\ forall n, n ∈ map nameOf out -> seen !! n = None.

Lemma entries_from l : forall out0 errs0 seen i, exists out errs seen' i',
  foldl (entryStep validate name pathAt dup) (out0, errs0, seen, i) l = (out0 ++ out, errs0 ++ errs, seen', i') /\
  ((errs = [] /\ fresh seen l out) \/ (errs <> [] /\ forall out', ~ fresh seen l out')).
Proof.
  induction l as [|raw l IH]; intros out0 errs0 seen i; cbn [foldl].
  { exists [], [], seen, i. rewrite !app_nil_r. split; [done|]. left. split; [done|]. split_and!; [done|constructor|set_solver]. }
  unfold entryStep at 2. destruct (Hexact raw (pathAt i)) as [(a & -> & Ha)|(es & -> & Hes & Hno)].
  - apply Hname in Ha as Hn. destruct Hn as [Hn Hne]. rewrite Hn. unfold note.
    destruct (nameOf a) as [|ch n'] eqn:Ena; [done|]. rewrite <- Ena in *. clear ch n' Ena Hne.
    destruct (seen !! nameOf a) as [prev|] eqn:Hs.
    + destruct (IH (out0 ++ [a]) (errs0 ++ [] ++ [dup (nameOf a) prev (pathAt i)]) seen (i + 1)) as (out & errs & seen' & i' & E & _).
      exists (a :: out), (dup (nameOf a) prev (pathAt i) :: errs), seen', i'. rewrite E, <- !app_assoc. split; [done|]. right.
      split; [done|]. intros out' (Hf & _ & Hnew). inversion Hf as [|? a' ? out1 Ha' _]; subst.
      apply Hname in Ha' as [Hn' _]. rewrite Hn in Hn'. injection Hn' as Hn'. rewrite Hnew in Hs; [done|]. rewrite Hn'. by left.
    + destruct (IH (out0 ++ [a]) (errs0 ++ [] ++ []) (<[nameOf a := i]> seen) (i + 1)) as (out & errs & seen' & i' & E & Hc).
      exists (a :: out), errs, seen', i'. rewrite E, <- !app_assoc. split; [done|].
      destruct Hc as [[-> (Hf & Hnd & Hnew)]|[Hne Hno]]; [left|right]; (split; [done|]).
      * split_and!; [by constructor| |].
        -- cbn. constructor; [|done]. intros Hin. apply Hnew in Hin. by rewrite lookup_insert_eq in Hin.
        -- cbn. intros n [->|Hin]%elem_of_cons; [done|]. apply Hnew in Hin as Hl. destruct (decide (n = nameOf a)) as [->|]; [done|].
           by rewrite lookup_insert_ne in Hl.
      * intros out' (Hf & Hnd & Hnew). inversion Hf as [|? a' ? out1 Ha' Hf']; subst. apply (Hno out1).
        apply Hname in Ha' as [Hn' _]. rewrite Hn in Hn'. injection Hn' as Hn'. cbn in Hnd, Hnew.
        apply NoDup_cons in Hnd as [Hnotin Hnd]. split_and!; [done|done|]. intros n Hin.
        rewrite lookup_insert_ne; [by apply Hnew; right|]. intros Heq. apply Hnotin. congruence.
  - destruct (note seen (name raw) i (fun n prev => dup n prev (pathAt i))) as [seen1 ds].
    destruct (IH out0 (errs0 ++ es ++ ds) seen1 (i + 1)) as (out & errs & seen' & i' & E & _).
    exists out, ((es ++ ds) ++ errs), seen', i'. rewrite E, <- !app_assoc. split; [done|]. right. split; [by destruct es|].
    intros out' (Hf & _). inversion Hf as [|? a' ? out1 Ha' _]; subst. by apply (Hno a').
Qed.

Lemma entries_spec l : exists out errs, entries validate name pathAt dup l = (out, errs) /\
  ((errs = [] /\ Forall2 ok l out /\ NoDup (map nameOf out)) \/
   (errs <> [] /\ forall out', ~ (Forall2 ok l out' /\ NoDup (map nameOf out')))).
Proof.
  destruct (entries_from l [] [] ∅ 0) as (out & errs & seen' & i' & E & Hc). exists out, errs. unfold entries. rewrite E.
  split; [done|]. destruct Hc as [[? (? & ? & _)]|[? Hno]]; [by left|right]. split; [done|]. intros out' [Hf Hnd].
  by apply (Hno out').
Qed.

End entries.

(** A field that is read and checked: nothing is reported and the value is what was written, or no value would do. *)
Definition field {A} (es : list FieldError) (v : A) (P : A -> Prop) : Prop := (es = [] /\ P v) \/ (es <> [] /\ forall v', ~ P v').

Lemma required_spec raw path check (P : string -> Prop) : (forall s, check s path = Ok tt <-> P s) ->
  exists s es, required raw path check = (s, es) /\ field es s (fun s => raw = Some s /\ P s).
Proof.
  intros Hc. unfold required, checked, field. destruct raw as [s|].
  - destruct (check s path) as [[]|e] eqn:E; eexists _, _; (split; [done|]); [left|right].
    + split_and!; try done. by apply Hc.
    + split; [done|]. intros s' [[= <-] HP]. apply Hc in HP. congruence.
  - eexists _, _. split; [done|]. right. split; [done|]. by intros s' [? _].
Qed.

Lemma validateReason_spec path s : validateReason s path = Ok tt <-> s <> "".
Proof. unfold validateReason. by case_decide. Qed.

Ltac read_required P := match goal with |- context [required ?raw ?path ?check] =>
  let v := fresh "v" in let es := fresh "es" in let Hv := fresh "Hv" in
  destruct (required_spec raw path check P) as (v & es & -> & Hv) end.

Lemma external_exact : exact validateExternal external_ok.
Proof.
  intros raw p. unfold validateExternal, external_ok.
  read_required hostname; [intros; apply validateHostname_spec|].
  read_required (fun s : string => s <> ""); [intros; apply validateReason_spec|].
  case_decide as Hes; [apply app_nil in Hes as [-> ->]; left|right; eexists; split_and!; [done|done|]].
  - destruct Hv as [[_ [? ?]]|[? _]], Hv0 as [[_ [? ?]]|[? _]]; try done. eexists. by split.
  - intros a (? & ? & ? & ?). destruct Hv as [[-> _]|[_ Hno]]; [|by apply (Hno (ex_Host a))].
    destruct Hv0 as [[-> _]|[_ Hno]]; [done|by apply (Hno (ex_Reason a))].
Qed.

Lemma hostname_nonempty s : hostname s -> s <> "".
Proof. intros (Hl & _) ->. apply Forall_cons in Hl as [[Hz _] _]. change (len "") with 0 in Hz. lia. Qed.

Lemma dns_label_nonempty s : dns_label s -> s <> "".
Proof. intros H ->. destruct H as [(c & [=] & _)|(c & mid & d & [=] & _)]. Qed.

Lemma externals_spec path l : exists out errs, externals path l = (out, errs) /\
  field errs out (fun out => Forall2 external_ok l out /\ NoDup (map ex_Host out)).
Proof.
  unfold externals, field. apply entries_spec; [apply external_exact|]. intros raw a (? & ? & _). by split; [|apply hostname_nonempty].
Qed.

Lemma app_exact : exact validateApp app_ok.
Proof.
  intros raw p. unfold validateApp.
  read_required dns_label; [intros; apply validateDNSLabel_spec|].
  read_required rel_path; [intros; apply validateRelPath_spec|].
  assert (exists c e3, match ra_Context raw with None => (""%string, []) | Some s => checked (validateRelPath s (p +:+ ".context")) s ""%string end = (c, e3) /\
    field e3 c (fun c => match ra_Context raw with None => c = "" | Some s => c = s /\ rel_path s end)) as (c & e3 & -> & Hc).
  { unfold field. destruct (ra_Context raw) as [s|]; [|eexists _, _; split; [done|by left]]. pose proof (validateRelPath_spec s (p +:+ ".context")) as Hs.
    destruct (validateRelPath _ _) as [[]|e]; eexists _, _; (split; [done|]); [left|right]; (split; [done|]); [by split; [|apply Hs]|].
    intros v' [_ Hr]. by apply Hs in Hr. }
  assert (exists x e4, match ra_External raw with None => ([], []) | Some l => externals p l end = (x, e4) /\
    field e4 x (fun x => match ra_External raw with None => x = [] | Some l => Forall2 external_ok l x /\ NoDup (map ex_Host x) end)) as (x & e4 & -> & Hx).
  { destruct (ra_External raw) as [l|]; [apply externals_spec|]. eexists _, _. split; [done|]. by left. }
  case_decide as Hes; [left|right; eexists; split_and!; [done|done|]].
  - rewrite !app_nil in Hes. destruct Hes as (-> & -> & -> & ->). eexists. split; [done|].
    destruct Hv as [[_ [? ?]]|[? _]], Hv0 as [[_ [? ?]]|[? _]], Hc as [[_ ?]|[? _]], Hx as [[_ ?]|[? _]]; done.
  - intros a [Hn Hf Hcx Hex]. destruct Hv as [[-> _]|[_ Hno]]; [|by apply (Hno (ap_Name a))].
    destruct Hv0 as [[-> _]|[_ Hno]]; [|by apply (Hno (ap_Containerfile a))].
    destruct Hc as [[-> _]|[_ Hno]]; [|by apply (Hno (ap_Context a))].
    destruct Hx as [[-> _]|[_ Hno]]; [done|by apply (Hno (ap_External a))].
Qed.

Lemma apps_spec l : exists out errs, apps l = (out, errs) /\
  field errs out (fun out => Forall2 app_ok l out /\ NoDup (map ap_Name out)).
Proof.
  unfold apps, field. apply entries_spec; [apply app_exact|]. intros raw a [[? ?] _ _ _]. by split; [|apply dns_label_nonempty].
Qed.

Lemma validate_spec raw :
  (exists m, validate raw = (Some m, []) /\ manifest_ok raw m) \/
  (exists es, validate raw = (None, es) /\ es <> [] /\ forall m, ~ manifest_ok raw m).
Proof.
  unfold validate. read_required dns_label; [intros; apply validateDNSLabel_spec|].
  destruct (rm_Apps raw) as [l|] eqn:El.
  2:{ right. eexists. split_and!; [done|by destruct es|]. intros m [_ (l & Hl & _) _]. congruence. }
  destruct l as [|a l].
  { right. eexists. split_and!; [done|by destruct es|]. intros m [_ (l & Hl & Hne & _) _]. congruence. }
  destruct (apps_spec (a :: l)) as (out & e2 & -> & Hx). case_decide as Hes; [left|right; eexists; split_and!; [done|done|]].
  - apply app_nil in Hes as [-> ->]. destruct Hv as [[_ Hv]|[? _]], Hx as [[_ [? ?]]|[? _]]; try done.
    eexists. split; [done|]. split; [done| |done]. by exists (a :: l).
  - intros m [Hn (l' & Hl & _ & Hf) Hnd]. destruct Hv as [[-> _]|[_ Hno]]; [|by apply (Hno (mf_Name m))].
    destruct Hx as [[-> _]|[_ Hno]]; [done|]. apply (Hno (mf_Apps m)). split; [congruence|done].
Qed.

Lemma parsed_ok `{ManifestYaml} data m : Parse data = Ok m -> exists raw, manifest_ok raw m.
Proof.
  unfold Parse. destruct (isBlank _); [done|]. destruct (unmarshalManifest _) as [raw|e]; [|done].
  destruct (validate_spec raw) as [(m' & -> & Hm)|(es & -> & _)]; [|done]. intros [= <-]. by exists raw.
Qed.

Lemma parsed_hostname `{ManifestYaml} data m app e : Parse data = Ok m -> app ∈ mf_Apps m -> e ∈ ap_External app -> hostname (ex_Host e).
Proof.
  intros [raw [_ (l & _ & _ & Hf) _]]%parsed_ok Ha He. apply list_elem_of_lookup in Ha as [i Hi].
  destruct (Forall2_lookup_r _ _ _ _ _ Hf Hi) as (ra & _ & [_ _ _ Hx]).
  destruct (ra_External ra) as [lx|]; [|rewrite Hx in He; by apply elem_of_nil in He].
  destruct Hx as [Hx _]. apply list_elem_of_lookup in He as [j Hj].
  by destruct (Forall2_lookup_r _ _ _ _ _ Hx Hj) as (re & _ & _ & ? & _).
Qed.

(** ** The property *)


(** A manifest with two faults: both are reported. *)
Example both_faults :
  let Y : ManifestYaml := fun _ => Ok (mkRawManifest (Some "shop") (Some
    [mkRawApp (Some "web") (Some "web/Containerfile") None
       (Some [mkRawExternal (Some "api.example.com") (Some "orders"); mkRawExternal (Some "10.0.0.1") (Some "db")]);
     mkRawApp (Some "web") (Some "../Containerfile") None None])) in
  Parse (H := Y) "name: shop" =
    Err [mkFieldError "apps[0].external[1].host" IsAddress; mkFieldError "apps[1].containerfile" ParentSegment;
         mkFieldError "apps[1].name" (DuplicateApp "web" 0)].
Proof. vm_compute. reflexivity. Qed.
