(* ===== verification/EgressPolicy.v ===== *)
(** * The egress policy document ([fatline/policy/policy.go])

    Which applications exist, what each may reach and the hash of the
    credential that identifies it.  The operator's machine writes the document,
    FatLine reads it: both sides are here. *)

From Stdlib Require Import Ascii.
From S2P Require Import Prelude Effect GoStrings Strconv Encoding Slices Net.
From S2P Require Import Keyring.
From S2P Require Manifest.

(** ** Data *)

Definition Version : Z := 1.
Definition CredentialBytes : Z := 32.

Record App := mkApp {
  a_Name : string;
  a_Namespace : string;
  a_CredentialSHA256 : string;
  a_External : list Manifest.External
}.

Record Document := mkDocument { d_Version : Z; d_Apps : list App }.

Inductive policy_error :=
| MintCredential (e : string)
| EncodePolicy (e : string)
| DecodePolicy (e : string)
| OtherVersion (v : Z)
| NoName (i : Z)
| NoNamespace (name : string)
| NoHash (tenant : string)
| SharedCredential (other tenant : string).

(** [sha256.Sum256]. *)
Class Sha256 := {
  Sum256 : string -> string;
  Sum256_length : forall s, len (Sum256 s) = 32
}.

(** [json.Unmarshal] and [json.MarshalIndent] of a document. *)
Class PolicyJson := {
  unmarshalPolicy : string -> result string Document;
  marshalPolicy : Document -> result string string
}.

(** ** Operations *)

Definition Tenant (a : App) : string := a_Namespace a +:+ "/" +:+ a_Name a.

Definition NewCredential {W} `{Entropy W} : eff W policy_error string :=
  b ← readRand CredentialBytes MintCredential; mret (HexEncodeToString b).

Definition lowerHex (c : Z) : bool := isDigit c || inRange 97 102 c.

Definition isSHA256Hex (s : string) : bool := (len s =? 64) && forallb lowerHex (bytes s).

Section hash.
Context `{Sha256}.

Definition HashCredential (credential : string) : string := HexEncodeToString (Sum256 credential).

(** Every entry is compared: the last match wins. *)
Definition Identify (d : Document) (credential : string) : option App :=
  if decide (credential = "") then None
  else
    let want := HashCredential credential in
    foldl (fun found app => if decide (a_CredentialSHA256 app = want) then Some app else found) None (d_Apps d).

End hash.

Definition ByTenant (d : Document) : gmap string (list Manifest.External) :=
  foldl (fun out app => <[Tenant app := a_External app]> out) ∅ (d_Apps d).

Definition stable (d : Document) : Document :=
  mkDocument Version (sort_slice (fun a b => string_ltb (Tenant a) (Tenant b)) (d_Apps d)).

(** One pass of [Parse]'s loop: the credentials seen, with the tenant each belongs to, and the index. *)
Definition checkApp (acc : gmap string string * Z) (app : App) : result policy_error (gmap string string * Z) :=
  let '(seen, i) := acc in
  if decide (a_Name app = "") then Err (NoName i)
  else if decide (a_Namespace app = "") then Err (NoNamespace (a_Name app))
  else if negb (isSHA256Hex (a_CredentialSHA256 app)) then Err (NoHash (Tenant app))
  else
    match seen !! a_CredentialSHA256 app with
    | Some other => Err (SharedCredential other (Tenant app))
    | None => Ok (<[a_CredentialSHA256 app := Tenant app]> seen, i + 1)
    end.

Section json.
Context `{PolicyJson}.

Definition Marshal (d : Document) : result policy_error string :=
  body ← wrapErr EncodePolicy (marshalPolicy (stable d)); Ok (body +:+ String "010" "").

Definition Parse (data : string) : result policy_error Document :=
  d ← wrapErr DecodePolicy (unmarshalPolicy data);
  if negb (d_Version d =? Version) then Err (OtherVersion (d_Version d))
  else _ ← foldM checkApp (∅, 0) (d_Apps d); Ok d.

End json.

(** The characters a name keeps in the userinfo of a URL; each other one becomes a hyphen. *)
Definition urlByte (c : Z) : bool :=
  Manifest.isLower c || Manifest.isUpper c || isDigit c || (c =? 45) || (c =? 46) || (c =? 95).

Definition urlSafe (s : string) : string := of_bytes (map (fun c => if urlByte c then c else 45) (bytes s)).

Definition ProxyURL (scheme host : string) (port : Z) (app credential : string) : string :=
  scheme +:+ "://" +:+ urlSafe app +:+ ":" +:+ credential +:+ "@" +:+ host +:+ ":" +:+ FormatInt port.

(** ** What a document promises *)

Definition app_named (a : App) : Prop :=
  a_Name a <> "" /\ a_Namespace a <> "" /\ isSHA256Hex (a_CredentialSHA256 a) = true.

(** Every application can be told from every other. *)
Record enforceable (d : Document) : Prop := {
  en_version : d_Version d = Version;
  en_apps : Forall app_named (d_Apps d);
  en_hashes : NoDup (map a_CredentialSHA256 (d_Apps d))
}.

Lemma checkApp_from l : forall seen i,
  (exists acc, foldM checkApp (seen, i) l = Ok acc) <->
  Forall app_named l /\ NoDup (map a_CredentialSHA256 l) /\ forall h, h ∈ map a_CredentialSHA256 l -> seen !! h = None.
Proof.
  induction l as [|a l IH]; intros seen i; cbn.
  { split; [intros _; split_and!; [done|constructor|set_solver]|eauto]. }
  rewrite Forall_cons, NoDup_cons. unfold app_named at 1.
  destruct (decide (a_Name a = "")); [split; [intros [acc [=]]|tauto]|].
  destruct (decide (a_Namespace a = "")); [split; [intros [acc [=]]|tauto]|].
  destruct (isSHA256Hex _); cbn; [|split; [intros [acc [=]]|intros [[(_ & _ & [=]) _] _]]].
  destruct (seen !! a_CredentialSHA256 a) as [o|] eqn:E.
  - split; [intros [acc [=]]|]. intros (_ & _ & Hs). rewrite Hs in E; [done|by left].
  - rewrite IH. split.
    + intros (Hf & Hn & Hs). split_and!; try done.
      * intros Hin. apply Hs in Hin. by rewrite lookup_insert_eq in Hin.
      * intros h [->|Hin]%elem_of_cons; [done|]. destruct (decide (h = a_CredentialSHA256 a)) as [->|]; [done|].
        apply Hs in Hin. by rewrite lookup_insert_ne in Hin.
    + intros ([_ Hf] & [Hnot Hn] & Hs). split_and!; [done|done|]. intros h Hin.
      rewrite lookup_insert_ne; [apply Hs; by right|]. by intros <-.
Qed.

Lemma Parse_exact `{PolicyJson} data d : Parse data = Ok d <-> unmarshalPolicy data = Ok d /\ enforceable d.
Proof.
  unfold Parse. destruct (unmarshalPolicy data) as [d'|e]; cbn; [|split; [done|by intros [? _]]].
  destruct (Z.eqb_spec (d_Version d') Version) as [Hv|Hv]; cbn.
  - pose proof (checkApp_from (d_Apps d') ∅ 0) as Hc. split.
    + destruct (foldM _ _ _) as [acc|]; [|done]. cbn. intros [= <-]. split; [done|].
      destruct Hc as [(Hf & Hn & _) _]; [eauto|]. by split.
    + intros [[= ->] [_ Hf Hn]]. destruct Hc as [_ [acc ->]]; [|done]. split_and!; [done|done|]. intros. apply lookup_empty.
  - split; [done|]. intros [[= ->] [? _ _]]. done.
Qed.

Lemma Identify_from `{Sha256} want l : forall found,
  foldl (fun found app => if decide (a_CredentialSHA256 app = want) then Some app else found) found l = found /\ want ∉ map a_CredentialSHA256 l \/
  exists a, foldl (fun found app => if decide (a_CredentialSHA256 app = want) then Some app else found) found l = Some a /\
    a ∈ l /\ a_CredentialSHA256 a = want.
Proof.
  induction l as [|a l IH]; intros found; cbn; [left; split; [done|set_solver]|].
  case_decide as Ha.
  - right. destruct (IH (Some a)) as [[-> _]|(b & -> & ? & ?)]; eexists; split_and!; try done; [by left|by right].
  - destruct (IH found) as [[-> ?]|(b & -> & ? & ?)]; [left|right; eexists; split_and!; try done; by right].
    split; [done|]. intros [?|?]%elem_of_cons; [congruence|done].
Qed.

(** The application of a credential, in a document whose hashes differ. *)
Lemma Identify_spec `{Sha256} d credential a : NoDup (map a_CredentialSHA256 (d_Apps d)) ->
  Identify d credential = Some a <->
  credential <> "" /\ a ∈ d_Apps d /\ a_CredentialSHA256 a = HashCredential credential.
Proof.
  intros Hn. unfold Identify. case_decide as Hc; [split; [done|tauto]|].
  destruct (Identify_from (HashCredential credential) (d_Apps d) None) as [[-> Hno]|(b & -> & Hb & Eb)].
  - split; [done|]. intros (_ & Ha & Ea). destruct Hno. rewrite <- Ea. by apply list_elem_of_fmap_2.
  - split; [intros [= <-]; done|]. intros (_ & Ha & Ea). f_equal.
    apply (NoDup_map_inj a_CredentialSHA256 (d_Apps d)); congruence.
Qed.

Lemma ByTenant_from l : forall (out : gmap string (list Manifest.External)) t,
  foldl (fun out app => <[Tenant app := a_External app]> out) out l !! t =
  match foldl (fun found app => if decide (Tenant app = t) then Some app else found) None l with
  | Some a => Some (a_External a)
  | None => out !! t
  end.
Proof.
  assert (forall l found t, foldl (fun found app => if decide (Tenant app = t) then Some app else found) found l =
    match foldl (fun found app => if decide (Tenant app = t) then Some app else found) None l with Some a => Some a | None => found end) as Hf.
  { intros l0. induction l0 as [|a l0 IH]; intros found t; [done|]. cbn. rewrite IH, (IH (if decide (Tenant a = t) then Some a else None)).
    destruct (foldl _ None l0); [done|]. by case_decide. }
  induction l as [|a l IH]; intros out t; [done|]. cbn. rewrite IH, (Hf l (if decide _ then _ else _)).
  destruct (foldl _ None l); [done|]. case_decide as Ha; [by rewrite Ha, lookup_insert_eq|by rewrite lookup_insert_ne].
Qed.

Lemma tenant_found l t : match foldl (fun found app => if decide (Tenant app = t) then Some app else found) None l with
  | Some a => a ∈ l /\ Tenant a = t
  | None => t ∉ map Tenant l
  end.
Proof.
  assert (forall l found, match foldl (fun found app => if decide (Tenant app = t) then Some app else found) found l with
    | Some a => (a ∈ l /\ Tenant a = t) \/ found = Some a
    | None => found = None /\ t ∉ map Tenant l end) as Hf.
  { intros l0. induction l0 as [|a l0 IH]; intros found; cbn; [destruct found; [by right|split; [done|apply not_elem_of_nil]]|].
    specialize (IH (if decide (Tenant a = t) then Some a else found)). destruct (foldl _ _ l0) as [b|].
    - destruct IH as [[? ?]|IH]; [left; split; [by right|done]|]. case_decide; [|by right]. injection IH as ->. left. split; [by left|done].
    - destruct IH as [IH ?]. case_decide; [done|]. split; [done|]. rewrite not_elem_of_cons. by split. }
  specialize (Hf l None). destruct (foldl _ None l); [|tauto]. by destruct Hf.
Qed.

(** What a tenant is enforced under, in a document whose tenants differ. *)
Lemma ByTenant_spec d a : NoDup (map Tenant (d_Apps d)) -> a ∈ d_Apps d -> ByTenant d !! Tenant a = Some (a_External a).
Proof.
  intros Hn Ha. unfold ByTenant. rewrite ByTenant_from. pose proof (tenant_found (d_Apps d) (Tenant a)) as Hf.
  destruct (foldl _ None _) as [b|].
  - destruct Hf as [Hb Eb]. do 2 f_equal.
    apply (NoDup_map_inj Tenant (d_Apps d)); congruence.
  - destruct Hf. by apply list_elem_of_fmap_2.
Qed.

Lemma ByTenant_none d t : t ∉ map Tenant (d_Apps d) -> ByTenant d !! t = None.
Proof.
  intros Hn. unfold ByTenant. rewrite ByTenant_from. pose proof (tenant_found (d_Apps d) t) as Hf.
  destruct (foldl _ None _) as [b|]; [|apply lookup_empty]. destruct Hf as [Hb <-]. destruct Hn. by apply list_elem_of_fmap_2.
Qed.

Lemma stable_perm d : d_Apps (stable d) ≡ₚ d_Apps d.
Proof. apply sort_slice_perm. Qed.

Lemma stable_sorted d : StronglySorted (fun a b => string_le (Tenant a) (Tenant b)) (d_Apps (stable d)).
Proof.
  apply sort_slice_strong; [intros a b; apply string_ltb_asym|done|].
  intros a b c. apply string_le_trans.
Qed.

(** The order of the applications does not show. *)
Lemma stable_unique d d' : d_Apps d ≡ₚ d_Apps d' -> NoDup (map Tenant (d_Apps d)) -> stable d = stable d'.
Proof.
  intros Hp Hn. assert (d_Apps (stable d) = d_Apps (stable d')) as E; [|unfold stable in *; cbn in E; by f_equal].
  eapply StronglySorted_unique_strong; [|apply stable_sorted|apply stable_sorted|by rewrite !stable_perm].
  intros a b Ha Hb Hab Hba. rewrite stable_perm in Ha. rewrite stable_perm, <- Hp in Hb.
  assert (Tenant a = Tenant b) as Ht by (by apply string_ltb_total).
  by apply (NoDup_map_inj Tenant (d_Apps d)).
Qed.

Lemma stable_enforceable d : enforceable (mkDocument Version (d_Apps d)) -> enforceable (stable d).
Proof.
  intros [_ Ha Hn]. cbn in *. split; [done|by rewrite stable_perm|by rewrite stable_perm].
Qed.

Lemma Identify_stable `{Sha256} d credential : NoDup (map a_CredentialSHA256 (d_Apps d)) ->
  Identify (stable d) credential = Identify d credential.
Proof.
  intros Hn. assert (NoDup (map a_CredentialSHA256 (d_Apps (stable d)))) as Hn' by (by rewrite stable_perm).
  apply option_eq. intros a. rewrite !Identify_spec by done. by rewrite stable_perm.
Qed.

Lemma ByTenant_stable d : NoDup (map Tenant (d_Apps d)) -> ByTenant (stable d) = ByTenant d.
Proof.
  intros Hn. assert (NoDup (map Tenant (d_Apps (stable d)))) as Hn' by (by rewrite stable_perm).
  apply map_eq. intros t. destruct (decide (t ∈ map Tenant (d_Apps d))) as [Ht|Ht].
  - apply list_elem_of_fmap in Ht as (a & -> & Ha). rewrite (ByTenant_spec d), (ByTenant_spec (stable d)); try done. by rewrite stable_perm.
  - rewrite !ByTenant_none; [done|done|by rewrite stable_perm].
Qed.

(** ** Minted credentials *)

Lemma hexEncode_lower bs : Forall (fun b => 0 <= b < 256) bs -> forallb lowerHex (hexEncode bs) = true /\ length (hexEncode bs) = (2 * length bs)%nat.
Proof.
  assert (forall v, 0 <= v < 16 -> lowerHex (hexDigit v) = true) as Hd.
  { intros v Hv. unfold lowerHex, hexDigit, isDigit, inRange. destruct (Z.ltb_spec v 10); lia. }
  induction 1 as [|b bs Hb _ [IH IHl]]; [done|].
  change (hexEncode (b :: bs)) with (hexDigit (b / 16) :: hexDigit (b mod 16) :: hexEncode bs). cbn.
  rewrite IH, IHl, !Hd; [split; [done|lia]| |].
  - apply Z.mod_pos_bound. lia.
  - split; [apply Z.div_pos; lia|apply Z.div_lt_upper_bound; lia].
Qed.

Lemma bytes_hex s : bytes (HexEncodeToString s) = hexEncode (bytes s).
Proof. unfold HexEncodeToString. apply bytes_of_bytes, hex_range, bytes_range. Qed.

Lemma len_hex s : len (HexEncodeToString s) = 2 * len s.
Proof. rewrite <- !len_bytes, bytes_hex. destruct (hexEncode_lower (bytes s) (bytes_range s)) as [_ ->]. lia. Qed.

Lemma hash_usable `{Sha256} c : isSHA256Hex (HashCredential c) = true.
Proof.
  unfold isSHA256Hex, HashCredential. rewrite len_hex, Sum256_length, bytes_hex. cbn.
  apply hexEncode_lower, bytes_range.
Qed.

Lemma NewCredential_shape {W} `{Entropy W} (w w' : W) c : NewCredential w = (Ok c, w') ->
  len c = 64 /\ forallb lowerHex (bytes c) = true.
Proof.
  intros E. apply bind_inv in E as (b & w1 & E1 & E). apply readRand_len in E1. injection E as <- _.
  rewrite len_hex, E1, bytes_hex. split; [done|]. apply hexEncode_lower, bytes_range.
Qed.

(** ** The properties *)

(** A document is enforced whole or not at all. [Parse] accepts exactly the documents of this build's version
    in which every application has a name, a namespace and the hash of a credential that no other application
    shares; and in a document it accepts, a credential identifies an application exactly when it is that
    application's: the empty credential and one whose hash is not listed identify nobody. *)
Theorem credentials_identify `{PolicyJson} `{Sha256} data d :
  (Parse data = Ok d <-> unmarshalPolicy data = Ok d /\ enforceable d) /\
  (Parse data = Ok d -> forall credential a, Identify d credential = Some a <->
     credential <> "" /\ a ∈ d_Apps d /\ a_CredentialSHA256 a = HashCredential credential).
Proof. split; [apply Parse_exact|]. intros [_ [_ _ Hn]]%Parse_exact credential a. by apply Identify_spec. Qed.

(** What the operator's machine writes, FatLine enforces. Of applications that can be told apart, each in a
    tenant of its own, the document that [Marshal] writes is accepted by [Parse], identifies the same application
    for every credential and declares the same hosts for every tenant; and the order the applications were given
    in leaves no trace in it, so an unchanged policy is an unchanged document. *)
Theorem policy_is_delivered `{PolicyJson} `{Sha256} d data :
  enforceable (mkDocument Version (d_Apps d)) -> NoDup (map Tenant (d_Apps d)) ->
  Marshal d = Ok data -> unmarshalPolicy data = Ok (stable d) ->
  (exists d', Parse data = Ok d' /\ ByTenant d' = ByTenant d /\
     forall credential, Identify d' credential = Identify d credential) /\
  forall d2, d_Apps d2 ≡ₚ d_Apps d -> Marshal d2 = Ok data.
Proof.
  intros Hd Ht Hm Hu. split.
  - exists (stable d). split_and!; [apply Parse_exact; split; [done|by apply stable_enforceable]|by apply ByTenant_stable|].
    intros. apply Identify_stable, Hd.
  - intros d2 Hp. unfold Marshal in *. by rewrite <- (stable_unique d d2).
Qed.

(** Two applications, and a toy codec that knows their document. *)
Definition exApp (name hash host : string) : App :=
  mkApp name "shop" (Join (repeat hash 64) "") [Manifest.mkExternal host "orders"].

Definition exPolicy : Document := mkDocument Version [exApp "web" "a" "api.example.com"; exApp "db" "b" "backup.example.com"].

Definition exJson : PolicyJson := {|
  unmarshalPolicy _ := Ok (stable exPolicy);
  marshalPolicy _ := Ok "policy"%string
|}.

Definition exHash : Sha256.
Proof. refine {| Sum256 s := of_bytes (take 32 (bytes s ++ repeat 0 32)) |}. intros s. rewrite len_of_bytes, length_take, length_app, repeat_length. lia. Defined.

Lemma exPolicy_enforceable : enforceable exPolicy.
Proof.
  split; [done|repeat constructor; done|]. apply (bool_decide_unpack _). vm_compute. exact I.
Qed.

Lemma policy_is_delivered_witness : exists d',
  Parse (H := exJson) ("policy" +:+ String "010" "") = Ok d' /\ ByTenant d' = ByTenant exPolicy.
Proof.
  destruct (policy_is_delivered (H := exJson) (H0 := exHash) exPolicy ("policy" +:+ String "010" "")) as [(d' & Hp & Hb & _) _].
  - apply exPolicy_enforceable.
  - apply (bool_decide_unpack _). vm_compute. exact I.
  - reflexivity.
  - reflexivity.
  - exists d'. by split.
Defined.

(** The second of two applications in one tenant. *)
Definition exShadow : Document := mkDocument Version [exApp "web" "a" "api.example.com"; exApp "web" "b" "backup.example.com"].

(** Two entries for one tenant are accepted, and then the later one's declarations are enforced for both
    credentials: the first application, though identified, is held to hosts that it did not declare and refused
    the ones it did. [Parse] looks for two applications that share a credential, not for two that share a tenant. *)
Theorem a_tenant_can_be_shadowed `{Sha256} c :
  c <> "" -> HashCredential c = Join (repeat "a"%string 64) "" ->
  enforceable exShadow /\
  exists a, Identify exShadow c = Some a /\ map Manifest.ex_Host (a_External a) = ["api.example.com"%string] /\
    (map Manifest.ex_Host <$> ByTenant exShadow !! Tenant a) = Some ["backup.example.com"%string].
Proof.
  intros Hc Hh. assert (NoDup (map a_CredentialSHA256 (d_Apps exShadow))) as Hn by (apply (bool_decide_unpack _); vm_compute; exact I).
  split; [by split; [|repeat constructor|]|]. exists (exApp "web" "a" "api.example.com").
  split_and!; [|done|by vm_compute]. apply Identify_spec; [done|]. rewrite Hh. split_and!; [done|by left|done].
Qed.

Definition exHashA : Sha256 := {| Sum256 _ := of_bytes (repeat 170 32); Sum256_length := fun _ => eq_refl |}.

Lemma a_tenant_can_be_shadowed_witness : enforceable exShadow /\ HashCredential (H := exHashA) "secret" = Join (repeat "a"%string 64) "".
Proof.
  assert (HashCredential (H := exHashA) "secret" = Join (repeat "a"%string 64) "") as Hh by (vm_compute; reflexivity).
  split; [|exact Hh]. apply (a_tenant_can_be_shadowed (H := exHashA) "secret"); [done|exact Hh].
Defined.
