(* ===== verification/Allowlist.v ===== *)
(** * The egress allowlist ([fatline/internal/allowlist/allowlist.go]) and the
      table of sessions ([fatline/internal/router/router.go])

    The hosts each tenant may reach, deny by default.  A snapshot is immutable;
    a reload publishes another in one step, so that a reader works on one or on
    the other. *)

From Stdlib Require Import Ascii.
From S2P Require Import Prelude GoStrings Slices Net.
From S2P Require Keyring.
From S2P Require Manifest.
From S2P Require EgressPolicy.

Abbreviation External := Manifest.External (only parsing).

(** ** Data *)

Definition defaultTenant : string := "".

Record Decision := mkDecision { de_Allowed : bool; de_Host : string; de_Reason : string }.

Record snapshot := mkSnapshot {
  sn_tenants : gmap string (gmap string string);
  sn_hosts : list External
}.

(** The published snapshot. *)
Record List := mkList { li_snap : snapshot }.

Definition ReasonNotInAllowlist : string := "not_in_allowlist".

(** ** Operations *)

(** An address, with optional brackets. *)
Definition isIP (host : string) : bool := ParseIP (TrimPrefix (TrimSuffix host "]") "[").

Section hosts.
Context `{CaseTables}.

Definition normalize (host : string) : string := TrimSuffix (ToLower (TrimSpace host)) ".".

(** The hosts of one tenant, each with its reason. *)
Definition hostsOf (decls : list External) : gmap string string :=
  foldl (fun hosts d =>
    let h := normalize (Manifest.ex_Host d) in
    if decide (h = "") then hosts else <[h := Manifest.ex_Reason d]> hosts) ∅ decls.

Definition build (byTenant : gmap string (list External)) : snapshot :=
  mkSnapshot (hostsOf <$> byTenant) (default [] (byTenant !! defaultTenant)).

Definition New (decls : list External) : List := mkList (build {[defaultTenant := decls]}).
Definition NewPerApp (byTenant : gmap string (list External)) : List := mkList (build byTenant).

(** The swap. *)
Definition Reload (l : List) (decls : list External) : List := mkList (build {[defaultTenant := decls]}).
Definition ReloadPerApp (l : List) (byTenant : gmap string (list External)) : List := mkList (build byTenant).

Definition Tenants (l : List) : list string := sort_strings (map_to_list (sn_tenants (li_snap l))).*1.

Definition tenantHosts (l : List) (tenant : string) : gmap string string := default ∅ (sn_tenants (li_snap l) !! tenant).

Definition HostsFor (l : List) (tenant : string) : list string := sort_strings (map_to_list (tenantHosts l tenant)).*1.

Definition Allow (l : List) (tenant host : string) : Decision :=
  let h := normalize host in
  if bool_decide (h = "") || isIP h then mkDecision false h ReasonNotInAllowlist
  else
    match tenantHosts l tenant !! h with
    | Some reason => mkDecision true h reason
    | None => mkDecision false h ReasonNotInAllowlist
    end.

Definition Allowed (l : List) (host : string) : Decision := Allow l defaultTenant host.

Definition Hosts (l : List) : list string :=
  filter (fun h => h <> ""%string) (map (fun d => normalize (Manifest.ex_Host d)) (sn_hosts (li_snap l))).

Definition Snapshot (l : List) : list External := sn_hosts (li_snap l).

(** ** Lookups *)

(** The last declaration of a host. *)
Definition declared (decls : list External) (h : string) : option External :=
  foldl (fun found d => if decide (normalize (Manifest.ex_Host d) = h) then Some d else found) None decls.

Lemma declared_from decls h : forall found,
  (exists d, foldl (fun found d => if decide (normalize (Manifest.ex_Host d) = h) then Some d else found) found decls = Some d /\
     d ∈ decls /\ normalize (Manifest.ex_Host d) = h) \/
  (foldl (fun found d => if decide (normalize (Manifest.ex_Host d) = h) then Some d else found) found decls = found /\
     forall d, d ∈ decls -> normalize (Manifest.ex_Host d) <> h).
Proof.
  induction decls as [|d decls IH]; intros found; cbn; [right; split; [done|]; by intros d ?%elem_of_nil|].
  case_decide as Hd.
  - left. destruct (IH (Some d)) as [(d' & -> & ? & ?)|[-> _]]; eexists; split_and!; try done; [by right|by left].
  - destruct (IH found) as [(d' & -> & ? & ?)|[-> Hno]]; [left; eexists; split_and!; try done; by right|right].
    split; [done|]. intros d' [->|?]%elem_of_cons; [done|by apply Hno].
Qed.

Lemma declared_spec decls h : match declared decls h with
  | Some d => d ∈ decls /\ normalize (Manifest.ex_Host d) = h
  | None => forall d, d ∈ decls -> normalize (Manifest.ex_Host d) <> h
  end.
Proof. unfold declared. destruct (declared_from decls h None) as [(d & -> & ? & ?)|[-> ?]]; done. Qed.

Lemma hostsOf_lookup decls h : h <> "" -> hostsOf decls !! h = Manifest.ex_Reason <$> declared decls h.
Proof.
  intros Hh. unfold hostsOf, declared. assert ((∅ : gmap string string) !! h = Manifest.ex_Reason <$> None) as Hi by (apply lookup_empty).
  revert Hi. generalize (∅ : gmap string string), (None : option External). induction decls as [|d decls IH]; intros m found Hi; cbn; [done|].
  apply IH. repeat case_decide; try congruence.
  - subst. by rewrite lookup_insert_eq.
  - by rewrite lookup_insert_ne.
Qed.

Lemma hostsOf_empty decls : hostsOf decls !! ""%string = None.
Proof.
  unfold hostsOf. assert ((∅ : gmap string string) !! ""%string = None) as Hi by (apply lookup_empty). revert Hi.
  generalize (∅ : gmap string string). induction decls as [|d decls IH]; intros m Hi; cbn; [done|].
  apply IH. case_decide; [done|]. by rewrite lookup_insert_ne.
Qed.

Lemma tenantHosts_perapp byTenant tenant : tenantHosts (NewPerApp byTenant) tenant = default ∅ (hostsOf <$> byTenant !! tenant).
Proof. unfold tenantHosts, NewPerApp, build. cbn. by rewrite lookup_fmap. Qed.

(** What is allowed is declared by the tenant itself, and nothing else is. *)
Lemma Allow_spec byTenant tenant host :
  Allow (NewPerApp byTenant) tenant host =
  match byTenant !! tenant with
  | Some decls =>
      match declared decls (normalize host) with
      | Some d => if bool_decide (normalize host = "") || isIP (normalize host) then mkDecision false (normalize host) ReasonNotInAllowlist
                  else mkDecision true (normalize host) (Manifest.ex_Reason d)
      | None => mkDecision false (normalize host) ReasonNotInAllowlist
      end
  | None => mkDecision false (normalize host) ReasonNotInAllowlist
  end.
Proof.
  unfold Allow. rewrite tenantHosts_perapp. destruct (byTenant !! tenant) as [decls|]; cbn.
  - case_bool_decide as He; [by destruct (declared _ _)|]. rewrite (hostsOf_lookup _ _ He).
    destruct (declared _ _), (isIP _); done.
  - rewrite lookup_empty. by destruct (_ || _).
Qed.

(** ** The hosts of a valid manifest *)

Lemma asciiLower_fix (P : Z -> bool) x : (forall c, 97 <= c <= 122 -> P c = false) -> P (asciiLower x) = true -> asciiLower x = x.
Proof.
  unfold asciiLower, inRange. intros HP. destruct ((65 <=? x) && (x <=? 90)) eqn:Hx; [|done]. rewrite HP; [done|lia].
Qed.

Lemma asciiLower_range b : 0 <= b < 256 -> 0 <= asciiLower b < 256.
Proof. unfold asciiLower, inRange. destruct ((65 <=? b) && (b <=? 90)) eqn:Hx; lia. Qed.

Lemma ipv4_bytes s : ipv4 s = true -> forallb (fun b => isDigit b || (b =? 46)) (bytes s) = true.
Proof.
  unfold ipv4. intros Hs. apply (Manifest.SplitByte_bytes isDigit ".").
  assert (forall o, octet o = true -> forallb isDigit (bytes o) = true) as Ho.
  { intros o. unfold octet. destruct (bytes o); [done|]. intros [[[? _]%andb_true_iff _]%andb_true_iff _]%andb_true_iff. done. }
  destruct (SplitByte "." s) as [|a [|b [|c [|d [|]]]]]; try done.
  rewrite !andb_true_iff in Hs. destruct Hs as (((? & ?) & ?) & ?). repeat constructor; by apply Ho.
Qed.

Lemma without_iff a s : without a s = true <-> Z.of_N (N_of_ascii a) ∉ bytes s.
Proof.
  unfold without, bytes. rewrite forallb_forall. split.
  - intros Hf (x & Ex & Hx)%list_elem_of_fmap. apply list_elem_of_In, Hf in Hx. apply N2Z.inj in Ex.
    apply (f_equal ascii_of_N) in Ex. rewrite !ascii_N_embedding in Ex. subst. by rewrite Ascii.eqb_refl in Hx.
  - intros Hn x Hx. destruct (Ascii.eqb_spec x a) as [->|]; [|done]. destruct Hn. by apply (list_elem_of_fmap_2 (fun a => Z.of_N (N_of_ascii a))), list_elem_of_In.
Qed.

Lemma TrimSuffix_none s c : Z.of_N (N_of_ascii c) ∉ bytes s -> TrimSuffix s (String c "") = s.
Proof.
  intros Hn. unfold TrimSuffix. destruct (CutSuffix s _) as [r|] eqn:Hc; [|done]. apply CutSuffix_spec in Hc as ->.
  destruct Hn. rewrite bytes_app, bytes_cons. set_solver.
Qed.

Lemma TrimPrefix_none s c : Z.of_N (N_of_ascii c) ∉ bytes s -> TrimPrefix s (String c "") = s.
Proof.
  intros Hn. unfold TrimPrefix. destruct (CutPrefix s _) as [r|] eqn:Hc; [|done]. apply CutPrefix_spec in Hc as ->.
  destruct Hn. rewrite cons_app, bytes_cons. by left.
Qed.

(** No label is empty, so no name ends in a dot, in lower case either. *)
Lemma lower_no_dot h s : Forall Manifest.host_label (SplitByte "." h) -> bytes s = map asciiLower (bytes h) -> TrimSuffix s "." = s.
Proof.
  intros Hl Hb. unfold TrimSuffix. destruct (CutSuffix s ".") as [r|] eqn:Hc; [|done]. apply CutSuffix_spec in Hc as ->. exfalso.
  rewrite bytes_app in Hb. destruct (bytes h) as [|x l _] eqn:Eh using rev_ind; [by destruct (bytes r)|].
  rewrite map_app in Hb. apply app_inj_tail in Hb as [_ Hx]. cbn in Hx.
  assert (x = 46) as ->. { unfold asciiLower, inRange in Hx. destruct ((65 <=? x) && (x <=? 90)) eqn:Hu; lia. }
  assert (h = of_bytes l +:+ ".") as ->.
  { rewrite <- (of_bytes_bytes h), Eh. unfold of_bytes. by rewrite map_app, string_of_app. }
  rewrite Manifest.SplitByte_end in Hl. apply Forall_app in Hl as [_ Hl]. apply Forall_cons in Hl as [[Hz _] _].
  change (len "") with 0 in Hz. lia.
Qed.

(** An address in lower case was one. *)
Lemma lower_no_address h s : ParseIP h = false -> bytes s = map asciiLower (bytes h) -> without ":" s = true -> without "%" s = true -> ParseIP s = false.
Proof.
  intros Hip Hb Hc Hp. destruct (ParseIP s) eqn:E; [|done]. rewrite <- Hip, <- E. f_equal.
  unfold ParseIP in E. destruct (addressKind_without s Hc Hp) as [Ek|Ek]; rewrite Ek in E; [|done].
  apply ipv4_bytes in E. rewrite <- (of_bytes_bytes s), <- (of_bytes_bytes h). f_equal. rewrite Hb in *.
  clear - E. induction (bytes h) as [|b l IH]; [done|]. cbn in *. apply andb_true_iff in E as [Eb E].
  rewrite IH, (asciiLower_fix (fun b => isDigit b || (b =? 46))); [done| |done|done].
  intros c Hr. unfold isDigit. lia.
Qed.

(** A valid host name is checked in lower case, is no address and says something. *)
Lemma hostname_normal h : Manifest.hostname h ->
  bytes (normalize h) = map asciiLower (bytes h) /\ normalize h <> "" /\ isIP (normalize h) = false.
Proof.
  intros Hh. pose proof (Manifest.hostname_nonempty h Hh) as Hne. destruct Hh as (Hl & _ & Hip).
  pose proof (Manifest.labels_bytes h Hl) as Hb. rewrite forallb_forall in Hb.
  assert (forall b, b ∈ bytes h -> 33 <= b < 128 /\ forall x, x ∈ [91; 93; 58; 37] -> asciiLower b <> x) as Hr.
  { intros b Hx. apply list_elem_of_In, Hb in Hx.
    unfold Manifest.hostByte, Manifest.isLower, Manifest.isUpper, isDigit, inRange, Manifest.hyphen in Hx.
    split; [lia|]. intros x Hin. unfold asciiLower, inRange. destruct ((65 <=? b) && (b <=? 90)) eqn:Hu; set_unfold in Hin; lia. }
  assert (TrimSpace h = h) as Ht.
  { unfold TrimSpace. rewrite trim_visible; [apply of_bytes_bytes|]. apply Forall_forall. intros b Hx. by apply Hr. }
  assert (bytes (ToLower h) = map asciiLower (bytes h)) as Hb'.
  { unfold ToLower. assert (isASCII h = true) as ->.
    { apply forallb_forall. intros b Hx. apply list_elem_of_In, Hr in Hx. lia. }
    apply bytes_of_bytes, Forall_map, (Forall_impl _ _ _ (bytes_range h)). intros b. apply asciiLower_range. }
  assert (forall x, x ∈ [91; 93; 58; 37] -> x ∉ bytes (ToLower h)) as Hno.
  { intros x Hx. rewrite Hb'. intros (b & -> & Hin)%list_elem_of_fmap. apply Hr in Hin as [_ Hin]. by apply (Hin _ Hx). }
  unfold normalize. rewrite Ht, (lower_no_dot h) by done. split_and!; [done| |].
  - intros E. rewrite E in Hb'. destruct (bytes h) eqn:Eh; [|done]. by apply Manifest.empty_bytes in Eh.
  - unfold isIP. rewrite TrimSuffix_none, TrimPrefix_none; [|apply Hno; set_solver|apply Hno; set_solver].
    apply (lower_no_address h); [done|done|apply without_iff, Hno; set_solver|apply without_iff, Hno; set_solver].
Qed.

(** It has no colon and no bracket. *)
Lemma hostname_split h : Manifest.hostname h -> without "[" h && without "]" h = true.
Proof.
  intros (Hl & _). pose proof (Manifest.labels_bytes h Hl) as Hb.
  by rewrite (Manifest.without_bytes _ "[" h Hb eq_refl), (Manifest.without_bytes _ "]" h Hb eq_refl).
Qed.

(** ** Status *)

Lemma HostsFor_spec l tenant h : h ∈ HostsFor l tenant <-> is_Some (tenantHosts l tenant !! h).
Proof.
  unfold HostsFor. rewrite sort_strings_perm. rewrite list_elem_of_fmap. split.
  - intros ([k v] & -> & Hkv). apply elem_of_map_to_list in Hkv. eauto.
  - intros [v Hv]. exists (h, v). split; [done|]. by apply elem_of_map_to_list.
Qed.

(** ** The properties *)

(** The allowlist denies by default. A tenant may reach a host exactly when the tenant is known and one of its
    own declarations names that host, up to case, surrounding space and one final dot; an address in any notation,
    the empty name, an unknown tenant and the host of another tenant are refused with the reason
    [not_in_allowlist]. What is allowed carries the reason of one of the declarations that name it, and the status
    lists the hosts of a tenant as they are enforced. A reload replaces every tenant's list at once: nothing of the
    old one is left. *)
Theorem deny_by_default l byTenant tenant host :
  let list := ReloadPerApp l byTenant in
  let d := Allow list tenant host in
  let declares e := exists decls, byTenant !! tenant = Some decls /\ e ∈ decls /\ normalize (Manifest.ex_Host e) = normalize host in
  de_Host d = normalize host /\
  (de_Allowed d = true <-> normalize host <> "" /\ isIP (normalize host) = false /\ exists e, declares e) /\
  (if de_Allowed d then exists e, declares e /\ de_Reason d = Manifest.ex_Reason e else de_Reason d = ReasonNotInAllowlist) /\
  (de_Allowed d = true <-> normalize host ∈ HostsFor list tenant /\ isIP (normalize host) = false).
Proof.
  cbn zeta. rewrite HostsFor_spec. change (ReloadPerApp l byTenant) with (NewPerApp byTenant). rewrite tenantHosts_perapp, Allow_spec.
  destruct (byTenant !! tenant) as [decls|].
  2:{ cbn. rewrite lookup_empty. split_and!; try done; (split; [done|]). - by intros (_ & _ & e & decls & ? & _). - by intros [[? ?] _]. }
  pose proof (declared_spec decls (normalize host)) as Hd. cbn. destruct (decide (normalize host = "")) as [He|He].
  { clear Hd. rewrite He, hostsOf_empty, bool_decide_eq_true_2 by done. cbn. destruct (declared decls _); cbn;
    (split_and!; [done|split; [done|by intros [? _]]|done|split; [done|by intros [[? ?] _]]]). }
  rewrite bool_decide_eq_false_2, hostsOf_lookup by done. cbn. destruct (declared decls _) as [e|]; cbn.
  - destruct Hd as [Hin Hn]. destruct (isIP _); cbn; (split_and!; try done).
    + split; [done|]. by intros (_ & ? & _).
    + split; [done|]. by intros [_ ?].
    + split; [intros _|done]. split_and!; [done|done|]. by exists e, decls.
    + exists e. split; [by exists decls|done].
  - split_and!; try done; (split; [done|]).
    + intros (_ & _ & e & decls' & [= <-] & Hin & Hn). by apply Hd in Hin.
    + by intros [[? ?] _].
Qed.

(** What the manifest declares is what FatLine permits. For an application of a parsed manifest, deployed with
    its declarations into a tenant of its own, every declared host is allowed, under its own spelling; and a host
    that is allowed is one that the application declared, up to case, space and a final dot. No request is checked
    against a list shared by the instance: the default tenant reaches nothing. *)
Theorem declared_hosts_are_allowed `{Manifest.ManifestYaml} data m app d a :
  Manifest.Parse data = Ok m -> app ∈ Manifest.mf_Apps m ->
  NoDup (map EgressPolicy.Tenant (EgressPolicy.d_Apps d)) -> a ∈ EgressPolicy.d_Apps d ->
  EgressPolicy.a_External a = Manifest.ap_External app ->
  let list := NewPerApp (EgressPolicy.ByTenant d) in
  (forall e, e ∈ Manifest.ap_External app -> de_Allowed (Allow list (EgressPolicy.Tenant a) (Manifest.ex_Host e)) = true) /\
  (forall host, de_Allowed (Allow list (EgressPolicy.Tenant a) host) = true ->
     exists e, e ∈ Manifest.ap_External app /\ normalize (Manifest.ex_Host e) = normalize host) /\
  (forall host, de_Allowed (Allowed list host) = false).
Proof.
  intros Hm Happ Hn Ha He. cbn zeta.
  pose proof (EgressPolicy.ByTenant_spec d a Hn Ha) as Ht. rewrite He in Ht. split_and!.
  - intros e Hin. pose proof (Manifest.parsed_hostname data m app e Hm Happ Hin) as Hh.
    apply hostname_normal in Hh as (_ & Hne & Hip). rewrite Allow_spec, Ht.
    pose proof (declared_spec (Manifest.ap_External app) (normalize (Manifest.ex_Host e))) as Hd.
    destruct (declared _ _); [|by destruct (Hd e)]. by rewrite Hip, bool_decide_eq_false_2.
  - intros host. rewrite Allow_spec, Ht.
    pose proof (declared_spec (Manifest.ap_External app) (normalize host)) as Hd.
    destruct (declared _ _) as [e|]; [|done]. intros _. by exists e.
  - intros host. unfold Allowed. rewrite Allow_spec, EgressPolicy.ByTenant_none; [done|].
    intros (x & Hx & _)%list_elem_of_fmap. unfold EgressPolicy.Tenant, defaultTenant in Hx.
    destruct (EgressPolicy.a_Namespace x); discriminate Hx.
Qed.

End hosts.

(** Tables without a letter outside ASCII, and a manifest with one host. *)
Definition exCase : CaseTables := {| lowerRune r := r; sameFold _ _ := false |}.

Definition exYaml : Manifest.ManifestYaml := fun _ =>
  Ok (Manifest.mkRawManifest (Some "shop"%string) (Some [Manifest.mkRawApp (Some "web"%string) (Some "web/Containerfile"%string) None
    (Some [Manifest.mkRawExternal (Some "API.example.com"%string) (Some "orders"%string)])])).

Definition exWeb : Manifest.App := Manifest.mkApp "web" "web/Containerfile" "" [Manifest.mkExternal "API.example.com" "orders"].

Definition exDocument : EgressPolicy.Document :=
  EgressPolicy.mkDocument 1 [EgressPolicy.mkApp "web" "shop" "" (Manifest.ap_External exWeb)].

Example allow_cases :
  map (fun h => de_Allowed (Allow (H := exCase) (NewPerApp (H := exCase) (EgressPolicy.ByTenant exDocument)) "shop/web" h))
    ["api.example.com"; "api.EXAMPLE.com."; "example.com"; "x.api.example.com"; "10.0.0.1"; "[::1]"; ""]%string
  = [true; true; false; false; false; false; false].
Proof. vm_compute. reflexivity. Qed.

Lemma declared_hosts_are_allowed_witness :
  de_Allowed (Allow (H := exCase) (NewPerApp (H := exCase) (EgressPolicy.ByTenant exDocument)) "shop/web" "API.example.com") = true.
Proof.
  assert (Manifest.Parse (H := exYaml) "apps" = Ok (Manifest.mkManifest "shop" [exWeb])) as Hp by (vm_compute; reflexivity).
  assert (NoDup (map EgressPolicy.Tenant (EgressPolicy.d_Apps exDocument))) as Hn by (apply (bool_decide_unpack _); vm_compute; exact I).
  destruct (declared_hosts_are_allowed (H := exCase) (H0 := exYaml) "apps" _ exWeb exDocument _ Hp
    (list_elem_of_here _ _) Hn (list_elem_of_here _ _) eq_refl) as [Hd _].
  apply (Hd (Manifest.mkExternal "API.example.com" "orders")). by left.
Defined.

(** ** The table of tunnel sessions *)

Module Router.

Inductive ConnState := StateNew | StateActive | StateIdle | StateHijacked | StateClosed.

Section table.
Context {Conn : Type} `{Countable Conn}.

Record Table := mkTable { t_active : gset Conn }.

Definition NewTable : Table := mkTable ∅.
Definition Add (t : Table) (c : Conn) : Table := mkTable ({[c]} ∪ t_active t).
Definition Remove (t : Table) (c : Conn) : Table := mkTable (t_active t ∖ {[c]}).
Definition Active (t : Table) : Z := Z.of_nat (size (t_active t)).

(** The hook of the server. *)
Definition onState (t : Table) (c : Conn) (s : ConnState) : Table :=
  match s with
  | StateNew => Add t c
  | StateHijacked | StateClosed => Remove t c
  | _ => t
  end.

(** A connection is counted from its [StateNew] until it is hijacked or closed. *)
Definition lives (c : Conn) (b : bool) (e : Conn * ConnState) : bool :=
  if decide (e.1 = c) then match e.2 with StateNew => true | StateHijacked | StateClosed => false | _ => b end else b.

Definition live (trace : list (Conn * ConnState)) (c : Conn) : bool := foldl (lives c) false trace.

Definition run (trace : list (Conn * ConnState)) : Table := foldl (fun t '(c, s) => onState t c s) NewTable trace.

Lemma run_active trace c : c ∈ t_active (run trace) <-> live trace c = true.
Proof.
  unfold run, live. assert (c ∈ t_active NewTable <-> false = true) as Hi by (cbn; set_solver). revert Hi.
  generalize NewTable, false. induction trace as [|[c' s] trace IH]; intros t b Hi; [done|]. cbn. apply IH. unfold lives. cbn.
  destruct (decide (c' = c)) as [->|Hne]; destruct s; cbn; rewrite ?elem_of_union, ?elem_of_difference, ?elem_of_singleton; naive_solver.
Qed.

End table.

Arguments Table Conn {_ _}.

(** However the connections interleave, as many are active as are live. *)
Lemma active_counts_the_live {Conn} `{Countable Conn} (trace : list (Conn * ConnState)) (conns : gset Conn) :
  (forall c, c ∈ conns <-> live trace c = true) -> Active (run trace) = Z.of_nat (size conns).
Proof. intros Hc. unfold Active. do 2 f_equal. apply set_eq. intros c. by rewrite run_active, Hc. Qed.

End Router.
