(* ===== verification/Event.v ===== *)
(** * Egress events ([fatline/event/event.go])

    The record of every decision, and the buffer that keeps a slow consumer off
    the data plane's path: it drops rather than waits, and counts what it drops. *)

From S2P Require Import Prelude GoStrings.

(** ** Data *)

Inductive Kind := KAllow | KDeny | KClose | KFail.

#[export] Instance Kind_eq_dec : EqDecision Kind.
Proof. solve_decision. Defined.

Definition ReasonNotInAllowlist : string := "not_in_allowlist".
Definition ReasonCleartext : string := "cleartext_not_allowed".
Definition ReasonSNIMismatch : string := "sni_mismatch".
Definition ReasonDialFailed : string := "dial_failed".
Definition ReasonUnknownApp : string := "unknown_app".

Record Event := mkEvent {
  ev_Kind : Kind;
  ev_Tenant : string;
  ev_App : string;
  ev_Host : string;
  ev_Port : string;
  ev_Proto : string;
  ev_SNI : string;
  ev_Reason : string;
  ev_BytesUp : Z;
  ev_BytesDown : Z;
  ev_DialMillis : Z;
  ev_DurationMillis : Z
}.

#[export] Instance Event_eq_dec : EqDecision Event.
Proof. solve_decision. Defined.

(** A decision, before any measure. *)
Definition event (kind : Kind) (tenant app host port proto sni reason : string) : Event :=
  mkEvent kind tenant app host port proto sni reason 0 0 0 0.

Inductive level := LevelInfo | LevelWarn.

Definition logLevel (e : Event) : level := match ev_Kind e with KDeny | KFail => LevelWarn | _ => LevelInfo end.

(** ** Sinks *)

(** [Tee]: every sink that is not nil, in order; a sink is what it does to a state. *)
Definition TeeEmit {S} (t : list (option (Event -> S -> S))) (e : Event) (s : S) : S :=
  foldl (fun s sink => match sink with Some emit => emit e s | None => s end) s t.

Record BufferedSink := mkBufferedSink {
  bs_out : list Event;              (* what the wrapped sink received *)
  bs_ch : list Event;
  bs_cap : nat;
  bs_dropped : Z;
  bs_lastReported : Z;
  bs_reports : list (Z * Z)         (* dropped since the last report, dropped in all *)
}.

Definition defaultBuffer : nat := 1024.

Definition NewBufferedSink (buffer : Z) : BufferedSink :=
  mkBufferedSink [] [] (if buffer <=? 0 then defaultBuffer else Z.to_nat buffer) 0 0 [].

Definition Emit (e : Event) (b : BufferedSink) : BufferedSink :=
  if decide (length (bs_ch b) < bs_cap b)%nat
  then mkBufferedSink (bs_out b) (bs_ch b ++ [e]) (bs_cap b) (bs_dropped b) (bs_lastReported b) (bs_reports b)
  else mkBufferedSink (bs_out b) (bs_ch b) (bs_cap b) (i64 (bs_dropped b + 1)) (bs_lastReported b) (bs_reports b).

Definition deliver (b : BufferedSink) : BufferedSink :=
  match bs_ch b with
  | [] => b
  | e :: ch => mkBufferedSink (bs_out b ++ [e]) ch (bs_cap b) (bs_dropped b) (bs_lastReported b) (bs_reports b)
  end.

Definition drain (b : BufferedSink) : BufferedSink :=
  mkBufferedSink (bs_out b ++ bs_ch b) [] (bs_cap b) (bs_dropped b) (bs_lastReported b) (bs_reports b).

Definition report (b : BufferedSink) : BufferedSink :=
  let d := bs_dropped b in
  if bs_lastReported b <? d
  then mkBufferedSink (bs_out b) (bs_ch b) (bs_cap b) d d (bs_reports b ++ [(d - bs_lastReported b, d)])
  else b.

(** The steps of the data plane, which emits, and of [Run]'s loop: it delivers, reports on the tick, and on
    cancellation flushes what remains and reports. *)
Inductive sink_step := SEmit (e : Event) | SDeliver | STick | SCancel.

Definition sinkStep (b : BufferedSink) (s : sink_step) : BufferedSink :=
  match s with
  | SEmit e => Emit e b
  | SDeliver => deliver b
  | STick => report b
  | SCancel => report (drain b)
  end.

Definition sinkRun (b : BufferedSink) (l : list sink_step) : BufferedSink := foldl sinkStep b l.

Definition emitted (l : list sink_step) : list Event := omap (fun s => match s with SEmit e => Some e | _ => None end) l.

(** ** Nothing disappears *)

Lemma whole_sublist {A} (l k : list A) : l `sublist_of` k -> (length k <= length l)%nat -> l = k.
Proof.
  induction 1 as [|x l k Hs IH|x l k Hs IH]; cbn; intros Hl; [done| |].
  - f_equal. apply IH. lia.
  - apply sublist_length in Hs. lia.
Qed.

(** After [es] were emitted. *)
Record sink_ok (cap : nat) (es : list Event) (b : BufferedSink) : Prop := {
  so_cap : bs_cap b = cap;
  so_bound : (length (bs_ch b) <= cap)%nat;
  so_order : bs_out b ++ bs_ch b `sublist_of` es;
  so_count : Z.of_nat (length (bs_out b)) + Z.of_nat (length (bs_ch b)) + bs_dropped b = Z.of_nat (length es);
  so_dropped : 0 <= bs_dropped b;
  so_room : 0 < bs_dropped b -> (cap <= length (bs_out b) + length (bs_ch b))%nat;
  so_reports : bs_lastReported b = foldr Z.add 0 (map fst (bs_reports b)) /\ bs_lastReported b <= bs_dropped b
}.

Lemma report_ok cap es b : sink_ok cap es b -> sink_ok cap es (report b) /\ bs_lastReported (report b) = bs_dropped (report b).
Proof.
  intros [Hc Hb Ho Hn Hd Hm [Hr Hl]]. unfold report. destruct (Z.ltb_spec (bs_lastReported b) (bs_dropped b)).
  - split; [|done]. split; try done. cbn. split; [|lia]. rewrite map_app, foldr_app. cbn. clear Hl.
    assert (forall l z, foldr Z.add z l = foldr Z.add 0 l + z) as Hf by (intros l; induction l as [|x l IH]; intros z; cbn; [lia|rewrite IH; lia]).
    rewrite Hf. lia.
  - split; [by split|lia].
Qed.

Lemma sinkStep_ok cap es b s : Z.of_nat (length es) < 2 ^ 63 - 1 -> sink_ok cap es b -> sink_ok cap (es ++ emitted [s]) (sinkStep b s).
Proof.
  intros Hmax Hok. destruct s as [e| | |]; cbn; rewrite ?app_nil_r.
  - destruct Hok as [Hc Hb Ho Hn Hd Hm Hr]. unfold Emit. case_decide as Hl; split; cbn; rewrite ?length_app; cbn; try done; try lia.
    + rewrite app_assoc. by apply sublist_app.
    + by apply sublist_inserts_r.
    + rewrite i64_small by lia. lia.
    + rewrite i64_small by lia. lia.
    + rewrite i64_small by lia. split; [tauto|]. lia.
  - destruct Hok as [Hc Hb Ho Hn Hd Hm Hr]. unfold deliver. destruct (bs_ch b) as [|e ch] eqn:E; split; cbn in *; rewrite ?E, ?length_app; cbn; try done; try lia.
    by rewrite <- app_assoc.
  - by apply report_ok.
  - apply report_ok. destruct Hok as [Hc Hb Ho Hn Hd Hm Hr]. split; cbn; rewrite ?app_nil_r, ?length_app; try done; lia.
Qed.

Lemma sinkRun_ok cap l : forall es b, Z.of_nat (length es + length l) < 2 ^ 63 - 1 -> sink_ok cap es b -> sink_ok cap (es ++ emitted l) (sinkRun b l).
Proof.
  induction l as [|s l IH]; intros es b Hmax Hok; [cbn; by rewrite app_nil_r|]. cbn in Hmax. change (sinkRun b (s :: l)) with (sinkRun (sinkStep b s) l).
  assert (length (emitted [s]) <= 1)%nat by (destruct s; cbn; lia).
  replace (es ++ emitted (s :: l)) with ((es ++ emitted [s]) ++ emitted l) by (rewrite <- app_assoc; by destruct s).
  apply IH; [rewrite length_app; lia|]. apply sinkStep_ok; [lia|done].
Qed.

(** ** The property *)

(** C24: the buffer never blocks and never lies. Whatever the order of emissions, deliveries, ticks and the
    cancellation, every emitted event is delivered, waiting or counted as dropped; what is delivered keeps the
    order of emission; at most the buffer's size waits, and as many events as it has room for are never dropped;
    and a cancellation leaves nothing waiting and every drop reported. *)
Theorem buffered_sink_accounts_for_every_event buffer l :
  Z.of_nat (length l) < 2 ^ 63 - 1 ->
  let b := sinkRun (NewBufferedSink buffer) l in
  let stopped := sinkStep b SCancel in
  bs_out b ++ bs_ch b `sublist_of` emitted l /\
  Z.of_nat (length (bs_out b)) + Z.of_nat (length (bs_ch b)) + bs_dropped b = Z.of_nat (length (emitted l)) /\
  (length (bs_ch b) <= bs_cap (NewBufferedSink buffer))%nat /\
  ((length (emitted l) <= bs_cap (NewBufferedSink buffer))%nat -> bs_out b ++ bs_ch b = emitted l) /\
  bs_ch stopped = [] /\ bs_out stopped = bs_out b ++ bs_ch b /\ foldr Z.add 0 (map fst (bs_reports stopped)) = bs_dropped b.
Proof.
  intros Hmax b stopped.
  assert (sink_ok (bs_cap (NewBufferedSink buffer)) ([] ++ emitted l) b) as Hok.
  { apply sinkRun_ok; [cbn; lia|]. split; cbn; try done. lia. }
  rewrite app_nil_l in Hok.
  destruct (report_ok (bs_cap (NewBufferedSink buffer)) (emitted l) (drain b)) as [[_ _ _ _ _ _ [Hr _]] Hlast].
  { destruct Hok as [Hc Hb Ho Hn Hd Hm Hr]. revert Hc Hb Hm. generalize (bs_cap (NewBufferedSink buffer)). intros cap Hc Hb Hm.
    split; cbn; rewrite ?app_nil_r, ?length_app; try done; lia. }
  destruct Hok as [Hc Hb Ho Hn Hd Hm _]. split_and!; try done.
  - intros H0. apply whole_sublist; [done|]. rewrite length_app. destruct (decide (0 < bs_dropped b)) as [Hp|]; [apply Hm in Hp|]; lia.
  - unfold stopped, sinkStep, report. cbn. by destruct (_ <? _).
  - unfold stopped, sinkStep, report. cbn. by destruct (_ <? _).
  - unfold stopped. change (sinkStep b SCancel) with (report (drain b)). rewrite <- Hr, Hlast. unfold report. cbn. by destruct (_ <? _).
Qed.

Definition exFlood : list sink_step :=
  [SEmit (event KDeny "ns" "web" "a" "443" "connect" "" ReasonNotInAllowlist);
   SEmit (event KDeny "ns" "web" "b" "443" "connect" "" ReasonNotInAllowlist); SDeliver; STick;
   SEmit (event KDeny "ns" "web" "c" "443" "connect" "" ReasonNotInAllowlist)].

Lemma buffered_sink_accounts_for_every_event_witness :
  let b := sinkRun (NewBufferedSink 1) exFlood in
  map ev_Host (bs_out b ++ bs_ch b) = ["a"; "c"]%string /\ bs_dropped b = 1 /\ bs_ch (sinkStep b SCancel) = [].
Proof.
  split_and!; [reflexivity|reflexivity|].
  destruct (buffered_sink_accounts_for_every_event 1 exFlood) as (_ & _ & _ & _ & Hc & _); [vm_compute; reflexivity|exact Hc].
Defined.
