(* ===== verification/Proxy.v ===== *)
(** * The egress proxy ([fatline/internal/proxy/proxy.go], [internal/netcopy])

    A request is answered by a list of actions, in the order the handler takes
    them: events, answers, dials and relays.  What the network and the runtime
    answer is a record, [Net]; reading a ClientHello is the parameter
    [ClientHello], the library's. *)

From Stdlib Require Import Ascii.
From S2P Require Import Prelude GoStrings Strconv Encoding Slices Net Event.
From S2P Require Import Allowlist.
From S2P Require EgressPolicy.

(** ** Data *)

Record Caller := mkCaller { c_Tenant : string; c_Namespace : string; c_App : string }.

Definition noCaller : Caller := mkCaller "" "" "".

Record Proxy := mkProxy {
  px_allow : List;
  px_enforceSNI : bool;
  px_identify : string -> option Caller
}.

Record Options := mkOptions {
  o_Allowlist : List;
  o_EnforceSNI : bool;
  o_Identify : option (string -> option Caller)
}.

Record Request := mkRequest {
  rq_Method : string;
  rq_Host : string;
  rq_URLHost : option string;           (* the URL's host, of a request with a URL *)
  rq_ProxyAuthorization : string
}.

Inductive action :=
| Emitted (e : Event)
| Replied (status : Z) (authenticate : bool)
| Hijacked
| Established
| Dialled (addr : string)
| Relayed (up down : string).

#[export] Instance action_eq_dec : EqDecision action.
Proof. solve_decision. Defined.

(** What the server, the client and the upstream do during one request; durations in nanoseconds. *)
Record Net := mkNet {
  n_hijacker : bool;
  n_hijacks : bool;
  n_writes : bool;                      (* the client takes the 200 *)
  n_stream : string;                    (* all the client sends after it *)
  n_dials : string -> bool;
  n_dialTime : Z;
  n_upTakes : Z;                        (* bytes the upstream takes before it fails *)
  n_downstream : string;                (* all the upstream sends *)
  n_downTakes : Z;
  n_openTime : Z
}.

(** [crypto/tls]: the server name in what the client sends, and the bytes read to find it. *)
Class ClientHello := hello : string -> string * Z.

(** ** Reading a request *)

Definition authority (s defPort : string) : string * string :=
  if decide (s = "") then (""%string, defPort)
  else match SplitHostPort s with Some hp => hp | None => (TrimSpace s, defPort) end.

Definition plainHost (r : Request) : string :=
  match rq_URLHost r with
  | Some h => if decide (h = "") then rq_Host r else h
  | None => rq_Host r
  end.

Definition millisSince (d : Z) : Z := if d <=? 0 then 0 else i64 (d + 999999) ÷ 1000000.

(** [Duplex]: what reaches the upstream and the client; the counts reported are their lengths. *)
Definition Duplex (n : Net) (clientSrc : string) : string * string :=
  (slice clientSrc 0 (n_upTakes n), slice (n_downstream n) 0 (n_downTakes n)).

Definition peekSNI `{ClientHello} (stream : string) : string * string :=
  let '(sni, read) := hello stream in (sni, slice stream 0 read).

(** What a reader finds after [buffered] was read from it. *)
Definition rest (stream buffered : string) : string := after stream (len buffered).

Lemma buffered_rest s n : slice s 0 n +:+ rest s (slice s 0 n) = s.
Proof.
  unfold rest, slice, after, len. rewrite Z.sub_0_r, Nat2Z.id. cbn [Z.to_nat sdrop]. rewrite length_stake. generalize (Z.to_nat n). clear n. intros n.
  destruct (Nat.le_ge_cases n (String.length s)).
  - rewrite Nat.min_l by done. apply stake_sdrop.
  - rewrite Nat.min_r by done. rewrite <- (stake_sdrop (String.length s) s) at 4. f_equal.
    revert n H. induction s as [|c s IH]; intros [|n] Hn; cbn in *; try done; try lia. f_equal. apply IH. lia.
Qed.

Section handler.
Context `{CaseTables} `{ClientHello}.

Definition credentialFrom (r : Request) : string :=
  match cutByte " " (rq_ProxyAuthorization r) with
  | None => ""
  | Some (scheme, encoded) =>
      if negb (EqualFold scheme "basic") then ""
      else
        match Base64DecodeString (TrimSpace encoded) with
        | None => ""
        | Some raw => match cutByte ":" raw with Some (_, credential) => credential | None => "" end
        end
  end.

(** ** The handler *)

Definition New (o : Options) : Proxy :=
  mkProxy (o_Allowlist o) (o_EnforceSNI o) (match o_Identify o with Some f => f | None => fun _ => None end).

Definition handlePlain (p : Proxy) (r : Request) : list action :=
  let '(host, port) := authority (plainHost r) "80" in
  let caller := default noCaller (px_identify p (credentialFrom r)) in
  [Emitted (event KDeny (c_Namespace caller) (c_App caller) host port "http" "" ReasonCleartext); Replied 403 false].

(** After the ClientHello: the dial, and the relay. *)
Definition connect (p : Proxy) (n : Net) (caller : Caller) (host port : string) : list action :=
  let '(sni, buffered) := peekSNI (n_stream n) in
  let ev kind := event kind (c_Namespace caller) (c_App caller) host port "connect" sni in
  if px_enforceSNI p && negb (bool_decide (sni = "")) && negb (EqualFold sni host)
  then [Emitted (ev KDeny ReasonSNIMismatch)]
  else
    let addr := JoinHostPort host port in
    let dialMillis := millisSince (n_dialTime n) in
    Dialled addr ::
      if negb (n_dials n addr)
      then [Emitted (mkEvent KFail (c_Namespace caller) (c_App caller) host port "connect" sni ReasonDialFailed 0 0 dialMillis 0)]
      else
        let '(up, down) := Duplex n (buffered +:+ rest (n_stream n) buffered) in
        [Relayed up down;
         Emitted (mkEvent KClose (c_Namespace caller) (c_App caller) host port "connect" sni "" (len up) (len down)
                    dialMillis (millisSince (n_openTime n)))].

Definition handleConnect (p : Proxy) (n : Net) (r : Request) : list action :=
  let '(host, port) := authority (rq_Host r) "443" in
  match px_identify p (credentialFrom r) with
  | None => [Emitted (event KDeny "" "" host port "connect" "" ReasonUnknownApp); Replied 407 true]
  | Some caller =>
      let d := Allow (px_allow p) (c_Tenant caller) host in
      let ev kind := Emitted (event kind (c_Namespace caller) (c_App caller) host port "connect" "" (de_Reason d)) in
      if negb (de_Allowed d) then [ev KDeny; Replied 403 false]
      else ev KAllow ::
        if negb (n_hijacker n) then [Replied 500 false]
        else Hijacked ::
          if negb (n_hijacks n) then []
          else Established :: if negb (n_writes n) then [] else connect p n caller host port
  end.

Definition ServeHTTP (p : Proxy) (n : Net) (r : Request) : list action :=
  if decide (rq_Method r = "CONNECT"%string) then handleConnect p n r else handlePlain p r.

(** ** Shapes of a run *)

Definition who (p : Proxy) (r : Request) : Caller := default noCaller (px_identify p (credentialFrom r)).
Definition target (r : Request) : string * string :=
  if decide (rq_Method r = "CONNECT"%string) then authority (rq_Host r) "443" else authority (plainHost r) "80".

Definition dials : list action -> list string := omap (fun a => match a with Dialled addr => Some addr | _ => None end).
Definition events : list action -> list Event := omap (fun a => match a with Emitted e => Some e | _ => None end).
Definition decides (e : Event) : bool := match ev_Kind e with KAllow | KDeny => true | _ => false end.

(** The dial and the relay of a tunnel. *)
Lemma connect_cases p n caller host port :
  let sni := (peekSNI (n_stream n)).1 in
  let ev kind reason up down dial dur := Emitted (mkEvent kind (c_Namespace caller) (c_App caller) host port "connect" sni reason up down dial dur) in
  (connect p n caller host port = [ev KDeny ReasonSNIMismatch 0 0 0 0] /\ px_enforceSNI p = true /\ sni <> "" /\ EqualFold sni host = false) \/
  ((px_enforceSNI p = true -> sni = "" \/ EqualFold sni host = true) /\
   ((exists d, connect p n caller host port = [Dialled (JoinHostPort host port); ev KFail ReasonDialFailed 0 0 d 0] /\
       n_dials n (JoinHostPort host port) = false) \/
    exists d o, let '(up, down) := Duplex n (n_stream n) in
      connect p n caller host port =
        [Dialled (JoinHostPort host port); Relayed up down; ev KClose ""%string (len up) (len down) d o] /\
      n_dials n (JoinHostPort host port) = true)).
Proof.
  unfold connect. destruct (hello (n_stream n)) as [sni read] eqn:Eh. unfold peekSNI. rewrite Eh. cbn zeta. cbn [fst].
  destruct (px_enforceSNI p && negb (bool_decide (sni = "")) && negb (EqualFold sni host)) eqn:Ec.
  - left. rewrite !andb_true_iff, !negb_true_iff in Ec. destruct Ec as [[? Hs] ?]. apply bool_decide_eq_false in Hs. done.
  - right. split.
    { intros Hp. rewrite Hp in Ec. cbn in Ec. case_bool_decide; [by left|right]. cbn in Ec. by destruct (EqualFold sni host). }
    assert (slice (n_stream n) 0 read +:+ rest (n_stream n) (slice (n_stream n) 0 read) = n_stream n) as ->.
    { apply buffered_rest. }
    destruct (n_dials n _); cbn; [right|left]; eauto.
Qed.

Lemma Allow_allowed l tenant host : de_Allowed (Allow l tenant host) = true ->
  Allow l tenant host = mkDecision true (normalize host) (de_Reason (Allow l tenant host)).
Proof. unfold Allow. cbn zeta. destruct (_ || _); [done|]. by destruct (tenantHosts l tenant !! normalize host). Qed.

(** Where an allowed CONNECT stops. *)
Lemma handleConnect_cases p n r :
  let '(host, port) := authority (rq_Host r) "443" in
  match px_identify p (credentialFrom r) with
  | None => handleConnect p n r = [Emitted (event KDeny "" "" host port "connect" "" ReasonUnknownApp); Replied 407 true]
  | Some caller =>
      let d := Allow (px_allow p) (c_Tenant caller) host in
      let ev kind := Emitted (event kind (c_Namespace caller) (c_App caller) host port "connect" "" (de_Reason d)) in
      (de_Allowed d = false /\ handleConnect p n r = [ev KDeny; Replied 403 false]) \/
      (de_Allowed d = true /\
       (handleConnect p n r = ev KAllow :: [Replied 500 false] \/ handleConnect p n r = ev KAllow :: [Hijacked] \/
        handleConnect p n r = ev KAllow :: [Hijacked; Established] \/
        handleConnect p n r = ev KAllow :: Hijacked :: Established :: connect p n caller host port))
  end.
Proof.
  unfold handleConnect. destruct (authority (rq_Host r) "443") as [host port].
  destruct (px_identify p (credentialFrom r)) as [caller|]; [|done]. cbn zeta.
  destruct (de_Allowed _); cbn [negb]; [right; split; [done|]|by left].
  destruct (n_hijacker n); cbn [negb]; [|by left]. destruct (n_hijacks n); cbn [negb]; [|by right; left].
  destruct (n_writes n); cbn [negb]; [by right; right; right|by right; right; left].
Qed.

Lemma authority_split s d host port : SplitHostPort s = Some (host, port) -> authority s d = (host, port).
Proof. intros Hs. unfold authority. rewrite Hs. by case_decide; [subst|]. Qed.

Lemma slice_prefix s n : exists more, s = slice s 0 n +:+ more.
Proof. unfold slice. cbn [Z.to_nat sdrop]. eexists. symmetry. apply stake_sdrop. Qed.

(** What a dial needs. *)
Lemma dial_needs p n r :
  match dials (ServeHTTP p n r) with
  | [] => True
  | addr :: others =>
      let '(host, port) := authority (rq_Host r) "443" in
      exists caller, px_identify p (credentialFrom r) = Some caller /\
        de_Allowed (Allow (px_allow p) (c_Tenant caller) host) = true /\ addr = JoinHostPort host port /\ others = []
  end.
Proof.
  unfold ServeHTTP. case_decide; [|unfold handlePlain; by destruct (authority (plainHost r) "80")].
  pose proof (handleConnect_cases p n r) as Hc. destruct (authority (rq_Host r) "443") as [host port].
  destruct (px_identify p (credentialFrom r)) as [caller|]; [|by rewrite Hc]. cbn zeta in Hc.
  destruct Hc as [[_ ->]|[Hd Hc]]; [done|]. destruct Hc as [->|[->|[->| ->]]]; [done..|].
  destruct (connect_cases p n caller host port) as [[-> _]|[_ [(x & -> & _)|(x & o & [-> _])]]]; [done| |]; by exists caller.
Qed.

(** ** The properties *)

(** C5: egress is denied by default. FatLine dials an upstream for a request only if the request is a CONNECT,
    its credential identifies an application, the host it asks for is in that application's own allowlist, and the
    TLS server name the client sends, when there is one, is that host. It then dials that host and that port and
    nothing else, once, and only after the Allow event that names the application; a host and port given with the
    request are the ones the dialled address splits into; and what reaches the upstream is the client's own bytes
    from the first, the ClientHello that was looked at included, unchanged. *)
Theorem egress_is_deny_by_default p n r :
  match dials (ServeHTTP p n r) with
  | [] => True
  | addr :: others =>
      let '(host, port) := authority (rq_Host r) "443" in
      let sni := (peekSNI (n_stream n)).1 in
      others = [] /\ rq_Method r = "CONNECT"%string /\
      exists caller reason post,
        px_identify p (credentialFrom r) = Some caller /\
        Allow (px_allow p) (c_Tenant caller) host = mkDecision true (normalize host) reason /\
        (px_enforceSNI p = true -> sni = "" \/ EqualFold sni host = true) /\
        addr = JoinHostPort host port /\
        (SplitHostPort (rq_Host r) = Some (host, port) -> SplitHostPort addr = Some (host, port)) /\
        ServeHTTP p n r =
          Emitted (event KAllow (c_Namespace caller) (c_App caller) host port "connect" "" reason) ::
          Hijacked :: Established :: Dialled addr :: post /\
        Forall (fun a => match a with Relayed up _ => exists more, n_stream n = up +:+ more | Emitted _ => True | _ => False end) post
  end.
Proof.
  unfold ServeHTTP. destruct (decide (rq_Method r = "CONNECT"%string)) as [Hm|Hm].
  2:{ unfold handlePlain. by destruct (authority (plainHost r) "80"). }
  pose proof (handleConnect_cases p n r) as Hc. destruct (authority (rq_Host r) "443") as [host port] eqn:Ea.
  destruct (px_identify p (credentialFrom r)) as [caller|]; [|by rewrite Hc].
  set (d := Allow (px_allow p) (c_Tenant caller) host) in *. cbn zeta in Hc.
  destruct Hc as [[_ ->]|[Hd Hc]]; [done|]. destruct Hc as [->|[->|[->| ->]]]; [done..|].
  assert (d = mkDecision true (normalize host) (de_Reason d)) as Ed by (by apply Allow_allowed).
  assert (SplitHostPort (rq_Host r) = Some (host, port) -> SplitHostPort (JoinHostPort host port) = Some (host, port)) as Hsplit.
  { intros [? ?]%SplitHostPort_parts. by apply SplitHostPort_join. }
  destruct (connect_cases p n caller host port) as [[-> _]|[Hs [(x & -> & _)|(x & o & [-> _])]]]; [done| |]; cbn [dials omap list_omap].
  - split_and!; [done|done|]. exists caller, (de_Reason d). eexists. split_and!; try done. by repeat constructor.
  - split_and!; [done|done|]. exists caller, (de_Reason d). eexists. split_and!; try done. repeat constructor. apply slice_prefix.
Qed.

(** Every request is decided once, before it is answered, and every event says who asked for what. The first
    action is the decision; a refusal is answered and nothing else happens; each event of the request carries the
    host, the port and the identified application (none, if the credential identifies none). An Allow is followed by
    at most one event: the Close with the bytes moved or the Fail of a tunnel that was dialled, or the Deny of a
    server name that is not the host, after which nothing is dialled. *)
Theorem every_request_is_decided p n r :
  let '(host, port) := target r in
  let attributed e := ev_Host e = host /\ ev_Port e = port /\ ev_Tenant e = c_Namespace (who p r) /\ ev_App e = c_App (who p r) in
  exists e tail, ServeHTTP p n r = Emitted e :: tail /\ attributed e /\
    ((ev_Kind e = KDeny /\ exists status authenticate, tail = [Replied status authenticate]) \/
     (ev_Kind e = KAllow /\
      match events tail with
      | [] => dials tail = []
      | [e'] => attributed e' /\
          ((dials tail = [] /\ ev_Kind e' = KDeny /\ ev_Reason e' = ReasonSNIMismatch /\ px_enforceSNI p = true) \/
           (dials tail <> [] /\ ((ev_Kind e' = KFail /\ ev_Reason e' = ReasonDialFailed) \/
              (ev_Kind e' = KClose /\ exists up down, Relayed up down ∈ tail /\ ev_BytesUp e' = len up /\ ev_BytesDown e' = len down))))
      | _ => False
      end)).
Proof.
  unfold target, ServeHTTP, who. destruct (decide (rq_Method r = "CONNECT"%string)) as [Hm|Hm].
  2:{ unfold handlePlain. destruct (authority (plainHost r) "80") as [host port]. eexists _, _. split; [done|]. split; [done|]. left. eauto. }
  pose proof (handleConnect_cases p n r) as Hc. destruct (authority (rq_Host r) "443") as [host port].
  destruct (px_identify p (credentialFrom r)) as [caller|].
  2:{ rewrite Hc. eexists _, _. split; [done|]. split; [done|]. left. eauto. }
  cbn zeta in Hc. destruct Hc as [[_ ->]|[_ Hc]].
  { eexists _, _. split; [done|]. split; [done|]. left. eauto. }
  destruct Hc as [->|[->|[->| ->]]]; (eexists _, _; split; [done|]; split; [done|]; right; split; [done|]); try done.
  destruct (connect_cases p n caller host port) as [(-> & ? & _)|[_ [(x & -> & _)|(x & o & [-> _])]]]; cbn; (split; [done|]).
  - by left.
  - right. split; [done|]. by left.
  - right. split; [done|]. right. split; [done|]. eexists _, _. split; [do 3 right; left|done].
Qed.

(** ** From the application to the upstream *)

(** The header a client makes of the proxy URL it was given ([RFC 7617]): its user is the application's name. *)
Definition basicAuthorization (app credential : string) : string :=
  "Basic " +:+ Base64EncodeToString (EgressPolicy.urlSafe app +:+ ":" +:+ credential).

Lemma urlSafe_without app : without ":" (EgressPolicy.urlSafe app) = true.
Proof.
  apply without_iff. unfold EgressPolicy.urlSafe. rewrite bytes_of_bytes.
  - intros (c & Hc & _)%list_elem_of_fmap. destruct (EgressPolicy.urlByte c) eqn:E; [subst|done]. by vm_compute in E.
  - apply Forall_map, (Forall_impl _ _ _ (bytes_range app)). intros b Hb. cbn. destruct (EgressPolicy.urlByte b); lia.
Qed.

Lemma credential_arrives r app credential : rq_ProxyAuthorization r = basicAuthorization app credential ->
  credentialFrom r = credential.
Proof.
  intros Hr. unfold credentialFrom. rewrite Hr. unfold basicAuthorization.
  change ("Basic " +:+ Base64EncodeToString ?x) with ("Basic" +:+ String " " (Base64EncodeToString x)). rewrite cutByte_app by done.
  assert (EqualFold "Basic" "basic" = true) as -> by reflexivity. cbn [negb].
  assert (TrimSpace (Base64EncodeToString (EgressPolicy.urlSafe app +:+ ":" +:+ credential)) =
          Base64EncodeToString (EgressPolicy.urlSafe app +:+ ":" +:+ credential)) as ->.
  { unfold TrimSpace, Base64EncodeToString. pose proof (base64_range _ (bytes_range (EgressPolicy.urlSafe app +:+ ":" +:+ credential))) as Hv.
    rewrite bytes_of_bytes by (eapply Forall_impl; [exact Hv|]; cbn; lia). by rewrite trim_visible. }
  rewrite base64_string_roundtrip. change (":" +:+ credential) with (String ":" credential).
  by rewrite cutByte_app by apply urlSafe_without.
Qed.

End handler.

(** *** Examples *)

Definition exHello (sni : string) : ClientHello := fun s => (sni, len s).

Definition exProxy : Proxy :=
  mkProxy (NewPerApp (H := exCase) (EgressPolicy.ByTenant exDocument)) true
    (fun c => if decide (c = "secret"%string) then Some (mkCaller "shop/web" "shop" "web") else None).

Definition exNet : Net := mkNet true true true "hello, upstream" (fun _ => true) 1500000 1000 "hello, client" 1000 2000000.

Definition exRequest : Request :=
  mkRequest "CONNECT" "API.example.com:8443" None (basicAuthorization "web" "secret").

Example tunnel : ServeHTTP (H := exCase) (H0 := exHello "api.EXAMPLE.com") exProxy exNet exRequest =
  [Emitted (event KAllow "shop" "web" "API.example.com" "8443" "connect" "" "orders"); Hijacked; Established;
   Dialled "API.example.com:8443"; Relayed "hello, upstream" "hello, client";
   Emitted (mkEvent KClose "shop" "web" "API.example.com" "8443" "connect" "api.EXAMPLE.com" "" 15 13 2 2)].
Proof. vm_compute. reflexivity. Qed.

(** A request may be both allowed and denied. When the server name does not match, the Allow event has already
    been emitted and a Deny event follows it for the same request, after the client was told that the connection
    is established. *)
Theorem a_request_may_be_decided_twice :
  events (ServeHTTP (H := exCase) (H0 := exHello "evil.example.com") exProxy exNet exRequest) =
    [event KAllow "shop" "web" "API.example.com" "8443" "connect" "" "orders";
     event KDeny "shop" "web" "API.example.com" "8443" "connect" "evil.example.com" ReasonSNIMismatch] /\
  Established ∈ ServeHTTP (H := exCase) (H0 := exHello "evil.example.com") exProxy exNet exRequest.
Proof. split; [vm_compute; reflexivity|]. apply (bool_decide_unpack _). vm_compute. exact I. Qed.
