(* ===== verification/FatLine.v ===== *)
(** * FatLine's server ([fatline/fatline.go], [stream.go], [cmd/fatline/main.go])

    The policy and the allowlist it enforces, and the two swaps of a reload
    between which a request may fall; the relay to in-instance services; the
    watch on the policy file. *)

From Stdlib Require Import Ascii.
From S2P Require Import Prelude GoStrings Strconv Encoding Slices Net Event.
From S2P Require Import Allowlist Proxy.
From S2P Require EgressPolicy.

Abbreviation Document := EgressPolicy.Document (only parsing).

(** ** Data *)

Record StreamRoute := mkStreamRoute { sr_Name : string; sr_Addr : string; sr_Ordinals : Z }.

Record Config := mkConfig {
  cf_TunnelListen : string;
  cf_EgressListen : string;
  cf_Allowlist : list External;
  cf_Policy : option Document;
  cf_StreamRoutes : list StreamRoute;
  cf_Endpoint : string
}.

Record Server := mkServer {
  s_cfg : Config;
  s_allow : List;
  s_policy : option Document
}.

Inductive server_error :=
| NoListenAddress
| RouteName (name : string)
| DuplicateRoute (name : string)
| RouteWithoutAddress (name : string)
| NoOrdinalInAddress (name : string)
| NoOrdinals (name : string).

Inductive route_error := TakesNoOrdinal | RequiresOrdinal | OrdinalOutOfRange | OrdinalNotCanonical.

(** ** Routes *)

Definition placeholder : string := "{ordinal}".

(** [strings.ReplaceAll], of a text that is not empty; the fuel is the length. *)
Fixpoint replaceFrom (fuel : nat) (s old new : string) : string :=
  match fuel with
  | O => s
  | S fuel =>
      match CutPrefix s old with
      | Some s => new +:+ replaceFrom fuel s old new
      | None => match s with String a s => String a (replaceFrom fuel s old new) | EmptyString => "" end
      end
  end.

Definition ReplaceAll (s old new : string) : string := replaceFrom (S (String.length s)) s old new.

Definition resolve (r : StreamRoute) (ordinal : string) : result route_error string :=
  if sr_Ordinals r <=? 0 then
    if decide (ordinal = "") then Ok (sr_Addr r) else Err TakesNoOrdinal
  else if decide (ordinal = "") then Err RequiresOrdinal
  else
    match ParseInt ordinal with
    | None => Err OrdinalOutOfRange
    | Some i =>
        if (i <? 0) || (sr_Ordinals r <=? i) then Err OrdinalOutOfRange
        else if negb (bool_decide (FormatInt i = ordinal)) then Err OrdinalNotCanonical
        else Ok (ReplaceAll (sr_Addr r) placeholder (FormatInt i))
    end.

Lemma resolve_spec r ordinal addr : resolve r ordinal = Ok addr ->
  (sr_Ordinals r <= 0 /\ ordinal = "" /\ addr = sr_Addr r) \/
  exists i, 0 <= i < sr_Ordinals r /\ ordinal = FormatInt i /\ addr = ReplaceAll (sr_Addr r) placeholder (FormatInt i).
Proof.
  unfold resolve. destruct (Z.leb_spec (sr_Ordinals r) 0).
  - case_decide; [|done]. intros [= <-]. by left.
  - case_decide; [done|]. destruct (ParseInt ordinal) as [i|]; [|done].
    destruct (Z.ltb_spec i 0), (Z.leb_spec (sr_Ordinals r) i); cbn [orb]; try done.
    case_bool_decide as Hi; [|done]. cbn [negb]. intros [= <-]. right. by exists i.
Qed.

Definition checkRoute (seen : gset string) (r : StreamRoute) : result server_error (gset string) :=
  if bool_decide (sr_Name r = "") || negb (without "/" (sr_Name r) && without "?" (sr_Name r) && without "#" (sr_Name r))
  then Err (RouteName (sr_Name r))
  else if decide (sr_Name r ∈ seen) then Err (DuplicateRoute (sr_Name r))
  else if decide (sr_Addr r = "") then Err (RouteWithoutAddress (sr_Name r))
  else if (0 <? sr_Ordinals r) && negb (Contains (sr_Addr r) placeholder) then Err (NoOrdinalInAddress (sr_Name r))
  else if (sr_Ordinals r =? 0) && Contains (sr_Addr r) placeholder then Err (NoOrdinals (sr_Name r))
  else Ok ({[sr_Name r]} ∪ seen).

Definition validateStreamRoutes (routes : list StreamRoute) : result server_error unit :=
  _ ← foldM checkRoute ∅ routes; Ok tt.

(** ** The server *)

Section server.
Context `{CaseTables} `{ClientHello} `{EgressPolicy.Sha256}.

Definition New (cfg : Config) : result server_error Server :=
  if decide (cf_TunnelListen cfg = "" /\ cf_EgressListen cfg = "") then Err NoListenAddress
  else
    _ ← validateStreamRoutes (cf_StreamRoutes cfg);
    let allow := match cf_Policy cfg with
                 | Some doc => NewPerApp (EgressPolicy.ByTenant doc)
                 | None => Allowlist.New (cf_Allowlist cfg)
                 end in
    Ok (mkServer cfg allow (cf_Policy cfg)).

(** The two swaps of [ReloadPolicy]. *)
Definition storePolicy (doc : option Document) (s : Server) : Server := mkServer (s_cfg s) (s_allow s) doc.
Definition storeAllow (doc : option Document) (s : Server) : Server :=
  mkServer (s_cfg s) (ReloadPerApp (s_allow s) (match doc with Some d => EgressPolicy.ByTenant d | None => ∅ end)) (s_policy s).

Definition ReloadPolicy (doc : option Document) (s : Server) : Server := storeAllow doc (storePolicy doc s).

Definition ReloadAllowlist (decls : list External) (s : Server) : Server :=
  mkServer (s_cfg s) (Reload (s_allow s) decls) (s_policy s).

Definition identify (policy : option Document) (credential : string) : option Caller :=
  doc ← policy;
  app ← EgressPolicy.Identify doc credential;
  Some (mkCaller (EgressPolicy.Tenant app) (EgressPolicy.a_Namespace app) (EgressPolicy.a_Name app)).

(** A request that finds one server when it identifies its caller and another when it looks the host up. *)
Definition serve (atIdentify atAllow : Server) (n : Net) (r : Request) : list action :=
  ServeHTTP (Proxy.New (mkOptions (s_allow atAllow) true (Some (identify (s_policy atIdentify))))) n r.

Definition Applications (s : Server) : list string := Tenants (s_allow s).

Record ConnStatus := mkConnStatus {
  st_Connected : bool;
  st_Endpoint : string;
  st_Active : Z;
  st_Allowlist : list string
}.

Definition Status (s : Server) (active : Z) : ConnStatus :=
  mkConnStatus true (cf_Endpoint (s_cfg s)) active (Hosts (s_allow s)).

(** ** The relay *)

Definition StreamPathPrefix : string := "/_fatline/dial/".

Record StreamRequest := mkStreamRequest {
  sq_ProtoMajor : Z;
  sq_Flusher : bool;
  sq_Path : string;
  sq_Ordinal : string
}.

Definition route (s : Server) (name : string) : option StreamRoute :=
  snd <$> list_find (fun r => sr_Name r = name) (cf_StreamRoutes (s_cfg s)).

Definition streamEvent (name reason : string) (up down : Z) : action :=
  Emitted (mkEvent (if decide (reason = "relayed"%string) then KAllow else KDeny) "" "" name "" "stream" "" reason up down 0 0).

(** The body of the request is the client's stream. *)
Definition streamHandler (s : Server) (n : Net) (q : StreamRequest) : list action :=
  if negb (sq_ProtoMajor q =? 2) then [Replied 505 false]
  else if negb (sq_Flusher q) then [Replied 500 false]
  else
    let name := TrimPrefix (sq_Path q) StreamPathPrefix in
    match route s name with
    | None => [streamEvent name "unknown_route" 0 0; Replied 404 false]
    | Some rt =>
        match resolve rt (sq_Ordinal q) with
        | Err _ => [streamEvent name "bad_ordinal" 0 0; Replied 404 false]
        | Ok addr =>
            Dialled addr ::
              if negb (n_dials n addr) then [streamEvent name "dial_failed" 0 0; Replied 502 false]
              else
                let '(up, down) := Duplex n (n_stream n) in
                [Replied 200 false; Relayed up down; streamEvent name "relayed" (len up) (len down)]
        end
    end.

(** ** Enforcing a document *)

Definition tenantsOf (doc : option Document) : gmap string (list External) :=
  match doc with Some d => EgressPolicy.ByTenant d | None => ∅ end.

(** A server that enforces a document, whole. *)
Definition enforces (doc : option Document) (s : Server) : Prop :=
  s_policy s = doc /\ forall tenant host, Allow (s_allow s) tenant host = Allow (NewPerApp (tenantsOf doc)) tenant host.

Lemma ReloadPolicy_enforces doc s : enforces doc (ReloadPolicy doc s).
Proof. by split. Qed.

Lemma New_enforces cfg s : New cfg = Ok s -> cf_Allowlist cfg = [] -> enforces (cf_Policy cfg) s.
Proof.
  unfold New. case_decide; [done|]. destruct (validateStreamRoutes _); [|done]. cbn. intros [= <-] Hl. split; [done|]. cbn.
  destruct (cf_Policy cfg) as [d|]; [done|]. rewrite Hl. intros tenant host. unfold Allow. cbn.
  assert (tenantHosts (Allowlist.New []) tenant = tenantHosts (NewPerApp ∅) tenant) as ->; [|done].
  unfold Allowlist.New. change (mkList (build ?m)) with (NewPerApp m). rewrite !tenantHosts_perapp, lookup_empty.
  destruct (decide (tenant = defaultTenant)) as [->|]; [by rewrite lookup_singleton_eq|by rewrite lookup_singleton_ne].
Qed.

(** A dial: who was identified, and by whose declaration. *)
Lemma serve_dials si sj n r addr others : dials (serve si sj n r) = addr :: others ->
  let '(host, port) := authority (rq_Host r) "443" in
  exists caller, identify (s_policy si) (credentialFrom r) = Some caller /\
    de_Allowed (Allow (s_allow sj) (c_Tenant caller) host) = true /\ addr = JoinHostPort host port /\ others = [].
Proof.
  unfold serve. intros Hd. pose proof (dial_needs (Proxy.New (mkOptions (s_allow sj) true (Some (identify (s_policy si))))) n r) as H2.
  rewrite Hd in H2. destruct (authority (rq_Host r) "443") as [host port]. cbn [px_identify px_allow Proxy.New o_Allowlist o_Identify] in H2.
  destruct H2 as (caller & ? & ? & ? & ?). by exists caller.
Qed.

Lemma identify_some policy credential caller : identify policy credential = Some caller ->
  exists doc app, policy = Some doc /\ EgressPolicy.Identify doc credential = Some app /\
    caller = mkCaller (EgressPolicy.Tenant app) (EgressPolicy.a_Namespace app) (EgressPolicy.a_Name app).
Proof.
  unfold identify. destruct policy as [doc|]; [|done]. cbn. destruct (EgressPolicy.Identify doc credential) as [app|] eqn:Ei; [|done].
  cbn. intros [= <-]. by exists doc, app.
Qed.

(** The states of a server that is reloaded: each document takes two swaps. *)
Fixpoint reloads (s : Server) (docs : list (option Document)) : list Server :=
  s :: match docs with
       | [] => []
       | doc :: docs => storePolicy doc s :: reloads (ReloadPolicy doc s) docs
       end.

Lemma reloads_at docs : forall doc0 s i si, enforces doc0 s -> reloads s docs !! i = Some si ->
  exists k m dk dm, (k = Nat.div2 (S i) /\ m = Nat.div2 i) /\ (doc0 :: docs) !! k = Some dk /\ (doc0 :: docs) !! m = Some dm /\
    s_policy si = dk /\ forall tenant host, Allow (s_allow si) tenant host = Allow (NewPerApp (tenantsOf dm)) tenant host.
Proof.
  induction docs as [|doc docs IH]; intros doc0 s i si [Hp Ha] Hi; cbn [reloads] in Hi.
  - destruct i as [|i]; [|by rewrite lookup_cons_ne_0 in Hi]. injection Hi as <-. exists 0%nat, 0%nat, doc0, doc0. by split_and!.
  - destruct i as [|[|i]].
    + injection Hi as <-. exists 0%nat, 0%nat, doc0, doc0. by split_and!.
    + injection Hi as <-. exists 1%nat, 0%nat, doc, doc0. by split_and!.
    + apply (IH doc) in Hi as (k & m & dk & dm & [-> ->] & Hk & Hm & ? & ?); [|apply ReloadPolicy_enforces].
      exists (S (Nat.div2 (S i))), (S (Nat.div2 i)), dk, dm. by split_and!.
Qed.

(** ** The command *)

(** [--stream-route name=host:port[=ordinals]]. *)
Definition routeOf (spec : string) : option StreamRoute :=
  match SplitByte "=" spec with
  | [name; addr] => if decide (name = "" \/ addr = "") then None else Some (mkStreamRoute name addr 0)
  | [name; addr; count] =>
      if decide (name = "" \/ addr = "") then None
      else n ← ParseInt count; if n <? 0 then None else Some (mkStreamRoute name addr n)
  | _ => None
  end.

Definition routes (specs : list string) : option (list StreamRoute) := mapM routeOf specs.

Section watch.
Context `{EgressPolicy.PolicyJson}.

(** What the watch remembers: the file's bytes that it last accepted, and the server. *)
Record Watch := mkWatch { w_last : string; w_server : Server }.

(** One tick; [read] is the file, if it could be read. *)
Definition tick (w : Watch) (read : option string) : Watch :=
  match read with
  | None => w
  | Some data =>
      if decide (data = w_last w) then w
      else
        match EgressPolicy.Parse data with
        | Err _ => w
        | Ok doc => mkWatch data (ReloadPolicy (Some doc) (w_server w))
        end
  end.

Definition watchPolicy (w : Watch) (reads : list (option string)) : Watch := foldl tick w reads.

(** The policy a process starts with: a missing file starts it closed, an unusable one not at all. *)
Definition startPolicy (read : option string) : option (option Document) :=
  match read with
  | None => Some None
  | Some data => match EgressPolicy.Parse data with Ok doc => Some (Some doc) | Err _ => None end
  end.

Definition withPolicy (cfg : Config) (doc : option Document) : Config :=
  mkConfig (cf_TunnelListen cfg) (cf_EgressListen cfg) [] doc (cf_StreamRoutes cfg) (cf_Endpoint cfg).

(** The file is read for the policy, and again when the watch begins. *)
Definition start (cfg : Config) (atLoad atWatch : option string) : option Watch :=
  doc ← startPolicy atLoad;
  match New (withPolicy cfg doc) with
  | Ok s => Some (mkWatch (default "" atWatch) s)
  | Err _ => None
  end.

(** The latest document of the reads that parses. *)
Definition latest (doc : option Document) (reads : list (option string)) : option Document :=
  foldl (fun doc read => match read with
    | Some data => match EgressPolicy.Parse data with Ok d => Some d | Err _ => doc end
    | None => doc end) doc reads.

(** The watch is in step: what it remembers is what the server enforces, or nothing was accepted yet. *)
Definition in_step (doc : option Document) (w : Watch) : Prop :=
  enforces doc (w_server w) /\ (forall d, EgressPolicy.Parse (w_last w) = Ok d -> doc = Some d).

Lemma tick_in_step doc w read : in_step doc w -> in_step (latest doc [read]) (tick w read).
Proof.
  intros [He Hl]. unfold tick, latest. cbn. destruct read as [data|]; [|done]. case_decide as Hd.
  - subst data. destruct (EgressPolicy.Parse (w_last w)) as [d|] eqn:E; [|by split; [|congruence]].
    specialize (Hl d eq_refl) as ->. split; [done|]. cbn. congruence.
  - destruct (EgressPolicy.Parse data) as [d|] eqn:E; [|done]. split; [apply ReloadPolicy_enforces|]. cbn. congruence.
Qed.

Lemma watch_in_step reads : forall doc w, in_step doc w -> in_step (latest doc reads) (watchPolicy w reads).
Proof. induction reads as [|read reads IH]; intros doc w Hw; [done|]. apply (tick_in_step _ _ read), IH in Hw. exact Hw. Qed.

(** ** The watch's property *)

(** C23: the latest good policy is in force. When the file is the same at the start and when the watch begins (or
    missing at both), then after any sequence of ticks the server enforces, whole, the last document it read that
    parses: credentials and declarations are of that one document, a file that cannot be read or does not parse
    leaves the previous one in force, and without any there is none and no request is dialled. *)
Theorem latest_policy_is_enforced cfg read reads w :
  (forall d, EgressPolicy.Parse "" <> Ok d) -> start cfg read read = Some w ->
  exists doc, startPolicy read = Some doc /\
    let policy := latest doc reads in
    let s := w_server (watchPolicy w reads) in
    enforces policy s /\ (policy = None -> forall n r, dials (serve s s n r) = []).
Proof.
  intros Hempty. unfold start. destruct (startPolicy read) as [doc|] eqn:Es; [|done]. cbn.
  destruct (New (withPolicy cfg doc)) as [s0|] eqn:En; [|done]. intros [= <-]. exists doc. split; [done|].
  assert (in_step doc (mkWatch (default "" read) s0)) as Hw.
  { split; [by apply (New_enforces (withPolicy cfg doc))|]. cbn. unfold startPolicy in Es.
    destruct read as [data|]; [|intros d Hd; by apply Hempty in Hd]. cbn. intros d Hd. rewrite Hd in Es. by injection Es as <-. }
  apply (watch_in_step reads) in Hw as [He _]. split; [exact He|]. intros Hn n r.
  destruct (dials _) as [|addr others] eqn:Ed; [done|]. apply serve_dials in Ed. destruct (authority (rq_Host r) "443").
  destruct Ed as (caller & Hi & _). apply identify_some in Hi as (d & _ & Hd & _). destruct He as [Hp _]. congruence.
Qed.

(** A policy that arrives while FatLine starts is missed. When the file is still missing as the policy is
    loaded and there when the watch begins, its bytes are what the watch remembers: however often it is read again,
    FatLine enforces no policy and dials for nobody, until the file changes once more. *)
Theorem policy_arriving_at_start_is_missed cfg data w ticks :
  start cfg None (Some data) = Some w ->
  let s := w_server (watchPolicy w (repeat (Some data) ticks)) in
  s_policy s = None /\ forall n r, dials (serve s s n r) = [].
Proof.
  unfold start. cbn [startPolicy mbind option_bind]. destruct (New (withPolicy cfg None)) as [s0|] eqn:En; [|done]. intros [= <-].
  cbn [default]. cbn zeta. assert (watchPolicy (mkWatch data s0) (repeat (Some data) ticks) = mkWatch data s0) as ->.
  { unfold watchPolicy. induction ticks as [|k IH]; [done|]. cbn. by rewrite decide_True. }
  cbn [w_server].
  apply New_enforces in En as [Hp _]; [|done]. cbn in Hp. split; [done|]. intros n r.
  destruct (dials _) as [|addr others] eqn:Ed; [done|]. apply serve_dials in Ed. destruct (authority (rq_Host r) "443").
  destruct Ed as (caller & Hi & _). apply identify_some in Hi as (d & _ & Hd & _). congruence.
Qed.

End watch.

(** ** The properties of the server *)

(** C31: reloads and requests interleave safely. Whatever documents are loaded, one after another, and wherever a
    request falls between their swaps, with its caller identified at one moment and its host looked up at the same
    or a later one: a dial means that the credential is an application's in one of the documents, [k], and that the
    host is declared for that application's tenant in another, [m], which is not more than one document behind. *)
Theorem reloads_interleave_safely docs doc0 s0 i j si sj n r :
  enforces doc0 s0 -> (i <= j)%nat -> reloads s0 docs !! i = Some si -> reloads s0 docs !! j = Some sj ->
  match dials (serve si sj n r) with
  | [] => True
  | addr :: others =>
      let '(host, port) := authority (rq_Host r) "443" in
      others = [] /\ addr = JoinHostPort host port /\
      exists k m doc app decls e,
        (k <= m + 1)%nat /\ (doc0 :: docs) !! k = Some (Some doc) /\ EgressPolicy.Identify doc (credentialFrom r) = Some app /\
        (exists dm, (doc0 :: docs) !! m = Some dm /\ tenantsOf dm !! EgressPolicy.Tenant app = Some decls) /\
        e ∈ decls /\ normalize (Manifest.ex_Host e) = normalize host
  end.
Proof.
  intros H0s Hij Hi Hj. destruct (dials (serve si sj n r)) as [|addr others] eqn:Ed; [done|]. apply serve_dials in Ed.
  destruct (authority (rq_Host r) "443") as [host port]. destruct Ed as (caller & Hid & Ha & -> & ->).
  apply (reloads_at _ _ _ _ _ H0s) in Hi as (k & m' & dk & dm' & [Ek _] & Hk & _ & Hp & _).
  apply (reloads_at _ _ _ _ _ H0s) in Hj as (k' & m & dk' & dm & [_ Em] & _ & Hm & _ & Hall).
  apply identify_some in Hid as (doc & app & Hd & Happ & ->). rewrite Hp in Hd. subst dk. cbn [c_Tenant] in Ha.
  rewrite Hall, Allow_spec in Ha. destruct (tenantsOf dm !! EgressPolicy.Tenant app) as [decls|] eqn:Et; [|done].
  pose proof (declared_spec decls (normalize host)) as He. destruct (declared decls (normalize host)) as [e|]; [|done].
  split_and!; [done|done|]. exists k, m, doc, app, decls, e. destruct He as [? ?]. split_and!; [|by rewrite Hk, Hd|done|by exists dm|done|done].
  subst. rewrite !Nat.div2_div. assert (S i <= j + 2)%nat by lia.
  pose proof (Nat.Div0.div_le_mono (S i) (j + 1 * 2) 2). rewrite Nat.div_add in *; lia.
Qed.

(** C4: an application reaches the hosts it declared. For an application of a parsed manifest, deployed under a
    document that lists it with its declarations in a tenant of its own, and the hash of its credential: a CONNECT
    to a declared host on any port, with the credential it was given, is allowed, and when the client takes the
    connection, sends no other server name and the host answers, FatLine dials that host and port and relays both
    streams as they are. *)
Theorem applications_reach_their_hosts `{Manifest.ManifestYaml} data m app doc a e s credential port n r :
  Manifest.Parse data = Ok m -> app ∈ Manifest.mf_Apps m -> e ∈ Manifest.ap_External app ->
  EgressPolicy.enforceable doc -> NoDup (map EgressPolicy.Tenant (EgressPolicy.d_Apps doc)) -> a ∈ EgressPolicy.d_Apps doc ->
  EgressPolicy.a_External a = Manifest.ap_External app ->
  credential <> "" -> EgressPolicy.a_CredentialSHA256 a = EgressPolicy.HashCredential credential ->
  enforces (Some doc) s ->
  without ":" port && without "[" port && without "]" port = true ->
  rq_Method r = "CONNECT"%string -> rq_Host r = JoinHostPort (Manifest.ex_Host e) port ->
  rq_ProxyAuthorization r = basicAuthorization (EgressPolicy.a_Name a) credential ->
  n_hijacker n = true -> n_hijacks n = true -> n_writes n = true -> n_dials n (JoinHostPort (Manifest.ex_Host e) port) = true ->
  ((peekSNI (n_stream n)).1 = "" \/ EqualFold (peekSNI (n_stream n)).1 (Manifest.ex_Host e) = true) ->
  exists before after, serve s s n r =
    before ++ Dialled (JoinHostPort (Manifest.ex_Host e) port) ::
      Relayed (slice (n_stream n) 0 (n_upTakes n)) (slice (n_downstream n) 0 (n_downTakes n)) :: after.
Proof.
  intros Hm Happ He Hd Ht Ha Hext Hc Hh [Hpol Hall] Hport Hmeth Hhost Hauth H1n H2n H3n Hdial Hsni.
  pose proof (Manifest.parsed_hostname data m app e Hm Happ He) as Hname.
  pose proof (hostname_split (Manifest.ex_Host e) Hname) as Hb.
  destruct (hostname_normal _ Hname) as (_ & Hne & Hip).
  pose proof (SplitHostPort_join (Manifest.ex_Host e) port Hb Hport) as Hs. rewrite <- Hhost in Hs.
  unfold serve, ServeHTTP. rewrite decide_True by done. unfold handleConnect. rewrite (authority_split _ _ _ _ Hs).
  rewrite (credential_arrives r _ _ Hauth). cbn [px_identify px_allow px_enforceSNI Proxy.New o_Identify o_Allowlist o_EnforceSNI].
  assert (identify (s_policy s) credential = Some (mkCaller (EgressPolicy.Tenant a) (EgressPolicy.a_Namespace a) (EgressPolicy.a_Name a))) as ->.
  { unfold identify. rewrite Hpol. cbn. assert (EgressPolicy.Identify doc credential = Some a) as ->; [|done].
    apply EgressPolicy.Identify_spec; [apply Hd|done]. }
  cbn [c_Tenant]. rewrite Hall, Allow_spec. cbn [tenantsOf]. rewrite (EgressPolicy.ByTenant_spec doc a Ht Ha), Hext.
  pose proof (declared_spec (Manifest.ap_External app) (normalize (Manifest.ex_Host e))) as Hdec.
  destruct (declared _ _) as [e'|]; [|by apply Hdec in He]. rewrite Hip, bool_decide_eq_false_2 by done. cbn [orb de_Allowed negb].
  rewrite H1n, H2n, H3n. cbn [negb].
  match goal with |- context [connect ?p ?n ?c ?h ?pt] =>
    destruct (connect_cases p n c h pt) as [(_ & _ & Hs1 & Hs2)|[_ [(x & _ & Hf)|(x & o & [-> _])]]] end.
  - destruct Hsni; congruence.
  - congruence.
  - eexists [_; _; _], _. reflexivity.
Qed.

(** The relay reaches what was deployed and nothing else. The relay dials at most once, and only the address of
    a configured route: as it is, for a route without ordinals and a request without one, or with one of the
    route's ordinals, in the one spelling it has, in place of the mark. Every request that gets that far leaves
    exactly one event, which names the route that was asked for; when nothing was relayed it is a Deny. *)
Theorem relay_is_closed s n q :
  let name := TrimPrefix (sq_Path q) StreamPathPrefix in
  let trace := streamHandler s n q in
  match dials trace with
  | [] => True
  | addr :: others =>
      others = [] /\ exists rt, rt ∈ cf_StreamRoutes (s_cfg s) /\ sr_Name rt = name /\
        ((sr_Ordinals rt <= 0 /\ sq_Ordinal q = "" /\ addr = sr_Addr rt) \/
         exists i, 0 <= i < sr_Ordinals rt /\ sq_Ordinal q = FormatInt i /\ addr = ReplaceAll (sr_Addr rt) placeholder (FormatInt i))
  end /\
  (sq_ProtoMajor q = 2 -> sq_Flusher q = true ->
   exists e, events trace = [e] /\ ev_Host e = name /\ ev_Proto e = "stream"%string /\
     (ev_Kind e = KAllow <-> exists up down, Relayed up down ∈ trace)).
Proof.
  cbn zeta. unfold streamHandler, route. destruct (Z.eqb_spec (sq_ProtoMajor q) 2) as [|]; [|by split]. destruct (sq_Flusher q); [|by split].
  cbn [negb]. set (name := TrimPrefix (sq_Path q) StreamPathPrefix).
  assert (forall reason t, reason <> "relayed" -> (KDeny = KAllow <-> exists up down, Relayed up down ∈ [streamEvent name reason 0 0; Replied t false])) as Hno.
  { intros reason t _. split; [done|]. intros (up & down & Hin). rewrite !elem_of_cons, elem_of_nil in Hin. by destruct Hin as [|[|]]. }
  destruct (list_find _ _) as [[k rt]|] eqn:Hf; cbn [fmap option_fmap option_map snd].
  2:{ split; [done|]. intros _ _. eexists. split_and!; try done; by apply (Hno "unknown_route"). }
  apply list_find_Some in Hf as (Hk & Hrt & _). apply list_elem_of_lookup_2 in Hk.
  destruct (resolve rt (sq_Ordinal q)) as [addr|err] eqn:Hres.
  2:{ split; [done|]. intros _ _. eexists. split_and!; try done; by apply (Hno "bad_ordinal"). }
  split.
  - assert (dials (Dialled addr :: (if negb (n_dials n addr) then [streamEvent name "dial_failed" 0 0; Replied 502 false]
      else let '(up, down) := Duplex n (n_stream n) in [Replied 200 false; Relayed up down; streamEvent name "relayed" (len up) (len down)])) = [addr]) as ->
      by (by destruct (n_dials n addr)).
    split; [done|]. exists rt. split_and!; [done|done|]. apply resolve_spec, Hres.
  - intros _ _. destruct (n_dials n addr); cbn; eexists; (split_and!; [done|done|done|]); cbn.
    + split; [|done]. intros _. eexists _, _. do 2 right. by left.
    + split; [done|]. intros (up & down & Hin). rewrite !elem_of_cons, elem_of_nil in Hin. by destruct Hin as [|[|[|]]].
Qed.

End server.

(** *** Examples *)

Example resolve_examples :
  let rt := mkStreamRoute "keyholder" "datasphered-{ordinal}.datasphered:8444" 3 in
  map (resolve rt) ["2"; "3"; "-1"; "+1"; "01"; ""; "x"]%string =
    [Ok "datasphered-2.datasphered:8444"%string; Err OrdinalOutOfRange; Err OrdinalOutOfRange; Err OrdinalNotCanonical;
     Err OrdinalNotCanonical; Err RequiresOrdinal; Err OrdinalOutOfRange] /\
  resolve (mkStreamRoute "status" "status:80" 0) "" = Ok "status:80"%string.
Proof. vm_compute. split; reflexivity. Qed.

(** A route with a negative count passes the check, and its address keeps the mark. *)
Example negative_ordinals_pass :
  let rt := mkStreamRoute "keyholder" "datasphered-{ordinal}:8444" (-1) in
  validateStreamRoutes [rt] = Ok tt /\ resolve rt "" = Ok "datasphered-{ordinal}:8444"%string.
Proof. vm_compute. split; reflexivity. Qed.

Section examples.
#[local] Existing Instances exCase EgressPolicy.exHash.
#[local] Instance noSNI : ClientHello := fun _ => (""%string, 0).

Definition exOf (credential : string) (external : list External) : Document :=
  EgressPolicy.mkDocument 1 [EgressPolicy.mkApp "web" "shop" (EgressPolicy.HashCredential credential) external].

Definition exOld : Document := exOf "secret" (Manifest.ap_External exWeb).
Definition exNew : Document := exOf "rotated" [].

Definition exConfig : Config := mkConfig ":8443" ":3128" [] (Some exOld) [] "".
Definition exServer : Server := mkServer exConfig (NewPerApp (EgressPolicy.ByTenant exOld)) (Some exOld).

Definition exAs (credential : string) : Request := mkRequest "CONNECT" "API.example.com:8443" None (basicAuthorization "web" credential).

(** A codec that knows one document. *)
#[local] Instance exFile : EgressPolicy.PolicyJson := {|
  EgressPolicy.unmarshalPolicy data := if decide (data = "policy"%string) then Ok exOld else Err "unexpected end"%string;
  EgressPolicy.marshalPolicy _ := Ok "policy"%string
|}.

(** A reload is two swaps, and a request between them is held to neither policy. The application is redeployed
    with a new credential and without its external host. Before the reload the new credential is unknown, after it
    the host is not declared: both refuse it. Between the two swaps the new credential is identified and the old
    declarations are still there, and FatLine dials the host. *)
Theorem reload_has_a_window :
  map (fun s => dials (serve s s exNet (exAs "rotated"))) (reloads exServer [Some exNew]) =
    [[]; ["API.example.com:8443"%string]; []].
Proof. vm_compute. reflexivity. Qed.

Lemma reloads_interleave_safely_witness : exists k m doc app,
  (k <= m + 1)%nat /\ [Some exOld; Some exNew] !! k = Some (Some doc) /\ EgressPolicy.Identify doc "rotated" = Some app.
Proof.
  assert (dials (serve (storePolicy (Some exNew) exServer) (storePolicy (Some exNew) exServer) exNet (exAs "rotated")) = ["API.example.com:8443"%string]) as Hd
    by (vm_compute; reflexivity).
  assert (authority (rq_Host (exAs "rotated")) "443" = ("API.example.com"%string, "8443"%string)) as Ha by (vm_compute; reflexivity).
  assert (credentialFrom (exAs "rotated") = "rotated"%string) as Hc by (vm_compute; reflexivity).
  pose proof (reloads_interleave_safely [Some exNew] (Some exOld) exServer 1 1
    (storePolicy (Some exNew) exServer) (storePolicy (Some exNew) exServer) exNet (exAs "rotated")) as H.
  rewrite Hd, Ha, Hc in H. destruct H as (_ & _ & k & m & doc & app & decls & e & ? & ? & ? & _); [by split|lia|done|done|].
  exists k, m, doc, app. split_and!; assumption.
Defined.

Lemma exStart : start exConfig (Some "policy"%string) (Some "policy"%string) =
  Some (mkWatch "policy" (mkServer (withPolicy exConfig (Some exOld)) (NewPerApp (EgressPolicy.ByTenant exOld)) (Some exOld))).
Proof. vm_compute. reflexivity. Qed.

Lemma latest_policy_is_enforced_witness :
  s_policy (w_server (watchPolicy (mkWatch "policy" (mkServer (withPolicy exConfig (Some exOld)) (NewPerApp (EgressPolicy.ByTenant exOld)) (Some exOld)))
    [Some "torn"%string; None])) = Some exOld.
Proof.
  assert (forall d, EgressPolicy.Parse "" <> Ok d) as He by (intros d; vm_compute; discriminate).
  destruct (latest_policy_is_enforced exConfig (Some "policy"%string) [Some "torn"%string; None] _ He exStart) as (doc & Hs & [Hp _] & _).
  rewrite Hp. assert (startPolicy (Some "policy"%string) = Some (Some exOld)) as Hs' by (vm_compute; reflexivity).
  rewrite Hs' in Hs. injection Hs as <-. vm_compute. reflexivity.
Defined.

Lemma policy_arriving_at_start_is_missed_witness : exists w,
  start exConfig None (Some "policy"%string) = Some w /\ EgressPolicy.Parse "policy" = Ok exOld /\
  s_policy (w_server (watchPolicy w (repeat (Some "policy"%string) 100))) = None.
Proof.
  destruct (start exConfig None (Some "policy"%string)) as [w|] eqn:Es; [|vm_compute in Es; discriminate].
  exists w. split_and!; [done|vm_compute; reflexivity|]. apply (policy_arriving_at_start_is_missed exConfig "policy" w 100 Es).
Defined.

Lemma applications_reach_their_hosts_witness : exists before after,
  serve exServer exServer exNet (exAs "secret") =
    before ++ Dialled "API.example.com:8443" :: Relayed "hello, upstream" "hello, client" :: after.
Proof.
  assert (Manifest.Parse (H := exYaml) "apps" = Ok (Manifest.mkManifest "shop" [exWeb])) as Hp by (vm_compute; reflexivity).
  assert (EgressPolicy.enforceable exOld) as He.
  { split; [done|constructor; [vm_compute; done|constructor]|]. apply (bool_decide_unpack _). vm_compute. exact I. }
  assert (NoDup (map EgressPolicy.Tenant (EgressPolicy.d_Apps exOld))) as Hn by (apply (bool_decide_unpack _); vm_compute; exact I).
  apply (applications_reach_their_hosts (H2 := exYaml) "apps" _ exWeb exOld
    (EgressPolicy.mkApp "web" "shop" (EgressPolicy.HashCredential "secret") (Manifest.ap_External exWeb))
    (Manifest.mkExternal "API.example.com" "orders") exServer "secret" "8443" exNet (exAs "secret") Hp
    (list_elem_of_here _ _) (list_elem_of_here _ _) He Hn (list_elem_of_here _ _)); try reflexivity; try done.
  by left.
Defined.

End examples.
