(* ===== verification/Issuance.v ===== *)
(** * The identities that are issued and the listeners that accept them
      ([fatline/identity/identity.go], [fatline/internal/crypto/crypto.go],
      [datasphere/keyholder/tls.go])

    The operator's machine writes an identity into a leaf; the keyholder's
    listeners, of another module, admit a peer by what its leaf carries.  Keys,
    signatures and the reading of PEM, certificates and URLs are the library's:
    a leaf here is what a CA signed, known by its usage and its alternative names. *)

From Stdlib Require Import Ascii.
From S2P Require Import Prelude GoStrings Slices LogicalKey Keyring KeyringFacts Net.
From S2P Require Import Identity.

(** ** What is issued *)

Definition OperatorURI (instance : string) : string := "farcast://" +:+ instance +:+ "/operator".
Definition KeeperURI (instance device : string) : string := "farcast://" +:+ instance +:+ "/keeper/" +:+ device.
Definition AppURI (instance namespace app : string) : string :=
  "farcast://" +:+ instance +:+ "/app/" +:+ namespace +:+ "/" +:+ app.
Definition DeviceURI (instance device : string) : string := "farcast://" +:+ instance +:+ "/device/" +:+ device.
Definition ServerName (instance : string) : string := instance +:+ ".fatline.farcast".
Definition KeyholderServerName (instance : string) : string := instance +:+ ".datasphered.farcast".

Inductive issue_error := EmptyInstance | EmptyDevice | IncompleteApplication | CANotLoaded (e : string) | IssueFailed (e : string).

Inductive usage := ServerAuth | ClientAuth.

(** A certificate's alternative names: addresses, URIs as they print, DNS names. *)
Record sans := mkSans { sn_IPs : list string; sn_URIs : list string; sn_DNS : list string }.

(** The library: reading a CA's PEM and making a CA (the certificate's PEM, and the key's unless it cannot be
    encoded), signing a fresh key's certificate for a subject, a usage and names, and what a signed leaf says.
    [parseURI] is [url.Parse] of a text that gives a scheme and a host, an opaque part or a path, and the text the
    URL prints. *)
Class CA := {
  authority : Type;
  LoadCA : string -> string -> result string authority;
  NewCA : string -> result string authority;
  CertPEM : authority -> string;
  KeyPEM : authority -> result string string;
  Leaf : Type;
  sign : authority -> string -> usage -> sans -> result string Leaf;
  leafUsage : Leaf -> usage;
  leafNames : Leaf -> sans;
  parseURI : string -> option string
}.

Section issue.
Context `{CA}.

Definition applyIdentitySAN (identity : string) : sans :=
  if ParseIP identity then mkSans [identity] [] []
  else match parseURI identity with Some u => mkSans [] [u] [] | None => mkSans [] [] [identity] end.

Definition issue (ca : authority) (identity : string) (eku : usage) : result string Leaf :=
  if decide (identity = "") then Err "fatline: empty certificate identity"
  else sign ca identity eku (applyIdentitySAN identity).

Definition IssueServer (ca : authority) (identity : string) : result string Leaf := issue ca identity ServerAuth.
Definition IssueClient (ca : authority) (identity : string) : result string Leaf := issue ca identity ClientAuth.

Definition IssueAppClient (caCert caKey instance namespace app : string) : result issue_error Leaf :=
  if decide (instance = "" \/ namespace = "" \/ app = "") then Err IncompleteApplication
  else
    ca ← wrapErr CANotLoaded (LoadCA caCert caKey);
    wrapErr IssueFailed (IssueClient ca (AppURI instance namespace app)).

Definition IssueKeeperClient (caCert caKey instance device : string) : result issue_error Leaf :=
  if decide (instance = "") then Err EmptyInstance
  else if decide (device = "") then Err EmptyDevice
  else
    ca ← wrapErr CANotLoaded (LoadCA caCert caKey);
    wrapErr IssueFailed (IssueClient ca (KeeperURI instance device)).

Definition IssueKeyholderServer (caCert caKey instance : string) : result issue_error Leaf :=
  if decide (instance = "") then Err EmptyInstance
  else
    ca ← wrapErr CANotLoaded (LoadCA caCert caKey);
    wrapErr IssueFailed (IssueServer ca (KeyholderServerName instance)).

(** [identity.Material]; a leaf is both its PEM texts. *)
Record minted := mkMinted {
  mi_Instance : string;
  mi_ServerName : string;
  mi_OperatorURI : string;
  mi_CACertPEM : string;
  mi_CAKeyPEM : string;
  mi_Client : Leaf;
  mi_Server : Leaf
}.

Definition Mint (instance : string) : result issue_error minted :=
  if decide (instance = "") then Err EmptyInstance
  else
    ca ← wrapErr CANotLoaded (NewCA instance);
    caKey ← wrapErr CANotLoaded (KeyPEM ca);
    client ← wrapErr IssueFailed (IssueClient ca (OperatorURI instance));
    server ← wrapErr IssueFailed (IssueServer ca (ServerName instance));
    Ok (mkMinted instance (ServerName instance) (OperatorURI instance) (CertPEM ca) caKey client server).

(** The name [DialTLS] pins. *)
Definition DialName (m : minted) : string :=
  if decide (mi_ServerName m = "") then ServerName (mi_Instance m) else mi_ServerName m.

End issue.

(** ** Who is admitted *)

Definition AllowPusher (instance uri : string) : bool :=
  let operator := "farcast://" +:+ instance +:+ "/operator" in
  let keeper := "farcast://" +:+ instance +:+ "/keeper/" in
  bool_decide (uri = operator) || (HasPrefix uri keeper && (len keeper <? len uri)).

(** [VerifyConnection] of either listener: the first certificate's URIs, of which one must be allowed; without an
    [allow] every verified peer is admitted, and without a certificate none. *)
Definition VerifyConnection (allow : option (string -> bool)) (peerCertificates : list (list string)) : bool :=
  match allow with
  | None => true
  | Some allow => match peerCertificates with [] => false | uris :: _ => existsb allow uris end
  end.

(** ** Facts on the URIs *)

Lemma parse_uri instance rest : instance <> "" ->
  ParseIdentity ("farcast://" +:+ instance +:+ "/" +:+ rest) instance =
  if decide (rest = RoleOperator) then Ok (mkIdentity RoleOperator instance "" "")
  else
    match SplitByte slash rest with
    | [role; name] =>
        if decide (role = RoleKeeper /\ name <> "") then Ok (mkIdentity RoleKeeper instance name "")
        else if decide (role = RoleDevice /\ name <> "") then Ok (mkIdentity RoleDevice instance name "")
        else Err UnknownShape
    | [role; namespace; name] =>
        if decide (role = RoleApp /\ namespace <> "" /\ name <> "") then Ok (mkIdentity RoleApp instance name namespace)
        else Err UnknownShape
    | _ => Err UnknownShape
    end.
Proof.
  intros Hi. unfold ParseIdentity.
  assert (CutPrefix ("farcast://" +:+ instance +:+ "/" +:+ rest) ("farcast://" +:+ instance +:+ "/") = Some rest) as ->.
  { apply CutPrefix_spec. by rewrite !app_string_assoc. }
  by rewrite decide_False.
Qed.

Lemma split_two a b : without slash a = true -> without slash b = true -> SplitByte slash (a +:+ "/" +:+ b) = [a; b].
Proof. intros Ha Hb. change ("/" +:+ b) with (String slash b). rewrite SplitByte_app by done. by rewrite SplitByte_without. Qed.

Lemma split_three a b c : without slash a = true -> without slash b = true -> without slash c = true ->
  SplitByte slash (a +:+ "/" +:+ b +:+ "/" +:+ c) = [a; b; c].
Proof. intros Ha Hb Hc. change ("/" +:+ b +:+ "/" +:+ c) with (String slash (b +:+ "/" +:+ c)). rewrite SplitByte_app by done. by rewrite split_two. Qed.

(** The instance of a URI. *)
Lemma other_instance instance instance' rest : without slash instance = true -> without slash instance' = true ->
  instance <> instance' -> ParseIdentity ("farcast://" +:+ instance +:+ "/" +:+ rest) instance' = Err OtherInstance.
Proof.
  intros Hi Hi' Hne. unfold ParseIdentity. destruct (CutPrefix _ _) as [r|] eqn:E; [|done]. apply CutPrefix_spec in E. exfalso.
  rewrite !app_string_assoc in E. apply (app_string_inj "farcast://") in E.
  assert (cutByte slash (instance +:+ "/" +:+ rest) = cutByte slash (instance' +:+ "/" +:+ r)) as Ec by (by rewrite E).
  change ("/" +:+ ?x) with (String slash x) in Ec. rewrite !cutByte_app in Ec by done. congruence.
Qed.

Lemma AllowPusher_spec instance rest : AllowPusher instance ("farcast://" +:+ instance +:+ "/" +:+ rest) = true <->
  rest = "operator"%string \/ exists d, rest = "keeper/" +:+ d /\ d <> "".
Proof.
  unfold AllowPusher. rewrite orb_true_iff, andb_true_iff, bool_decide_eq_true, HasPrefix_spec. split.
  - intros [E|[[r E] Hl]].
    + left. apply (app_string_inj "farcast://"), (app_string_inj instance) in E. by apply (app_string_inj "/").
    + right. exists r. rewrite !app_string_assoc in E. apply (app_string_inj "farcast://"), (app_string_inj instance) in E.
      apply (app_string_inj "/") in E. split; [done|]. intros ->. subst rest. apply Z.ltb_lt in Hl.
      exact (Z.lt_irrefl _ Hl).
  - intros [->|(d & -> & Hd)]; [by left|right]. split; [exists d; by rewrite !app_string_assoc|].
    apply Z.ltb_lt. change ("/" +:+ "keeper/" +:+ d) with ("/keeper/" +:+ d). rewrite <- !app_string_assoc, (len_app _ d).
    destruct d; [done|]. unfold len at 3. cbn [String.length]. lia.
Qed.

(** A name of lower-case letters, digits and dashes, as a Kubernetes label is. *)
Definition labelByte (a : ascii) : bool :=
  let c := Z.of_N (N_of_ascii a) in inRange 97 122 c || isDigit c || (c =? 45).
Definition label (s : string) : Prop := s <> "" /\ forallb labelByte (String.list_ascii_of_string s) = true.

Lemma label_without c s : labelByte c = false -> label s -> without c s = true.
Proof.
  intros Hc [_ Hs]. unfold without. induction s as [|a s IH]; [done|]. cbn in Hs |- *. apply andb_true_iff in Hs as [Ha Hs].
  rewrite IH by done. destruct (Ascii.eqb_spec a c) as [->|]; [congruence|done].
Qed.

Definition pathText (s : string) : bool := forallb (fun a => labelByte a || Ascii.eqb a slash) (String.list_ascii_of_string s).

Lemma pathText_app a b : pathText (a +:+ b) = pathText a && pathText b.
Proof. induction a as [|c a IH]; [done|]. rewrite cons_app. unfold pathText in *. cbn. by rewrite IH, andb_assoc. Qed.

Lemma label_path s : label s -> pathText s = true.
Proof.
  intros [_ Hs]. unfold pathText. revert Hs. generalize (String.list_ascii_of_string s) as l.
  induction l as [|a l IH]; [done|]. cbn. intros [-> Hl]%andb_true_iff. by apply IH.
Qed.

(** What the library promises of certificates and URLs: a leaf says the usage and the names it was signed for, if
    its URIs are of the shape above; a text without a colon has no scheme; a URI of that shape prints as it was. *)
Definition plainURI (uri : string) : Prop :=
  exists host path, label host /\ pathText path = true /\
    uri = "farcast://" +:+ host +:+ "/" +:+ path.

Class CALaws `{CA} := {
  sign_says ca subject eku names leaf : sign ca subject eku names = Ok leaf -> Forall plainURI (sn_URIs names) ->
    leafUsage leaf = eku /\ leafNames leaf = names;
  no_scheme s : without ":" s = true -> parseURI s = None;
  plain_prints uri : plainURI uri -> parseURI uri = Some uri
}.

(** The leaves that are issued for an instance's callers, and for whom. *)
Inductive issued `{CA} (instance : string) : Leaf -> Identity -> Prop :=
| operator_leaf m : Mint instance = Ok m -> issued instance (mi_Client m) (mkIdentity RoleOperator instance "" "")
| keeper_leaf caCert caKey device leaf : label device -> IssueKeeperClient caCert caKey instance device = Ok leaf ->
    issued instance leaf (mkIdentity RoleKeeper instance device "")
| app_leaf caCert caKey namespace app leaf : label namespace -> label app ->
    IssueAppClient caCert caKey instance namespace app = Ok leaf ->
    issued instance leaf (mkIdentity RoleApp instance app namespace).

(** Who the listeners of an instance take the holder of a URI for. *)
Definition recognised (instance uri : string) (id : Identity) : Prop :=
  ParseIdentity uri instance = Ok id /\
  (forall instance', label instance' -> instance' <> instance -> ParseIdentity uri instance' = Err OtherInstance) /\
  (AllowPusher instance uri = true <-> id_Role id = RoleOperator \/ id_Role id = RoleKeeper) /\
  (AllowData instance uri = true <-> id_Role id <> RoleKeeper).

Lemma label_slash s : label s -> without slash s = true.
Proof. by apply label_without. Qed.

Lemma recognised_uri instance rest id : label instance ->
  ParseIdentity ("farcast://" +:+ instance +:+ "/" +:+ rest) instance = Ok id ->
  ((rest = "operator"%string \/ exists d, rest = "keeper/" +:+ d /\ d <> "") <-> id_Role id = RoleOperator \/ id_Role id = RoleKeeper) ->
  recognised instance ("farcast://" +:+ instance +:+ "/" +:+ rest) id.
Proof.
  intros Hi Hp Hr. split_and!; [done| | |].
  - intros instance' Hi' Hne. apply other_instance; [by apply label_slash..|congruence].
  - rewrite <- Hr. apply AllowPusher_spec.
  - unfold AllowData. by rewrite Hp, bool_decide_eq_true.
Qed.

Lemma operator_recognised instance : label instance ->
  recognised instance (OperatorURI instance) (mkIdentity RoleOperator instance "" "").
Proof.
  intros Hi. apply (recognised_uri instance "operator"); [done|rewrite parse_uri by apply Hi; by rewrite decide_True|]. naive_solver.
Qed.

Lemma keeper_recognised instance device : label instance -> label device ->
  recognised instance (KeeperURI instance device) (mkIdentity RoleKeeper instance device "").
Proof.
  intros Hi [Hd Hd']. apply (recognised_uri instance ("keeper/" +:+ device)); [done| |naive_solver].
  rewrite parse_uri by apply Hi. rewrite decide_False by done. change ("keeper/" +:+ device) with ("keeper" +:+ "/" +:+ device).
  rewrite split_two by (done || by apply label_slash). by rewrite decide_True.
Qed.

Lemma device_recognised instance device : label instance -> label device ->
  recognised instance (DeviceURI instance device) (mkIdentity RoleDevice instance device "").
Proof.
  intros Hi [Hd Hd']. apply (recognised_uri instance ("device/" +:+ device)); [done| |].
  - rewrite parse_uri by apply Hi. rewrite decide_False by done. change ("device/" +:+ device) with ("device" +:+ "/" +:+ device).
    rewrite split_two by (done || by apply label_slash). rewrite decide_False by (by intros [? _]). by rewrite decide_True.
  - split; [intros [E|(d & E & _)]; discriminate E|]. by intros [E|E].
Qed.

Lemma app_recognised instance namespace app : label instance -> label namespace -> label app ->
  recognised instance (AppURI instance namespace app) (mkIdentity RoleApp instance app namespace).
Proof.
  intros Hi [Hn Hn'] [Ha Ha']. apply (recognised_uri instance ("app/" +:+ namespace +:+ "/" +:+ app)); [done| |].
  - rewrite parse_uri by apply Hi. rewrite decide_False by done.
    change ("app/" +:+ namespace +:+ "/" +:+ app) with ("app" +:+ "/" +:+ namespace +:+ "/" +:+ app).
    rewrite split_three by (done || by apply label_slash). by rewrite decide_True.
  - split; [intros [E|(d & E & _)]; discriminate E|]. by intros [E|E].
Qed.

(** ** What a leaf carries *)

Section leaves.
Context `{CA} `{!CALaws}.

Lemma uri_no_address rest : ParseIP ("farcast://" +:+ rest) = false.
Proof. change (ParseIP ("farcast://" +:+ rest)) with (if without "%" ("farcast://" +:+ rest) then false else false). by destruct (without _ _). Qed.

Lemma client_leaf ca host path leaf : label host ->
  pathText path = true ->
  IssueClient ca ("farcast://" +:+ host +:+ "/" +:+ path) = Ok leaf ->
  leafUsage leaf = ClientAuth /\ leafNames leaf = mkSans [] ["farcast://" +:+ host +:+ "/" +:+ path] [].
Proof.
  intros Hh Hp. assert (plainURI ("farcast://" +:+ host +:+ "/" +:+ path)) as Hu by (by exists host, path).
  unfold IssueClient, issue. rewrite decide_False by done. unfold applyIdentitySAN. rewrite uri_no_address, plain_prints by done.
  intros Hs. apply (sign_says _ _ _ _ _ Hs). by constructor.
Qed.

Lemma server_leaf ca instance a b leaf : label instance -> without "." a = true -> without "." b = true ->
  without ":" (a +:+ "." +:+ b) = true -> without "%" (a +:+ "." +:+ b) = true ->
  IssueServer ca (instance +:+ "." +:+ a +:+ "." +:+ b) = Ok leaf ->
  leafUsage leaf = ServerAuth /\ leafNames leaf = mkSans [] [] [instance +:+ "." +:+ a +:+ "." +:+ b].
Proof.
  intros Hi Ha Hb Hc Hp.
  assert (forall c, labelByte c = false -> Ascii.eqb "." c = false -> without c (a +:+ "." +:+ b) = true ->
    without c (instance +:+ "." +:+ a +:+ "." +:+ b) = true) as Hw.
  { intros c Hl Hdot Hab. rewrite without_app, (label_without c instance) by done.
    change (without c ("." +:+ a +:+ "." +:+ b)) with (negb (Ascii.eqb "." c) && without c (a +:+ "." +:+ b)). by rewrite Hdot, Hab. }
  assert (ParseIP (instance +:+ "." +:+ a +:+ "." +:+ b) = false) as Hip.
  { unfold ParseIP. destruct (addressKind_without _ (Hw ":"%char eq_refl eq_refl Hc) (Hw "%"%char eq_refl eq_refl Hp)) as [Ek|Ek]; rewrite Ek; [|done].
    unfold ipv4. change ("." +:+ a +:+ "." +:+ b) with (String "." (a +:+ String "." b)).
    rewrite !SplitByte_app by (done || by apply label_without). by rewrite SplitByte_without. }
  unfold IssueServer, issue. case_decide as He; [by destruct instance|]. unfold applyIdentitySAN. rewrite Hip, no_scheme by by apply Hw.
  intros Hs. by apply (sign_says _ _ _ _ _ Hs).
Qed.

Lemma wrap_ok {E E' A} (f : E -> E') (x : result E A) a : wrapErr f x = Ok a -> x = Ok a.
Proof. destruct x; [by intros [= ->]|done]. Qed.

Lemma Mint_ok instance m : Mint instance = Ok m -> exists ca,
  IssueClient ca (OperatorURI instance) = Ok (mi_Client m) /\ IssueServer ca (ServerName instance) = Ok (mi_Server m) /\
  DialName m = ServerName instance.
Proof.
  unfold Mint. case_decide; [done|]. intros (ca & _ & (key & _ & (client & Hc%wrap_ok & (server & Hs%wrap_ok & [= <-])%bind_ok)%bind_ok)%bind_ok)%bind_ok.
  exists ca. split_and!; [done..|]. unfold DialName. cbn [mi_ServerName mi_Instance]. by case_decide.
Qed.

Lemma names_differ a b : ServerName a <> KeyholderServerName b.
Proof.
  unfold ServerName, KeyholderServerName. intros E. apply (f_equal rev_string) in E. rewrite !rev_string_app in E. discriminate E.
Qed.

(** Every leaf that is issued to a caller is a client's, of one URI that says who the caller is. *)
Lemma issued_recognised instance leaf id : label instance -> issued instance leaf id -> exists uri,
  leafUsage leaf = ClientAuth /\ leafNames leaf = mkSans [] [uri] [] /\ recognised instance uri id.
Proof.
  intros Hi Hl. destruct Hl as [m (ca & Hc & _)%Mint_ok|caCert caKey device leaf Hd E|caCert caKey namespace app leaf Hn Ha E].
  - exists (OperatorURI instance). apply (client_leaf ca instance "operator") in Hc as [? ?]; [|done..].
    split_and!; [done..|by apply operator_recognised].
  - exists (KeeperURI instance device). unfold IssueKeeperClient in E. do 2 (case_decide; [done|]).
    apply bind_ok in E as (ca & _ & Hc%wrap_ok). apply (client_leaf ca instance ("keeper/" +:+ device)) in Hc as [? ?]; [|done|by rewrite pathText_app, (label_path device)].
    split_and!; [done..|by apply keeper_recognised].
  - exists (AppURI instance namespace app). unfold IssueAppClient in E. case_decide; [done|].
    apply bind_ok in E as (ca & _ & Hc%wrap_ok).
    apply (client_leaf ca instance ("app/" +:+ namespace +:+ "/" +:+ app)) in Hc as [? ?]; [|done|].
    + split_and!; [done..|by apply app_recognised].
    + by rewrite !pathText_app, (label_path namespace), (label_path app).
Qed.

End leaves.
(** ** The properties *)

(** CXX: what is issued is what is recognised. Let an instance's name be a label (lower-case letters, digits, dashes).
    The leaf that is made for its operator with the CA, for a named keeper or for a named application is a client's,
    and carries one URI, which the keyholder of the instance reads as that very caller -- its role, its own name and,
    for an application, its namespace -- and the keyholder of any other instance as a stranger; on a connection that
    presents it the control listener lets in the operator and the keepers, and the data listener all but the keepers.
    A thin device's URI, which nothing issues yet, would be read the same way, and let in for data only. The server
    leaves carry no URI but one DNS name: FatLine's the name the client pins, the keyholder's another, which is no
    instance's FatLine name. *)
Theorem issued_identities_are_recognised `{CA} `{!CALaws} instance : label instance ->
  (forall leaf id, issued instance leaf id -> exists uri,
     leafUsage leaf = ClientAuth /\ leafNames leaf = mkSans [] [uri] [] /\ recognised instance uri id /\
     (VerifyConnection (Some (AllowPusher instance)) [sn_URIs (leafNames leaf)] = true <-> id_Role id = RoleOperator \/ id_Role id = RoleKeeper) /\
     (VerifyConnection (Some (AllowData instance)) [sn_URIs (leafNames leaf)] = true <-> id_Role id <> RoleKeeper)) /\
  (forall device, label device -> recognised instance (DeviceURI instance device) (mkIdentity RoleDevice instance device "")) /\
  (forall m, Mint instance = Ok m -> leafUsage (mi_Server m) = ServerAuth /\ leafNames (mi_Server m) = mkSans [] [] [DialName m] /\
     DialName m = ServerName instance) /\
  (forall caCert caKey leaf, IssueKeyholderServer caCert caKey instance = Ok leaf ->
     leafUsage leaf = ServerAuth /\ leafNames leaf = mkSans [] [] [KeyholderServerName instance]) /\
  (forall instance', ServerName instance' <> KeyholderServerName instance).
Proof.
  intros Hi. split_and!.
  - intros leaf id Hl.
    assert (exists uri, leafUsage leaf = ClientAuth /\ leafNames leaf = mkSans [] [uri] [] /\ recognised instance uri id) as (uri & Hu & Hn & Hr)
      by by apply issued_recognised.
    exists uri. split_and!; [done..| |]; rewrite Hn; cbn; rewrite orb_false_r; apply Hr.
  - intros device Hd. by apply device_recognised.
  - intros m (ca & _ & Hs & Hd)%Mint_ok. rewrite Hd. apply (server_leaf ca instance "fatline" "farcast") in Hs as [? ?]; [|done..].
    done.
  - intros caCert caKey leaf. unfold IssueKeyholderServer. case_decide; [done|]. intros (ca & _ & Hs%wrap_ok)%bind_ok.
    by apply (server_leaf ca instance "datasphered" "farcast") in Hs.
  - intros instance' E. by apply names_differ in E.
Qed.

(** A CA that signs everything, and a library that reads what it must. *)
Definition exCA : CA := {|
  authority := string;
  LoadCA caCert _ := Ok caCert;
  NewCA instance := Ok ("CA of " +:+ instance);
  CertPEM ca := ca;
  KeyPEM ca := Ok ("key of " +:+ ca);
  Leaf := usage * sans;
  sign _ _ eku names := Ok (eku, names);
  leafUsage := fst;
  leafNames := snd;
  parseURI s := if HasPrefix s "farcast://" then Some s else None
|}.

Lemma exCA_laws : @CALaws exCA.
Proof.
  split.
  - by intros ca subject eku names leaf [= <-].
  - intros s Hs. cbn. destruct (HasPrefix s "farcast://") eqn:E; [|done]. apply HasPrefix_spec in E as [r ->].
    by rewrite without_app in Hs.
  - intros uri (host & path & _ & _ & ->). cbn [parseURI exCA].
    assert (HasPrefix ("farcast://" +:+ host +:+ "/" +:+ path) "farcast://" = true) as -> by (apply HasPrefix_spec; by eexists). done.
Qed.

Lemma issued_identities_are_recognised_witness :
  label "prod" /\ exists leaf, @IssueAppClient exCA "ca" "key" "prod" "shop" "web" = Ok leaf /\
    exists uri, @leafNames exCA leaf = mkSans [] [uri] [] /\ recognised "prod" uri (mkIdentity RoleApp "prod" "web" "shop").
Proof.
  assert (label "prod") as Hi by by split. split; [done|].
  eexists. split; [reflexivity|].
  destruct (@issued_identities_are_recognised exCA exCA_laws "prod" Hi) as [Hl _].
  destruct (Hl _ _ (@app_leaf exCA "prod" "ca" "key" "shop" "web" _ ltac:(by split) ltac:(by split) eq_refl)) as (uri & _ & Hn & Hr & _).
  by exists uri.
Defined.
