(* ===== verification/Inspector.v ===== *)
(** * Shrike's inspector ([shrike/internal/inspector/inspector.go])

    FatLine's events folded into a picture: a row for each application, host
    and port that was allowed, a row for each class of denial, and the alerts
    the denials raise.  [Record] runs under the inspector's lock, one event at a
    time; the moment it works with is read before the lock, so moments need not
    ascend. *)

From Stdlib Require Import Ascii.
From S2P Require Import Prelude Float64 GoTime GoStrings Event.

(** ** Severities *)

Inductive Severity := NoSeverity | Info | Warning | Critical.

#[export] Instance Severity_eq_dec : EqDecision Severity.
Proof. solve_decision. Defined.

Definition rank (s : Severity) : Z := match s with Critical => 3 | Warning => 2 | Info => 1 | NoSeverity => 0 end.
Definition escalate (s : Severity) : Severity := match s with Info => Warning | _ => Critical end.

Definition severityForReason (reason : string) : Severity :=
  if decide (reason = ReasonSNIMismatch) then Critical
  else if decide (reason = ReasonCleartext) then Info
  else Warning.

Definition burstThreshold : Z := 20.

(** ** Connection times *)

Definition LatencyBounds : list Z := [5; 25; 100; 500; 2000].
Definition LatencyBands : list string := ["≤5ms"; "≤25ms"; "≤100ms"; "≤500ms"; "≤2s"; ">2s"]%string.

(** No bucket is the nil slice. *)
Record Latency := mkLatency { l_Count : Z; l_TotalMillis : Z; l_MaxMillis : Z; l_Buckets : list Z }.

Definition noLatency : Latency := mkLatency 0 0 0 [].

Definition allocated (b : list Z) : list Z := match b with [] => repeat 0 (S (length LatencyBounds)) | _ => b end.

(** The first bound that is not below [ms], or the overflow. *)
Definition bucketFor (ms : Z) : nat :=
  match list_find (fun bound => ms <= bound) LatencyBounds with Some (i, _) => i | None => length LatencyBounds end.

Definition Observe (ms : Z) (l : Latency) : Latency :=
  let ms := if ms <? 0 then 0 else ms in
  mkLatency (i64 (l_Count l + 1)) (i64 (l_TotalMillis l + ms)) (if l_MaxMillis l <? ms then ms else l_MaxMillis l)
    (alter (fun n => i64 (n + 1)) (bucketFor ms) (allocated (l_Buckets l))).

Fixpoint addBuckets (b o : list Z) : list Z :=
  match b, o with
  | x :: b, y :: o => i64 (x + y) :: addBuckets b o
  | _, _ => b
  end.

Definition AddLatency (o l : Latency) : Latency :=
  if l_Count o =? 0 then l
  else mkLatency (i64 (l_Count l + l_Count o)) (i64 (l_TotalMillis l + l_TotalMillis o))
         (if l_MaxMillis l <? l_MaxMillis o then l_MaxMillis o else l_MaxMillis l)
         (addBuckets (allocated (l_Buckets l)) (l_Buckets o)).

Definition MeanMillis (l : Latency) : float64 :=
  if l_Count l =? 0 then fzero else fdiv (of_int (l_TotalMillis l)) (of_int (l_Count l)).

(** The walk over the buckets. *)
Fixpoint bandWalk (rank seen : Z) (buckets : list Z) (bands : list string) : string :=
  match buckets, bands with
  | n :: buckets, band :: bands =>
      let seen := i64 (seen + n) in
      if rank <=? seen then band else bandWalk rank seen buckets bands
  | _, _ => ">2s"
  end.

Definition Band (l : Latency) (q : float64) : string :=
  if l_Count l =? 0 then "—"
  else
    let rank := int_of (fadd (fmul (of_int (l_Count l)) q) (flit 1 2)) in
    let rank := if rank <? 1 then 1 else rank in
    bandWalk rank 0 (l_Buckets l) LatencyBands.

(** ** Rows *)

Record HostStat := mkHostStat {
  hs_App : string;
  hs_Namespace : string;
  hs_Host : string;
  hs_Port : string;
  hs_Declared : bool;
  hs_Allows : Z;
  hs_Fails : Z;
  hs_BytesUp : Z;
  hs_BytesDown : Z;
  hs_Latency : Latency;
  hs_LastSeen : Time
}.

Record AppStat := mkAppStat {
  as_App : string;
  as_Namespace : string;
  as_Hosts : Z;
  as_Allows : Z;
  as_Denies : Z;
  as_Fails : Z;
  as_BytesUp : Z;
  as_BytesDown : Z;
  as_Latency : Latency;
  as_LastSeen : Time
}.

Record Violation := mkViolation {
  vi_Severity : Severity;
  vi_App : string;
  vi_Namespace : string;
  vi_Host : string;
  vi_Port : string;
  vi_Proto : string;
  vi_SNI : string;
  vi_Reason : string;
  vi_Count : Z;
  vi_FirstSeen : Time;
  vi_LastSeen : Time
}.

Record vrec := mkVrec { vr_Violation : Violation; vr_lastAlertAt : Time }.

(** The texts of an alert; [who] is the application, when it is known. *)
Inductive alert_message :=
| SNIMessage (who : option string) (host : string) (count : Z)
| CleartextMessage (who : option string) (host : string) (count : Z)
| UnknownAppMessage (host : string) (count : Z)
| UndeclaredMessage (who : option string) (host : string) (count : Z).

Record Alert := mkAlert { al_Violation : Violation; al_Message : alert_message }.

Record Inspector := mkInspector {
  in_window : Duration;
  in_events : Z;
  in_allowed : gmap string HostStat;
  in_violations : gmap string vrec
}.

(** ** Recording *)

Definition New (window : Duration) : Inspector := mkInspector (if window <=? 0 then Minute else window) 0 ∅ ∅.

Definition NUL : string := String "000" "".
Definition statKey (e : Event) : string := ev_Tenant e +:+ NUL +:+ ev_App e +:+ NUL +:+ ev_Host e +:+ NUL +:+ ev_Port e.
Definition violationKey (e : Event) : string := ev_Tenant e +:+ NUL +:+ ev_App e +:+ NUL +:+ ev_Reason e +:+ NUL +:+ ev_Host e.

(** The row of an event, made on first sight, with its port and the moment. *)
Definition statFor (m : gmap string HostStat) (e : Event) (now : Time) : HostStat :=
  let s := default (mkHostStat (ev_App e) (ev_Tenant e) (ev_Host e) "" false 0 0 0 0 noLatency zero_time) (m !! statKey e) in
  mkHostStat (hs_App s) (hs_Namespace s) (hs_Host s) (if decide (ev_Port e = "") then hs_Port s else ev_Port e) (hs_Declared s)
    (hs_Allows s) (hs_Fails s) (hs_BytesUp s) (hs_BytesDown s) (hs_Latency s) now.

Definition observed (e : Event) (l : Latency) : Latency := if 0 <? ev_DialMillis e then Observe (ev_DialMillis e) l else l.

Definition recordAllow (m : gmap string HostStat) (e : Event) (now : Time) : gmap string HostStat :=
  let s := statFor m e now in
  <[statKey e := mkHostStat (hs_App s) (hs_Namespace s) (hs_Host s) (hs_Port s) (hs_Declared s) (i64 (hs_Allows s + 1)) (hs_Fails s)
      (hs_BytesUp s) (hs_BytesDown s) (hs_Latency s) (hs_LastSeen s)]> m.

Definition recordClose (m : gmap string HostStat) (e : Event) (now : Time) : gmap string HostStat :=
  let s := statFor m e now in
  <[statKey e := mkHostStat (hs_App s) (hs_Namespace s) (hs_Host s) (hs_Port s) (hs_Declared s) (hs_Allows s) (hs_Fails s)
      (i64 (hs_BytesUp s + ev_BytesUp e)) (i64 (hs_BytesDown s + ev_BytesDown e)) (observed e (hs_Latency s)) (hs_LastSeen s)]> m.

Definition recordFail (m : gmap string HostStat) (e : Event) (now : Time) : gmap string HostStat :=
  let s := statFor m e now in
  <[statKey e := mkHostStat (hs_App s) (hs_Namespace s) (hs_Host s) (hs_Port s) (hs_Declared s) (hs_Allows s) (i64 (hs_Fails s + 1))
      (hs_BytesUp s) (hs_BytesDown s) (observed e (hs_Latency s)) (hs_LastSeen s)]> m.

Definition message (reason host app : string) (count : Z) : alert_message :=
  let who := if decide (app = "") then None else Some app in
  if decide (reason = ReasonSNIMismatch) then SNIMessage who host count
  else if decide (reason = ReasonCleartext) then CleartextMessage who host count
  else if decide (reason = ReasonUnknownApp) then UnknownAppMessage host count
  else UndeclaredMessage who host count.

Definition firstSight (e : Event) (now : Time) : vrec :=
  mkVrec (mkViolation NoSeverity (ev_App e) (ev_Tenant e) (ev_Host e) (ev_Port e) (ev_Proto e) (ev_SNI e) (ev_Reason e) 0 now zero_time) zero_time.

Definition severityAt (reason : string) (count : Z) : Severity :=
  let base := severityForReason reason in if burstThreshold <=? count then escalate base else base.

Definition recordDeny (window : Duration) (m : gmap string vrec) (e : Event) (now : Time) : option Alert * gmap string vrec :=
  let r := default (firstSight e now) (m !! violationKey e) in
  let v := vr_Violation r in
  let count := i64 (vi_Count v + 1) in
  let severity := severityAt (ev_Reason e) count in
  let v' := mkViolation severity (vi_App v) (vi_Namespace v) (vi_Host v) (if decide (ev_Port e = "") then vi_Port v else ev_Port e)
              (vi_Proto v) (if decide (ev_SNI e = "") then vi_SNI v else ev_SNI e) (vi_Reason v) count (vi_FirstSeen v) now in
  if negb (count =? 1) && (rank severity <=? rank (vi_Severity v)) && (Sub now (vr_lastAlertAt r) <? window)
  then (None, <[violationKey e := mkVrec v' (vr_lastAlertAt r)]> m)
  else (Some (mkAlert v' (message (vi_Reason v') (vi_Host v') (vi_App v') count)), <[violationKey e := mkVrec v' now]> m).

Definition RecordEvent (i : Inspector) (e : Event) (now : Time) : option Alert * Inspector :=
  let events := i64 (in_events i + 1) in
  match ev_Kind e with
  | KAllow => (None, mkInspector (in_window i) events (recordAllow (in_allowed i) e now) (in_violations i))
  | KClose => (None, mkInspector (in_window i) events (recordClose (in_allowed i) e now) (in_violations i))
  | KFail => (None, mkInspector (in_window i) events (recordFail (in_allowed i) e now) (in_violations i))
  | KDeny =>
      let '(alert, violations) := recordDeny (in_window i) (in_violations i) e now in
      (alert, mkInspector (in_window i) events (in_allowed i) violations)
  end.

(** ** Reading *)

Definition compareThen (c d : comparison) : comparison := match c with Eq => d | _ => c end.
Definition isLt (c : comparison) : bool := match c with Lt => true | _ => false end.

Section reading.
Context `{GoRange}.

(** Rows that compare equal come in the order of the map. *)
Definition Allowed (i : Inspector) : list HostStat :=
  sort_slice (fun a b => isLt (compareThen (String.compare (hs_App a) (hs_App b))
    (compareThen (String.compare (hs_Host a) (hs_Host b)) (String.compare (hs_Port a) (hs_Port b)))))
    (go_range (in_allowed i)).*2.

Definition Violations (i : Inspector) : list Violation :=
  sort_slice (fun a b => isLt (compareThen (rank (vi_Severity b) ?= rank (vi_Severity a))
    (compareThen (String.compare (vi_Host a) (vi_Host b)) (String.compare (vi_Reason a) (vi_Reason b)))))
    (vr_Violation <$> (go_range (in_violations i)).*2).

Definition appKey (namespace app : string) : string := namespace +:+ NUL +:+ app.

(** [get]: the row of an application, made on first sight. *)
Definition appRow (m : gmap string AppStat) (namespace app : string) (now : Time) : AppStat :=
  let a := default (mkAppStat app namespace 0 0 0 0 0 0 noLatency zero_time) (m !! appKey namespace app) in
  mkAppStat (as_App a) (as_Namespace a) (as_Hosts a) (as_Allows a) (as_Denies a) (as_Fails a) (as_BytesUp a) (as_BytesDown a)
    (as_Latency a) (if After now (as_LastSeen a) then now else as_LastSeen a).

Definition addRow (m : gmap string AppStat) (s : HostStat) : gmap string AppStat :=
  let a := appRow m (hs_Namespace s) (hs_App s) (hs_LastSeen s) in
  <[appKey (hs_Namespace s) (hs_App s) :=
      mkAppStat (as_App a) (as_Namespace a) (as_Hosts a + 1) (i64 (as_Allows a + hs_Allows s)) (as_Denies a) (i64 (as_Fails a + hs_Fails s))
        (i64 (as_BytesUp a + hs_BytesUp s)) (i64 (as_BytesDown a + hs_BytesDown s)) (AddLatency (hs_Latency s) (as_Latency a)) (as_LastSeen a)]> m.

Definition addDenies (m : gmap string AppStat) (v : Violation) : gmap string AppStat :=
  let a := appRow m (vi_Namespace v) (vi_App v) (vi_LastSeen v) in
  <[appKey (vi_Namespace v) (vi_App v) :=
      mkAppStat (as_App a) (as_Namespace a) (as_Hosts a) (as_Allows a) (i64 (as_Denies a + vi_Count v)) (as_Fails a)
        (as_BytesUp a) (as_BytesDown a) (as_Latency a) (as_LastSeen a)]> m.

Definition appTable (i : Inspector) : gmap string AppStat :=
  foldl addDenies (foldl addRow ∅ (go_range (in_allowed i)).*2) (vr_Violation <$> (go_range (in_violations i)).*2).

Definition Apps (i : Inspector) : list AppStat :=
  sort_slice (fun a b => isLt (compareThen (String.compare (as_App a) (as_App b)) (String.compare (as_Namespace a) (as_Namespace b))))
    (go_range (appTable i)).*2.

End reading.

(** A run: the inspector and the alerts raised, each with its moment. *)
Definition recordStep (acc : list (Alert * Time) * Inspector) (en : Event * Time) : list (Alert * Time) * Inspector :=
  let '(alert, i) := RecordEvent acc.2 en.1 en.2 in
  (match alert with Some a => acc.1 ++ [(a, en.2)] | None => acc.1 end, i).

Definition run (window : Duration) (l : list (Event * Time)) : list (Alert * Time) * Inspector := foldl recordStep ([], New window) l.

(** ** What a run counts *)

Definition total (f : Event -> Z) (l : list (Event * Time)) : Z := foldr (fun en acc => f en.1 + acc) 0 l.

Lemma total_snoc f l e t : total f (l ++ [(e, t)]) = total f l + f e.
Proof. unfold total. rewrite foldr_app. cbn. induction l as [|x l IH]; cbn; [lia|]. rewrite IH. lia. Qed.

Lemma total_ext f g l : (forall e t, (e, t) ∈ l -> f e = g e) -> total f l = total g l.
Proof.
  induction l as [|[e t] l IH]; intros Hf; [done|]. cbn. rewrite (Hf e t) by (by left). f_equal. apply IH.
  intros e' t' Hin. apply (Hf e' t'). by right.
Qed.

Lemma run_snoc window l e t : run window (l ++ [(e, t)]) = recordStep (run window l) (e, t).
Proof. unfold run. by rewrite foldl_app. Qed.

(** *** One row *)

(** An event that measured a dial. *)
Definition dialled (e : Event) : Prop := (ev_Kind e = KClose \/ ev_Kind e = KFail) /\ 0 < ev_DialMillis e.

#[export] Instance dialled_dec e : Decision (dialled e).
Proof. unfold dialled. apply _. Defined.

Definition rowOf (m : gmap string HostStat) (k : string) : HostStat :=
  default (mkHostStat "" "" "" "" false 0 0 0 0 noLatency zero_time) (m !! k).

Definition hit (P : Prop) `{Decision P} (z : Z) : Z := if decide P then z else 0.

(** The numbers of a row are those of the events with its key. *)
Record counted (l : list (Event * Time)) (k : string) (s : HostStat) : Prop := {
  co_allows : hs_Allows s = i64 (total (fun e => hit (ev_Kind e = KAllow /\ statKey e = k) 1) l);
  co_fails : hs_Fails s = i64 (total (fun e => hit (ev_Kind e = KFail /\ statKey e = k) 1) l);
  co_up : hs_BytesUp s = i64 (total (fun e => hit (ev_Kind e = KClose /\ statKey e = k) (ev_BytesUp e)) l);
  co_down : hs_BytesDown s = i64 (total (fun e => hit (ev_Kind e = KClose /\ statKey e = k) (ev_BytesDown e)) l);
  co_dials : l_Count (hs_Latency s) = i64 (total (fun e => hit (dialled e /\ statKey e = k) 1) l);
  co_millis : l_TotalMillis (hs_Latency s) = i64 (total (fun e => hit (dialled e /\ statKey e = k) (ev_DialMillis e)) l);
  co_buckets : forall j, (j < 6)%nat -> allocated (l_Buckets (hs_Latency s)) !! j =
    Some (i64 (total (fun e => hit (dialled e /\ statKey e = k /\ bucketFor (ev_DialMillis e) = j) 1) l))
}.

Lemma hit_true P `{Decision P} z : P -> hit P z = z.
Proof. intros. unfold hit. by rewrite decide_True. Qed.

Lemma hit_false P `{Decision P} z : ~ P -> hit P z = 0.
Proof. intros. unfold hit. by rewrite decide_False. Qed.

Lemma hit_iff P Q `{Decision P} `{Decision Q} z : (P <-> Q) -> hit P z = hit Q z.
Proof. intros HPQ. unfold hit. repeat case_decide; tauto. Qed.

Lemma allocated_alter (f : Z -> Z) i b : b <> [] -> allocated (alter f i b) = alter f i b.
Proof. destruct b as [|x b]; [done|]. by destruct i. Qed.

Lemma Observe_buckets ms l j : 0 < ms -> allocated (l_Buckets (Observe ms l)) !! j =
  if decide (bucketFor ms = j) then (fun n => i64 (n + 1)) <$> allocated (l_Buckets l) !! j else allocated (l_Buckets l) !! j.
Proof.
  intros Hms. unfold Observe. rewrite (proj2 (Z.ltb_ge ms 0)) by lia. cbn [l_Buckets].
  rewrite allocated_alter by (by destruct (l_Buckets l)). case_decide as Hj; [subst; by rewrite list_lookup_alter_eq|by rewrite list_lookup_alter_ne].
Qed.

(** A row that takes an event with its key. *)
Lemma counted_hit l e t s :
  let k := statKey e in
  counted l k s ->
  counted (l ++ [(e, t)]) k
    (mkHostStat (hs_App s) (hs_Namespace s) (hs_Host s) (hs_Port s) (hs_Declared s)
       (i64 (hs_Allows s + hit (ev_Kind e = KAllow) 1)) (i64 (hs_Fails s + hit (ev_Kind e = KFail) 1))
       (i64 (hs_BytesUp s + hit (ev_Kind e = KClose) (ev_BytesUp e))) (i64 (hs_BytesDown s + hit (ev_Kind e = KClose) (ev_BytesDown e)))
       (if decide (dialled e) then Observe (ev_DialMillis e) (hs_Latency s) else hs_Latency s) (hs_LastSeen s)).
Proof.
  intros k [Ha Hf Hu Hd Hc Hm Hb]. subst k.
  assert (forall (P : Prop) `{Decision P} z, hit (P /\ statKey e = statKey e) z = hit P z) as Hk by (intros P HP z; unfold hit; repeat case_decide; tauto).
  split; cbn; rewrite ?total_snoc; rewrite ?Hk; rewrite ?Ha, ?Hf, ?Hu, ?Hd, ?i64_add_l; try done.
  - destruct (decide (dialled e)) as [Hdi|Hdi]; [rewrite (hit_true _ _ Hdi)|by rewrite (hit_false _ _ Hdi), Z.add_0_r].
    cbn. by rewrite Hc, i64_add_l.
  - destruct (decide (dialled e)) as [Hdi|Hdi]; [rewrite (hit_true _ _ Hdi)|by rewrite (hit_false _ _ Hdi), Z.add_0_r].
    destruct Hdi as [_ Hpos]. cbn. rewrite (proj2 (Z.ltb_ge (ev_DialMillis e) 0)) by lia. by rewrite Hm, i64_add_l.
  - intros j Hj. rewrite total_snoc. destruct (decide (dialled e)) as [Hdi|Hdi].
    + rewrite Observe_buckets by apply Hdi. rewrite (Hb j Hj). destruct (decide (bucketFor (ev_DialMillis e) = j)) as [Hbj|Hbj].
      * rewrite hit_true by (split; [exact Hdi|by split]). cbn. by rewrite i64_add_l.
      * rewrite hit_false by tauto. by rewrite Z.add_0_r.
    + rewrite hit_false by tauto. by rewrite Z.add_0_r, Hb.
Qed.

Ltac not_mine Hk :=
  unfold dialled; let Hx := fresh in intros Hx; destruct Hk as [Hk|Hk]; [rewrite Hk in Hx|]; intuition discriminate.

Lemma counted_miss l e t k s : (ev_Kind e = KDeny \/ statKey e <> k) -> counted l k s -> counted (l ++ [(e, t)]) k s.
Proof.
  intros Hk [Ha Hf Hu Hd Hc Hm Hb]. split; rewrite ?total_snoc.
  1-6: rewrite hit_false by not_mine Hk; by rewrite Z.add_0_r.
  intros j Hj. rewrite total_snoc, hit_false by not_mine Hk. rewrite Z.add_0_r. by apply Hb.
Qed.

Lemma counted_nothing k : counted [] k (rowOf ∅ k).
Proof.
  unfold rowOf. rewrite lookup_empty. split; try done. intros j Hj. do 6 (destruct j as [|j]; [done|]). lia.
Qed.

(** Two rows with the same numbers. *)
Definition numbers (s : HostStat) : Z * Z * Z * Z * Latency := (hs_Allows s, hs_Fails s, hs_BytesUp s, hs_BytesDown s, hs_Latency s).

Lemma counted_numbers l k s s' : numbers s' = numbers s -> counted l k s -> counted l k s'.
Proof.
  unfold numbers. intros Hn [Ha Hf Hu Hd Hc Hm Hb]. injection Hn as E1 E2 E3 E4 E5. split; rewrite ?E1, ?E2, ?E3, ?E4, ?E5; done.
Qed.

Lemma statFor_numbers m e now : numbers (statFor m e now) = numbers (rowOf m (statKey e)).
Proof. unfold statFor, rowOf. by destruct (m !! statKey e). Qed.

(** The row of an event, after it. *)
Definition rowAfter (m : gmap string HostStat) (e : Event) (now : Time) : HostStat :=
  let s := statFor m e now in
  mkHostStat (hs_App s) (hs_Namespace s) (hs_Host s) (hs_Port s) (hs_Declared s)
    (match ev_Kind e with KAllow => i64 (hs_Allows s + 1) | _ => hs_Allows s end)
    (match ev_Kind e with KFail => i64 (hs_Fails s + 1) | _ => hs_Fails s end)
    (match ev_Kind e with KClose => i64 (hs_BytesUp s + ev_BytesUp e) | _ => hs_BytesUp s end)
    (match ev_Kind e with KClose => i64 (hs_BytesDown s + ev_BytesDown e) | _ => hs_BytesDown s end)
    (match ev_Kind e with KClose | KFail => observed e (hs_Latency s) | _ => hs_Latency s end) now.

Lemma Record_allowed i e now : in_allowed (RecordEvent i e now).2 =
  if decide (ev_Kind e = KDeny) then in_allowed i else <[statKey e := rowAfter (in_allowed i) e now]> (in_allowed i).
Proof.
  unfold RecordEvent, rowAfter, recordAllow, recordClose, recordFail. destruct (ev_Kind e); cbn; try done.
  by destruct (recordDeny _ _ _ _).
Qed.

Lemma observed_dialled e l : match ev_Kind e with KClose | KFail => observed e l | _ => l end =
  if decide (dialled e) then Observe (ev_DialMillis e) l else l.
Proof.
  unfold observed. destruct (decide (dialled e)) as [[Hk Hp]|Hn].
  - rewrite (proj2 (Z.ltb_lt 0 (ev_DialMillis e))) by done. by destruct Hk as [->| ->].
  - destruct (Z.ltb_spec 0 (ev_DialMillis e)); [|by destruct (ev_Kind e)].
    destruct (ev_Kind e) eqn:Ek; try done; destruct Hn; (split; [rewrite Ek; tauto|done]).
Qed.

Lemma Record_counted i l e now k : counted l k (rowOf (in_allowed i) k) ->
  counted (l ++ [(e, now)]) k (rowOf (in_allowed (RecordEvent i e now).2) k).
Proof.
  intros Hc. rewrite Record_allowed. destruct (decide (ev_Kind e = KDeny)) as [Hk|Hk]; [apply counted_miss; [by left|done]|].
  destruct (decide (statKey e = k)) as [<-|Hne].
  2:{ apply counted_miss; [by right|]. unfold rowOf in *. by rewrite lookup_insert_ne. }
  unfold rowOf at 1. rewrite lookup_insert_eq. cbn [default].
  eapply counted_numbers in Hc; [|apply (statFor_numbers (in_allowed i) e now)].
  pose proof (counted_hit l e now _ Hc) as Hh. eapply counted_numbers; [|exact Hh].
  destruct Hc as [Ha Hf Hu Hd _ _ _]. unfold numbers, rowAfter. cbn zeta. generalize dependent (statFor (in_allowed i) e now). intros s Ha Hf Hu Hd _.
  cbn [hs_Allows hs_Fails hs_BytesUp hs_BytesDown hs_Latency]. rewrite observed_dialled.
  destruct (decide (ev_Kind e = KAllow)) as [Ek|Ek]; [|destruct (decide (ev_Kind e = KClose)) as [Ec|Ec]; [|destruct (decide (ev_Kind e = KFail)) as [Ef|Ef]; [|by destruct (ev_Kind e)]]].
  - rewrite (hit_true _ _ Ek), !hit_false, !Z.add_0_r, Ek, Hf, Hu, Hd, !i64_idem by congruence.
    rewrite decide_False; [done|]. intros [[?|?] _]; congruence.
  - rewrite (hit_true _ _ Ec), (hit_true _ _ Ec), !hit_false, !Z.add_0_r, Ec, Ha, Hf, !i64_idem by congruence. done.
  - rewrite (hit_true _ _ Ef), !hit_false, !Z.add_0_r, Ef, Ha, Hu, Hd, !i64_idem by congruence. done.
Qed.

Lemma run_counted window l k : counted l k (rowOf (in_allowed (run window l).2) k).
Proof.
  induction l as [|[e now] l IH] using rev_ind; [apply counted_nothing|]. rewrite run_snoc. unfold recordStep. cbn [fst snd].
  destruct (RecordEvent (run window l).2 e now) as [a i] eqn:E. cbn [snd]. apply (Record_counted _ _ e now) in IH. by rewrite E in IH.
Qed.

Lemma run_events window l : in_events (run window l).2 = i64 (Z.of_nat (length l)) /\ in_window (run window l).2 = in_window (New window).
Proof.
  induction l as [|[e now] l IH] using rev_ind; [done|]. rewrite run_snoc, length_app. unfold recordStep. cbn [fst snd].
  destruct (RecordEvent (run window l).2 e now) as [a i] eqn:E. cbn [snd]. unfold RecordEvent in E. destruct IH as [IH IHw].
  assert (i64 (in_events (run window l).2 + 1) = i64 (Z.of_nat (length l + 1))) as He by (rewrite IH, i64_add_l; f_equal; lia).
  destruct (ev_Kind e); [| destruct (recordDeny _ _ _ _) | |]; injection E as _ <-; by split.
Qed.

(** *** Which rows there are *)

(** The fields of an event that a key is made of hold no NUL. *)
Definition clean (e : Event) : Prop :=
  without "000" (ev_Tenant e) = true /\ without "000" (ev_App e) = true /\ without "000" (ev_Reason e) = true /\
  without "000" (ev_Host e) = true /\ without "000" (ev_Port e) = true.

Lemma cut_app a b a' b' : without "000" a = true -> without "000" a' = true -> a +:+ NUL +:+ b = a' +:+ NUL +:+ b' -> a = a' /\ b = b'.
Proof.
  intros Ha Ha' E. assert (cutByte "000" (a +:+ NUL +:+ b) = cutByte "000" (a' +:+ NUL +:+ b')) as Ec by (by rewrite E).
  unfold NUL in Ec. change (String "000" "" +:+ ?x) with (String "000" x) in Ec. rewrite !cutByte_app in Ec by done. by injection Ec as -> ->.
Qed.

Definition flow (e : Event) : string * string * string * string := (ev_Tenant e, ev_App e, ev_Host e, ev_Port e).
Definition class (e : Event) : string * string * string * string := (ev_Tenant e, ev_App e, ev_Reason e, ev_Host e).

Lemma statKey_inj e e' : clean e -> clean e' -> statKey e = statKey e' <-> flow e = flow e'.
Proof.
  intros (? & ? & ? & ? & ?) (? & ? & ? & ? & ?). unfold statKey, flow. split; [|by intros [= -> -> -> ->]].
  intros [-> [-> [-> ->]%cut_app]%cut_app]%cut_app; done.
Qed.

Lemma violationKey_inj e e' : clean e -> clean e' -> violationKey e = violationKey e' <-> class e = class e'.
Proof.
  intros (? & ? & ? & ? & ?) (? & ? & ? & ? & ?). unfold violationKey, class. split; [|by intros [= -> -> -> ->]].
  intros [-> [-> [-> ->]%cut_app]%cut_app]%cut_app; done.
Qed.

(** Every row is of an event that was not a denial, and every such event has its row. *)
Definition rows_ok (l : list (Event * Time)) (m : gmap string HostStat) : Prop := forall k,
  match m !! k with
  | None => forall e t, (e, t) ∈ l -> ev_Kind e <> KDeny -> statKey e <> k
  | Some s => exists e t, (e, t) ∈ l /\ ev_Kind e <> KDeny /\ statKey e = k /\ (hs_Namespace s, hs_App s, hs_Host s, hs_Port s) = flow e
  end.

Lemma run_rows window l : (forall e t, (e, t) ∈ l -> clean e) -> rows_ok l (in_allowed (run window l).2).
Proof.
  induction l as [|[e now] l IH] using rev_ind; intros Hcl k.
  { cbn. rewrite lookup_empty. by intros e t ?%elem_of_nil. }
  rewrite run_snoc. unfold recordStep. cbn [fst snd].
  pose proof (Record_allowed (run window l).2 e now) as Hr. destruct (RecordEvent (run window l).2 e now) as [a i]. cbn [snd] in *. rewrite Hr.
  specialize (IH ltac:(intros e' t' Hin; apply (Hcl e' t'); set_solver)).
  assert (clean e) as He by (apply (Hcl e now); set_solver).
  destruct (decide (ev_Kind e = KDeny)) as [Hk|Hk].
  { specialize (IH k). destruct (in_allowed (run window l).2 !! k) as [s|].
    - destruct IH as (e' & t' & ? & ?). exists e', t'. split; [set_solver|done].
    - intros e' t' [Hin|Hin%list_elem_of_singleton]%elem_of_app Hne; [by apply (IH e' t')|]. by injection Hin as -> ->. }
  destruct (decide (statKey e = k)) as [<-|Hne].
  - rewrite lookup_insert_eq. exists e, now. split; [set_solver|]. split; [done|]. split; [done|].
    specialize (IH (statKey e)). unfold rowAfter, statFor, flow. cbn. destruct (in_allowed (run window l).2 !! statKey e) as [s|]; cbn.
    + destruct IH as (e' & t' & Hin & _ & Hke & Hs). apply statKey_inj in Hke; [|by apply (Hcl e' t'); set_solver|done].
      rewrite Hke in Hs. unfold flow in Hs. injection Hs as -> -> -> ->. by case_decide.
    + case_decide as Hp; [by rewrite Hp|done].
  - rewrite lookup_insert_ne by done. specialize (IH k). destruct (in_allowed (run window l).2 !! k) as [s|].
    + destruct IH as (e' & t' & ? & ?). exists e', t'. split; [set_solver|done].
    + intros e' t' [Hin|Hin%list_elem_of_singleton]%elem_of_app Hne'; [by apply (IH e' t')|]. by injection Hin as -> ->.
Qed.

(** *** Denials *)

Definition denies (k : string) (l : list (Event * Time)) : Z := total (fun e => hit (ev_Kind e = KDeny /\ violationKey e = k) 1) l.

Definition alertKey (a : Alert) : string :=
  let v := al_Violation a in vi_Namespace v +:+ NUL +:+ vi_App v +:+ NUL +:+ vi_Reason v +:+ NUL +:+ vi_Host v.

(** When an alert was last raised for a class. *)
Definition lastAlert (k : string) (alerts : list (Alert * Time)) : option Time :=
  foldl (fun acc at' => if decide (alertKey at'.1 = k) then Some at'.2 else acc) None alerts.

Lemma lastAlert_snoc k alerts a t : lastAlert k (alerts ++ [(a, t)]) = if decide (alertKey a = k) then Some t else lastAlert k alerts.
Proof. unfold lastAlert. by rewrite foldl_app. Qed.

Lemma denies_bound k l : 0 <= denies k l <= Z.of_nat (length l).
Proof.
  unfold denies. induction l as [|[e t] l IH] using rev_ind; [done|]. rewrite total_snoc, length_app. cbn [length].
  unfold hit at 2 4. destruct (decide (ev_Kind e = KDeny /\ violationKey e = k)); lia.
Qed.

(** The record of a class after [n] denials, the last alert being at [last]. *)
Record tracked (k : string) (n : Z) (last : option Time) (r : vrec) : Prop := {
  tr_count : vi_Count (vr_Violation r) = n;
  tr_severity : vi_Severity (vr_Violation r) = severityAt (vi_Reason (vr_Violation r)) n;
  tr_last : last = Some (vr_lastAlertAt r);
  tr_who : exists e, clean e /\ violationKey e = k /\
    (vi_Namespace (vr_Violation r), vi_App (vr_Violation r), vi_Reason (vr_Violation r), vi_Host (vr_Violation r)) = class e
}.

Definition tracks (l : list (Event * Time)) (alerts : list (Alert * Time)) (m : gmap string vrec) : Prop := forall k,
  match m !! k with
  | None => denies k l = 0
  | Some r => 0 < denies k l /\ tracked k (denies k l) (lastAlert k alerts) r
  end.

(** What [recordDeny] does of the [n]-th denial of a class. *)
Definition raises (window : Duration) (e : Event) (n : Z) (last : option Time) (now : Time) : Prop :=
  n = 1 \/ (n = burstThreshold /\ severityForReason (ev_Reason e) <> Critical) \/
  exists t, last = Some t /\ window <= Sub now t.

Lemma severity_rises reason n : 1 <= n ->
  rank (severityAt reason (n + 1)) <= rank (severityAt reason n) <-> ~ (n + 1 = burstThreshold /\ severityForReason reason <> Critical).
Proof.
  intros Hn. unfold severityAt, burstThreshold. destruct (Z.leb_spec 20 (n + 1)), (Z.leb_spec 20 n); try lia;
    destruct (severityForReason reason) eqn:E; cbn; try (split; [intros; try intros [? ?]; try lia; done|lia]);
    try (split; [lia|intros Hx; exfalso; apply Hx; split; [lia|done]]);
    try (split; [intros _ [? ?]; lia|lia]).
Qed.

Lemma recordDeny_spec window l alerts m e now : tracks l alerts m -> clean e -> denies (violationKey e) l + 1 < 2 ^ 63 ->
  let k := violationKey e in
  let n := denies k l + 1 in
  exists r, (recordDeny window m e now).2 = <[k := r]> m /\
    (vi_Count (vr_Violation r) = n /\ vi_Severity (vr_Violation r) = severityAt (ev_Reason e) n /\
     (vi_Namespace (vr_Violation r), vi_App (vr_Violation r), vi_Reason (vr_Violation r), vi_Host (vr_Violation r)) = class e /\
     vi_LastSeen (vr_Violation r) = now) /\
    match (recordDeny window m e now).1 with
    | Some a => raises window e n (lastAlert k alerts) now /\ al_Violation a = vr_Violation r /\ vr_lastAlertAt r = now /\ alertKey a = k
    | None => ~ raises window e n (lastAlert k alerts) now /\ lastAlert k alerts = Some (vr_lastAlertAt r)
    end.
Proof.
  intros Ht He Hmax k n. subst k n. specialize (Ht (violationKey e)). pose proof (denies_bound (violationKey e) l) as Hb.
  unfold recordDeny. set (r0 := default (firstSight e now) (m !! violationKey e)).
  assert (vi_Count (vr_Violation r0) = denies (violationKey e) l /\
    (vi_Namespace (vr_Violation r0), vi_App (vr_Violation r0), vi_Reason (vr_Violation r0), vi_Host (vr_Violation r0)) = class e) as [Hcount Hclass].
  { unfold r0. destruct (m !! violationKey e) as [r|]; cbn; [|by rewrite Ht].
    destruct Ht as [_ [Hc _ _ (e' & Hcl & Hk & Hw)]]. split; [done|]. rewrite Hw. by apply violationKey_inj. }
  assert (vi_Reason (vr_Violation r0) = ev_Reason e) as Hreason by (unfold class in Hclass; by injection Hclass as _ _ -> _).
  assert (denies (violationKey e) l = 0 \/ (0 < denies (violationKey e) l /\ lastAlert (violationKey e) alerts = Some (vr_lastAlertAt r0) /\
    vi_Severity (vr_Violation r0) = severityAt (ev_Reason e) (denies (violationKey e) l))) as Hr0.
  { rewrite <- Hreason. unfold r0. destruct (m !! violationKey e) as [r|]; [right|by left]. by destruct Ht as [? [_ ? ? _]]. }
  clearbody r0. clear Ht. rewrite Hcount, i64_small by lia. set (n := denies (violationKey e) l) in *.
  destruct (negb (n + 1 =? 1) && (rank (severityAt (ev_Reason e) (n + 1)) <=? rank (vi_Severity (vr_Violation r0))) && (Sub now (vr_lastAlertAt r0) <? window)) eqn:Hq; cbn [fst snd];
    eexists; (split; [reflexivity|]); (split; [by split_and!|]).
  - rewrite !andb_true_iff, negb_true_iff in Hq. destruct Hq as [[Hn Hr] Hw]. apply Z.eqb_neq in Hn. apply Z.leb_le in Hr. apply Z.ltb_lt in Hw.
    destruct Hr0 as [|(Hpos & Hl & Hs)]; [lia|]. rewrite Hs in Hr. apply severity_rises in Hr; [|lia].
    split; [|done]. intros [?|[?|(t & Ht' & ?)]]; [lia|by apply Hr|]. rewrite Hl in Ht'. injection Ht' as <-. lia.
  - split_and!; [|done|done|].
    + destruct Hr0 as [|(Hpos & Hl & Hs)]; [left; lia|]. rewrite Hs in Hq. rewrite !andb_false_iff, negb_false_iff in Hq.
      destruct Hq as [[Hq|Hq]|Hq]; [left; lia| |right; right; exists (vr_lastAlertAt r0); split; [done|lia]].
      right; left. destruct (decide (n + 1 = burstThreshold /\ severityForReason (ev_Reason e) <> Critical)) as [?|Hno]; [done|].
      apply severity_rises in Hno; lia.
    + unfold alertKey. cbn. unfold class in Hclass. by injection Hclass as -> -> -> ->.
Qed.

Lemma run_tracks window l : (forall e t, (e, t) ∈ l -> clean e) -> Z.of_nat (length l) < 2 ^ 63 - 1 ->
  tracks l (run window l).1 (in_violations (run window l).2).
Proof.
  induction l as [|[e now] l IH] using rev_ind; intros Hcl Hmax; [intros k; cbn; by rewrite lookup_empty|].
  rewrite length_app in Hmax. cbn in Hmax. specialize (IH ltac:(intros e' t' Hin; apply (Hcl e' t'); set_solver) ltac:(lia)).
  assert (clean e) as He by (apply (Hcl e now); set_solver). rewrite run_snoc. unfold recordStep. cbn [fst snd].
  destruct (run window l) as [alerts i]. cbn [fst snd] in *.
  assert (forall k, ~ (ev_Kind e = KDeny /\ violationKey e = k) -> denies k (l ++ [(e, now)]) = denies k l) as Hmiss
    by (intros k Hk; unfold denies; rewrite total_snoc, hit_false by done; lia).
  unfold RecordEvent. destruct (ev_Kind e) eqn:Ek; cbn [fst snd in_violations];
    try (intros k; specialize (IH k); rewrite Hmiss by (by intros [? _]); done).
  destruct (recordDeny_spec (in_window i) l alerts (in_violations i) e now IH He) as (r & Hr & (Hc & Hs & Hcls & _) & Ha);
    [pose proof (denies_bound (violationKey e) l); lia|].
  destruct (recordDeny (in_window i) (in_violations i) e now) as [a m]. cbn [fst snd in_violations] in *. subst m. intros k.
  destruct (decide (violationKey e = k)) as [<-|Hne].
  - rewrite lookup_insert_eq. assert (denies (violationKey e) (l ++ [(e, now)]) = denies (violationKey e) l + 1) as ->
      by (unfold denies; rewrite total_snoc, hit_true by done; done).
    pose proof (denies_bound (violationKey e) l). split; [lia|].
    assert (vi_Reason (vr_Violation r) = ev_Reason e) as Hreason by (unfold class in Hcls; by injection Hcls as _ _ -> _).
    split; [done|by rewrite Hreason| |by exists e].
    destruct a as [a|]; [|by destruct Ha]. destruct Ha as (_ & _ & -> & Hk). by rewrite lastAlert_snoc, decide_True.
  - rewrite lookup_insert_ne by done. rewrite Hmiss by tauto. specialize (IH k). destruct (in_violations i !! k) as [r'|]; [|done].
    destruct a as [a|]; [|done]. destruct Ha as (_ & _ & _ & Hk). by rewrite lastAlert_snoc, decide_False by congruence.
Qed.

(** ** Applications *)

Section apps.
Context `{GoRange}.

Definition sumOf {A} (f : A -> Z) (l : list A) : Z := foldr (fun a acc => f a + acc) 0 l.

Lemma sumOf_app {A} (f : A -> Z) l l' : sumOf f (l ++ l') = sumOf f l + sumOf f l'.
Proof. unfold sumOf. induction l as [|a l IH]; cbn; [done|]. rewrite IH. lia. Qed.

Lemma sumOf_map {A B} (f : B -> Z) (g : A -> B) (l : list A) : sumOf f (g <$> l) = sumOf (fun a => f (g a)) l.
Proof. unfold sumOf. induction l as [|a l IH]; cbn; congruence. Qed.

#[export] Instance sumOf_perm {A} (f : A -> Z) : Proper (Permutation ==> eq) (sumOf f).
Proof. intros l l' Hp. unfold sumOf. induction Hp as [|a l l' _ IH|a b l|l1 l2 l3 _ IH1 _ IH2]; cbn; [done|by rewrite IH|lia|congruence]. Qed.

Definition inApp (K : string) (s : HostStat) : Prop := appKey (hs_Namespace s) (hs_App s) = K.

#[local] Instance inApp_dec K s : Decision (inApp K s).
Proof. unfold inApp. apply _. Defined.

(** The sum of a weight over a table. *)
Definition tableSum {V} (w : V -> Z) (m : gmap string V) : Z := sumOf (fun kv => w kv.2) (map_to_list m).

Lemma tableSum_insert {V} (w : V -> Z) m k s : tableSum w (<[k := s]> m) =
  tableSum w m - match m !! k with Some old => w old | None => 0 end + w s.
Proof.
  unfold tableSum. destruct (m !! k) as [old|] eqn:E.
  - rewrite <- insert_delete_eq. assert (map_to_list m ≡ₚ (k, old) :: map_to_list (delete k m)) as ->
      by (rewrite <- map_to_list_insert by apply lookup_delete_eq; by rewrite insert_delete_id).
    rewrite map_to_list_insert by apply lookup_delete_eq. unfold sumOf. cbn. lia.
  - rewrite map_to_list_insert by done. unfold sumOf. cbn. lia.
Qed.

(** The order the table is visited in does not matter. *)
Lemma tableSum_range {V} (w : V -> Z) m : sumOf w (go_range m).*2 = tableSum w m.
Proof. unfold tableSum. rewrite <- (go_range_perm m). unfold sumOf. induction (go_range m) as [|kv l IH]; cbn; congruence. Qed.

(** A field [f] of the rows grows with every event of the application by what [g] gives. *)
Definition grows (f : HostStat -> Z) (g : Event -> Z) : Prop := forall m e now,
  ev_Kind e <> KDeny -> i64 (f (rowAfter m e now)) = i64 (f (rowOf m (statKey e)) + g e) /\ f (rowOf ∅ "") = 0.

Lemma table_counts K f g window l : grows f g -> (forall e t, (e, t) ∈ l -> clean e) ->
  i64 (tableSum (fun s => hit (inApp K s) (f s)) (in_allowed (run window l).2)) =
  i64 (total (fun e => hit (ev_Kind e <> KDeny /\ appKey (ev_Tenant e) (ev_App e) = K) (g e)) l).
Proof.
  intros Hg. induction l as [|[e now] l IH] using rev_ind; intros Hcl; [done|].
  assert (forall e t, (e, t) ∈ l -> clean e) as Hcl' by (intros e' t' Hin; apply (Hcl e' t'); set_solver).
  specialize (IH Hcl'). pose proof (run_rows window l Hcl') as Hrows. assert (clean e) as He by (apply (Hcl e now); set_solver).
  rewrite run_snoc, total_snoc. unfold recordStep. cbn [fst snd].
  pose proof (Record_allowed (run window l).2 e now) as Hr. destruct (RecordEvent (run window l).2 e now) as [a i]. cbn [snd] in *. rewrite Hr.
  destruct (decide (ev_Kind e = KDeny)) as [Hk|Hk]; [rewrite hit_false by tauto; by rewrite Z.add_0_r|].
  set (m := in_allowed (run window l).2) in *. rewrite tableSum_insert. destruct (Hg m e now Hk) as [Hf H0].
  assert (hs_Namespace (rowAfter m e now) = ev_Tenant e /\ hs_App (rowAfter m e now) = ev_App e /\
    (forall s, m !! statKey e = Some s -> hs_Namespace s = ev_Tenant e /\ hs_App s = ev_App e)) as (Hn & Ha & Hold).
  { unfold rowAfter, statFor. cbn. specialize (Hrows (statKey e)). destruct (m !! statKey e) as [s|]; cbn.
    - destruct Hrows as (e' & t' & Hin & _ & Hke & Hs). apply statKey_inj in Hke; [|by apply (Hcl' e' t')|done].
      rewrite Hke in Hs. unfold flow in Hs. injection Hs as H1 H2 _ _. split_and!; [done|done|]. by intros s' [= <-].
    - split_and!; [done|done|]. by intros s'. }
  assert (hit (inApp K (rowAfter m e now)) (f (rowAfter m e now)) = hit (appKey (ev_Tenant e) (ev_App e) = K) (f (rowAfter m e now))) as ->
    by (apply hit_iff; unfold inApp; by rewrite Hn, Ha).
  assert (match m !! statKey e with Some old => hit (inApp K old) (f old) | None => 0 end =
          hit (appKey (ev_Tenant e) (ev_App e) = K) (f (rowOf m (statKey e)))) as ->.
  { unfold rowOf. destruct (m !! statKey e) as [s|] eqn:E; cbn [default].
    - destruct (Hold s eq_refl) as [H1 H2]. apply hit_iff. unfold inApp. by rewrite H1, H2.
    - unfold rowOf in H0. rewrite lookup_empty in H0. cbn [default] in H0. rewrite H0. unfold hit. by case_decide. }
  destruct (decide (appKey (ev_Tenant e) (ev_App e) = K)) as [HK|HK].
  - rewrite !hit_true by done. rewrite <- (i64_add_r _ (f (rowAfter m e now))), Hf, i64_add_r.
    rewrite <- (i64_add_l (total _ _)), <- IH, i64_add_l. f_equal. lia.
  - rewrite !hit_false by tauto. rewrite Z.sub_0_r, !Z.add_0_r. exact IH.
Qed.

Lemma grows_allows : grows hs_Allows (fun e => hit (ev_Kind e = KAllow) 1).
Proof.
  intros m e now Hk. split; [|done]. pose proof (statFor_numbers m e now) as Hn. unfold numbers in Hn. injection Hn as Hn _ _ _ _.
  rewrite <- Hn. unfold rowAfter. cbn. destruct (ev_Kind e); try done; rewrite ?hit_true, ?i64_idem by done; rewrite ?hit_false, ?Z.add_0_r by done; done.
Qed.

Lemma grows_fails : grows hs_Fails (fun e => hit (ev_Kind e = KFail) 1).
Proof.
  intros m e now Hk. split; [|done]. pose proof (statFor_numbers m e now) as Hn. unfold numbers in Hn. injection Hn as _ Hn _ _ _.
  rewrite <- Hn. unfold rowAfter. cbn. destruct (ev_Kind e); try done; rewrite ?hit_true, ?i64_idem by done; rewrite ?hit_false, ?Z.add_0_r by done; done.
Qed.

Lemma grows_up : grows hs_BytesUp (fun e => hit (ev_Kind e = KClose) (ev_BytesUp e)).
Proof.
  intros m e now Hk. split; [|done]. pose proof (statFor_numbers m e now) as Hn. unfold numbers in Hn. injection Hn as _ _ Hn _ _.
  rewrite <- Hn. unfold rowAfter. cbn. destruct (ev_Kind e); try done; rewrite ?hit_true, ?i64_idem by done; rewrite ?hit_false, ?Z.add_0_r by done; done.
Qed.

Lemma grows_down : grows hs_BytesDown (fun e => hit (ev_Kind e = KClose) (ev_BytesDown e)).
Proof.
  intros m e now Hk. split; [|done]. pose proof (statFor_numbers m e now) as Hn. unfold numbers in Hn. injection Hn as _ _ _ Hn _.
  rewrite <- Hn. unfold rowAfter. cbn. destruct (ev_Kind e); try done; rewrite ?hit_true, ?i64_idem by done; rewrite ?hit_false, ?Z.add_0_r by done; done.
Qed.

(** *** The roll-up *)

Definition appOf (m : gmap string AppStat) (K : string) : AppStat :=
  default (mkAppStat "" "" 0 0 0 0 0 0 noLatency zero_time) (m !! K).

Lemma appRow_fields m ns app now : let a := appRow m ns app now in let a' := appOf m (appKey ns app) in
  as_Hosts a = as_Hosts a' /\ as_Allows a = as_Allows a' /\ as_Denies a = as_Denies a' /\ as_Fails a = as_Fails a' /\
  as_BytesUp a = as_BytesUp a' /\ as_BytesDown a = as_BytesDown a'.
Proof. unfold appRow, appOf. by destruct (m !! appKey ns app). Qed.

(** The fields of an application's row after the rows of a list were added. *)
Lemma addRows K rows : forall m, let a := appOf (foldl addRow m rows) K in let a0 := appOf m K in
  as_Hosts a = as_Hosts a0 + sumOf (fun s => hit (inApp K s) 1) rows /\
  i64 (as_Allows a) = i64 (as_Allows a0 + sumOf (fun s => hit (inApp K s) (hs_Allows s)) rows) /\
  i64 (as_Fails a) = i64 (as_Fails a0 + sumOf (fun s => hit (inApp K s) (hs_Fails s)) rows) /\
  i64 (as_BytesUp a) = i64 (as_BytesUp a0 + sumOf (fun s => hit (inApp K s) (hs_BytesUp s)) rows) /\
  i64 (as_BytesDown a) = i64 (as_BytesDown a0 + sumOf (fun s => hit (inApp K s) (hs_BytesDown s)) rows) /\
  as_Denies a = as_Denies a0.
Proof.
  induction rows as [|s rows IH]; intros m; cbn zeta; [cbn; by rewrite !Z.add_0_r|]. cbn [foldl sumOf foldr].
  destruct (IH (addRow m s)) as (H1 & H2 & H3 & H4 & H5 & H6). rewrite H1, H2, H3, H4, H5, H6. clear H1 H2 H3 H4 H5 H6 IH.
  fold (@sumOf HostStat). unfold inApp at 1 3 5 7 9. destruct (decide (appKey (hs_Namespace s) (hs_App s) = K)) as [<-|Hne].
  - rewrite !hit_true by done. destruct (appRow_fields m (hs_Namespace s) (hs_App s) (hs_LastSeen s)) as (E1 & E2 & E3 & E4 & E5 & E6).
    rewrite <- E1, <- E2, <- E3, <- E4, <- E5, <- E6. unfold addRow, appOf at 1 2 3 4 5 6. rewrite lookup_insert_eq. cbn.
    rewrite !i64_add_l, <- !Z.add_assoc. done.
  - rewrite !hit_false by done. unfold addRow, appOf at 1 3 5 7 9 11. rewrite lookup_insert_ne by done. done.
Qed.

Lemma addDenials K vs : forall m, let a := appOf (foldl addDenies m vs) K in let a0 := appOf m K in
  as_Hosts a = as_Hosts a0 /\ i64 (as_Allows a) = i64 (as_Allows a0) /\ i64 (as_Fails a) = i64 (as_Fails a0) /\
  i64 (as_BytesUp a) = i64 (as_BytesUp a0) /\ i64 (as_BytesDown a) = i64 (as_BytesDown a0) /\
  i64 (as_Denies a) = i64 (as_Denies a0 + sumOf (fun v => hit (appKey (vi_Namespace v) (vi_App v) = K) (vi_Count v)) vs).
Proof.
  induction vs as [|v vs IH]; intros m; cbn zeta; [cbn; by rewrite !Z.add_0_r|]. cbn [foldl sumOf foldr].
  destruct (IH (addDenies m v)) as (H1 & H2 & H3 & H4 & H5 & H6). rewrite H1, H2, H3, H4, H5, H6. clear H1 H2 H3 H4 H5 H6 IH.
  fold (@sumOf Violation). destruct (decide (appKey (vi_Namespace v) (vi_App v) = K)) as [<-|Hne].
  - rewrite !hit_true by done. destruct (appRow_fields m (vi_Namespace v) (vi_App v) (vi_LastSeen v)) as (E1 & E2 & E3 & E4 & E5 & E6).
    rewrite <- E1, <- E2, <- E3, <- E4, <- E5, <- E6. unfold addDenies, appOf at 1 2 3 4 5 6. rewrite lookup_insert_eq. cbn.
    rewrite !i64_add_l, <- !Z.add_assoc. done.
  - rewrite !hit_false by done. unfold addDenies, appOf at 1 3 5 7 9 11. rewrite lookup_insert_ne by done. done.
Qed.

(** The counts of an application's classes are its denials. *)
Lemma violations_count K window l : (forall e t, (e, t) ∈ l -> clean e) -> Z.of_nat (length l) < 2 ^ 63 - 1 ->
  tableSum (fun r => hit (appKey (vi_Namespace (vr_Violation r)) (vi_App (vr_Violation r)) = K) (vi_Count (vr_Violation r)))
    (in_violations (run window l).2) =
  total (fun e => hit (ev_Kind e = KDeny /\ appKey (ev_Tenant e) (ev_App e) = K) 1) l.
Proof.
  induction l as [|[e now] l IH] using rev_ind; intros Hcl Hmax; [done|]. rewrite length_app in Hmax. cbn in Hmax.
  assert (forall e t, (e, t) ∈ l -> clean e) as Hcl' by (intros e' t' Hin; apply (Hcl e' t'); set_solver).
  specialize (IH Hcl' ltac:(lia)). pose proof (run_tracks window l Hcl' ltac:(lia)) as Ht.
  assert (clean e) as He by (apply (Hcl e now); set_solver). rewrite run_snoc, total_snoc. unfold recordStep. cbn [fst snd].
  destruct (run window l) as [alerts i]. cbn [fst snd] in *. unfold RecordEvent.
  destruct (decide (ev_Kind e = KDeny)) as [Ek|Ek].
  2:{ rewrite hit_false by tauto. destruct (ev_Kind e); cbn [snd in_violations]; [|done| |]; by rewrite Z.add_0_r. }
  rewrite Ek. destruct (recordDeny_spec (in_window i) l alerts (in_violations i) e now Ht He) as (r & Hr & (Hc & _ & Hcls & _) & _);
    [pose proof (denies_bound (violationKey e) l); lia|].
  destruct (recordDeny (in_window i) (in_violations i) e now) as [a m]. cbn [fst snd in_violations] in *. subst m.
  rewrite tableSum_insert, IH, Hc. unfold class in Hcls. injection Hcls as -> -> _ _.
  specialize (Ht (violationKey e)). destruct (in_violations i !! violationKey e) as [old|].
  - destruct Ht as [_ [Hn _ _ (e' & Hcl'' & Hk & Hw)]]. apply violationKey_inj in Hk; [|done|done]. unfold class in Hk, Hw.
    rewrite Hk in Hw. injection Hw as -> -> _ _. rewrite Hn. destruct (decide (appKey (ev_Tenant e) (ev_App e) = K)).
    + rewrite !hit_true by done. lia.
    + rewrite !hit_false by tauto. lia.
  - rewrite Ht. destruct (decide (appKey (ev_Tenant e) (ev_App e) = K)); [rewrite !hit_true by done|rewrite !hit_false by tauto]; lia.
Qed.

End apps.

(** ** The properties *)

Section properties.
Context `{GoRange} (window : Duration) (l : list (Event * Time)).
Hypothesis Hclean : forall e t, (e, t) ∈ l -> clean e.


(** An application's row is the sum of its traffic. Whatever the order the tables are visited in, the row of an
    application in the roll-up counts every Allow, Fail and Deny of its events and the bytes of its Closes, over all
    its hosts and no other application's (as int64 numbers). *)
Theorem applications_roll_up namespace app :
  Z.of_nat (length l) < 2 ^ 63 - 1 -> without "000" namespace = true -> without "000" app = true ->
  let a := appOf (appTable (run window l).2) (appKey namespace app) in
  i64 (as_Allows a) = i64 (total (fun e => hit (ev_Kind e = KAllow /\ ev_Tenant e = namespace /\ ev_App e = app) 1) l) /\
  i64 (as_Fails a) = i64 (total (fun e => hit (ev_Kind e = KFail /\ ev_Tenant e = namespace /\ ev_App e = app) 1) l) /\
  i64 (as_Denies a) = i64 (total (fun e => hit (ev_Kind e = KDeny /\ ev_Tenant e = namespace /\ ev_App e = app) 1) l) /\
  i64 (as_BytesUp a) = i64 (total (fun e => hit (ev_Kind e = KClose /\ ev_Tenant e = namespace /\ ev_App e = app) (ev_BytesUp e)) l) /\
  i64 (as_BytesDown a) = i64 (total (fun e => hit (ev_Kind e = KClose /\ ev_Tenant e = namespace /\ ev_App e = app) (ev_BytesDown e)) l).
Proof.
  intros Hmax Hns Happ. set (K := appKey namespace app). cbn zeta. unfold appTable. set (i := (run window l).2).
  assert (forall e t, (e, t) ∈ l -> appKey (ev_Tenant e) (ev_App e) = K <-> ev_Tenant e = namespace /\ ev_App e = app) as Hkey.
  { intros e t Hin. destruct (Hclean e t Hin) as (? & ? & _). unfold K, appKey. split; [|by intros [-> ->]]. by intros [-> ->]%cut_app. }
  destruct (addDenials K (vr_Violation <$> (go_range (in_violations i)).*2) (foldl addRow ∅ (go_range (in_allowed i)).*2)) as (_ & D2 & D3 & D4 & D5 & D6).
  destruct (addRows K (go_range (in_allowed i)).*2 ∅) as (_ & R2 & R3 & R4 & R5 & R6).
  rewrite D2, D3, D4, D5, D6, R2, R3, R4, R5, R6. unfold appOf. rewrite lookup_empty. cbn [default as_Allows as_Fails as_BytesUp as_BytesDown as_Denies].
  rewrite !Z.add_0_l. pose proof (table_counts K) as Ht.
  assert (forall k g, k <> KDeny -> total (fun e => hit (ev_Kind e <> KDeny /\ appKey (ev_Tenant e) (ev_App e) = K) (hit (ev_Kind e = k) (g e))) l =
    total (fun e => hit (ev_Kind e = k /\ ev_Tenant e = namespace /\ ev_App e = app) (g e)) l) as Hone.
  { intros k g Hk. apply total_ext. intros e t Hin. pose proof (Hkey e t Hin) as Hi. unfold hit. repeat case_decide; try done; naive_solver. }
  split_and!.
  - rewrite (tableSum_range (fun s => hit (inApp K s) (hs_Allows s))). unfold i. rewrite (Ht _ _ window l grows_allows Hclean). by rewrite (Hone KAllow (fun _ => 1)).
  - rewrite (tableSum_range (fun s => hit (inApp K s) (hs_Fails s))). unfold i. rewrite (Ht _ _ window l grows_fails Hclean). by rewrite (Hone KFail (fun _ => 1)).
  - rewrite (sumOf_map _ vr_Violation), (tableSum_range (fun r => hit (appKey (vi_Namespace (vr_Violation r)) (vi_App (vr_Violation r)) = K) (vi_Count (vr_Violation r)))).
    unfold i. rewrite (violations_count K window l Hclean Hmax). f_equal. apply total_ext. intros e t Hin. apply hit_iff. by rewrite (Hkey e t Hin).
  - rewrite (tableSum_range (fun s => hit (inApp K s) (hs_BytesUp s))). unfold i. rewrite (Ht _ _ window l grows_up Hclean). by rewrite (Hone KClose ev_BytesUp).
  - rewrite (tableSum_range (fun s => hit (inApp K s) (hs_BytesDown s))). unfold i. rewrite (Ht _ _ window l grows_down Hclean). by rewrite (Hone KClose ev_BytesDown).
Qed.


End properties.

(** *** Examples *)

Definition exDeny (host : string) : Event := event KDeny "shop" "web" host "443" "connect" "" ReasonNotInAllowlist.
Definition exAllow : Event := event KAllow "shop" "web" "api.example.com" "443" "connect" "" "orders".
Definition exClose : Event := mkEvent KClose "shop" "web" "api.example.com" "443" "connect" "" "" 100 7 12 30.

Definition exEvents : list (Event * Time) := [(exAllow, 0); (exClose, Second); (exDeny "evil.com", Second); (exDeny "evil.com", 2 * Second)].

Lemma exEvents_clean e t : (e, t) ∈ exEvents -> clean e.
Proof. unfold exEvents. rewrite !elem_of_cons, elem_of_nil. intros [[= -> _]|[[= -> _]|[[= -> _]|[[= -> _]|[]]]]]; done. Qed.

(** Twenty-five denials within a minute: alerts at the first and at the twentieth. *)
Example burst :
  map (fun at' => (vi_Count (al_Violation at'.1), vi_Severity (al_Violation at'.1)))
    (run 0 (map (fun k => (exDeny "evil.com", k * Second)) (seqZ 0 25))).1 = [(1, Warning); (20, Critical)].
Proof. vm_compute. reflexivity. Qed.

(** Where a name holds a NUL byte two applications share a row, and the second counts as the first's. *)
Example a_nul_mixes_rows :
  let e := event KAllow "shop" ("web" +:+ NUL +:+ "x") "h" "443" "connect" "" "" in
  let e' := event KAllow "shop" "web" ("x" +:+ NUL +:+ "h") "443" "connect" "" "" in
  flow e <> flow e' /\ match in_allowed (run 0 [(e, 0); (e', 0)]).2 !! statKey e' with
                       | Some s => hs_App s = ev_App e /\ hs_Allows s = 2
                       | None => False
                       end.
Proof. split; [done|]. vm_compute. split; reflexivity. Qed.


Lemma applications_roll_up_witness :
  i64 (as_Denies (appOf (appTable (run 0 exEvents).2) (appKey "shop" "web"))) = 2.
Proof.
  destruct (applications_roll_up 0 exEvents exEvents_clean "shop" "web") as (_ & _ & Hd & _); [vm_compute; reflexivity|done|done|].
  rewrite Hd. vm_compute. reflexivity.
Defined.

