(* ===== verification/Contract.v ===== *)
(** * The declared contract ([shrike/internal/policy/policy.go])

    The hosts the manifests declare, as Shrike reads them. *)

From S2P Require Import Prelude GoStrings Net.
From S2P Require Import Allowlist.

Record Policy := mkPolicy { p_hosts : gmap string string; p_order : list string }.

Section policy.
Context `{CaseTables}.

Definition normalize (host : string) : string := TrimSuffix (ToLower (TrimSpace host)) ".".
Definition isIP (host : string) : bool := ParseIP (TrimPrefix (TrimSuffix host "]") "[").

Definition declare (p : Policy) (d : External) : Policy :=
  let h := normalize (Manifest.ex_Host d) in
  if bool_decide (h = "") || isIP h then p
  else mkPolicy (<[h := Manifest.ex_Reason d]> (p_hosts p))
         (match p_hosts p !! h with None => p_order p ++ [h] | Some _ => p_order p end).

Definition New (decls : list External) : Policy := foldl declare (mkPolicy ∅ []) decls.

Definition Declared (p : Policy) (host : string) : option string := p_hosts p !! normalize host.

Definition Hosts (p : Policy) : list string := p_order p.

(** The hosts are those FatLine's allowlist admits, listed once each. *)
Lemma New_spec decls : 
  (forall h, p_hosts (New decls) !! h = if bool_decide (h = "") || isIP h then None else Manifest.ex_Reason <$> declared decls h) /\
  NoDup (p_order (New decls)) /\ forall h, h ∈ p_order (New decls) <-> is_Some (p_hosts (New decls) !! h).
Proof.
  unfold New. induction decls as [|d decls IH] using rev_ind.
  { cbn. split_and!; [|constructor|].
    - intros h. rewrite lookup_empty. by destruct (bool_decide (h = "") || isIP h).
    - intros h. rewrite lookup_empty. split; [by intros ?%elem_of_nil|by intros [? ?]]. }
  rewrite foldl_app. cbn [foldl]. set (p := foldl declare (mkPolicy ∅ []) decls) in *. destruct IH as (Hh & Hn & Ho).
  assert (forall h, declared (decls ++ [d]) h = if decide (normalize (Manifest.ex_Host d) = h) then Some d else declared decls h) as Hd
    by (intros h; unfold declared; by rewrite foldl_app).
  unfold declare. destruct (bool_decide (normalize (Manifest.ex_Host d) = "") || isIP (normalize (Manifest.ex_Host d))) eqn:Hskip.
  - split_and!; [|done|done]. intros h. rewrite Hh, Hd. destruct (decide (normalize (Manifest.ex_Host d) = h)) as [He|He]; [|done]. by rewrite <- He, Hskip.
  - cbn [p_hosts p_order]. split_and!.
    + intros h. rewrite Hd. destruct (decide (normalize (Manifest.ex_Host d) = h)) as [He|He]; [rewrite <- He, lookup_insert_eq, Hskip; done|by rewrite lookup_insert_ne].
    + destruct (p_hosts p !! normalize (Manifest.ex_Host d)) eqn:E; [done|]. apply NoDup_app. split_and!; [done| |apply NoDup_singleton].
      intros x Hx ->%list_elem_of_singleton. apply Ho in Hx as [? ?]. congruence.
    + intros h. destruct (decide (h = normalize (Manifest.ex_Host d))) as [->|Hne].
      * rewrite lookup_insert_eq. split; [by intros _|]. intros _. destruct (p_hosts p !! normalize (Manifest.ex_Host d)) eqn:E; [apply Ho; by eexists|apply elem_of_app; right; by left].
      * rewrite lookup_insert_ne, <- Ho by done. destruct (p_hosts p !! normalize (Manifest.ex_Host d)); [done|]. rewrite elem_of_app, list_elem_of_singleton. tauto.
Qed.

End policy.
