(* ===== verification/Monitor.v ===== *)
(** * Shrike's monitor ([shrike/shrike.go], [shrike/wire.go],
      [shrike/cmd/shrike/main.go])

    The declared contract beside the inspector's picture, and the wire that
    brings FatLine's events to the sidecar. *)

From Stdlib Require Import Ascii.
From S2P Require Import Prelude GoTime GoStrings Slices Net Event.
From S2P Require Import Allowlist Proxy.
From S2P Require Import FatLine.
From S2P Require Inspector.
From S2P Require EgressPolicy.
From S2P Require Contract.

(** ** The monitor *)

Section monitor.
Context `{CaseTables} `{GoRange}.

Record Monitor := mkMonitor {
  m_policy : Contract.Policy;
  m_inspector : Inspector.Inspector;
  m_since : Time;
  m_replica : string
}.

Definition New (declared : list External) (window : Duration) (now : Time) (hostname : string) : Monitor :=
  mkMonitor (Contract.New declared) (Inspector.New window) now hostname.

Definition Emit (m : Monitor) (e : Event) (now : Time) : option Inspector.Alert * Monitor :=
  let '(alert, i) := Inspector.RecordEvent (m_inspector m) e now in (alert, mkMonitor (m_policy m) i (m_since m) (m_replica m)).

Definition ReloadDeclared (m : Monitor) (declared : list External) : Monitor :=
  mkMonitor (Contract.New declared) (m_inspector m) (m_since m) (m_replica m).

Record Snapshot := mkSnapshot {
  sn_Replica : string;
  sn_Since : Time;
  sn_Events : Z;
  sn_Declared : list string;
  sn_Allowed : list Inspector.HostStat;
  sn_Violations : list Inspector.Violation;
  sn_Apps : list Inspector.AppStat
}.

Definition annotate (p : Contract.Policy) (s : Inspector.HostStat) : Inspector.HostStat :=
  Inspector.mkHostStat (Inspector.hs_App s) (Inspector.hs_Namespace s) (Inspector.hs_Host s) (Inspector.hs_Port s)
    (bool_decide (is_Some (Contract.Declared p (Inspector.hs_Host s)))) (Inspector.hs_Allows s) (Inspector.hs_Fails s)
    (Inspector.hs_BytesUp s) (Inspector.hs_BytesDown s) (Inspector.hs_Latency s) (Inspector.hs_LastSeen s).

(** [policy] is the contract read before the inspector is. *)
Definition SnapshotOf (policy : Contract.Policy) (m : Monitor) : Snapshot :=
  mkSnapshot (m_replica m) (m_since m) (Inspector.in_events (m_inspector m)) (Contract.Hosts policy)
    (map (annotate policy) (Inspector.Allowed (m_inspector m))) (Inspector.Violations (m_inspector m)) (Inspector.Apps (m_inspector m)).

(** [declaredFromPolicy]: every tenant's declarations, in the order of the map. *)
Definition flatten (d : EgressPolicy.Document) : list External := concat (go_range (EgressPolicy.ByTenant d)).*2.

(** [flattenExternal]. *)
Definition flattenExternal (m : Manifest.Manifest) : list External := concat (map Manifest.ap_External (Manifest.mf_Apps m)).

(** ** The properties of the contract *)

Lemma flatten_elem d e : e ∈ flatten d <-> exists tenant decls, EgressPolicy.ByTenant d !! tenant = Some decls /\ e ∈ decls.
Proof.
  unfold flatten. rewrite list_elem_of_In, in_concat. split.
  - intros (decls & Hd & He). apply list_elem_of_In, list_elem_of_fmap in Hd as ([tenant decls'] & -> & Hd).
    apply elem_of_go_range in Hd. apply list_elem_of_In in He. by exists tenant, decls'.
  - intros (tenant & decls & Hd & He). exists decls. split; [|by apply list_elem_of_In].
    apply list_elem_of_In, list_elem_of_fmap. exists (tenant, decls). split; [done|]. by apply elem_of_go_range.
Qed.

Lemma declared_when_allowed d host : is_Some (Contract.Declared (Contract.New (flatten d)) host) <->
  exists tenant, de_Allowed (Allow (NewPerApp (EgressPolicy.ByTenant d)) tenant host) = true.
Proof.
  unfold Contract.Declared. change Contract.normalize with normalize. rewrite (proj1 (Contract.New_spec (flatten d))). change Contract.isIP with isIP.
  pose proof (declared_spec (flatten d) (normalize host)) as Hd. split.
  - destruct (bool_decide (normalize host = "") || isIP (normalize host)) eqn:Hskip; [by intros [? ?]|].
    destruct (declared (flatten d) (normalize host)) as [e|]; [|by intros [? ?]]. intros _. destruct Hd as [Hin Hn].
    apply flatten_elem in Hin as (tenant & decls & Ht & He). exists tenant. rewrite Allow_spec, Ht, Hskip.
    pose proof (declared_spec decls (normalize host)) as Hx. destruct (declared decls _); [done|]. by apply Hx in He.
  - intros [tenant Ha]. rewrite Allow_spec in Ha. destruct (EgressPolicy.ByTenant d !! tenant) as [decls|] eqn:Ht; [|done].
    pose proof (declared_spec decls (normalize host)) as Hx. destruct (declared decls (normalize host)) as [e|]; [|done].
    destruct (bool_decide (normalize host = "") || isIP (normalize host)); [done|]. destruct Hx as [He Hn].
    destruct (declared (flatten d) (normalize host)) as [e'|]; [by eexists|]. exfalso. apply (Hd e); [|done]. apply flatten_elem. by exists tenant, decls.
Qed.

(** The policeman and the wall agree on the contract. Of one policy document, in whatever order Shrike reads its
    tenants, a host is declared in the monitor's contract exactly when FatLine would allow it to some tenant. *)
Theorem contract_agrees_with_the_allowlist d host :
  is_Some (Contract.Declared (Contract.New (flatten d)) host) <->
  exists tenant, de_Allowed (Allow (NewPerApp (EgressPolicy.ByTenant d)) tenant host) = true.
Proof. apply declared_when_allowed. Qed.

(** What is not a denial was allowed. *)
Lemma allowed_event `{ClientHello} p n r e : e ∈ events (ServeHTTP p n r) -> ev_Kind e <> KDeny ->
  exists tenant, de_Allowed (Allow (px_allow p) tenant (ev_Host e)) = true.
Proof.
  unfold ServeHTTP. destruct (decide (rq_Method r = "CONNECT"%string)) as [Hm|Hm].
  2:{ unfold handlePlain. destruct (authority (plainHost r) "80"). cbn. by intros ->%list_elem_of_singleton. }
  pose proof (handleConnect_cases p n r) as Hc. destruct (authority (rq_Host r) "443") as [host port].
  destruct (px_identify p (credentialFrom r)) as [caller|]; [|rewrite Hc; cbn; by intros ->%list_elem_of_singleton].
  cbn zeta in Hc. destruct Hc as [[_ ->]|[Hd Hc]]; [cbn; by intros ->%list_elem_of_singleton|].
  assert (forall tail, Forall (fun e => ev_Host e = host) (events tail) ->
    forall a, e ∈ events (Emitted (event KAllow (c_Namespace caller) (c_App caller) host port "connect" "" a) :: tail) -> ev_Host e = host) as Hhost.
  { intros tail Ht a. cbn. rewrite elem_of_cons. intros [->|Hin]; [done|]. rewrite Forall_forall in Ht. by apply Ht. }
  intros Hin _. exists (c_Tenant caller). replace (ev_Host e) with host; [done|]. symmetry.
  destruct Hc as [Hc|[Hc|[Hc|Hc]]]; rewrite Hc in Hin; (eapply Hhost; [|exact Hin]); try by constructor.
  cbn [events omap list_omap]. destruct (connect_cases p n caller host port) as [(-> & _)|[_ [(x & -> & _)|(x & o & [-> _])]]]; by repeat constructor.
Qed.

Lemma Allowed_rows i row : row ∈ Inspector.Allowed i <-> exists k, Inspector.in_allowed i !! k = Some row.
Proof.
  unfold Inspector.Allowed. rewrite sort_slice_perm, list_elem_of_fmap. split.
  - intros ([k s] & -> & Hk). apply elem_of_go_range in Hk. by exists k.
  - intros [k Hk]. exists (k, row). split; [done|]. by apply elem_of_go_range.
Qed.

(** C26: the drift flag does not cry wolf. When FatLine and Shrike hold the same policy document, every row that
    Shrike shows for traffic FatLine's proxy let through is flagged as declared: whatever was requested, by whom and
    however often. *)
Theorem no_false_drift `{ClientHello} `{EgressPolicy.Sha256} d s l window since replica row :
  enforces (Some d) s ->
  (forall e t, (e, t) ∈ l -> Inspector.clean e /\ (ev_Kind e <> KDeny -> exists n r, e ∈ events (serve s s n r))) ->
  row ∈ sn_Allowed (SnapshotOf (Contract.New (flatten d)) (mkMonitor (Contract.New (flatten d)) (Inspector.run window l).2 since replica)) ->
  Inspector.hs_Declared row = true.
Proof.
  intros [_ Hall] Hl. cbn [sn_Allowed SnapshotOf m_inspector]. intros (row0 & -> & Hrow)%list_elem_of_fmap.
  apply Allowed_rows in Hrow as [k Hk]. pose proof (Inspector.run_rows window l (fun e t Hin => proj1 (Hl e t Hin)) k) as Hr.
  rewrite Hk in Hr. destruct Hr as (e & t & Hin & Hne & _ & Hflow). destruct (Hl e t Hin) as [_ Hreq]. destruct (Hreq Hne) as (n & r & He).
  apply allowed_event in He as [tenant Ha]; [|done]. cbn [px_allow Proxy.New o_Allowlist] in Ha. rewrite Hall in Ha. cbn [annotate Inspector.hs_Declared].
  apply bool_decide_eq_true. unfold Inspector.flow in Hflow. injection Hflow as _ _ -> _.
  apply declared_when_allowed. by exists tenant.
Qed.

End monitor.

(** ** The wire *)

(** FatLine's side of the socket. *)
Record DialSink := mkDialSink {
  ds_conn : bool;
  ds_lastDial : Time;
  ds_triedDial : bool;
  ds_dropped : Z;
  ds_sent : list Event;                 (* what was encoded onto the socket *)
  ds_dials : list Time
}.

Definition NewDialSink : DialSink := mkDialSink false zero_time false 0 [] [].
Definition dialEvery : Duration := Second.

(** One event at a moment: whether a dial would succeed then, and the write. *)
Record attempt := mkAttempt { at_now : Time; at_dials : bool; at_writes : bool }.

Definition redial (d : DialSink) (a : attempt) : bool * DialSink :=
  if ds_triedDial d && (Sub (at_now a) (ds_lastDial d) <? dialEvery) then (false, d)
  else (at_dials a, mkDialSink (at_dials a) (at_now a) true (ds_dropped d) (ds_sent d) (ds_dials d ++ [at_now a])).

Definition drop (d : DialSink) : DialSink :=
  mkDialSink (ds_conn d) (ds_lastDial d) (ds_triedDial d) (i64 (ds_dropped d + 1)) (ds_sent d) (ds_dials d).

Definition DialEmit (d : DialSink) (e : Event) (a : attempt) : DialSink :=
  let '(connected, d) := if ds_conn d then (true, d) else redial d a in
  if negb connected then drop d
  else if at_writes a then mkDialSink (ds_conn d) (ds_lastDial d) (ds_triedDial d) (ds_dropped d) (ds_sent d ++ [e]) (ds_dials d)
  else drop (mkDialSink false (ds_lastDial d) (ds_triedDial d) (ds_dropped d) (ds_sent d) (ds_dials d)).

Definition dialRun (l : list (Event * attempt)) : DialSink := foldl (fun d '(e, a) => DialEmit d e a) NewDialSink l.

(** Shrike's side: [bufio.Scanner] with lines of at most [maxLine] bytes; the scan ends at a longer one. *)
Definition maxLine : Z := 1048576.

(** [json.Marshal] and [json.Unmarshal] of an event. *)
Class EventJson := {
  marshalEvent : Event -> string;
  unmarshalEvent : string -> option Event
}.

Definition dropCR (line : string) : string := TrimSuffix line (String "013" "").

Section wire.
Context `{EventJson}.

Definition Encode (e : Event) : string := marshalEvent e +:+ String "010" "".

(** The lines of the stream; the last, when it ends without a newline, is one unless it is empty. *)
Fixpoint scan (lines : list string) : list Event :=
  match lines with
  | [] => []
  | line :: lines =>
      if maxLine <=? len line then []
      else
        let line := dropCR line in
        (if decide (line = "") then [] else match unmarshalEvent line with Some e => [e] | None => [] end) ++ scan lines
  end.

Definition handleConn (stream : string) : list Event := scan (SplitByte "010" stream).

Lemma handleConn_cons e rest : without "010" (marshalEvent e) = true -> without "013" (marshalEvent e) = true -> marshalEvent e <> "" ->
  len (marshalEvent e) < maxLine -> unmarshalEvent (marshalEvent e) = Some e ->
  handleConn (Encode e +:+ rest) = e :: handleConn rest.
Proof.
  intros Hn Hr Hne Hl Hj. unfold handleConn, Encode. rewrite app_string_assoc. change (String "010" "" +:+ rest) with (String "010" rest).
  rewrite SplitByte_app by done. cbn [scan]. destruct (Z.leb_spec maxLine (len (marshalEvent e))); [lia|].
  unfold dropCR. rewrite TrimSuffix_none by (by apply without_iff). by rewrite decide_False, Hj.
Qed.

(** An event the codec carries on one line. *)
Definition carried (e : Event) : Prop :=
  without "010" (marshalEvent e) = true /\ without "013" (marshalEvent e) = true /\ marshalEvent e <> "" /\
  len (marshalEvent e) < maxLine /\ unmarshalEvent (marshalEvent e) = Some e.

Definition apart (t u : Time) : Prop := dialEvery <= Sub u t.

Record sink_ok (es : list Event) (d : DialSink) : Prop := {
  do_order : ds_sent d `sublist_of` es;
  do_count : Z.of_nat (length (ds_sent d)) + ds_dropped d = Z.of_nat (length es);
  do_dropped : 0 <= ds_dropped d;
  do_dials : forall i t u, ds_dials d !! i = Some t -> ds_dials d !! S i = Some u -> apart t u;
  do_last : ds_triedDial d = false /\ ds_dials d = [] \/ ds_triedDial d = true /\ last (ds_dials d) = Some (ds_lastDial d)
}.

Lemma redial_ok es d a : sink_ok es d -> sink_ok es (redial d a).2 /\ ds_sent (redial d a).2 = ds_sent d.
Proof.
  intros Hok. unfold redial. destruct (ds_triedDial d && (Sub (at_now a) (ds_lastDial d) <? dialEvery)) eqn:E; [done|]. split; [|done].
  destruct Hok as [Ho Hc Hd Hi Hl]. split; try done; cbn; [|right; split; [done|by rewrite last_snoc]].
  intros i t u Ht Hu. destruct (decide (S i < length (ds_dials d))%nat) as [Hlt|Hge].
  - rewrite lookup_app_l in Ht, Hu by lia. by eapply Hi.
  - assert (S i = length (ds_dials d)) as Hlen by (apply lookup_lt_Some in Hu; rewrite length_app in Hu; cbn in Hu; lia).
    rewrite lookup_app_l in Ht by lia. rewrite lookup_app_r, Hlen, Nat.sub_diag in Hu by lia. injection Hu as <-.
    destruct Hl as [[_ Hn]|[Htr Hlast]]; [by rewrite Hn in Hlen|]. rewrite last_lookup, <- Hlen in Hlast. cbn in Hlast.
    rewrite Ht in Hlast. injection Hlast as ->. rewrite Htr in E. cbn in E. unfold apart. lia.
Qed.

Lemma DialEmit_ok es d e a : Z.of_nat (length es) < 2 ^ 63 - 1 -> sink_ok es d -> sink_ok (es ++ [e]) (DialEmit d e a).
Proof.
  intros Hmax Hok. unfold DialEmit.
  assert (exists b d1, (if ds_conn d then (true, d) else redial d a) = (b, d1) /\ sink_ok es d1) as (b & d1 & -> & [Ho Hc Hd Hi Hl]).
  { destruct (ds_conn d); [by exists true, d|]. destruct (redial d a) as [b d1] eqn:E. exists b, d1. split; [done|]. pose proof (redial_ok es d a Hok) as [Hr _]. by rewrite E in Hr. }
  assert (forall c, sink_ok (es ++ [e]) (drop (mkDialSink c (ds_lastDial d1) (ds_triedDial d1) (ds_dropped d1) (ds_sent d1) (ds_dials d1)))) as Hdrop.
  { intros c. split; cbn; [by apply sublist_inserts_r|rewrite length_app, i64_small by lia; cbn; lia|rewrite i64_small by lia; lia|done|done]. }
  destruct b; cbn [negb].
  - destruct (at_writes a); [|apply Hdrop]. split; cbn; [by apply sublist_app|rewrite !length_app; cbn; lia|done|done|done].
  - destruct d1. apply (Hdrop ds_conn0).
Qed.

Lemma dialRun_ok l : Z.of_nat (length l) < 2 ^ 63 - 1 -> sink_ok l.*1 (dialRun l).
Proof.
  unfold dialRun. induction l as [|[e a] l IH] using rev_ind; intros Hmax.
  - split; try done. by left.
  - rewrite length_app in Hmax. cbn in Hmax. rewrite foldl_app, fmap_app. cbn. apply DialEmit_ok; [rewrite length_fmap; lia|apply IH; lia].
Qed.

Lemma handleConn_all es : Forall carried es -> handleConn (String.concat "" (map Encode es)) = es.
Proof.
  induction 1 as [|e es (? & ? & ? & ? & ?) _ IH]; [done|]. cbn [map].
  assert (String.concat "" (Encode e :: map Encode es) = Encode e +:+ String.concat "" (map Encode es)) as ->
    by (destruct es; cbn; [by rewrite app_string_nil_r|done]).
  by rewrite handleConn_cons, IH.
Qed.

(** The wire loses nothing that it does not count. For any sequence of emissions, with the sidecar absent, slow or
    gone at any of them, every event was either written or counted as dropped; what was written arrives at Shrike as
    the same events in the same order; and two dials are at least a second apart. *)
Theorem wire_loses_only_what_it_counts l :
  Z.of_nat (length l) < 2 ^ 63 - 1 -> Forall carried l.*1 ->
  let d := dialRun l in
  handleConn (String.concat "" (map Encode (ds_sent d))) = ds_sent d /\
  ds_sent d `sublist_of` l.*1 /\
  Z.of_nat (length (ds_sent d)) + ds_dropped d = Z.of_nat (length l) /\
  forall i t u, ds_dials d !! i = Some t -> ds_dials d !! S i = Some u -> dialEvery <= Sub u t.
Proof.
  intros Hmax Hc d. destruct (dialRun_ok l Hmax) as [Ho Hn _ Hi _]. rewrite length_fmap in Hn. split_and!; [|done|done|done].
  apply handleConn_all. rewrite Forall_forall in *. intros e He. apply Hc. by eapply elem_of_sublist.
Qed.

End wire.

(** ** The operator's relays in the picture *)

(** A relay that gets as far as its route. *)
Definition reaches (s : Server) (q : StreamRequest) (addr : string) : Prop :=
  sq_ProtoMajor q = 2 /\ sq_Flusher q = true /\
  exists rt, route s (TrimPrefix (sq_Path q) StreamPathPrefix) = Some rt /\ resolve rt (sq_Ordinal q) = Ok addr.

Lemma relay_events s n q addr : reaches s q addr ->
  let name := TrimPrefix (sq_Path q) StreamPathPrefix in
  events (streamHandler s n q) =
    [if n_dials n addr
     then mkEvent KAllow "" "" name "" "stream" "" "relayed" (len (slice (n_stream n) 0 (n_upTakes n))) (len (slice (n_downstream n) 0 (n_downTakes n))) 0 0
     else mkEvent KDeny "" "" name "" "stream" "" ReasonDialFailed 0 0 0 0].
Proof.
  intros (Hp & Hf & rt & Hr & Ha). unfold streamHandler. rewrite Hp, Hf. cbn [negb Z.eqb]. rewrite Hr, Ha. by destruct (n_dials n addr).
Qed.

(** An unreachable service is reported as a violation. When the operator's relay cannot reach the in-instance
    service it names, FatLine emits the reason [dial_failed] as a Deny, and Shrike counts it as a denied class and
    raises the alert of an application that reached an undeclared host. *)
Theorem a_failed_relay_is_a_violation s n q addr window now :
  reaches s q addr -> n_dials n addr = false ->
  let name := TrimPrefix (sq_Path q) StreamPathPrefix in
  exists e a, events (streamHandler s n q) = [e] /\ ev_Kind e = KDeny /\ ev_Reason e = ReasonDialFailed /\
    (Inspector.RecordEvent (Inspector.New window) e now).1 = Some a /\
    Inspector.vi_Severity (Inspector.al_Violation a) = Inspector.Warning /\
    Inspector.al_Message a = Inspector.UndeclaredMessage None name 1.
Proof. intros Hr Hd. cbn zeta. rewrite (relay_events s n q addr Hr), Hd. eexists _, _. by split_and!. Qed.

(** What a relay moved is not in the picture. The event of a completed relay carries the bytes of both streams,
    and the row that Shrike makes of it counts one connection, no bytes, and, unless a declared host has the
    route's name, a host that is not declared. *)
Theorem relays_lose_their_bytes `{CaseTables} s n q addr window now p :
  reaches s q addr -> n_dials n addr = true ->
  let name := TrimPrefix (sq_Path q) StreamPathPrefix in
  Contract.Declared p name = None ->
  exists e row, events (streamHandler s n q) = [e] /\
    ev_BytesUp e = len (slice (n_stream n) 0 (n_upTakes n)) /\ ev_BytesDown e = len (slice (n_downstream n) 0 (n_downTakes n)) /\
    Inspector.in_allowed (Inspector.RecordEvent (Inspector.New window) e now).2 !! Inspector.statKey e = Some row /\
    Inspector.hs_Host row = name /\ Inspector.hs_Allows row = 1 /\ Inspector.hs_BytesUp row = 0 /\ Inspector.hs_BytesDown row = 0 /\
    Inspector.hs_Declared (annotate p row) = false.
Proof.
  intros Hr Hd name Hp. rewrite (relay_events s n q addr Hr), Hd. eexists _, _. split_and!; try reflexivity.
  - cbn [Inspector.RecordEvent ev_Kind snd Inspector.in_allowed]. unfold Inspector.recordAllow. rewrite lookup_insert_eq. reflexivity.
  - reflexivity.
  - reflexivity.
  - reflexivity.
  - reflexivity.
  - cbn. unfold Inspector.statFor. cbn. rewrite lookup_empty. cbn. fold name. by rewrite Hp.
Qed.

(** *** Examples *)

Definition exRelay : Server :=
  mkServer (mkConfig ":8443" "" [] None [mkStreamRoute "keyholder" "datasphered:8444" 0] "") (mkList (Allowlist.mkSnapshot ∅ [])) None.
Definition exStream : StreamRequest := mkStreamRequest 2 true "/_fatline/dial/keyholder" "".
Definition exDown : Net := mkNet true true true "bundle" (fun _ => false) 0 1000 "ack" 1000 0.

Lemma exReaches : reaches exRelay exStream "datasphered:8444".
Proof. split_and!; [done|done|]. eexists. by split. Qed.

Lemma a_failed_relay_is_a_violation_witness : exists e, events (streamHandler exRelay exDown exStream) = [e] /\ ev_Kind e = KDeny.
Proof.
  destruct (a_failed_relay_is_a_violation exRelay exDown exStream "datasphered:8444" 0 Second exReaches eq_refl) as (e & a & He & Hk & _).
  exists e. split; assumption.
Defined.

Lemma relays_lose_their_bytes_witness : exists e, events (streamHandler exRelay exNet exStream) = [e] /\ ev_BytesUp e = 15.
Proof.
  destruct (relays_lose_their_bytes (H := exCase) exRelay exNet exStream "datasphered:8444" 0 Second (Contract.New (H := exCase) [])
    exReaches eq_refl eq_refl) as (e & row & He & Hu & _).
  exists e. split; [assumption|]. rewrite Hu. vm_compute. reflexivity.
Defined.

Definition exCodec : EventJson := {|
  marshalEvent e := ev_Host e;
  unmarshalEvent s := if decide (s = "evil.com"%string) then Some (Inspector.exDeny "evil.com") else None
|}.

Lemma wire_loses_only_what_it_counts_witness :
  let l := [(Inspector.exDeny "evil.com", mkAttempt 0 false true); (Inspector.exDeny "evil.com", mkAttempt (2 * Second) true true);
            (Inspector.exDeny "evil.com", mkAttempt (3 * Second) true false)] in
  Z.of_nat (length (ds_sent (dialRun l))) + ds_dropped (dialRun l) = 3 /\ length (ds_sent (dialRun l)) = 1%nat.
Proof.
  intros l. assert (Forall (carried (H := exCodec)) l.*1) as Hc by (repeat constructor; vm_compute; try reflexivity; discriminate).
  split; [|reflexivity]. destruct (wire_loses_only_what_it_counts (H := exCodec) l) as (_ & _ & Hn & _); [vm_compute; reflexivity|exact Hc|].
  exact Hn.
Defined.

Definition exServed : Event := event KAllow "shop" "web" "API.example.com" "8443" "connect" "" "orders".

Lemma no_false_drift_witness : Forall (fun row => Inspector.hs_Declared row = true)
  (sn_Allowed (SnapshotOf (H := exCase) (Contract.New (H := exCase) (flatten exOld))
    (mkMonitor (Contract.New (H := exCase) (flatten exOld)) (Inspector.run 0 [(exServed, Second)]).2 0 "fatline-0"))).
Proof.
  apply Forall_forall. intros row. assert (exServed ∈ events (serve (H := exCase) (H0 := noSNI) (H1 := EgressPolicy.exHash) exServer exServer exNet (exAs "secret"))) as Hin
    by (apply (bool_decide_unpack _); vm_compute; exact I).
  apply (no_false_drift (H := exCase) (H1 := noSNI) (H2 := EgressPolicy.exHash) exOld exServer [(exServed, Second)]).
  - by split.
  - intros e t He%list_elem_of_singleton. injection He as -> _. split; [by split_and!|]. intros _. exists exNet, (exAs "secret"). exact Hin.
Defined.
