(* ===== verification/Replica.v ===== *)
(** * A replica, seen from outside ([farsight/cli/internal/keyholder])

    What the operator's tools and a keeper know of a keyholder: the state it
    reports, the refusals it answers, and the ledger of what was pushed to it.
    [sealStateClient] is how they reach one. *)

From Stdlib Require Import Ascii.
From S2P Require Import Prelude Effect GoTime GoStrings Slices Encoding Keyring.
From S2P Require Server.

(** ** What a replica reports ([client.go]) *)

(** Scope names to hex key IDs, the active one first. *)
Abbreviation Keys := (gmap string (list string)) (only parsing).

(** No keys is the nil map. *)
Record State := mkState {
  rp_Instance : string;
  rp_Phase : string;
  rp_Since : Time;
  rp_Generation : Z;
  rp_HoldReason : string;
  rp_Scopes : list string;
  rp_Boot : string;
  rp_Keys : option Keys
}.

Definition zeroState : State := mkState "" "" zero_time 0 "" [] "" None.

(** Reading a nil map. *)
Definition keysOf (st : State) : Keys := default ∅ (rp_Keys st).

Definition Sealed (st : State) : bool := bool_decide (rp_Phase st <> "unsealed").

Inductive call_error :=
| Refusal (ordinal : Z) (code reason : string)
| Fetching (ordinal : Z) (e : call_error)
| Unintelligible (ordinal : Z)
| Failed (why : string).

(** [errors.As(err, &refusal)]. *)
Fixpoint refusalOf (e : call_error) : option string :=
  match e with
  | Refusal _ code _ => Some code
  | Fetching _ e => refusalOf e
  | Unintelligible _ | Failed _ => None
  end.

Definition refusedWith (code : string) (e : option call_error) : bool := bool_decide ((e ≫= refusalOf) = Some code).
Definition NotServing (e : option call_error) : bool := refusedWith Server.CodeNotServing e.
Definition AlreadyServing (e : option call_error) : bool := refusedWith Server.CodeAlreadyServing e.

(** The body of an error: its code and message. *)
Class RefusalJson := { unmarshalRefusal : string -> option (string * string) }.

Definition refusalReason `{RefusalJson} (payload fallback : string) : string * string :=
  match unmarshalRefusal payload with
  | Some (code, message) =>
      if decide (message = "") then ("", fallback)
      else if decide (code <> "") then (code, message +:+ " (" +:+ code +:+ ")") else ("", message)
  | None => ("", fallback)
  end.

Definition maxReply : Z := 2 ^ 20.

(** What a call makes of a response; [status] is the code with its text. *)
Definition readReply `{RefusalJson} {A} (decode : string -> option A) (ordinal : Z) (status : Z * string) (body : string)
    : result call_error A :=
  let payload := stake (Z.to_nat maxReply) body in
  if decide (status.1 / 100 <> 2)
  then let '(code, reason) := refusalReason payload status.2 in Err (Refusal ordinal code reason)
  else match decode payload with Some a => Ok a | None => Err (Unintelligible ordinal) end.

(** The query: what is not unreserved is escaped. *)
Definition unreserved (b : Z) : bool :=
  inRange 97 122 b || inRange 65 90 b || inRange 48 57 b || bool_decide (b ∈ [45; 95; 46; 126]).

Definition hexUpper (v : Z) : Z := if v <? 10 then 48 + v else 55 + v.

Definition escapeByte (b : Z) : list Z :=
  if unreserved b then [b] else [37; hexUpper (b / 16); hexUpper (b mod 16)].

Definition urlQueryEscape (s : string) : string := of_bytes (concat (map escapeByte (bytes s))).

(** [sealStateClient] of the commands, with the clock; a call may change what it reaches, and gives a state
    with its error. *)
Class SealStateClient (W : Type) := {
  sk_State : Z -> W -> (State * option call_error) * W;
  sk_Unseal : Z -> string -> string -> W -> (State * option call_error) * W;
  sk_now : W -> Time
}.

(** ** The ledger ([ledger.go]) *)

Record LedgerEntry := mkEntry {
  le_Time : Time;
  le_Instance : string;
  le_Ordinal : Z;
  le_Intent : string;
  le_Generation : Z;
  le_Phase : string;
  le_Result : string;
  le_Device : string;
  le_Boot : string
}.

#[export] Instance LedgerEntry_eq_dec : EqDecision LedgerEntry.
Proof. solve_decision. Defined.

(** [json.Marshal] and [json.Unmarshal] of an entry. *)
Class LedgerJson := {
  marshalEntry : LedgerEntry -> result string string;
  unmarshalEntry : string -> option LedgerEntry
}.

Inductive ledger_error :=
| EncodeEntry (e : string)
| OpenLedger (e : string)
| WriteLedger (e : string).

(** What the disk does of one append: it refuses to open the file, or takes so many bytes of it and fails, or
    all of it. *)
Inductive disk :=
| DiskRefuses (e : string)
| DiskTears (n : nat) (e : string)
| DiskTakes.

Definition newline : ascii := "010".

(** The last piece is a line only when it is not empty. *)
Definition splitLines (data : string) : list string :=
  let lines := SplitByte newline data in
  if decide (last lines = Some "") then removelast lines else lines.

Section ledger.
Context `{LedgerJson}.

(** The file, if there is one, and what is left of it. *)
Definition AppendLedger (d : disk) (e : LedgerEntry) (file : option string) : result ledger_error unit * option string :=
  match marshalEntry e with
  | Err why => (Err (EncodeEntry why), file)
  | Ok line =>
      let data := line +:+ String newline "" in
      match d with
      | DiskRefuses why => (Err (OpenLedger why), file)
      | DiskTears n why => (Err (WriteLedger why), Some (default "" file +:+ stake n data))
      | DiskTakes => (Ok tt, Some (default "" file +:+ data))
      end
  end.

Definition ReadLedger (file : option string) : list LedgerEntry :=
  match file with
  | None => []
  | Some data => omap (fun line => if decide (line = "") then None else unmarshalEntry line) (splitLines data)
  end.

(** An entry the codec carries on one line. *)
Definition written (e : LedgerEntry) (line : string) : Prop :=
  marshalEntry e = Ok line /\ line <> "" /\ without newline line = true /\ unmarshalEntry line = Some e.

(** A file whose last line is complete. *)
Definition complete (file : option string) : Prop :=
  default "" file = "" \/ exists data, default "" file = data +:+ String newline "".

Lemma ReadLedger_lines file : ReadLedger file = omap (fun line => if decide (line = "") then None else unmarshalEntry line)
  (SplitByte newline (default "" file)).
Proof.
  destruct file as [data|]; [|done]. change (default "" (Some data)) with data. cbn [ReadLedger]. unfold splitLines.
  case_decide as Hl; [|done]. pose proof (SplitByte_nonempty newline data). destruct (SplitByte newline data) as [|x l _] using rev_ind; [done|].
  rewrite last_snoc in Hl. injection Hl as ->. rewrite removelast_last, omap_app. cbn. by rewrite app_nil_r.
Qed.

(** A line after a complete file is read by itself. *)
Lemma ReadLedger_line file line : complete file -> without newline line = true ->
  ReadLedger (Some (default "" file +:+ line +:+ String newline "")) =
  ReadLedger file ++ (if decide (line = "") then [] else option_list (unmarshalEntry line)).
Proof.
  intros Hc Hw. rewrite !ReadLedger_lines.
  change (default "" (Some ?s)) with s.
  assert (SplitByte newline (default "" file +:+ line +:+ String newline "") =
    removelast (SplitByte newline (default "" file)) ++ [line; ""] /\ last (SplitByte newline (default "" file)) = Some "") as [E El].
  { destruct Hc as [->|[data ->]].
    - rewrite nil_app. rewrite SplitByte_app by done. done.
    - rewrite app_string_assoc, cons_app, nil_app, !SplitByte_app_sep, (SplitByte_without newline line) by done.
      change (SplitByte newline "") with [""]. rewrite removelast_last, last_snoc. done. }
  rewrite E. pose proof (SplitByte_nonempty newline (default "" file)).
  destruct (SplitByte newline (default "" file)) as [|x l _] using rev_ind; [done|]. rewrite last_snoc in El. injection El as ->.
  rewrite removelast_last, !omap_app. cbn. rewrite app_nil_r. case_decide; [done|]. by destruct (unmarshalEntry line).
Qed.

End ledger.

(** ** Keys of several replicas *)

Definition hexID (e : KeyEntry) : string := HexEncodeToString (ke_ID e).

(** The IDs a scope's keys are reported by. *)
Definition scopeKeys (s : Scope) : list string := map hexID (kr_keys (sc_keys s)).

(** What a replica reports once it holds these scopes. *)
Definition heldKeys (scopes : list Scope) : Keys := foldl (fun out s => <[sc_Name s := scopeKeys s]> out) ∅ scopes.

(** [a] reads what [b] writes, of the scopes both hold: [b]'s active key is one of [a]'s. *)
Definition reads (a b : Keys) : Prop := forall scope ids ids' id,
  a !! scope = Some ids -> b !! scope = Some ids' -> head ids' = Some id -> id ∈ ids.

(** [a] holds every key of [b]. *)
Definition covers (a b : Keys) : Prop := forall scope ids, b !! scope = Some ids ->
  exists ids', a !! scope = Some ids' /\ forall id, id ∈ ids -> id ∈ ids'.

Definition agree (a b : Keys) : Prop := reads a b /\ reads b a.

Lemma covers_refl a : covers a a.
Proof. intros scope ids Hs. by exists ids. Qed.

Lemma covers_trans a b c : covers a b -> covers b c -> covers a c.
Proof.
  intros Hab Hbc scope ids Hs. apply Hbc in Hs as (ids1 & H1 & Hi). apply Hab in H1 as (ids2 & H2 & Hj).
  exists ids2. split; [done|]. auto.
Qed.

(** What covers a replica's keys reads what it writes. *)
Lemma covers_reads a b : covers a b -> reads a b.
Proof.
  intros Hc scope ids ids' id Ha Hb Hh. apply Hc in Hb as (ids2 & Ha' & Hi).
  rewrite Ha in Ha'. injection Ha' as <-. apply Hi. destruct ids'; [done|]. injection Hh as <-. by left.
Qed.

(** A map filled from a list of different keys. *)
Lemma foldl_insert_elem {A V} (f : A -> string) (g : A -> V) (l : list A) k v : NoDup (map f l) ->
  foldl (fun m x => <[f x := g x]> m) (∅ : gmap string V) l !! k = Some v <-> exists x, x ∈ l /\ f x = k /\ v = g x.
Proof.
  intros Hn. induction l as [|x l IH] using rev_ind.
  - cbn. rewrite lookup_empty. split; [done|]. by intros (? & ?%elem_of_nil & _).
  - rewrite map_app, NoDup_app in Hn. cbn in Hn. destruct Hn as (Hn & Hd & _). rewrite foldl_app. cbn [foldl].
    destruct (decide (f x = k)) as [<-|Hne].
    + rewrite lookup_insert_eq. split.
      * intros [= <-]. exists x. split; [|done]. apply elem_of_app. right. by left.
      * intros (t & [Ht| ->%list_elem_of_singleton]%elem_of_app & Hna & ->); [|done]. destruct (Hd (f t)).
        { apply list_elem_of_fmap. by exists t. } rewrite Hna. by left.
    + rewrite lookup_insert_ne, IH by done. split; intros (t & Ht & Hna & ->); exists t; (split; [|done]).
      * apply elem_of_app. by left.
      * apply elem_of_app in Ht as [| ->%list_elem_of_singleton]; [done|]. congruence.
Qed.

Lemma heldKeys_elem scopes name ids : NoDup (map sc_Name scopes) ->
  heldKeys scopes !! name = Some ids <-> exists s, s ∈ scopes /\ sc_Name s = name /\ ids = scopeKeys s.
Proof. apply foldl_insert_elem. Qed.

(** A scope's keys by ID, and those of every scope. *)
Definition keysByID (s : Scope) : gmap string KeyEntry := foldl (fun ids e => <[hexID e := e]> ids) ∅ (kr_keys (sc_keys s)).

Definition heldByScope (scopes : list Scope) : gmap string (gmap string KeyEntry) :=
  foldl (fun held s => <[sc_Name s := keysByID s]> held) ∅ scopes.

Definition sortedNames (keys : Keys) : list string := sort_strings (map_to_list keys).*1.

Lemma scope_keys s : ScopeValid s = Ok tt -> exists e rest, kr_keys (sc_keys s) = e :: rest /\ NoDup (map hexID (e :: rest)).
Proof.
  intros (_ & _ & [_ Hk _ [_ Hn] _])%ScopeValid_spec. destruct (kr_keys (sc_keys s)) as [|e rest]; [done|].
  exists e, rest. split; [done|]. unfold hexID. rewrite <- (map_map ke_ID HexEncodeToString).
  apply (NoDup_fmap_2_strong HexEncodeToString); [|done].
  intros x y _ _ E%(f_equal HexDecodeString). rewrite !hex_string_roundtrip in E. by injection E.
Qed.

Lemma keysByID_elem s id e : NoDup (scopeKeys s) -> keysByID s !! id = Some e <-> e ∈ kr_keys (sc_keys s) /\ hexID e = id.
Proof.
  intros Hn. pose proof (foldl_insert_elem hexID (fun e => e) _ id e Hn) as Hf. etrans; [exact Hf|]. split.
  - by intros (x & Hx & <- & ->).
  - intros [He <-]. by exists e.
Qed.

Lemma keysByID_none s id : NoDup (scopeKeys s) -> keysByID s !! id = None <-> id ∉ scopeKeys s.
Proof.
  intros Hn. rewrite eq_None_not_Some. apply not_iff_compat. split.
  - intros [e [He <-]%keysByID_elem]; [|done]. apply list_elem_of_fmap. by exists e.
  - intros (e & -> & He)%list_elem_of_fmap. exists e. by apply keysByID_elem.
Qed.

Lemma sortedNames_elem keys name : name ∈ sortedNames keys <-> is_Some (keys !! name).
Proof.
  unfold sortedNames. rewrite sort_strings_perm. rewrite list_elem_of_fmap. split.
  - intros ([n ids] & -> & Hn%elem_of_map_to_list). by eexists.
  - intros [ids Hn]. exists (name, ids). split; [done|]. by apply elem_of_map_to_list.
Qed.
