(* ===== verification/Keeper.v ===== *)
(** * Keepers ([farsight/cli/internal/keeper], [farsight/cli/internal/cli/keeper.go])

    A device of the operator's that re-seeds a keyholder which restarted: what it
    decides of each replica, its budget, one pass over the replicas, and the audit
    of a fleet's ledgers. *)

From Stdlib Require Import Ascii.
From S2P Require Import Prelude Effect GoTime GoStrings PosText Encoding LogicalKey Keyring KeyringFacts KeyringFile Material Bundle Identity Replica.

(** ** Deciding ([decide.go]) *)

Inductive Action :=
| ActionNone
| ActionReseed
| ActionHold
| ActionBudget
| ActionStale
| ActionUnknown
| ActionUnchecked.

#[export] Instance Action_eq_dec : EqDecision Action.
Proof. solve_decision. Defined.

(** Why a bundle disagrees with what a replica serves. *)
Inductive mismatch :=
| ScopeMissing (replica : Z) (scope : string)
| KeyMissing (replica : Z) (scope : string)
| HeldNotThere (replica : Z) (scope : string)
| OlderActive (replica : Z) (scope : string).

Record Fleet := mkFleet {
  fl_Mismatch : option mismatch;
  fl_Unchecked : option Z
}.

Record BudgetState := mkBudget {
  bs_Used : Z;
  bs_Limit : Z;
  bs_Window : Duration;
  bs_Allowed : bool;
  bs_Oldest : Time
}.

(** The texts of a decision. *)
Inductive reason :=
| DidNotAnswer (e : call_error)
| HoldingKeys (generation : Z)
| SealedByOperator (why : string)
| GenerationBehind (theirs mine : Z)
| Disagrees (m : mismatch)
| ReplicaSilent (replica : Z)
| BudgetSpent (b : BudgetState)
| WithinBudget
| ServingAlready.

Record Decision := mkDecision {
  dn_Ordinal : Z;
  dn_Action : Action;
  dn_Reason : reason
}.

(** The ID of the key each scope writes under. *)
Definition activeByScope (scopes : list Scope) : gmap string string :=
  foldl (fun active s => match kr_keys (sc_keys s) with e :: _ => <[sc_Name s := hexID e]> active | [] => active end) ∅ scopes.

Definition createdOf (ids : gmap string KeyEntry) (id : string) : Time :=
  match ids !! id with Some e => ke_Created e | None => zero_time end.

Definition checkScope (held : gmap string (gmap string KeyEntry)) (active : gmap string string) (i : Z) (keys : Keys)
    (name : string) : result mismatch unit :=
  match held !! name with
  | None => Err (ScopeMissing i name)
  | Some ids =>
      let theirs := default [] (keys !! name) in
      let mine := default "" (active !! name) in
      if existsb (fun id => bool_decide (ids !! id = None)) theirs then Err (KeyMissing i name)
      else if decide (mine ∉ theirs) then Err (HeldNotThere i name)
      else match theirs with
           | first :: _ =>
               if bool_decide (first <> mine) && After (createdOf ids first) (createdOf ids mine)
               then Err (OlderActive i name) else Ok tt
           | [] => Ok tt
           end
  end.

(** The first disagreement, replica by replica and scope by scope. *)
Definition Mismatch (scopes : list Scope) (states : list State) : result mismatch unit :=
  let held := heldByScope scopes in
  let active := activeByScope scopes in
  foldM (fun _ '(i, st) =>
    if Sealed st then Ok tt
    else foldM (fun _ name => checkScope held active (Z.of_nat i) (keysOf st) name) tt (sortedNames (keysOf st)))
    tt (imap pair states).

Definition firstSilent (errs : list (option call_error)) : option Z :=
  '(i, _) ← list_find (fun e => is_Some e) errs; Some (Z.of_nat i).

Definition FleetOf (scopes : list Scope) (states : list State) (errs : list (option call_error)) : Fleet :=
  mkFleet (match Mismatch scopes states with Err m => Some m | Ok _ => None end) (firstSilent errs).

Definition operatorHold : string := "operator-hold".

Definition Decide (st : State) (err : option call_error) (ordinal mine : Z) (budget : BudgetState) (fleet : Fleet) : Decision :=
  let d := mkDecision ordinal in
  match err with
  | Some e => d ActionUnknown (DidNotAnswer e)
  | None =>
      if negb (Sealed st) then d ActionNone (HoldingKeys (rp_Generation st))
      else if decide (rp_Phase st = operatorHold) then d ActionHold (SealedByOperator (rp_HoldReason st))
      else if mine <? rp_Generation st then d ActionStale (GenerationBehind (rp_Generation st) mine)
      else match fl_Mismatch fleet with
           | Some m => d ActionStale (Disagrees m)
           | None =>
               match fl_Unchecked fleet with
               | Some i => d ActionUnchecked (ReplicaSilent i)
               | None =>
                   if negb (bs_Allowed budget) then d ActionBudget (BudgetSpent budget)
                   else d ActionReseed WithinBudget
               end
           end
  end.

(** A push that moved key material. *)
Definition reseeded (e : LedgerEntry) : Prop := le_Intent e = IntentReseed /\ le_Result e = "ok".

#[export] Instance reseeded_dec e : base.Decision (reseeded e).
Proof. unfold reseeded. apply _. Defined.

Definition countEntry (cutoff : Time) (acc : Z * Time) (e : LedgerEntry) : Z * Time :=
  let '(used, oldest) := acc in
  if decide (~ reseeded e) then acc
  else if Before (le_Time e) cutoff then acc
  else (used + 1, if IsZero oldest || Before (le_Time e) oldest then le_Time e else oldest).

Definition Budget (entries : list LedgerEntry) (limit : Z) (window : Duration) (now : Time) : BudgetState :=
  let '(used, oldest) := foldl (countEntry (now - window)) (0, zero_time) entries in
  mkBudget used limit window (used <? limit) oldest.

(** ** The record of a device ([packet.go], [store.go]) *)

Record Config := mkConfig {
  kc_Version : Z;
  kc_Instance : string;
  kc_Device : string;
  kc_Carrier : string;
  kc_ServerName : string;
  kc_Generation : Z;
  kc_Budget : Z;
  kc_Window : Duration;
  kc_InstalledAt : Time;
  kc_BackupExcluded : bool;
  kc_BackupNote : string
}.

Definition MaxDeviceLen : Z := 63.

Inductive device_error :=
| DeviceRequired
| DeviceTooLong
| DeviceStart
| DeviceChars
| DeviceEnd.

Definition deviceByte (b : Z) : bool := inRange 97 122 b || inRange 48 57 b || (b =? 45).

Definition ValidateDevice (device : string) : result device_error unit :=
  match bytes device with
  | [] => Err DeviceRequired
  | first :: _ =>
      if MaxDeviceLen <? len device then Err DeviceTooLong
      else if negb (inRange 97 122 first) then Err DeviceStart
      else if negb (forallb deviceByte (bytes device)) then Err DeviceChars
      else if decide (last (bytes device) = Some 45) then Err DeviceEnd
      else Ok tt
  end.

(** ** One pass ([keeperCheckWith]) *)

Definition keeperReplicas : nat := 2.

Inductive keeper_error :=
| LedgerUnread (e : string)
| BundleUnread (e : bundle_error).

(** What a pass works on: the replicas' world, its own memory, the ledger's file, and what it has read of it or
    added to it. *)
Record Pass (W : Type) := mkPass {
  ps_world : W;
  ps_mem : memory;
  ps_file : option string;
  ps_entries : list LedgerEntry;
  ps_decisions : list Decision
}.

Arguments mkPass {W}.
Arguments ps_world {W}.
Arguments ps_mem {W}.
Arguments ps_file {W}.
Arguments ps_entries {W}.
Arguments ps_decisions {W}.

Section pass.
Context {W : Type} `{SealStateClient W} `{LedgerJson} `{BundleYaml}.

Definition decided {W} (d : Decision) (p : Pass W) : Pass W :=
  mkPass (ps_world p) (ps_mem p) (ps_file p) (ps_entries p) (ps_decisions p ++ [d]).

(** Every replica is asked before any is decided. *)
Fixpoint askAll (n : nat) (i : Z) (w : W) : list (State * option call_error) * W :=
  match n with
  | 0%nat => ([], w)
  | S n =>
      let '(answer, w) := sk_State i w in
      let '(answers, w) := askAll n (i + 1) w in
      (answer :: answers, w)
  end.

Definition pushEntry (cfg : Config) (i : Z) (st pushed : State) (e : option call_error) (now : Time) : LedgerEntry :=
  mkEntry now (kc_Instance cfg) i IntentReseed (kc_Generation cfg)
    (match e with None => rp_Phase pushed | Some _ => "" end)
    (match e with None => "ok" | Some _ => "refused" end)
    (kc_Device cfg)
    (match e with
     | None => if decide (rp_Boot pushed <> "") then rp_Boot pushed else rp_Boot st
     | Some _ => rp_Boot st
     end).

(** The decision after a push. *)
Definition afterPush (d : Decision) (e : option call_error) : Decision :=
  match e with
  | None => d
  | Some why =>
      if AlreadyServing e then mkDecision (dn_Ordinal d) ActionNone ServingAlready
      else mkDecision (dn_Ordinal d) ActionUnknown (DidNotAnswer why)
  end.

(** A failed append is a warning; the entry counts for the rest of the pass all the same. *)
Definition reseedOne (cfg : Config) (bundle : string) (dk : disk) (st : State) (d : Decision) (p : Pass W) : Pass W :=
  let i := dn_Ordinal d in
  let '((pushed, e), w) := sk_Unseal i bundle IntentReseed (ps_world p) in
  let entry := pushEntry cfg i st pushed e (sk_now w) in
  let '(_, file) := AppendLedger dk entry (ps_file p) in
  mkPass w (ps_mem p) file (ps_entries p ++ [entry]) (ps_decisions p ++ [afterPush d e]).

Definition checkOne (cfg : Config) (bundle : string) (dk : Z -> disk) (fleet : Fleet) (p : Pass W)
    (answer : nat * (State * option call_error)) : Pass W :=
  let '(i, (st, e)) := answer in
  let i := Z.of_nat i in
  let budget := Budget (ps_entries p) (kc_Budget cfg) (kc_Window cfg) (sk_now (ps_world p)) in
  let d := Decide st e i (kc_Generation cfg) budget fleet in
  if decide (dn_Action d = ActionReseed) then reseedOne cfg bundle (dk i) st d p else decided d p.

(** [read] is what reading the ledger's file fails with. *)
Definition keeperCheckWith (cfg : Config) (bundle : string) (read : option string) (dk : Z -> disk)
    : eff (Pass W) keeper_error (list Decision) := fun p =>
  match read with
  | Some why => (Err (LedgerUnread why), p)
  | None =>
      let entries := ReadLedger (ps_file p) in
      let '(answers, w) := askAll keeperReplicas 0 (ps_world p) in
      let p := mkPass w (ps_mem p) (ps_file p) entries [] in
      match ParseBundle bundle (ps_mem p) with
      | (Err why, m) => (Err (BundleUnread why), mkPass w m (ps_file p) entries [])
      | (Ok parsed, m) =>
          let fleet := FleetOf (map (load m) (b_scopes parsed)) answers.*1 answers.*2 in
          let '(_, m) := ZeroBundle m parsed in
          let p := foldl (checkOne cfg bundle dk fleet) (mkPass w m (ps_file p) entries []) (imap pair answers) in
          (Ok (ps_decisions p), p)
      end
  end.

End pass.

(** ** The audit ([audit.go]) *)

Record BootCount := mkBootCount {
  bc_Boot : string;
  bc_Count : Z;
  bc_Device : string;
  bc_First : Time;
  bc_Last : Time
}.

Record Audit := mkAudit {
  au_Instance : string;
  au_From : Time;
  au_To : Time;
  au_Reseeds : Z;
  au_Boots : Z;
  au_Refused : Z;
  au_Devices : list string;
  au_Unlabelled : Z;
  au_Divergent : list BootCount
}.

Definition Clean (a : Audit) : bool := bool_decide (au_Divergent a = []).

(** What the loop keeps. *)
Record Tally := mkTally {
  ta_From : Time;
  ta_To : Time;
  ta_Reseeds : Z;
  ta_Refused : Z;
  ta_Unlabelled : Z;
  ta_byBoot : gmap string BootCount;
  ta_devices : gset string
}.

Definition emptyTally : Tally := mkTally zero_time zero_time 0 0 0 ∅ ∅.

Definition bootSeen (e : LedgerEntry) (bc : option BootCount) : BootCount :=
  let bc := default (mkBootCount (le_Boot e) 0 (le_Device e) (le_Time e) zero_time) bc in
  mkBootCount (bc_Boot bc) (bc_Count bc + 1)
    (if bool_decide (le_Device e <> "") && bool_decide (bc_Device bc <> le_Device e) then "fleet" else bc_Device bc)
    (bc_First bc)
    (if After (le_Time e) (bc_Last bc) then le_Time e else bc_Last bc).

Definition tallyEntry (instance : string) (t : Tally) (e : LedgerEntry) : Tally :=
  if decide (le_Instance e <> instance) then t
  else
    let from := if IsZero (ta_From t) || Before (le_Time e) (ta_From t) then le_Time e else ta_From t in
    let to := if After (le_Time e) (ta_To t) then le_Time e else ta_To t in
    let devices := if decide (le_Device e = "") then ta_devices t else {[le_Device e]} ∪ ta_devices t in
    if decide (le_Intent e <> IntentReseed)
    then mkTally from to (ta_Reseeds t) (ta_Refused t) (ta_Unlabelled t) (ta_byBoot t) devices
    else if decide (le_Result e <> "ok")
    then mkTally from to (ta_Reseeds t) (ta_Refused t + 1) (ta_Unlabelled t) (ta_byBoot t) devices
    else if decide (le_Boot e = "")
    then mkTally from to (ta_Reseeds t + 1) (ta_Refused t) (ta_Unlabelled t + 1) (ta_byBoot t) devices
    else mkTally from to (ta_Reseeds t + 1) (ta_Refused t) (ta_Unlabelled t)
           (<[le_Boot e := bootSeen e (ta_byBoot t !! le_Boot e)]> (ta_byBoot t)) devices.

Section audit.
Context `{GoRange}.

(** Boots that compare equal come in the order of the map. *)
Definition Reconcile (instance : string) (entries : list LedgerEntry) : Audit :=
  let t := foldl (tallyEntry instance) emptyTally entries in
  mkAudit instance (ta_From t) (ta_To t) (ta_Reseeds t) (Z.of_nat (size (ta_byBoot t))) (ta_Refused t)
    (sort_strings (elements (ta_devices t))) (ta_Unlabelled t)
    (sort_slice (fun a b => After (bc_Last a) (bc_Last b))
       (filter (fun bc => 1 < bc_Count bc) (go_range (ta_byBoot t)).*2)).

End audit.

(** ** What a keeper looks for *)

(** A serving replica can work beside these scopes: they carry each of its keys, write under one it holds, and not
    an older one than it writes under. *)
Definition stands (scopes : list Scope) (st : State) : Prop := forall name theirs, keysOf st !! name = Some theirs ->
  exists s e, s ∈ scopes /\ sc_Name s = name /\ head (kr_keys (sc_keys s)) = Some e /\
    (forall id, id ∈ theirs -> id ∈ scopeKeys s) /\ hexID e ∈ theirs /\
    forall e', e' ∈ kr_keys (sc_keys s) -> head theirs = Some (hexID e') -> ke_Created e' <= ke_Created e.

Lemma activeByScope_elem scopes s e : Forall (fun s => ScopeValid s = Ok tt) scopes -> NoDup (map sc_Name scopes) ->
  s ∈ scopes -> head (kr_keys (sc_keys s)) = Some e -> activeByScope scopes !! sc_Name s = Some (hexID e).
Proof.
  intros Hv Hn Hs He. unfold activeByScope.
  assert (foldl (fun active s => match kr_keys (sc_keys s) with e :: _ => <[sc_Name s := hexID e]> active | [] => active end) ∅ scopes =
    foldl (fun m s => <[sc_Name s := default "" (hexID <$> head (kr_keys (sc_keys s)))]> m) ∅ scopes) as ->.
  { clear Hn Hs. generalize (∅ : gmap string string). induction Hv as [|t ss Ht _ IH]; intros m; [done|]. cbn [foldl].
    apply scope_keys in Ht as (e' & rest & -> & _). apply IH. }
  apply (foldl_insert_elem sc_Name (fun s => default "" (hexID <$> head (kr_keys (sc_keys s)))) _ _ _ Hn).
  exists s. by rewrite He.
Qed.

(** One scope of one replica. *)
Lemma checkScope_spec scopes i keys name theirs : scopes_ok scopes -> keys !! name = Some theirs ->
  checkScope (heldByScope scopes) (activeByScope scopes) i keys name = Ok tt <->
  exists s e, s ∈ scopes /\ sc_Name s = name /\ head (kr_keys (sc_keys s)) = Some e /\
    (forall id, id ∈ theirs -> id ∈ scopeKeys s) /\ hexID e ∈ theirs /\
    forall e', e' ∈ kr_keys (sc_keys s) -> head theirs = Some (hexID e') -> ke_Created e' <= ke_Created e.
Proof.
  intros [Hv Hn _] Ht. unfold checkScope. rewrite Ht. change (default [] (Some theirs)) with theirs.
  pose proof (fun ids => foldl_insert_elem sc_Name keysByID scopes name ids Hn) as Hh. fold (heldByScope scopes) in Hh.
  destruct (heldByScope scopes !! name) as [ids|] eqn:E.
  2:{ split; [done|]. intros (s & e & Hs & Hna & _). discriminate (proj2 (Hh (keysByID s)) (ex_intro _ s (conj Hs (conj Hna eq_refl)))). }
  destruct (proj1 (Hh ids) eq_refl) as (s & Hs & Hna & ->). assert (ScopeValid s = Ok tt) as Hsv by (by eapply Forall_forall in Hv).
  destruct (scope_keys s Hsv) as (e & rest & Ek & Hd). assert (NoDup (scopeKeys s)) as Hnd by (unfold scopeKeys; by rewrite Ek).
  assert (head (kr_keys (sc_keys s)) = Some e) as He by (by rewrite Ek).
  pose proof (activeByScope_elem scopes s e Hv Hn Hs He) as Ha. rewrite Hna in Ha. rewrite Ha.
  change (default "" (Some (hexID e))) with (hexID e).
  assert (forall P : Scope -> KeyEntry -> Prop, (exists s e, s ∈ scopes /\ sc_Name s = name /\ head (kr_keys (sc_keys s)) = Some e /\ P s e) <-> P s e) as Hex.
  { intros P. split; [|by intros HP; exists s, e]. intros (s' & e' & Hs' & Hna' & He' & HP).
    assert (s' = s) as ->; [|congruence]. apply (NoDup_map_inj sc_Name scopes); congruence. }
  etrans; [|symmetry; exact (Hex (fun s e => (forall id, id ∈ theirs -> id ∈ scopeKeys s) /\ hexID e ∈ theirs /\
    forall e', e' ∈ kr_keys (sc_keys s) -> head theirs = Some (hexID e') -> ke_Created e' <= ke_Created e))]. cbv beta.
  destruct (existsb (fun id => bool_decide (keysByID s !! id = None)) theirs) eqn:Ex.
  { split; [done|]. intros [Hall _]. apply existsb_exists in Ex as (id & Hid%list_elem_of_In & Hno%bool_decide_eq_true).
    apply keysByID_none in Hno; [|done]. by destruct Hno; apply Hall. }
  assert (forall id, id ∈ theirs -> id ∈ scopeKeys s) as Hall.
  { intros id Hid. apply dec_stable. intros Hno%keysByID_none; [|done]. apply not_true_iff_false in Ex. destruct Ex.
    apply existsb_exists. exists id. split; [by apply list_elem_of_In|]. by apply bool_decide_eq_true. }
  destruct (decide (hexID e ∉ theirs)) as [Hm|Hm]; [split; [done|by intros (_ & ? & _)]|]. apply dec_stable in Hm.
  destruct theirs as [|first theirs]; [by apply not_elem_of_nil in Hm|].
  assert (createdOf (keysByID s) (hexID e) = ke_Created e) as ->.
  { unfold createdOf. rewrite (proj2 (keysByID_elem s (hexID e) e Hnd)); [done|]. split; [rewrite Ek; by left|done]. }
  assert (exists e1, e1 ∈ kr_keys (sc_keys s) /\ hexID e1 = first) as (e1 & He1 & <-).
  { assert (first ∈ scopeKeys s) as (e1 & -> & He1)%list_elem_of_fmap by (apply Hall; by left). by exists e1. }
  assert (createdOf (keysByID s) (hexID e1) = ke_Created e1) as ->.
  { unfold createdOf. by rewrite (proj2 (keysByID_elem s (hexID e1) e1 Hnd)). }
  assert ((forall e', e' ∈ kr_keys (sc_keys s) -> head (hexID e1 :: theirs) = Some (hexID e') -> ke_Created e' <= ke_Created e) <->
    ke_Created e1 <= ke_Created e) as ->.
  { split; [intros Hc; by apply Hc|]. intros Hc e' He' [= Heq].
    assert (keysByID s !! hexID e1 = Some e') by (by apply keysByID_elem).
    assert (keysByID s !! hexID e1 = Some e1) by (by apply keysByID_elem). congruence. }
  unfold After. destruct (Z.ltb_spec (ke_Created e) (ke_Created e1)) as [Hlt|Hle]; [|rewrite andb_false_r; naive_solver].
  rewrite andb_true_r. destruct (decide (hexID e1 = hexID e)) as [Heq|Hne].
  - assert (keysByID s !! hexID e = Some e1) by (by apply keysByID_elem).
    assert (keysByID s !! hexID e = Some e) by (apply keysByID_elem; [done|]; split; [rewrite Ek; by left|done]).
    assert (e1 = e) by congruence. subst. lia.
  - rewrite bool_decide_true by done. split; [done|]. intros (_ & _ & ?). lia.
Qed.

Lemma foldM_checks_states {E} (f : nat -> State -> result E unit) states :
  foldM (fun _ '(i, st) => f i st) tt (imap pair states) = Ok tt <-> forall i st, states !! i = Some st -> f i st = Ok tt.
Proof.
  etrans; [exact (foldM_checks (fun '(i, st) => f i st) (imap pair states))|]. rewrite Forall_lookup. split.
  - intros Hf i st Hst. apply (Hf i (i, st)). rewrite list_lookup_imap, Hst. done.
  - intros Hf k [i st]. rewrite list_lookup_imap. destruct (states !! k) as [st'|] eqn:E'; cbn; [|done].
    intros [= <- <-]. by apply Hf.
Qed.

Lemma Mismatch_spec scopes states : scopes_ok scopes ->
  Mismatch scopes states = Ok tt <-> forall st, st ∈ states -> Sealed st = false -> stands scopes st.
Proof.
  intros Hok. unfold Mismatch. etrans; [apply foldM_checks_states|]. split.
  - intros Hf st [i Hi]%list_elem_of_lookup Hs name theirs Ht. specialize (Hf i st Hi). rewrite Hs in Hf.
    apply (foldM_checks (fun name => checkScope (heldByScope scopes) (activeByScope scopes) (Z.of_nat i) (keysOf st) name)) in Hf.
    rewrite Forall_forall in Hf. eapply (checkScope_spec scopes (Z.of_nat i)); [done..|]. apply Hf.
    apply sortedNames_elem. by eexists.
  - intros Hf i st Hi. destruct (Sealed st) eqn:Hs; [done|].
    apply (foldM_checks (fun name => checkScope (heldByScope scopes) (activeByScope scopes) (Z.of_nat i) (keysOf st) name)).
    apply Forall_forall. intros name [theirs Ht]%sortedNames_elem.
    apply (checkScope_spec _ _ _ _ theirs); [done..|]. eapply (Hf st); [by eapply list_elem_of_lookup_2|done..].
Qed.

(** Keys that stand beside a replica's agree with them. *)
Lemma stands_agree scopes st : scopes_ok scopes -> stands scopes st ->
  covers (heldKeys scopes) (keysOf st) /\ agree (heldKeys scopes) (keysOf st).
Proof.
  intros [Hv Hn _] Hst. assert (covers (heldKeys scopes) (keysOf st)) as Hc.
  { intros name theirs Ht. destruct (Hst name theirs Ht) as (s & e & Hs & <- & _ & Hall & _). exists (scopeKeys s).
    split; [|done]. apply heldKeys_elem; [done|]. by exists s. }
  split; [done|]. split; [by apply covers_reads|].
  intros name theirs mine id Ht Hm Hh. destruct (Hst name theirs Ht) as (s & e & Hs & Hna & He & _ & Hin & _).
  apply heldKeys_elem in Hm as (s' & Hs' & Hna' & ->); [|done].
  assert (s' = s) as -> by (apply (NoDup_map_inj sc_Name scopes); congruence).
  unfold scopeKeys in Hh. destruct (kr_keys (sc_keys s)); [done|]. injection He as ->. cbn in Hh. by injection Hh as <-.
Qed.

Lemma firstSilent_none errs : firstSilent errs = None <-> Forall (fun e => e = None) errs.
Proof.
  unfold firstSilent. destruct (list_find _ errs) as [[i e]|] eqn:E; cbn.
  - split; [done|]. apply list_find_Some in E as (Hi & [x Hx] & _). intros Hf. eapply Forall_lookup_1 in Hf; [|done]. congruence.
  - split; [|done]. intros _. apply list_find_None in E. eapply Forall_impl; [exact E|]. cbn. intros [x|]; [|done].
    intros Hx. destruct Hx. by eexists.
Qed.

(** C28: A keeper re-seeds exactly when nothing speaks against it. The replica answered that it is sealed, not by its
    operator, and holds no newer generation; every replica of the fleet answered; the bundle carries every key each
    serving replica holds, writes under one it holds and not an older one than it writes under; and the budget is
    not spent. Then the bundle's keys and those of every serving replica read what the other writes. *)
Theorem a_reseed_is_safe scopes states errs st err i mine budget : scopes_ok scopes ->
  (dn_Action (Decide st err i mine budget (FleetOf scopes states errs)) = ActionReseed <->
   err = None /\ Sealed st = true /\ rp_Phase st <> operatorHold /\ rp_Generation st <= mine /\
   Forall (fun e => e = None) errs /\ (forall r, r ∈ states -> Sealed r = false -> stands scopes r) /\
   bs_Allowed budget = true) /\
  forall r, dn_Action (Decide st err i mine budget (FleetOf scopes states errs)) = ActionReseed ->
    r ∈ states -> Sealed r = false -> covers (heldKeys scopes) (keysOf r) /\ agree (heldKeys scopes) (keysOf r).
Proof.
  intros Hok. assert (dn_Action (Decide st err i mine budget (FleetOf scopes states errs)) = ActionReseed <->
    err = None /\ Sealed st = true /\ rp_Phase st <> operatorHold /\ rp_Generation st <= mine /\
    Forall (fun e => e = None) errs /\ (forall r, r ∈ states -> Sealed r = false -> stands scopes r) /\
    bs_Allowed budget = true) as Hiff.
  { rewrite <- (Mismatch_spec scopes states Hok), <- firstSilent_none. unfold Decide, FleetOf. cbn [fl_Mismatch fl_Unchecked].
    destruct err; [naive_solver|]. destruct (Sealed st); [|naive_solver]. cbn [negb].
    destruct (decide (rp_Phase st = operatorHold)); [naive_solver|].
    destruct (Z.ltb_spec mine (rp_Generation st)); [naive_solver lia|].
    destruct (Mismatch scopes states) as [[]|m]; [|naive_solver]. destruct (firstSilent errs); [naive_solver|].
    destruct (bs_Allowed budget); naive_solver. }
  split; [done|]. intros r (_ & _ & _ & _ & _ & Hst & _)%Hiff Hr Hs. apply stands_agree; [done|]. by apply Hst.
Qed.

(** ** The budget *)

(** The pushes of a ledger from a moment on. *)
Definition recent (since : Time) (entries : list LedgerEntry) : Z :=
  Z.of_nat (length (filter (fun e => reseeded e /\ since <= le_Time e) entries)).

Lemma Budget_spec entries limit window now :
  bs_Used (Budget entries limit window now) = recent (now - window) entries /\
  bs_Allowed (Budget entries limit window now) = (recent (now - window) entries <? limit).
Proof.
  unfold Budget. destruct (foldl _ _ entries) as [used oldest] eqn:E. cbn [bs_Used bs_Allowed].
  assert (forall acc, (foldl (countEntry (now - window)) acc entries).1 = acc.1 + recent (now - window) entries) as Hf.
  { clear E. unfold recent. induction entries as [|e entries IH]; intros acc; [cbn; lia|]. cbn [foldl]. rewrite IH.
    unfold countEntry. destruct acc as [u o]. destruct (decide (~ reseeded e)) as [Hr|Hr].
    - rewrite filter_cons_False by tauto. done.
    - unfold Before. destruct (Z.ltb_spec (le_Time e) (now - window)).
      + rewrite filter_cons_False by (intros [? ?]; lia). done.
      + apply dec_stable in Hr. rewrite filter_cons_True by done. cbn [fst length]. lia. }
  specialize (Hf (0, zero_time)). rewrite E in Hf. cbn [fst] in Hf. split; [lia|]. f_equal. lia.
Qed.

(** Each push found the budget not spent. *)
Definition budgeted (limit : Z) (window : Duration) (entries : list LedgerEntry) : Prop :=
  forall l e l', entries = l ++ e :: l' -> reseeded e -> recent (le_Time e - window) l < limit.

Lemma budgeted_nil limit window : budgeted limit window [].
Proof. by intros [] ? ?. Qed.

Lemma budgeted_snoc limit window l e : budgeted limit window l ->
  (reseeded e -> recent (le_Time e - window) l < limit) -> budgeted limit window (l ++ [e]).
Proof.
  intros Hb He l1 e1 l2 E Hr. destruct l2 as [|x l2 _] using rev_ind.
  - apply app_inj_tail in E as [-> ->]. by apply He.
  - rewrite app_comm_cons, app_assoc in E. apply app_inj_tail in E as [-> ->]. by eapply Hb.
Qed.

Lemma filter_length_le {A} (P Q : A -> Prop) `{forall x, base.Decision (P x), forall x, base.Decision (Q x)} (l : list A) :
  (forall x, P x -> Q x) -> (length (filter P l) <= length (filter Q l))%nat.
Proof.
  intros HPQ. induction l as [|x l IH]; [done|]. destruct (decide (P x)) as [Hp|Hp].
  - rewrite !filter_cons_True by auto. cbn. lia.
  - rewrite (filter_cons_False P) by done. destruct (decide (Q x)).
    + rewrite filter_cons_True by done. cbn. lia.
    + by rewrite filter_cons_False.
Qed.

Lemma recent_mono since since' l : since' <= since -> recent since l <= recent since' l.
Proof. intros Hs. apply Nat2Z.inj_le, filter_length_le. intros e [? ?]. split; [done|lia]. Qed.

(** So no window holds more pushes than the budget. *)
Lemma budgeted_window limit window entries lo : 0 <= limit -> budgeted limit window entries ->
  Z.of_nat (length (filter (fun e => reseeded e /\ lo <= le_Time e <= lo + window) entries)) <= limit.
Proof.
  intros Hl. induction entries as [|e entries IH] using rev_ind; intros Hb; [done|].
  assert (budgeted limit window entries) as Hb'.
  { intros l1 e1 l2 -> Hr. eapply (Hb l1 e1 (l2 ++ [e])); [|done]. by rewrite <- app_assoc. }
  rewrite filter_app, length_app. destruct (decide (reseeded e /\ lo <= le_Time e <= lo + window)) as [[Hr Ht]|Hn].
  - rewrite filter_cons_True by done. cbn [filter list_filter length]. specialize (Hb entries e [] eq_refl Hr).
    pose proof (recent_mono lo (le_Time e - window) entries ltac:(lia)) as Hm.
    assert (Z.of_nat (length (filter (fun e => reseeded e /\ lo <= le_Time e <= lo + window) entries)) <= recent lo entries); [|lia].
    unfold recent. apply Nat2Z.inj_le, filter_length_le. naive_solver.
  - rewrite filter_cons_False by done. specialize (IH Hb'). cbn. lia.
Qed.

(** The moments of a window. *)
Lemma times_in_window lo hi entries : length (filter (fun t => lo <= t <= hi) (map le_Time (filter reseeded entries))) =
  length (filter (fun e => reseeded e /\ lo <= le_Time e <= hi) entries).
Proof.
  induction entries as [|e entries IH]; [done|]. destruct (decide (reseeded e)) as [Hr|Hr].
  - rewrite (filter_cons_True reseeded) by done. cbn [map]. destruct (decide (lo <= le_Time e <= hi)).
    + rewrite !filter_cons_True by done. cbn [length]. by rewrite IH.
    + rewrite !filter_cons_False by tauto. done.
  - rewrite (filter_cons_False reseeded) by done. rewrite (filter_cons_False (fun e => reseeded e /\ _)) by tauto. done.
Qed.

(** A push as it went: when it was over, whether the replica took the keys, and whether the keeper had an answer
    without an error. A push may land and its answer be lost. *)
Record push := mkPush {
  pu_Time : Time;
  pu_Took : bool;
  pu_Answered : bool
}.

(** The pushes of a window. *)
Definition within (lo hi : Time) (l : list push) : list push := filter (fun u => lo <= pu_Time u <= hi) l.

Definition answered (l : list push) : list push := filter (fun u => pu_Answered u = true) l.
Definition took (l : list push) : list push := filter (fun u => pu_Took u = true) l.
Definition unheard (l : list push) : list push := filter (fun u => pu_Took u = true /\ pu_Answered u = false) l.

Lemma took_bound l : (length (took l) <= length (answered l) + length (unheard l))%nat.
Proof.
  unfold took, answered, unheard. induction l as [|[t [] []] l IH]; [done|..]; rewrite ?filter_cons; repeat case_decide; cbn in *; lia || naive_solver.
Qed.

Section passes.
Context {W : Type} `{SealStateClient W} `{LedgerJson} `{BundleYaml}.
Context (cfg : Config) (takes : Z -> string -> string -> W -> bool).

(** A clock that does not go back while a replica is pushed to. *)
Class Clock := {
  clock_forward i payload intent w : sk_now w <= sk_now (sk_Unseal i payload intent w).2
}.

(** The same replicas, with every push they were sent: what the replica did with it ([takes], whatever it is) and
    what the keeper heard. *)
#[export] Instance watched : SealStateClient (W * list push) := {|
  sk_State i '(w, pushes) := let '(answer, w) := sk_State i w in (answer, (w, pushes));
  sk_Unseal i payload intent '(w, pushes) :=
    let '((st, e), w') := sk_Unseal i payload intent w in
    ((st, e), (w', pushes ++ [mkPush (sk_now w') (takes i payload intent w) (bool_decide (e = None))]));
  sk_now '(w, _) := sk_now w
|}.

(** Every entry is carried on a line of its own. *)
Class Carried := { carried e : exists line, written e line }.

(** The life of a keeper: passes, whose appends the disk takes, and whatever happens to the replicas meanwhile. *)
Inductive keeping : Pass (W * list push) -> Pass (W * list push) -> Prop :=
| keeping_pass bundle read p : keeping p (keeperCheckWith cfg bundle read (fun _ => DiskTakes) p).2
| keeping_world p w : keeping p (mkPass (w, (ps_world p).2) (ps_mem p) (ps_file p) (ps_entries p) (ps_decisions p)).

(** The ledger holds the moments of the pushes that were answered, each within the budget. *)
Definition kept (p : Pass (W * list push)) : Prop :=
  complete (ps_file p) /\ budgeted (kc_Budget cfg) (kc_Window cfg) (ReadLedger (ps_file p)) /\
  map le_Time (filter reseeded (ReadLedger (ps_file p))) = map pu_Time (answered (ps_world p).2).

Definition recorded (p : Pass (W * list push)) : Prop := kept p /\ ps_entries p = ReadLedger (ps_file p).

Lemma Append_recorded `{Carried} e file : complete file ->
  exists file', AppendLedger DiskTakes e file = (Ok tt, file') /\ complete file' /\ ReadLedger file' = ReadLedger file ++ [e].
Proof.
  intros Hc. destruct (carried e) as (line & Hm & Hne & Hw & Hu). unfold AppendLedger. rewrite Hm.
  eexists. split; [reflexivity|]. split.
  - right. exists (default "" file +:+ line). change (default "" (Some ?s)) with s. by rewrite app_string_assoc.
  - rewrite ReadLedger_line by done. rewrite decide_False by done. by rewrite Hu.
Qed.

Lemma checkOne_recorded `{Clock} `{Carried} bundle fleet p answer :
  recorded p -> recorded (checkOne cfg bundle (fun _ => DiskTakes) fleet p answer).
Proof.
  intros [(Hc & Hb & Ht) He]. destruct answer as [i [st e]]. unfold checkOne. case_decide as Ha; [|by split_and!].
  unfold reseedOne. destruct (ps_world p) as [w pushes] eqn:Ep. cbn [watched sk_Unseal].
  set (d := Decide _ _ _ _ _ _). destruct (sk_Unseal (dn_Ordinal d) bundle IntentReseed w) as [[pushed pe] w'] eqn:Eu.
  set (entry := pushEntry _ _ _ _ _ _). destruct (Append_recorded entry (ps_file p) Hc) as (file' & -> & Hc' & Hr).
  assert (le_Time entry = sk_now w') as Hnow by done. assert (reseeded entry <-> pe = None) as Hpe by (unfold reseeded, entry, pushEntry; cbn; destruct pe; naive_solver).
  split; [|cbn [ps_file ps_entries]; by rewrite He, Hr]. split_and!; cbn [ps_file ps_world snd]; [done| |].
  - rewrite Hr. apply budgeted_snoc; [done|]. intros _.
    assert (bs_Allowed (Budget (ps_entries p) (kc_Budget cfg) (kc_Window cfg) (sk_now w)) = true) as Hal.
    { revert Ha. unfold d, Decide. destruct e; [done|]. destruct (negb (Sealed st)); [done|]. destruct (decide _); [done|].
      destruct (_ <? _); [done|]. destruct (fl_Mismatch fleet); [done|]. destruct (fl_Unchecked fleet); [done|].
      by destruct (bs_Allowed _). }
    rewrite (proj2 (Budget_spec _ _ _ _)), He in Hal. apply Z.ltb_lt in Hal. eapply Z.le_lt_trans; [|exact Hal].
    apply recent_mono. rewrite Hnow. pose proof (clock_forward (dn_Ordinal d) bundle IntentReseed w) as Hk. rewrite Eu in Hk. cbn in Hk. lia.
  - cbn [snd] in Ht. unfold answered in *. rewrite Hr, !filter_app, !map_app, Ht. f_equal. destruct (decide (reseeded entry)) as [Hre|Hre].
    + rewrite filter_cons_True by done. by rewrite (proj1 Hpe Hre).
    + rewrite filter_cons_False by done. rewrite bool_decide_false by tauto. done.
Qed.

Lemma askAll_watched n : forall i (w : W * list push), (askAll n i w).2.2 = w.2.
Proof.
  induction n as [|n IH]; intros i [w pushes]; [done|]. cbn [askAll watched sk_State].
  destruct (sk_State i w) as [answer w1]. specialize (IH (i + 1) (w1, pushes)). destruct (askAll n (i + 1) (w1, pushes)) as [l w2]. exact IH.
Qed.

Lemma keeping_kept `{Clock} `{Carried} p p' : keeping p p' -> kept p -> kept p'.
Proof.
  intros [bundle read q|q w] Hk; [|exact Hk]. unfold keeperCheckWith. destruct read; [done|].
  pose proof (askAll_watched keeperReplicas 0 (ps_world q)) as Hw. destruct (askAll _ _ _) as [answers w]. cbn [snd] in Hw.
  assert (forall m, kept (mkPass w m (ps_file q) (ReadLedger (ps_file q)) [])) as Hq.
  { intros m. destruct Hk as (? & ? & Ht). split_and!; [done..|]. cbn [ps_file ps_world]. by rewrite Hw. }
  destruct (ParseBundle _ _) as [[parsed|why] m]; [|by apply Hq].
  destruct (ZeroBundle m parsed) as [b m']. set (fleet := FleetOf _ _ _). cbn [snd].
  assert (forall l q0, recorded q0 -> recorded (foldl (checkOne cfg bundle (fun _ => DiskTakes) fleet) q0 l)) as Hf.
  { intros l. induction l as [|x l IH]; intros q0 Hq0; [done|]. cbn [foldl]. by apply IH, checkOne_recorded. }
  by apply (Hf (imap pair answers) (mkPass w m' (ps_file q) (ReadLedger (ps_file q)) [])).
Qed.

Lemma answered_within lo hi l :
  length (answered (within lo hi l)) = length (filter (fun t => lo <= t <= hi) (map pu_Time (answered l))).
Proof.
  unfold answered, within. induction l as [|u l IH]; [done|]. rewrite !filter_cons.
  destruct (decide (lo <= pu_Time u <= hi)), (decide (pu_Answered u = true)); cbn [map]; rewrite ?filter_cons; repeat case_decide; cbn [length]; try tauto; by rewrite IH.
Qed.


End passes.

(** *** A torn line *)

(** A torn line takes the next entry with it. An append that fails half-way leaves a line without its newline;
    the next entry, appended whole, joins it, and when the joined line does not decode it is skipped: the later push is
    recorded without an error and is in no reading of the ledger. *)
Theorem a_torn_line_swallows_the_next `{LedgerJson} file torn e line : complete file -> without newline torn = true ->
  written e line -> unmarshalEntry (torn +:+ line) = None ->
  exists file', AppendLedger DiskTakes e (Some (default "" file +:+ torn)) = (Ok tt, file') /\ ReadLedger file' = ReadLedger file.
Proof.
  intros Hc Ht (Hm & _ & Hw & _) Hu. unfold AppendLedger. rewrite Hm. eexists. split; [reflexivity|].
  change (default "" (Some ?s)) with s. rewrite app_string_assoc, <- (app_string_assoc torn).
  assert (without newline (torn +:+ line) = true) as Hwt.
  { unfold without. rewrite GoStrings.list_ascii_app, forallb_app. by apply andb_true_iff. }
  rewrite ReadLedger_line by done. rewrite Hu. case_decide; by rewrite app_nil_r.
Qed.

(** ** What the audit says *)

Definition landed (instance : string) (e : LedgerEntry) : Prop := le_Instance e = instance /\ reseeded e.

#[export] Instance landed_dec instance e : base.Decision (landed instance e).
Proof. unfold landed. apply _. Defined.

(** The re-seeds a process took. *)
Definition seeds (instance boot : string) (entries : list LedgerEntry) : list LedgerEntry :=
  filter (fun e => landed instance e /\ le_Boot e = boot) entries.

(** The tally of a ledger. *)
Record tallied (instance : string) (entries : list LedgerEntry) (t : Tally) : Prop := {
  td_reseeds : ta_Reseeds t = Z.of_nat (length (filter (landed instance) entries));
  td_unlabelled : ta_Unlabelled t = Z.of_nat (length (seeds instance "" entries));
  td_refused : ta_Refused t = Z.of_nat (length (filter (fun e => le_Instance e = instance /\ le_Intent e = IntentReseed /\ le_Result e <> "ok") entries));
  td_boots boot bc : ta_byBoot t !! boot = Some bc -> bc_Boot bc = boot /\ boot <> "" /\ bc_Count bc = Z.of_nat (length (seeds instance boot entries)) /\ 0 < bc_Count bc;
  td_seen boot : boot <> "" -> ta_byBoot t !! boot = None -> seeds instance boot entries = []
}.

Lemma filter_snoc {A} (P : A -> Prop) `{forall x, base.Decision (P x)} l x :
  filter P (l ++ [x]) = filter P l ++ if decide (P x) then [x] else [].
Proof. by rewrite filter_app, filter_cons. Qed.

Lemma seeds_snoc instance boot entries e :
  seeds instance boot (entries ++ [e]) = seeds instance boot entries ++ if decide (landed instance e /\ le_Boot e = boot) then [e] else [].
Proof. unfold seeds. by rewrite filter_snoc. Qed.

(** An entry that moved no key material changes no count but, perhaps, that of refusals. *)
Lemma tally_other instance t e : ~ landed instance e ->
  let t' := tallyEntry instance t e in
  ta_Reseeds t' = ta_Reseeds t /\ ta_Unlabelled t' = ta_Unlabelled t /\ ta_byBoot t' = ta_byBoot t /\
  ta_Refused t' = ta_Refused t + if decide (le_Instance e = instance /\ le_Intent e = IntentReseed /\ le_Result e <> "ok") then 1 else 0.
Proof.
  unfold landed, reseeded, tallyEntry. intros Hl.
  destruct (decide (le_Instance e <> instance)) as [Hi|Hi]; [rewrite decide_False by tauto; split_and!; try done; lia|].
  apply dec_stable in Hi.
  destruct (decide (le_Intent e <> IntentReseed)) as [Hn|Hn]; [rewrite (decide_False (P := le_Instance e = instance /\ _)) by tauto; split_and!; try done; cbn; lia|].
  apply dec_stable in Hn.
  destruct (decide (le_Result e <> "ok")) as [Ho|Ho]; [rewrite (decide_True (P := le_Instance e = instance /\ _)) by done; by split_and!|].
  apply dec_stable in Ho. tauto.
Qed.

(** One that did. *)
Lemma tally_landed instance t e : landed instance e ->
  let t' := tallyEntry instance t e in
  ta_Reseeds t' = ta_Reseeds t + 1 /\ ta_Refused t' = ta_Refused t /\
  (le_Boot e = "" -> ta_Unlabelled t' = ta_Unlabelled t + 1 /\ ta_byBoot t' = ta_byBoot t) /\
  (le_Boot e <> "" -> ta_Unlabelled t' = ta_Unlabelled t /\
     ta_byBoot t' = <[le_Boot e := bootSeen e (ta_byBoot t !! le_Boot e)]> (ta_byBoot t)).
Proof.
  intros (Hi & Hn & Ho). unfold tallyEntry.
  destruct (decide (le_Instance e <> instance)) as [?|_]; [done|]. destruct (decide (le_Intent e <> IntentReseed)) as [?|_]; [done|].
  destruct (decide (le_Result e <> "ok")) as [?|_]; [done|]. destruct (decide (le_Boot e = "")); by split_and!.
Qed.

Lemma bootSeen_spec e bc : let bc' := bootSeen e bc in
  bc_Count bc' = match bc with Some b => bc_Count b + 1 | None => 1 end /\
  bc_Boot bc' = match bc with Some b => bc_Boot b | None => le_Boot e end.
Proof. by destruct bc. Qed.

Lemma tally_spec instance entries : tallied instance entries (foldl (tallyEntry instance) emptyTally entries).
Proof.
  induction entries as [|e entries [Hr Hu Hf Hb Hs]] using rev_ind.
  { split; try done; cbn; intros ? ?; rewrite lookup_empty; done. }
  rewrite foldl_app. cbn [foldl]. set (t := foldl (tallyEntry instance) emptyTally entries) in *.
  destruct (decide (landed instance e)) as [Hl|Hl].
  - destruct (tally_landed instance t e Hl) as (Tr & Tf & Te & Tn). destruct Hl as (Hi & Hn & Ho) eqn:El. clear El.
    split; intros; rewrite ?seeds_snoc, ?filter_snoc, ?length_app in *.
    + rewrite Tr, Hr, decide_True by done. cbn. lia.
    + destruct (decide (le_Boot e = "")) as [He|He].
      * rewrite (proj1 (Te He)), decide_True by done. cbn. lia.
      * rewrite (proj1 (Tn He)), decide_False by tauto. cbn. lia.
    + rewrite Tf, decide_False by tauto. cbn. lia.
    + destruct (decide (le_Boot e = "")) as [He|He].
      * rewrite (proj2 (Te He)) in H. destruct (Hb boot bc H) as (? & ? & ? & ?). rewrite decide_False by (intros [_ ?]; congruence).
        cbn. split_and!; try done. lia.
      * rewrite (proj2 (Tn He)) in H. destruct (decide (le_Boot e = boot)) as [<-|Hne].
        -- rewrite lookup_insert_eq in H. injection H as <-. destruct (bootSeen_spec e (ta_byBoot t !! le_Boot e)) as [-> ->].
           rewrite decide_True by done. destruct (ta_byBoot t !! le_Boot e) as [b|] eqn:Eb.
           ++ destruct (Hb _ _ Eb) as (? & ? & ? & ?). cbn. split_and!; try done; lia.
           ++ rewrite (Hs (le_Boot e) He Eb). cbn. by split_and!.
        -- rewrite lookup_insert_ne in H by done. destruct (Hb boot bc H) as (? & ? & ? & ?). rewrite decide_False by tauto.
           cbn. split_and!; try done. lia.
    + destruct (decide (le_Boot e = "")) as [He|He].
      * rewrite (proj2 (Te He)) in H0. rewrite (Hs boot H H0), decide_False by (intros [_ ?]; congruence). done.
      * rewrite (proj2 (Tn He)) in H0. destruct (decide (le_Boot e = boot)) as [<-|Hne]; [by rewrite lookup_insert_eq in H0|].
        rewrite lookup_insert_ne in H0 by done. rewrite (Hs boot H H0), decide_False by tauto. done.
  - destruct (tally_other instance t e Hl) as (Tr & Tu & Tb & Tf).
    split; intros; rewrite ?Tr, ?Tu, ?Tb, ?Tf, ?seeds_snoc, ?filter_snoc, ?length_app in *;
      rewrite ?(decide_False (P := landed instance e)), ?(decide_False (P := landed instance e /\ _)), ?app_nil_r by tauto; auto.
    + by rewrite Nat.add_0_r.
    + rewrite Nat.add_0_r. done.
    + rewrite Hf. destruct (decide _); cbn; lia.
    + rewrite Nat.add_0_r. by apply Hb.
Qed.

Lemma Divergent_elem `{GoRange} instance entries bc : bc ∈ au_Divergent (Reconcile instance entries) <->
  1 < bc_Count bc /\ ta_byBoot (foldl (tallyEntry instance) emptyTally entries) !! bc_Boot bc = Some bc.
Proof.
  unfold Reconcile. cbn [au_Divergent]. rewrite sort_slice_perm, list_elem_of_filter. apply and_iff_compat_l.
  pose proof (td_boots _ _ _ (tally_spec instance entries)) as Hb. rewrite list_elem_of_fmap. split.
  - intros ([boot bc'] & -> & Hin%elem_of_go_range). cbn. by destruct (Hb _ _ Hin) as [-> _].
  - intros Hl. exists (bc_Boot bc, bc). split; [done|]. by apply elem_of_go_range.
Qed.

(** The audit says what the ledgers hold. Re-seeds, refusals and those of an unknown process are counted exactly,
    whatever the order of the entries and the devices they are from; a process is listed exactly when it took more
    than one re-seed, with that number; and the audit is clean exactly when no process took two. *)
Theorem the_audit_is_exact `{GoRange} instance entries :
  let a := Reconcile instance entries in
  au_Reseeds a = Z.of_nat (length (filter (landed instance) entries)) /\
  au_Unlabelled a = Z.of_nat (length (seeds instance "" entries)) /\
  au_Refused a = Z.of_nat (length (filter (fun e => le_Instance e = instance /\ le_Intent e = IntentReseed /\ le_Result e <> "ok") entries)) /\
  (forall boot n, (boot <> "" /\ 1 < n /\ n = Z.of_nat (length (seeds instance boot entries))) <->
    exists bc, bc ∈ au_Divergent a /\ bc_Boot bc = boot /\ bc_Count bc = n) /\
  (Clean a = true <-> forall boot, boot <> "" -> (length (seeds instance boot entries) <= 1)%nat).
Proof.
  intros a. pose proof (tally_spec instance entries) as [Hr Hu Hf Hb Hs].
  assert (forall boot n, (boot <> "" /\ 1 < n /\ n = Z.of_nat (length (seeds instance boot entries))) <->
    exists bc, bc ∈ au_Divergent a /\ bc_Boot bc = boot /\ bc_Count bc = n) as Hd.
  { intros boot n. split.
    - intros (Hne & Hn & ->). destruct (ta_byBoot (foldl (tallyEntry instance) emptyTally entries) !! boot) as [bc|] eqn:Eb.
      + destruct (Hb _ _ Eb) as (<- & _ & Hc & _). exists bc. split_and!; [|done..]. apply Divergent_elem. split; [lia|done].
      + rewrite (Hs boot Hne Eb) in Hn. cbn in Hn. lia.
    - intros (bc & [Hc Hl]%Divergent_elem & <- & <-). destruct (Hb _ _ Hl) as (_ & ? & ? & _). by split_and!. }
  split_and!; [done..|]. unfold Clean. rewrite bool_decide_eq_true. split.
  - intros Hnil boot Hne. destruct (decide (length (seeds instance boot entries) <= 1)%nat) as [?|Hgt]; [done|].
    destruct (proj1 (Hd boot _) (conj Hne (conj (ltac:(lia) : 1 < Z.of_nat (length (seeds instance boot entries))) eq_refl))) as (bc & Hin & _).
    rewrite Hnil in Hin. by apply elem_of_nil in Hin.
  - intros Hall. destruct (au_Divergent a) as [|bc l] eqn:Ed; [done|]. exfalso.
    destruct (proj2 (Hd (bc_Boot bc) (bc_Count bc))) as (Hne & Hn & Hc); [exists bc; split; [by left|done]|].
    specialize (Hall _ Hne). lia.
Qed.

(** *** Examples *)

Lemma exTwoKeys_ok : scopes_ok (kr_scopes exTwoKeys).
Proof. apply ko_scopes, Valid_spec. by vm_compute. Qed.

(** A replica that lost everything when it restarted. *)
Definition exRestarted : State := zeroState.

Lemma a_reseed_is_safe_witness :
  dn_Action (Decide exRestarted None 1 3 (Budget [] 3 5 7) (FleetOf (kr_scopes exTwoKeys) [exRestarted] [None])) = ActionReseed.
Proof.
  apply (proj1 (a_reseed_is_safe (kr_scopes exTwoKeys) [exRestarted] [None] exRestarted None 1 3 (Budget [] 3 5 7) exTwoKeys_ok)).
  split_and!; try done; [by repeat constructor|]. intros r ->%list_elem_of_singleton. done.
Defined.

(** A ledger that writes one record, whatever it says, and reads it back. *)
Definition exRecord : LedgerEntry := mkEntry 7 "prod" 0 IntentReseed 3 "active" "ok" "mac" "b".
#[local] Instance exLedger : LedgerJson := {|
  marshalEntry e := if decide (e = exRecord) then Ok "r" else Err "no";
  unmarshalEntry line := if decide (line = "r") then Some exRecord else None
|}.

Lemma a_torn_line_swallows_the_next_witness :
  ReadLedger (Some "r{") = [] /\ exists file', AppendLedger DiskTakes exRecord (Some "r{") = (Ok tt, file') /\ ReadLedger file' = [].
Proof.
  split; [done|]. apply (a_torn_line_swallows_the_next None "r{" exRecord "r"); [by left|done|by split_and!|done].
Defined.

(** A ledger that carries every record: the digits of a number that encodes it. *)
Definition fieldsOf (e : LedgerEntry) :=
  (((le_Time e, le_Ordinal e), (le_Generation e, le_Instance e)), ((le_Intent e, le_Phase e), (le_Result e, (le_Device e, le_Boot e)))).

Definition ofFields f : LedgerEntry :=
  let '(((t, o), (g, i)), ((n, p), (r, (d, b)))) := f in mkEntry t i o n g p r d b.

#[local] Instance LedgerEntry_countable : Countable LedgerEntry.
Proof. apply (inj_countable' fieldsOf ofFields). by intros []. Defined.

#[local] Instance exRecords : LedgerJson := {|
  marshalEntry e := Ok (posText (encode e));
  unmarshalEntry line := textPos line ≫= decode
|}.

#[local] Instance exRecords_carried : Carried (H0 := exRecords).
Proof.
  split. intros e. exists (posText (encode e)). split_and!; [done|by destruct (encode e)| |].
  - generalize (encode e). intros p. induction p; cbn; done.
  - cbn [unmarshalEntry exRecords]. rewrite textPos_posText. cbn. apply decode_encode.
Qed.

(** Replicas that restart as soon as they are served, at a time that goes on. *)
#[local] Instance exRestless : SealStateClient Z := {|
  sk_State _ w := ((zeroState, None), w);
  sk_Unseal _ _ _ w := ((zeroState, None), w + 1);
  sk_now w := w
|}.

#[local] Instance exRestless_clock : Clock (H := exRestless).
Proof. split. intros i payload intent w. cbn. lia. Qed.

#[local] Instance exBundle : BundleYaml := {|
  unmarshalBundle _ := Some (mkBundleFile bundleVersion "prod" 3 (marshalScopes (kr_scopes exTwoKeys)));
  marshalBundle _ := Err ""
|}.

Definition exKeeper : Config := mkConfig 1 "prod" "mac" "carrier.example:443" "prod.fatline.farcast" 3 3 100 0 true "".
Definition exTakes (i : Z) (payload intent : string) (w : Z) : bool := true.
Definition exPasses (n : nat) : Pass (Z * list push) :=
  Nat.iter n (fun p => (keeperCheckWith (H := watched exTakes) exKeeper "bundle" None (fun _ => DiskTakes) p).2) (mkPass (500, []) ∅ None [] []).

(** Two passes ask for four pushes, and three of them go out. *)
Example the_budget_stops_the_fourth : map dn_Action (ps_decisions (exPasses 2)) = [ActionReseed; ActionBudget] /\
  map pu_Time (ps_world (exPasses 2)).2 = [501; 502; 503].
Proof. apply (bool_decide_unpack _). vm_compute. exact I. Qed.


(** Replicas that take every bundle and whose answers never arrive. *)
Definition exDeaf : SealStateClient Z := {|
  sk_State _ w := ((zeroState, None), w);
  sk_Unseal _ _ _ w := ((zeroState, Some (Failed "connection reset")), w + 1);
  sk_now w := w
|}.

Definition exLost : Pass (Z * list push) :=
  Nat.iter 5 (fun p => (keeperCheckWith (H := @watched Z exDeaf exTakes) exKeeper "bundle" None (fun _ => DiskTakes) p).2)
    (mkPass (500, []) ∅ None [] []).

(** A push whose answer is lost is not counted: a budget of three lets ten out in five passes, each taken by its replica
    and in the ledger as refused. *)
Example lost_answers_are_not_counted : kc_Budget exKeeper = 3 /\ length (took (within 450 (450 + 100) (ps_world exLost).2)) = 10%nat /\
  length (answered (ps_world exLost).2) = 0%nat /\ length (ReadLedger (ps_file exLost)) = 10%nat /\
  length (filter reseeded (ReadLedger (ps_file exLost))) = 0%nat.
Proof. apply (bool_decide_unpack _). vm_compute. exact I. Qed.

Definition exFull : Pass (Z * list push) :=
  Nat.iter 5 (fun p => (keeperCheckWith (H := watched exTakes) exKeeper "bundle" None (fun _ => DiskRefuses "full") p).2)
    (mkPass (500, []) ∅ None [] []).

(** Nor is a push whose entry the disk refuses, once the pass is over. *)
Example unrecorded_pushes_are_not_counted :
  length (answered (within 450 (450 + 100) (ps_world exFull).2)) = 10%nat /\ length (ReadLedger (ps_file exFull)) = 0%nat.
Proof. apply (bool_decide_unpack _). vm_compute. exact I. Qed.
