(* ===== verification/Enrolment.v ===== *)
(** * Enrolling a keeper ([keeper/packet.go], [keeper/store.go], and [cli/keeper.go]'s enroll, install and revoke)

    What an operator's machine packs for a device, how the device unpacks it onto
    its drive, and the roster of the fleet. *)

From Stdlib Require Import Ascii.
From S2P Require Import Prelude Effect GoTime GoStrings PosText Strconv LogicalKey Encoding Slices Keyring KeyringFacts KeyringFile Cipher Net Armor Material Bundle Identity Issuance Replica Keeper.

(** ** The drive

    Files with their modes, directories with theirs.  Each operation takes the next fault off a list, and fails or
    succeeds by it; a write that breaks leaves what it wrote. *)

Record file := mkFile { fi_data : string; fi_mode : Z }.

Inductive fault := Fine | Refuses (e : string) | Breaks (n : nat) (e : string).

Record Drive := mkDrive {
  dr_files : gmap string file;
  dr_dirs : gmap string Z;
  dr_faults : list fault
}.

Inductive os_error := NotExist (path : string) | Exists (path : string) | IOError (e : string).

Definition setFiles (files : gmap string file) (d : Drive) : Drive := mkDrive files (dr_dirs d) (dr_faults d).
Definition setDirs (dirs : gmap string Z) (d : Drive) : Drive := mkDrive (dr_files d) dirs (dr_faults d).

Definition nextFault {E} : eff Drive E fault := fun d =>
  match dr_faults d with
  | [] => (Ok Fine, d)
  | f :: faults => (Ok f, mkDrive (dr_files d) (dr_dirs d) faults)
  end.

(** An operation that cannot be half done. *)
Definition whole {A} (op : eff Drive os_error A) : eff Drive os_error A :=
  f ← nextFault;
  match f with
  | Fine => op
  | Refuses e | Breaks _ e => fail (IOError e)
  end.

(** [os.WriteFile]: the mode is that of a file it creates; an existing one keeps its own. *)
Definition WriteFile (path data : string) (mode : Z) : eff Drive os_error unit :=
  f ← nextFault;
  let put (data : string) : eff Drive os_error unit :=
    modify (fun d => setFiles (<[path := mkFile data (default mode (fi_mode <$> dr_files d !! path))]> (dr_files d)) d) in
  match f with
  | Fine => put data
  | Refuses e => fail (IOError e)
  | Breaks n e => _ ← put (stake n data); fail (IOError e)
  end.

Definition Chmod (path : string) (mode : Z) : eff Drive os_error unit :=
  whole (
    d ← get;
    match dr_files d !! path, dr_dirs d !! path with
    | Some f, _ => modify (setFiles (<[path := mkFile (fi_data f) mode]> (dr_files d)))
    | None, Some _ => modify (setDirs (<[path := mode]> (dr_dirs d)))
    | None, None => fail (NotExist path)
    end).

Definition MkdirAll (dir : string) (mode : Z) : eff Drive os_error unit :=
  whole (d ← get; match dr_files d !! dir with
                  | Some _ => fail (IOError "not a directory")
                  | None => modify (setDirs (<[dir := default mode (dr_dirs d !! dir)]> (dr_dirs d)))
                  end).

Definition ReadFile (path : string) : eff Drive os_error string :=
  whole (d ← get; match dr_files d !! path with Some f => mret (fi_data f) | None => fail (NotExist path) end).

Definition Stat (path : string) : eff Drive os_error unit :=
  whole (d ← get; match dr_files d !! path with Some _ => mret tt | None => fail (NotExist path) end).

Definition Remove (path : string) : eff Drive os_error unit :=
  whole (d ← get; match dr_files d !! path with
                  | Some _ => modify (setFiles (delete path (dr_files d)))
                  | None => fail (NotExist path)
                  end).

(** [os.OpenFile] to create exclusively, and the write. *)
Definition createExclusive (path data : string) (mode : Z) : eff Drive os_error unit :=
  _ ← whole (d ← get; match dr_files d !! path with
                      | Some _ => fail (Exists path)
                      | None => modify (setFiles (<[path := mkFile "" mode]> (dr_files d)))
                      end);
  _ ← WriteFile path data mode;
  whole (mret tt).

(** ** The packet ([packet.go]) *)

Definition packetVersion : Z := 1.
Definition DefaultBudget : Z := 8.
Definition DefaultWindow : Duration := 30 * 24 * Hour.

Record Packet := mkPacket {
  pk_Version : Z;
  pk_Instance : string;
  pk_Device : string;
  pk_Carrier : string;
  pk_ServerName : string;
  pk_CACertPEM : string;
  pk_LeafCertPEM : string;
  pk_LeafKeyPEM : string;
  pk_Bundle : string;
  pk_Generation : Z;
  pk_Budget : Z;
  pk_Window : Duration;
  pk_IssuedAt : Time
}.

Inductive packet_error :=
| PacketVersion (v : Z)
| NamesNoInstance
| BadDevice (e : device_error)
| NoCarrierAddress
| NoServerName
| NoCACertificate
| NoDeviceIdentity
| NoBundle
| NoBudget
| NoWindow
| EncodePacket (e : string)
| PacketNotDecoded
| OfArmor (e : armor_error).

(** No caller passes a nil packet. *)
Definition Validate (p : Packet) : result packet_error unit :=
  if decide (pk_Version p <> packetVersion) then Err (PacketVersion (pk_Version p))
  else if decide (TrimSpace (pk_Instance p) = "") then Err NamesNoInstance
  else
    _ ← wrapErr BadDevice (ValidateDevice (pk_Device p));
    if decide (TrimSpace (pk_Carrier p) = "") then Err NoCarrierAddress
    else if decide (TrimSpace (pk_ServerName p) = "") then Err NoServerName
    else if decide (pk_CACertPEM p = "") then Err NoCACertificate
    else if decide (pk_LeafCertPEM p = "" \/ pk_LeafKeyPEM p = "") then Err NoDeviceIdentity
    else if decide (pk_Bundle p = "") then Err NoBundle
    else if pk_Budget p <=? 0 then Err NoBudget
    else if pk_Window p <=? 0 then Err NoWindow
    else Ok tt.

(** [p.Zero()]; nothing else refers to the packet's slices. *)
Definition ZeroPacket (p : Packet) : Packet :=
  mkPacket (pk_Version p) (pk_Instance p) (pk_Device p) (pk_Carrier p) (pk_ServerName p) (pk_CACertPEM p)
    (pk_LeafCertPEM p) "" "" (pk_Generation p) (pk_Budget p) (pk_Window p) (pk_IssuedAt p).

(** The YAML library on the packet and on the record. *)
Class PacketYaml := {
  packetMarshal : Packet -> result string string;
  packetUnmarshal : string -> option Packet;
  recordMarshal : Config -> result string string;
  recordUnmarshal : string -> result string Config
}.

Class PacketYamlLaws `{PacketYaml} := {
  packet_reads : forall p s, packetMarshal p = Ok s -> packetUnmarshal s = Some p;
  record_reads : forall c s, recordMarshal c = Ok s -> recordUnmarshal s = Ok c
}.

Section packet.
Context `{Cipher, Pbkdf2, ArmorYaml, CaseTables, PacketYaml} {W : Type} `{Entropy W}.

Definition SealPacket (p : Packet) (passphrase : string) : eff W packet_error string :=
  _ ← lift (Validate p);
  plaintext ← lift (wrapErr EncodePacket (packetMarshal p));
  withErr OfArmor (Armor ArmorKeeperPacket plaintext passphrase).

Definition OpenPacket (data passphrase : string) : result packet_error Packet :=
  plaintext ← wrapErr OfArmor (Unarmor ArmorKeeperPacket data passphrase);
  match packetUnmarshal plaintext with
  | None => Err PacketNotDecoded
  | Some p => _ ← Validate p; Ok p
  end.

End packet.

(** ** The store on the device ([store.go]) *)

Definition configFile : string := "keeper.yaml".
Definition caFile : string := "ca.crt".
Definition leafFile : string := "leaf.crt".
Definition leafKey : string := "leaf.key".
Definition bundleFileName : string := "bundle.yaml".
Definition ledgerFile : string := "ledger.jsonl".
Definition dirMode : Z := 448.
Definition fileMode : Z := 384.

(** [filepath.Join] of a clean directory and a name. *)
Definition inDir (dir name : string) : string := dir +:+ "/" +:+ name.

Definition LedgerPath (dir : string) : string := inDir dir ledgerFile.

Inductive store_error :=
| BadPacket (e : packet_error)
| AbsFailed (e : string)
| InsideSynced (root : string)
| Preparing (e : os_error)
| Securing (name : string) (e : os_error)
| Writing (name : string) (e : os_error)
| NotExcluded (e : string)
| EncodeRecord (e : string)
| NothingEnrolled
| StatFailed (e : os_error)
| ReadingRecord (e : os_error)
| RecordNotDecoded (e : string)
| ReadingMaterial (name : string) (e : os_error)
| Removing (name : string) (e : os_error).

(** [filepath.Abs], and the platform's exclusion from backups behind its seam. *)
Class Platform := {
  filepathAbs : string -> result string string;
  excludeFromBackup : string -> option string
}.

Definition syncedRoots : list string :=
  ["Library/Mobile Documents"; "iCloud Drive"; "Dropbox"; "Google Drive"; "GoogleDrive"; "OneDrive"; "Nextcloud";
   "ownCloud"; "Sync.com"; "pCloud Drive"; "Box Sync"; "Creative Cloud Files"; "Mega"; "Yandex.Disk"; "Seafile";
   "Syncthing"].

Definition underRoot (path root : string) : bool :=
  let needle := "/" +:+ root in Contains path (needle +:+ "/") || HasSuffix path needle.

Section store.
Context `{PacketYaml, Platform}.

Definition refuseSyncedPath (dir : string) : result store_error unit :=
  abs ← wrapErr AbsFailed (filepathAbs dir);
  match find (underRoot abs) syncedRoots with
  | Some root => Err (InsideSynced root)
  | None => Ok tt
  end.

Definition writeSecret (dir name data : string) : eff Drive store_error unit :=
  _ ← withErr (Writing name) (WriteFile (inDir dir name) data fileMode);
  withErr (Securing name) (Chmod (inDir dir name) fileMode).

Definition material (p : Packet) : list (string * string) :=
  [(caFile, pk_CACertPEM p); (leafFile, pk_LeafCertPEM p); (leafKey, pk_LeafKeyPEM p); (bundleFileName, pk_Bundle p)].

Definition recordOf (p : Packet) (now : Time) (note : option string) : Config :=
  mkConfig packetVersion (pk_Instance p) (pk_Device p) (pk_Carrier p) (pk_ServerName p) (pk_Generation p)
    (pk_Budget p) (pk_Window p) now (bool_decide (note = None)) (default "" note).

(** The store is its directory. *)
Definition Install (dir : string) (p : Packet) (force : bool) (now : Time) : eff Drive store_error string :=
  _ ← lift (wrapErr BadPacket (Validate p));
  _ ← lift (refuseSyncedPath dir);
  _ ← withErr Preparing (MkdirAll dir dirMode);
  _ ← withErr (Securing dir) (Chmod dir dirMode);
  let note := excludeFromBackup dir in
  match note, force with
  | Some e, false => fail (NotExcluded e)
  | _, _ =>
      _ ← foldE (fun _ '(name, data) => writeSecret dir name data) tt (material p);
      out ← lift (wrapErr EncodeRecord (recordMarshal (recordOf p now note)));
      _ ← writeSecret dir configFile out;
      mret dir
  end.

Definition OpenStore (dir : string) : eff Drive store_error string :=
  r ← try (Stat (inDir dir configFile));
  match r with
  | Ok _ => mret dir
  | Err (NotExist _) => fail NothingEnrolled
  | Err e => fail (StatFailed e)
  end.

Definition readConfig (dir : string) : eff Drive store_error Config :=
  data ← withErr ReadingRecord (ReadFile (inDir dir configFile));
  lift (wrapErr RecordNotDecoded (recordUnmarshal data)).

(** The certificate of the CA, the leaf, its key and the bundle; nothing is read after a failure. *)
Definition Material (dir : string) : eff Drive store_error (string * string * string * string) :=
  let read (name : string) := withErr (ReadingMaterial name) (ReadFile (inDir dir name)) in
  ca ← read caFile;
  leaf ← read leafFile;
  key ← read leafKey;
  bundle ← read bundleFileName;
  mret (ca, leaf, key, bundle).

Definition removeOne (dir name : string) : eff Drive store_error unit :=
  r ← try (Remove (inDir dir name));
  match r with
  | Ok _ | Err (NotExist _) => mret tt
  | Err e => fail (Removing name e)
  end.

Definition RemoveStore (dir : string) : eff Drive store_error unit :=
  foldE (fun _ name => removeOne dir name) tt [caFile; leafFile; leafKey; bundleFileName; configFile].

End store.

(** ** The fleet's roster ([cli/keeper.go]) *)

(** A row of the instance's metadata. *)
Record Keeper := mkKeeper {
  kp_Device : string;
  kp_EnrolledAt : Time;
  kp_Expires : Time;
  kp_Generation : Z;
  kp_Budget : Z;
  kp_Revoked : bool;
  kp_RevokedAt : Time
}.

Fixpoint upsertKeeper (l : list Keeper) (k : Keeper) : list Keeper :=
  match l with
  | [] => [k]
  | x :: l => if decide (kp_Device x = kp_Device k) then k :: l else x :: upsertKeeper l k
  end.

Definition activeKeepers (l : list Keeper) (adding : string) : Z :=
  let active := filter (fun k => kp_Revoked k = false) l in
  let seen := existsb (fun k => bool_decide (kp_Device k = adding)) active in
  Z.of_nat (length active) + (if bool_decide (adding <> "") && negb seen then 1 else 0).

(** The part of an instance's metadata these commands read and write. *)
Record InstanceMetadata := mkMetadata {
  im_Carrier : option string;
  im_Keyholder : option (bool * Z);
  im_Keepers : list Keeper
}.

Definition setKeepers (l : list Keeper) (m : InstanceMetadata) : InstanceMetadata := mkMetadata (im_Carrier m) (im_Keyholder m) l.

(** The operator's machine: randomness and clock, memory, drive, the instance's metadata unless it does not load, and
    whether an update of it is written. *)
Record Machine (W : Type) := mkMachine {
  mc_world : W;
  mc_mem : memory;
  mc_drive : Drive;
  mc_meta : result string InstanceMetadata;
  mc_update : option string
}.

Arguments mkMachine {W}.
Arguments mc_world {W}.
Arguments mc_mem {W}.
Arguments mc_drive {W}.
Arguments mc_meta {W}.
Arguments mc_update {W}.

Inductive enrol_error :=
| DeviceName (e : device_error)
| OutRequired
| PassphraseUnread (e : string)
| LoadInstance (e : string)
| NoTunnel
| NoKeyholder
| ReadCA (e : string)
| NoCAKey
| NoKeyring (e : string)
| KeyringUnread (e : parse_error)
| BundleFailed (e : bundle_error)
| LeafFailed (e : issue_error)
| SealFailed (e : packet_error)
| WritePacket (e : os_error)
| EnrolmentUnrecorded (e : string)
| NoSuchKeeper
| AlreadyRevoked
| RevocationUnrecorded (e : string).

(** [enroll]'s flags, and what it reads of the operator's files. *)
Record enrolment := mkEnrolment {
  en_out : string;
  en_passphrase : result string string;
  en_budget : Z;
  en_window : Duration;
  en_mtls : result string (string * string);
  en_keyring : result string string
}.

(** A leaf's PEM encoding, and the date in a certificate that parses. *)
Class LeafPem `{CA} := {
  certPem : Leaf -> string;
  keyPem : Leaf -> string;
  notAfter : string -> option Time
}.

Section roster.
Context `{Cipher, Pbkdf2, ArmorYaml, CaseTables, PacketYaml, Yaml, BundleYaml, LeafPem} {W : Type} `{Entropy W}.

Definition onWorld {A E E'} (f : E -> E') (op : eff W E A) : eff (Machine W) E' A := fun mc =>
  let '(r, w) := op (mc_world mc) in
  (wrapErr f r, mkMachine w (mc_mem mc) (mc_drive mc) (mc_meta mc) (mc_update mc)).

Definition onDrive {A E E'} (f : E -> E') (op : eff Drive E A) : eff (Machine W) E' A := fun mc =>
  let '(r, d) := op (mc_drive mc) in
  (wrapErr f r, mkMachine (mc_world mc) (mc_mem mc) d (mc_meta mc) (mc_update mc)).

(** [UpdateInstanceMetadata]: the metadata is read again, changed and written, or an error is returned. *)
Definition updateMetadata {E} (f : string -> E) (g : InstanceMetadata -> InstanceMetadata) : eff (Machine W) E InstanceMetadata := fun mc =>
  match mc_update mc, mc_meta mc with
  | None, Ok m => (Ok (g m), mkMachine (mc_world mc) (mc_mem mc) (mc_drive mc) (Ok (g m)) None)
  | Some e, _ | None, Err e => (Err (f e), mc)
  end.

(** [keys.Scopes()] over arrays of their own, bundled, marshalled and wiped. *)
Definition bundlePayload (name : string) (generation : Z) (keys : Keyring) : eff (Machine W) enrol_error string := fun mc =>
  let '(scopes, m) := threaded allocScope (mc_mem mc) (kr_scopes keys) in
  let at_ m := mkMachine (mc_world mc) m (mc_drive mc) (mc_meta mc) (mc_update mc) in
  match NewBundle m name generation scopes with
  | Err e => (Err (BundleFailed e), at_ m)
  | Ok bundle => (wrapErr BundleFailed (MarshalBundle m bundle), at_ (ZeroBundle m bundle).2)
  end.

Definition leafExpiry (cert : string) : Time := default zero_time (notAfter cert).

(** What the command returns: the fleet's size is its last field. *)
Record enrollResult := mkEnrollResult {
  er_Generation : Z;
  er_Expires : Time;
  er_Fleet : Z
}.

Definition enroll (name device : string) (c : enrolment) : eff (Machine W) enrol_error enrollResult :=
  _ ← lift (wrapErr DeviceName (ValidateDevice device));
  if decide (en_out c = "") then fail OutRequired
  else
    passphrase ← lift (wrapErr PassphraseUnread (en_passphrase c));
    loaded ← gets mc_meta;
    meta ← lift (wrapErr LoadInstance loaded);
    match im_Carrier meta with
    | None | Some "" => fail NoTunnel
    | Some carrier =>
        match im_Keyholder meta with
        | None | Some (false, _) => fail NoKeyholder
        | Some (true, generation) =>
            mtls ← lift (wrapErr ReadCA (en_mtls c));
            let '(caCert, caKey) := mtls in
            if decide (caKey = "") then fail NoCAKey
            else
              raw ← lift (wrapErr NoKeyring (en_keyring c));
              keys ← lift (wrapErr KeyringUnread (ParseKeyring raw));
              payload ← bundlePayload name generation keys;
              leaf ← lift (wrapErr LeafFailed (IssueKeeperClient caCert caKey name device));
              let expires := leafExpiry (certPem leaf) in
              issuedAt ← gets (fun mc => keyNow (mc_world mc));
              let packet := mkPacket packetVersion name device carrier (ServerName name) caCert (certPem leaf)
                (keyPem leaf) payload generation (en_budget c) (en_window c) issuedAt in
              sealed ← onWorld SealFailed (SealPacket packet passphrase);
              _ ← onDrive WritePacket (createExclusive (en_out c) sealed fileMode);
              enrolledAt ← gets (fun mc => keyNow (mc_world mc));
              _ ← updateMetadata EnrolmentUnrecorded (fun m => setKeepers (upsertKeeper (im_Keepers m)
                    (mkKeeper device enrolledAt expires generation (en_budget c) false zero_time)) m);
              mret (mkEnrollResult generation expires (activeKeepers (im_Keepers meta) device))
        end
    end.

Definition revokeRow (device : string) (now : Time) (k : Keeper) : Keeper :=
  if decide (kp_Device k = device)
  then mkKeeper (kp_Device k) (kp_EnrolledAt k) (kp_Expires k) (kp_Generation k) (kp_Budget k) true now
  else k.

(** [revoke], confirmed; its answer is how many keepers remain and when the leaf expires. *)
Definition revoke (device : string) : eff (Machine W) enrol_error (Z * Time) :=
  loaded ← gets mc_meta;
  meta ← lift (wrapErr LoadInstance loaded);
  match last (filter (fun k => kp_Device k = device) (im_Keepers meta)) with
  | None => fail NoSuchKeeper
  | Some found =>
      if kp_Revoked found then fail AlreadyRevoked
      else
        now ← gets (fun mc => keyNow (mc_world mc));
        _ ← updateMetadata RevocationUnrecorded (fun m => setKeepers (map (revokeRow device now) (im_Keepers m)) m);
        mret (activeKeepers (im_Keepers meta) "" - 1, kp_Expires found)
  end.

End roster.

(** ** Packets *)

Section packets.
Context `{CipherLaws, Pbkdf2, ArmorYamlLaws, CaseTables, PacketYamlLaws} {W : Type} `{Entropy W}.

Lemma SealPacket_opens p passphrase (w w' : W) sealed : SealPacket p passphrase w = (Ok sealed, w') ->
  Validate p = Ok tt /\ OpenPacket sealed passphrase = Ok p.
Proof.
  unfold SealPacket. intros E. apply bind_inv in E as ([] & w1 & [Hv _]%lift_inv & E).
  apply bind_inv in E as (plaintext & w2 & [Hm _]%lift_inv & E). apply withErr_inv in E.
  destruct (packetMarshal p) as [text|] eqn:Em; [|done]. injection Hm as ->. apply packet_reads in Em.
  apply Armor_ok in E as (_ & _ & file & Ha & Hf). split; [done|].
  unfold OpenPacket. rewrite (Unarmor_armored _ _ _ _ _ Ha Hf). cbn [wrapErr mbind result_bind]. by rewrite Em, Hv.
Qed.

End packets.

(** ** The drive *)

(** No fault is to come. *)
Definition calm (d : Drive) : Prop := Forall (fun f => f = Fine) (dr_faults d).

Definition later (d : Drive) : Drive := mkDrive (dr_files d) (dr_dirs d) (tail (dr_faults d)).

Lemma calm_later d : calm d -> calm (later d).
Proof. unfold calm, later. cbn [dr_faults]. destruct (dr_faults d); [done|]. by intros [_ ?]%Forall_cons. Qed.

Lemma whole_calm {A} (op : eff Drive os_error A) d : calm d -> whole op d = op (later d).
Proof.
  unfold whole, calm, later, mbind, eff_bind, nextFault. destruct d as [files dirs [|f fs]]; [done|].
  by intros [-> _]%Forall_cons.
Qed.

Lemma whole_ok {A} (op : eff Drive os_error A) d a d' : whole op d = (Ok a, d') -> op (later d) = (Ok a, d').
Proof.
  unfold whole, later, mbind, eff_bind, nextFault. destruct d as [files dirs [|f fs]]; [done|]. by destruct f.
Qed.

Lemma ReadFile_calm path d f : calm d -> dr_files d !! path = Some f -> ReadFile path d = (Ok (fi_data f), later d).
Proof. intros Hc Hf. unfold ReadFile. rewrite whole_calm by done. unfold mbind, eff_bind, get. cbn [later dr_files]. by rewrite Hf. Qed.

(** What a secret that was written leaves. *)
Lemma writeSecret_ok dir name data d d' : writeSecret dir name data d = (Ok tt, d') ->
  dr_files d' = <[inDir dir name := mkFile data fileMode]> (dr_files d) /\ dr_dirs d' = dr_dirs d.
Proof.
  unfold writeSecret. intros ([] & d1 & Ew & Ec)%bind_inv. apply withErr_inv in Ew, Ec.
  assert (exists m, dr_files d1 = <[inDir dir name := mkFile data m]> (dr_files d) /\ dr_dirs d1 = dr_dirs d) as (m & Hf & Hd).
  { unfold WriteFile in Ew. apply bind_inv in Ew as (f & d2 & Ef & Ew).
    assert (dr_files d2 = dr_files d /\ dr_dirs d2 = dr_dirs d) as [<- <-].
    { unfold nextFault in Ef. destruct (dr_faults d); injection Ef as _ <-; done. }
    destruct f as [|e|n e]; [injection Ew as <-; by eexists|done|].
    by apply bind_inv in Ew as ([] & d3 & _ & Ew). }
  apply whole_ok in Ec. unfold mbind, eff_bind, get in Ec. cbn [later dr_files] in Ec. rewrite Hf, lookup_insert_eq in Ec.
  injection Ec as <-. cbn [setFiles later dr_files dr_dirs fi_data]. by rewrite insert_insert_eq.
Qed.

Lemma inDir_inj dir a b : inDir dir a = inDir dir b -> a = b.
Proof. unfold inDir. intros E%app_string_inj. by apply (app_string_inj "/") in E. Qed.

(** A successful installation, file by file. *)
Section installed.
Context `{PacketYamlLaws, Platform}.

Lemma Install_ok dir p force now d dir' d' : Install dir p force now d = (Ok dir', d') ->
  dir' = dir /\ Validate p = Ok tt /\ refuseSyncedPath dir = Ok tt /\ (excludeFromBackup dir = None \/ force = true) /\
  exists out, recordMarshal (recordOf p now (excludeFromBackup dir)) = Ok out /\
    dr_files d' = <[inDir dir configFile := mkFile out fileMode]> (<[inDir dir bundleFileName := mkFile (pk_Bundle p) fileMode]>
      (<[inDir dir leafKey := mkFile (pk_LeafKeyPEM p) fileMode]> (<[inDir dir leafFile := mkFile (pk_LeafCertPEM p) fileMode]>
      (<[inDir dir caFile := mkFile (pk_CACertPEM p) fileMode]> (dr_files d))))).
Proof.
  unfold Install. intros ([] & d1 & [Hv ->]%lift_inv & E)%bind_inv. apply bind_inv in E as ([] & d2 & [Hs ->]%lift_inv & E).
  apply bind_inv in E as ([] & d3 & Em%withErr_inv & E). apply bind_inv in E as ([] & d4 & Ec%withErr_inv & E).
  assert (dr_files d4 = dr_files d) as H4.
  { apply whole_ok in Em, Ec. unfold mbind, eff_bind, get in Em, Ec. cbn [later dr_files dr_dirs] in Em, Ec.
    destruct (dr_files d !! dir) eqn:Ed; [done|]. injection Em as <-. cbn [setDirs later dr_files dr_dirs] in Ec.
    rewrite Ed, lookup_insert_eq in Ec. by injection Ec as <-. }
  assert (Validate p = Ok tt) as Hv' by by destruct (Validate p) as [[]|].
  assert (excludeFromBackup dir = None \/ force = true) as Hx
    by (destruct (excludeFromBackup dir), force; [by right|done|by left..]).
  match type of E with ?lhs = _ => assert (lhs =
    (_ ← foldE (fun _ '(name, data) => writeSecret dir name data) tt (material p);
     out ← lift (wrapErr EncodeRecord (recordMarshal (recordOf p now (excludeFromBackup dir))));
     _ ← writeSecret dir configFile out; mret dir) d4) as E' end.
  { by destruct (excludeFromBackup dir), force. }
  rewrite E' in E. clear E'. apply bind_inv in E as ([] & d5 & Ef & E). apply bind_inv in E as (out & d6 & [Ho ->]%lift_inv & E).
  apply bind_inv in E as ([] & d7 & [Ew _]%writeSecret_ok & E). injection E as <- <-.
  destruct (recordMarshal _) as [text|] eqn:Er; [|done]. injection Ho as ->. split_and!; [done..|]. exists out. split; [done|]. rewrite Ew.
  cbn [material foldE] in Ef.
  apply bind_inv in Ef as ([] & e1 & [W1 _]%writeSecret_ok & Ef). apply bind_inv in Ef as ([] & e2 & [W2 _]%writeSecret_ok & Ef).
  apply bind_inv in Ef as ([] & e3 & [W3 _]%writeSecret_ok & Ef). apply bind_inv in Ef as ([] & e4 & [W4 _]%writeSecret_ok & Ef).
  injection Ef as <-. by rewrite W4, W3, W2, W1, H4.
Qed.
Ltac other_file := rewrite lookup_insert_ne by (intros ?%inDir_inj; done).

(** What was installed is read back, and removing it keeps the ledger. *)
Lemma installed_reads dir p force now d dir' d' : Install dir p force now d = (Ok dir', d') -> calm d' ->
  (exists d1, OpenStore dir d' = (Ok dir, d1)) /\
  (exists d1, readConfig dir d' = (Ok (recordOf p now (excludeFromBackup dir)), d1)) /\
  (exists d1, Material dir d' = (Ok (pk_CACertPEM p, pk_LeafCertPEM p, pk_LeafKeyPEM p, pk_Bundle p), d1)).
Proof.
  intros (_ & _ & _ & _ & out & Ho & Hf)%Install_ok Hc. apply record_reads in Ho.
  assert (forall name f, dr_files d' !! inDir dir name = Some f -> forall d1, calm d1 -> dr_files d1 = dr_files d' ->
    ReadFile (inDir dir name) d1 = (Ok (fi_data f), later d1)) as Hr by (intros name f Hl d1 Hd1 E; apply ReadFile_calm; [done|by rewrite E]).
  assert (dr_files d' !! inDir dir configFile = Some (mkFile out fileMode)) as Hcfg by (by rewrite Hf, lookup_insert_eq).
  split_and!.
  - exists (later d'). unfold OpenStore, Stat, try, mbind, eff_bind. rewrite whole_calm by done. unfold get. cbn [later dr_files].
    by rewrite Hcfg.
  - exists (later d'). unfold readConfig, withErr, mbind, eff_bind. rewrite (Hr _ _ Hcfg) by done. cbn [wrapErr fi_data]. unfold lift.
    by rewrite Ho.
  - exists (later (later (later (later d')))). unfold Material, withErr, mbind, eff_bind.
    rewrite (Hr caFile (mkFile (pk_CACertPEM p) fileMode)) by (first [done|by repeat apply calm_later|rewrite Hf; repeat other_file; apply lookup_insert_eq]).
    cbn [wrapErr fi_data].
    rewrite (Hr leafFile (mkFile (pk_LeafCertPEM p) fileMode)) by (first [done|by repeat apply calm_later|rewrite Hf; repeat other_file; apply lookup_insert_eq]).
    cbn [wrapErr fi_data].
    rewrite (Hr leafKey (mkFile (pk_LeafKeyPEM p) fileMode)) by (first [done|by repeat apply calm_later|rewrite Hf; repeat other_file; apply lookup_insert_eq]).
    cbn [wrapErr fi_data].
    rewrite (Hr bundleFileName (mkFile (pk_Bundle p) fileMode)) by (first [done|by repeat apply calm_later|rewrite Hf; repeat other_file; apply lookup_insert_eq]).
    done.
Qed.

(** Nothing else on the drive changes, and what was written is its owner's alone. *)
Lemma installed_files dir p force now d dir' d' : Install dir p force now d = (Ok dir', d') ->
  (forall name, name ∈ [caFile; leafFile; leafKey; bundleFileName; configFile] ->
     exists f, dr_files d' !! inDir dir name = Some f /\ fi_mode f = fileMode) /\
  (forall path, (forall name, name ∈ [caFile; leafFile; leafKey; bundleFileName; configFile] -> path <> inDir dir name) ->
     dr_files d' !! path = dr_files d !! path).
Proof.
  intros (_ & _ & _ & _ & out & Ho & Hf)%Install_ok. rewrite Hf. split.
  - intros name Hn. repeat (apply elem_of_cons in Hn as [->|Hn]; [repeat (first [other_file|rewrite lookup_insert_eq; by eexists])|]).
    by apply elem_of_nil in Hn.
  - intros path Hp. rewrite !lookup_insert_ne; [done|..]; intros <-; eapply Hp; try reflexivity; set_solver.
Qed.

End installed.

(** ** The keyring that is bundled *)

Lemma parseEntries_ids es what out : parseEntries es what = Ok out -> ids_ok out.
Proof.
  unfold parseEntries. intros Hf%collect_ok. apply Forall_forall. intros y Hy.
  apply list_elem_of_lookup in Hy as [i Hy]. destruct (Forall2_lookup_r _ _ _ _ _ Hf Hy) as ([j e] & _ & E).
  unfold parseEntry in E. apply bind_ok in E as (id & Eid & E). unfold ParseKeyID in Eid.
  destruct (HexDecodeString _) as [raw|]; [|done]. destruct (Z.eqb_spec (len raw) KeyIDLen) as [El|]; [|done]. injection Eid as ->.
  destruct (Base64DecodeString _); [|done]. destruct (_ =? _); [|done]. by injection E as <-.
Qed.

Lemma parseScopes_storable ss out : parseScopes ss = Ok out ->
  Forall (fun s => kr_scopes (sc_keys s) = [] /\ ids_ok (kr_nameKeys (sc_keys s)) /\ ids_ok (kr_keys (sc_keys s))) out.
Proof.
  unfold parseScopes. intros Hf%collect_ok. apply Forall_forall. intros y Hy.
  apply list_elem_of_lookup in Hy as [i Hy]. destruct (Forall2_lookup_r _ _ _ _ _ Hf Hy) as ([j s] & _ & E).
  unfold parseScope in E. apply bind_ok in E as ([] & _ & E). apply bind_ok in E as ([] & _ & E).
  apply bind_ok in E as (n & En & E). apply bind_ok in E as (k & Ek & E). apply bind_ok in E as ([] & _ & E). injection E as <-.
  destruct (parseEntries (sf_NameKeys s) _) as [n'|] eqn:En'; [|done]. destruct (parseEntries (sf_Keys s) _) as [k'|] eqn:Ek'; [|done].
  injection En as ->. injection Ek as ->. cbn [sc_keys kr_scopes kr_nameKeys kr_keys].
  split_and!; [done|by eapply parseEntries_ids..].
Qed.

(** A keyring that was read can be stored and sent. *)
Lemma parsed_scopes `{Yaml} text k : ParseKeyring text = Ok k ->
  scopes_ok (kr_scopes k) /\
  Forall (fun s => kr_scopes (sc_keys s) = [] /\ ids_ok (kr_nameKeys (sc_keys s)) /\ ids_ok (kr_keys (sc_keys s))) (kr_scopes k).
Proof.
  intros E. pose proof (ParseKeyring_valid _ _ E) as Hv. apply Valid_spec in Hv as [_ _ _ _ Hs]. split; [done|].
  unfold ParseKeyring in E. destruct (yamlUnmarshal text) as [f|]; [|done]. unfold parseFile in E.
  destruct (_ && _); [done|]. destruct (_ && _); [done|]. ok_inv E as n _. ok_inv E as ks _. ok_inv E as ss Es.
  apply bind_ok in E as ([] & _ & [= <-]). by eapply parseScopes_storable.
Qed.

Section bundled.
Context `{BundleYaml} {W : Type}.

(** The payload reads, in any memory, as the keyring's scopes. *)
Lemma bundlePayload_ok `{!FaithfulYaml} `{Yaml} name generation keys text (mc mc' : Machine W) payload :
  ParseKeyring text = Ok keys -> bundlePayload name generation keys mc = (Ok payload, mc') ->
  (mc_world mc' = mc_world mc /\ mc_drive mc' = mc_drive mc /\ mc_meta mc' = mc_meta mc /\ mc_update mc' = mc_update mc) /\
  forall m0, exists b m', ParseBundle payload m0 = (Ok b, m') /\ b_instance b = name /\ b_generation b = generation /\
    map (load m') (b_scopes b) = kr_scopes keys.
Proof.
  intros [_ Hs]%parsed_scopes. unfold bundlePayload. destruct (threaded allocScope (mc_mem mc) (kr_scopes keys)) as [scopes m] eqn:Et.
  destruct (threaded_spec allocScope flatten (kr_scopes keys) ltac:(intros; by eapply allocScope_spec) _ _ _ Et) as [_ Hl].
  assert (map (load m) scopes = kr_scopes keys) as Hk.
  { rewrite Hl. transitivity (map id (kr_scopes keys)); [|apply map_id]. apply map_ext_in. intros s Hin%list_elem_of_In.
    rewrite Forall_forall in Hs. destruct (Hs s Hin) as [Hn _]. unfold flatten. by destruct s as [? ? ? ? []]; cbn in *; subst. }
  destruct (NewBundle m name generation scopes) as [bundle|] eqn:En; [|done]. apply NewBundle_ok in En as [-> Hb].
  destruct (MarshalBundle m _) as [data|] eqn:Em; [|done]. intros [= <- <-]. split; [done|]. intros m0.
  assert (unmarshalBundle data = Some (bundleFileOf m (mkBundle name generation scopes false))) as Hy.
  { unfold MarshalBundle in Em. cbn [b_zeroed] in Em. destruct (marshalBundle _) as [data'|] eqn:Ed; [|done]. injection Em as <-. by apply faithful. }
  destruct (ParseBundle_marshal m m0 _ data Hb) as (b' & m' & Hp & _ & Ei & Eg & El); [|exact Hy|].
  - cbn [b_scopes]. rewrite Hk. eapply Forall_impl; [exact Hs|]. naive_solver.
  - exists b', m'. split_and!; [done..|]. by rewrite El.
Qed.

End bundled.

(** ** The roster *)

Lemma upsert_device l k : k ∈ upsertKeeper l k /\ forall x, kp_Device x <> kp_Device k -> (x ∈ upsertKeeper l k <-> x ∈ l).
Proof.
  induction l as [|y l [IHin IH]]; cbn [upsertKeeper]; [split; [by left|]|case_decide as Hd; split].
  - intros x Hx. rewrite list_elem_of_singleton. split; [by intros ->|by intros ?%elem_of_nil].
  - by left.
  - intros x Hx. rewrite !elem_of_cons. split; (intros [->|]; [done|by right]).
  - by right.
  - intros x Hx. rewrite !elem_of_cons, IH by done. done.
Qed.

(** One row for each device. *)
Lemma upsert_NoDup l k : NoDup (map kp_Device l) -> NoDup (map kp_Device (upsertKeeper l k)).
Proof.
  induction l as [|y l IH]; cbn [upsertKeeper map]; [intros _; apply NoDup_singleton|].
  intros [Hy Hl]%NoDup_cons. case_decide as Hd; cbn [map]; apply NoDup_cons; (split; [|auto]); [by rewrite <- Hd|].
  intros (x & Ex & Hx)%list_elem_of_fmap. apply Hy. apply list_elem_of_fmap. exists x. split; [done|].
  apply (upsert_device l k); [congruence|done].
Qed.

(** What [enroll] says of the fleet is its size afterwards. *)
Lemma upsert_active l k : NoDup (map kp_Device l) -> kp_Revoked k = false -> kp_Device k <> "" ->
  activeKeepers (upsertKeeper l k) "" = activeKeepers l (kp_Device k).
Proof.
  intros Hn Hr Hd. unfold activeKeepers. rewrite (bool_decide_eq_true_2 (kp_Device k <> "")), bool_decide_eq_false_2 by (done || congruence).
  cbn [andb negb]. rewrite Z.add_0_r. induction l as [|y l IH]; cbn [upsertKeeper].
  { rewrite filter_cons_True by done. done. }
  cbn [map] in Hn. apply NoDup_cons in Hn as [Hy Hl]. specialize (IH Hl). case_decide as Ed.
  - rewrite filter_cons_True by done.
    assert (existsb (fun x => bool_decide (kp_Device x = kp_Device k)) (filter (fun x => kp_Revoked x = false) l) = false) as He.
    { apply not_true_iff_false. intros (x & [_ Hx]%list_elem_of_In%list_elem_of_filter & Ex%bool_decide_eq_true)%existsb_exists.
      apply Hy. rewrite Ed, <- Ex. apply list_elem_of_fmap. eauto. }
    destruct (decide (kp_Revoked y = false)) as [Hy'|Hy'].
    + rewrite filter_cons_True by done. cbn [existsb length]. rewrite bool_decide_eq_true_2 by done. cbn. lia.
    + rewrite filter_cons_False by done. rewrite He. cbn [negb length]. lia.
  - destruct (decide (kp_Revoked y = false)) as [Hy'|Hy'].
    + rewrite !filter_cons_True by done. cbn [existsb length]. rewrite bool_decide_eq_false_2 by done. cbn [orb]. lia.
    + rewrite !filter_cons_False by done. lia.
Qed.

(** ** Enrolling *)

Lemma createExclusive_ok path data mode d d' : createExclusive path data mode d = (Ok tt, d') ->
  dr_files d !! path = None /\ dr_files d' = <[path := mkFile data mode]> (dr_files d).
Proof.
  unfold createExclusive. intros ([] & d1 & E1%whole_ok & E)%bind_inv. apply bind_inv in E as ([] & d2 & E2 & E3%whole_ok).
  injection E3 as <-. cbn [later dr_files]. unfold mbind, eff_bind, get in E1. cbn [later dr_files] in E1.
  destruct (dr_files d !! path) eqn:El; [done|]. injection E1 as <-. split; [done|].
  unfold WriteFile in E2. apply bind_inv in E2 as (f & d3 & Ef & E2).
  assert (dr_files d3 = <[path := mkFile "" mode]> (dr_files d)) as H3.
  { unfold nextFault in Ef. cbn [setFiles later dr_faults] in Ef. by destruct (tail (dr_faults d)); injection Ef as _ <-. }
  destruct f as [|e|n e]; [|done|by apply bind_inv in E2 as ([] & d4 & _ & E2)].
  injection E2 as <-. cbn [setFiles dr_files]. rewrite H3, lookup_insert_eq. cbn [fmap option_fmap option_map default fi_mode].
  by rewrite insert_insert_eq.
Qed.

Section enrolled.
Context `{CipherLaws, Pbkdf2, ArmorYamlLaws, CaseTables, PacketYamlLaws, Yaml, BundleYaml, !FaithfulYaml, LeafPem} {W : Type} `{Entropy W}.

Lemma onWorld_ok {A E E'} (f : E -> E') (op : eff W E A) (mc mc' : Machine W) a : onWorld f op mc = (Ok a, mc') ->
  exists w', op (mc_world mc) = (Ok a, w') /\ mc' = mkMachine w' (mc_mem mc) (mc_drive mc) (mc_meta mc) (mc_update mc).
Proof. unfold onWorld. destruct (op (mc_world mc)) as [[a'|e] w']; [|done]. intros [= -> <-]. by eexists. Qed.

Lemma onDrive_ok {A E E'} (f : E -> E') (op : eff Drive E A) (mc mc' : Machine W) a : onDrive f op mc = (Ok a, mc') ->
  exists d', op (mc_drive mc) = (Ok a, d') /\ mc' = mkMachine (mc_world mc) (mc_mem mc) d' (mc_meta mc) (mc_update mc).
Proof. unfold onDrive. destruct (op (mc_drive mc)) as [[a'|e] d']; [|done]. intros [= -> <-]. by eexists. Qed.

Lemma enroll_ok name device c (mc mc' : Machine W) res : enroll name device c mc = (Ok res, mc') ->
  exists passphrase text keys sealed packet meta row,
    en_passphrase c = Ok passphrase /\ en_keyring c = Ok text /\ ParseKeyring text = Ok keys /\ mc_meta mc = Ok meta /\
    (Validate packet = Ok tt /\ OpenPacket sealed passphrase = Ok packet) /\
    (pk_Instance packet = name /\ pk_Device packet = device /\ im_Carrier meta = Some (pk_Carrier packet) /\
     im_Keyholder meta = Some (true, pk_Generation packet) /\ pk_Budget packet = en_budget c /\ pk_Window packet = en_window c) /\
    (forall m0, exists b m', ParseBundle (pk_Bundle packet) m0 = (Ok b, m') /\ b_generation b = pk_Generation packet /\
       map (load m') (b_scopes b) = kr_scopes keys) /\
    (dr_files (mc_drive mc) !! en_out c = None /\
     dr_files (mc_drive mc') = <[en_out c := mkFile sealed fileMode]> (dr_files (mc_drive mc))) /\
    (kp_Device row = device /\ kp_Revoked row = false /\ mc_meta mc' = Ok (setKeepers (upsertKeeper (im_Keepers meta) row) meta)) /\
    er_Fleet res = activeKeepers (im_Keepers meta) device.
Proof.
  unfold enroll. intros ([] & m1 & [_ ->]%lift_inv & E)%bind_inv. case_decide; [done|].
  apply bind_inv in E as (passphrase & m2 & [Ep ->]%lift_inv & E). apply bind_inv in E as (loaded & m3 & [= <- <-] & E).
  apply bind_inv in E as (meta & m4 & [Em ->]%lift_inv & E).
  destruct (mc_meta mc) as [meta'|] eqn:Emeta; [|done]. injection Em as ->.
  destruct (im_Carrier meta) as [[|a carrier]|] eqn:Ecar; [done| |done]. set (carrier' := String a carrier) in *.
  destruct (im_Keyholder meta) as [[[] generation]|] eqn:Ekh; [|done..].
  apply bind_inv in E as ([caCert caKey] & m5 & [_ ->]%lift_inv & E). case_decide; [done|].
  apply bind_inv in E as (text & m6 & [Et ->]%lift_inv & E). apply bind_inv in E as (keys & m7 & [Ek ->]%lift_inv & E).
  destruct (ParseKeyring text) as [keys'|] eqn:Ekeys; [|done]. injection Ek as ->.
  apply bind_inv in E as (payload & m8 & Epay & E).
  destruct (bundlePayload_ok _ _ _ _ _ _ _ Ekeys Epay) as ((Hw & Hd & Hm & Hu) & Hb).
  apply bind_inv in E as (leaf & m9 & [_ ->]%lift_inv & E). apply bind_inv in E as (issuedAt & m10 & [= <- <-] & E).
  apply bind_inv in E as (sealed & m11 & Es & E). apply onWorld_ok in Es as (w' & Es & ->). apply SealPacket_opens in Es as [Hv Ho].
  apply bind_inv in E as ([] & m12 & Ec & E). apply onDrive_ok in Ec as (d' & [Hn Hf]%createExclusive_ok & ->).
  apply bind_inv in E as (enrolledAt & m13 & [= <- <-] & E). apply bind_inv in E as (meta1 & m14 & Eu & E). injection E as <- <-.
  unfold updateMetadata in Eu. cbn [mc_update mc_meta mc_world mc_mem mc_drive] in Eu, Hn, Hf. rewrite Hm, Emeta in Eu. rewrite Hd in Hn, Hf.
  destruct (mc_update m8); [done|]. injection Eu as _ <-.
  destruct (en_passphrase c) as [pass|] eqn:Epc; [|done]. injection Ep as ->.
  destruct (en_keyring c) as [text'|] eqn:Etc; [|done]. injection Et as ->.
  eexists passphrase, text, keys, sealed, _, meta, _. split_and!; [done..| |exact Hn|exact Hf| | |reflexivity|done]; [|done..].
  intros m0. destruct (Hb m0) as (b & m' & Hpb & _ & Hg & Hl). by exists b, m'.
Qed.

End enrolled.

(** ** Properties *)

(** C17: A device that is enrolled can restore the instance. A packet is written where there was no file, for its owner
    alone, and opens under the passphrase and for this kind of material; whenever a device installs it, on whatever
    its drive held -- which is refused inside a synced folder, and without the exclusion from backups unless forced --
    it touches its own files only, leaves them private to their owner, and reads back the instance, the budget and
    window, and a bundle that parses in any memory as every scope of the operator's keyring at the instance's
    generation. The roster has one unrevoked row for the device beside the others' rows, and the size of the fleet
    that is reported is that of the roster. *)
Theorem an_enrolled_device_can_reseed
    `{CipherLaws, Pbkdf2, ArmorYamlLaws, CaseTables, PacketYamlLaws, Yaml, BundleYaml, !FaithfulYaml, LeafPem, Platform}
    {W : Type} `{Entropy W} name device c (mc mc' : Machine W) res :
  enroll name device c mc = (Ok res, mc') ->
  exists passphrase keys sealed packet meta rows,
    en_passphrase c = Ok passphrase /\ (exists text, en_keyring c = Ok text /\ ParseKeyring text = Ok keys) /\
    dr_files (mc_drive mc) !! en_out c = None /\
    dr_files (mc_drive mc') = <[en_out c := mkFile sealed fileMode]> (dr_files (mc_drive mc)) /\
    OpenPacket sealed passphrase = Ok packet /\
    (forall dir force now d dir' d', Install dir packet force now d = (Ok dir', d') ->
       refuseSyncedPath dir = Ok tt /\ (excludeFromBackup dir = None \/ force = true) /\
       (forall file, file ∈ [caFile; leafFile; leafKey; bundleFileName; configFile] ->
          exists f, dr_files d' !! inDir dir file = Some f /\ fi_mode f = fileMode) /\
       (forall path, (forall file, file ∈ [caFile; leafFile; leafKey; bundleFileName; configFile] -> path <> inDir dir file) ->
          dr_files d' !! path = dr_files d !! path) /\
       (calm d' -> (exists d1, OpenStore dir d' = (Ok dir, d1)) /\
          exists cfg d1 ca leaf key bundle d2, readConfig dir d' = (Ok cfg, d1) /\ Material dir d' = (Ok (ca, leaf, key, bundle), d2) /\
            kc_Instance cfg = name /\ kc_Device cfg = device /\ kc_Budget cfg = en_budget c /\ kc_Window cfg = en_window c /\
            im_Keyholder meta = Some (true, kc_Generation cfg) /\
            forall m0, exists b m', ParseBundle bundle m0 = (Ok b, m') /\ b_generation b = kc_Generation cfg /\
              map (load m') (b_scopes b) = kr_scopes keys)) /\
    mc_meta mc = Ok meta /\ mc_meta mc' = Ok (setKeepers rows meta) /\
    (exists row, row ∈ rows /\ kp_Device row = device /\ kp_Revoked row = false) /\
    (forall row, kp_Device row <> device -> (row ∈ rows <-> row ∈ im_Keepers meta)) /\
    (NoDup (map kp_Device (im_Keepers meta)) -> NoDup (map kp_Device rows) /\ er_Fleet res = activeKeepers rows "").
Proof.
  intros (passphrase & text & keys & sealed & packet & meta & row & Hp & Ht & Hk & Hm & (Hv & Ho) & (Ei & Ed & _ & Eg & Eb & Ew)
    & Hb & (Hn & Hf) & (Er & Hr & Hm') & Hfl)%enroll_ok.
  exists passphrase, keys, sealed, packet, meta, (upsertKeeper (im_Keepers meta) row). split_and!; try done; [by eexists| |..].
  - intros dir force now d dir' d' E. pose proof (Install_ok _ _ _ _ _ _ _ E) as (-> & _ & Hs & Hx & _).
    pose proof (installed_files _ _ _ _ _ _ _ E) as [Hin Hout]. split_and!; [done..|]. intros Hc.
    destruct (installed_reads _ _ _ _ _ _ _ E Hc) as (Hopen & (d1 & Hcfg) & (d2 & Hmat)). split; [done|].
    eexists _, d1, _, _, _, _, d2. split_and!; [exact Hcfg|exact Hmat|done..].
  - exists row. split; [exact (proj1 (upsert_device _ _))|done].
  - intros x Hx. apply (proj2 (upsert_device _ _)). by rewrite Er.
  - intros Hnd. split; [by apply upsert_NoDup|]. rewrite Hfl, upsert_active, Er; [done|done|done|].
    rewrite Er, <- Ed. intros E. unfold Validate in Hv. rewrite E in Hv. by repeat (case_decide; [done|]).
Qed.

(** *** Witness *)

#[local] Existing Instance KeyringFile.oneDocument.
#[local] Instance exFold : CaseTables := {| lowerRune r := r; sameFold _ _ := false |}.
#[local] Existing Instance Issuance.exCA.
#[local] Instance exLeafPem : LeafPem := {|
  certPem leaf := "leaf " +:+ String.concat " " (sn_URIs (leafNames leaf)); keyPem leaf := "key of leaf " +:+ String.concat " " (sn_URIs (leafNames leaf));
  notAfter _ := Some 1000 |}.
#[local] Instance exPlatform : Platform := {| filepathAbs dir := Ok dir; excludeFromBackup _ := None |}.

#[local] Instance keyEntryFile_eq_dec : EqDecision keyEntryFile.
Proof. solve_decision. Defined.
#[local] Instance scopeFile_eq_dec : EqDecision scopeFile.
Proof. solve_decision. Defined.
#[local] Instance bundleFile_eq_dec : EqDecision bundleFile.
Proof. solve_decision. Defined.
#[local] Instance Packet_eq_dec : EqDecision Packet.
Proof. solve_decision. Defined.

Definition exDocument : bundleFile := mkBundleFile bundleVersion "prod" 3 (marshalScopes (kr_scopes exBackup)).
Definition exLeaf : string := "leaf farcast://prod/keeper/mac".
Definition exPacket : Packet :=
  mkPacket 1 "prod" "mac" "carrier.example:443" "prod.fatline.farcast" "ca" exLeaf ("key of " +:+ exLeaf) "bundle" 3
    DefaultBudget DefaultWindow 65.

(** Libraries that know one bundle and one packet. *)
#[local] Instance exBundleYaml : BundleYaml := {|
  unmarshalBundle s := if decide (s = "bundle") then Some exDocument else None;
  marshalBundle f := if decide (f = exDocument) then Ok "bundle" else Err "another document"
|}.

#[local] Instance exBundleYaml_faithful : FaithfulYaml.
Proof. split. intros f s. cbn. case_decide as Hf; [|done]. intros [= <-]. by rewrite Hf. Qed.

#[local] Instance exPacketYaml : PacketYaml := {|
  packetMarshal p := if decide (p = exPacket) then Ok "packet" else Err "another packet";
  packetUnmarshal s := if decide (s = "packet") then Some exPacket else None;
  recordMarshal c := Err "no record";
  recordUnmarshal s := Err s
|}.

#[local] Instance exPacketYaml_laws : PacketYamlLaws.
Proof. split; [|done]. intros p s. cbn. case_decide as Hf; [|done]. intros [= <-]. by rewrite Hf. Qed.

Definition exMachine : Machine nat :=
  mkMachine 65%nat ∅ (mkDrive ∅ ∅ []) (Ok (mkMetadata (Some "carrier.example:443") (Some (true, 3)) [])) None.
Definition exEnrolment : enrolment :=
  mkEnrolment "packet.yaml" (Ok exPassphrase) DefaultBudget DefaultWindow (Ok ("ca", "ca key")) (Ok "doc").
Definition exEnrolled : result enrol_error enrollResult * Machine nat := enroll "prod" "mac" exEnrolment exMachine.

Lemma exEnrolled_ok : exEnrolled = (Ok (mkEnrollResult 3 1000 1), exEnrolled.2).
Proof. vm_compute. reflexivity. Qed.

Lemma an_enrolled_device_can_reseed_witness : exists sealed packet rows,
  dr_files (mc_drive exEnrolled.2) = {["packet.yaml" := mkFile sealed 384]} /\ OpenPacket sealed exPassphrase = Ok packet /\
  mc_meta exEnrolled.2 = Ok (mkMetadata (Some "carrier.example:443") (Some (true, 3)) rows) /\ activeKeepers rows "" = 1.
Proof.
  destruct (an_enrolled_device_can_reseed "prod" "mac" exEnrolment exMachine exEnrolled.2 _ exEnrolled_ok)
    as (passphrase & keys & sealed & packet & meta & rows & [= <-] & _ & _ & Hf & Ho & _ & [= <-] & Hm & _ & _ & Hn).
  exists sealed, packet, rows. split; [exact Hf|]. split; [exact Ho|]. split; [exact Hm|]. symmetry. apply Hn. constructor.
Defined.
