(* ===== verification/HandOver.v ===== *)
(** * Handing keys over ([farsight/cli/internal/cli/storagekeyholder.go])

    The operator's machine gives the keyholder fleet a keyring without leaving one
    replica writing under a key another cannot read: it asks every replica what it
    holds, plans, and pushes once, or twice when a key is new to the fleet. *)

From S2P Require Import Prelude Effect GoTime GoStrings Encoding LogicalKey Keyring KeyringFacts Material Bundle Identity Replica.

(** ** The plan *)

Inductive plan_error :=
| OutdatedReplica (replica : Z)
| BehindScope (replica : Z) (scope : string)
| MintedTwice (replica : Z) (scope : string)
| BehindKey (replica : Z) (scope id : string)
| BehindActive (replica : Z) (scope id : string)
| NoCommonKey (scope : string)
| CannotHold (e : keyring_error).

(** [errors.As(err, &foreignCopy)]. *)
Definition foreignCopy (e : plan_error) : bool := match e with MintedTwice _ _ => true | _ => false end.

Definition outdatedImage (st : State) : bool :=
  negb (Sealed st) && negb (bool_decide (rp_Scopes st = [])) && bool_decide (rp_Keys st = None).

(** Every key with an ID of [theirs] is in [mine]. *)
Definition lacking (mine : gmap string KeyEntry) (theirs : list string) : option string :=
  snd <$> list_find (fun id => mine !! id = None) theirs.

Definition activeOf (k : Keyring) (name : string) : option KeyEntry :=
  match ScopeNamed k name with Some s => head (kr_keys (sc_keys s)) | None => None end.

(** One scope a replica serves; keys and scopes are this machine's. *)
Definition checkServed (keys : Keyring) (i : Z) (held : Keys) (name : string) : result plan_error unit :=
  let theirs := default [] (held !! name) in
  match heldByScope (kr_scopes keys) !! name with
  | None => Err (BehindScope i name)
  | Some mine =>
      if negb (bool_decide (theirs = [])) && negb (existsb (fun id => bool_decide (is_Some (mine !! id))) theirs)
      then Err (MintedTwice i name)
      else match lacking mine theirs with
           | Some id => Err (BehindKey i name id)
           | None =>
               match head theirs, activeOf keys name with
               | Some first, Some active =>
                   match mine !! first with
                   | Some used =>
                       if bool_decide (ke_ID used <> ke_ID active) && After (ke_Created used) (ke_Created active)
                       then Err (BehindActive i name first) else Ok tt
                   | None => Ok tt
                   end
               | _, _ => Ok tt
               end
           end
  end.

Definition checkReplica (keys : Keyring) (i : Z) (st : option State) : result plan_error unit :=
  match st with
  | None => Ok tt
  | Some st =>
      if Sealed st then Ok tt
      else if outdatedImage st then Err (OutdatedReplica i)
      else foldM (fun _ name => checkServed keys i (keysOf st) name) tt (sortedNames (keysOf st))
  end.

(** What the serving replicas hold of a scope. *)
Definition holdersOf (states : list (option State)) (name : string) : list (list string) :=
  omap (fun st => match st with Some st => if Sealed st then None else keysOf st !! name | None => None end) states.

Definition heldByAll (holders : list (list string)) (e : KeyEntry) : bool :=
  forallb (fun ids => bool_decide (hexID e ∈ ids)) holders.

Definition inUse (holders : list (list string)) (e : KeyEntry) : bool :=
  existsb (fun ids => bool_decide (head ids = Some (hexID e))) holders.

(** The newest key that is in use and held by every serving replica. *)
Definition newestUsed (holders : list (list string)) (previous : option string) (keks : list KeyEntry) : option KeyEntry :=
  foldl (fun chosen e =>
    if heldByAll holders e && (inUse holders e || bool_decide (previous = Some (ke_ID e)))
       && match chosen with None => true | Some c => After (ke_Created e) (ke_Created c) end
    then Some e else chosen) None keks.

(** The key to keep a scope on, or nothing when its own can be used. *)
Definition holdScope (states : list (option State)) (rotated : gmap string string) (s : Scope)
    : result plan_error (option KeyEntry) :=
  let holders := holdersOf states (sc_Name s) in
  let keks := kr_keys (sc_keys s) in
  let previous := rotated !! sc_Name s in
  if bool_decide (previous = None) && match keks with e :: _ => heldByAll holders e | [] => true end then Ok None
  else
    let chosen := newestUsed holders previous keks in
    let chosen := match chosen, holders, previous with
                  | None, [], Some id => last (filter (fun e => ke_ID e = id) keks)
                  | _, _, _ => chosen
                  end in
    match chosen with Some e => Ok (Some e) | None => Err (NoCommonKey (sc_Name s)) end.

Definition holdStep (states : list (option State)) (rotated : gmap string string)
    (acc : gmap string string * list string) (s : Scope) : result plan_error (gmap string string * list string) :=
  chosen ← holdScope states rotated s;
  match chosen with
  | None => Ok acc
  | Some e => Ok (<[sc_Name s := ke_ID e]> acc.1, acc.2 ++ [sc_Name s])
  end.

Section plan.
Context `{GoRange}.

(** The keyring to be held first, with the scopes held back; none when it can go over in one push. *)
Definition planHandOver (keys : Keyring) (states : list (option State)) (rotated : gmap string string)
    : result plan_error (option (Keyring * list string)) :=
  _ ← foldM (fun _ '(i, st) => checkReplica keys (Z.of_nat i) st) tt (imap pair states);
  '(hold, scopes) ← foldM (holdStep states rotated) (∅, []) (kr_scopes keys);
  if decide (hold = ∅) then Ok None
  else
    held ← wrapErr CannotHold (WithScopeActive keys hold);
    Ok (Some (held, scopes)).

End plan.

(** ** Pushing *)

(** Exactly these keys: the same scopes, each with the same active key and the same keys behind it. *)
Definition scopeKeysMatch (got want : list string) : bool :=
  match got, want with
  | g :: _, w :: _ =>
      bool_decide (length got = length want) && bool_decide (g = w)
      && forallb (fun id => bool_decide (id ∈ got)) want
      && bool_decide (size (list_to_set got : gset string) = length want)
  | _, _ => false
  end.

Definition sameKeys (got want : Keys) : bool :=
  bool_decide (size got = size want) &&
  forallb (fun '(name, ids) => match want !! name with Some ids' => scopeKeysMatch ids ids' | None => false end) (map_to_list got).

Inductive row_error :=
| DidNotSay (e : option call_error)
| LeftSealed (phase : string)
| PushRefused (e : call_error)
| ImageTooOld (generation : Z)
| NotInstalled (generation : Z).

Record row := mkRow {
  rw_Ordinal : Z;
  rw_Phase : string;
  rw_Generation : Z;
  rw_Scopes : list string;
  rw_Error : option row_error;
  (** still writing under an older key, because of this *)
  rw_Note : option row_error
}.

Record handOverStep := mkStep {
  hs_Generation : Z;
  hs_Loaded : list Z;
  hs_Waiting : list Z;
  hs_Unreached : list Z;
  hs_Refused : list Z;
  hs_Rows : list row
}.

Definition everyServingReplicaHolds (s : handOverStep) : bool :=
  bool_decide (hs_Unreached s = []) && bool_decide (hs_Refused s = []).

(** What a caller wants: [beforeHold] and [beforeActivate] save the keyring on this machine, and may fail. *)
Record handOverOptions (W : Type) := mkOptions {
  op_unseal : bool;
  op_rotated : gmap string string;
  op_beforeHold : option (Keyring -> W -> option string * W);
  op_beforeActivate : option (W -> option string * W);
  op_unchecked : bool
}.

Arguments mkOptions {W}.
Arguments op_unseal {W}.
Arguments op_rotated {W}.
Arguments op_beforeHold {W}.
Arguments op_beforeActivate {W}.
Arguments op_unchecked {W}.

(** One hand-over in progress, with what it works on: the replicas' world, this process's memory and the ledger. *)
Record handOver (W : Type) := mkHandOver {
  ho_world : W;
  ho_mem : memory;
  ho_ledger : option string;
  ho_highest : Z;
  ho_taken : Z;
  ho_unanswered : gmap Z call_error;
  ho_leaveSealed : bool;
  ho_leftSealed : list Z
}.

Arguments mkHandOver {W}.
Arguments ho_world {W}.
Arguments ho_mem {W}.
Arguments ho_ledger {W}.
Arguments ho_highest {W}.
Arguments ho_taken {W}.
Arguments ho_unanswered {W}.
Arguments ho_leaveSealed {W}.
Arguments ho_leftSealed {W}.

Section pushing.
Context {W : Type} `{SealStateClient W} `{LedgerJson} `{BundleYaml}.
Context (instance : string) (total : nat) (opts : handOverOptions W) (dk : Z -> disk).

(** The answers of [read]: a replica that does not answer is none. *)
Definition readOne (acc : list (option State) * handOver W) (i : Z) : list (option State) * handOver W :=
  let '(states, h) := acc in
  let '((st, e), w) := sk_State i (ho_world h) in
  match e with
  | Some why =>
      (states ++ [None], mkHandOver w (ho_mem h) (ho_ledger h) (ho_highest h) (ho_taken h)
         (<[i := why]> (ho_unanswered h)) (ho_leaveSealed h) (ho_leftSealed h))
  | None =>
      (states ++ [Some st], mkHandOver w (ho_mem h) (ho_ledger h) (Z.max (ho_highest h) (rp_Generation st)) (ho_taken h)
         (ho_unanswered h) (ho_leaveSealed h) (ho_leftSealed h))
  end.

Definition readAll (h : handOver W) : list (option State) * handOver W :=
  foldl readOne ([], mkHandOver (ho_world h) (ho_mem h) (ho_ledger h) (ho_highest h) (ho_taken h) ∅
                       (ho_leaveSealed h) (ho_leftSealed h)) (seqZ 0 (Z.of_nat total)).

Definition intentOf : string := if op_unseal opts then IntentOperator else IntentHandOver.

(** What a push to one replica came to. *)
Inductive outcome :=
| TookThem
| SealedMeanwhile
| Declined (e : row_error).

Definition outcomeOf (want : Keys) (pushed : State) (e : option call_error) (generation : Z) : outcome :=
  if negb (op_unseal opts) && NotServing e then SealedMeanwhile
  else match e with
       | Some why => Declined (PushRefused why)
       | None =>
           if outdatedImage pushed then Declined (ImageTooOld generation)
           else if negb (sameKeys (keysOf pushed) want) then Declined (NotInstalled (rp_Generation pushed))
           else TookThem
       end.

Definition resultText (o : outcome) : string :=
  match o with
  | TookThem => "ok"
  | SealedMeanwhile | Declined (PushRefused _) => "refused"
  | Declined (ImageTooOld _) => "unverified"
  | Declined _ => "not-installed"
  end.

Definition pushedEntry (i : Z) (st pushed : State) (generation : Z) (o : outcome) (now : Time) : LedgerEntry :=
  mkEntry now instance i intentOf generation
    (match o with SealedMeanwhile | Declined (PushRefused _) => "" | _ => rp_Phase pushed end)
    (resultText o) ""
    (if decide (rp_Boot pushed <> "") then rp_Boot pushed else rp_Boot st).

Definition pushStep (s : handOverStep) (i : Z) (pushed : State) (o : outcome) : handOverStep :=
  match o with
  | TookThem =>
      mkStep (hs_Generation s) (hs_Loaded s ++ [i]) (hs_Waiting s) (hs_Unreached s) (hs_Refused s)
        (hs_Rows s ++ [mkRow i (rp_Phase pushed) (rp_Generation pushed) (rp_Scopes pushed) None None])
  | SealedMeanwhile =>
      mkStep (hs_Generation s) (hs_Loaded s) (hs_Waiting s ++ [i]) (hs_Unreached s) (hs_Refused s)
        (hs_Rows s ++ [mkRow i "sealed" 0 [] None None])
  | Declined e =>
      mkStep (hs_Generation s) (hs_Loaded s) (hs_Waiting s) (hs_Unreached s) (hs_Refused s ++ [i])
        (hs_Rows s ++ [mkRow i "" 0 [] (Some e) None])
  end.

(** A replica that is pushed to. *)
Definition pushTo (payload : string) (want : Keys) (acc : handOverStep * handOver W) (i : Z) (st : State)
    : handOverStep * handOver W :=
  let '(s, h) := acc in
  let '((pushed, e), w) := sk_Unseal i payload intentOf (ho_world h) in
  let o := outcomeOf want pushed e (hs_Generation s) in
  let '(_, ledger) := AppendLedger (dk i) (pushedEntry i st pushed (hs_Generation s) o (sk_now w)) (ho_ledger h) in
  (pushStep s i pushed o,
   mkHandOver w (ho_mem h) ledger (ho_highest h)
     (match o with TookThem => Z.max (ho_taken h) (hs_Generation s) | _ => ho_taken h end)
     (ho_unanswered h) (ho_leaveSealed h) (ho_leftSealed h)).

Definition pushOne (payload : string) (want : Keys) (acc : handOverStep * handOver W) (r : nat * option State)
    : handOverStep * handOver W :=
  let '(s, h) := acc in
  let '(i, st) := r in
  let i := Z.of_nat i in
  match st with
  | None =>
      (mkStep (hs_Generation s) (hs_Loaded s) (hs_Waiting s) (hs_Unreached s ++ [i]) (hs_Refused s)
         (hs_Rows s ++ [mkRow i "" 0 [] (Some (DidNotSay (ho_unanswered h !! i))) None]), h)
  | Some st =>
      if Sealed st && (negb (op_unseal opts) || ho_leaveSealed h) then
        (mkStep (hs_Generation s) (hs_Loaded s) (hs_Waiting s ++ [i]) (hs_Unreached s) (hs_Refused s)
           (hs_Rows s ++ [if ho_leaveSealed h then mkRow i "" 0 [] (Some (LeftSealed (rp_Phase st))) None
                          else mkRow i (rp_Phase st) 0 [] None None]),
         if ho_leaveSealed h && negb (bool_decide (i ∈ ho_leftSealed h))
         then mkHandOver (ho_world h) (ho_mem h) (ho_ledger h) (ho_highest h) (ho_taken h) (ho_unanswered h)
                (ho_leaveSealed h) (ho_leftSealed h ++ [i])
         else h)
      else pushTo payload want (s, h) i st
  end.

Definition withMemory (m : memory) (h : handOver W) : handOver W :=
  mkHandOver (ho_world h) m (ho_ledger h) (ho_highest h) (ho_taken h) (ho_unanswered h) (ho_leaveSealed h) (ho_leftSealed h).

(** The bundle is of copies of the keyring's scopes, wiped in the end. *)
Definition push (keys : Keyring) (states : list (option State)) (h : handOver W)
    : result bundle_error handOverStep * handOver W :=
  let generation := u64 (ho_highest h + 1) in
  let h := mkHandOver (ho_world h) (ho_mem h) (ho_ledger h) generation (ho_taken h) (ho_unanswered h)
             (ho_leaveSealed h) (ho_leftSealed h) in
  let '(copies, m) := threaded allocScope (ho_mem h) (kr_scopes keys) in
  match NewBundle m instance generation copies with
  | Err e => (Err e, withMemory (ZeroAll m copies) h)
  | Ok bundle =>
      match MarshalBundle m bundle with
      | Err e => (Err e, withMemory (ZeroBundle m bundle).2 h)
      | Ok payload =>
          let '(s, h) := foldl (pushOne payload (heldKeys (kr_scopes keys)))
                           (mkStep generation [] [] [] [] [], withMemory m h) (imap pair states) in
          (Ok s, withMemory (ZeroBundle (ho_mem h) bundle).2 h)
      end
  end.

End pushing.

(** ** The hand-over *)

(** Why a hand-over that held its new keys back did not go on to use them. *)
Inductive cause := heldMissed | heldNoneServing | heldChanged | heldUnrecorded.

Inductive why :=
| MissedBy (n : nat)
| EverySealed
| NoneAnswered
| SealedByThen
| NeverTook (replica : Z)
| PlanRefused (e : plan_error)
| NoLongerHeld (scopes : list string)
| NotSaved (e : string)
| SecondBundle (e : bundle_error).

Inductive problem :=
| NotReached (e : string)
| CannotPush (e : plan_error)
| NotRecorded (e : string)
| NoBundle (e : bundle_error).

Definition emptyStep : handOverStep := mkStep 0 [] [] [] [] [].

Record handOverResult := mkResult {
  hr_Problem : option problem;
  hr_Unsafe : bool;
  hr_Total : nat;
  hr_step : handOverStep;
  hr_Held : option handOverStep;
  hr_Activated : bool;
  hr_Cause : option (cause * why);
  hr_HeldOnly : list Z;
  hr_RecordErr : option string;
  hr_ForeignCopy : bool;
  hr_Unconfirmed : list Z;
  hr_LeftSealed : list Z
}.

Definition newResult (total : nat) : handOverResult := mkResult None false total emptyStep None false None [] None false [] [].

Definition failedWith (p : problem) (total : nat) : handOverResult :=
  let unsafe := match p with CannotPush _ => true | _ => false end in
  let foreign := match p with CannotPush e => foreignCopy e | _ => false end in
  mkResult (Some p) unsafe total emptyStep None false None [] None foreign [] [].

Definition stoppedAfter (held : handOverStep) (c : cause) (w : why) (total : nat) : handOverResult :=
  mkResult None false total held (Some held) false (Some (c, w)) [] None false [] [].

Definition Complete (r : handOverResult) : bool :=
  bool_decide (hr_Problem r = None) && hr_Activated r && bool_decide (length (hs_Loaded (hr_step r)) = hr_Total r).

Section handing.
Context {W : Type} `{GoRange} `{SealStateClient W} `{LedgerJson} `{BundleYaml}.
Context (instance : string) (total : nat) (opts : handOverOptions W) (dk : Z -> disk).

(** Asked again after the held keys went over: why they cannot be used yet, if they cannot. *)
Definition secondLook (keys : Keyring) (held : handOverStep) (states : list (option State)) : option (cause * why) :=
  if negb (existsb (fun st => bool_decide (is_Some st)) states) then Some (heldMissed, NoneAnswered)
  else if negb (existsb (fun st => match st with Some st => negb (Sealed st) | None => false end) states)
  then Some (heldNoneServing, SealedByThen)
  else match list_find (fun r : nat * option State => r.2 = None /\ Z.of_nat r.1 ∉ hs_Loaded held) (imap pair states) with
       | Some (_, (i, _)) => Some (heldMissed, NeverTook (Z.of_nat i))
       | None =>
           match planHandOver keys states ∅ with
           | Err e => Some (heldChanged, PlanRefused e)
           | Ok (Some (_, scopes)) => Some (heldChanged, NoLongerHeld scopes)
           | Ok None => None
           end
       end.

(** One replica that refused the keyring is asked what it holds. *)
Definition confirmOne (want : Keys) (acc : handOverResult * handOver W) (i : Z) : handOverResult * handOver W :=
  let '(r, h) := acc in
  let s := hr_step r in
  let '((st, e), w) := sk_State i (ho_world h) in
  let h := mkHandOver w (ho_mem h) (ho_ledger h) (ho_highest h) (ho_taken h) (ho_unanswered h) (ho_leaveSealed h) (ho_leftSealed h) in
  let result s unconfirmed := mkResult (hr_Problem r) (hr_Unsafe r) (hr_Total r) s (hr_Held r) (hr_Activated r) (hr_Cause r)
    (hr_HeldOnly r) (hr_RecordErr r) (hr_ForeignCopy r) unconfirmed (hr_LeftSealed r) in
  match e with
  | Some _ => (result s (hr_Unconfirmed r ++ [i]), h)
  | None =>
      if negb (Sealed st) && sameKeys (keysOf st) want then
        (result (mkStep (hs_Generation s) (merge_sort Z.le (hs_Loaded s ++ [i])) (hs_Waiting s) (hs_Unreached s)
                   (filter (fun j => j <> i) (hs_Refused s))
                   (map (fun rw => if rw_Ordinal rw =? i then mkRow i (rp_Phase st) (rp_Generation st) (rp_Scopes st) None None else rw) (hs_Rows s)))
           (hr_Unconfirmed r),
         mkHandOver (ho_world h) (ho_mem h) (ho_ledger h) (ho_highest h) (Z.max (ho_taken h) (rp_Generation st))
           (ho_unanswered h) (ho_leaveSealed h) (ho_leftSealed h))
      else (r, h)
  end.

Definition confirmRefused (keys : Keyring) (r : handOverResult) (h : handOver W) : handOverResult * handOver W :=
  foldl (confirmOne (heldKeys (kr_scopes keys))) (r, h) (hs_Refused (hr_step r)).

(** A replica that took the held keys and then missed the second push. *)
Definition isHeldOnly (held : handOverStep) (states : list (option State)) (rw : row) : bool :=
  bool_decide (is_Some (rw_Error rw)) && bool_decide (rw_Ordinal rw ∈ hs_Loaded held) &&
  match states !! Z.to_nat (rw_Ordinal rw) with Some (Some st) => negb (Sealed st) | _ => false end.

Definition markHeldOnly (held : handOverStep) (states : list (option State)) (r : handOverResult) : handOverResult :=
  let s := hr_step r in
  mkResult (hr_Problem r) (hr_Unsafe r) (hr_Total r)
    (mkStep (hs_Generation s) (hs_Loaded s) (hs_Waiting s) (hs_Unreached s) (hs_Refused s)
       (map (fun rw => if isHeldOnly held states rw then mkRow (rw_Ordinal rw) "unsealed" 0 [] None (rw_Error rw) else rw) (hs_Rows s)))
    (hr_Held r) (hr_Activated r) (hr_Cause r)
    (map rw_Ordinal (filter (fun rw => isHeldOnly held states rw = true) (hs_Rows s)))
    (hr_RecordErr r) (hr_ForeignCopy r) (hr_Unconfirmed r) (hr_LeftSealed r).

Definition withWorld (w : W) (h : handOver W) : handOver W :=
  mkHandOver w (ho_mem h) (ho_ledger h) (ho_highest h) (ho_taken h) (ho_unanswered h) (ho_leaveSealed h) (ho_leftSealed h).

(** The keyring itself; [held] is the push before it, if there was one. *)
Definition activate (keys : Keyring) (held : option handOverStep) (states : list (option State)) (h : handOver W)
    : handOverResult * handOver W :=
  let '(saved, h) := match op_beforeActivate opts with
                     | Some save => let '(e, w) := save (ho_world h) in (e, withWorld w h)
                     | None => (None, h)
                     end in
  match saved with
  | Some e => (mkResult None false total (default emptyStep held) held false (Some (heldUnrecorded, NotSaved e)) [] None false [] [], h)
  | None =>
      match push instance opts dk keys states h with
      | (Err e, h) =>
          (match held with
           | None => failedWith (NoBundle e) total
           | Some held => stoppedAfter held heldUnrecorded (SecondBundle e) total
           end, h)
      | (Ok s, h) =>
          let '(r, h) := confirmRefused keys (mkResult None false total s held true None [] None false [] []) h in
          (match held with Some held => markHeldOnly held states r | None => r end, h)
      end
  end.

(** The keys held back: a first push, and another look. *)
Definition holdFirst (keys held : Keyring) (states : list (option State)) (h : handOver W) : handOverResult * handOver W :=
  let '(saved, h) := match op_beforeHold opts with
                     | Some save => let '(e, w) := save held (ho_world h) in (e, withWorld w h)
                     | None => (None, h)
                     end in
  match saved with
  | Some e => (failedWith (NotRecorded e) total, h)
  | None =>
      match push instance opts dk held states h with
      | (Err e, h) => (failedWith (NoBundle e) total, h)
      | (Ok s, h) =>
          if negb (everyServingReplicaHolds s)
          then (stoppedAfter s heldMissed (MissedBy (length (hs_Unreached s) + length (hs_Refused s))) total, h)
          else if decide (hs_Loaded s = []) then (stoppedAfter s heldNoneServing EverySealed total, h)
          else
            let '(states, h) := readAll total h in
            match secondLook keys s states with
            | Some (c, w) => (stoppedAfter s c w total, h)
            | None => activate keys (Some s) states h
            end
      end
  end.

Definition handOverBody (keys : Keyring) (h : handOver W) : handOverResult * handOver W :=
  let '(states, h) := readAll total h in
  match planHandOver keys states (op_rotated opts) with
  | Err e => (failedWith (CannotPush e) total, h)
  | Ok plan =>
      let leave := op_unseal opts && negb (bool_decide (ho_unanswered h = ∅)) && negb (op_unchecked opts) in
      let h := mkHandOver (ho_world h) (ho_mem h) (ho_ledger h) (ho_highest h) (ho_taken h) (ho_unanswered h) leave (ho_leftSealed h) in
      match plan with
      | Some (held, _) => holdFirst keys held states h
      | None => activate keys None states h
      end
  end.

(** [open] is how opening the client fails, [recorded] the generation this machine has on record and [save] how
    recording another ends. *)
Definition handOverKeys (open : option string) (recorded : Z) (save : Z -> W -> option string * W) (keys : Keyring)
    (w : W) (m : memory) (ledger : option string) : handOverResult * handOver W * Z :=
  let h := mkHandOver w m ledger recorded 0 ∅ false [] in
  match open with
  | Some e => (failedWith (NotReached e) total, h, recorded)
  | None =>
      let '(r, h) := handOverBody keys h in
      let '(saved, h, recorded) :=
        if ho_taken h <=? recorded then (None, h, recorded)
        else let '(e, w) := save (ho_taken h) (ho_world h) in (e, withWorld w h, ho_taken h) in
      (mkResult (hr_Problem r) (hr_Unsafe r) (hr_Total r) (hr_step r) (hr_Held r) (hr_Activated r) (hr_Cause r)
         (hr_HeldOnly r) saved (hr_ForeignCopy r) (hr_Unconfirmed r) (ho_leftSealed h), h, recorded)
  end.

End handing.
