(* ===== verification/Fleet.v ===== *)
(** * The fleet of replicas

    What those who push keys rely on of the replicas they reach, and the vaults of
    [Vault] behind the surface of [Server] as an implementation of it. *)

From S2P Require Import Prelude Effect GoTime GoStrings Encoding Keyring KeyringFacts Material Bundle Identity Vault.
From S2P Require Server.
From S2P Require Import Replica.

(** ** What is relied on *)

(** A replica that may have restarted. *)
Definition stays (a b : option Keys) : Prop := b = a \/ b = None.

(** What a state says of what a replica serves. *)
Definition reported (st : State) (k : option Keys) : Prop :=
  match k with None => Replica.Sealed st = true | Some keys => Replica.Sealed st = false /\ keysOf st = keys end.

(** The keys a payload carries. *)
Definition carriesKeys `{BundleYaml} (payload : string) (k : Keys) : Prop :=
  exists m b m', ParseBundle payload m = (Ok b, m') /\ k = heldKeys (map (load m') (b_scopes b)).

(** A fleet answers truthfully, restarts when it pleases, and only a push gives a replica keys: those of the payload,
    and by a hand-over only when it serves. *)
Class Fleet (W : Type) `{SealStateClient W} `{BundleYaml} := {
  serves : W -> Z -> option Keys;
  fleet_State i w st e w' : sk_State i w = ((st, e), w') ->
    (forall j, stays (serves w j) (serves w' j)) /\ (e = None -> reported st (serves w' i));
  fleet_Unseal i payload intent w st e w' : sk_Unseal i payload intent w = ((st, e), w') ->
    (forall j, j <> i -> stays (serves w j) (serves w' j)) /\
    (stays (serves w i) (serves w' i) \/
     exists k, carriesKeys payload k /\ serves w' i = Some k /\
       (intent = IntentHandOver -> serves w i <> None)) /\
    (e = None -> reported st (serves w' i)) /\
    (Replica.NotServing e = true -> serves w' i = None)
}.

Lemma stays_refl a : stays a a.
Proof. by left. Qed.

Lemma stays_trans a b c : stays a b -> stays b c -> stays a c.
Proof. unfold stays. intros [->| ->] [->| ->]; tauto. Qed.

#[export] Instance stays_preorder : PreOrder stays.
Proof. split; [exact stays_refl|exact stays_trans]. Qed.

(** ** Vaults *)

(** What happens to a call: it arrives and is answered, it does not arrive, its answer is lost, or a replica restarts
    first. *)
Inductive weather :=
| Fine
| Unreached
| AnswerLost
| Restarts (replica : Z) (boot : result string string).

(** The replicas, the weather to come, and the clock of who calls. *)
Record Cluster := mkCluster {
  cl_replicas : gmap Z World;
  cl_weather : list weather;
  cl_now : Time
}.

(** What the control surface says of a vault; no keys are left out of the body. *)
Definition report (instance : string) (st : Vault.State) : State :=
  mkState instance (Server.phaseText (st_Phase st)) (st_Since st) (st_Generation st) (st_HoldReason st) (st_Scopes st)
    (st_Boot st) (if decide (st_Keys st = ∅) then None else Some (st_Keys st)).

(** The process started again, with its keys gone. *)
Definition restart (boot : result string string) (r : World) : World :=
  mkWorld ∅ (w_now r) (Vault.New (va_instance (w_vault r)) boot (w_now r)).

(** A payload that arrived: read, installed, and wiped. *)
Definition receive `{BundleYaml} (payload intent : string) : eff World Server.server_error Vault.State := fun r =>
  match ParseBundle payload (w_mem r) with
  | (Err e, m) => (Err (Server.FromBundle e), withMem m r)
  | (Ok b, m) =>
      let '(res, r) := Unseal (Some b) intent (withMem m r) in
      let r := withMem (ZeroBundle (w_mem r) b).2 r in
      (match res with Ok _ => Ok (stateOf (w_vault r)) | Err e => Err (Server.FromVault e) end, r)
  end.

Definition refusal (i : Z) (e : Server.server_error) : call_error :=
  Refusal i (Server.classify (Some e)).2 (Server.safeMessage e).

(** The next weather, and the cluster after a restart it may bring. *)
Definition next (c : Cluster) : weather * Cluster :=
  match cl_weather c with
  | [] => (Fine, c)
  | Restarts j boot :: l => (Fine, mkCluster (alter (restart boot) j (cl_replicas c)) l (cl_now c))
  | w :: l => (w, mkCluster (cl_replicas c) l (cl_now c))
  end.

Definition callState (i : Z) (c : Cluster) : (State * option call_error) * Cluster :=
  let '(w, c) := next c in
  match w, cl_replicas c !! i with
  | Fine, Some r => ((report (va_instance (w_vault r)) (stateOf (w_vault r)), None), c)
  | _, _ => ((zeroState, Some (Failed "no answer")), c)
  end.

Definition callUnseal `{BundleYaml} (i : Z) (payload intent : string) (c : Cluster) : (State * option call_error) * Cluster :=
  let '(w, c) := next c in
  match w, cl_replicas c !! i with
  | Unreached, _ | _, None => ((zeroState, Some (Failed "no answer")), c)
  | w, Some r =>
      let '(res, r) := receive payload intent r in
      let c := mkCluster (<[i := r]> (cl_replicas c)) (cl_weather c) (cl_now c) in
      match w, res with
      | Fine, Ok st => ((report (va_instance (w_vault r)) st, None), c)
      | Fine, Err e => ((zeroState, Some (refusal i e)), c)
      | _, _ => ((zeroState, Some (Failed "no answer")), c)
      end
  end.

#[export] Instance clusterClient `{BundleYaml} : SealStateClient Cluster := {|
  sk_State := callState;
  sk_Unseal := callUnseal;
  sk_now := cl_now
|}.

(** What a vault serves. *)
Definition vaultServes (v : Vault) : option Keys :=
  if decide (va_phase v = PhaseUnsealed) then Some (st_Keys (stateOf v)) else None.

Definition clusterServes (c : Cluster) (i : Z) : option Keys := cl_replicas c !! i ≫= fun r => vaultServes (w_vault r).

Lemma stateOf_keys m v : st_Keys (stateOf v) = heldKeys (map (load m) (va_scopes v)).
Proof.
  unfold stateOf, heldKeys. cbn [st_Keys]. generalize (∅ : Keys). induction (va_scopes v) as [|s ss IH]; intros k; [done|].
  cbn [map foldl]. rewrite <- IH. f_equal. unfold scopeKeys, load, loadKeyring. cbn [sc_keys kr_keys sc_Name].
  by rewrite map_map.
Qed.

Lemma report_reported v : reported (report (va_instance v) (stateOf v)) (vaultServes v).
Proof.
  unfold reported, vaultServes, Replica.Sealed, keysOf, report. cbn [rp_Phase rp_Keys].
  destruct (decide (va_phase v = PhaseUnsealed)) as [Hp|Hp].
  - change (st_Phase (stateOf v)) with (va_phase v). rewrite Hp. split; [done|]. case_decide as He; [by rewrite He|done].
  - change (st_Phase (stateOf v)) with (va_phase v). by destruct (va_phase v).
Qed.

(** Which errors have the code of a refused hand-over. *)
Lemma keyring_never_NotServing e : Server.SNotServing ∉ Server.keyringWraps e.
Proof. induction e; cbn; try set_solver. Qed.

Lemma parse_never_NotServing e : Server.SNotServing ∉ Server.parseWraps e.
Proof. induction e; cbn; try apply keyring_never_NotServing; try done; set_solver. Qed.

Lemma classify_NotServing e : (Server.classify (Some e)).2 = Server.CodeNotServing -> Server.SNotServing ∈ Server.wraps e.
Proof.
  unfold Server.classify. repeat match goal with |- (if ?b then _ else _).2 = _ -> _ => destruct b eqn:?; [try discriminate|] end;
    try discriminate. intros _. unfold Server.Is in *. by eapply bool_decide_eq_true_1.
Qed.

Lemma bundle_never_NotServing e : (Server.classify (Some (Server.FromBundle e))).2 <> Server.CodeNotServing.
Proof.
  intros Hc%classify_NotServing. revert Hc. cbn. destruct e; cbn; try set_solver.
  - intros [?|Hin]%elem_of_cons; [done|]. by apply keyring_never_NotServing in Hin.
  - intros [?|Hin]%elem_of_cons; [done|]. by apply parse_never_NotServing in Hin.
Qed.

Lemma vault_NotServing e : (Server.classify (Some (Server.FromVault e))).2 = Server.CodeNotServing -> exists p, e = Vault.NotServing p.
Proof.
  intros Hc%classify_NotServing. cbn in Hc. destruct e; cbn in Hc; try (exfalso; set_solver); [by eexists|].
  by apply keyring_never_NotServing in Hc.
Qed.

(** What becomes of an unseal: nothing, or the bundle's keys. *)
Lemma Unseal_outcome w b intent res w' : bundle_ok (w_mem w) b -> Forall (fun a => a ∈ dom (w_mem w)) (concat (map addrs (b_scopes b))) ->
  Unseal (Some b) intent w = (res, w') ->
  (w_vault w' = w_vault w \/
   vaultServes (w_vault w') = Some (heldKeys (map (load (w_mem w)) (b_scopes b))) /\ fits (va_phase (w_vault w)) intent) /\
  (forall p, res = Err (Vault.NotServing p) -> vaultServes (w_vault w') = None).
Proof.
  intros Hb Ha E. destruct (Unseal_spec w b intent Hb Ha) as (H1 & H2 & H3). rewrite E in H1, H2, H3.
  destruct (decide (accepts (w_vault w) b intent)) as [Hacc|Hacc].
  - destruct (decide (served (w_vault w) b)) as [Hs|Hs].
    + specialize (H2 Hacc Hs). injection H2 as -> ->. split; [by left|done].
    + destruct (H1 Hacc Hs) as (out & m & Ht & [= -> ->]). split; [|done]. right. cbn [w_vault]. split; [|apply Hacc].
      unfold vaultServes. cbn [va_phase]. rewrite decide_True by done. f_equal. rewrite (stateOf_keys m). cbn [va_scopes].
      by destruct (threaded_Clone (b_scopes b) (w_mem w) Ha (w_mem w) out m ltac:(done) Ht) as [_ ->].
  - destruct (H3 Hacc) as (e & [= -> ->]). split; [by left|]. intros p [= ->]. revert E. unfold Unseal. rewrite bind_get, bind_lift.
    destruct (checkUnseal (w_vault w) b intent) as [i|e0] eqn:Ec; [by apply checkUnseal_ok in Ec as [? _]|]. intros [= ->].
    revert Ec. unfold checkUnseal, vaultServes. destruct (b_generation b <? va_generation (w_vault w)); repeat (case_decide; try done; try tauto).
Qed.

(** A push that arrived. *)
Lemma receive_spec `{BundleYaml} payload intent r res r' : receive payload intent r = (res, r') ->
  (w_vault r' = w_vault r \/
   exists k, carriesKeys payload k /\ vaultServes (w_vault r') = Some k /\ fits (va_phase (w_vault r)) intent) /\
  (forall st, res = Ok st -> st = stateOf (w_vault r')) /\
  (forall e, res = Err e -> (Server.classify (Some e)).2 = Server.CodeNotServing -> vaultServes (w_vault r') = None).
Proof.
  unfold receive. destruct (ParseBundle payload (w_mem r)) as [[b|e] m] eqn:Ep.
  2:{ intros [= <- <-]. split_and!; [by left|done|]. intros e' [= <-] Hc. by apply bundle_never_NotServing in Hc. }
  destruct (ParseBundle_ok _ _ _ _ Ep) as (Hm & Hb & _). destruct (Unseal (Some b) intent (withMem m r)) as [res0 r0] eqn:Eu.
  destruct (Unseal_outcome (withMem m r) b intent res0 r0 Hb) as [Ho Hn]; [apply Forall_forall; apply (mt_in _ _ _ Hm)|done|].
  intros [= <- <-]. split_and!.
  - destruct Ho as [Ho|[Ho Hf]]; [by left|right]. eexists. split; [|by split]. by exists (w_mem r), b, m.
  - intros st. by destruct res0; intros [= <-].
  - intros e. destruct res0 as [|e0]; [done|]. intros [= <-] [p ->]%vault_NotServing. by apply (Hn p).
Qed.

Section cluster.
Context `{BundleYaml}.

Lemma restart_serves boot r : vaultServes (w_vault (restart boot r)) = None.
Proof. done. Qed.

Lemma next_stays c w c' : next c = (w, c') -> forall j, stays (clusterServes c j) (clusterServes c' j).
Proof.
  unfold next, clusterServes. destruct (cl_weather c) as [|[| | |i boot] l]; intros [= <- <-] j; cbn [cl_replicas]; try reflexivity.
  destruct (decide (i = j)) as [->|Hne]; [|by rewrite lookup_alter_ne].
  rewrite lookup_alter_eq. destruct (cl_replicas c !! j); [by right|by left].
Qed.

Lemma vaultServes_same v v' : v' = v -> vaultServes v' = vaultServes v.
Proof. by intros ->. Qed.

(** What a replica that received a push serves. *)
Lemma received_serves payload intent r res r' : receive payload intent r = (res, r') ->
  stays (vaultServes (w_vault r)) (vaultServes (w_vault r')) \/
  exists k, carriesKeys payload k /\ vaultServes (w_vault r') = Some k /\
    (intent = IntentHandOver -> vaultServes (w_vault r) <> None).
Proof.
  intros (Ho & _)%receive_spec. destruct Ho as [->|(k & Hk & Hs & Hf)]; [by left; left|]. right. exists k. split_and!; [done..|].
  intros ->. unfold vaultServes. destruct (va_phase (w_vault r)); [done|done|]. by cbn in Hf.
Qed.

#[export] Program Instance clusterFleet : Fleet Cluster := {| serves := clusterServes |}.
Next Obligation.
  intros i c st e c' E. cbn in E. unfold callState in E. destruct (next c) as [w c1] eqn:En. pose proof (next_stays _ _ _ En) as Hs.
  destruct w, (cl_replicas c1 !! i) as [r|] eqn:Er; injection E as <- <- <-; (split; [done|]); try done.
  intros _. unfold clusterServes. rewrite Er. apply report_reported.
Qed.
Next Obligation.
  intros i payload intent c st e c' E. cbn in E. unfold callUnseal in E. destruct (next c) as [w c1] eqn:En.
  pose proof (next_stays _ _ _ En) as Hs.
  assert (forall st0, (zeroState, Some (Failed "no answer"), c1) = (st0, e, c') ->
    (forall j, j <> i -> stays (clusterServes c j) (clusterServes c' j)) /\
    (stays (clusterServes c i) (clusterServes c' i) \/ exists k, carriesKeys payload k /\ clusterServes c' i = Some k /\
       (intent = IntentHandOver -> clusterServes c i <> None)) /\
    (e = None -> reported st (clusterServes c' i)) /\ (Replica.NotServing e = true -> clusterServes c' i = None)) as Hno.
  { intros st0 [= _ <- <-]. split_and!; [auto|by left|done|done]. }
  destruct (cl_replicas c1 !! i) as [r|] eqn:Er; [|destruct w; by apply (Hno st)].
  destruct (receive payload intent r) as [res r'] eqn:Ev.
  assert (w <> Unreached -> c' = mkCluster (<[i := r']> (cl_replicas c1)) (cl_weather c1) (cl_now c1) ->
    (forall j, j <> i -> stays (clusterServes c j) (clusterServes c' j)) /\
    (stays (clusterServes c i) (clusterServes c' i) \/ exists k, carriesKeys payload k /\ clusterServes c' i = Some k /\
       (intent = IntentHandOver -> clusterServes c i <> None))) as Hyes.
  { intros _ ->. split.
    - intros j Hj. unfold clusterServes at 2. cbn [cl_replicas]. rewrite lookup_insert_ne by done. apply Hs.
    - assert (clusterServes c1 i = vaultServes (w_vault r)) as E1 by (unfold clusterServes; by rewrite Er).
      assert (clusterServes (mkCluster (<[i := r']> (cl_replicas c1)) (cl_weather c1) (cl_now c1)) i = vaultServes (w_vault r')) as E2
        by (unfold clusterServes; cbn; by rewrite lookup_insert_eq).
      rewrite E2. pose proof (Hs i) as Hi. rewrite E1 in Hi. destruct (received_serves _ _ _ _ _ Ev) as [Hst|(k & Hk & Hr & Hh)].
      + left. by etrans.
      + right. exists k. split_and!; [done..|]. intros Hint Hn. apply (Hh Hint). destruct Hi as [Hi|Hi]; congruence. }
  destruct (receive_spec _ _ _ _ _ Ev) as (_ & Hok & Herr).
  destruct w; [| |destruct res; injection E as <- <- <-; destruct (Hyes ltac:(done) eq_refl); by split_and!
    |exfalso; revert En; unfold next; by destruct (cl_weather c) as [|[] ?]].
  - assert (clusterServes (mkCluster (<[i := r']> (cl_replicas c1)) (cl_weather c1) (cl_now c1)) i = vaultServes (w_vault r')) as E2
      by (unfold clusterServes; cbn; by rewrite lookup_insert_eq).
    destruct res as [st0|e0]; injection E as <- <- <-; destruct (Hyes ltac:(done) eq_refl) as [H1 H2]; split_and!; try done; rewrite ?E2.
    + intros _. rewrite (Hok st0 eq_refl). apply report_reported.
    + unfold Replica.NotServing, refusedWith, refusal. cbn. intros Hc%bool_decide_eq_true_1. injection Hc as Hc.
      by eapply (Herr e0).
  - by apply (Hno st).
Qed.

End cluster.
