(* ===== verification/HandOverFacts.v ===== *)
(** * What a hand-over keeps

    Pushing a keyring as [HandOver] plans it never leaves two replicas that cannot
    read what the other writes, and takes no key from one that uses it: whatever
    pushes fail or get lost, and however replicas restart meanwhile. *)

From Stdlib Require Import Ascii.
From S2P Require Import Prelude Effect GoTime GoStrings Encoding LogicalKey Keyring KeyringFacts KeyringFile.
From S2P Require Import Material Bundle Identity Vault Replica HandOver Fleet.

(** ** The plan *)

(** A keyring that can be pushed beside what serves. *)
Definition fits_beside (k : Keyring) (states : list (option State)) : Prop := forall st, Some st ∈ states -> Sealed st = false ->
  covers (heldKeys (kr_scopes k)) (keysOf st) /\ agree (heldKeys (kr_scopes k)) (keysOf st).

Lemma lacking_none mine theirs : lacking mine theirs = None -> forall id, id ∈ theirs -> is_Some (mine !! id).
Proof.
  unfold lacking. intros E%fmap_None%list_find_None id Hid. rewrite Forall_forall in E. specialize (E id Hid). cbn in E.
  destruct (mine !! id); [by eexists|done].
Qed.

Lemma checkServed_spec keys i held name theirs : scopes_ok (kr_scopes keys) -> held !! name = Some theirs ->
  checkServed keys i held name = Ok tt ->
  exists s, s ∈ kr_scopes keys /\ sc_Name s = name /\ forall id, id ∈ theirs -> id ∈ scopeKeys s.
Proof.
  intros [Hv Hn _] Ht. unfold checkServed. rewrite Ht. change (default [] (Some theirs)) with theirs.
  destruct (heldByScope (kr_scopes keys) !! name) as [mine|] eqn:E; [|done].
  apply (foldl_insert_elem sc_Name keysByID _ _ _ Hn) in E as (s & Hs & <- & ->).
  destruct (_ && _); [done|]. destruct (lacking _ theirs) as [id|] eqn:El; [done|]. intros _.
  exists s. split; [done|]. split; [done|]. intros id Hid. destruct (lacking_none _ _ El id Hid) as [e He].
  assert (ScopeValid s = Ok tt) as Hsv by (by eapply Forall_forall in Hv). destruct (scope_keys s Hsv) as (e0 & rest & Ek & Hd).
  apply keysByID_elem in He as [He <-]; [|unfold scopeKeys; by rewrite Ek]. apply list_elem_of_fmap. by exists e.
Qed.

Lemma newestUsed_spec holders previous keks e : newestUsed holders previous keks = Some e -> e ∈ keks /\ heldByAll holders e = true.
Proof.
  unfold newestUsed. assert (forall acc, (forall c, acc = Some c -> c ∈ keks /\ heldByAll holders c = true) ->
    forall l, (forall x, x ∈ l -> x ∈ keks) -> forall c, foldl (fun chosen e =>
      if heldByAll holders e && (inUse holders e || bool_decide (previous = Some (ke_ID e)))
         && match chosen with None => true | Some c => After (ke_Created e) (ke_Created c) end
      then Some e else chosen) acc l = Some c -> c ∈ keks /\ heldByAll holders c = true) as Hf.
  { intros acc Hacc l. revert acc Hacc. induction l as [|x l IH]; intros acc Hacc Hl c; [apply Hacc|]. cbn [foldl]. apply IH.
    - intros c'. destruct (heldByAll holders x) eqn:Eh; cbn [andb]; [|apply Hacc]. destruct (_ && _); [|apply Hacc].
      intros [= <-]. split; [apply Hl; by left|done].
    - intros y Hy. apply Hl. by right. }
  by apply Hf.
Qed.

Lemma holdScope_spec states rotated s : ScopeValid s = Ok tt ->
  (holdScope states rotated s = Ok None ->
     exists e, head (kr_keys (sc_keys s)) = Some e /\ heldByAll (holdersOf states (sc_Name s)) e = true) /\
  (forall e, holdScope states rotated s = Ok (Some e) -> e ∈ kr_keys (sc_keys s) /\ heldByAll (holdersOf states (sc_Name s)) e = true).
Proof.
  intros (e0 & rest & Ek & _)%scope_keys. unfold holdScope. rewrite Ek.
  destruct (bool_decide (rotated !! sc_Name s = None) && heldByAll (holdersOf states (sc_Name s)) e0) eqn:Ec.
  { apply andb_true_iff in Ec as [_ Hh]. split; [by exists e0|done]. }
  destruct (newestUsed _ _ (e0 :: rest)) as [e|] eqn:En; [|destruct (holdersOf states (sc_Name s)) as [|h hs] eqn:Eh; [|by split]].
  - split; [by destruct (holdersOf _ _), (rotated !! sc_Name s)|]. apply newestUsed_spec in En as [? ?].
    intros e'. destruct (holdersOf _ _), (rotated !! sc_Name s); intros [= <-]; by split.
  - destruct (rotated !! sc_Name s) as [id|]; [|by split]. destruct (last _) as [e|] eqn:El; [|by split].
    split; [done|]. intros e' [= <-]. split; [|done]. apply last_Some in El as [l El].
    assert (e ∈ filter (fun e => ke_ID e = id) (e0 :: rest)) as Hin by (rewrite El; apply elem_of_app; right; by left).
    by apply list_elem_of_filter in Hin as [_ ?].
Qed.

Lemma holdStep_fold states rotated ss : forall hold names hold' names', NoDup (map sc_Name ss) ->
  (forall s, s ∈ ss -> hold !! sc_Name s = None) ->
  foldM (holdStep states rotated) (hold, names) ss = Ok (hold', names') ->
  (forall name, name ∉ map sc_Name ss -> hold' !! name = hold !! name) /\
  forall s, s ∈ ss -> (holdScope states rotated s = Ok None /\ hold' !! sc_Name s = None) \/
    exists e, holdScope states rotated s = Ok (Some e) /\ hold' !! sc_Name s = Some (ke_ID e).
Proof.
  induction ss as [|s ss IH]; intros hold names hold' names' Hn Hno E; cbn [foldM] in E.
  { injection E as <- <-. split; [done|]. by intros s ?%elem_of_nil. }
  cbn [map] in Hn. apply NoDup_cons in Hn as [Hs Hn]. apply bind_ok in E as ([h1 n1] & E1 & E). unfold holdStep in E1.
  apply bind_ok in E1 as (chosen & Ec & E1).
  assert (forall t, t ∈ ss -> sc_Name t <> sc_Name s) as Hne.
  { intros t Ht He. apply Hs. rewrite <- He. apply list_elem_of_fmap. by exists t. }
  destruct chosen as [e|]; injection E1 as <- <-.
  - apply IH in E as [Hout Hin]; [|done|intros t Ht; cbn; rewrite lookup_insert_ne by (by intros ?; eapply Hne); apply Hno; by right].
    split.
    + intros name Hnot. cbn [map] in Hnot. rewrite Hout by set_solver. cbn. apply lookup_insert_ne. set_solver.
    + intros t [->|Ht]%elem_of_cons; [|by apply Hin]. right. exists e. split; [done|]. rewrite Hout by done. cbn. apply lookup_insert_eq.
  - apply IH in E as [Hout Hin]; [|done|intros t Ht; apply Hno; by right]. split.
    + intros name Hnot. apply Hout. cbn [map] in Hnot. set_solver.
    + intros t [->|Ht]%elem_of_cons; [|by apply Hin]. left. split; [done|]. rewrite Hout by done. apply Hno. by left.
Qed.

Lemma holdersOf_elem states st name theirs : Some st ∈ states -> Sealed st = false -> keysOf st !! name = Some theirs ->
  theirs ∈ holdersOf states name.
Proof.
  intros Hst Hs Ht. unfold holdersOf. apply list_elem_of_omap. exists (Some st). split; [done|]. by rewrite Hs.
Qed.

Lemma heldByAll_elem holders e theirs : heldByAll holders e = true -> theirs ∈ holders -> hexID e ∈ theirs.
Proof.
  unfold heldByAll. intros Hh Hin. apply forallb_forall with (x := theirs) in Hh; [|by apply list_elem_of_In].
  by apply bool_decide_eq_true in Hh.
Qed.

(** Two keyrings of the same scopes, each with the same keys. *)
Definition same_keys (k m : Keyring) : Prop :=
  Forall2 (fun s s' => sc_Name s' = sc_Name s /\ kr_keys (sc_keys s') ≡ₚ kr_keys (sc_keys s) /\
    kr_nameKeys (sc_keys s') = kr_nameKeys (sc_keys s)) (kr_scopes k) (kr_scopes m).

Lemma same_keys_refl k : same_keys k k.
Proof. unfold same_keys. induction (kr_scopes k); by constructor. Qed.

Lemma same_keys_names k m : same_keys k m -> map sc_Name (kr_scopes m) = map sc_Name (kr_scopes k).
Proof. unfold same_keys. intros H. induction H as [|s s' l l' [Hn _] _ IH]; [done|]. cbn. by rewrite Hn, IH. Qed.

Lemma same_keys_elem k m s' : same_keys k m -> s' ∈ kr_scopes m -> exists s, s ∈ kr_scopes k /\ sc_Name s' = sc_Name s /\
  kr_keys (sc_keys s') ≡ₚ kr_keys (sc_keys s).
Proof.
  unfold same_keys. intros Hf [i Hi]%list_elem_of_lookup. destruct (Forall2_lookup_r _ _ _ _ _ Hf Hi) as (s & Hs & Hn & Hp & _).
  exists s. split; [by eapply list_elem_of_lookup_2|done].
Qed.

Lemma same_keys_elem' k m s : same_keys k m -> s ∈ kr_scopes k -> exists s', s' ∈ kr_scopes m /\ sc_Name s' = sc_Name s /\
  kr_keys (sc_keys s') ≡ₚ kr_keys (sc_keys s).
Proof.
  unfold same_keys. intros Hf [i Hi]%list_elem_of_lookup. destruct (Forall2_lookup_l _ _ _ _ _ Hf Hi) as (s' & Hs & Hn & Hp & _).
  exists s'. split; [by eapply list_elem_of_lookup_2|done].
Qed.

(** A keyring fits beside replicas that hold no key but its own, when each of its active keys is one they all hold. *)
Lemma fits_beside_intro keys m states : scopes_ok (kr_scopes keys) -> same_keys keys m ->
  (forall st name theirs, Some st ∈ states -> Sealed st = false -> keysOf st !! name = Some theirs ->
     exists s, s ∈ kr_scopes keys /\ sc_Name s = name /\ forall id, id ∈ theirs -> id ∈ scopeKeys s) ->
  (forall s e, s ∈ kr_scopes m -> head (kr_keys (sc_keys s)) = Some e -> heldByAll (holdersOf states (sc_Name s)) e = true) ->
  fits_beside m states.
Proof.
  intros Hok Hsame Hserved Hact st Hst Hs. pose proof (same_keys_names _ _ Hsame) as Hnames.
  assert (NoDup (map sc_Name (kr_scopes m))) as Hn by (rewrite Hnames; apply Hok).
  assert (covers (heldKeys (kr_scopes m)) (keysOf st)) as Hc.
  { intros name theirs Ht. destruct (Hserved st name theirs Hst Hs Ht) as (s & Hin & <- & Hall).
    destruct (same_keys_elem' _ _ _ Hsame Hin) as (s' & Hin' & Hna & Hp). exists (scopeKeys s'). split.
    - apply heldKeys_elem; [done|]. by exists s'.
    - intros id Hid. apply Hall in Hid. unfold scopeKeys in *. rewrite list_elem_of_fmap in *.
      destruct Hid as (e & -> & He). exists e. split; [done|]. by rewrite Hp. }
  split; [done|]. split; [by apply covers_reads|].
  intros name theirs mine id Ht Hm Hh. apply heldKeys_elem in Hm as (s & Hin & <- & ->); [|done].
  unfold scopeKeys in Hh. destruct (kr_keys (sc_keys s)) as [|e l] eqn:Ek; [done|]. cbn in Hh. injection Hh as <-.
  eapply heldByAll_elem; [eapply (Hact s e); [done|by rewrite Ek]|]. by eapply holdersOf_elem.
Qed.

Lemma plan_fits `{GoRange} keys states rotated plan : keyring_ok keys -> planHandOver keys states rotated = Ok plan ->
  match plan with
  | None => fits_beside keys states
  | Some (held, _) => fits_beside held states /\ same_keys keys held /\ keyring_ok held
  end.
Proof.
  intros Hk. pose proof (ko_scopes _ Hk) as Hok. unfold planHandOver. intros E.
  apply bind_ok in E as ([] & Hc & E). apply bind_ok in E as ([hold names] & Hf & E).
  assert (forall st name theirs, Some st ∈ states -> Sealed st = false -> keysOf st !! name = Some theirs ->
     exists s, s ∈ kr_scopes keys /\ sc_Name s = name /\ forall id, id ∈ theirs -> id ∈ scopeKeys s) as Hserved.
  { intros st name theirs [i Hi]%list_elem_of_lookup Hs Ht.
    apply (foldM_checks (fun '(i, st) => checkReplica keys (Z.of_nat i) st)) in Hc. rewrite Forall_forall in Hc.
    assert ((i, Some st) ∈ imap pair states) as Hin by (apply list_elem_of_lookup; exists i; by rewrite list_lookup_imap, Hi).
    specialize (Hc _ Hin). cbn in Hc. rewrite Hs in Hc. destruct (outdatedImage st); [done|].
    apply (foldM_checks (fun name => checkServed keys (Z.of_nat i) (keysOf st) name)) in Hc. rewrite Forall_forall in Hc.
    eapply checkServed_spec; [done..|]. apply Hc, sortedNames_elem. by eexists. }
  destruct (holdStep_fold states rotated (kr_scopes keys) ∅ [] hold names (so_names _ Hok)) as [Hout Hin]; [intros; apply lookup_empty|done|].
  pose proof (so_valid _ Hok) as Hv. rewrite Forall_forall in Hv.
  case_decide as Hh.
  - injection E as <-. apply (fits_beside_intro keys keys); [done|apply same_keys_refl|done|].
    intros s e Hs He. destruct (Hin s Hs) as [[Hnone _]|(e' & _ & Hl)]; [|by rewrite Hh, lookup_empty in Hl].
    destruct (proj1 (holdScope_spec states rotated s (Hv s Hs)) Hnone) as (e' & He' & ?). congruence.
  - apply bind_ok in E as (held & Ew & E). injection E as <-.
    destruct (WithScopeActive keys hold) as [m|] eqn:Ew'; [|done]. injection Ew as <-.
    apply activation_only_reorders in Ew' as (Hvm%Valid_spec & _ & _ & Hf2 & _); [|by apply Valid_spec].
    assert (same_keys keys m) as Hsame.
    { eapply Forall2_impl; [exact Hf2|]. intros s s' ((Hna & _) & Hnk & _ & Hp & _). by split_and!. }
    split; [|by split]. apply (fits_beside_intro keys m); [done..|].
    intros s' e [i Hi]%list_elem_of_lookup He. destruct (Forall2_lookup_r _ _ _ _ _ Hf2 Hi) as (s & Hs & (Hna & _) & _ & _ & Hp & _ & Ha).
    rewrite Hna. apply list_elem_of_lookup_2 in Hs as Hs'. destruct (holdScope_spec states rotated s (Hv s Hs')) as [HN HS].
    destruct (Hin s Hs') as [[Hnone Hl]|(e' & He' & Hl)]; rewrite Hl in Ha.
    + subst s'. destruct (HN Hnone) as (e'' & ? & ?). congruence.
    + destruct Ha as (e1 & He1 & Hid). assert (e1 = e) as -> by congruence. destruct (HS e' He') as [Hin' Hh'].
      unfold heldByAll in *. assert (hexID e = hexID e') as ->; [unfold hexID; by rewrite Hid|done].
Qed.

(** ** Calls *)

Lemma scopeKeysMatch_sets got want : NoDup want -> scopeKeysMatch got want = true -> forall id, id ∈ got <-> id ∈ want.
Proof.
  intros Hn. unfold scopeKeysMatch. destruct got as [|g got], want as [|w want]; [done..|].
  set (G := g :: got). set (V := w :: want) in *. intros [[[_ _]%andb_true_iff Hall]%andb_true_iff Hsz%bool_decide_eq_true]%andb_true_iff.
  assert (forall id, id ∈ V -> id ∈ G) as Hsub.
  { intros id Hid. apply forallb_forall with (x := id) in Hall; [|by apply list_elem_of_In]. by apply bool_decide_eq_true in Hall. }
  assert ((list_to_set V : gset string) = list_to_set G) as Heq.
  { apply set_subseteq_size_eq; [set_solver|]. rewrite Hsz, size_list_to_set by done. done. }
  intros id. split; [|apply Hsub]. intros Hid. assert (id ∈ (list_to_set G : gset string)) as Hid' by set_solver. rewrite <- Heq in Hid'. set_solver.
Qed.

Section calls.
Context {W : Type} `{Client : SealStateClient W} `{LedgerJson} `{BundleYaml} `{F : !Fleet W}.
Context (instance : string) (total : nat) (opts : handOverOptions W) (dk : Z -> disk).

(** What a replica said, between what it served before and what it serves now. *)
Definition told (before : option Keys) (st : State) (now : option Keys) : Prop :=
  exists k, stays before k /\ reported st k /\ stays k now.

Lemma told_later before st now later : told before st now -> stays now later -> told before st later.
Proof. intros (k & Hb & Hr & Hn) Hl. exists k. split_and!; [done..|by etrans]. Qed.

Lemma told_stays before st now : told before st now -> stays before now.
Proof. intros (k & Hb & _ & Hn). by etrans. Qed.

Lemma told_sealed before st now : told before st now -> Replica.Sealed st = true -> now = None.
Proof. intros (k & _ & Hr & Hn) Hs. destruct k as [k|]; [destruct Hr; congruence|]. by destruct Hn. Qed.

Lemma told_serving before st k : told before st (Some k) -> Replica.Sealed st = false /\ keysOf st = k.
Proof. intros (k' & _ & Hr & [E|E]); [|done]. rewrite <- E in Hr. exact Hr. Qed.

Lemma readOne_fold n : forall states (h : handOver W) states' h',
  foldl readOne (states, h) (seqZ (Z.of_nat (length states)) (Z.of_nat n)) = (states', h') ->
  (forall j, stays (serves (ho_world h) j) (serves (ho_world h') j)) /\
  (exists answers, states' = states ++ answers /\ length answers = n /\
     forall i st, answers !! i = Some (Some st) ->
       told (serves (ho_world h) (Z.of_nat (length states + i))) st (serves (ho_world h') (Z.of_nat (length states + i)))) /\
  ho_mem h' = ho_mem h /\ ho_leaveSealed h' = ho_leaveSealed h.
Proof.
  induction n as [|n IH]; intros states h states' h' E.
  { cbn in E. injection E as <- <-. split_and!; try done. exists []. rewrite app_nil_r. by split_and!. }
  rewrite seqZ_cons in E by lia. replace (Z.pred (Z.of_nat (S n))) with (Z.of_nat n) in E by lia.
  replace (Z.succ (Z.of_nat (length states))) with (Z.of_nat (S (length states))) in E by lia. cbn [foldl] in E. unfold readOne at 2 in E.
  destruct (sk_State (Z.of_nat (length states)) (ho_world h)) as [[st e] w] eqn:Es.
  destruct (fleet_State _ _ _ _ _ Es) as [Hst Hrep].
  assert (forall answer (h1 : handOver W), ho_world h1 = w -> ho_mem h1 = ho_mem h -> ho_leaveSealed h1 = ho_leaveSealed h ->
    (forall st1, answer = Some st1 -> e = None /\ st1 = st) ->
    foldl readOne (states ++ [answer], h1) (seqZ (Z.of_nat (S (length states))) (Z.of_nat n)) = (states', h') ->
    (forall j, stays (serves (ho_world h) j) (serves (ho_world h') j)) /\
    (exists answers, states' = states ++ answers /\ length answers = S n /\
     forall i st, answers !! i = Some (Some st) ->
       told (serves (ho_world h) (Z.of_nat (length states + i))) st (serves (ho_world h') (Z.of_nat (length states + i)))) /\
    ho_mem h' = ho_mem h /\ ho_leaveSealed h' = ho_leaveSealed h) as Hgo.
  { intros answer h1 Hw Hm Hl Hans E1. replace (S (length states)) with (length (states ++ [answer])) in E1 by (rewrite length_app; cbn; lia).
    apply IH in E1 as (Hs1 & (answers & -> & Hlen & Ht) & Hm1 & Hl1). rewrite Hw in Hs1, Ht. split_and!; [|exists (answer :: answers)|congruence..].
    { intros j. etrans; [apply Hst|apply Hs1]. }
    rewrite <- app_assoc. split; [done|]. split; [cbn; lia|]. rewrite length_app in Ht. cbn [length] in Ht.
    intros [|i] st1; cbn [lookup list_lookup].
    - intros [= ->]. destruct (Hans st1 eq_refl) as [-> ->]. rewrite Nat.add_0_r. exists (serves w (Z.of_nat (length states))).
      split_and!; [done|by apply Hrep|done].
    - intros Hi. specialize (Ht i st1 Hi). replace (length states + S i)%nat with (length states + 1 + i)%nat by lia.
      destruct Ht as (k & Hb & ? & ?). exists k. split_and!; [etrans; [apply Hst|exact Hb]|done..]. }
  destruct e as [why|]; (eapply Hgo; [| | | |exact E]); try done. intros st1 [= <-]. done.
Qed.

Lemma readAll_spec h states h' : readAll total h = (states, h') ->
  (forall j, stays (serves (ho_world h) j) (serves (ho_world h') j)) /\ length states = total /\
  (forall i st, states !! i = Some (Some st) -> told (serves (ho_world h) (Z.of_nat i)) st (serves (ho_world h') (Z.of_nat i))) /\
  ho_mem h' = ho_mem h /\ ho_leaveSealed h' = ho_leaveSealed h.
Proof.
  unfold readAll. intros E. apply (readOne_fold total []) in E as (Hs & (answers & -> & Hlen & Ht) & Hm & Hl). by split_and!.
Qed.

(** ** Pushes *)

Definition told_of (l : list (nat * option State)) (j : Z) : Prop := exists i st, (i, Some st) ∈ l /\ j = Z.of_nat i.

Lemma told_of_snoc l x j : told_of l j -> told_of (l ++ [x]) j.
Proof. intros (i & st & Hin & ->). exists i, st. split; [|done]. apply elem_of_app. by left. Qed.

Lemma told_of_last l i st : told_of (l ++ [(i, Some st)]) (Z.of_nat i).
Proof. exists i, st. split; [|done]. apply elem_of_app. right. by left. Qed.

(** After the replicas of [l] were pushed to; [keys] are those sent. *)
Record pushed (keys : Keys) (h0 : handOver W) (l : list (nat * option State)) (s : handOverStep) (h : handOver W) : Prop := {
  pu_world j : stays (serves (ho_world h0) j) (serves (ho_world h) j) \/ (serves (ho_world h) j = Some keys /\ told_of l j);
  pu_loaded j : j ∈ hs_Loaded s -> told_of l j /\ forall k, serves (ho_world h) j = Some k -> sameKeys k keys = true;
  pu_waiting j : j ∈ hs_Waiting s -> told_of l j /\ serves (ho_world h) j = None;
  pu_all i st : (i, st) ∈ l ->
    match st with None => Z.of_nat i ∈ hs_Unreached s | Some _ => Z.of_nat i ∈ hs_Loaded s ++ hs_Waiting s ++ hs_Refused s end;
  pu_once : NoDup (hs_Loaded s ++ hs_Refused s) /\ forall j, j ∈ hs_Refused s -> told_of l j
}.

(** A push that leaves the other replicas and gives this one its keys, or none. *)
Lemma pushed_call keys h0 l s h i st w o (h' : handOver W) pushed_st : pushed keys h0 l s h -> i ∉ l.*1 ->
  ho_world h' = w ->
  (forall j, j <> Z.of_nat i -> stays (serves (ho_world h) j) (serves w j)) ->
  (stays (serves (ho_world h) (Z.of_nat i)) (serves w (Z.of_nat i)) \/ serves w (Z.of_nat i) = Some keys) ->
  (o = TookThem -> forall k, serves w (Z.of_nat i) = Some k -> sameKeys k keys = true) ->
  (o = SealedMeanwhile -> serves w (Z.of_nat i) = None) ->
  pushed keys h0 (l ++ [(i, Some st)]) (pushStep s (Z.of_nat i) pushed_st o) h'.
Proof.
  intros [Pw Pl Pq Pa [Pn Pr]] Hi Hw Hoth Hthis Htook Hsm. subst w.
  assert (forall j, told_of l j -> j <> Z.of_nat i) as Hne.
  { intros j (i' & st' & Hin & ->) E. apply Hi. apply list_elem_of_fmap. exists (i', Some st'). split; [cbn; lia|done]. }
  split.
  - intros j. destruct (decide (j = Z.of_nat i)) as [->|Hj].
    + destruct Hthis as [Hst|Hk]; [|right; split; [done|apply told_of_last]].
      destruct (Pw (Z.of_nat i)) as [Hs|[_ Ht]]; [left; by etrans|]. by apply Hne in Ht.
    + destruct (Pw j) as [Hs|[Hk Ht]]; [left; etrans; [exact Hs|by apply Hoth]|].
      destruct (Hoth j Hj) as [E|E]; rewrite E; [right; split; [done|by apply told_of_snoc]|left; by right].
  - intros j Hj. assert (j ∈ hs_Loaded s \/ (o = TookThem /\ j = Z.of_nat i)) as [Hin|[-> ->]].
    { destruct o; cbn [pushStep hs_Loaded] in Hj; [|by left|by left]. apply elem_of_app in Hj as [?| ->%list_elem_of_singleton]; auto. }
    + destruct (Pl j Hin) as [Ht Hk]. split; [by apply told_of_snoc|]. intros k E. destruct (Hoth j (Hne j Ht)) as [E'|E']; [|congruence].
      apply Hk. congruence.
    + split; [apply told_of_last|]. by apply Htook.
  - intros j Hj. assert (j ∈ hs_Waiting s \/ (o = SealedMeanwhile /\ j = Z.of_nat i)) as [Hin|[-> ->]].
    { destruct o; cbn [pushStep hs_Waiting] in Hj; [by left| |by left]. apply elem_of_app in Hj as [?| ->%list_elem_of_singleton]; auto. }
    + destruct (Pq j Hin) as [Ht Hk]. split; [by apply told_of_snoc|]. destruct (Hoth j (Hne j Ht)) as [E'|E']; congruence.
    + split; [apply told_of_last|]. by apply Hsm.
  - intros i' st' [Hin|[= -> ->]%list_elem_of_singleton]%elem_of_app.
    + specialize (Pa i' st' Hin). destruct st'; [|by destruct o]. rewrite !elem_of_app in Pa |- *.
      destruct o; cbn [pushStep hs_Loaded hs_Waiting hs_Refused]; rewrite ?elem_of_app; tauto.
    + rewrite !elem_of_app. destruct o; cbn [pushStep hs_Loaded hs_Waiting hs_Refused]; rewrite ?elem_of_app, ?list_elem_of_singleton; tauto.
  - assert (Z.of_nat i ∉ hs_Loaded s ++ hs_Refused s) as Hnot.
    { intros [Hin|Hin]%elem_of_app; [by apply (Hne _ (proj1 (Pl _ Hin)))|by apply (Hne _ (Pr _ Hin))]. }
    destruct o; cbn [pushStep hs_Loaded hs_Refused]; (split; [|]).
    + rewrite <- app_assoc. cbn [app]. rewrite <- Permutation_middle. by apply NoDup_cons.
    + intros j Hj. by apply told_of_snoc, Pr.
    + done.
    + intros j Hj. by apply told_of_snoc, Pr.
    + rewrite app_assoc, (Permutation_app_comm _ [_]). by apply NoDup_cons.
    + intros j [Hj| ->%list_elem_of_singleton]%elem_of_app; [by apply told_of_snoc, Pr|apply told_of_last].
Qed.

Lemma pushTo_spec payload keys h0 l s h i st s' h' : pushed keys h0 l s h -> i ∉ l.*1 ->
  (forall k, carriesKeys payload k -> k = keys) ->
  pushTo instance opts dk payload keys (s, h) (Z.of_nat i) st = (s', h') -> pushed keys h0 (l ++ [(i, Some st)]) s' h'.
Proof.
  intros Hp Hi Hpay. unfold pushTo. destruct (sk_Unseal _ payload _ (ho_world h)) as [[st' e] w] eqn:Eu.
  destruct (fleet_Unseal _ _ _ _ _ _ _ Eu) as (Hoth & Hthis & Hrep & Hns). destruct (AppendLedger _ _ _) as [r ledger].
  intros [= <- <-]. eapply pushed_call; [done|done|reflexivity|exact Hoth| | |].
  - destruct Hthis as [?|(k & Hk & Hserve & _)]; [by left|right]. by rewrite (Hpay k Hk) in Hserve.
  - unfold outcomeOf. destruct (negb (op_unseal opts) && NotServing e); [done|]. destruct e; [done|].
    destruct (outdatedImage st'); [done|]. destruct (sameKeys (keysOf st') keys) eqn:Hsame; [|done].
    intros _ k E. cbn [ho_world] in E. specialize (Hrep eq_refl). rewrite E in Hrep. destruct Hrep as [_ <-]. done.
  - unfold outcomeOf. destruct (negb (op_unseal opts) && NotServing e) eqn:Hb.
    + intros _. apply Hns. by apply andb_true_iff in Hb as [_ ?].
    + destruct e; [done|]. destruct (outdatedImage st'); [done|]. by destruct (sameKeys _ _).
Qed.

(** A replica that is not pushed to, as [told] says it is sealed. *)
Lemma pushed_waits keys h0 l s h i st rw (h' : handOver W) : pushed keys h0 l s h -> i ∉ l.*1 ->
  serves (ho_world h0) (Z.of_nat i) = None ->
  ho_world h' = ho_world h ->
  pushed keys h0 (l ++ [(i, Some st)])
    (mkStep (hs_Generation s) (hs_Loaded s) (hs_Waiting s ++ [Z.of_nat i]) (hs_Unreached s) (hs_Refused s) (hs_Rows s ++ [rw])) h'.
Proof.
  intros [Pw Pl Pq Pa [Pn Pr]] Hi Hn Hw. split; cbn [hs_Loaded hs_Waiting hs_Refused hs_Unreached]; rewrite ?Hw.
  - intros j. destruct (Pw j) as [?|[? ?]]; [by left|right; split; [done|by apply told_of_snoc]].
  - intros j Hj. destruct (Pl j Hj). split; [by apply told_of_snoc|done].
  - intros j [Hj| ->%list_elem_of_singleton]%elem_of_app.
    + destruct (Pq j Hj). split; [by apply told_of_snoc|done].
    + split; [apply told_of_last|]. destruct (Pw (Z.of_nat i)) as [[E|E]|[_ (i' & st' & Hin & E)]]; [congruence|done|].
      destruct Hi. apply list_elem_of_fmap. exists (i', Some st'). split; [cbn; lia|done].
  - intros i' st' [Hin|[= -> ->]%list_elem_of_singleton]%elem_of_app.
    + specialize (Pa i' st' Hin). destruct st'; [|done]. rewrite !elem_of_app in Pa |- *. rewrite ?elem_of_app. tauto.
    + rewrite !elem_of_app, ?elem_of_app, list_elem_of_singleton. tauto.
  - split; [done|]. intros j Hj. by apply told_of_snoc, Pr.
Qed.

Lemma pushOne_spec payload keys h0 l s h i st s' h' : pushed keys h0 l s h -> i ∉ l.*1 ->
  (forall k, carriesKeys payload k -> k = keys) ->
  (forall st0, st = Some st0 -> Replica.Sealed st0 = true -> serves (ho_world h0) (Z.of_nat i) = None) ->
  pushOne instance opts dk payload keys (s, h) (i, st) = (s', h') -> pushed keys h0 (l ++ [(i, st)]) s' h'.
Proof.
  intros Hp Hi Hpay Htold. unfold pushOne. destruct st as [st|].
  2:{ intros [= <- <-]. destruct Hp as [Pw Pl Pq Pa [Pn Pr]]. split; cbn [hs_Loaded hs_Waiting hs_Refused hs_Unreached].
      - intros j. destruct (Pw j) as [?|[? ?]]; [by left|right; split; [done|by apply told_of_snoc]].
      - intros j Hj. destruct (Pl j Hj). split; [by apply told_of_snoc|done].
      - intros j Hj. destruct (Pq j Hj). split; [by apply told_of_snoc|done].
      - intros i' st' [Hin|[= -> ->]%list_elem_of_singleton]%elem_of_app; [|apply elem_of_app; right; by left].
        specialize (Pa i' st' Hin). destruct st'; [done|]. apply elem_of_app. by left.
      - split; [done|]. intros j Hj. by apply told_of_snoc, Pr. }
  destruct (Replica.Sealed st) eqn:Hs; cbn [andb].
  - destruct (negb (op_unseal opts) || ho_leaveSealed h).
    { intros [= <- <-]. apply (pushed_waits keys h0 l s h); [done|done|by apply (Htold st)|]; by destruct (_ && _). }
    intros E. by eapply pushTo_spec.
  - intros E. by eapply pushTo_spec.
Qed.

Lemma push_fold payload keys h0 : (forall k, carriesKeys payload k -> k = keys) -> forall rest l s h s' h',
  pushed keys h0 l s h -> NoDup (l ++ rest).*1 ->
  (forall i st0, (i, Some st0) ∈ rest -> Replica.Sealed st0 = true -> serves (ho_world h0) (Z.of_nat i) = None) ->
  foldl (pushOne instance opts dk payload keys) (s, h) rest = (s', h') -> pushed keys h0 (l ++ rest) s' h'.
Proof.
  intros Hpay. induction rest as [|[i st] rest IH]; intros l s h s' h' Hp Hn Ht E; cbn [foldl] in E.
  { injection E as <- <-. by rewrite app_nil_r. }
  destruct (pushOne _ _ _ _ _ _ _) as [s1 h1] eqn:E1. replace (l ++ (i, st) :: rest) with ((l ++ [(i, st)]) ++ rest) in * by (by rewrite <- app_assoc).
  eapply IH; [|done| |exact E].
  - eapply pushOne_spec; [done| |done| |exact E1].
    + rewrite !fmap_app in Hn. apply NoDup_app in Hn as (Hn & _). apply NoDup_app in Hn as (_ & Hd & _). intros Hin. apply (Hd i Hin). by left.
    + intros st0 -> Hs. apply (Ht i st0); [by left|done].
  - intros i' st0 Hin. apply Ht. by right.
Qed.

(** A keyring whose scopes can be sent. *)
Definition sendable (k : Keyring) : Prop :=
  scopes_ok (kr_scopes k) /\ Forall (fun s => ids_ok (kr_nameKeys (sc_keys s)) /\ ids_ok (kr_keys (sc_keys s))) (kr_scopes k).

Lemma heldKeys_flatten ss : heldKeys (map flatten ss) = heldKeys ss.
Proof. unfold heldKeys. generalize (∅ : Keys). induction ss as [|s ss IH]; intros k; [done|]. cbn [map foldl]. rewrite IH. done. Qed.

(** The payload of a push carries the keyring's keys, and no others. *)
Lemma payload_carries `{!FaithfulYaml} keys m0 copies m bundle generation payload : sendable keys ->
  threaded allocScope m0 (kr_scopes keys) = (copies, m) -> NewBundle m instance generation copies = Ok bundle ->
  MarshalBundle m bundle = Ok payload ->
  b_scopes bundle = copies /\ forall k, carriesKeys payload k -> k = heldKeys (kr_scopes keys).
Proof.
  intros [_ Hids] Et En Em.
  destruct (threaded_spec allocScope flatten (kr_scopes keys) ltac:(intros; by eapply allocScope_spec) _ _ _ Et) as [_ Hl].
  apply NewBundle_ok in En as [-> Hb]. cbn [b_scopes]. split; [done|]. intros k (m1 & b & m2 & Hp & ->).
  assert (unmarshalBundle payload = Some (bundleFileOf m (mkBundle instance generation copies false))) as Hy.
  { unfold MarshalBundle in Em. cbn [b_zeroed] in Em. destruct (marshalBundle _) as [data|] eqn:Ed; [|done]. injection Em as <-. by apply faithful. }
  destruct (ParseBundle_marshal m m1 _ payload Hb) as (b' & m' & Hp' & _ & _ & _ & Hl'); [|exact Hy|].
  - cbn [b_scopes]. rewrite Hl. apply Forall_map. eapply Forall_impl; [exact Hids|]. done.
  - rewrite Hp in Hp'. injection Hp' as <- <-. rewrite Hl'. cbn [b_scopes]. by rewrite Hl, heldKeys_flatten.
Qed.

Lemma pushes_keep_memory payload keys l : forall s h, ho_mem (foldl (pushOne instance opts dk payload keys) (s, h) l).2 = ho_mem h.
Proof.
  induction l as [|[i st] l IH]; intros s h; [done|]. cbn [foldl].
  assert (forall x, x = pushOne instance opts dk payload keys (s, h) (i, st) -> ho_mem x.2 = ho_mem h) as Hx.
  { intros x ->. unfold pushOne, pushTo. destruct st as [st|]; [|done]. destruct (_ && _); [by destruct (_ && _)|].
    destruct (sk_Unseal _ _ _ _) as [[? ?] ?]. by destruct (AppendLedger _ _ _). }
  destruct (pushOne _ _ _ _ _ _ _) as [s1 h1] eqn:E. rewrite IH. by apply (Hx (s1, h1)).
Qed.

Lemma ZeroAll_forgets m m1 ss : mints m m1 (concat (map addrs ss)) -> forgets m (ZeroAll m1 ss).
Proof.
  intros [Hp _ Hn Hi Ho]. destruct (ZeroAll_touches ss m1) as [Hd Ht]. split.
  - intros a Ha. rewrite Ht; [by apply Hp|]. intros Hs. by apply (Hn a Hs).
  - intros a Ha Hm. apply ZeroAll_blank; [by rewrite <- Hd|]. left. rewrite Hd in Ha. by destruct (Ho a Ha).
Qed.

(** A push, whole: what became of every replica, and of this machine's memory. *)
Lemma push_spec `{!FaithfulYaml} keys states h r h' : sendable keys ->
  (forall i st, states !! i = Some (Some st) -> Replica.Sealed st = true -> serves (ho_world h) (Z.of_nat i) = None) ->
  push instance opts dk keys states h = (r, h') ->
  forgets (ho_mem h) (ho_mem h') /\
  match r with
  | Ok s => pushed (heldKeys (kr_scopes keys)) h (imap pair states) s h'
  | Err _ => ho_world h' = ho_world h
  end.
Proof.
  intros Hk Htold. unfold push. destruct (threaded allocScope (ho_mem _) (kr_scopes keys)) as [copies m] eqn:Et. cbn [ho_mem] in Et.
  destruct (threaded_spec allocScope flatten (kr_scopes keys) ltac:(intros; by eapply allocScope_spec) _ _ _ Et) as [Hm _].
  destruct (NewBundle m instance _ copies) as [bundle|] eqn:En; [|intros [= <- <-]; split; [by apply ZeroAll_forgets|done]].
  assert (b_scopes bundle = copies) as Ec by (by apply NewBundle_ok in En as [-> _]).
  destruct (MarshalBundle m bundle) as [payload|] eqn:Em.
  2:{ intros [= <- <-]. split; [|done]. cbn. rewrite Ec. by apply ZeroAll_forgets. }
  destruct (payload_carries keys _ _ _ _ _ _ Hk Et En Em) as [_ Hpay].
  match goal with |- context [foldl ?f (?s0, ?h0) ?l] => destruct (foldl f (s0, h0) l) as [s h1] eqn:Ef end.
  intros [= <- <-]. pose proof (pushes_keep_memory payload (heldKeys (kr_scopes keys)) (imap pair states)
    (mkStep (u64 (ho_highest h + 1)) [] [] [] [] []) (withMemory m (mkHandOver (ho_world h) (ho_mem h) (ho_ledger h)
      (u64 (ho_highest h + 1)) (ho_taken h) (ho_unanswered h) (ho_leaveSealed h) (ho_leftSealed h)))) as Hmem.
  rewrite Ef in Hmem. cbn in Hmem. split; [cbn; rewrite Hmem, Ec; by apply ZeroAll_forgets|].
  eapply (push_fold payload _ h Hpay (imap pair states) []) in Ef; [|split| |].
  - destruct Ef as [Pw Pl Pq Pa Pn]. split; [exact Pw|exact Pl|exact Pq|exact Pa|exact Pn].
  - intros j. by left; left.
  - by intros j ?%elem_of_nil.
  - by intros j ?%elem_of_nil.
  - by intros i st ?%elem_of_nil.
  - split; [constructor|]. by intros j ?%elem_of_nil.
  - cbn [app]. rewrite fmap_imap. apply NoDup_alt. intros i j x. rewrite !list_lookup_imap.
    destruct (states !! i), (states !! j); cbn; congruence.
  - intros i st0 [k Hin]%list_elem_of_lookup Hs. rewrite list_lookup_imap in Hin. destruct (states !! k) as [st|] eqn:Ek; [|done].
    cbn in Hin. injection Hin as <- ->. by apply (Htold k st0).
Qed.

(** ** Hand-overs *)

(** Saving this machine's keyring does nothing to the replicas. *)
Definition quiet (save : W -> option string * W) : Prop := forall w, forall j, stays (serves w j) (serves (save w).2 j).

Context `{GoRange} `{!FaithfulYaml}.
Hypothesis quiet_hold : forall save k, op_beforeHold opts = Some save -> quiet (save k).
Hypothesis quiet_activate : forall save, op_beforeActivate opts = Some save -> quiet save.

(** What pushing [keys] may do to the replicas that answered. *)
Definition given (keys : Keys) (states : list (option State)) (h h' : handOver W) : Prop := forall j,
  stays (serves (ho_world h) j) (serves (ho_world h') j) \/
  (serves (ho_world h') j = Some keys /\ told_of (imap pair states) j).

Lemma given_after keys states h h1 h' : given keys states h h1 -> (forall j, stays (serves (ho_world h1) j) (serves (ho_world h') j)) ->
  given keys states h h'.
Proof.
  intros Hg Hs j. destruct (Hs j) as [E|E]; rewrite E; [apply Hg|left; by right].
Qed.

Lemma given_before keys states h h1 h' : (forall j, stays (serves (ho_world h) j) (serves (ho_world h1) j)) -> given keys states h1 h' ->
  given keys states h h'.
Proof. intros Hs Hg j. destruct (Hg j) as [?|?]; [left; etrans; [apply Hs|done]|by right]. Qed.

Lemma confirmRefused_stays keys r h r' h' : confirmRefused keys r h = (r', h') ->
  forall j, stays (serves (ho_world h) j) (serves (ho_world h') j).
Proof.
  unfold confirmRefused. generalize (hs_Refused (hr_step r)) as l. intros l. revert r h. induction l as [|i l IH]; intros r h; cbn [foldl].
  - by intros [= <- <-].
  - destruct (confirmOne _ (r, h) i) as [r1 h1] eqn:E1. intros E j. etrans; [|exact (IH _ _ E j)].
    unfold confirmOne in E1. destruct (sk_State i (ho_world h)) as [[st e] w] eqn:Es.
    destruct (fleet_State _ _ _ _ _ Es) as [Hs _]. destruct e; [|destruct (_ && _)]; injection E1 as <- <-; apply Hs.
Qed.

Lemma saved_stays (callback : option (W -> option string * W)) (h h' : handOver W) e :
  (forall save, callback = Some save -> quiet save) ->
  match callback with Some save => let '(e, w) := save (ho_world h) in (e, withWorld w h) | None => (None, h) end = (e, h') ->
  (forall j, stays (serves (ho_world h) j) (serves (ho_world h') j)).
Proof.
  intros Hq. destruct callback as [save|]; [|by intros [= <- <-]]. specialize (Hq save eq_refl (ho_world h)).
  destruct (save (ho_world h)) as [e0 w]. by intros [= <- <-].
Qed.

(** The keyring itself: its keys go to replicas that answered. *)
Lemma activate_given keys held states h r h' : sendable keys ->
  (forall i st, states !! i = Some (Some st) -> Replica.Sealed st = true -> serves (ho_world h) (Z.of_nat i) = None) ->
  activate instance total opts dk keys held states h = (r, h') -> given (heldKeys (kr_scopes keys)) states h h'.
Proof.
  intros Hk Htold. unfold activate. destruct (match op_beforeActivate opts with Some _ => _ | None => _ end) as [saved h1] eqn:Es.
  pose proof (saved_stays _ _ _ _ quiet_activate Es) as Hs. clear Es. rename Hs into Es. destruct saved as [e|]; [intros [= <- <-]; intros j; left; apply Es|].
  destruct (push _ _ _ _ _ h1) as [[s|e] h2] eqn:Ep.
  2:{ apply push_spec in Ep as [_ Hw]; [|done|intros i st Hi Hs; specialize (Htold i st Hi Hs); destruct (Es (Z.of_nat i)); congruence].
      intros [= <- <-] j. left. rewrite Hw. apply Es. }
  apply push_spec in Ep as [_ [Pw _ _ _ _]]; [|done|intros i st Hi Hs; specialize (Htold i st Hi Hs); destruct (Es (Z.of_nat i)); congruence].
  destruct (confirmRefused _ _ h2) as [r1 h3] eqn:Ec. intros [= <- <-]. eapply given_before; [exact Es|].
  eapply given_after; [exact Pw|]. by eapply confirmRefused_stays.
Qed.

(** A held keyring can be sent when the keyring can. *)
Lemma sendable_held keys held : sendable keys -> same_keys keys held -> keyring_ok held -> sendable held.
Proof.
  intros [_ Hids] Hsame Hk. split; [apply Hk|]. unfold same_keys in Hsame. revert Hids. induction Hsame as [|s s' l l' (_ & Hp & Hn) _ IH]; [done|].
  intros [[Hi1 Hi2] Hids]%Forall_cons. constructor; [|by apply IH]. rewrite Hn. split; [done|]. unfold ids_ok in *. by rewrite Hp.
Qed.

(** The same scopes with the same keys. *)
Definition like (a b : Keys) : Prop := covers a b /\ covers b a.

Lemma like_trans a b c : like a b -> like b c -> like a c.
Proof. intros [? ?] [? ?]. split; by eapply covers_trans. Qed.

Lemma like_agree a b c : like a c -> like b c -> agree a b.
Proof. intros [? ?] [? ?]. split; apply covers_reads; by eapply covers_trans. Qed.

Lemma same_keys_like keys held : sendable keys -> same_keys keys held -> keyring_ok held -> like (heldKeys (kr_scopes held)) (heldKeys (kr_scopes keys)).
Proof.
  intros [Hok _] Hsame Hk. pose proof (so_names _ Hok) as Hn. pose proof (so_names _ (ko_scopes _ Hk)) as Hn'. split.
  - intros name ids (s & Hs & <- & ->)%heldKeys_elem; [|done]. destruct (same_keys_elem' _ _ _ Hsame Hs) as (s' & Hs' & Hna & Hp).
    exists (scopeKeys s'). split; [apply heldKeys_elem; [done|]; by exists s'|]. intros id. unfold scopeKeys. by rewrite Hp.
  - intros name ids (s & Hs & <- & ->)%heldKeys_elem; [|done]. destruct (same_keys_elem _ _ _ Hsame Hs) as (s' & Hs' & Hna & Hp).
    exists (scopeKeys s'). split; [apply heldKeys_elem; [done|]; by exists s'|]. intros id. unfold scopeKeys. by rewrite Hp.
Qed.

Lemma sameKeys_like got want : (forall name ids, want !! name = Some ids -> NoDup ids) -> sameKeys got want = true -> like got want.
Proof.
  intros Hn. unfold sameKeys. intros [Hsz%bool_decide_eq_true Hall]%andb_true_iff.
  assert (forall name ids, got !! name = Some ids -> exists ids', want !! name = Some ids' /\ forall id, id ∈ ids <-> id ∈ ids') as Hg.
  { intros name ids Hl. apply forallb_forall with (x := (name, ids)) in Hall; [|by apply list_elem_of_In, elem_of_map_to_list].
    destruct (want !! name) as [ids'|] eqn:E; [|done]. exists ids'. split; [done|]. apply scopeKeysMatch_sets; [by eapply Hn|done]. }
  split; [|intros name ids Hl; destruct (Hg _ _ Hl) as (ids' & ? & ?); exists ids'; split; [done|naive_solver]].
  intros name ids Hl. assert (dom got = dom want) as Hd.
  { apply set_subseteq_size_eq; [|rewrite !size_dom; lia]. intros n [x Hx]%elem_of_dom. destruct (Hg _ _ Hx) as (? & ? & _). apply elem_of_dom. by eexists. }
  assert (name ∈ dom got) as [ids0 Hl0]%elem_of_dom by (rewrite Hd; apply elem_of_dom; by eexists).
  destruct (Hg _ _ Hl0) as (ids1 & Hl1 & Hi). exists ids0. split; [done|]. assert (ids1 = ids) as <- by congruence. naive_solver.
Qed.

Lemma heldKeys_nodup scopes name ids : scopes_ok scopes -> heldKeys scopes !! name = Some ids -> NoDup ids.
Proof.
  intros [Hv Hn _] (s & Hs & _ & ->)%heldKeys_elem; [|done]. rewrite Forall_forall in Hv.
  destruct (scope_keys s (Hv s Hs)) as (e & rest & Ek & Hd). unfold scopeKeys. by rewrite Ek.
Qed.

(** Every replica has the keyring's keys, or serves nothing. *)
Definition everywhere (keys : Keys) (h : handOver W) : Prop := forall i k, (i < total)%nat ->
  serves (ho_world h) (Z.of_nat i) = Some k -> like k keys.

Lemma everywhere_given keys states h h' : everywhere keys h -> given keys states h h' -> everywhere keys h'.
Proof.
  intros He Hg i k Hi Hk. destruct (Hg (Z.of_nat i)) as [[E|E]|[E _]]; rewrite E in Hk; [by eapply He|done|].
  injection Hk as <-. split; apply covers_refl.
Qed.

Lemma everywhere_stays keys h h' : everywhere keys h -> (forall j, stays (serves (ho_world h) j) (serves (ho_world h') j)) -> everywhere keys h'.
Proof. intros He Hs i k Hi Hk. destruct (Hs (Z.of_nat i)) as [E|E]; rewrite E in Hk; [by eapply He|done]. Qed.

(** Once every serving replica holds what was pushed, every replica does. *)
Lemma held_everywhere keys states h s h' : scopes_ok (kr_scopes keys) -> length states = total ->
  pushed (heldKeys (kr_scopes keys)) h (imap pair states) s h' -> everyServingReplicaHolds s = true ->
  everywhere (heldKeys (kr_scopes keys)) h'.
Proof.
  intros Hok Hlen [_ Pl Pq Pa _] [Hu%bool_decide_eq_true Hr%bool_decide_eq_true]%andb_true_iff i k Hi Hk.
  destruct (lookup_lt_is_Some_2 states i ltac:(lia)) as [st Hst].
  assert ((i, st) ∈ imap pair states) as Hin by (apply list_elem_of_lookup; exists i; by rewrite list_lookup_imap, Hst).
  specialize (Pa i st Hin). rewrite Hu, Hr, app_nil_r in Pa. destruct st as [st|]; [|by apply elem_of_nil in Pa].
  apply elem_of_app in Pa as [Hl|Hw]; [|destruct (Pq _ Hw); congruence].
  apply sameKeys_like; [intros name ids; by apply heldKeys_nodup|]. by apply (proj2 (Pl _ Hl)).
Qed.

(** A first push, and what may come after it. *)
Lemma holdFirst_given keys held states h r h' : sendable keys -> sendable held -> like (heldKeys (kr_scopes held)) (heldKeys (kr_scopes keys)) ->
  length states = total ->
  (forall i st, states !! i = Some (Some st) -> Replica.Sealed st = true -> serves (ho_world h) (Z.of_nat i) = None) ->
  holdFirst instance total opts dk keys held states h = (r, h') ->
  given (heldKeys (kr_scopes held)) states h h' /\ hr_Activated r = false \/ everywhere (heldKeys (kr_scopes keys)) h'.
Proof.
  intros Hk Hh Hlike Hlen Htold. unfold holdFirst.
  destruct (match op_beforeHold opts with Some _ => _ | None => _ end) as [saved h1] eqn:Es.
  assert (forall j, stays (serves (ho_world h) j) (serves (ho_world h1) j)) as Hs1.
  { destruct (op_beforeHold opts) as [save|] eqn:Eo; [|by injection Es as <- <-].
    pose proof (quiet_hold save held eq_refl (ho_world h)) as Hq. destruct (save held (ho_world h)). by injection Es as <- <-. }
  assert (forall i st, states !! i = Some (Some st) -> Replica.Sealed st = true -> serves (ho_world h1) (Z.of_nat i) = None) as Htold1.
  { intros i st Hi Hs. specialize (Htold i st Hi Hs). destruct (Hs1 (Z.of_nat i)); congruence. }
  destruct saved as [e|]; [intros [= <- <-]; left; split; [intros j; left; apply Hs1|done]|].
  destruct (push _ _ _ held _ h1) as [[s|e] h2] eqn:Ep; apply push_spec in Ep as [_ Hp]; try done.
  2:{ intros [= <- <-]. left. split; [|done]. intros j. left. rewrite Hp. apply Hs1. }
  assert (given (heldKeys (kr_scopes held)) states h h2) as Hg by (eapply given_before; [exact Hs1|by destruct Hp]).
  destruct (everyServingReplicaHolds s) eqn:He; cbn [negb]; [|intros [= <- <-]; by left].
  case_decide; [intros [= <- <-]; by left|]. destruct (readAll total h2) as [states2 h3] eqn:Er.
  apply readAll_spec in Er as (Hs3 & _ & Ht3 & _).
  destruct (secondLook _ _ _) as [[c w]|]; [intros [= <- <-]; left; split; [by eapply given_after|done]|].
  intros Ea. right. apply activate_given in Ea; [|done|intros i st Hi Hs; by eapply told_sealed; [apply Ht3|]].
  eapply everywhere_given; [|exact Ea]. eapply everywhere_stays; [|exact Hs3].
  intros i k Hi E. eapply like_trans; [|exact Hlike]. eapply held_everywhere; [apply Hh|exact Hlen|exact Hp|done|done|done].
Qed.

(** Two replicas of a fleet that was given keys that fit beside it. *)
Lemma given_agree m states h h' i j st st' : fits_beside m states ->
  (forall i st, states !! i = Some (Some st) -> exists before, told before st (serves (ho_world h) (Z.of_nat i))) ->
  given (heldKeys (kr_scopes m)) states h h' -> states !! i = Some (Some st) -> states !! j = Some (Some st') ->
  (Replica.Sealed st = false -> Replica.Sealed st' = false -> agree (keysOf st) (keysOf st')) ->
  forall k k', serves (ho_world h') (Z.of_nat i) = Some k -> serves (ho_world h') (Z.of_nat j) = Some k' ->
  agree k k' /\ (Replica.Sealed st = false -> covers k (keysOf st)).
Proof.
  intros Hfit Htold Hg Hi Hj Hag k k' Hk Hk'.
  assert (forall n s x, states !! n = Some (Some s) -> serves (ho_world h') (Z.of_nat n) = Some x ->
    (Replica.Sealed s = false /\ keysOf s = x) \/ x = heldKeys (kr_scopes m)) as Hcase.
  { intros n s x Hn Hx. destruct (Hg (Z.of_nat n)) as [[E|E]|[E _]]; rewrite E in Hx; [left|done|right; by injection Hx].
    destruct (Htold n s Hn) as [b Ht]. rewrite Hx in Ht. by apply told_serving in Ht. }
  assert (forall n s, states !! n = Some (Some s) -> Replica.Sealed s = false ->
    covers (heldKeys (kr_scopes m)) (keysOf s) /\ agree (heldKeys (kr_scopes m)) (keysOf s)) as Hf.
  { intros n s Hn Hs. apply Hfit; [by eapply list_elem_of_lookup_2|done]. }
  destruct (Hcase _ _ _ Hi Hk) as [[Hs1 <-]| ->], (Hcase _ _ _ Hj Hk') as [[Hs2 <-]| ->].
  - split; [by apply Hag|intros _; apply covers_refl].
  - split; [|intros _; apply covers_refl]. destruct (Hf _ _ Hi Hs1) as [_ [? ?]]. by split.
  - split; [by eapply Hf|]. intros Hs. by eapply Hf.
  - split; [split; apply covers_reads, covers_refl|]. intros Hs. by eapply Hf.
Qed.

(** A hand-over in one push held nothing first. *)
Lemma activate_held keys states h r h' : activate instance total opts dk keys None states h = (r, h') -> hr_Held r = None.
Proof.
  unfold activate. destruct (match op_beforeActivate opts with Some _ => _ | None => _ end) as [[e|] h1]; [by intros [= <- <-]|].
  destruct (push _ _ _ _ _ h1) as [[s|e] h2]; [|by intros [= <- <-]].
  unfold confirmRefused. destruct (foldl _ _ _) as [r1 h3] eqn:Ef. intros [= <- <-].
  assert (forall l r0 h0, hr_Held r0 = None -> hr_Held (foldl (confirmOne (heldKeys (kr_scopes keys))) (r0, h0) l).1 = None) as Hf.
  { intros l. induction l as [|i l IH]; intros r0 h0 Hr; [done|]. cbn [foldl].
    assert (forall x, x = confirmOne (heldKeys (kr_scopes keys)) (r0, h0) i -> hr_Held x.1 = None) as Hx.
    { intros x ->. unfold confirmOne. destruct (sk_State i (ho_world h0)) as [[st e] w]. destruct e; [done|]. by destruct (_ && _). }
    destruct (confirmOne _ _ _) as [r2 h4]. apply IH. by apply (Hx (r2, h4)). }
  match type of Ef with foldl _ (?r0, _) ?l = _ => specialize (Hf l r0 h2 eq_refl) end. by rewrite Ef in Hf.
Qed.

(** What a result says is loaded is loaded. *)
Definition loaded_ok (keys : Keys) (states : list (option State)) (s : handOverStep) (h : handOver W) : Prop :=
  NoDup (hs_Loaded s) /\ forall j, j ∈ hs_Loaded s -> told_of (imap pair states) j /\
    forall k, serves (ho_world h) j = Some k -> sameKeys k keys = true.

Lemma confirm_loaded keys states l : forall r h r' h', loaded_ok keys states (hr_step r) h ->
  NoDup (hs_Loaded (hr_step r) ++ l) -> (forall j, j ∈ l -> told_of (imap pair states) j) ->
  foldl (confirmOne keys) (r, h) l = (r', h') ->
  loaded_ok keys states (hr_step r') h' /\ hr_Total r' = hr_Total r.
Proof.
  induction l as [|i l IH]; intros r h r' h' Hok Hn Ht E; cbn [foldl] in E; [by injection E as <- <-|].
  destruct (confirmOne keys (r, h) i) as [r1 h1] eqn:E1. unfold confirmOne in E1.
  destruct (sk_State i (ho_world h)) as [[st e] w] eqn:Es. destruct (fleet_State _ _ _ _ _ Es) as [Hs Hrep].
  rewrite <- Permutation_middle in Hn. apply NoDup_cons in Hn as [Hi Hn]. destruct Hok as [Hd Hl].
  assert (forall j k, j ∈ hs_Loaded (hr_step r) -> serves w j = Some k -> sameKeys k keys = true) as Hkeep.
  { intros j k Hj Hk. apply (proj2 (Hl j Hj)). destruct (Hs j); congruence. }
  assert (forall h2 : handOver W, ho_world h2 = w -> loaded_ok keys states (hr_step r) h2) as Hsame.
  { intros h2 Hw. split; [done|]. intros j Hj. split; [by apply Hl|]. rewrite Hw. intros k. by apply Hkeep. }
  assert (forall j, j ∈ l -> told_of (imap pair states) j) as Ht' by (intros j Hj; apply Ht; by right).
  destruct e as [why|]; [injection E1 as <- <-; apply IH in E; [exact E|by apply Hsame|done|done]|].
  destruct (negb (Replica.Sealed st) && sameKeys (keysOf st) keys) eqn:Ec; injection E1 as <- <-; [|apply IH in E; [exact E|by apply Hsame|done|done]].
  apply andb_true_iff in Ec as [_ Hsk]. specialize (Hrep eq_refl).
  assert (i ∉ hs_Loaded (hr_step r)) as Hni by (intros ?; apply Hi, elem_of_app; by left).
  apply IH in E; [exact E| | |done]; unfold loaded_ok; cbn [hr_step hs_Loaded].
  - split; [rewrite merge_sort_Permutation, (Permutation_app_comm _ [i]); by apply NoDup_cons|]. intros j.
    rewrite merge_sort_Permutation. intros [Hj| ->%list_elem_of_singleton]%elem_of_app; [split; [by apply Hl|]; cbn; intros k; by apply Hkeep|].
    split; [apply Ht; by left|]. cbn. intros k Hk. rewrite Hk in Hrep. by destruct Hrep as [_ <-].
  - rewrite merge_sort_Permutation, (Permutation_app_comm _ [i]), <- app_assoc. by apply NoDup_cons.
Qed.

Lemma activate_loaded keys held states h r h' : sendable keys ->
  (forall i st, states !! i = Some (Some st) -> Replica.Sealed st = true -> serves (ho_world h) (Z.of_nat i) = None) ->
  activate instance total opts dk keys held states h = (r, h') -> hr_Activated r = true ->
  hr_Total r = total /\ loaded_ok (heldKeys (kr_scopes keys)) states (hr_step r) h'.
Proof.
  intros Hk Htold. unfold activate. destruct (match op_beforeActivate opts with Some _ => _ | None => _ end) as [saved h1] eqn:Es.
  pose proof (saved_stays _ _ _ _ quiet_activate Es) as Hs. destruct saved as [e|]; [by intros [= <- <-]|].
  destruct (push _ _ _ _ _ h1) as [[s|e] h2] eqn:Ep; [|destruct held; by intros [= <- <-]].
  apply push_spec in Ep as [_ [_ Pl _ _ [Pn Pr]]]; [|done|intros i st Hi Hst; specialize (Htold i st Hi Hst); destruct (Hs (Z.of_nat i)); congruence].
  destruct (confirmRefused _ _ h2) as [r1 h3] eqn:Ec. apply confirm_loaded with (states := states) in Ec as [Hok Htot]; [| |exact Pn|exact Pr].
  - intros [= <- <-]. intros _. by destruct held.
  - cbn [hr_step]. split; [by apply NoDup_app in Pn as [? _]|exact Pl].
Qed.

Lemma loaded_everywhere keys states s h : loaded_ok keys states s h -> length states = total -> length (hs_Loaded s) = total ->
  forall i k, (i < total)%nat -> serves (ho_world h) (Z.of_nat i) = Some k -> sameKeys k keys = true.
Proof.
  intros [Hd Hl] Hlen Hn i k Hi Hk. assert (hs_Loaded s ≡ₚ seqZ 0 (Z.of_nat total)) as Hp.
  { apply submseteq_length_Permutation.
    - apply NoDup_submseteq; [done|]. intros j Hj. destruct (Hl j Hj) as [(n & st & Hin & ->) _].
      apply list_elem_of_lookup in Hin as [m Hm]. rewrite list_lookup_imap in Hm. destruct (states !! m) eqn:E; [|done].
      apply lookup_lt_Some in E. cbn in Hm. injection Hm as -> ->. apply elem_of_seqZ. lia.
    - rewrite length_seqZ. lia. }
  apply (proj2 (Hl (Z.of_nat i) ltac:(rewrite Hp; apply elem_of_seqZ; lia))). done.
Qed.

(** A keyring that was used was pushed to what answered a moment before. *)
Lemma body_activates keys h r h' : keyring_ok keys -> sendable keys ->
  handOverBody instance total opts dk keys h = (r, h') -> hr_Activated r = true ->
  exists states held h0, length states = total /\
    (forall i st, states !! i = Some (Some st) -> Replica.Sealed st = true -> serves (ho_world h0) (Z.of_nat i) = None) /\
    activate instance total opts dk keys held states h0 = (r, h').
Proof.
  intros Hk Hsend. unfold handOverBody. destruct (readAll total h) as [states h1] eqn:Er.
  apply readAll_spec in Er as (_ & Hlen & Htold & _). destruct (planHandOver _ _ _) as [plan|e]; [|by intros [= <- <-]].
  destruct plan as [[held names]|].
  2:{ intros E _. exists states, None. eexists. split; [done|]. split; [|exact E]. intros i st Hi Hs. by eapply told_sealed; [apply Htold|]. }
  unfold holdFirst. destruct (match op_beforeHold opts with Some _ => _ | None => _ end) as [[e|] h2]; [by intros [= <- <-]|].
  destruct (push _ _ _ _ _ h2) as [[s|e] h3]; [|by intros [= <- <-]]. destruct (negb _); [by intros [= <- <-]|].
  case_decide; [by intros [= <- <-]|]. destruct (readAll total h3) as [states2 h4] eqn:Er2.
  apply readAll_spec in Er2 as (_ & Hlen2 & Htold2 & _). destruct (secondLook _ _ _) as [[c w]|]; [by intros [= <- <-]|].
  intros E _. exists states2, (Some s), h4. split_and!; [done| |done]. intros i st Hi Hs. by eapply told_sealed; [apply Htold2|].
Qed.

End calls.

(** C3: A hand-over never splits the fleet. Whatever pushes fail or lose their answers, and however replicas restart
    meanwhile: two replicas that could read what the other wrote, when they were asked, still can, if they still
    serve; and one that served has every key it had. When the keyring went over in two pushes and was used, that
    holds of every replica, also of those that did not answer. *)
Theorem a_hand_over_never_splits_the_fleet {W} `{SealStateClient W} `{LedgerJson} `{BundleYaml} `{!Fleet W} `{GoRange} `{!FaithfulYaml}
    instance total (opts : handOverOptions W) dk keys h states h1 r h' :
  (forall save k, op_beforeHold opts = Some save -> quiet (save k)) ->
  (forall save, op_beforeActivate opts = Some save -> quiet save) ->
  keyring_ok keys -> sendable keys ->
  readAll total h = (states, h1) -> handOverBody instance total opts dk keys h = (r, h') ->
  (forall i j st st', states !! i = Some (Some st) -> states !! j = Some (Some st') ->
    (Replica.Sealed st = false -> Replica.Sealed st' = false -> agree (keysOf st) (keysOf st')) ->
    forall k k', serves (ho_world h') (Z.of_nat i) = Some k -> serves (ho_world h') (Z.of_nat j) = Some k' ->
    agree k k' /\ (Replica.Sealed st = false -> covers k (keysOf st))) /\
  (is_Some (hr_Held r) -> hr_Activated r = true -> forall i j k k', (i < total)%nat -> (j < total)%nat ->
    serves (ho_world h') (Z.of_nat i) = Some k -> serves (ho_world h') (Z.of_nat j) = Some k' -> agree k k').
Proof.
  intros Hq1 Hq2 Hk Hsend Er. unfold handOverBody. rewrite Er.
  destruct (readAll_spec total h states h1 Er) as (_ & Hlen & Htold & _). destruct (planHandOver _ _ _) as [plan|e] eqn:Ep.
  2:{ intros [= <- <-]. split; [|by intros [? ?]]. intros i j st st' Hi Hj Hag k k' Hki Hkj.
      specialize (Htold i st Hi) as Hti. specialize (Htold j st' Hj) as Htj. rewrite Hki in Hti. rewrite Hkj in Htj.
      apply told_serving in Hti as [? <-], Htj as [? <-]. split; [by apply Hag|intros _; apply covers_refl]. }
  apply plan_fits in Ep; [|done]. set (h2 := mkHandOver _ _ _ _ _ _ _ _).
  assert (forall i st, states !! i = Some (Some st) -> Replica.Sealed st = true -> serves (ho_world h2) (Z.of_nat i) = None) as Hsealed
    by (intros i st Hi Hs; by eapply told_sealed; [apply Htold|]).
  assert (forall i st, states !! i = Some (Some st) -> exists before, told before st (serves (ho_world h2) (Z.of_nat i))) as Htold2
    by (intros i st Hi; eexists; by apply Htold).
  destruct plan as [[held names]|].
  - destruct Ep as (Hfit & Hsame & Hkh). pose proof (sendable_held _ _ Hsend Hsame Hkh) as Hsh.
    pose proof (same_keys_like _ _ Hsend Hsame Hkh) as Hlike. intros E.
    destruct (holdFirst_given instance total opts dk Hq1 Hq2 keys held states h2 r h' Hsend Hsh Hlike Hlen Hsealed E) as [[Hg Ha]|He].
    + split; [|by rewrite Ha]. intros i j st st' Hi Hj Hag. by eapply given_agree.
    + split; [|intros _ _ i j k k' Hi Hj Hki Hkj; eapply like_agree; [by apply (He i)|by apply (He j)]].
      intros i j st st' Hi Hj _ k k' Hki Hkj. apply lookup_lt_Some in Hi as Hli. apply lookup_lt_Some in Hj as Hlj.
      assert (like k (heldKeys (kr_scopes keys))) as Hlk by (apply (He i); [lia|done]).
      assert (like k' (heldKeys (kr_scopes keys))) as Hlk' by (apply (He j); [lia|done]).
      split; [by eapply like_agree|]. intros Hs. destruct (Hfit st) as [Hc _]; [by eapply list_elem_of_lookup_2|done|].
      eapply covers_trans; [apply Hlk|]. eapply covers_trans; [apply Hlike|done].
  - intros E. pose proof (activate_held _ _ _ _ _ _ _ _ _ E) as Hn. apply activate_given in E; [|done..].
    split; [|by rewrite Hn; intros [? ?]]. intros i j st st' Hi Hj Hag. by eapply given_agree.
Qed.

(** C27: A hand-over that reports it is complete is: every replica below the count serves exactly the keys of this
    machine's keyring, writing under the same ones -- or nothing, when it restarted since. An answer alone never
    counts: a push that was accepted and installed nothing, or whose answer was lost, is not reported as done unless
    the replica says what it holds. *)
Theorem a_complete_hand_over_is_complete {W} `{SealStateClient W} `{LedgerJson} `{BundleYaml} `{!Fleet W} `{GoRange} `{!FaithfulYaml}
    instance total (opts : handOverOptions W) dk keys h r h' :
  (forall save k, op_beforeHold opts = Some save -> quiet (save k)) ->
  (forall save, op_beforeActivate opts = Some save -> quiet save) ->
  keyring_ok keys -> sendable keys ->
  handOverBody instance total opts dk keys h = (r, h') -> Complete r = true ->
  forall i k, (i < total)%nat -> serves (ho_world h') (Z.of_nat i) = Some k -> sameKeys k (heldKeys (kr_scopes keys)) = true.
Proof.
  intros Hq1 Hq2 Hk Hsend E Hc. unfold Complete in Hc.
  apply andb_true_iff in Hc as [[_ Hact]%andb_true_iff Hn%bool_decide_eq_true].
  destruct (body_activates instance total opts dk keys h r h' Hk Hsend E Hact) as (states & held & h0 & Hlen & Htold & Ea).
  destruct (activate_loaded instance total opts dk Hq2 keys held states h0 r h' Hsend Htold Ea Hact) as [Htot Hok].
  intros i x Hi Hx. eapply loaded_everywhere; [exact Hok|exact Hlen|by rewrite Hn|exact Hi|exact Hx].
Qed.

(** *** Examples *)

#[local] Instance entryFile_eq_dec : EqDecision keyEntryFile.
Proof. solve_decision. Defined.
#[local] Instance scopeFile_eq_dec : EqDecision scopeFile.
Proof. solve_decision. Defined.
#[local] Instance bundleFile_eq_dec : EqDecision bundleFile.
Proof. solve_decision. Defined.

(** A codec that knows some documents, and names each by a letter. *)
Definition exCodec (files : list bundleFile) : BundleYaml := {|
  unmarshalBundle data := match data with String c "" => files !! nat_of_ascii c | _ => None end;
  marshalBundle file := match list_find (fun f => f = file) files with
                        | Some (i, _) => if decide (i < 200)%nat then Ok (String (ascii_of_nat i) "") else Err "full"
                        | None => Err "unknown"
                        end
|}.

Lemma exCodec_faithful files : @FaithfulYaml (exCodec files).
Proof.
  split. intros file data. cbn. destruct (list_find _ files) as [[i f]|] eqn:E; [|done]. case_decide; [|done]. intros [= <-].
  rewrite nat_ascii_embedding by lia. apply list_find_Some in E as (Hi & -> & _). done.
Qed.

#[local] Instance noLedger : LedgerJson := {| marshalEntry e := Ok (le_Result e); unmarshalEntry _ := None |}.

(** An application's scope before a rotation and after it. *)
Definition exBefore : Keyring := mkKeyring [exEntry "a"] [exEntry "b"]
  [mkScope "app-apps-web" "app/apps/web/" 0 "" (mkKeyring [exEntry "c"] [exEntry "h"] [])].

Definition exDocument (generation : Z) (k : Keyring) : bundleFile :=
  mkBundleFile bundleVersion "prod" generation (marshalScopes (kr_scopes k)).

Definition exHeld : Keyring := mkKeyring [exEntry "a"] [exEntry "b"]
  [mkScope "app-apps-web" "app/apps/web/" 0 "" (mkKeyring [exEntry "c"] [exEntry "h"; exEntry "d"] [])].

Definition exFiles : BundleYaml := exCodec [exDocument 1 exBefore; exDocument 2 exHeld; exDocument 3 exTwoKeys].

(** Two replicas that serve the keys from before, and what a rotation asks for. *)
Definition exReplica : World := (receive (H := exFiles) (String "000" "") IntentOperator (mkWorld ∅ 0 (Vault.New "prod" (Err "") 0))).2.
Definition exCluster (l : list weather) : Cluster := mkCluster (<[0 := exReplica]> {[1 := exReplica]}) l 0.
Definition exRotation : handOverOptions Cluster :=
  mkOptions false {["app-apps-web" := ke_ID (exEntry "h")]} None None false.
Definition exHandOver (l : list weather) : handOver Cluster := mkHandOver (exCluster l) ∅ None 1 0 ∅ false [].
Definition exRun (l : list weather) : handOverResult * handOver Cluster :=
  handOverBody (H0 := clusterClient (H := exFiles)) (H2 := exFiles) "prod" 2 exRotation (fun _ => DiskTakes) exTwoKeys (exHandOver l).

(** A rotation goes over in two pushes. *)
Definition exNow (x : handOverResult * handOver Cluster) : bool * Z * option Z * list (option Keys) :=
  (Complete x.1, hs_Generation (hr_step x.1), hs_Generation <$> hr_Held x.1, map (clusterServes (ho_world x.2)) [0; 1]).

Example a_rotation_completes : exNow (exRun []) =
  (true, 3, Some 2, [Some (heldKeys (kr_scopes exTwoKeys)); Some (heldKeys (kr_scopes exTwoKeys))]).
Proof. apply (bool_decide_unpack _). vm_compute. exact I. Qed.

(** The answer to the second replica's second push is lost: it is asked what it holds, and counts. *)
Example a_lost_answer_is_confirmed : exNow (exRun [Fine; Fine; Fine; Fine; Fine; Fine; Fine; AnswerLost]) =
  (true, 3, Some 2, [Some (heldKeys (kr_scopes exTwoKeys)); Some (heldKeys (kr_scopes exTwoKeys))]).
Proof. apply (bool_decide_unpack _). vm_compute. exact I. Qed.

(** The first push does not reach the second replica: nothing is told to use the new key. *)
Example a_missed_push_stops_the_rotation : exNow (exRun [Fine; Fine; Fine; Unreached]) =
  (false, 2, Some 2, [Some (heldKeys (kr_scopes exHeld)); Some (heldKeys (kr_scopes exBefore))]).
Proof. apply (bool_decide_unpack _). vm_compute. exact I. Qed.

Lemma exTwoKeys_sent : keyring_ok exTwoKeys /\ sendable exTwoKeys.
Proof.
  assert (keyring_ok exTwoKeys) as Hk by (by apply Valid_spec; vm_compute). split; [done|]. split; [apply Hk|].
  by repeat constructor.
Qed.

(** A rotation whose last answer is lost. *)
Definition exLost : list weather := [Fine; Fine; Fine; Fine; Fine; Fine; Fine; AnswerLost].

Lemma exLost_serves : Complete (exRun exLost).1 = true /\ is_Some (hr_Held (exRun exLost).1) /\ hr_Activated (exRun exLost).1 = true /\
  clusterServes (ho_world (exRun exLost).2) 0 = Some (heldKeys (kr_scopes exTwoKeys)) /\
  clusterServes (ho_world (exRun exLost).2) 1 = Some (heldKeys (kr_scopes exTwoKeys)).
Proof. apply (bool_decide_unpack _). vm_compute. exact I. Qed.

Lemma a_hand_over_never_splits_the_fleet_witness : exists k k',
  clusterServes (ho_world (exRun exLost).2) 0 = Some k /\ clusterServes (ho_world (exRun exLost).2) 1 = Some k' /\ agree k k'.
Proof.
  destruct exTwoKeys_sent as [Hk Hs], exLost_serves as (_ & Hh & Ha & E0 & E1).
  eexists _, _. split; [exact E0|]. split; [exact E1|].
  exact (proj2 (@a_hand_over_never_splits_the_fleet Cluster (clusterClient (H := exFiles)) noLedger exFiles _ _ (exCodec_faithful _)
    "prod" 2 exRotation (fun _ => DiskTakes) exTwoKeys (exHandOver exLost) _ _ (exRun exLost).1 (exRun exLost).2
    (ltac:(done)) (ltac:(done)) Hk Hs (surjective_pairing _) (surjective_pairing _)) Hh Ha 0%nat 1%nat _ _ ltac:(lia) ltac:(lia) E0 E1).
Defined.

Lemma a_complete_hand_over_is_complete_witness : exists k,
  clusterServes (ho_world (exRun exLost).2) 1 = Some k /\ sameKeys k (heldKeys (kr_scopes exTwoKeys)) = true.
Proof.
  destruct exTwoKeys_sent as [Hk Hs], exLost_serves as (Hc & _ & _ & _ & E1). eexists _. split; [exact E1|].
  exact (@a_complete_hand_over_is_complete Cluster (clusterClient (H := exFiles)) noLedger exFiles _ _ (exCodec_faithful _)
    "prod" 2 exRotation (fun _ => DiskTakes) exTwoKeys (exHandOver exLost) (exRun exLost).1 (exRun exLost).2
    (ltac:(done)) (ltac:(done)) Hk Hs (surjective_pairing _) Hc 1%nat _ ltac:(lia) E1).
Defined.
