(* ===== verification/Sdk.v ===== *)
(** * The SDK of applications ([sdk/go])

    What an application links against: its storage and its secrets through the
    keyholder, and its configuration.  The environment is a map of strings.  The
    network is the class [HttpClient]: a request is answered or it is not.  TLS,
    URLs and JSON are the standard library's, taken as classes. *)

From Stdlib Require Import Ascii.
From S2P Require Import Prelude Effect GoTime GoStrings Strconv Encoding Net Slices.

(** ** Errors ([errors.go], [wire.go]) *)

Inductive sentinel :=
| ErrNotImplemented
| ErrStorageSealed
| ErrObjectNotFound
| ErrIntegrity
| ErrInvalidKey
| ErrTooLarge
| ErrPermission
| ErrStorageUnavailable
| ErrConfigMissing
| ErrConfigReserved
| ErrSecretNotFound.

#[export] Instance sentinel_eq_dec : EqDecision sentinel.
Proof. solve_decision. Defined.

(** The texts that go with [ErrStorageUnavailable]. *)
Inductive detail :=
| NotHttps
| ScopeRequired
| NoCertificate
| LeafRequired
| LeafInvalid
| ReadingFailed
| ListingUnreadable
| BadRequest
| NotReached
| ReadyButSilent
| NoStatusEndpoint
| StatusNotReached
| StatusRefused
| StatusUnintelligible
| MustEndInSlash
| NotAKeyPrefix
| NoSecretsSegment
| StorageNotSet.

Inductive sdk_error :=
| Bare (s : sentinel)
| Unavailable (why : detail)
| OfSecret (name : string) (e : sdk_error)
| OfConfig (key : string) (s : sentinel)
| InvalidSecretName (name : string).

(** [errors.Is]. *)
Fixpoint Is (e : sdk_error) (s : sentinel) : bool :=
  match e with
  | Bare s' | OfConfig _ s' => bool_decide (s' = s)
  | Unavailable _ => bool_decide (ErrStorageUnavailable = s)
  | OfSecret _ e => Is e s
  | InvalidSecretName _ => false
  end.

Definition CodeSealed : string := "sealed".
Definition CodeNotFound : string := "not-found".
Definition CodeIntegrity : string := "integrity".
Definition CodeInvalidKey : string := "invalid-key".
Definition CodeTooLarge : string := "too-large".
Definition CodePermission : string := "permission".

Definition storageErrors : gmap string sentinel :=
  list_to_map [(CodeSealed, ErrStorageSealed); (CodeNotFound, ErrObjectNotFound); (CodeIntegrity, ErrIntegrity);
               (CodeInvalidKey, ErrInvalidKey); (CodeTooLarge, ErrTooLarge); (CodePermission, ErrPermission)].

Definition storageError (code : string) : sdk_error := Bare (default ErrStorageUnavailable (storageErrors !! code)).

(** ** The environment *)

Definition Environment : Type := gmap string string.

Definition Getenv (env : Environment) (key : string) : string := default "" (env !! key).

Definition envStorageEndpoint : string := "FARCAST_STORAGE_ENDPOINT".
Definition envStorageStatus : string := "FARCAST_STORAGE_STATUS_ENDPOINT".
Definition envStorageScope : string := "FARCAST_STORAGE_SCOPE".
Definition envStorageCA : string := "FARCAST_STORAGE_CA".
Definition envStorageServerName : string := "FARCAST_STORAGE_SERVER_NAME".
Definition envStorageClientCert : string := "FARCAST_STORAGE_CLIENT_CERT".
Definition envStorageClientKey : string := "FARCAST_STORAGE_CLIENT_KEY".
Definition envSecretsPrefix : string := "FARCAST_SECRETS_PREFIX".
Definition envInstanceID : string := "FARCAST_INSTANCE_ID".

Definition InstanceID (env : Environment) : string :=
  if decide (Getenv env envInstanceID <> "") then Getenv env envInstanceID else "local".

(** ** The wire *)

Definition headerKey : string := "X-Farcast-Key".
Definition headerPrefix : string := "X-Farcast-Prefix".
Definition headerScope : string := "X-Farcast-Scope".
Definition headerCode : string := "X-Farcast-Code".

(** What a client dials with. *)
Record Transport := mkTransport {
  tr_roots : string;
  tr_leaf : string * string;
  tr_serverName : string
}.

Record httpRequest := mkHttpRequest {
  hr_method : string;
  hr_url : string;
  hr_header : list (string * string);
  hr_body : option string
}.

(** The reader of a body: what it holds, and whether it fails before its end. *)
Record Response := mkResponse {
  rs_status : Z;
  rs_header : list (string * string);
  rs_body : string;
  rs_broken : bool
}.

(** [Header.Get]. *)
Definition headerGet (header : list (string * string)) (name : string) : string :=
  default "" (snd <$> (list_find (fun h => h.1 = name) header ≫= fun x => Some x.2)).

(** [http.Client.Do]. *)
Class HttpClient (N : Type) := { Do : Transport -> httpRequest -> N -> option Response * N }.

(** [x509], [tls.X509KeyPair] and [url.Parse]: whether they take what they are given. *)
Class Tls := {
  AppendCertsFromPEM : string -> bool;
  X509KeyPair : string -> string -> bool;
  parseURL : string -> bool
}.

(** [json.Decoder] on the two bodies a client reads. *)
Class BodyJson := {
  decodeKeys : string -> option (list string);
  decodeState : string -> option (string * Time * Z)
}.

(** ** Storage ([storage.go], [storageclient.go]) *)

Definition StorageReady : string := "ready".
Definition StorageSealed : string := "sealed".
Definition StorageUnreachable : string := "unavailable".

Definition SealNone : string := "".
Definition SealRestart : string := "restart".
Definition SealOperator : string := "operator".

Record StorageStatus := mkStorageStatus {
  ss_State : string;
  ss_Reason : string;
  ss_Since : Time;
  ss_Generation : Z
}.

Definition unreachable : StorageStatus := mkStorageStatus StorageUnreachable SealNone zero_time 0.

Definition Sealed (s : StorageStatus) : bool := bool_decide (ss_State s = StorageSealed).

(** An unknown phase is sealed. *)
Definition statusFromPhase (phase : string) (since : Time) (generation : Z) : StorageStatus :=
  let st state why := mkStorageStatus state why since generation in
  if decide (phase = "unsealed") then st StorageReady SealNone
  else if decide (phase = "restart-sealed") then st StorageSealed SealRestart
  else if decide (phase = "operator-hold") then st StorageSealed SealOperator
  else st StorageSealed SealRestart.

Record storageClient := mkStorageClient {
  sc_endpoint : string;
  sc_status : string;
  sc_scope : string;
  sc_http : Transport
}.

Section client.
Context `{Tls}.

Definition newStorageClient (endpoint status scope caPEM serverName clientCertPEM clientKeyPEM : string)
    : result sdk_error storageClient :=
  if negb (parseURL endpoint) || negb (HasPrefix endpoint "https://") then Err (Unavailable NotHttps)
  else if decide (scope = "") then Err (Unavailable ScopeRequired)
  else if negb (AppendCertsFromPEM caPEM) then Err (Unavailable NoCertificate)
  else if decide (clientCertPEM = "" \/ clientKeyPEM = "") then Err (Unavailable LeafRequired)
  else if negb (X509KeyPair clientCertPEM clientKeyPEM) then Err (Unavailable LeafInvalid)
  else Ok (mkStorageClient (TrimRight endpoint "/") (TrimRight status "/") scope
             (mkTransport caPEM (clientCertPEM, clientKeyPEM) serverName)).

Context {N : Type} `{HttpClient N} `{BodyJson}.

(** *** Asking the status endpoint *)

Definition maxStatus : Z := Z.shiftl 1 16.

Definition probeStatus (c : storageClient) : eff N sdk_error StorageStatus :=
  if decide (sc_status c = "") then fail (Unavailable NoStatusEndpoint)
  else if negb (parseURL (sc_status c +:+ "/v1/state")) then fail (Unavailable BadRequest)
  else
    answer ← (fun n => let '(answer, n) := Do (sc_http c) (mkHttpRequest "GET" (sc_status c +:+ "/v1/state") [] None) n in
                       (Ok answer, n));
    match answer with
    | None => fail (Unavailable StatusNotReached)
    | Some resp =>
        if decide (rs_status resp <> 200) then fail (Unavailable StatusRefused)
        else
          match decodeState (stake (Z.to_nat maxStatus) (rs_body resp)) with
          | None => fail (Unavailable StatusUnintelligible)
          | Some (phase, since, generation) => mret (statusFromPhase phase since generation)
          end
    end.

Definition Status (c : storageClient) (n : N) : (StorageStatus * option sdk_error) * N :=
  match probeStatus c n with
  | (Ok st, n) => ((st, None), n)
  | (Err e, n) => ((unreachable, Some e), n)
  end.

(** What a failure to reach the data path means. *)
Definition explainTransportFailure (c : storageClient) : eff N sdk_error sdk_error :=
  if decide (sc_status c = "") then mret (Unavailable NotReached)
  else
    r ← try (probeStatus c);
    match r with
    | Err _ => mret (Unavailable NotReached)
    | Ok st => mret (if Sealed st then Bare ErrStorageSealed else Unavailable ReadyButSilent)
    end.

(** *** Operations *)

Definition do (c : storageClient) (method path header value : string) (body : option string) : eff N sdk_error Response :=
  if negb (parseURL (sc_endpoint c +:+ path)) then fail (Unavailable BadRequest)
  else
    answer ← (fun n =>
      let '(answer, n) := Do (sc_http c) (mkHttpRequest method (sc_endpoint c +:+ path)
        [(header, Base64EncodeToString value); (headerScope, sc_scope c)] body) n in
      (Ok answer, n));
    match answer with
    | None => e ← explainTransportFailure c; fail e
    | Some resp =>
        if decide (rs_status resp / 100 = 2) then mret resp
        else fail (storageError (headerGet (rs_header resp) headerCode))
    end.

Definition clientRead (c : storageClient) (key : string) : eff N sdk_error string :=
  resp ← do c "GET" "/v1/object" headerKey key None;
  if rs_broken resp then fail (Unavailable ReadingFailed) else mret (rs_body resp).

Definition clientWrite (c : storageClient) (key data : string) : eff N sdk_error unit :=
  _ ← do c "PUT" "/v1/object" headerKey key (Some data); mret tt.

Definition clientDelete (c : storageClient) (key : string) : eff N sdk_error unit :=
  _ ← do c "DELETE" "/v1/object" headerKey key None; mret tt.

Definition clientList (c : storageClient) (prefix : string) : eff N sdk_error (list string) :=
  resp ← do c "GET" "/v1/list" headerPrefix prefix None;
  match decodeKeys (rs_body resp) with
  | Some keys => mret keys
  | None => fail (Unavailable ListingUnreadable)
  end.

(** *** The capability *)

Inductive StorageAPI :=
| storageStub
| storageBroken (e : sdk_error)
| storageLive (c : storageClient).

Definition newStorageFromEnv (env : Environment) : StorageAPI :=
  let endpoint := TrimSpace (Getenv env envStorageEndpoint) in
  if decide (endpoint = "") then storageStub
  else
    match newStorageClient endpoint (TrimSpace (Getenv env envStorageStatus)) (TrimSpace (Getenv env envStorageScope))
            (Getenv env envStorageCA) (TrimSpace (Getenv env envStorageServerName))
            (Getenv env envStorageClientCert) (Getenv env envStorageClientKey) with
    | Err e => storageBroken e
    | Ok c => storageLive c
    end.

(** [sync.Once]: the environment of the first use. *)
Definition Storage (env : Environment) (once : option StorageAPI) : StorageAPI * option StorageAPI :=
  let s := default (newStorageFromEnv env) once in (s, Some s).

Definition through {A} (f : storageClient -> eff N sdk_error A) (s : StorageAPI) : eff N sdk_error A :=
  match s with
  | storageStub => fail (Bare ErrNotImplemented)
  | storageBroken e => fail e
  | storageLive c => f c
  end.

Definition Read (s : StorageAPI) (key : string) : eff N sdk_error string := through (fun c => clientRead c key) s.
Definition Write (s : StorageAPI) (key data : string) : eff N sdk_error unit := through (fun c => clientWrite c key data) s.
Definition Delete (s : StorageAPI) (key : string) : eff N sdk_error unit := through (fun c => clientDelete c key) s.
Definition List (s : StorageAPI) (prefix : string) : eff N sdk_error (list string) := through (fun c => clientList c prefix) s.

(** The stub and what is broken have no status. *)
Definition StorageStatusOf (s : StorageAPI) (n : N) : (StorageStatus * option sdk_error) * N :=
  match s with
  | storageLive c => Status c n
  | _ => ((mkStorageStatus "" SealNone zero_time 0, Some (Bare ErrNotImplemented)), n)
  end.

End client.

(** ** Secrets ([secrets.go], [secretsclient.go]) *)

Record Secret := mkSecret { se_value : string }.

Definition NewSecret (value : string) : Secret := mkSecret value.
Definition Reveal (s : Secret) : string := se_value s.
Definition Empty (s : Secret) : bool := bool_decide (se_value s = "").
Definition Equal (s : Secret) (want : string) : bool := bool_decide (se_value s = want).

Definition Redacted : string := "[redacted]".
Definition GoString (s : Secret) : string := "farcast.Secret{" +:+ Redacted +:+ "}".

(** [fmt.Formatter]: the verb and its [#] flag; [quoted] is the verb [q]. *)
Definition Format (quote : string -> string) (verb : ascii) (sharp : bool) (s : Secret) : string :=
  if Ascii.eqb verb "q" then quote Redacted
  else if Ascii.eqb verb "v" && sharp then GoString s
  else Redacted.

Definition MaxSecretNameLen : Z := 128.

Definition nameByte (n i : nat) (c : Z) : bool :=
  inRange 97 122 c || inRange 65 90 c || inRange 48 57 c ||
  (((c =? 95) || (c =? 45) || (c =? 46)) && negb (bool_decide (i = 0%nat) || bool_decide (i = n - 1)%nat)).

Definition validSecretName (name : string) : bool :=
  if decide (name = "" \/ MaxSecretNameLen < len name) then false
  else
    forallb (fun '(i, c) => nameByte (length (bytes name)) i c) (imap pair (bytes name)) && negb (Contains name "..").

Definition SecretsSegment : string := "secrets".

Definition validSecretsPrefix (prefix : string) : result sdk_error unit :=
  if negb (HasSuffix prefix "/") then Err (Unavailable MustEndInSlash)
  else if Contains prefix "//" || Contains prefix ".." then Err (Unavailable NotAKeyPrefix)
  else if negb (Contains prefix ("/" +:+ SecretsSegment +:+ "/")) then Err (Unavailable NoSecretsSegment)
  else Ok tt.

Inductive SecretsAPI :=
| secretsStub
| secretsBroken (e : sdk_error)
| secretsClient (prefix : string) (store : StorageAPI).

Section secrets.
Context `{Tls}.

Definition newSecretsFromEnv (env : Environment) (once : option StorageAPI) : SecretsAPI * option StorageAPI :=
  let prefix := TrimSpace (Getenv env envSecretsPrefix) in
  if decide (prefix = "") then (secretsStub, once)
  else
    match validSecretsPrefix prefix with
    | Err e => (secretsBroken e, once)
    | Ok _ =>
        let '(store, once) := Storage env once in
        (match store with storageStub => secretsBroken (Unavailable StorageNotSet) | _ => secretsClient prefix store end, once)
    end.

Context {N : Type} `{HttpClient N} `{BodyJson}.

Definition Get (s : SecretsAPI) (name : string) : eff N sdk_error Secret :=
  match s with
  | secretsStub => fail (Bare ErrNotImplemented)
  | secretsBroken e => fail e
  | secretsClient prefix store =>
      if negb (validSecretName name) then fail (InvalidSecretName name)
      else
        data ← withErr (fun e => OfSecret name (if Is e ErrObjectNotFound then Bare ErrSecretNotFound else e))
                 (Read store (prefix +:+ name));
        mret (mkSecret data)
  end.

End secrets.

(** ** Configuration ([config.go]) *)

(** [unicode.ToUpper] from 128 on. *)
Class UpperTable := { upperRune : Z -> Z }.

Definition asciiUpper (c : Z) : Z := if inRange 97 122 c then c - 32 else c.

(** [strings.ToUpper]. *)
Definition ToUpper `{UpperTable} (s : string) : string :=
  if isASCII s then of_bytes (map asciiUpper (bytes s))
  else of_bytes (concat (map (fun r => encodeRune (if r <? 128 then asciiUpper r else upperRune r)) (runes s))).

Definition reservedPrefix : string := "FARCAST_".

(** [strconv.ParseBool]. *)
Definition ParseBool (s : string) : option bool :=
  if decide (s ∈ ["1"; "t"; "T"; "TRUE"; "true"; "True"]) then Some true
  else if decide (s ∈ ["0"; "f"; "F"; "FALSE"; "false"; "False"]) then Some false
  else None.

(** The keys that were warned about, and the warnings. *)
Record Warnings := mkWarnings { wa_warned : gset string; wa_log : list (string * string) }.

Section config.
Context `{UpperTable}.

Definition Reserved (key : string) : bool := HasPrefix (ToUpper (TrimSpace key)) reservedPrefix.

(** What is set to nothing is absent. *)
Definition lookup (env : Environment) (key : string) : option string :=
  if decide (key = "") then None
  else if Reserved key then None
  else v ← env !! key; if decide (v = "") then None else Some v.

Definition ConfigGet (env : Environment) (key : string) : string * bool :=
  match lookup env key with Some v => (v, true) | None => ("", false) end.

Definition GetString (env : Environment) (key def : string) : string := default def (lookup env key).

Definition unparseable (key want : string) (w : Warnings) : Warnings :=
  if decide (key ∈ wa_warned w) then w
  else mkWarnings ({[key]} ∪ wa_warned w) (wa_log w ++ [(key, want)]).

(** A value that does not parse is the default, and a warning the first time. *)
Definition getParsed {A} (parse : string -> option A) (want : string) (env : Environment) (key : string) (def : A)
    (w : Warnings) : A * Warnings :=
  match lookup env key with
  | None => (def, w)
  | Some v => match parse (TrimSpace v) with Some a => (a, w) | None => (def, unparseable key want w) end
  end.

Definition GetInt : Environment -> string -> Z -> Warnings -> Z * Warnings := getParsed ParseInt "an integer".
Definition GetBool : Environment -> string -> bool -> Warnings -> bool * Warnings := getParsed ParseBool "a boolean".

Definition Require_ (env : Environment) (key : string) : result sdk_error string :=
  match lookup env key with
  | Some v => Ok v
  | None => Err (OfConfig key (if Reserved key then ErrConfigReserved else ErrConfigMissing))
  end.

End config.
