(* ===== verification/Application.v ===== *)
(** * An application and its keyholder ([sdk/go] over [datasphere/keyholder])

    The SDK's requests, carried to the handlers of [Server] by a network that may
    lose a request, lose its answer or tear a body, and what an application may
    then believe of what the SDK tells it. *)

From Stdlib Require Import Ascii.
From S2P Require Import Prelude Effect GoTime GoStrings PosText LogicalKey Encoding Keyring KeyringFacts Identity KeyringFile.
From S2P Require Import Material Bundle Slices Cipher Names Blob Stream Envelope Provider Store StoreFacts Vault Holder HolderFacts.
From S2P Require Import Server ServerFacts.
From S2P Require Sdk.

(** ** The listeners ([Server.DataHandler], [Server.StatusHandler]) *)

Definition dataRoute (method path : string) : option route :=
  if decide (path = "/v1/object") then
    if decide (method = "GET") then Some GetObject
    else if decide (method = "PUT") then Some PutObject
    else if decide (method = "DELETE") then Some DeleteObject
    else None
  else if decide (method = "GET" /\ path = "/v1/list") then Some GetList
  else None.

Definition statusRoute (method path : string) : option route :=
  if decide (method <> "GET") then None
  else if decide (path = "/livez") then Some GetLive
  else if decide (path = "/readyz") then Some GetReady
  else if decide (path = "/v1/state") then Some GetStatus
  else None.

(** ** The network *)

Inductive weather := Delivered | RequestLost | AnswerLost | Torn (n : nat).

(** [json.Encoder]; what it wrote is read back as it was, and no part of it as anything else. *)
Class ReplyJson := { encodeJson : body -> string }.

Class FaithfulJson `{ReplyJson, Sdk.BodyJson} := {
  keys_whole keys : Forall (fun k => ValidString k = true) keys -> Sdk.decodeKeys (encodeJson (BodyKeys keys)) = Some keys;
  keys_part keys pre rest ks : Forall (fun k => ValidString k = true) keys ->
    encodeJson (BodyKeys keys) = pre +:+ rest -> Sdk.decodeKeys pre = Some ks -> ks = keys;
  state_part st control pre rest phase since generation : encodeJson (BodyState st control) = pre +:+ rest ->
    Sdk.decodeState pre = Some (phase, since, generation) -> phase = phaseText (st_Phase st)
}.

(** Where the listeners are, and the identities a verified leaf names. *)
Record Place := mkPlace {
  pl_cfg : ServerConfig;
  pl_data : string;
  pl_status : string;
  pl_leaf : string * string -> option (Datatypes.list string)
}.

Record Wire (W P : Type) := mkWire { wi_server : Server W P; wi_weather : Datatypes.list weather }.
Arguments mkWire {W P}.
Arguments wi_server {W P}.
Arguments wi_weather {W P}.

Section wire.
Context `{Cipher, KeyAgreement, BundleYaml, ReplyJson} {W P : Type} `{Entropy W, Provider P} (pl : Place).

Definition requestOf (tr : Sdk.Transport) (hr : Sdk.httpRequest) : Request :=
  mkRequest (pl_leaf pl (Sdk.tr_leaf tr)) (Sdk.headerGet (Sdk.hr_header hr) Sdk.headerKey)
    (Sdk.headerGet (Sdk.hr_header hr) Sdk.headerPrefix) (Sdk.headerGet (Sdk.hr_header hr) Sdk.headerScope)
    "" "" false "" (mkReader (default "" (Sdk.hr_body hr)) None).

(** [writeJSONWithCode], and the handlers that write bytes. *)
Definition bodyText (b : body) : string :=
  match b with
  | BodyBytes data => data
  | BodyText text => text
  | NoBody => ""
  | _ => encodeJson b
  end.

Definition responseOf (rep : reply) : Sdk.Response :=
  Sdk.mkResponse (re_status rep) (if decide (re_code rep = "") then [] else [(Sdk.headerCode, re_code rep)])
    (bodyText (re_body rep)) false.

Definition torn (n : nat) (resp : Sdk.Response) : Sdk.Response :=
  Sdk.mkResponse (Sdk.rs_status resp) (Sdk.rs_header resp) (stake n (Sdk.rs_body resp)) true.

Definition arrives (w : weather) (resp : Sdk.Response) : option Sdk.Response :=
  match w with
  | Delivered => Some resp
  | Torn n => Some (torn n resp)
  | RequestLost | AnswerLost => None
  end.

(** A path no handler has. *)
Definition notFound : Sdk.Response := Sdk.mkResponse 404 [] "404 page not found" false.

Definition routed (hr : Sdk.httpRequest) : option route :=
  match CutPrefix (Sdk.hr_url hr) (pl_data pl) ≫= dataRoute (Sdk.hr_method hr) with
  | Some rt => Some rt
  | None => CutPrefix (Sdk.hr_url hr) (pl_status pl) ≫= statusRoute (Sdk.hr_method hr)
  end.

Definition exchange (tr : Sdk.Transport) (hr : Sdk.httpRequest) (n : Wire W P) : option Sdk.Response * Wire W P :=
  let w := default Delivered (head (wi_weather n)) in
  let later := tail (wi_weather n) in
  match w with
  | RequestLost => (None, mkWire (wi_server n) later)
  | _ =>
      match routed hr with
      | None => (arrives w notFound, mkWire (wi_server n) later)
      | Some rt =>
          let '(rep, s) := serve (pl_cfg pl) rt (requestOf tr hr) (wi_server n) in
          (arrives w (responseOf rep), mkWire s later)
      end
  end.

Definition overWire : Sdk.HttpClient (Wire W P) := {| Sdk.Do := exchange |}.

End wire.

(** ** What an exchange does *)

Section facts.
Context `{CipherLaws, KeyAgreement, BundleYaml, Sdk.BodyJson, Sdk.Tls} `{ReplyJson} `{!FaithfulJson}.
Context {W P : Type} `{Entropy W, ProviderLaws P} (pl : Place).

#[local] Instance wire_client : Sdk.HttpClient (Wire W P) := overWire pl.

(** A client of this place's. *)
Definition wired (c : Sdk.storageClient) : Prop :=
  Sdk.sc_endpoint c = pl_data pl /\ (Sdk.sc_status c = "" \/ Sdk.sc_status c = pl_status pl).

Definition serving (s : Server W P) : Prop := va_phase (vaultOf s) = PhaseUnsealed.

(** An error that claims neither that the object is absent nor, of a keyholder that serves, that it is sealed. *)
Definition modest (s : Server W P) (e : Sdk.sdk_error) : Prop :=
  Sdk.Is e Sdk.ErrObjectNotFound = false /\ Sdk.Is e Sdk.ErrSecretNotFound = false /\
  (Sdk.Is e Sdk.ErrStorageSealed = true -> ~ serving s).

Lemma stake_prefix n s : exists rest, s = stake n s +:+ rest.
Proof. exists (sdrop n s). by rewrite stake_sdrop. Qed.

Lemma other_end a b x y : a +:+ String "e" "" = b +:+ y -> rev_string y = String "t" x -> False.
Proof. intros E%(f_equal rev_string). rewrite !rev_string_app in E. intros Hy. rewrite Hy in E. discriminate E. Qed.

Lemma status_not_data : CutPrefix (pl_status pl +:+ "/v1/state") (pl_data pl) ≫= dataRoute "GET" = None.
Proof.
  destruct (CutPrefix _ _) as [path|] eqn:E; [|done]. apply CutPrefix_spec in E. cbn [mbind option_bind]. unfold dataRoute.
  change "/v1/state" with ("/v1/stat" +:+ String "e" "") in E. rewrite <- app_string_assoc in E.
  case_decide as Hp; [subst path; by destruct (other_end _ _ "cejbo/1v/" _ E)|].
  case_decide as Hq; [|done]. destruct Hq as [_ ->]. by destruct (other_end _ _ "sil/1v/" _ E).
Qed.

(** The status endpoint answers from the vault, and changes nothing. *)
Lemma status_exchange tr n answer n' :
  Sdk.Do tr (Sdk.mkHttpRequest "GET" (pl_status pl +:+ "/v1/state") [] None) n = (answer, n') ->
  wi_server n' = wi_server n /\ forall resp, answer = Some resp ->
    exists rest, encodeJson (BodyState (stateOf (vaultOf (wi_server n))) false) = Sdk.rs_body resp +:+ rest.
Proof.
  cbn [Sdk.Do wire_client overWire]. unfold exchange.
  assert (routed pl (Sdk.mkHttpRequest "GET" (pl_status pl +:+ "/v1/state") [] None) = Some GetStatus) as ->.
  { unfold routed. cbn [Sdk.hr_url Sdk.hr_method]. rewrite status_not_data.
    by rewrite (proj2 (CutPrefix_spec _ _ _) eq_refl). }
  cbn [serve]. destruct (default Delivered (head (wi_weather n))) as [| | |k]; intros [= <- <-]; (split; [done|]); try done; intros resp [= <-].
  - exists "". cbn. by rewrite app_string_nil_r.
  - cbn. apply stake_prefix.
Qed.

Lemma probe_spec c n r n' : wired c -> Sdk.probeStatus c n = (r, n') ->
  wi_server n' = wi_server n /\ forall st, r = Ok st -> Sdk.Sealed st = true -> ~ serving (wi_server n).
Proof.
  intros [_ Hs]. unfold Sdk.probeStatus. case_decide as Hne; [by intros [= <- <-]|]. destruct Hs as [Hs|Hs]; [done|]. rewrite Hs.
  destruct (negb _); [by intros [= <- <-]|].
  unfold mbind, eff_bind. destruct (Sdk.Do _ _ n) as [answer n1] eqn:E. apply status_exchange in E as [Hsrv Hb].
  destruct answer as [resp|]; [|by intros [= <- <-]]. case_decide; [by intros [= <- <-]|].
  destruct (Hb resp eq_refl) as [rest Er].
  destruct (stake_prefix (Z.to_nat Sdk.maxStatus) (Sdk.rs_body resp)) as [rest' Hst].
  destruct (Sdk.decodeState (stake _ _)) as [[[phase since] generation]|] eqn:Ed; [|by intros [= <- <-]].
  intros [= <- <-]. split; [done|]. intros st [= <-]. rewrite Hst, app_string_assoc in Er.
  rewrite (state_part _ _ _ _ _ _ _ Er Ed). unfold serving, Sdk.Sealed, Sdk.statusFromPhase. cbn [st_Phase stateOf].
  intros Hse Hp. rewrite Hp in Hse. by vm_compute in Hse.
Qed.

Lemma explain_spec c n r n' : wired c -> Sdk.explainTransportFailure c n = (r, n') ->
  wi_server n' = wi_server n /\ exists e, r = Ok e /\ modest (wi_server n) e.
Proof.
  intros Hw. unfold Sdk.explainTransportFailure. case_decide; [intros [= <- <-]; split; [done|]; eexists; by repeat split|].
  unfold mbind, eff_bind, try. destruct (Sdk.probeStatus c n) as [st n1] eqn:E. apply probe_spec in E as [Hs Hp]; [|done].
  destruct st as [st|e]; intros [= <- <-]; (split; [done|]); eexists; (split; [reflexivity|]); [|by repeat split].
  specialize (Hp st eq_refl). unfold modest. by destruct (Sdk.Sealed st).
Qed.

(** The request of an operation, as the handler reads it. *)
Definition asked (c : Sdk.storageClient) (method path header value : string) (b : option string) : Request :=
  requestOf pl (Sdk.sc_http c) (Sdk.mkHttpRequest method (Sdk.sc_endpoint c +:+ path)
    [(header, Base64EncodeToString value); (Sdk.headerScope, Sdk.sc_scope c)] b).

Lemma responseOf_code rep : Sdk.headerGet (Sdk.rs_header (responseOf rep)) Sdk.headerCode = re_code rep.
Proof. unfold responseOf. cbn [Sdk.rs_header]. case_decide as Hc; [by rewrite Hc|]. unfold Sdk.headerGet. by vm_compute. Qed.

(** One operation: it never reached a handler, or one served it and its answer came, was lost, or was torn. *)
Lemma do_spec c method path header value b n r n' rt : wired c -> dataRoute method path = Some rt ->
  Sdk.do c method path header value b n = (r, n') ->
  (wi_server n' = wi_server n /\ exists e, r = Err e /\ modest (wi_server n) e) \/
  exists rep, serve (pl_cfg pl) rt (asked c method path header value b) (wi_server n) = (rep, wi_server n') /\
    ((exists e, r = Err e /\ modest (wi_server n') e) \/
     (re_status rep / 100 = 2 /\ exists resp, r = Ok resp /\ (resp = responseOf rep \/ exists k, resp = torn k (responseOf rep))) \/
     (re_status rep / 100 <> 2 /\ r = Err (Sdk.storageError (re_code rep)))).
Proof.
  intros Hw Hrt. unfold Sdk.do. destruct (negb _); [intros [= <- <-]; left; split; [done|]; eexists; by repeat split|].
  unfold mbind, eff_bind. cbn [Sdk.Do wire_client overWire]. unfold exchange, asked.
  set (hr := Sdk.mkHttpRequest _ _ _ _).
  assert (routed pl hr = Some rt) as ->.
  { unfold routed, hr. cbn [Sdk.hr_url Sdk.hr_method]. destruct Hw as [-> _].
    rewrite (proj2 (CutPrefix_spec _ _ _) eq_refl). cbn [mbind option_bind]. by rewrite Hrt. }
  assert (forall n1, (let '(r0, n2) := Sdk.explainTransportFailure c n1 in
      match r0 with Ok e => (Err e, n2) | Err e => (Err e, n2) end) = (r, n') ->
    wi_server n' = wi_server n1 /\ exists e, r = Err e /\ modest (wi_server n1) e) as Hlost.
  { intros n1. destruct (Sdk.explainTransportFailure c n1) as [r0 n2] eqn:E. apply explain_spec in E as (Hs & e & -> & Hm); [|done].
    intros [= <- <-]. split; [done|]. by eexists. }
  destruct (default Delivered (head (wi_weather n))) as [| | |k].
  - destruct (serve _ rt _ _) as [rep s] eqn:Es. cbn [arrives]. case_decide as Hok; intros [= <- <-]; right; exists rep; (split; [done|]); right.
    + left. split; [exact Hok|]. eexists. split; [done|]. by left.
    + right. split; [exact Hok|]. f_equal. f_equal. exact (responseOf_code rep).
  - intros E%Hlost. by left.
  - destruct (serve _ rt _ _) as [rep s] eqn:Es. cbn [arrives]. intros (Hs & e & -> & Hm)%Hlost. cbn in Hs. right. exists rep.
    rewrite Hs. split; [done|]. left. eexists. by split.
  - destruct (serve _ rt _ _) as [rep s] eqn:Es. cbn [arrives]. case_decide as Hok; intros [= <- <-]; right; exists rep; (split; [done|]); right.
    + left. split; [exact Hok|]. eexists. split; [done|]. right. by exists k.
    + right. split; [exact Hok|]. f_equal. f_equal. exact (responseOf_code rep).
Qed.

(** ** Codes *)

Lemma storageError_is code st : Sdk.Is (Sdk.storageError code) st = true <->
  (code = Sdk.CodeSealed /\ st = Sdk.ErrStorageSealed) \/ (code = Sdk.CodeNotFound /\ st = Sdk.ErrObjectNotFound) \/
  (code = Sdk.CodeIntegrity /\ st = Sdk.ErrIntegrity) \/ (code = Sdk.CodeInvalidKey /\ st = Sdk.ErrInvalidKey) \/
  (code = Sdk.CodeTooLarge /\ st = Sdk.ErrTooLarge) \/ (code = Sdk.CodePermission /\ st = Sdk.ErrPermission) \/
  ((code ∉ [Sdk.CodeSealed; Sdk.CodeNotFound; Sdk.CodeIntegrity; Sdk.CodeInvalidKey; Sdk.CodeTooLarge; Sdk.CodePermission]) /\
   st = Sdk.ErrStorageUnavailable).
Proof.
  unfold Sdk.storageError. cbn [Sdk.Is]. rewrite bool_decide_eq_true. unfold Sdk.storageErrors. cbn [list_to_map foldr fst snd].
  rewrite !lookup_insert, lookup_empty, !not_elem_of_cons. repeat case_decide; subst; cbn [default];
    (split; [intros <-; try tauto|intros Hs; naive_solver]).
  do 6 right. split_and!; auto. by apply not_elem_of_nil.
Qed.

Lemma storage_words code : Sdk.Is (Sdk.storageError code) Sdk.ErrSecretNotFound = false.
Proof. apply not_true_iff_false. rewrite storageError_is. naive_solver. Qed.

Lemma failReply_status e : re_status (failReply e) / 100 <> 2.
Proof. unfold failReply, classify. repeat case_match; simplify_eq; done. Qed.

Lemma code_sealed e : re_code (failReply e) = CodeSealed -> SSealed ∈ wraps e.
Proof.
  unfold failReply, classify. intros Hc. apply (bool_decide_eq_true_1 (SSealed ∈ wraps e)).
  change (Is e SSealed = true). repeat case_match; simplify_eq; done.
Qed.

Lemma keyring_not_sealed e : SSealed ∉ keyringWraps e.
Proof. intros Hx%keyring_known. by destruct Hx. Qed.

Lemma store_not_sealed e : SSealed ∉ storeWraps e.
Proof.
  induction e; cbn [storeWraps]; try (apply (bool_decide_unpack _); exact I); try done.
  - apply keyring_not_sealed.
  - destruct e; apply (bool_decide_unpack _); exact I.
  - destruct e; apply (bool_decide_unpack _); exact I.
Qed.

(** ** What an operation comes to *)

Definition caller (c : Sdk.storageClient) : option Identity :=
  pl_leaf pl (Sdk.tr_leaf (Sdk.sc_http c)) ≫= firstIdentity (cf_instance (pl_cfg pl)).

(** The store behind a key: that of the scope which owns it, of the serving vault, which this client declares and may
    reach. *)
Definition reachesBy (c : Sdk.storageClient) (s : Server W P) (key : string) (id : Identity) (sc : ScopeRef) (store : Store) : Prop :=
  serving s /\ caller c = Some id /\ sc ∈ va_scopes (vaultOf s) /\ Owns sc key = true /\
    sc_Name sc = Sdk.sc_scope c /\ MayReach id (sc_Name sc) = true /\
    NewStore (cf_bucket (pl_cfg pl)) (sc_keys (load (memoryOf s) sc)) = Ok store.

Definition reaches (c : Sdk.storageClient) (s : Server W P) (key : string) (store : Store) : Prop :=
  exists id sc, reachesBy c s key id sc store.

Definition headerName (rt : route) : string := match rt with GetList => Sdk.headerPrefix | _ => Sdk.headerKey end.

Lemma asked_header c method path value b rt : isData rt = true ->
  headerOf (asked c method path (headerName rt) value b) (headerFor rt) = Base64EncodeToString value.
Proof. by destruct rt. Qed.

Lemma asked_scope c method path value b rt : isData rt = true -> rq_scope (asked c method path (headerName rt) value b) = Sdk.sc_scope c.
Proof. by destruct rt. Qed.

Lemma resolved_reaches c method path value b rt s key id sc copy store s1 : isData rt = true -> allocated s ->
  resolved (pl_cfg pl) (asked c method path (headerName rt) value b) (headerFor rt) s key id sc copy store s1 ->
  key = value /\ reachesBy c s value id sc store.
Proof.
  intros Hd Ha [Hcall Hkey Hopen Hheld Howns Hdecl Hreach _ _ Hst Hval _]. rewrite asked_header, base64_string_roundtrip in Hkey by done.
  injection Hkey as <-. rewrite asked_scope in Hdecl by done. rewrite (Hval Ha) in Hst. split; [done|].
  split_and!; try done. revert Hcall. unfold identityFrom, caller. cbn [asked requestOf rq_uris].
  destruct (pl_leaf pl _) as [uris|]; [|done]. cbn. by destruct (firstIdentity _ uris); intros [= ->].
Qed.

Lemma refusals_modest s c rq e code : refusals (pl_cfg pl) s c rq e -> code = re_code (failReply e) -> modest s (Sdk.storageError code).
Proof.
  intros Hr ->. split; [|split].
  - apply not_true_iff_false. rewrite storageError_is. intros Hc.
    assert (re_code (failReply e) = CodeNotFound) as Hn%code_not_found by naive_solver. by apply refusals_known in Hr.
  - apply storage_words.
  - rewrite storageError_is. intros Hc. assert (re_code (failReply e) = CodeSealed) as Hn%code_sealed by naive_solver.
    destruct Hr as [->|[->|[->|[->|[->|[[_ Hs]|[->|[->|(e' & -> & _)]]]]]]]]; try exact Hs; exfalso; revert Hn; cbn; try (apply (bool_decide_unpack _); exact I).
    apply store_not_sealed.
Qed.

Lemma modest_vault (s s' : Server W P) e : vaultOf s' = vaultOf s -> modest s' e -> modest s e.
Proof. unfold modest, serving. by intros ->. Qed.

Lemma traceless_vault (s s' : Server W P) : traceless s s' -> vaultOf s' = vaultOf s.
Proof. intros [_ ->]. done. Qed.

Lemma op_spec c method path value b n r n' rt : wired c -> dataRoute method path = Some rt -> isData rt = true ->
  allocated (wi_server n) -> Sdk.do c method path (headerName rt) value b n = (r, n') ->
  let s := wi_server n in let s' := wi_server n' in
  vaultOf s' = vaultOf s /\
  ((sv_cloud s' = sv_cloud s /\ exists e, r = Err e /\ modest s e) \/
   exists id (sc : ScopeRef) store rep, reachesBy c s value id sc store /\
     outcome (pl_cfg pl) rt (asked c method path (headerName rt) value b) value id sc store (sv_cloud s) (sv_cloud s') rep /\
     ((exists e, r = Err e /\ modest s e) \/
      (re_status rep / 100 = 2 /\ exists resp, r = Ok resp /\ (resp = responseOf rep \/ exists k, resp = torn k (responseOf rep))) \/
      (re_status rep / 100 <> 2 /\ r = Err (Sdk.storageError (re_code rep))))).
Proof.
  intros Hw Hrt Hd Ha E. apply (do_spec _ _ _ _ _ _ _ _ _ _ Hw Hrt) in E as [[Hs He]|(rep & Es & Hr)].
  { cbv zeta. rewrite Hs. split; [done|]. by left. }
  cbv zeta. apply data_route in Es as [Ht [(cs & e & -> & Href & Hc)|(key & id & sc & copy & store & s1 & Hres & Ho)]]; [| |done].
  - pose proof (traceless_vault _ _ Ht) as Hv. split; [done|]. left. split; [done|].
    destruct Hr as [(e' & -> & Hm)|[[Hst _]|[_ ->]]]; [eexists; split; [done|]; by eapply modest_vault| |].
    + by destruct (failReply_status e).
    + eexists. split; [done|]. by eapply refusals_modest.
  - pose proof (traceless_vault _ _ Ht) as Hv. split; [done|]. right.
    destruct (resolved_reaches _ _ _ _ _ _ _ _ _ _ _ _ _ Hd Ha Hres) as [-> Hre].
    exists id, sc, store, rep. split_and!; [done|done|]. destruct Hr as [(e' & -> & Hm)|Hr]; [|by right].
    left. eexists. split; [done|]. by eapply modest_vault.
Qed.

(** ** The operations *)

(** Key identifiers are arrays of 8 bytes. *)
Definition ids_held (s : Server W P) : Prop :=
  forall sc, sc ∈ va_scopes (vaultOf s) -> ids_ok (kr_keys (sc_keys (load (memoryOf s) sc))).

Lemma reaches_bucket c s key store : reaches c s key store -> s_bucket store = cf_bucket (pl_cfg pl).
Proof. intros (id & sc & _ & _ & _ & _ & _ & _ & Hst). by apply NewStore_bucket in Hst. Qed.

Lemma reaches_store c s key store : ids_held s -> reaches c s key store -> store_ok store.
Proof. intros Hi (id & sc & _ & _ & Hsc & _ & _ & _ & Hst). apply NewStore_ok in Hst as [? _]; [done|]. by apply Hi. Qed.

(** A refusal says no more than is so. *)
Definition honest (c : Sdk.storageClient) (s : Server W P) (key : string) (e : Sdk.sdk_error) : Prop :=
  (Sdk.Is e Sdk.ErrObjectNotFound = true -> exists store, reaches c s key store /\ objects store (provider s) !! pathOf store key = None) /\
  Sdk.Is e Sdk.ErrSecretNotFound = false /\
  (Sdk.Is e Sdk.ErrStorageSealed = true -> ~ serving s).

Lemma modest_honest c s key e : modest s e -> honest c s key e.
Proof. intros (Hn & ? & ?). unfold honest. split_and!; [by rewrite Hn|done..]. Qed.

Lemma code_not_sealed e : SSealed ∉ wraps e -> Sdk.Is (Sdk.storageError (re_code (failReply e))) Sdk.ErrStorageSealed = true -> False.
Proof. intros Hn Hs%storageError_is. apply Hn, code_sealed. naive_solver. Qed.

Lemma store_missing e : Sdk.Is (Sdk.storageError (re_code (failReply (FromStore e)))) Sdk.ErrObjectNotFound = true ->
  SObjectNotFound ∈ storeWraps e.
Proof.
  intros Hs%storageError_is. assert (re_code (failReply (FromStore e)) = CodeNotFound) as Hc%code_not_found by naive_solver. done.
Qed.

(** The objects of the bucket. *)
Lemma reaches_objects c s key store (s1 : Server W P) : reaches c s key store -> objects store (provider s1) = bucketIn (pl_cfg pl) s1.
Proof. intros Hr. unfold objects, bucketIn. by rewrite (reaches_bucket _ _ _ _ Hr). Qed.

Lemma client_read c key n r n' : wired c -> allocated (wi_server n) -> Sdk.clientRead c key n = (r, n') ->
  let s := wi_server n in let s' := wi_server n' in
  vaultOf s' = vaultOf s /\ bucketIn (pl_cfg pl) s' = bucketIn (pl_cfg pl) s /\
  match r with
  | Ok d => exists store, reaches c s key store /\ value store (provider s) key = Some d
  | Err e => honest c s key e
  end.
Proof.
  intros Hw Ha. unfold Sdk.clientRead, mbind, eff_bind.
  destruct (Sdk.do c "GET" "/v1/object" Sdk.headerKey key None n) as [r1 n1] eqn:E.
  apply (op_spec c "GET" "/v1/object" key None n r1 n1 GetObject Hw eq_refl eq_refl Ha) in E as [Hv Hr].
  assert (n' = n1 -> vaultOf (wi_server n') = vaultOf (wi_server n)) as Hv' by (by intros ->).
  destruct Hr as [(Hc & e & -> & Hm)|(id & sc & store & rep & Hby & (x & Ex & Hx) & Hr)].
  { intros [= <- <-]. split_and!; [by apply Hv'|unfold bucketIn; by rewrite Hc|by apply modest_honest]. }
  assert (reaches c (wi_server n) key store) as Hre by (by exists id, sc). pose proof Ex as Ex'. destruct (sv_cloud (wi_server n)) as [w p] eqn:Ec, (sv_cloud (wi_server n1)) as [w1 p1] eqn:Ec1.
  apply Read_spec in Ex as [Ho Hs].
  assert (bucketIn (pl_cfg pl) (wi_server n1) = bucketIn (pl_cfg pl) (wi_server n)) as Hb.
  { rewrite <- !(reaches_objects _ _ _ _ _ Hre). unfold provider. by rewrite Ec, Ec1. }
  destruct Hr as [(e & -> & Hm)|[(H2xx & resp & -> & Hresp)|(Hn & ->)]].
  - intros [= <- <-]. split_and!; [by apply Hv'|done|by apply modest_honest].
  - destruct x as [d|e]; [|by subst rep; destruct (failReply_status (FromStore e))]. subst rep.
    destruct Hresp as [->|[k ->]]; intros [= <- <-]; (split_and!; [by apply Hv'|done|]); [|by split].
    exists store. split; [done|]. unfold provider. by rewrite Ec.
  - destruct x as [d|e]; [by subst rep|]. subst rep. intros [= <- <-]. split_and!; [by apply Hv'|done|]. split; [|split].
    + intros Hmiss%store_missing. exists store. split; [done|]. unfold provider. rewrite Ec. exact (Read_missing store key _ _ _ Ex' Hmiss).
    + apply storage_words.
    + intros Hse%code_not_sealed; [done|]. apply store_not_sealed.
Qed.

(** A change was made, or it is told that none was. *)
Definition changed (c : Sdk.storageClient) (s s' : Server W P) (key : string) (v : option string) (ok : bool) : Prop :=
  (exists store, reaches c s key store /\ updated store (provider s) (provider s') key v) \/
  (ok = false /\ bucketIn (pl_cfg pl) s' = bucketIn (pl_cfg pl) s).

Lemma mutation_spec c method key b rt n r n' v : wired c -> dataRoute method "/v1/object" = Some rt -> isData rt = true ->
  headerName rt = Sdk.headerKey -> allocated (wi_server n) ->
  let s := wi_server n in let s' := wi_server n' in
  (forall id sc store rep, reachesBy c s key id sc store ->
     outcome (pl_cfg pl) rt (asked c method "/v1/object" (headerName rt) key b) key id sc store (sv_cloud s) (sv_cloud s') rep ->
     re_code rep <> CodeSealed /\ (updated store (provider s) (provider s') key v \/
       (re_status rep / 100 <> 2 /\ objects store (provider s') = objects store (provider s)))) ->
  Sdk.do c method "/v1/object" Sdk.headerKey key b n = (r, n') ->
  vaultOf s' = vaultOf s /\ changed c s s' key v (is_ok r) /\
  forall e, r = Err e -> Sdk.Is e Sdk.ErrStorageSealed = true -> ~ serving s.
Proof.
  intros Hw Hrt Hd Hh Ha s s' Hout E. subst s s'. rewrite <- Hh in E. apply (op_spec _ _ _ _ _ _ _ _ _ Hw Hrt Hd Ha) in E as [Hv Hr].
  destruct Hr as [(Hc & e & -> & Hm)|(id & sc & store & rep & Hre & Ho & Hr)].
  { split_and!; [done| |intros ? [= <-]; apply Hm]. right. split; [done|]. unfold bucketIn. by rewrite Hc. }
  destruct (Hout _ _ _ _ Hre Ho) as [Hcode Hupd]. assert (reaches c (wi_server n) key store) as Hrs by (by exists id, sc).
  clear Hre. rename Hrs into Hre.
  assert (is_ok r = false \/ re_status rep / 100 = 2 -> changed c (wi_server n) (wi_server n') key v (is_ok r)) as Hch.
  { intros Hor. destruct Hupd as [Hu|[Hst Hobj]]; [left; by exists store|right].
    rewrite !(reaches_objects _ _ _ _ _ Hre) in Hobj. destruct Hor as [?|?]; [by split|done]. }
  destruct Hr as [(e & -> & Hm)|[(Hok & resp & -> & _)|(Hno & ->)]].
  - split_and!; [done|by apply Hch; left|]. intros ? [= <-]. apply Hm.
  - split_and!; [done|by apply Hch; right|done].
  - split_and!; [done|by apply Hch; left|]. intros ? [= <-] Hs%storageError_is. exfalso. apply Hcode. naive_solver.
Qed.

Lemma failed_code e : SSealed ∉ wraps e -> re_code (failReply e) <> CodeSealed.
Proof. by intros Hn ?%code_sealed. Qed.

Lemma client_write c key data n r n' : wired c -> allocated (wi_server n) -> ids_held (wi_server n) ->
  Sdk.clientWrite c key data n = (r, n') ->
  let s := wi_server n in let s' := wi_server n' in
  vaultOf s' = vaultOf s /\ changed c s s' key (Some data) (is_ok r) /\
  forall e, r = Err e -> Sdk.Is e Sdk.ErrStorageSealed = true -> ~ serving s.
Proof.
  intros Hw Ha Hids. unfold Sdk.clientWrite, mbind, eff_bind. destruct (Sdk.do _ _ _ _ _ _ n) as [r1 n1] eqn:E.
  apply (mutation_spec c "PUT" key (Some data) PutObject n r1 n1 (Some data) Hw eq_refl eq_refl eq_refl Ha) in E.
  - destruct E as (Hv & Hch & Hs). destruct r1; intros [= <- <-]; split_and!; [done..|]; intros ? [= <-]; by apply Hs.
  - intros id sc store rep Hby [(-> & Hc & _)|[_ [[-> Hc]|(data' & x & Hb & Ew & ->)]]].
    + split; [apply failed_code; apply (bool_decide_unpack _); exact I|]. right. split; [apply failReply_status|].
      unfold provider. by rewrite Hc.
    + split; [apply failed_code; apply (bool_decide_unpack _); exact I|]. right. split; [apply failReply_status|].
      unfold provider. by rewrite Hc.
    + unfold readBody in Hb. destruct (_ <? _); [done|]. injection Hb as <-. unfold provider.
      split; [destruct x; [done|apply failed_code, store_not_sealed]|].
      destruct (sv_cloud (wi_server n)) as [w p], (sv_cloud (wi_server n1)) as [w1 p1].
      apply Write_cases in Ew as [(kek & blob & sn & Hk & Hval & Hb & Ew)|[Hf Ew]].
      * left. apply replaced_updated in Ew. by rewrite (sealed_value _ _ _ _ _ _ _ (reaches_store _ _ _ _ Hids (ex_intro _ id (ex_intro _ sc Hby))) Hk Hb) in Ew.
      * right. split; [|done]. destruct x; [done|]. apply failReply_status.
Qed.

Lemma client_delete c key n r n' : wired c -> allocated (wi_server n) -> Sdk.clientDelete c key n = (r, n') ->
  let s := wi_server n in let s' := wi_server n' in
  vaultOf s' = vaultOf s /\ changed c s s' key None (is_ok r) /\
  forall e, r = Err e -> Sdk.Is e Sdk.ErrStorageSealed = true -> ~ serving s.
Proof.
  intros Hw Ha. unfold Sdk.clientDelete, mbind, eff_bind. destruct (Sdk.do _ _ _ _ _ _ n) as [r1 n1] eqn:E.
  apply (mutation_spec c "DELETE" key None DeleteObject n r1 n1 None Hw eq_refl eq_refl eq_refl Ha) in E.
  - destruct E as (Hv & Hch & Hs). destruct r1; intros [= <- <-]; split_and!; [done..|]; intros ? [= <-]; by apply Hs.
  - intros id sc store rep Hre [(-> & Hc & _)|[_ (x & Ew & ->)]].
    + split; [apply failed_code; apply (bool_decide_unpack _); exact I|]. right. split; [apply failReply_status|].
      unfold provider. by rewrite Hc.
    + split; [destruct x; [done|apply failed_code, store_not_sealed]|]. unfold provider.
      destruct (sv_cloud (wi_server n)) as [w p], (sv_cloud (wi_server n1)) as [w1 p1].
      apply Delete_cases in Ew as [Ew|[Hf Ew]]; [left|right].
      * unfold updated, value. cbn [snd]. rewrite Ew, lookup_delete_eq. split; [done|]. intros key' Hne. by rewrite lookup_delete_ne.
      * split; [|done]. destruct x; [done|]. apply failReply_status.
Qed.

(** *** Listing *)

Lemma OpenName_valid nk path sealed name : OpenName nk path sealed = Ok name -> ValidString name = true.
Proof.
  unfold OpenName. destruct (_ <? _); [done|]. intros (gcm & _ & E)%bind_ok. destruct (gcmOpen _ _ _ _) as [pt|]; [|done].
  destruct (unpadName (bytes pt)) as [k|] eqn:Eu; [|done]. injection E as ->.
  apply unpadName_spec in Eu; [|apply bytes_range]. by destruct Eu as (? & ? & ?).
Qed.

Lemma nameFrom_valid store (p : P) info name : nameFrom store p info name -> ValidString name = true.
Proof.
  intros [E|(st & head & rest & h & _ & _ & _ & E)]; [|by eapply OpenName_valid]. unfold mirrorName in E. cbv zeta in E.
  case_decide; [done|]. destruct (Base64DecodeString _) as [sealed|]; [|done].
  destruct (OpenName _ _ sealed) as [n|] eqn:Eo; [|done]. injection E as ->. by eapply OpenName_valid.
Qed.

(** What a listing holds: the keys kept under the prefix, and nothing that is not under it. *)
Definition lists (store : Store) (p : P) (prefix : string) (names : Datatypes.list string) : Prop :=
  (forall key, HasPrefix key prefix = true -> kept store p key -> key ∈ names) /\
  forall name, name ∈ names -> HasPrefix name prefix = true /\ exists info, nameFrom store p info name /\ is_Some (objects store p !! oi_Name info).

Lemma List_lists store prefix w p names failures w' p' : Store.List (W := W) store prefix (w, p) = (Ok (names, failures), (w', p')) ->
  lists store p prefix names /\ Forall (fun k => ValidString k = true) names.
Proof.
  intros E. apply List_spec in E as (_ & infos & entries & Hi & -> & [C1 C2 _ _]).
  assert (forall e, e ∈ sort_slice (fun a b => string_ltb (e_Key a) (e_Key b)) entries <-> e ∈ entries) as Hin
    by (intros e; by rewrite sort_slice_perm).
  split; [split|].
  - intros key Hp Hk. apply kept_named in Hk as (st & Hst & Hm).
    destruct (C2 (infoOf (pathOf store key, st)) key) as (e & He & <- & _); [|done|done|by apply list_elem_of_fmap_2, Hin].
    rewrite Hi. apply list_elem_of_fmap_2, list_elem_of_filter. split; [by apply TokenPrefix_covers|]. by apply elem_of_map_to_list.
  - intros name (e & -> & He)%list_elem_of_fmap. apply Hin, C1 in He as (? & info & Hinf & _ & _ & _ & Hn). split; [done|].
    exists info. split; [done|]. rewrite Hi in Hinf. apply list_elem_of_fmap in Hinf as ([path st] & -> & Hf).
    apply list_elem_of_filter in Hf as [_ Hf]. apply elem_of_map_to_list in Hf. cbn. eauto.
  - apply Forall_fmap, Forall_forall. intros e He. apply Hin, C1 in He as (_ & info & _ & _ & _ & _ & Hn). by eapply nameFrom_valid.
Qed.

Lemma client_list c prefix n r n' : wired c -> allocated (wi_server n) -> Sdk.clientList c prefix n = (r, n') ->
  let s := wi_server n in let s' := wi_server n' in
  vaultOf s' = vaultOf s /\ bucketIn (pl_cfg pl) s' = bucketIn (pl_cfg pl) s /\
  match r with
  | Ok names => exists store, reaches c s prefix store /\ lists store (provider s) prefix names
  | Err e => Sdk.Is e Sdk.ErrStorageSealed = true -> ~ serving s
  end.
Proof.
  intros Hw Ha. unfold Sdk.clientList, mbind, eff_bind.
  destruct (Sdk.do c "GET" "/v1/list" Sdk.headerPrefix prefix None n) as [r1 n1] eqn:E.
  apply (op_spec c "GET" "/v1/list" prefix None n r1 n1 GetList Hw eq_refl eq_refl Ha) in E as [Hv Hr].
  assert (n' = n1 -> vaultOf (wi_server n') = vaultOf (wi_server n)) as Hv' by (by intros ->).
  destruct Hr as [(Hc & e & -> & Hm)|(id & sc & store & rep & Hby & (x & Ex & Hx) & Hr)].
  { intros [= <- <-]. split_and!; [by apply Hv'|unfold bucketIn; by rewrite Hc|apply Hm]. }
  assert (reaches c (wi_server n) prefix store) as Hre by (by exists id, sc).
  destruct (sv_cloud (wi_server n)) as [w p] eqn:Ec, (sv_cloud (wi_server n1)) as [w1 p1] eqn:Ec1.
  assert (bucketIn (pl_cfg pl) (wi_server n1) = bucketIn (pl_cfg pl) (wi_server n)) as Hb.
  { rewrite <- !(reaches_objects _ _ _ _ _ Hre). unfold provider. rewrite Ec, Ec1. exact (keeps_List store prefix _ _ _ Ex). }
  destruct Hr as [(e & -> & Hm)|[(H2xx & resp & -> & Hresp)|(Hno & ->)]].
  - intros [= <- <-]. split_and!; [by apply Hv'|done|apply Hm].
  - destruct x as [[keys failures]|e]; [|by subst rep; destruct (failReply_status (FromStore e))].
    case_decide as Hf; [|by subst rep; destruct (failReply_status (ListFailed failures))]. subst rep.
    apply List_lists in Ex as [Hl Hva].
    assert (exists rest, encodeJson (BodyKeys keys) = Sdk.rs_body resp +:+ rest) as [rest Er].
    { destruct Hresp as [->|[k ->]]; [exists ""; by rewrite app_string_nil_r|]. apply stake_prefix. }
    destruct (Sdk.decodeKeys (Sdk.rs_body resp)) as [ks|] eqn:Ed; intros [= <- <-]; (split_and!; [by apply Hv'|done|]); [|done].
    rewrite (keys_part _ _ _ _ Hva Er Ed). exists store. split; [done|]. unfold provider. by rewrite Ec.
  - assert (exists e, rep = failReply e /\ SSealed ∉ wraps e) as (e & -> & He).
    { destruct x as [[keys failures]|e].
      - case_decide; [by subst rep|]. subst rep. eexists. split; [done|]. cbn [wraps].
        intros (l & Hl%list_elem_of_In & Hs%list_elem_of_In)%list_elem_of_In%in_concat.
        apply list_elem_of_fmap in Hl as (e & -> & _). by apply store_not_sealed in Hs.
      - subst rep. eexists. split; [done|]. apply store_not_sealed. }
    intros [= <- <-]. split_and!; [by apply Hv'|done|]. intros Hs. by destruct (code_not_sealed _ He Hs).
Qed.

End facts.

(** *** Secrets *)

(** The two ends name secrets alike. *)
Lemma secret_names_agree name : Sdk.validSecretName name = true <-> ValidateSecretName name = Ok tt.
Proof.
  unfold Sdk.validSecretName, ValidateSecretName. change Sdk.MaxSecretNameLen with MaxSecretNameLen.
  destruct (decide (name = "")) as [->|Hne]; [done|]. destruct (Z.ltb_spec MaxSecretNameLen (len name)) as [Hl|Hl].
  { rewrite decide_True by tauto. done. }
  rewrite decide_False by (intros [?|?]; [done|lia]). cbv zeta. set (bs := bytes name). set (n := length bs).
  assert (forall i c, checkSecretByte n (i, c) = Ok tt <-> Sdk.nameByte n i c = true) as Hb.
  { intros i c. unfold checkSecretByte, Sdk.nameByte, isAlnum, isPunct, isLower, isUpper, isDigit, inRange.
    destruct ((97 <=? c) && (c <=? 122)); [done|]. destruct ((65 <=? c) && (c <=? 90)); [done|].
    destruct ((48 <=? c) && (c <=? 57)); [done|]. cbn [orb]. destruct ((c =? 95) || (c =? 45) || (c =? 46)); [|done].
    assert (bool_decide (S i = n) = bool_decide (i = (n - 1)%nat) \/ i = 0%nat) as [->| ->]; [|by destruct (_ || _)|done].
    destruct (decide (i = 0%nat)); [by right|left]. apply bool_decide_ext. lia. }
  assert (forall l, foldM (fun _ ic => checkSecretByte n ic) tt l = Ok tt <-> forallb (fun '(i, c) => Sdk.nameByte n i c) l = true) as Hf.
  { intros l. etrans; [exact (foldM_checks (checkSecretByte n) l)|]. rewrite forallb_forall, Forall_forall.
    split; intros Hall [i c] Hx; apply Hb; apply (Hall (i, c)); by apply list_elem_of_In. }
  specialize (Hf (imap pair bs)). destruct (foldM _ _ _) as [[]|e]; cbn.
  - rewrite (proj1 Hf eq_refl). cbn. by destruct (Contains name "..").
  - destruct (forallb _ _); [|done]. by discriminate (proj2 Hf eq_refl).
Qed.

(** ** Properties *)

Section properties.
Context `{CipherLaws, KeyAgreement, BundleYaml, Sdk.BodyJson, Sdk.Tls} `{ReplyJson} `{!FaithfulJson}.
Context {W P : Type} `{Entropy W, ProviderLaws P} (pl : Place).

#[local] Instance the_wire : Sdk.HttpClient (Wire W P) := overWire pl.

(** C9: What the SDK tells an application of its storage is so, whatever requests and answers the network loses and
    wherever it tears a body. A read that returns bytes returns the value the key has in the store of the scope that
    owns it; a write or a delete that succeeds was made, and one that fails was made whole or not at all; a listing
    that is returned holds every key kept under the prefix and nothing else. An object is said to be missing only when
    the bucket holds nothing at its path, and storage to be sealed only when the keyholder does not serve. *)
Theorem the_sdk_tells_what_is_so c key data (n n' : Wire W P) :
  wired pl c -> allocated (wi_server n) -> ids_held (wi_server n) ->
  let s := wi_server n in let s' := wi_server n' in let api := Sdk.storageLive c in
  (forall r, Sdk.Read api key n = (r, n') -> bucketIn (pl_cfg pl) s' = bucketIn (pl_cfg pl) s /\
     match r with
     | Ok d => exists store, reaches pl c s key store /\ value store (provider s) key = Some d
     | Err e => honest pl c s key e
     end) /\
  (forall r, Sdk.Write api key data n = (r, n') -> changed pl c s s' key (Some data) (is_ok r) /\
     forall e, r = Err e -> Sdk.Is e Sdk.ErrStorageSealed = true -> ~ serving s) /\
  (forall r, Sdk.Delete api key n = (r, n') -> changed pl c s s' key None (is_ok r) /\
     forall e, r = Err e -> Sdk.Is e Sdk.ErrStorageSealed = true -> ~ serving s) /\
  (forall r, Sdk.List api key n = (r, n') -> bucketIn (pl_cfg pl) s' = bucketIn (pl_cfg pl) s /\
     match r with
     | Ok names => exists store, reaches pl c s key store /\ lists store (provider s) key names
     | Err e => Sdk.Is e Sdk.ErrStorageSealed = true -> ~ serving s
     end).
Proof.
  intros Hw Ha Hi. cbn [Sdk.Read Sdk.Write Sdk.Delete Sdk.List Sdk.through]. split_and!; intros r E.
  - by apply client_read in E as (_ & ? & ?).
  - by apply client_write in E as (_ & ? & ?).
  - by apply client_delete in E as (_ & ? & ?).
  - by apply client_list in E as (_ & ? & ?).
Qed.

(** C38: Secrets are read and never written by an application. A name the operator could not have used is refused
    before anything is asked; a secret that is returned is the value stored under the application's prefix and that
    name; it is said not to exist only when nothing is there, in the words of secrets and not of objects; and when the
    prefix is the secrets subtree of the scope that owns it, a write or a delete under it by an application changes
    nothing and fails. *)
Theorem secrets_are_read_and_never_written c prefix name data (n n' : Wire W P) :
  wired pl c -> allocated (wi_server n) ->
  let s := wi_server n in let s' := wi_server n' in let key := prefix +:+ name in
  (forall r, Sdk.Get (Sdk.secretsClient prefix (Sdk.storageLive c)) name n = (r, n') ->
     bucketIn (pl_cfg pl) s' = bucketIn (pl_cfg pl) s /\
     (ValidateSecretName name <> Ok tt -> r = Err (Sdk.InvalidSecretName name) /\ n' = n) /\
     match r with
     | Ok secret => exists store, reaches pl c s key store /\ value store (provider s) key = Some (Sdk.Reveal secret)
     | Err e => Sdk.Is e Sdk.ErrObjectNotFound = false /\
         (Sdk.Is e Sdk.ErrSecretNotFound = true -> exists store, reaches pl c s key store /\
            objects store (provider s) !! pathOf store key = None) /\
         (Sdk.Is e Sdk.ErrStorageSealed = true -> ~ serving s)
     end) /\
  ((forall id, caller pl c = Some id -> id_Role id = RoleApp) ->
   (forall sc, sc ∈ va_scopes (vaultOf s) -> Owns sc key = true -> IsSecretsKey (sc_Prefix sc) key = true) ->
   forall r, Sdk.Write (Sdk.storageLive c) key data n = (r, n') \/ Sdk.Delete (Sdk.storageLive c) key n = (r, n') ->
   is_ok r = false /\ bucketIn (pl_cfg pl) s' = bucketIn (pl_cfg pl) s).
Proof.
  intros Hw Ha. split.
  - intros r. cbn [Sdk.Get Sdk.Read Sdk.through].
    destruct (Sdk.validSecretName name) eqn:Hv; cbn [negb].
    { apply secret_names_agree in Hv. unfold mbind, eff_bind, withErr.
      destruct (Sdk.clientRead c (prefix +:+ name) n) as [r1 n1] eqn:E. apply client_read in E as (_ & Hb & Hr); [|done..].
      destruct r1 as [d|e]; intros [= <- <-]; (split; [exact Hb|]; split; [by intros ?|]); [exact Hr|]. destruct Hr as (Hm & Hn & Hs).
      destruct (Sdk.Is e Sdk.ErrObjectNotFound) eqn:He; (split; [|split]); try done.
      intros Hx. change (Sdk.Is e Sdk.ErrSecretNotFound = true) in Hx. by rewrite Hn in Hx. }
    intros [= <- <-]. by split_and!.
  - intros Hid Hsc r E. cbn [Sdk.Write Sdk.Delete Sdk.through] in E.
    assert (forall method b rt r1 n1, dataRoute method "/v1/object" = Some rt -> rt = PutObject \/ rt = DeleteObject ->
      Sdk.do c method "/v1/object" Sdk.headerKey (prefix +:+ name) b n = (r1, n1) ->
      is_ok r1 = false /\ sv_cloud (wi_server n1) = sv_cloud (wi_server n)) as Hno.
    { intros method b rt r1 n1 Hrt Hput Hdo. assert (isData rt = true /\ headerName rt = Sdk.headerKey) as [Hd Hh] by (by destruct Hput as [-> | ->]).
      rewrite <- Hh in Hdo. apply (op_spec pl c method "/v1/object" (prefix +:+ name) b n r1 n1 rt Hw Hrt Hd Ha) in Hdo as [_ [(Hc & e & -> & _)|(id & sc & store & rep & Hby & Ho & Hr)]]; [done|].
      destruct Hby as (_ & Hcall & Hin & Hown & _). specialize (Hid _ Hcall). specialize (Hsc _ Hin Hown).
      assert (~ mutable id sc (prefix +:+ name)) as Hmu by (intros Hm; rewrite (Hm Hid) in Hsc; done).
      assert (rep = failReply ErrSecretsReadOnly /\ sv_cloud (wi_server n1) = sv_cloud (wi_server n)) as [-> Hc].
      { destruct Hput as [-> | ->]; destruct Ho as [(? & ? & _)|[? _]]; done. }
      split; [|done]. by destruct Hr as [(e & -> & _)|[(Hok & _)|(_ & ->)]]. }
    destruct E as [E|E]; unfold Sdk.clientWrite, Sdk.clientDelete, mbind, eff_bind in E.
    + destruct (Sdk.do _ _ _ _ _ _ n) as [r1 n1] eqn:Ed. eapply Hno in Ed as [Hf Hc]; [|reflexivity|by left].
      destruct r1; [done|]. injection E as <- <-. split; [done|]. unfold bucketIn. by rewrite Hc.
    + destruct (Sdk.do _ _ _ _ _ _ n) as [r1 n1] eqn:Ed. eapply Hno in Ed as [Hf Hc]; [|reflexivity|by right].
      destruct r1; [done|]. injection E as <- <-. split; [done|]. unfold bucketIn. by rewrite Hc.
Qed.

End properties.

(** *** Examples *)

#[local] Existing Instance oneBundle.

#[local] Instance exReplies : ReplyJson := {|
  encodeJson b := match b with
                  | BodyKeys keys => carry keys
                  | BodyState st _ => carry (phaseText (st_Phase st), (st_Since st, st_Generation st))
                  | _ => ""
                  end
|}.

#[local] Instance exBodies : Sdk.BodyJson := {|
  Sdk.decodeKeys := uncarry;
  Sdk.decodeState s := '(phase, (since, generation)) ← uncarry s; Some (phase, since, generation)
|}.

#[local] Instance exReplies_faithful : FaithfulJson.
Proof.
  split; cbn.
  - intros keys _. apply uncarry_carry.
  - intros keys pre rest ks _ E Ed. by apply (carry_prefix _ _ _ _ E Ed).
  - intros st control pre rest phase since generation E. destruct (uncarry pre) as [[p [t g]]|] eqn:Ed; cbn; [|done].
    intros [= <- <- <-]. by injection (carry_prefix _ _ _ _ E Ed).
Qed.

#[local] Instance exTls : Sdk.Tls := {| Sdk.AppendCertsFromPEM _ := true; Sdk.X509KeyPair _ _ := true; Sdk.parseURL _ := true |}.

(** The keyholder of one application, and the application. *)
Definition exPlace : Place := mkPlace exConfig "https://ks" "http://ks:8081" (fun _ => Some ["farcast://prod/app/apps/web"]).
Definition exEnv : Sdk.Environment := list_to_map
  [(Sdk.envStorageEndpoint, "https://ks/"); (Sdk.envStorageStatus, "http://ks:8081"); (Sdk.envStorageScope, "app-apps-web");
   (Sdk.envStorageCA, "ca"); (Sdk.envStorageClientCert, "cert"); (Sdk.envStorageClientKey, "key")].
Definition exClient : Sdk.storageClient :=
  Sdk.mkStorageClient "https://ks" "http://ks:8081" "app-apps-web" (Sdk.mkTransport "ca" ("cert", "key") "").

Example the_environment_wires : Sdk.newStorageFromEnv exEnv = Sdk.storageLive exClient.
Proof. by vm_compute. Qed.

Lemma exClient_wired : wired exPlace exClient.
Proof. split; [done|by right]. Qed.

Definition exWire (l : Datatypes.list weather) : Wire nat cloud := mkWire exServer l.
Definition exApi : Sdk.StorageAPI := Sdk.storageLive exClient.
#[local] Instance exHttp : Sdk.HttpClient (Wire nat cloud) := overWire exPlace.

Definition exAfterWrite : result Sdk.sdk_error unit * Wire nat cloud := Sdk.Write exApi "app/apps/web/state" "hello" (exWire []).

Example a_write_is_read : exAfterWrite.1 = Ok tt /\ (Sdk.Read exApi "app/apps/web/state" exAfterWrite.2).1 = Ok "hello"%string /\
  (Sdk.List exApi "app/apps/web/" exAfterWrite.2).1 = Ok ["app/apps/web/state"%string].
Proof. split_and!; by vm_compute. Qed.

(** A restarted keyholder is sealed: so says the code of the data path, and the status endpoint when that is lost. *)
Example a_restart_is_a_seal : (Sdk.Read exApi "app/apps/web/state" (mkWire exRestarted [])).1 = Err (Sdk.Bare Sdk.ErrStorageSealed) /\
  (Sdk.Read exApi "app/apps/web/state" (mkWire exRestarted [RequestLost])).1 = Err (Sdk.Bare Sdk.ErrStorageSealed) /\
  (Sdk.Read exApi "app/apps/web/state" (mkWire exServer [RequestLost])).1 = Err (Sdk.Unavailable Sdk.ReadyButSilent).
Proof. split_and!; by vm_compute. Qed.

Lemma exServer_ids : ids_held exServer.
Proof.
  assert (forallb (fun sc => forallb (fun e => len (ke_ID e) =? KeyIDLen) (kr_keys (sc_keys (load (memoryOf exServer) sc))))
    (va_scopes (vaultOf exServer)) = true) as Hall by (vm_compute; reflexivity).
  intros sc Hsc. rewrite forallb_forall in Hall. apply list_elem_of_In, Hall in Hsc. rewrite forallb_forall in Hsc.
  apply Forall_forall. intros e He. by apply Z.eqb_eq, Hsc, list_elem_of_In.
Qed.

Lemma the_sdk_tells_what_is_so_witness : exists store, reaches exPlace exClient exServer "app/apps/web/state" store /\
  value store (provider (wi_server exAfterWrite.2)) "app/apps/web/state" = Some "hello"%string.
Proof.
  destruct (the_sdk_tells_what_is_so exPlace exClient "app/apps/web/state" "hello" (exWire []) exAfterWrite.2
    exClient_wired exServer_allocated exServer_ids) as (_ & Hw & _).
  destruct (Hw exAfterWrite.1 (surjective_pairing _)) as [[(store & Hr & [Hv _])|[Hf _]] _].
  - exists store. exact (conj Hr Hv).
  - assert (is_ok exAfterWrite.1 = true) as Ht by (vm_compute; reflexivity). rewrite Ht in Hf. discriminate Hf.
Defined.

Definition exSecret : result Sdk.sdk_error Sdk.Secret * Wire nat cloud :=
  Sdk.Get (Sdk.secretsClient "app/apps/web/secrets/" exApi) "api-key" (exWire []).

Lemma secrets_are_read_and_never_written_witness : exists e store, exSecret.1 = Err e /\
  reaches exPlace exClient exServer "app/apps/web/secrets/api-key" store /\
  objects store (provider exServer) !! pathOf store "app/apps/web/secrets/api-key" = None.
Proof.
  destruct (secrets_are_read_and_never_written exPlace exClient "app/apps/web/secrets/" "api-key" "" (exWire []) exSecret.2
    exClient_wired exServer_allocated) as [Hg _].
  destruct (Hg exSecret.1 (surjective_pairing _)) as (_ & _ & Hr).
  assert (exSecret.1 = Err (Sdk.OfSecret "api-key" (Sdk.Bare Sdk.ErrSecretNotFound))) as E by (vm_compute; reflexivity).
  rewrite E in Hr. destruct Hr as (_ & Hn & _). destruct (Hn eq_refl) as (store & H1 & H2).
  eexists _, store. exact (conj E (conj H1 H2)).
Defined.

(** The prefix of secrets is only checked to name the subtree somewhere: one that names it below the scope is taken,
    and is not what the keyholder protects. *)
Lemma a_secrets_prefix_may_be_unprotected : exists prefix,
  Sdk.validSecretsPrefix prefix = Ok tt /\ forall name, IsSecretsKey "app/apps/web/" (prefix +:+ name) = false.
Proof. exists "app/apps/web/shared/secrets/web/"%string. split; [by vm_compute|]. done. Qed.
