(* ===== verification/Translate.v ===== *)
(** * From a manifest to workloads ([planck/translate])

    The checks a deployment passes before it is rendered, and the stream of
    Kubernetes documents, line by line.  The template's text is the definitions
    [namespaceDoc] to [networkPolicyDoc]; a line that holds a certificate is a
    block of lines. *)

From Stdlib Require Import Ascii.
From S2P Require Import Prelude GoStrings Strconv Slices Net KeyringFile Manifest EgressPolicy Sdk.

(** ** The deployment ([translate.go]) *)

Definition TrSystemNamespace : string := "farcast-system".
Definition TrFatLineService : string := "fatline-egress".
Definition TrFatLineWorkload : string := "fatline".
Definition TrFatLineEgressPort : Z := 3128.
Definition TrStorageService : string := "datasphered".
Definition TrStoragePort : Z := 8443.
Definition TrStorageStatusService : string := "datasphered-status".
Definition TrStorageStatusPort : Z := 8444.
Definition TrNodeLocalDNS : string := "169.254.20.10/32".
Definition RequestCPUMilli : Z := 100.
Definition RequestMemMiB : Z := 128.
Definition DefaultPort : Z := 8080.

Record AppStorage := mkAppStorage {
  as_CertPEM : string;
  as_KeyPEM : string;
  as_Scope : string;
  as_SecretsPrefix : string
}.

Record TrConfig := mkTrConfig {
  tc_Manifest : Manifest.Manifest;
  tc_Namespace : string;
  tc_Images : gmap string string;
  tc_Instance : string;
  tc_Storage : gmap string AppStorage;
  tc_StorageCAPEM : string;
  tc_StorageServerName : string;
  tc_Credentials : gmap string string
}.

Record appData := mkAppData {
  ad_Name : string;
  ad_Image : string;
  ad_ProxyURL : string;
  ad_ClientCert : string;
  ad_ClientKey : string;
  ad_Scope : string;
  ad_SecretsPrefix : string
}.

Record templateData := mkTemplateData {
  td_Apps : list appData;
  td_Namespace : string;
  td_Deployment : string;
  td_Instance : string;
  td_SystemNamespace : string;
  td_FatLineService : string;
  td_FatLineWorkload : string;
  td_StorageService : string;
  td_StorageStatusService : string;
  td_StorageServerName : string;
  td_StorageCA : string;
  td_NodeLocalDNS : string;
  td_HasStorage : bool;
  td_FatLineEgressPort : Z;
  td_StoragePort : Z;
  td_StorageStatusPort : Z;
  td_RequestCPUMilli : Z;
  td_RequestMemMiB : Z;
  td_Port : Z
}.

Inductive label_error := LabelEmpty | LabelLong | NotADNSLabel.

Inductive translate_error :=
| NoManifestName
| DeclaresNoApps
| BadNamespace (e : label_error)
| ReservedNamespace
| SecretsPrefixOpen (app : string)
| ManagedNamespace
| BadAppName (app : string) (e : label_error)
| AppTwice (app : string)
| NoImage (app : string)
| NotPinned (app image : string)
| NoCredential (app : string)
| NoStorageIdentity (app : string)
| NoStorageScope (app : string).

Definition lines_sep : string := String newline "".

(** [strings.Cut]. *)
Fixpoint Cut (s sep : string) : option (string * string) :=
  match CutPrefix s sep with
  | Some r => Some ("", r)
  | None =>
      match s with
      | String a s => '(b, r) ← Cut s sep; Some (String a b, r)
      | "" => None
      end
  end.

Definition validateName (s : string) : result label_error unit :=
  if decide (s = "") then Err LabelEmpty
  else if 63 <? len s then Err LabelLong
  else if forallb (fun '(i, c) => inRange 97 122 c || inRange 48 57 c ||
                     ((c =? 45) && negb (bool_decide (i = 0%nat) || bool_decide (i = length (bytes s) - 1)%nat)))
            (imap pair (bytes s))
  then Ok tt else Err NotADNSLabel.

Definition hasDigest (image : string) : bool :=
  match Cut image "@sha256:" with
  | Some (_, digest) => (len digest =? 64) && forallb (fun c => inRange 48 57 c || inRange 97 102 c) (bytes digest)
  | None => false
  end.

(** A certificate as the body of a YAML block scalar. *)
Definition indentPEM (pem : string) : string :=
  if decide (pem = "") then ""
  else Join (map (fun l => "    " +:+ l) (SplitByte newline (TrimRight pem newline))) lines_sep.

(** ** The template ([workload.go]) *)

Definition quote : string := String "034" "".
Definition hasInstance (d : templateData) : bool := bool_decide (td_Instance d <> "").

Definition namespaceDoc (d : templateData) : list string :=
  ["apiVersion: v1";
   "kind: Namespace";
   "metadata:";
   "  name: " +:+ td_Namespace d;
   "  labels:";
   "    app.kubernetes.io/managed-by: farcast";
   "    app.kubernetes.io/part-of: " +:+ td_Deployment d] ++
  (if hasInstance d then
    ["    farcast.sofmon.com/instance: " +:+ td_Instance d]
   else []).

Definition secretDoc (d : templateData) (a : appData) : list string :=
  ["apiVersion: v1";
   "kind: Secret";
   "metadata:";
   "  name: " +:+ ad_Name a +:+ "-egress";
   "  namespace: " +:+ td_Namespace d;
   "  labels:";
   "    app.kubernetes.io/name: " +:+ ad_Name a;
   "    app.kubernetes.io/managed-by: farcast";
   "    app.kubernetes.io/part-of: " +:+ td_Deployment d;
   "# This application's egress credential, inside the proxy address it is given.";
   "#";
   "# It rides as userinfo because that is the universal HTTP proxy convention —";
   "# every standard client turns it into Proxy-Authorization on its own — which is";
   "# what lets ADR 0013 change how an application is identified without changing";
   "# the application (decision 2).";
   "#";
   "# What it authorises is exactly this app's declared hosts, nothing wider, and it";
   "# is reminted on every deploy.";
   "stringData:";
   "  FARCAST_FATLINE_PROXY: " +:+ ad_ProxyURL a] ++
  (if td_HasStorage d then
    ["  # This application's identity on the keyholder's data path (ADR 0018";
     "  # decision 1): the leaf that names it farcast://<instance>/app/<ns>/<name>,";
     "  # and the key that proves it. The keyholder derives what this application";
     "  # may reach from the name — its scope, and its own secrets and nobody";
     "  # else's — and admits nothing it cannot identify.";
     "  #";
     "  # Same class as the credential above (ADR 0013 decision 8): scoped,";
     "  # rotated on every deploy, and worth exactly one application's storage to";
     "  # whoever reads it — which a cloud that can read the keyholder's memory";
     "  # already has. It binds neighbours, tenants and thieves, not the provider.";
     "  FARCAST_STORAGE_CLIENT_CERT: |";
     ad_ClientCert a;
     "  FARCAST_STORAGE_CLIENT_KEY: |";
     ad_ClientKey a]
   else []).

Definition configMapDoc (d : templateData) (a : appData) : list string :=
  ["apiVersion: v1";
   "kind: ConfigMap";
   "metadata:";
   "  name: " +:+ ad_Name a;
   "  namespace: " +:+ td_Namespace d;
   "  labels:";
   "    app.kubernetes.io/name: " +:+ ad_Name a;
   "    app.kubernetes.io/managed-by: farcast";
   "    app.kubernetes.io/part-of: " +:+ td_Deployment d;
   "data:";
   "  # Ambient identity. The SDK stamps these on every log record it emits, and";
   "  # without them an application reports the executable's base name and the";
   "  # string " +:+ quote +:+ "local" +:+ quote +:+ " — on a real instance, in the operator's own log stream.";
   "  #";
   "  # Worse than cosmetic: two applications built from one image are then";
   "  # INDISTINGUISHABLE in the operator log stream, and farcast.AppName() — the accessor";
   "  # ADR 0017 points applications at, because Config refuses this namespace —";
   "  # answers with something the manifest never said. Found on the 5.3 walk,";
   "  # where alpha and beta both logged themselves as " +:+ quote +:+ "demo" +:+ quote +:+ ".";
   "  FARCAST_APP_NAME: " +:+ ad_Name a] ++
  (if hasInstance d then
    ["  FARCAST_INSTANCE_ID: " +:+ td_Instance d]
   else []) ++
  ["  # FARCAST_FATLINE_PROXY is NOT here. It carries this application's egress";
   "  # credential (ADR 0013), so it lives in the Secret below — a ConfigMap is";
   "  # readable by anything that can read ConfigMaps, and this value is what tells";
   "  # FatLine which application is asking."] ++
  (if td_HasStorage d then
    ["  FARCAST_STORAGE_ENDPOINT: https://" +:+ td_StorageService d +:+ "." +:+ td_SystemNamespace d +:+
      ".svc.cluster.local:" +:+ FormatInt (td_StoragePort d);
     "  FARCAST_STORAGE_STATUS_ENDPOINT: https://" +:+ td_StorageStatusService d +:+ "." +:+
       td_SystemNamespace d +:+ ".svc.cluster.local:" +:+ FormatInt (td_StorageStatusPort d);
     "  # The scope this application owns, and nobody else does. It is a";
     "  # cross-check the keyholder refuses on mismatch rather than a claim: what";
     "  # this application may reach follows from the leaf below (ADR 0018).";
     "  FARCAST_STORAGE_SCOPE: " +:+ ad_Scope a;
     "  # The address an app dials and the identity the keyholder must present are";
     "  # different things and are carried separately, on purpose — the certificate";
     "  # names an instance-scoped identity that never appears in public DNS.";
     "  FARCAST_STORAGE_SERVER_NAME: " +:+ td_StorageServerName d;
     "  # The instance CA certificate. A certificate, not a key: it is published in";
     "  # every TLS handshake, and guarding it more than this would imply otherwise.";
     "  FARCAST_STORAGE_CA: |";
     td_StorageCA d]
   else []) ++
  ["  # Where this application's secrets live, fully qualified. The SDK never";
   "  # derives it: a prefix guessed one segment away addresses somebody else's";
   "  # subtree, or one the keyholder does not protect.";
   "  #";
   "  # It is inside this application's own scope, so it IS a boundary: another";
   "  # application's leaf does not reach this scope at all, and the keyholder";
   "  # refuses it before the key is decoded (ADR 0018 decisions 1 and 5). What";
   "  # the reserved segment still buys on top of that is the rule about the";
   "  # OPERATION — no application creates or destroys a secret, whoever it is.";
   "  FARCAST_SECRETS_PREFIX: " +:+ ad_SecretsPrefix a].

Definition deploymentDoc (d : templateData) (a : appData) : list string :=
  ["apiVersion: apps/v1";
   "kind: Deployment";
   "metadata:";
   "  name: " +:+ ad_Name a;
   "  namespace: " +:+ td_Namespace d;
   "  labels:";
   "    app.kubernetes.io/name: " +:+ ad_Name a;
   "    app.kubernetes.io/managed-by: farcast";
   "    app.kubernetes.io/part-of: " +:+ td_Deployment d;
   "    # TechnoCore stops applications and only applications (ADR 0009 decision";
   "    # 6). Without this label the kernel treats the workload as unclassified";
   "    # and protects it, which sounds safer and means a cost shutdown cannot";
   "    # contain the thing it was deployed to contain.";
   "    farcast.sofmon.com/tier: app";
   "spec:";
   "  replicas: 1";
   "  selector:";
   "    matchLabels:";
   "      app.kubernetes.io/name: " +:+ ad_Name a;
   "  template:";
   "    metadata:";
   "      labels:";
   "        app.kubernetes.io/name: " +:+ ad_Name a;
   "        # Both labels go on the POD, not only the workload. A controller does";
   "        # not copy its own labels onto the pods it creates, and TechnoCore";
   "        # meters pods: without managed-by here the application is invisible to";
   "        # the cost meter, which reports $0 and looks healthy while doing it.";
   "        # Found on a live cluster during the 4.1 walk.";
   "        app.kubernetes.io/managed-by: farcast";
   "        app.kubernetes.io/part-of: " +:+ td_Deployment d;
   "        farcast.sofmon.com/tier: app";
   "    spec:";
   "      # An application is handed no Kubernetes identity. It talks to FarCast's";
   "      # services over the network with the credentials in its ConfigMap; it has";
   "      # no business reaching the API server, and a projected token is the";
   "      # difference between an app compromise and a cluster compromise.";
   "      automountServiceAccountToken: false";
   "      securityContext:";
   "        seccompProfile:";
   "          type: RuntimeDefault";
   "      containers:";
   "        - name: " +:+ ad_Name a;
   "          image: " +:+ ad_Image a;
   "          envFrom:";
   "            - configMapRef:";
   "                name: " +:+ ad_Name a;
   "            # The proxy address, with this application's egress credential in";
   "            # it. There is no direct-dial fallback: the NetworkPolicy below";
   "            # denies everything else, so an app that ignores the variable fails";
   "            # closed rather than quietly bypassing the boundary (ADR 0005), and";
   "            # one that reaches FatLine without the credential is refused";
   "            # because FatLine cannot tell whose declarations to enforce.";
   "            - secretRef:";
   "                name: " +:+ ad_Name a +:+ "-egress";
   "          ports:";
   "            - name: http";
   "              containerPort: " +:+ FormatInt (td_Port d);
   "          resources:";
   "            requests:";
   "              cpu: " +:+ FormatInt (td_RequestCPUMilli d) +:+ "m";
   "              memory: " +:+ FormatInt (td_RequestMemMiB d) +:+ "Mi";
   "          securityContext:";
   "            allowPrivilegeEscalation: false";
   "            capabilities:";
   "              drop:";
   "                - ALL"].

Definition serviceDoc (d : templateData) (a : appData) : list string :=
  ["apiVersion: v1";
   "kind: Service";
   "metadata:";
   "  name: " +:+ ad_Name a;
   "  namespace: " +:+ td_Namespace d;
   "  labels:";
   "    app.kubernetes.io/name: " +:+ ad_Name a;
   "    app.kubernetes.io/managed-by: farcast";
   "    app.kubernetes.io/part-of: " +:+ td_Deployment d;
   "spec:";
   "  # ClusterIP, never LoadBalancer. An application does not get its own public";
   "  # address: the instance has exactly one point of presence and it is FatLine's";
   "  # (ADR 0005). A translator that emitted a LoadBalancer would hand every app a";
   "  # way around the boundary — and a standing bill nobody approved.";
   "  type: ClusterIP";
   "  selector:";
   "    app.kubernetes.io/name: " +:+ ad_Name a;
   "  ports:";
   "    - name: http";
   "      port: " +:+ FormatInt (td_Port d);
   "      targetPort: http"].

Definition networkPolicyDoc (d : templateData) (a : appData) : list string :=
  ["apiVersion: networking.k8s.io/v1";
   "kind: NetworkPolicy";
   "metadata:";
   "  name: " +:+ ad_Name a;
   "  namespace: " +:+ td_Namespace d;
   "  labels:";
   "    app.kubernetes.io/name: " +:+ ad_Name a;
   "    app.kubernetes.io/managed-by: farcast";
   "    app.kubernetes.io/part-of: " +:+ td_Deployment d;
   "spec:";
   "  podSelector:";
   "    matchLabels:";
   "      app.kubernetes.io/name: " +:+ ad_Name a;
   "  policyTypes:";
   "    - Ingress";
   "    - Egress";
   "  ingress:";
   "    # Reachable from its own deployment and nowhere else. Apps in one manifest";
   "    # are one system and may talk; apps in another deployment are a different";
   "    # tenant of the same instance.";
   "    - from:";
   "        - podSelector: {}";
   "  egress:";
   "    # DNS, by both paths a GKE cluster may use. The namespaceSelector covers";
   "    # a cluster whose pods talk to kube-dns directly; the ipBlock covers";
   "    # NodeLocal DNSCache, which listens on a LINK-LOCAL address on the node";
   "    # and is what GKE Autopilot actually runs.";
   "    #";
   "    # Without the second one an application resolves nothing — not even";
   "    # FatLine's proxy — and the failure looks like a broken application";
   "    # rather than a policy. Found on the 4.2 walk.";
   "    - to:";
   "        - namespaceSelector:";
   "            matchLabels:";
   "              kubernetes.io/metadata.name: kube-system";
   "        - ipBlock:";
   "            cidr: " +:+ td_NodeLocalDNS d;
   "      ports:";
   "        - protocol: UDP";
   "          port: 53";
   "        - protocol: TCP";
   "          port: 53";
   "    # FatLine's forward proxy — the only route to anything outside the";
   "    # cluster. This is what makes the deny-by-default boundary real rather";
   "    # than advisory: an app that ignores FARCAST_FATLINE_PROXY does not reach";
   "    # the internet by another path, it simply fails.";
   "    - to:";
   "        - namespaceSelector:";
   "            matchLabels:";
   "              kubernetes.io/metadata.name: " +:+ td_SystemNamespace d;
   "          podSelector:";
   "            matchLabels:";
   "              app.kubernetes.io/name: " +:+ td_FatLineWorkload d;
   "      ports:";
   "        - protocol: TCP";
   "          port: " +:+ FormatInt (td_FatLineEgressPort d)] ++
  (if td_HasStorage d then
    ["    # The keyholder's data and status ports.";
     "    - to:";
     "        - namespaceSelector:";
     "            matchLabels:";
     "              kubernetes.io/metadata.name: " +:+ td_SystemNamespace d;
     "          podSelector:";
     "            matchLabels:";
     "              app.kubernetes.io/name: " +:+ td_StorageService d;
     "      ports:";
     "        - protocol: TCP";
     "          port: " +:+ FormatInt (td_StoragePort d);
     "        - protocol: TCP";
     "          port: " +:+ FormatInt (td_StorageStatusPort d)]
   else []).

Definition appDocs (d : templateData) (a : appData) : list (list string) :=
  [secretDoc d a; configMapDoc d a; deploymentDoc d a; serviceDoc d a; networkPolicyDoc d a].

(** The stream: every document but the first follows a separator. *)
Definition streamLines (d : templateData) : list string :=
  namespaceDoc d ++ concat (map (cons "---"%string) (concat (map (appDocs d) (td_Apps d)))).

Definition Execute (d : templateData) : string := Join (streamLines d) lines_sep +:+ lines_sep.

(** ** Rendering *)

Section render.
Context `{GoRange}.

Definition withDefaults (c : TrConfig) : TrConfig :=
  mkTrConfig (tc_Manifest c) (if decide (tc_Namespace c = "") then mf_Name (tc_Manifest c) else tc_Namespace c)
    (tc_Images c) (tc_Instance c) (tc_Storage c) (tc_StorageCAPEM c) (tc_StorageServerName c) (tc_Credentials c).

Definition hasStorage (c : TrConfig) : bool :=
  bool_decide (tc_Storage c <> ∅) && (0 <? len (tc_StorageCAPEM c)).

Definition baseData (c : TrConfig) : templateData :=
  mkTemplateData [] (tc_Namespace c) (mf_Name (tc_Manifest c)) (tc_Instance c) TrSystemNamespace TrFatLineService
    TrFatLineWorkload TrStorageService TrStorageStatusService (tc_StorageServerName c) (indentPEM (tc_StorageCAPEM c))
    TrNodeLocalDNS (hasStorage c) TrFatLineEgressPort TrStoragePort TrStorageStatusPort RequestCPUMilli RequestMemMiB DefaultPort.

Definition withApps (d : templateData) (l : list appData) : templateData :=
  mkTemplateData l (td_Namespace d) (td_Deployment d) (td_Instance d) (td_SystemNamespace d) (td_FatLineService d)
    (td_FatLineWorkload d) (td_StorageService d) (td_StorageStatusService d) (td_StorageServerName d) (td_StorageCA d)
    (td_NodeLocalDNS d) (td_HasStorage d) (td_FatLineEgressPort d) (td_StoragePort d) (td_StorageStatusPort d)
    (td_RequestCPUMilli d) (td_RequestMemMiB d) (td_Port d).

(** One turn of the loop over the applications, with the names seen. *)
Definition translateApp (c : TrConfig) (acc : gset string * list appData) (app : Manifest.App)
    : result translate_error (gset string * list appData) :=
  let '(seen, out) := acc in
  let name := ap_Name app in
  _ ← wrapErr (BadAppName name) (validateName name);
  if decide (name ∈ seen) then Err (AppTwice name)
  else
    let image := default "" (tc_Images c !! name) in
    if decide (image = "") then Err (NoImage name)
    else if negb (hasDigest image) then Err (NotPinned name image)
    else
      let credential := default "" (tc_Credentials c !! name) in
      if decide (credential = "") then Err (NoCredential name)
      else
        let proxy := ProxyURL "http" (TrFatLineService +:+ "." +:+ TrSystemNamespace +:+ ".svc.cluster.local")
                       TrFatLineEgressPort name credential in
        let st := default (mkAppStorage "" "" "" "") (tc_Storage c !! name) in
        if negb (hasStorage c) then Ok ({[name]} ∪ seen, out ++ [mkAppData name image proxy "" "" "" ""])
        else if decide (as_CertPEM st = "" \/ as_KeyPEM st = "") then Err (NoStorageIdentity name)
        else if decide (as_Scope st = "" \/ as_SecretsPrefix st = "") then Err (NoStorageScope name)
        else Ok ({[name]} ∪ seen, out ++ [mkAppData name image proxy (indentPEM (as_CertPEM st)) (indentPEM (as_KeyPEM st))
                                            (as_Scope st) (as_SecretsPrefix st)]).

Definition openPrefix (st : AppStorage) : bool :=
  bool_decide (as_SecretsPrefix st <> "") && negb (HasSuffix (as_SecretsPrefix st) "/").

Definition templateOf (c : TrConfig) : result translate_error templateData :=
  let c := withDefaults c in
  if decide (mf_Name (tc_Manifest c) = "") then Err NoManifestName
  else if decide (mf_Apps (tc_Manifest c) = []) then Err DeclaresNoApps
  else
    _ ← wrapErr BadNamespace (validateName (tc_Namespace c));
    if decide (tc_Namespace c = TrSystemNamespace) then Err ReservedNamespace
    else
      match find (fun '(_, st) => openPrefix st) (go_range (tc_Storage c)) with
      | Some (app, _) => Err (SecretsPrefixOpen app)
      | None =>
          if HasPrefix (tc_Namespace c) "kube-" then Err ManagedNamespace
          else
            acc ← foldM (translateApp c) (∅, []) (mf_Apps (tc_Manifest c));
            Ok (withApps (baseData c) acc.2)
      end.

Definition Render (c : TrConfig) : result translate_error string :=
  d ← templateOf c; Ok (Execute d).

End render.
