(* ===== verification/TranslateFacts.v ===== *)
(** * What is deployed (facts on [Translate])

    Which deployments are rendered; the stream read back as documents, flat
    mappings and blocks; and what the SDK, TechnoCore and FatLine find in it. *)

From Stdlib Require Import Ascii Decimal DecimalString.
From S2P Require Import Prelude GoStrings Strconv Slices Net KeyringFile Armor Manifest EgressPolicy Tier Sdk Translate.

(** ** What is rendered *)

Section rendered.
Context `{GoRange}.

(** What an application needs of its caller. *)
Definition appReady (c : TrConfig) (app : Manifest.App) : Prop :=
  let name := ap_Name app in
  validateName name = Ok tt /\ hasDigest (default "" (tc_Images c !! name)) = true /\ default "" (tc_Credentials c !! name) <> "" /\
  (hasStorage c = true -> exists st, tc_Storage c !! name = Some st /\
     as_CertPEM st <> "" /\ as_KeyPEM st <> "" /\ as_Scope st <> "" /\ as_SecretsPrefix st <> "").

(** What is rendered of it. *)
Definition entryFor (c : TrConfig) (app : Manifest.App) : appData :=
  let name := ap_Name app in
  let st := default (mkAppStorage "" "" "" "") (tc_Storage c !! name) in
  let proxy := ProxyURL "http" (TrFatLineService +:+ "." +:+ TrSystemNamespace +:+ ".svc.cluster.local") TrFatLineEgressPort name
                 (default "" (tc_Credentials c !! name)) in
  let own (s : string) := if hasStorage c then s else "" in
  mkAppData name (default "" (tc_Images c !! name)) proxy (own (indentPEM (as_CertPEM st))) (own (indentPEM (as_KeyPEM st)))
    (own (as_Scope st)) (own (as_SecretsPrefix st)).

Lemma hasDigest_nonempty s : hasDigest s = true -> s <> "".
Proof. intros Hd ->. done. Qed.

Lemma translateApp_spec c seen out app acc : translateApp c (seen, out) app = Ok acc <->
  appReady c app /\ (ap_Name app ∉ seen) /\ acc = ({[ap_Name app]} ∪ seen, out ++ [entryFor c app]).
Proof.
  unfold translateApp, appReady, entryFor. set (name := ap_Name app).
  destruct (validateName name) as [[]|e]; [|split; [done|naive_solver]]. cbn [wrapErr mbind result_bind].
  case_decide as Hs; [split; [done|naive_solver]|].
  destruct (hasDigest (default "" (tc_Images c !! name))) eqn:Hd; cbn [negb];
    [rewrite decide_False by (by apply hasDigest_nonempty)|split; [by destruct (decide _)|naive_solver]].
  case_decide as Hc; [split; [done|naive_solver]|].
  destruct (hasStorage c) eqn:Hst; cbn [negb]; [|naive_solver].
  destruct (tc_Storage c !! name) as [st|]; cbn [default].
  - case_decide as Hi; [split; [done|naive_solver]|]. case_decide as Hp; [split; [done|naive_solver]|].
    split; [|naive_solver]. intros [= <-]. split_and!; [done..| |done|done]. intros _. exists st. split_and!; tauto.
  - rewrite decide_True by (by left). split; [done|]. intros ((_ & _ & _ & Hx) & _). by destruct (Hx eq_refl) as (st & ? & _).
Qed.

Lemma translateApps_spec c l : forall seen out acc, foldM (translateApp c) (seen, out) l = Ok acc <->
  Forall (appReady c) l /\ NoDup (map ap_Name l) /\ Forall (fun a => ap_Name a ∉ seen) l /\
  acc = (list_to_set (reverse (map ap_Name l)) ∪ seen, out ++ map (entryFor c) l).
Proof.
  induction l as [|a l IH]; intros seen out acc; cbn [foldM map].
  { rewrite app_nil_r. split.
    - intros [= <-]. split_and!; [constructor|constructor|constructor|]. f_equal. set_solver.
    - intros (_ & _ & _ & ->). do 2 f_equal. set_solver. }
  split.
  - intros ([seen1 out1] & (Ha & Hn & [= -> ->])%translateApp_spec & E)%bind_ok. apply IH in E as (Hl & Hd & Hs & ->).
    split_and!.
    + by constructor.
    + constructor; [|done]. intros (b & Eb & Hb)%list_elem_of_fmap. rewrite Forall_forall in Hs. apply (Hs b Hb). set_solver.
    + constructor; [done|]. eapply Forall_impl; [exact Hs|]. set_solver.
    + rewrite <- app_assoc. f_equal. rewrite reverse_cons, list_to_set_app_L. set_solver.
  - intros ([Ha Hl]%Forall_cons & [Hn Hd]%NoDup_cons & [Hs Hss]%Forall_cons & ->). apply bind_ok.
    exists ({[ap_Name a]} ∪ seen, out ++ [entryFor c a]). split; [by apply translateApp_spec|]. apply IH. split_and!; [done..| |].
    + apply Forall_forall. intros b Hb. rewrite Forall_forall in Hss. intros [Hx%elem_of_singleton|Hx]%elem_of_union; [|by apply (Hss b)].
      apply Hn. rewrite <- Hx. apply list_elem_of_fmap. eauto.
    + rewrite <- app_assoc. f_equal. rewrite reverse_cons, list_to_set_app_L. set_solver.
Qed.

(** A configuration that can be deployed. *)
Record deployable (c : TrConfig) : Prop := {
  dp_named : mf_Name (tc_Manifest c) <> "";
  dp_apps : mf_Apps (tc_Manifest c) <> [];
  dp_namespace : validateName (tc_Namespace c) = Ok tt;
  dp_own : tc_Namespace c <> TrSystemNamespace /\ HasPrefix (tc_Namespace c) "kube-" = false;
  dp_prefixes : forall app st, tc_Storage c !! app = Some st -> openPrefix st = false;
  dp_ready : Forall (appReady c) (mf_Apps (tc_Manifest c));
  dp_distinct : NoDup (map ap_Name (mf_Apps (tc_Manifest c)))
}.

Lemma templateOf_spec c d : templateOf c = Ok d <->
  deployable (withDefaults c) /\
  d = withApps (baseData (withDefaults c)) (map (entryFor (withDefaults c)) (mf_Apps (tc_Manifest (withDefaults c)))).
Proof.
  unfold templateOf. set (c' := withDefaults c). case_decide as H1; [split; [done|by intros [[] _]]|].
  case_decide as H2'; [split; [done|by intros [[] _]]|].
  destruct (validateName (tc_Namespace c')) as [[]|e] eqn:Hv; cbn [wrapErr mbind result_bind]; [|split; [done|intros [[] _]; congruence]].
  case_decide as H3; [split; [done|by intros [[_ _ _ [? _]] _]]|].
  destruct (find _ _) as [[app st]|] eqn:Hf.
  { split; [done|]. intros [[_ _ _ _ Hp _ _] _]. apply find_some in Hf as [Hin%list_elem_of_In Ho].
    apply elem_of_go_range in Hin. by rewrite (Hp _ _ Hin) in Ho. }
  assert (forall app st, tc_Storage c' !! app = Some st -> openPrefix st = false) as Hp.
  { intros app st Hl%elem_of_go_range%list_elem_of_In. exact (find_none _ _ Hf _ Hl). }
  destruct (HasPrefix _ _) eqn:Hk; [split; [done|intros [[_ _ _ [_ ?] _ _ _] _]; congruence]|].
  split.
  - intros ([seen out] & (Hl & Hd & _ & [= -> ->])%translateApps_spec & [= <-])%bind_ok. split; [by split|done].
  - intros [[_ _ _ _ _ Hl Hd] ->]. apply bind_ok. eexists. split; [apply translateApps_spec; split_and!; [done|done| |reflexivity]|done].
    apply Forall_forall. set_solver.
Qed.

End rendered.

(** ** Names *)

(** Printed characters, without a space. *)
Definition word (s : string) : Prop := Forall (fun b => 33 <= b < 127) (bytes s).

Lemma word_app a b : word (a +:+ b) <-> word a /\ word b.
Proof. unfold word. rewrite bytes_app. apply Forall_app. Qed.

Lemma word_without s : word s -> without newline s = true.
Proof.
  intros Hw. apply (without_bytes (fun b => 33 <=? b)); [|done]. apply forallb_forall. intros b Hb%list_elem_of_In.
  unfold word in Hw. rewrite Forall_forall in Hw. specialize (Hw b Hb). lia.
Qed.

Lemma word_trim s : word s -> TrimSpace s = s.
Proof. intros Hw. unfold TrimSpace. rewrite trim_visible; [apply of_bytes_bytes|]. eapply Forall_impl; [exact Hw|]. cbn. lia. Qed.

Lemma word_of_bytes l : Forall (fun b => 33 <= b < 127) l -> word (of_bytes l).
Proof. intros Hl. unfold word. rewrite bytes_of_bytes; [done|]. eapply Forall_impl; [exact Hl|]. cbn. lia. Qed.

Lemma validateName_word s : validateName s = Ok tt -> word s.
Proof.
  unfold validateName. case_decide; [done|]. destruct (63 <? len s); [done|]. destruct (forallb _ _) eqn:Hf; [|done]. intros _.
  apply Forall_forall. intros b [i Hi]%list_elem_of_lookup. rewrite forallb_forall in Hf.
  assert ((i, b) ∈ imap pair (bytes s)) as Hin%list_elem_of_In by (apply elem_of_lookup_imap; eauto).
  specialize (Hf _ Hin). cbn in Hf. unfold inRange in Hf. lia.
Qed.

(** What the parser takes for a name, a namespace takes too. *)
Lemma dns_label_valid s : dns_label s -> validateName s = Ok tt.
Proof.
  intros Hl. unfold validateName. rewrite decide_False by by apply dns_label_nonempty.
  assert (len s <= 63) as Hlen.
  { rewrite <- len_bytes. destruct Hl as [(c & -> & _)|(c & mid & d & -> & _ & _ & _ & Hm)]; cbn [length]; [lia|].
    rewrite length_app. cbn [length]. lia. }
  destruct (Z.ltb_spec 63 (len s)); [lia|].
  enough (forallb (fun '(i, c) => inRange 97 122 c || inRange 48 57 c ||
    ((c =? 45) && negb (bool_decide (i = 0%nat) || bool_decide (i = length (bytes s) - 1)%nat))) (imap pair (bytes s)) = true) as ->; [done|].
  apply forallb_forall. intros [i b] (j & c & [= -> ->] & Hj)%list_elem_of_In%elem_of_lookup_imap.
  destruct Hl as [(x & E & Hx)|(x & mid & d & E & Hx & Hm & Hd & _)].
  - rewrite E in *. apply list_lookup_singleton_Some in Hj as [-> <-]. unfold isLower in Hx. by rewrite Hx.
  - rewrite E in *. unfold isLower, isDigit, inRange in *. destruct j as [|j]; [injection Hj as <-; lia|]. cbn [lookup list_lookup] in Hj.
    apply lookup_app_Some in Hj as [Hj|[Hge Hj]].
    + rewrite forallb_forall in Hm. specialize (Hm c ltac:(apply list_elem_of_In; by eapply list_elem_of_lookup_2)).
      unfold labelByte, isLower, isDigit, hyphen, inRange in Hm. apply lookup_lt_Some in Hj. cbn [length]. rewrite length_app. cbn [length].
      rewrite (bool_decide_eq_false_2 (S j = 0%nat)), (bool_decide_eq_false_2 (S j = _)) by lia. cbn [negb orb]. lia.
    + apply list_lookup_singleton_Some in Hj as [_ <-]. lia.
Qed.

(** ** The stream, read *)

(** The parts of a list between separators. *)
Fixpoint splitAt (sep : string) (l : list string) : list (list string) :=
  match l with
  | [] => [[]]
  | x :: l =>
      if decide (x = sep) then [] :: splitAt sep l
      else match splitAt sep l with d :: ds => (x :: d) :: ds | [] => [[x]] end
  end.

(** The documents of a YAML stream, line by line. *)
Definition documents (stream : string) : list (list string) := splitAt "---" (SplitByte newline (TrimSuffix stream lines_sep)).

(** The lines of a document some of whose entries are blocks. *)
Definition flat (doc : list string) : list string := concat (map (SplitByte newline) doc).

Lemma SplitByte_Join c ls : ls <> [] -> SplitByte c (Join ls (String c "")) = concat (map (SplitByte c) ls).
Proof.
  induction ls as [|l [|l' ls] IH]; intros Hne; [done|cbn; by rewrite app_nil_r|].
  change (Join (l :: l' :: ls) (String c "")) with (l +:+ String c (Join (l' :: ls) (String c ""))).
  rewrite SplitByte_app_sep, IH by done. done.
Qed.

Lemma splitAt_none sep d : sep ∉ d -> splitAt sep d = [d].
Proof.
  induction d as [|x d IH]; intros Hn; [done|]. cbn [splitAt]. rewrite decide_False by set_solver.
  rewrite IH by set_solver. done.
Qed.

Lemma splitAt_app sep d l : sep ∉ d -> splitAt sep (d ++ sep :: l) = d :: splitAt sep l.
Proof.
  induction d as [|x d IH]; intros Hn; cbn [splitAt app]; [by rewrite decide_True|]. rewrite decide_False by set_solver.
  rewrite IH by set_solver. done.
Qed.

Lemma splitAt_docs sep d ds : Forall (fun d => sep ∉ d) (d :: ds) -> splitAt sep (d ++ concat (map (cons sep) ds)) = d :: ds.
Proof.
  revert d. induction ds as [|d' ds IH]; intros d [Hd Hds]%Forall_cons; cbn [map concat].
  - rewrite app_nil_r. by apply splitAt_none.
  - change ((sep :: d') ++ concat (map (cons sep) ds)) with (sep :: (d' ++ concat (map (cons sep) ds))).
    rewrite splitAt_app by done. by rewrite IH.
Qed.

Lemma flat_app a b : flat (a ++ b) = flat a ++ flat b.
Proof. unfold flat. by rewrite map_app, concat_app. Qed.

Lemma flat_lines doc : Forall (fun l => without newline l = true) doc -> flat doc = doc.
Proof. induction 1 as [|l doc Hl _ IH]; [done|]. unfold flat in *. cbn [map concat]. rewrite SplitByte_without by done. by rewrite IH. Qed.

Lemma flat_concat ds : flat (concat ds) = concat (map flat ds).
Proof. induction ds as [|d ds IH]; [done|]. cbn [concat map]. by rewrite flat_app, IH. Qed.

Lemma documents_of first docs : first <> [] -> Forall (fun doc => "---" ∉ flat doc) (first :: docs) ->
  documents (Join (first ++ concat (map (cons "---"%string) docs)) lines_sep +:+ lines_sep) = map flat (first :: docs).
Proof.
  intros Hne [Hf Hd]%Forall_cons. unfold documents. rewrite TrimSuffix_app. unfold lines_sep. rewrite SplitByte_Join by (by intros [? _]%app_nil).
  transitivity (splitAt "---" (flat first ++ concat (map (cons "---"%string) (map flat docs)))).
  - f_equal. rewrite map_app, concat_app. unfold flat. f_equal. rewrite map_map. clear.
    induction docs as [|doc docs IH]; [done|]. cbn [map concat]. rewrite map_app, concat_app. cbn [map concat]. by rewrite IH.
  - apply splitAt_docs. constructor; [done|by apply Forall_map].
Qed.

Lemma namespaceDoc_nonempty d : namespaceDoc d <> [].
Proof. unfold namespaceDoc. by intros [E _]%app_nil. Qed.

(** A stream whose values open no document is read as the documents it was made of. *)
Lemma documents_Execute d : Forall (fun doc => "---" ∉ flat doc) (namespaceDoc d :: concat (map (appDocs d) (td_Apps d))) ->
  documents (Execute d) = map flat (namespaceDoc d :: concat (map (appDocs d) (td_Apps d))).
Proof. intros Hd. unfold Execute, streamLines. apply documents_of; [apply namespaceDoc_nonempty|exact Hd]. Qed.

(** *** Blocks *)

Definition indented (l : string) : Prop := exists r, l = "    " +:+ r.

Definition pemLines (pem : string) : list string := SplitByte newline (TrimRight pem newline).

Lemma SplitByte_lines c s : Forall (fun l => without c l = true) (SplitByte c s).
Proof.
  induction s as [|a s IH]; [by repeat constructor|]. cbn [SplitByte]. destruct (Ascii.eqb a c) eqn:Ha; [by constructor|].
  destruct (SplitByte c s) as [|x l]; constructor; [|done| |]; unfold without in *; cbn [String.list_ascii_of_string forallb].
  - by rewrite Ha.
  - apply Forall_cons in IH as [Hx _]. by rewrite Ha, Hx.
  - by apply Forall_cons in IH as [_ Hl].
Qed.

Lemma pemLines_nonempty pem : pemLines pem <> [].
Proof. apply SplitByte_nonempty. Qed.

Lemma indentPEM_lines pem : pem <> "" -> SplitByte newline (indentPEM pem) = map (fun l => "    " +:+ l) (pemLines pem).
Proof.
  intros Hp. unfold indentPEM. rewrite decide_False by done. fold (pemLines pem). change lines_sep with (String newline "").
  rewrite SplitByte_Join by (intros E%map_eq_nil; by apply pemLines_nonempty in E).
  assert (Forall (fun l => without newline l = true) (pemLines pem)) as Hl by apply SplitByte_lines.
  induction Hl as [|l ls Hl _ IH]; [done|]. cbn [map concat]. rewrite SplitByte_without by exact Hl. by rewrite IH.
Qed.

(** *** Mappings *)

(** The unquoted words that YAML, 1.1 or 1.2, reads as no string. *)
Definition reservedWords : list string :=
  ["null"; "Null"; "NULL"; "true"; "True"; "TRUE"; "false"; "False"; "FALSE"; "yes"; "Yes"; "YES"; "no"; "No"; "NO";
   "on"; "On"; "ON"; "off"; "Off"; "OFF"; "y"; "Y"; "n"; "N"].

(** The unquoted values that every reader of YAML takes for the text they are: a letter, then printed characters without
    a space, the last no colon, and not a reserved word.  Others are numbers, dates, nothing, or something else again:
    of those this reader gives no string. *)
Definition plainText (v : string) : bool :=
  match bytes v with b :: _ => Manifest.isLower b || Manifest.isUpper b | [] => false end &&
  forallb (fun b => (33 <=? b) && (b <? 127)) (bytes v) &&
  negb (bool_decide (last (bytes v) = Some 58)) && negb (bool_decide (v ∈ reservedWords)).

Lemma plainText_word v : plainText v = true -> word v.
Proof.
  unfold plainText. rewrite !andb_true_iff, forallb_forall. intros (((_ & Hf) & _) & _). apply Forall_forall.
  intros b Hb%list_elem_of_In%Hf. lia.
Qed.

Lemma plainText_not_bar v : plainText v = true -> v <> "|".
Proof. by intros Ht ->. Qed.

(** Nothing, or such a text. *)
Definition text (v : string) : Prop := v = "" \/ plainText v = true.

Lemma text_word v : text v -> word v.
Proof. intros [->|Hv]; [constructor|by apply plainText_word]. Qed.

(** Lines whose first begins with no space: where it is indented says how the block is. *)
Definition blockPlain (block : list string) : bool :=
  match block with String a _ :: _ => negb (Ascii.eqb a " ") | _ => false end.

(** A flat mapping under a header, at an indentation: [key: value] lines, comments, and blocks indented further. *)
Definition readLine (indent line : string) (acc : list string * list (string * string)) : list string * list (string * string) :=
  let '(block, es) := acc in
  match CutPrefix line (indent +:+ "  ") with
  | Some b => (b :: block, es)
  | None =>
      let rest := TrimPrefix line indent in
      if HasPrefix rest "#" then ([], es)
      else
        match cutByte ":" rest with
        | Some (k, v) =>
            ([], if decide (v = " |")
                 then if blockPlain block then (k, Join block lines_sep +:+ lines_sep) :: es else es
                 else if plainText (TrimPrefix v " ") then (k, TrimPrefix v " ") :: es else es)
        | None => ([], es)
        end
  end.

Fixpoint below (header : string) (doc : list string) : list string :=
  match doc with
  | [] => []
  | l :: doc => if decide (l = header) then doc else below header doc
  end.

Fixpoint while_indented (indent : string) (ls : list string) : list string :=
  match ls with
  | [] => []
  | l :: ls => if HasPrefix l indent then l :: while_indented indent ls else []
  end.

Definition mapping (header indent : string) (doc : list string) : list (string * string) :=
  (foldr (readLine indent) ([], []) (while_indented indent (below header doc))).2.

(** The labels of an object, and what is given to a container as its environment. *)
Definition labelsOf (doc : list string) : gmap string string := list_to_map (mapping "  labels:" "    " doc).
Definition environmentOf (configMap secret : list string) : gmap string string :=
  list_to_map (mapping "data:" "  " configMap ++ mapping "stringData:" "  " secret).

Lemma while_blocks ls rest : while_indented "  " (map (fun l => "    " +:+ l) ls ++ rest) =
  map (fun l => "    " +:+ l) ls ++ while_indented "  " rest.
Proof. induction ls as [|l ls IH]; [done|]. cbn [map app while_indented]. by rewrite IH. Qed.

Lemma fold_blocks ls acc : foldr (readLine "  ") acc (map (fun l => "    " +:+ l) ls) = (ls ++ acc.1, acc.2).
Proof.
  induction ls as [|l ls IH]; [by destruct acc|]. cbn [map foldr app]. rewrite IH. unfold readLine.
  assert (CutPrefix ("    " +:+ l) ("  " +:+ "  ") = Some l) as -> by by apply CutPrefix_spec. done.
Qed.

Lemma Join_SplitByte c s : Join (SplitByte c s) (String c "") = s.
Proof.
  induction s as [|a s IH]; [done|]. cbn [SplitByte]. destruct (Ascii.eqb_spec a c) as [->|Ha].
  - destruct (SplitByte c s) as [|x l] eqn:E; [by apply SplitByte_nonempty in E|]. change (Join ("" :: x :: l) (String c "")) with (String c (Join (x :: l) (String c ""))).
    by rewrite IH.
  - destruct (SplitByte c s) as [|x [|y l]] eqn:E; [by apply SplitByte_nonempty in E| |].
    + cbn in *. by rewrite IH.
    + change (Join (String a x :: y :: l) (String c "")) with (String a (x +:+ String c (Join (y :: l) (String c "")))).
      change (Join (x :: y :: l) (String c "")) with (x +:+ String c (Join (y :: l) (String c ""))) in IH. by rewrite IH.
Qed.

Lemma below_skip header l doc : l <> header -> below header (l :: doc) = below header doc.
Proof. intros Hn. cbn [below]. by rewrite decide_False. Qed.

Lemma below_here header doc : below header (header :: doc) = doc.
Proof. cbn [below]. by rewrite decide_True. Qed.

Lemma while_cons indent l ls : HasPrefix l indent = true -> while_indented indent (l :: ls) = l :: while_indented indent ls.
Proof. intros Hp. cbn [while_indented]. by rewrite Hp. Qed.

Lemma cut_indent indent rest : TrimPrefix (indent +:+ rest) indent = rest.
Proof. unfold TrimPrefix. by rewrite (proj2 (CutPrefix_spec indent (indent +:+ rest) rest) eq_refl). Qed.

Lemma not_deeper indent a rest : Ascii.eqb a " " = false -> CutPrefix (indent +:+ String a rest) (indent +:+ "  ") = None.
Proof.
  intros Ha. destruct (CutPrefix _ _) as [b|] eqn:E; [|done]. apply CutPrefix_spec in E. rewrite app_string_assoc in E.
  apply app_string_inj in E. injection E as E _. by rewrite E in Ha.
Qed.

Lemma read_comment indent line acc : HasPrefix line (indent +:+ "#") = true -> readLine indent line acc = ([], acc.2).
Proof.
  intros [r ->]%HasPrefix_spec. rewrite app_string_assoc. unfold readLine. destruct acc as [block es]. change ("#" +:+ r) with (String "#" r).
  rewrite not_deeper, cut_indent by done. by rewrite (proj2 (HasPrefix_spec (String "#" r) "#") (ex_intro _ r eq_refl)).
Qed.

(** A key: a letter first, and no colon. *)
Definition keyText (k : string) : bool :=
  match k with String a _ => negb (Ascii.eqb a " ") && negb (Ascii.eqb a "#") | "" => false end && without ":" k.

Lemma read_key indent k v line acc : line = indent +:+ k +:+ ": " +:+ v -> keyText k = true ->
  readLine indent line acc = ([], if decide (v = "|") then if blockPlain acc.1 then (k, Join acc.1 lines_sep +:+ lines_sep) :: acc.2 else acc.2
                                  else if plainText v then (k, v) :: acc.2 else acc.2).
Proof.
  intros -> [Hk Hc]%andb_prop. unfold readLine. destruct acc as [block es].
  destruct k as [|a k]; [done|]. apply andb_prop in Hk as [Ha%negb_true_iff Hs].
  change (String a k +:+ ": " +:+ v) with (String a (k +:+ ": " +:+ v)). rewrite not_deeper, cut_indent by done.
  destruct (HasPrefix _ "#") eqn:E'; [apply HasPrefix_spec in E' as [r E']; injection E' as E' _; by rewrite E' in Hs|].
  change (String a (k +:+ ": " +:+ v)) with (String a k +:+ String ":" (" " +:+ v)). rewrite cutByte_app by done. cbn [fst snd].
  destruct (decide (v = "|")) as [->|Hv]; [by rewrite decide_True|]. rewrite decide_False by (intros [= E1]; by destruct Hv).
  by rewrite cut_indent.
Qed.

Lemma read_entry indent k v line acc : line = indent +:+ k +:+ ": " +:+ v -> keyText k = true -> plainText v = true ->
  readLine indent line acc = ([], (k, v) :: acc.2).
Proof. intros El Hk Hv. rewrite (read_key indent k v) by done. rewrite decide_False by by apply plainText_not_bar. by rewrite Hv. Qed.

(** An entry there is when it has a value. *)
Definition optEntry (k v : string) : list (string * string) := if decide (v = "") then [] else [(k, v)].

(** Reading from the left. *)
Definition entriesOf (indent : string) (ls : list string) : list (string * string) := (foldr (readLine indent) ([], []) ls).2.
Definition blockAhead (ls : list string) : list string := (foldr (readLine "  ") ([], []) ls).1.

Lemma peel_comment indent l ls rhs : HasPrefix l (indent +:+ "#") = true -> entriesOf indent ls = rhs -> entriesOf indent (l :: ls) = rhs.
Proof. intros Hl <-. unfold entriesOf. cbn [foldr]. by rewrite read_comment. Qed.

Lemma peel_entry indent k v l ls rhs : l = indent +:+ k +:+ ": " +:+ v -> keyText k = true -> plainText v = true -> entriesOf indent ls = rhs ->
  entriesOf indent (l :: ls) = (k, v) :: rhs.
Proof. intros El Hk Hv <-. unfold entriesOf. cbn [foldr]. by rewrite (read_entry indent k v). Qed.

Lemma peel_opt indent k v l ls rhs : l = indent +:+ k +:+ ": " +:+ v -> keyText k = true -> text v -> entriesOf indent ls = rhs ->
  entriesOf indent (l :: ls) = optEntry k v ++ rhs.
Proof.
  intros El Hk [->|Hv] Hls; unfold optEntry.
  - rewrite decide_True by done. rewrite <- Hls. unfold entriesOf. cbn [foldr]. by rewrite (read_key indent k "").
  - rewrite decide_False by (intros ->; discriminate Hv). by apply peel_entry.
Qed.

Lemma blockAhead_comment l ls : HasPrefix l "  #" = true -> blockAhead (l :: ls) = [].
Proof. intros Hl. unfold blockAhead. cbn [foldr]. by rewrite read_comment. Qed.

Lemma blockAhead_key k v l ls : l = "  " +:+ k +:+ ": " +:+ v -> keyText k = true -> blockAhead (l :: ls) = [].
Proof. intros El Hk. unfold blockAhead. cbn [foldr]. by rewrite (read_key "  " k v). Qed.

Lemma peel_block k l bl ls rhs : l = "  " +:+ k +:+ ": |" -> keyText k = true -> blockPlain bl = true -> blockAhead ls = [] -> entriesOf "  " ls = rhs ->
  entriesOf "  " (l :: map (fun x => "    " +:+ x) bl ++ ls) = (k, Join bl lines_sep +:+ lines_sep) :: rhs.
Proof.
  intros El Hk Hpl Hb <-. unfold entriesOf, blockAhead in *. cbn [foldr]. rewrite foldr_app, fold_blocks, Hb, app_nil_r.
  rewrite (read_key "  " k "|") by done. cbn [fst snd]. by rewrite Hpl.
Qed.

Lemma while_stop indent l ls : HasPrefix l indent = false -> while_indented indent (l :: ls) = [].
Proof. intros Hp. cbn [while_indented]. by rewrite Hp. Qed.

Lemma while_id ls : Forall (fun l => HasPrefix l "  " = true) ls -> while_indented "  " ls = ls.
Proof. induction 1 as [|l ls Hl _ IH]; [done|]. cbn [while_indented]. by rewrite Hl, IH. Qed.

Lemma blocks_indented bl : Forall (fun l => HasPrefix l "  " = true) (map (fun x => "    " +:+ x) bl).
Proof. apply Forall_map, Forall_forall. intros x _. apply HasPrefix_spec. by exists ("  " +:+ x). Qed.

(** The text of a block: what a certificate is read as. *)
Definition blockText (pem : string) : string := TrimRight pem newline +:+ lines_sep.

Lemma blockText_lines pem : Join (pemLines pem) lines_sep +:+ lines_sep = blockText pem.
Proof. unfold blockText, pemLines, lines_sep. by rewrite Join_SplitByte. Qed.

(** What a certificate begins with: neither a space nor the end of a line. *)
Definition pemText (pem : string) : bool :=
  match pem with String a _ => negb (Ascii.eqb a " ") && negb (Ascii.eqb a newline) | "" => false end.

Lemma trimLeft_before c a s : a <> c -> trimLeft c (s +:+ String a "") = trimLeft c s +:+ String a "".
Proof.
  intros Ha. induction s as [|b s IH]; cbn [trimLeft].
  - change (("" +:+ String a "")) with (String a ""). cbn [trimLeft]. by destruct (Ascii.eqb_spec a c).
  - change (String b s +:+ String a "") with (String b (s +:+ String a "")). cbn [trimLeft]. by destruct (Ascii.eqb b c).
Qed.

Lemma TrimRight_head a s c : a <> c -> TrimRight (String a s) c = String a (TrimRight s c).
Proof.
  intros Ha. unfold TrimRight. change (String a s) with (String a "" +:+ s). rewrite rev_string_app.
  change (rev_string (String a "")) with (String a ""). by rewrite trimLeft_before, rev_string_app.
Qed.

Lemma pemLines_plain pem : pemText pem = true -> blockPlain (pemLines pem) = true.
Proof.
  unfold pemText, pemLines. destruct pem as [|a pem]; [done|]. intros [Hs Hn]%andb_prop.
  rewrite TrimRight_head by (intros ->; by rewrite Ascii.eqb_refl in Hn). cbn [SplitByte]. apply negb_true_iff in Hn. rewrite Hn.
  by destruct (SplitByte newline (TrimRight pem newline)).
Qed.

(** *** The two documents with blocks *)

Definition plainLine (l : string) : Prop := without newline l = true /\ l <> "---".

Lemma plain_flat doc : Forall plainLine doc -> flat doc = doc /\ ("---" ∉ doc).
Proof.
  intros Hd. split; [apply flat_lines; eapply Forall_impl; [exact Hd|by intros l []]|].
  intros Hin. rewrite Forall_forall in Hd. by destruct (Hd _ Hin).
Qed.

Lemma plain_no_separator doc : Forall plainLine doc -> "---" ∉ flat doc.
Proof. by intros [-> Hn]%plain_flat. Qed.

(** A line whose values are words. *)
Ltac plain_line :=
  split;
    [repeat (rewrite without_app; apply andb_true_intro; split);
     first [reflexivity|apply word_without; first [assumption|apply plainText_word; assumption|apply text_word; assumption]|apply without_FormatInt]
    |discriminate].

Ltac plain_doc :=
  repeat first [apply Forall_nil_2 | apply Forall_app; split | apply Forall_cons; split; [plain_line|]].

(** Where a service is reached from inside the cluster. *)
Definition inCluster (service namespace : string) (port : Z) : string :=
  "https://" +:+ service +:+ "." +:+ namespace +:+ ".svc.cluster.local:" +:+ FormatInt port.

Record plainData (d : templateData) : Prop := {
  pd_namespace : word (td_Namespace d);
  pd_deployment : plainText (td_Deployment d) = true;
  pd_instance : text (td_Instance d);
  pd_system : word (td_SystemNamespace d);
  pd_workload : word (td_FatLineWorkload d);
  pd_storage : word (td_StorageService d);
  pd_status : word (td_StorageStatusService d);
  pd_server : text (td_StorageServerName d);
  pd_dns : word (td_NodeLocalDNS d);
  pd_endpoint : plainText (inCluster (td_StorageService d) (td_SystemNamespace d) (td_StoragePort d)) = true;
  pd_statusEndpoint : plainText (inCluster (td_StorageStatusService d) (td_SystemNamespace d) (td_StorageStatusPort d)) = true
}.

Record plainApp (a : appData) : Prop := {
  pa_name : plainText (ad_Name a) = true;
  pa_image : word (ad_Image a);
  pa_proxy : plainText (ad_ProxyURL a) = true;
  pa_scope : text (ad_Scope a);
  pa_prefix : text (ad_SecretsPrefix a)
}.

(** A value that is the body of a block, of a certificate there is. *)
Definition blockOf (v pem : string) : Prop := v = indentPEM pem /\ pemText pem = true.

Lemma pemText_nonempty pem : pemText pem = true -> pem <> "".
Proof. by intros Hp ->. Qed.

Lemma flat_cons l doc : plainLine l -> flat (l :: doc) = l :: flat doc.
Proof. intros [Hl _]. unfold flat. cbn [map concat]. by rewrite SplitByte_without. Qed.

Lemma flat_block v pem doc : blockOf v pem -> flat (v :: doc) = map (fun l => "    " +:+ l) (pemLines pem) ++ flat doc.
Proof. intros [-> Hp%pemText_nonempty]. unfold flat. cbn [map concat]. by rewrite indentPEM_lines. Qed.

Lemma flat_nil : flat [] = [].
Proof. done. Qed.

Lemma block_plain pem : "---" ∉ map (fun l => "    " +:+ l) (pemLines pem).
Proof. by intros (l & E & _)%list_elem_of_fmap. Qed.

(** Flattens from the right: each line is looked at once. *)
Ltac flat_lines_of :=
  lazymatch goal with
  | |- flat (_ ++ _) = _ => rewrite flat_app; apply (f_equal2 app); flat_lines_of
  | |- flat [] = _ => exact flat_nil
  | |- flat (_ :: _) = _ =>
      first [etrans; [apply flat_cons; plain_line|apply f_equal; flat_lines_of]
            |etrans; [eapply flat_block; eassumption|apply f_equal; flat_lines_of]]
  end.

Ltac flatten_doc :=
  match goal with |- context [flat ?doc] => let E := fresh in eassert (flat doc = _) as E by flat_lines_of; rewrite E; clear E end.

Ltac no_separator :=
  repeat first
    [apply not_elem_of_nil
    |apply not_elem_of_app; split; [apply block_plain|]
    |apply not_elem_of_app; split
    |apply not_elem_of_cons; split; [discriminate|]].

Ltac all_indented :=
  repeat first [apply Forall_nil_2|apply Forall_app; split; [apply blocks_indented|]|apply Forall_app; split|apply Forall_cons; split; [reflexivity|]].

(** Comments are passed over until there is an entry, which the caller names. *)
Ltac read_doc :=
  unfold mapping; rewrite <- ?app_comm_cons, <- ?app_assoc, ?app_nil_l; repeat (rewrite below_skip by discriminate); rewrite below_here;
  rewrite while_id by all_indented;
  match goal with |- (foldr (readLine ?indent) ([], []) ?ls).2 = ?rhs => change (entriesOf indent ls = rhs) end.

Ltac comments := repeat (apply peel_comment; [reflexivity|]).
Ltac entry k := comments; eapply (peel_entry _ k); [reflexivity|reflexivity|assumption|].
Ltac opt k := comments; eapply (peel_opt _ k); [reflexivity|reflexivity|assumption|].
Ltac block k := comments; rewrite <- blockText_lines; eapply (peel_block k); [reflexivity|reflexivity|apply pemLines_plain; match goal with Hx : blockOf _ ?x |- pemText ?x = true => exact (proj2 Hx) end| |].

Lemma word_FormatInt z : word (FormatInt z).
Proof.
  assert (forall u, word (NilEmpty.string_of_uint u)) as Hu.
  { induction u as [|u IH|u IH|u IH|u IH|u IH|u IH|u IH|u IH|u IH|u IH]; [constructor|..]; unfold word in *; cbn; constructor; (done || lia). }
  assert (forall u, u <> Nil -> NilZero.string_of_uint u = NilEmpty.string_of_uint u) as Hz by by destruct u.
  unfold FormatInt, Z.to_int. destruct z as [|p|p]; cbn [NilZero.string_of_int].
  - exact (Hu (D0 Nil)).
  - rewrite Hz by apply to_uint_nonnil. apply Hu.
  - rewrite Hz by apply to_uint_nonnil.
    apply (word_app (String "-" "") (NilEmpty.string_of_uint (Pos.to_uint p))). split; [unfold word; cbn; repeat constructor; lia|apply Hu].
Qed.

Lemma plain_farcast : plainText "farcast" = true /\ plainText "app" = true.
Proof. done. Qed.

Ltac last_entry := rewrite ?app_nil_l; comments; rewrite <- (app_nil_r (optEntry _ _)); eapply (peel_opt _ "FARCAST_SECRETS_PREFIX"); [reflexivity|reflexivity|assumption|reflexivity].
Ltac storage_entries :=
  rewrite <- ?app_comm_cons, <- ?app_assoc, ?app_nil_l;
  entry "FARCAST_STORAGE_ENDPOINT"; entry "FARCAST_STORAGE_STATUS_ENDPOINT"; opt "FARCAST_STORAGE_SCOPE"; opt "FARCAST_STORAGE_SERVER_NAME";
  block "FARCAST_STORAGE_CA"; [by apply blockAhead_comment|]; last_entry.

Section docs.
Context (d : templateData) (a : appData) (cert key ca : string).
Context (Hd : plainData d) (Ha : plainApp a).
Context (Hb : td_HasStorage d = true -> blockOf (ad_ClientCert a) cert /\ blockOf (ad_ClientKey a) key /\ blockOf (td_StorageCA d) ca).

Lemma namespace_plain : Forall plainLine (namespaceDoc d).
Proof using Hd. destruct Hd. unfold namespaceDoc. destruct (hasInstance d); plain_doc. Qed.

Lemma deployment_plain : Forall plainLine (deploymentDoc d a).
Proof using Hd Ha. destruct Hd, Ha. unfold deploymentDoc. plain_doc. Qed.

Lemma service_plain : Forall plainLine (serviceDoc d a).
Proof using Hd Ha. destruct Hd, Ha. unfold serviceDoc. plain_doc. Qed.

Lemma policy_plain : Forall plainLine (networkPolicyDoc d a).
Proof using Hd Ha. clear Hb. destruct Hd, Ha. unfold networkPolicyDoc. destruct (td_HasStorage d); plain_doc. Qed.

Lemma secret_read : ("---" ∉ flat (secretDoc d a)) /\
  mapping "stringData:" "  " (flat (secretDoc d a)) = ("FARCAST_FATLINE_PROXY", ad_ProxyURL a) ::
    if td_HasStorage d then [("FARCAST_STORAGE_CLIENT_CERT", blockText cert); ("FARCAST_STORAGE_CLIENT_KEY", blockText key)] else [].
Proof using Hd Ha Hb.
  destruct Hd, Ha. unfold secretDoc. destruct (td_HasStorage d) eqn:Hs.
  - destruct (Hb eq_refl) as (Hc & Hk & _). flatten_doc. split; [no_separator|]. read_doc.
    entry "FARCAST_FATLINE_PROXY". block "FARCAST_STORAGE_CLIENT_CERT"; [by apply (blockAhead_key "FARCAST_STORAGE_CLIENT_KEY" "|")|].
    by block "FARCAST_STORAGE_CLIENT_KEY".
  - flatten_doc. split; [no_separator|]. read_doc. by entry "FARCAST_FATLINE_PROXY".
Qed.

Lemma config_read : ("---" ∉ flat (configMapDoc d a)) /\
  mapping "data:" "  " (flat (configMapDoc d a)) =
    ("FARCAST_APP_NAME", ad_Name a) ::
    optEntry "FARCAST_INSTANCE_ID" (td_Instance d) ++
    (if td_HasStorage d then
       [("FARCAST_STORAGE_ENDPOINT", inCluster (td_StorageService d) (td_SystemNamespace d) (td_StoragePort d));
        ("FARCAST_STORAGE_STATUS_ENDPOINT", inCluster (td_StorageStatusService d) (td_SystemNamespace d) (td_StorageStatusPort d))] ++ optEntry "FARCAST_STORAGE_SCOPE" (ad_Scope a) ++ optEntry "FARCAST_STORAGE_SERVER_NAME" (td_StorageServerName d) ++
       [("FARCAST_STORAGE_CA", blockText ca)]
     else []) ++
    optEntry "FARCAST_SECRETS_PREFIX" (ad_SecretsPrefix a).
Proof using Hd Ha Hb.
  destruct Hd, Ha. unfold configMapDoc. destruct (hasInstance d) eqn:Hi.
  2:{ apply bool_decide_eq_false, dec_stable in Hi. rewrite Hi. unfold optEntry at 1. rewrite decide_True by done.
      destruct (td_HasStorage d) eqn:Hs.
      - destruct (Hb eq_refl) as (_ & _ & Hc). flatten_doc; (split; [no_separator|]); read_doc; entry "FARCAST_APP_NAME"; storage_entries.
      - flatten_doc; (split; [no_separator|]); read_doc; entry "FARCAST_APP_NAME". last_entry. }
  destruct (td_HasStorage d) eqn:Hs.
  - destruct (Hb eq_refl) as (_ & _ & Hc). flatten_doc; (split; [no_separator|]); read_doc; entry "FARCAST_APP_NAME"; opt "FARCAST_INSTANCE_ID"; storage_entries.
  - flatten_doc; (split; [no_separator|]); read_doc; entry "FARCAST_APP_NAME"; opt "FARCAST_INSTANCE_ID". last_entry.
Qed.

Definition labelEntries : list (string * string) :=
  [("app.kubernetes.io/name", ad_Name a); ("app.kubernetes.io/managed-by", "farcast"); ("app.kubernetes.io/part-of", td_Deployment d)].

Lemma labels_read : mapping "  labels:" "    " (deploymentDoc d a) = labelEntries ++ [(Tier.Label, Tier.App)].
Proof using Hd Ha.
  clear Hb. destruct Hd, Ha, plain_farcast. unfold deploymentDoc, mapping, labelEntries.
  repeat (rewrite below_skip by discriminate). rewrite below_here. repeat (rewrite while_cons by reflexivity).
  rewrite while_stop by reflexivity. match goal with |- (foldr _ _ ?ls).2 = ?rhs => change (entriesOf "    " ls = rhs) end.
  entry "app.kubernetes.io/name". entry "app.kubernetes.io/managed-by". entry "app.kubernetes.io/part-of". by entry Tier.Label.
Qed.

End docs.

(** ** Plain configurations *)

(** What the caller supplies is text: each value that is written on a line is a word, those that are read back are
    words YAML takes for text, and a certificate begins as one does.  Of these the translator checks only that names
    are labels, that an image ends in a digest and that a prefix ends in a slash. *)
Record plainConfig (c : TrConfig) : Prop := {
  pc_manifest : plainText (mf_Name (tc_Manifest c)) = true;
  pc_apps : forall app, app ∈ mf_Apps (tc_Manifest c) -> plainText (ap_Name app) = true;
  pc_instance : text (tc_Instance c);
  pc_server : text (tc_StorageServerName c);
  pc_images : forall app image, tc_Images c !! app = Some image -> word image;
  pc_credentials : forall app credential, tc_Credentials c !! app = Some credential -> word credential;
  pc_storage : forall app st, tc_Storage c !! app = Some st -> text (as_Scope st) /\ text (as_SecretsPrefix st);
  pc_pems : hasStorage c = true -> pemText (tc_StorageCAPEM c) = true /\
    forall app st, tc_Storage c !! app = Some st -> pemText (as_CertPEM st) = true /\ pemText (as_KeyPEM st) = true
}.

Lemma word_nil : word "".
Proof. constructor. Qed.

Lemma word_urlSafe s : word (urlSafe s).
Proof.
  apply word_of_bytes, Forall_map, Forall_forall. intros b _. destruct (urlByte b) eqn:Hb; [|lia].
  unfold urlByte, Manifest.isLower, Manifest.isUpper, isDigit, inRange in Hb. lia.
Qed.

(** An address, which is no number and none of the words. *)
Lemma plain_url r r' z : word r -> bytes r = r' ++ [z] -> z <> 58 -> plainText ("http" +:+ r) = true.
Proof.
  intros Hw Hl Hz. unfold plainText. rewrite bytes_app. change (bytes "http") with [104; 116; 116; 112]. rewrite !andb_true_iff. split_and!.
  - done.
  - apply forallb_forall. intros b Hb%list_elem_of_In. apply elem_of_app in Hb as [Hb|Hb].
    + rewrite !elem_of_cons, elem_of_nil in Hb. lia.
    + unfold word in Hw. rewrite Forall_forall in Hw. specialize (Hw b Hb). lia.
  - rewrite Hl, app_assoc, last_snoc. apply negb_true_iff, bool_decide_eq_false_2. by intros [= ->].
  - apply negb_true_iff, bool_decide_eq_false_2. unfold reservedWords. rewrite !elem_of_cons, elem_of_nil.
    intros Hin. by repeat (destruct Hin as [Hin|Hin]; [discriminate|]).
Qed.

Lemma plain_ProxyURL app credential : word credential ->
  plainText (ProxyURL "http" (TrFatLineService +:+ "." +:+ TrSystemNamespace +:+ ".svc.cluster.local") TrFatLineEgressPort app credential) = true.
Proof.
  intros Hc. unfold ProxyURL.
  apply (plain_url _ (bytes ("://" +:+ urlSafe app +:+ ":" +:+ credential +:+ "@" +:+ (TrFatLineService +:+ "." +:+ TrSystemNamespace +:+ ".svc.cluster.local") +:+ ":312")) 56);
    [|by rewrite !bytes_app, <- !app_assoc|done].
  pose proof (word_urlSafe app). pose proof (word_FormatInt TrFatLineEgressPort).
  assert (Forall word ["://"; ":"; "@"; TrFatLineService +:+ "." +:+ TrSystemNamespace +:+ ".svc.cluster.local"]) as Hl
    by (repeat constructor; unfold word; cbn; repeat constructor; lia).
  rewrite !Forall_cons in Hl. destruct Hl as (? & ? & ? & Hh & _). revert Hh. generalize (TrFatLineService +:+ "." +:+ TrSystemNamespace +:+ ".svc.cluster.local").
  intros host Hh. rewrite !word_app. tauto.
Qed.

Section config.
Context `{GoRange} (c : TrConfig) (Hp : plainConfig c).

Lemma plain_base apps : deployable (withDefaults c) -> plainData (withApps (baseData (withDefaults c)) apps).
Proof using Hp.
  intros [_ _ Hn%validateName_word _ _ _ _]. destruct Hp. split; cbn; try done; unfold word; cbn; repeat constructor; lia.
Qed.

Lemma plain_entry app : app ∈ mf_Apps (tc_Manifest c) -> appReady (withDefaults c) app -> plainApp (entryFor (withDefaults c) app).
Proof using Hp.
  intros Hin _. unfold entryFor. cbn [withDefaults tc_Images tc_Credentials tc_Storage].
  destruct Hp as [_ Ha _ _ Hi Hc Hs _]. split; cbn [ad_Name ad_Image ad_ProxyURL ad_Scope ad_SecretsPrefix]; [by apply Ha| | | |].
  - destruct (tc_Images c !! ap_Name app) eqn:E; [by eapply Hi|apply word_nil].
  - apply plain_ProxyURL. destruct (tc_Credentials c !! ap_Name app) eqn:E; [by eapply Hc|apply word_nil].
  - destruct (hasStorage _); [|by left]. destruct (tc_Storage c !! ap_Name app) eqn:E; [by eapply Hs|by left].
  - destruct (hasStorage _); [|by left]. destruct (tc_Storage c !! ap_Name app) eqn:E; [by eapply Hs|by left].
Qed.

Lemma blocks_of app apps : appReady (withDefaults c) app ->
  td_HasStorage (withApps (baseData (withDefaults c)) apps) = true ->
  exists st, tc_Storage c !! ap_Name app = Some st /\
    blockOf (ad_ClientCert (entryFor (withDefaults c) app)) (as_CertPEM st) /\
    blockOf (ad_ClientKey (entryFor (withDefaults c) app)) (as_KeyPEM st) /\
    blockOf (td_StorageCA (withApps (baseData (withDefaults c)) apps)) (tc_StorageCAPEM c) /\
    ad_Scope (entryFor (withDefaults c) app) = as_Scope st /\ ad_SecretsPrefix (entryFor (withDefaults c) app) = as_SecretsPrefix st /\
    as_Scope st <> "" /\ as_SecretsPrefix st <> "".
Proof using Hp.
  intros (_ & _ & _ & Hst) Hs. cbn [withApps baseData td_HasStorage] in Hs. destruct (Hst Hs) as (st & Hl & Hc & Hk & Hsc & Hpx).
  cbn [withDefaults tc_Storage] in Hl. exists st. unfold entryFor. cbn [ad_ClientCert ad_ClientKey ad_Scope ad_SecretsPrefix withDefaults tc_Storage].
  cbn [withDefaults tc_Storage] in Hs. rewrite Hs, Hl. cbn [default].
  destruct (pc_pems _ Hp Hs) as [Hca Hpem]. destruct (Hpem _ _ Hl). by split_and!.
Qed.

End config.

(** ** An application's documents *)

Ltac look := repeat first [rewrite lookup_insert_eq|rewrite lookup_insert_ne by discriminate|rewrite lookup_empty].

(** Entries that are there when they have a value, looked up. *)
Lemma opt_first k v (l : list (string * string)) : list_to_map (M := gmap string string) l !! k = None -> default "" (list_to_map (M := gmap string string) (optEntry k v ++ l) !! k) = v.
Proof.
  intros Hk. unfold optEntry. case_decide as Hv; cbn [app list_to_map foldr fst snd]; [|by rewrite lookup_insert_eq].
  by rewrite Hk, Hv.
Qed.

Lemma opt_other k k' v (l : list (string * string)) : k <> k' ->
  list_to_map (M := gmap string string) (optEntry k v ++ l) !! k' = list_to_map (M := gmap string string) l !! k'.
Proof. intros Hk. unfold optEntry. case_decide; cbn [app list_to_map foldr fst snd]; [done|by rewrite lookup_insert_ne]. Qed.

Ltac opt_look := repeat first
  [rewrite list_to_map_cons|rewrite list_to_map_nil|rewrite lookup_insert_eq|rewrite lookup_insert_ne by discriminate|rewrite lookup_empty
  |rewrite opt_other by discriminate|rewrite opt_first by (opt_look; reflexivity)].

Section deployed.
Context `{GoRange} (c : TrConfig) (d : templateData) (Hp : plainConfig c) (Hdep : deployable (withDefaults c)).
Context (Ed : d = withApps (baseData (withDefaults c)) (map (entryFor (withDefaults c)) (mf_Apps (tc_Manifest c)))).

Definition entry_of (app : Manifest.App) : appData := entryFor (withDefaults c) app.
Definition docsFor (app : Manifest.App) : list (list string) := map flat (appDocs d (entry_of app)).

Lemma ready app : app ∈ mf_Apps (tc_Manifest c) -> appReady (withDefaults c) app.
Proof using Hdep. intros Hin. destruct Hdep as [_ _ _ _ _ Hr _]. rewrite Forall_forall in Hr. by apply Hr. Qed.

Lemma data_plain : plainData d.
Proof using Hp Hdep Ed. rewrite Ed. by apply plain_base. Qed.

(** The certificates of an application, if storage is wired. *)
Definition pems (app : Manifest.App) : AppStorage := default (mkAppStorage "" "" "" "") (tc_Storage c !! ap_Name app).

Lemma blocks app : app ∈ mf_Apps (tc_Manifest c) -> td_HasStorage d = true ->
  blockOf (ad_ClientCert (entry_of app)) (as_CertPEM (pems app)) /\ blockOf (ad_ClientKey (entry_of app)) (as_KeyPEM (pems app)) /\
  blockOf (td_StorageCA d) (tc_StorageCAPEM c).
Proof using Hp Hdep Ed.
  intros Hr%ready Hs. rewrite Ed in Hs |- *.
  destruct (blocks_of c Hp app _ Hr Hs) as (st & El & Hc & Hk & Hca & _). unfold pems. rewrite El. by split_and!.
Qed.

Lemma apps_plain app : app ∈ mf_Apps (tc_Manifest c) -> Forall (fun doc => "---" ∉ flat doc) (appDocs d (entry_of app)).
Proof using Hp Hdep Ed.
  intros Hin. pose proof data_plain as Hd. pose proof (plain_entry c Hp app Hin (ready _ Hin) : plainApp (entry_of app)) as Ha.
  unfold appDocs. repeat (apply Forall_cons; split); [| | | | |by apply Forall_nil].
  - by apply (secret_read _ _ _ _ _ Hd Ha (blocks _ Hin)).
  - by apply (config_read _ _ _ _ _ Hd Ha (blocks _ Hin)).
  - by apply plain_no_separator, deployment_plain.
  - by apply plain_no_separator, service_plain.
  - by apply plain_no_separator, policy_plain.
Qed.

Lemma stream_read : documents (Execute d) = flat (namespaceDoc d) :: concat (map docsFor (mf_Apps (tc_Manifest c))).
Proof using Hp Hdep Ed.
  assert (td_Apps d = map entry_of (mf_Apps (tc_Manifest c))) as Ea by by rewrite Ed.
  rewrite documents_Execute.
  - cbn [map]. f_equal. rewrite Ea, concat_map, !map_map. done.
  - constructor; [by apply plain_no_separator, namespace_plain, data_plain|]. rewrite Ea, map_map.
    apply Forall_concat, Forall_map, Forall_forall. apply apps_plain.
Qed.

(** The variables, by name. *)
Lemma env_read app : app ∈ mf_Apps (tc_Manifest c) ->
  let env := environmentOf (flat (configMapDoc d (entry_of app))) (flat (secretDoc d (entry_of app))) in
  env !! "FARCAST_FATLINE_PROXY" = Some (ad_ProxyURL (entry_of app)) /\
  Sdk.Getenv env Sdk.envInstanceID = tc_Instance c /\
  Sdk.Getenv env Sdk.envSecretsPrefix = ad_SecretsPrefix (entry_of app) /\
  Sdk.Getenv env Sdk.envStorageEndpoint = (if hasStorage c then inCluster "datasphered" "farcast-system" 8443 else "") /\
  (hasStorage c = true ->
     Sdk.Getenv env Sdk.envStorageStatus = inCluster "datasphered-status" "farcast-system" 8444 /\
     Sdk.Getenv env Sdk.envStorageScope = ad_Scope (entry_of app) /\
     Sdk.Getenv env Sdk.envStorageServerName = tc_StorageServerName c /\
     Sdk.Getenv env Sdk.envStorageCA = blockText (tc_StorageCAPEM c) /\
     Sdk.Getenv env Sdk.envStorageClientCert = blockText (as_CertPEM (pems app)) /\
     Sdk.Getenv env Sdk.envStorageClientKey = blockText (as_KeyPEM (pems app))).
Proof using Hp Hdep Ed.
  intros Hin. pose proof data_plain as Hd. pose proof (plain_entry c Hp app Hin (ready _ Hin) : plainApp (entry_of app)) as Ha.
  assert (td_HasStorage d = hasStorage c) as Es by by rewrite Ed.
  assert (td_Instance d = tc_Instance c) as Ei by by rewrite Ed.
  assert (td_StorageServerName d = tc_StorageServerName c) as En by by rewrite Ed.
  assert (inCluster (td_StorageService d) (td_SystemNamespace d) (td_StoragePort d) = inCluster "datasphered" "farcast-system" 8443) as E1 by by rewrite Ed.
  assert (inCluster (td_StorageStatusService d) (td_SystemNamespace d) (td_StorageStatusPort d) = inCluster "datasphered-status" "farcast-system" 8444) as E2 by by rewrite Ed.
  cbv zeta. unfold environmentOf. rewrite (proj2 (config_read _ _ _ _ _ Hd Ha (blocks _ Hin))), (proj2 (secret_read _ _ _ _ _ Hd Ha (blocks _ Hin))).
  rewrite Es, En, E1, E2. unfold Sdk.Getenv, Sdk.Environment. rewrite Ei. fold (entry_of app).
  unfold Sdk.envInstanceID, Sdk.envSecretsPrefix, Sdk.envStorageEndpoint, Sdk.envStorageStatus, Sdk.envStorageScope, Sdk.envStorageServerName,
    Sdk.envStorageCA, Sdk.envStorageClientCert, Sdk.envStorageClientKey.
  destruct (hasStorage c); repeat rewrite <- ?app_assoc, <- ?app_comm_cons, ?app_nil_l;
    split_and!; opt_look; try done; intros _; split_and!; opt_look; done.
Qed.

End deployed.

Lemma in_flat l doc : plainLine l -> l ∈ doc -> l ∈ flat doc.
Proof.
  intros [Hl _] Hin. unfold flat. apply list_elem_of_In, in_concat. exists (SplitByte newline l).
  split; [apply in_map; by apply list_elem_of_In|]. rewrite SplitByte_without by done. by left.
Qed.

Ltac find_line := first [exact (list_elem_of_here _ _)|apply list_elem_of_further; find_line|apply elem_of_app; left; find_line].

Lemma kind_lines d a : ("kind: Secret" ∈ flat (secretDoc d a)) /\ ("kind: ConfigMap" ∈ flat (configMapDoc d a)) /\
  ("kind: Deployment" ∈ deploymentDoc d a) /\ ("kind: Service" ∈ serviceDoc d a) /\ ("  type: ClusterIP" ∈ serviceDoc d a) /\
  ("kind: NetworkPolicy" ∈ networkPolicyDoc d a) /\ ("          image: " +:+ ad_Image a ∈ deploymentDoc d a).
Proof.
  split_and!; [apply in_flat; [by split|]|apply in_flat; [by split|]|..];
    unfold secretDoc, configMapDoc, deploymentDoc, serviceDoc, networkPolicyDoc; find_line.
Qed.

(** What the SDK makes of the environment. *)
Lemma sdk_reads `{Sdk.Tls} env ca cert key scope server prefix : word scope -> word server -> word prefix -> scope <> "" -> prefix <> "" ->
  cert <> "" -> key <> "" ->
  let endpoint := inCluster "datasphered" "farcast-system" 8443 in
  let status := inCluster "datasphered-status" "farcast-system" 8444 in
  Sdk.Getenv env Sdk.envStorageEndpoint = endpoint -> Sdk.Getenv env Sdk.envStorageStatus = status ->
  Sdk.Getenv env Sdk.envStorageScope = scope -> Sdk.Getenv env Sdk.envStorageServerName = server ->
  Sdk.Getenv env Sdk.envStorageCA = ca -> Sdk.Getenv env Sdk.envStorageClientCert = cert ->
  Sdk.Getenv env Sdk.envStorageClientKey = key -> Sdk.Getenv env Sdk.envSecretsPrefix = prefix ->
  Sdk.parseURL endpoint = true -> Sdk.AppendCertsFromPEM ca = true -> Sdk.X509KeyPair cert key = true ->
  let client := Sdk.mkStorageClient endpoint status scope (Sdk.mkTransport ca (cert, key) server) in
  Sdk.newStorageFromEnv env = Sdk.storageLive client /\
  (Sdk.validSecretsPrefix prefix = Ok tt -> (Sdk.newSecretsFromEnv env None).1 = Sdk.secretsClient prefix (Sdk.storageLive client)).
Proof.
  intros Hsc Hsv Hpx Hne Hpne Hc Hk endpoint status E1 E2 E3 E4 E5 E6 E7 E8 U1 U2 U3 client.
  assert (Sdk.newStorageFromEnv env = Sdk.storageLive client) as Hl.
  { unfold Sdk.newStorageFromEnv. rewrite E1, E2, E3, E4, E5, E6, E7.
    assert (TrimSpace endpoint = endpoint) as -> by by vm_compute. assert (TrimSpace status = status) as -> by by vm_compute.
    rewrite !word_trim by done. rewrite decide_False by done. unfold Sdk.newStorageClient. rewrite U1, U2, U3.
    assert (HasPrefix endpoint "https://" = true) as -> by by vm_compute. cbn [negb orb].
    rewrite decide_False by done. rewrite decide_False by tauto. done. }
  split; [done|]. intros Hv. unfold Sdk.newSecretsFromEnv. rewrite E8, word_trim by done. rewrite decide_False, Hv by done.
  unfold Sdk.Storage. cbn [default]. by rewrite Hl.
Qed.

Lemma blockText_nonempty pem : blockText pem <> "".
Proof. unfold blockText, lines_sep. by destruct (TrimRight pem newline). Qed.

(** ** Properties *)



(** *** Witnesses *)

Definition exManifest : Manifest.Manifest := mkManifest "shop" [Manifest.mkApp "web" "web/Containerfile" "" []].
#[local] Instance exManifestYaml : ManifestYaml := fun text =>
  Ok (mkRawManifest (Some "shop") (Some [mkRawApp (Some text) (Some "web/Containerfile") None None])).

Lemma exManifest_parses : Manifest.Parse "web" = Ok exManifest.
Proof. vm_compute. reflexivity. Qed.

Definition exImage : string := "eu.gcr.io/shop/web@sha256:" +:+ of_bytes (replicate 64 97).
Definition exWebStorage : AppStorage := mkAppStorage ("CERT" +:+ lines_sep) ("KEY" +:+ lines_sep) "app-shop-web" "app/shop/web/secrets/".
Definition exDeployment (app : string) : TrConfig :=
  mkTrConfig (mkManifest "shop" [Manifest.mkApp app "web/Containerfile" "" []]) "" {[app := exImage]} "prod" {[app := exWebStorage]}
    ("CA" +:+ lines_sep) "prod.datasphered.farcast" {[app := "0a1b2c"%string]}.

#[local] Instance exTls : Sdk.Tls := {| Sdk.AppendCertsFromPEM _ := true; Sdk.X509KeyPair _ _ := true; Sdk.parseURL _ := true |}.

Lemma wordly s : forallb (fun b => (33 <=? b) && (b <? 127)) (bytes s) = true -> word s.
Proof. intros Hf. apply Forall_forall. intros b Hb%list_elem_of_In. rewrite forallb_forall in Hf. specialize (Hf b Hb). lia. Qed.

Lemma exDeployment_plain : plainConfig (exDeployment "web").
Proof.
  split; [done| |by right|by right| | | |].
  - by intros app ->%list_elem_of_singleton.
  - intros app x; cbn [exDeployment tc_Images]; intros [<- <-]%lookup_singleton_Some; by apply wordly.
  - intros app x; cbn [exDeployment tc_Credentials]; intros [<- <-]%lookup_singleton_Some; by apply wordly.
  - intros app x; cbn [exDeployment tc_Storage]; intros [<- <-]%lookup_singleton_Some; split; by right.
  - intros _. split; [done|]. intros app x; cbn [exDeployment tc_Storage]; intros [<- <-]%lookup_singleton_Some. done.
Qed.



(** A name the parser and the translator take may be one that YAML reads as no string. *)
Lemma a_name_may_read_as_null : exists m out namespace secret config deployment service policy,
  Manifest.Parse "null" = Ok m /\ Render (exDeployment "null") = Ok out /\ tc_Manifest (exDeployment "null") = m /\
  documents out = [namespace; secret; config; deployment; service; policy] /\
  ("  name: null" ∈ config) /\ ("  name: null" ∈ deployment) /\ ("  FARCAST_APP_NAME: null" ∈ config) /\
  environmentOf config secret !! "FARCAST_APP_NAME" = None /\ labelsOf deployment !! "app.kubernetes.io/name" = None.
Proof.
  do 8 eexists. split_and!; [vm_compute; reflexivity|vm_compute; reflexivity|reflexivity|vm_compute; reflexivity|find_line..|vm_compute; reflexivity|vm_compute; reflexivity].
Qed.

(** An image reference is checked from its digest on: one with line breaks is rendered, and opens a document. *)
Definition exBroken : TrConfig :=
  mkTrConfig exManifest "" {["web" := "web" +:+ lines_sep +:+ "---" +:+ lines_sep +:+ "kind: Pod" +:+ lines_sep +:+ "#" +:+ exImage]} "prod" ∅ "" ""
    {["web" := "0a1b2c"]}%string.

Example an_image_may_open_a_document :
  match Render exBroken with
  | Ok out => map head (documents out) = map Some ["apiVersion: v1"; "apiVersion: v1"; "apiVersion: v1"; "apiVersion: apps/v1"; "kind: Pod";
                                                   "apiVersion: v1"; "apiVersion: networking.k8s.io/v1"]%string
  | Err _ => False
  end.
Proof. vm_compute. reflexivity. Qed.

(** Without the certificate of the instance, the storage an application was given is left out. *)
Lemma storage_without_a_certificate_is_dropped : exists out,
  let c := mkTrConfig exManifest "" {["web" := exImage]} "prod" {["web" := exWebStorage]} "" "" {["web" := "0a1b2c"]}%string in
  Render c = Ok out /\ tc_Storage c <> ∅ /\ hasStorage c = false.
Proof. eexists. split_and!; [vm_compute; reflexivity|done|reflexivity]. Qed.
