(* ===== verification/Deploy.v ===== *)
(** * Deploying applications ([cli/runpolicy.go], and [cli/run.go] from the egress policy to the workloads)

    [farcast run], once the images are built: the instance's egress policy is
    read, this deployment's applications are replaced in it and it is written
    back; every application gets a scope of the keyring; the workloads are
    translated, the new scopes handed to the keyholder, and the workloads applied. *)

From Stdlib Require Import Ascii.
From S2P Require Import Prelude Effect GoTime GoStrings Slices LogicalKey Encoding Keyring KeyringFacts KeyringFile Material Bundle Identity Issuance Replica Manifest EgressPolicy Keeper Enrolment HandOver Translate.

(** ** The policy's place in the cluster ([fatline/deploy]) *)

Definition DefaultNamespace : string := "farcast-system".
Definition PolicyConfigMap : string := "fatline-egress-policy".
Definition PolicyKey : string := "policy.json".

Definition indentBlock (s : string) (n : nat) : string :=
  let pad := Join (repeat " "%string n) "" in
  Join (map (fun l => if decide (l <> "") then pad +:+ l else l) (SplitByte newline (TrimRight s newline))) lines_sep.

Definition policyTemplate (namespace policy : string) : string :=
  Join ["apiVersion: v1"; "kind: ConfigMap"; "metadata:"; "  name: " +:+ PolicyConfigMap; "  namespace: " +:+ namespace;
        "  labels:"; "    app.kubernetes.io/name: fatline"; "    app.kubernetes.io/managed-by: farcast";
        "# The per-application egress policy (ADR 0013): which applications exist, what";
        "# each may reach, and a HASH of the credential that identifies each one."; "#";
        "# It is a ConfigMap and not a Secret because it holds no secret material. The";
        "# credentials themselves live only in each application's own Secret; this side";
        "# carries SHA-256 of them, which is all FatLine needs to recognise a caller.";
        "data:"; "  " +:+ PolicyKey +:+ ": |"; policy; ""] lines_sep.

Definition RenderPolicyConfigMap `{PolicyJson} (namespace : string) (doc : Document) : result policy_error string :=
  let namespace := if decide (namespace = "") then DefaultNamespace else namespace in
  body ← Marshal doc; Ok (policyTemplate namespace (indentBlock body 4)).

(** ** The policy of a deployment ([runpolicy.go]) *)

Inductive save_error := KeyringChanged | NotReplaced (e : string).

Inductive run_error :=
| PolicyNotRead (e : string)
| PolicyHasNoKey
| PolicyUnreadable (e : policy_error)
| CredentialNotMinted (e : policy_error)
| PolicyNotEncoded (e : policy_error)
| PolicyNotWritten (e : string)
| KeyringNotRead
| KeyringUnusable (e : parse_error)
| ScopeNotNamed (e : keyring_error)
| ScopeNotMinted (e : keyring_error)
| ScopeNotAdded (app : string) (e : keyring_error)
| KeyringNotEncoded (e : parse_error)
| ScopesNotRecorded (e : save_error)
| CANotRead (e : string)
| CAKeyMissing
| ScopesUnresolved
| LeafNotIssued (app : string) (e : issue_error)
| NotTranslated (e : translate_error)
| NotDeployed (e : string).

(** [ConfigMapValue]: the value, whether the ConfigMap is there, and an error. *)
Definition policyReader : Type := string -> string -> string -> string * bool * option string.

Section policy.
Context `{PolicyJson} (cl : policyReader).

Definition readEgressPolicy : result run_error Document :=
  match cl DefaultNamespace PolicyConfigMap PolicyKey with
  | (_, false, Some e) => Err (PolicyNotRead e)
  | (_, true, Some _) => Err PolicyHasNoKey
  | (_, false, None) => Ok (mkDocument Version [])
  | (raw, true, None) => wrapErr PolicyUnreadable (Parse raw)
  end.

Context `{Sha256} {R : Type} `{Entropy R}.

Definition mintCredential (namespace : string) (acc : list App * gmap string string) (app : Manifest.App)
    : eff R run_error (list App * gmap string string) :=
  credential ← withErr CredentialNotMinted NewCredential;
  mret (acc.1 ++ [mkApp (ap_Name app) namespace (HashCredential credential) (ap_External app)],
        <[ap_Name app := credential]> acc.2).

Definition egressPolicy (namespace : string) (m : Manifest) : eff R run_error (Document * gmap string string) :=
  existing ← lift readEgressPolicy;
  acc ← foldE (mintCredential namespace) (filter (fun app => a_Namespace app <> namespace) (d_Apps existing), ∅) (mf_Apps m);
  mret (mkDocument Version acc.1, acc.2).

End policy.

Record egressSummary := mkSummary { es_Applications : Z; es_Hosts : Z; es_Others : Z }.

Definition summarise (doc : Document) (namespace : string) : egressSummary :=
  foldl (fun s app =>
    if decide (a_Namespace app = namespace)
    then mkSummary (es_Applications s + 1) (es_Hosts s + Z.of_nat (length (a_External app))) (es_Others s)
    else mkSummary (es_Applications s) (es_Hosts s) (es_Others s + 1)) (mkSummary 0 0 0) (d_Apps doc).

(** ** The operator's machine and the cluster

    Randomness and clock, the keyholder fleet, this process's memory, the ledger of pushes and the generation on
    record; the keyring's file, with what another command writes to it before the next replacement and what keeps it
    from being replaced; what the cluster took, and how the next manifests are received. *)
Record site (R W : Type) := mkSite {
  st_rand : R;
  st_fleet : W;
  st_mem : memory;
  st_ledger : option string;
  st_recorded : Z;
  st_keyring : option string;
  st_meanwhile : option string;
  st_fault : option string;
  st_applied : list string;
  st_refusals : list (option string)
}.

Arguments mkSite {R W}.
Arguments st_rand {R W}.
Arguments st_fleet {R W}.
Arguments st_mem {R W}.
Arguments st_ledger {R W}.
Arguments st_recorded {R W}.
Arguments st_keyring {R W}.
Arguments st_meanwhile {R W}.
Arguments st_fault {R W}.
Arguments st_applied {R W}.
Arguments st_refusals {R W}.

Section machine.
Context {R W : Type}.

Definition withKeyring (file meanwhile : option string) (s : site R W) : site R W :=
  mkSite (st_rand s) (st_fleet s) (st_mem s) (st_ledger s) (st_recorded s) file meanwhile (st_fault s) (st_applied s) (st_refusals s).

Definition onRand {E A} (op : eff R E A) : eff (site R W) E A := fun s =>
  let '(r, w) := op (st_rand s) in
  (r, mkSite w (st_fleet s) (st_mem s) (st_ledger s) (st_recorded s) (st_keyring s) (st_meanwhile s) (st_fault s)
        (st_applied s) (st_refusals s)).

(** [SaveInstanceKeyring]: the comparison and the replacement are one critical section. *)
Definition SaveInstanceKeyring (expected data : string) : eff (site R W) save_error unit := fun s =>
  let current := match st_meanwhile s with Some text => Some text | None => st_keyring s end in
  let s := withKeyring current None s in
  match st_fault s, current with
  | Some e, _ => (Err (NotReplaced e), s)
  | None, None => (Err (NotReplaced "no such file"), s)
  | None, Some text =>
      if decide (text <> expected) then (Err KeyringChanged, s) else (Ok tt, withKeyring (Some data) None s)
  end.

(** [Apply]: a manifest is taken, or refused. *)
Definition Apply (manifest : string) : eff (site R W) string unit := fun s =>
  let took (applied : list string) (rest : list (option string)) :=
    mkSite (st_rand s) (st_fleet s) (st_mem s) (st_ledger s) (st_recorded s) (st_keyring s) (st_meanwhile s) (st_fault s) applied rest in
  match st_refusals s with
  | Some e :: rest => (Err e, took (st_applied s) rest)
  | None :: rest => (Ok tt, took (st_applied s ++ [manifest]) rest)
  | [] => (Ok tt, took (st_applied s ++ [manifest]) [])
  end.

End machine.

(** ** Scopes ([ensureAppScopes]) *)

Section scopes.
Context `{Yaml} {R W : Type} `{Entropy R}.

Definition ensureScope (namespace : string) (acc : Keyring * gmap string Scope * list string) (app : Manifest.App)
    : eff R run_error (Keyring * gmap string Scope * list string) :=
  let '(keys, out, minted) := acc in
  name ← lift (wrapErr ScopeNotNamed (AppScopeName namespace (ap_Name app)));
  match ScopeNamed keys name with
  | Some existing => mret (keys, <[ap_Name app := existing]> out, minted)
  | None =>
      fresh ← withErr ScopeNotMinted (NewAppScope namespace (ap_Name app));
      grown ← lift (wrapErr (ScopeNotAdded (ap_Name app)) (AddScope keys fresh));
      mret (grown, <[ap_Name app := fresh]> out, minted ++ [ap_Name app])
  end.

Definition ensureAppScopes (namespace : string) (m : Manifest) : eff (site R W) run_error (gmap string Scope * list string) :=
  file ← gets st_keyring;
  match file with
  | None => fail KeyringNotRead
  | Some raw =>
      keys ← lift (wrapErr KeyringUnusable (ParseKeyring raw));
      acc ← onRand (foldE (ensureScope namespace) (keys, ∅, []) (mf_Apps m));
      let '(keys, out, minted) := acc in
      if decide (minted = []) then mret (out, [])
      else
        encoded ← lift (wrapErr KeyringNotEncoded (MarshalKeyring keys));
        _ ← withErr ScopesNotRecorded (SaveInstanceKeyring raw encoded);
        mret (out, minted)
  end.

End scopes.

(** ** Workloads *)

(** What [run] knows of the instance: its name, the keyholder if one is deployed -- the CA's certificate and key on
    this machine, the number of replicas, what keeps its client from opening, how a push's ledger entry is written and
    a generation recorded -- and its keepers. *)
Record keyholderOf (W : Type) := mkKeyholder {
  kh_mtls : result string (string * string);
  kh_replicas : nat;
  kh_open : option string;
  kh_disk : Z -> disk;
  kh_record : Z -> W -> option string * W
}.

Arguments mkKeyholder {W}.
Arguments kh_mtls {W}.
Arguments kh_replicas {W}.
Arguments kh_open {W}.
Arguments kh_disk {W}.
Arguments kh_record {W}.

Record instanceOf (W : Type) := mkInstance {
  in_Name : string;
  in_Keyholder : option (keyholderOf W);
  in_Keepers : list Keeper
}.

Arguments mkInstance {W}.
Arguments in_Name {W}.
Arguments in_Keyholder {W}.
Arguments in_Keepers {W}.

Section workloads.
Context `{GoRange, LeafPem} {W : Type}.

Definition issueStorage (instance namespace caCert caKey : string) (scopes : gmap string Scope)
    (storage : gmap string AppStorage) (app : Manifest.App) : result run_error (gmap string AppStorage) :=
  leaf ← wrapErr (LeafNotIssued (ap_Name app)) (IssueAppClient caCert caKey instance namespace (ap_Name app));
  Ok (<[ap_Name app := mkAppStorage (certPem leaf) (keyPem leaf)
          (match scopes !! ap_Name app with Some s => sc_Name s | None => "" end)
          (AppSecretsPrefix namespace (ap_Name app))]> storage).

Definition configOf (meta : instanceOf W) (namespace : string) (m : Manifest) (images credentials : gmap string string)
    (scopes : gmap string Scope) : result run_error TrConfig :=
  match in_Keyholder meta with
  | None => Ok (mkTrConfig m namespace images (in_Name meta) ∅ "" "" credentials)
  | Some kh =>
      mtls ← wrapErr CANotRead (kh_mtls kh);
      let '(caCert, caKey) := mtls in
      if decide (caKey = "") then Err CAKeyMissing
      else if decide (scopes = ∅) then Err ScopesUnresolved
      else
        storage ← foldM (issueStorage (in_Name meta) namespace caCert caKey scopes) ∅ (mf_Apps m);
        Ok (mkTrConfig m namespace images (in_Name meta) storage caCert (KeyholderServerName (in_Name meta)) credentials)
  end.

Definition translateRun (meta : instanceOf W) (namespace : string) (m : Manifest) (images credentials : gmap string string)
    (scopes : gmap string Scope) : result run_error string :=
  cfg ← configOf meta namespace m images credentials scopes; wrapErr NotTranslated (Render cfg).

End workloads.

(** ** Handing the new scopes over *)

(** Why the keyholder does not hold the scopes yet. *)
Inductive sealed_because :=
| KeysUnread (e : option parse_error)
| ForProblem (p : problem)
| ForReason (w : why)
| SomeSealed (waiting total : nat)
| NoneTook.

(** What the operator is told. *)
Inductive notice :=
| NotHanded (p : option problem)
| StaysSealed (because : sealed_because)
| FirstOfTwo (generation : Z) (w : option why)
| NowHeld (generation : Z)
| PartlyHeld (holding total : nat) (generation : Z).

Definition noticeOf (res : handOverResult) : notice :=
  let s := hr_step res in
  if hr_Unsafe res then NotHanded (hr_Problem res)
  else match hr_Problem res, hr_Activated res, hr_Cause res with
       | Some p, _, _ => StaysSealed (ForProblem p)
       | None, false, Some (heldNoneServing, w) => StaysSealed (ForReason w)
       | None, false, c => FirstOfTwo (hs_Generation s) (snd <$> c)
       | None, true, _ =>
           if Complete res then NowHeld (hs_Generation s)
           else if decide (hs_Waiting s <> []) then StaysSealed (SomeSealed (length (hs_Waiting s)) (hr_Total res))
           else if decide (length (hs_Loaded s) + length (hr_HeldOnly res) = 0)%nat then StaysSealed NoneTook
           else PartlyHeld (length (hs_Loaded s) + length (hr_HeldOnly res)) (hr_Total res) (hs_Generation s)
       end.

Definition keepersToReenrol (keepers : list Keeper) : list string :=
  map kp_Device (filter (fun k => kp_Revoked k = false) keepers).

(** A deploy never unseals: a sealed replica is left as it is. *)
Definition plainHandOver {W} : handOverOptions W := mkOptions false ∅ None None false.

Section handing.
Context `{GoRange, Yaml, LedgerJson, BundleYaml} {R W : Type} `{SealStateClient W}.

(** The notice, and the devices to enrol again. *)
Definition handScopesToTheKeyholder (meta : instanceOf W) (kh : keyholderOf W) (s : site R W)
    : notice * list string * site R W :=
  match st_keyring s with
  | None => (StaysSealed (KeysUnread None), [], s)
  | Some raw =>
      match ParseKeyring raw with
      | Err e => (StaysSealed (KeysUnread (Some e)), [], s)
      | Ok keys =>
          let '(res, h, recorded) := handOverKeys (in_Name meta) (kh_replicas kh) plainHandOver (kh_disk kh) (kh_open kh)
                                       (st_recorded s) (kh_record kh) keys (st_fleet s) (st_mem s) (st_ledger s) in
          (noticeOf res, keepersToReenrol (in_Keepers meta),
           mkSite (st_rand s) (ho_world h) (ho_mem h) (ho_ledger h) recorded (st_keyring s) (st_meanwhile s) (st_fault s)
             (st_applied s) (st_refusals s))
      end
  end.

End handing.

(** ** The deployment ([runCommand.Run], from the policy to the workloads) *)

Record deployed := mkDeployed {
  de_policy : Document;
  de_minted : list string;
  de_notice : option (notice * list string);
  de_summary : egressSummary
}.

Section run.
Context `{GoRange, PolicyJson, Sha256, Yaml, LedgerJson, BundleYaml, LeafPem} {R W : Type} `{Entropy R, SealStateClient W}.
Context (cl : policyReader) (meta : instanceOf W).

Definition handIfMinted (minted : list string) : eff (site R W) run_error (option (notice * list string)) := fun s =>
  match in_Keyholder meta with
  | Some kh =>
      if decide (minted = []) then (Ok None, s)
      else let '(n, again, s) := handScopesToTheKeyholder meta kh s in (Ok (Some (n, again)), s)
  | None => (Ok None, s)
  end.

Definition deploy (namespace : string) (m : Manifest) (images : gmap string string) : eff (site R W) run_error deployed :=
  let namespace := if decide (namespace = "") then mf_Name m else namespace in
  '(doc, credentials) ← onRand (egressPolicy cl namespace m);
  policyManifest ← lift (wrapErr PolicyNotEncoded (RenderPolicyConfigMap DefaultNamespace doc));
  _ ← withErr PolicyNotWritten (Apply policyManifest);
  '(scopes, minted) ← match in_Keyholder meta with
                      | Some _ => ensureAppScopes namespace m
                      | None => mret (∅, [])
                      end;
  workloads ← lift (translateRun meta namespace m images credentials scopes);
  handed ← handIfMinted minted;
  _ ← withErr NotDeployed (Apply workloads);
  mret (mkDeployed doc minted handed (summarise doc namespace)).

End run.
