(* ===== verification/DeployFacts.v ===== *)
(** * A deployment is consistent (facts on [Deploy])

    What the policy, the keyring and the workloads of a deployment say of one
    application agree, and what other deployments had is kept. *)

From Stdlib Require Import Ascii.
From S2P Require Import Prelude Effect GoTime GoStrings Slices LogicalKey Encoding Keyring KeyringFacts KeyringFile Material Bundle Identity Issuance Replica Manifest EgressPolicy Armor Keeper Enrolment HandOver Translate Deploy.

(** ** Credentials *)

Section credentials.
Context `{Sha256} {R : Type} `{Entropy R}.

(** The entry of an application with its credential. *)
Definition entryOf (namespace : string) (app : Manifest.App) (credential : string) : App :=
  mkApp (ap_Name app) namespace (HashCredential credential) (ap_External app).

Lemma NewCredential_nonempty (w w' : R) c : NewCredential w = (Ok c, w') -> c <> "".
Proof. by intros [Hl _]%NewCredential_shape ->. Qed.

Lemma mint_fold namespace l : forall apps creds (w w' : R) acc, NoDup (map ap_Name l) ->
  foldE (mintCredential namespace) (apps, creds) l w = (Ok acc, w') ->
  exists cs, length cs = length l /\ Forall (fun c => c <> "") cs /\ acc.1 = apps ++ zip_with (entryOf namespace) l cs /\
    (forall i app c, l !! i = Some app -> cs !! i = Some c -> acc.2 !! ap_Name app = Some c) /\
    (forall name, name ∉ map ap_Name l -> acc.2 !! name = creds !! name).
Proof.
  induction l as [|app l IH]; intros apps creds w w' acc Hn E.
  { injection E as <- _. exists []. split_and!; [done|constructor|by rewrite app_nil_r|done|done]. }
  apply NoDup_cons in Hn as [Hnot Hn]. apply bind_inv in E as (acc1 & w1 & E1 & E).
  apply bind_inv in E1 as (c & w2 & Hc%withErr_inv & E1). injection E1 as <- <-.
  destruct (IH _ _ _ _ _ Hn E) as (cs & Hl & Hne & Ha & Hat & Hother). exists (c :: cs). split_and!.
  - cbn. by rewrite Hl.
  - constructor; [by eapply NewCredential_nonempty|done].
  - rewrite Ha. cbn. by rewrite <- app_assoc.
  - intros [|i] a x; cbn; [|apply Hat]. intros [= <-] [= <-]. rewrite Hother by done. cbn. by rewrite lookup_insert_eq.
  - intros name [Hne' Hin]%not_elem_of_cons. rewrite Hother by done. cbn. by rewrite lookup_insert_ne.
Qed.

Context `{PolicyJson}.

(** What the policy of a deployment consists of. *)
Record replaces (namespace : string) (m : Manifest) (existing doc : Document) (credentials : gmap string string) : Prop := {
  rp_version : d_Version doc = Version;
  rp_others : forall a, a_Namespace a <> namespace -> (a ∈ d_Apps doc <-> a ∈ d_Apps existing);
  rp_own : forall a, a_Namespace a = namespace -> (a ∈ d_Apps doc <->
    exists app c, app ∈ mf_Apps m /\ credentials !! ap_Name app = Some c /\ a = entryOf namespace app c);
  rp_minted : forall app, app ∈ mf_Apps m -> exists c, credentials !! ap_Name app = Some c /\ c <> ""
}.

Lemma egressPolicy_spec cl namespace m (w w' : R) doc credentials : NoDup (map ap_Name (mf_Apps m)) ->
  egressPolicy cl namespace m w = (Ok (doc, credentials), w') ->
  exists existing, readEgressPolicy cl = Ok existing /\ replaces namespace m existing doc credentials.
Proof.
  intros Hn E. apply bind_inv in E as (existing & w1 & [Hr ->]%lift_inv & E). apply bind_inv in E as (acc & w2 & E & E2).
  injection E2 as <- <- _. exists existing. split; [done|].
  destruct (mint_fold _ _ _ _ _ _ _ Hn E) as (cs & Hl & Hne & Ha & Hat & _).
  assert (forall app, app ∈ mf_Apps m -> exists c, acc.2 !! ap_Name app = Some c /\ c <> "" /\
    entryOf namespace app c ∈ zip_with (entryOf namespace) (mf_Apps m) cs) as Hm.
  { intros app [i Hi]%list_elem_of_lookup. destruct (lookup_lt_is_Some_2 cs i) as [c Hc]; [rewrite Hl; by eapply lookup_lt_Some|].
    exists c. split_and!; [by eapply Hat|by eapply Forall_lookup_1 in Hne|]. apply list_elem_of_lookup. exists i.
    rewrite lookup_zip_with, Hi. cbn. by rewrite Hc. }
  assert (forall a, a ∈ zip_with (entryOf namespace) (mf_Apps m) cs -> exists app c, app ∈ mf_Apps m /\ acc.2 !! ap_Name app = Some c /\
    a = entryOf namespace app c) as Hz.
  { intros a [i Hi]%list_elem_of_lookup. apply lookup_zip_with_Some in Hi as (app & c & -> & Hi & Hc).
    exists app, c. split_and!; [by eapply list_elem_of_lookup_2|by eapply Hat|done]. }
  split; cbn [d_Version d_Apps]; [done| | |].
  - intros a Hns. rewrite Ha, elem_of_app, list_elem_of_filter. split; [|tauto].
    intros [[_ ?]|(app & c & _ & _ & ->)%Hz]; [done|by destruct Hns].
  - intros a Hns. rewrite Ha, elem_of_app, list_elem_of_filter. split; [by intros [[? _]|?%Hz]|].
    intros (app & c & Hin & Hc & ->). right. destruct (Hm app Hin) as (c' & Hc' & _ & ?). by rewrite Hc in Hc'; injection Hc' as ->.
  - intros app Hin. destruct (Hm app Hin) as (c & ? & ? & _). eauto.
Qed.

(** A credential of the new document is an application's of this deployment or of another. *)
Lemma replaces_identify namespace m existing doc credentials : replaces namespace m existing doc credentials ->
  NoDup (map a_CredentialSHA256 (d_Apps existing)) -> NoDup (map a_CredentialSHA256 (d_Apps doc)) ->
  (forall app, app ∈ mf_Apps m -> exists c, credentials !! ap_Name app = Some c /\ Identify doc c = Some (entryOf namespace app c)) /\
  (forall c a, a_Namespace a <> namespace -> (Identify doc c = Some a <-> Identify existing c = Some a)) /\
  (forall c a, a_Namespace a = namespace -> Identify doc c = Some a ->
     exists app c', app ∈ mf_Apps m /\ credentials !! ap_Name app = Some c' /\ a = entryOf namespace app c').
Proof.
  intros [_ Ho Hown Hm] Hne Hnd. split_and!.
  - intros app Hin. destruct (Hm app Hin) as (c & Hc & Hcn). exists c. split; [done|]. apply Identify_spec; [done|].
    split_and!; [done| |done]. apply Hown; [done|]. by exists app, c.
  - intros c a Hns. rewrite !Identify_spec by done. by rewrite Ho.
  - intros c a Hns (_ & Hin & _)%Identify_spec; [|done]. by apply Hown.
Qed.

End credentials.

Lemma readEgressPolicy_enforceable `{PolicyJson} cl existing : readEgressPolicy cl = Ok existing -> enforceable existing.
Proof.
  unfold readEgressPolicy. destruct (cl _ _ _) as [[raw [|]] [e|]]; try done.
  - destruct (Parse raw) as [d|] eqn:E; [|done]. intros [= <-]. by apply Parse_exact in E as [_ ?].
  - intros [= <-]. split; [done|constructor|constructor].
Qed.

Lemma replaces_enforceable `{Sha256} namespace m existing doc credentials : namespace <> "" ->
  (forall app, app ∈ mf_Apps m -> ap_Name app <> "") -> enforceable existing -> replaces namespace m existing doc credentials ->
  NoDup (map a_CredentialSHA256 (d_Apps doc)) -> enforceable doc.
Proof.
  intros Hns Hnames [_ Hf _] [Hv Ho Hown _] Hn. split; [done| |done]. apply Forall_forall. intros a Hin.
  destruct (decide (a_Namespace a = namespace)) as [E|Hne].
  - apply Hown in Hin as (app & c & Happ & _ & ->); [|done]. split_and!; [by apply Hnames|done|apply hash_usable].
  - rewrite Forall_forall in Hf. apply Hf. by apply Ho in Hin.
Qed.

(** ** Scopes *)

Section scopes.
Context {R : Type} `{Entropy R}.

Lemma NewScope_ok name prefix (w w' : R) s : NewScope name prefix w = (Ok s, w') -> sc_Name s = name /\ sc_Prefix s = prefix.
Proof.
  intros E. apply bind_inv in E as ([] & w1 & _ & E). apply bind_inv in E as ([] & w2 & _ & E).
  apply bind_inv in E as (k & w3 & _ & E). apply bind_inv in E as (t & w4 & _ & E). by injection E as <- _.
Qed.

Lemma NewAppScope_ok namespace app (w w' : R) s : NewAppScope namespace app w = (Ok s, w') ->
  AppScopeName namespace app = Ok (sc_Name s) /\ sc_Prefix s = AppScopePrefix namespace app.
Proof. intros E. apply bind_inv in E as (name & w1 & [En ->]%lift_inv & E). by apply NewScope_ok in E as [-> ->]. Qed.

(** The keyring with scopes added. *)
Definition grown (k : Keyring) (added : list Scope) : Keyring := mkKeyring (kr_nameKeys k) (kr_keys k) (kr_scopes k ++ added).

Lemma grown_extends k added : extends k (grown k added).
Proof.
  destruct k as [n ks ss]. unfold grown. cbn. rewrite <- (app_nil_r n) at 2. rewrite <- (app_nil_r ks) at 2.
  constructor. apply extends_scopes. apply Forall_forall. reflexivity.
Qed.

Lemma AddScope_ok k s m : keyring_ok k -> AddScope k s = Ok m -> m = grown k [s] /\ keyring_ok m.
Proof.
  intros [H1 H2 H3 H4 H5] (Hv & Hf & ->)%AddScope_spec. split; [done|]. split; [done..|]. cbn. by apply scopes_ok_snoc.
Qed.

(** What an application is given: the scope of its name, and of its prefix when it was minted for it. *)
Record given (namespace : string) (k : Keyring) (minted : list string) (app : Manifest.App) (s : Scope) : Prop := {
  gv_held : s ∈ kr_scopes k;
  gv_name : AppScopeName namespace (ap_Name app) = Ok (sc_Name s);
  gv_prefix : ap_Name app ∈ minted -> sc_Prefix s = AppScopePrefix namespace (ap_Name app)
}.

Lemma ensure_fold namespace l : forall k out minted (w w' : R) k' out' minted', NoDup (map ap_Name l) -> keyring_ok k ->
  foldE (ensureScope namespace) (k, out, minted) l w = (Ok (k', out', minted'), w') ->
  exists added more, k' = grown k added /\ keyring_ok k' /\ minted' = minted ++ more /\ more ⊆ map ap_Name l /\ (more = [] -> added = []) /\
    (forall app, app ∈ l -> exists s, out' !! ap_Name app = Some s /\ given namespace k' more app s) /\
    (forall name, name ∉ map ap_Name l -> out' !! name = out !! name).
Proof.
  induction l as [|app l IH]; intros k out minted w w' k' out' minted' Hn Hk E.
  { injection E as <- <- <- <-. exists [], []. split_and!; [|done|by rewrite app_nil_r|apply list_subseteq_nil|done| |done].
    - unfold grown. rewrite app_nil_r. by destruct k.
    - intros app []%not_elem_of_nil. }
  apply NoDup_cons in Hn as [Hnot Hn]. apply bind_inv in E as ([[k1 out1] minted1] & w1 & E1 & E).
  apply bind_inv in E1 as (name & w2 & [En ->]%lift_inv & E1).
  destruct (AppScopeName _ _) as [nm|] eqn:Ename; [|done]. injection En as ->.
  assert (exists s more1 added1, out1 = <[ap_Name app := s]> out /\ minted1 = minted ++ more1 /\ k1 = grown k added1 /\ keyring_ok k1 /\
    more1 ⊆ [ap_Name app] /\ (more1 = [] -> added1 = []) /\ given namespace k1 more1 app s) as
    (s & more1 & added1 & -> & -> & E2 & Hk1 & Hsub & Hnil & Hg).
  { destruct (ScopeNamed k name) as [s|] eqn:Es.
    - injection E1 as <- <- <- _. exists s, [], []. split_and!; [done|by rewrite app_nil_r| |done|apply list_subseteq_nil|done|].
      + unfold grown. rewrite app_nil_r. by destruct k.
      + unfold ScopeNamed in Es. destruct (list_find _ _) as [[i x]|] eqn:Ef; [|done]. injection Es as ->.
        apply list_find_Some in Ef as (Hi & Hx & _). split; [by eapply list_elem_of_lookup_2|by rewrite Hx|by intros []%not_elem_of_nil].
    - apply bind_inv in E1 as (fresh & w3 & Ef%withErr_inv & E1). apply bind_inv in E1 as (g & w4 & [Eg ->]%lift_inv & E1).
      injection E1 as <- <- <- _. destruct (AddScope k fresh) as [m|] eqn:Ea; [|done]. injection Eg as <-.
      destruct (AddScope_ok _ _ _ Hk Ea) as [-> Hok]. apply NewAppScope_ok in Ef as [Hnm Hpx].
      exists fresh, [ap_Name app], [fresh]. split_and!; [done..|]. split; [cbn; set_solver|done|done]. }
  destruct (IH _ _ _ _ _ _ _ _ Hn Hk1 E) as (added & more & -> & Hk' & -> & Hsub' & Hnil' & Hall & Hother).
  exists (added1 ++ added), (more1 ++ more). split_and!; [|done|by rewrite app_assoc|set_solver| | |].
  - rewrite E2. unfold grown. cbn. by rewrite app_assoc.
  - intros [H1 H2]%app_nil. by rewrite Hnil, Hnil'.
  - intros a [->|Hin]%elem_of_cons.
    + exists s. rewrite Hother by done. rewrite lookup_insert_eq. split; [done|]. destruct Hg as [G1 G2 G3].
      split; [cbn; set_solver|done|]. intros [?|Hm]%elem_of_app; [by apply G3|]. by apply Hsub' in Hm.
    + destruct (Hall a Hin) as (s' & Hs' & [G1 G2 G3]). exists s'. split; [done|]. split; [done|done|].
      intros [Hm|?]%elem_of_app; [|by apply G3]. apply Hsub in Hm. apply list_elem_of_singleton in Hm.
      destruct Hnot. rewrite <- Hm. by apply list_elem_of_fmap_2.
  - intros nm [Hne Hin]%not_elem_of_cons. rewrite Hother by done. by rewrite lookup_insert_ne.
Qed.

End scopes.

Lemma reaches_own instance namespace app name : AppScopeName namespace app = Ok name ->
  MayReach (mkIdentity RoleApp instance app namespace) name = true.
Proof. intros E. unfold MayReach. cbn [id_Role id_Name id_Namespace]. rewrite E. by apply bool_decide_eq_true. Qed.

Section recorded.
Context `{Yaml} {R W : Type} `{Entropy R}.
Implicit Types s : site R W.

Lemma onRand_ok {E A} (op : eff R E A) s a s' : onRand op s = (Ok a, s') ->
  exists w, op (st_rand s) = (Ok a, w) /\ st_keyring s' = st_keyring s /\ st_meanwhile s' = st_meanwhile s /\ st_applied s' = st_applied s.
Proof. unfold onRand. destruct (op _) as [r w]. intros [= -> <-]. by exists w. Qed.

Lemma onRand_leaves {E A T} (f : site R W -> T) (op : eff R E A) :
  (forall s w, f (mkSite w (st_fleet s) (st_mem s) (st_ledger s) (st_recorded s) (st_keyring s) (st_meanwhile s) (st_fault s)
     (st_applied s) (st_refusals s)) = f s) -> leaves f (onRand op).
Proof. intros Hf s r s'. unfold onRand. destruct (op _) as [r0 w]. intros [= _ <-]. apply Hf. Qed.

Lemma save_leaves_applied expected data : leaves (@st_applied R W) (SaveInstanceKeyring expected data).
Proof.
  intros s r s'. unfold SaveInstanceKeyring. cbv zeta. destruct (st_fault _) as [e|]; [by intros [= _ <-]|].
  destruct (st_meanwhile s) as [t|], (st_keyring s) as [u|]; try case_decide; by intros [= _ <-].
Qed.

Lemma save_ok expected data s s' : SaveInstanceKeyring expected data s = (Ok tt, s') ->
  st_keyring s' = Some data /\ (st_meanwhile s = None -> st_keyring s = Some expected).
Proof.
  unfold SaveInstanceKeyring. cbv zeta. destruct (st_fault _) as [e|]; [done|]. destruct (st_meanwhile s) as [t|].
  - case_decide; [done|]. by intros [= <-].
  - destruct (st_keyring s) as [t|]; [|done]. case_decide as Hd; [done|]. intros [= <-]. split; [done|]. intros _.
    destruct (decide (t = expected)) as [->|]; [done|by destruct Hd].
Qed.

(** What the keyring is after scopes were ensured. *)
Record ensured (namespace : string) (m : Manifest) (old new : Keyring) (scopes : gmap string Scope) (minted : list string) : Prop := {
  ed_valid : keyring_ok new;
  ed_grown : exists added, new = grown old added;
  ed_unchanged : minted = [] -> new = old;
  ed_given : forall app, app ∈ mf_Apps m -> exists sc, scopes !! ap_Name app = Some sc /\ given namespace new minted app sc
}.

Lemma ensureAppScopes_ok namespace m s scopes minted s' : NoDup (map ap_Name (mf_Apps m)) ->
  ensureAppScopes namespace m s = (Ok (scopes, minted), s') ->
  exists raw old new, st_keyring s = Some raw /\ ParseKeyring raw = Ok old /\ ensured namespace m old new scopes minted /\
    st_applied s' = st_applied s /\
    if decide (minted = []) then st_keyring s' = Some raw
    else exists text, MarshalKeyring new = Ok text /\ st_keyring s' = Some text.
Proof.
  intros Hn E. apply bind_inv in E as (file & s1 & [= <- <-] & E). destruct (st_keyring s) as [raw|] eqn:Hk; [|done].
  apply bind_inv in E as (keys & s1 & [Ek ->]%lift_inv & E). destruct (ParseKeyring raw) as [k|] eqn:Ep; [|done]. injection Ek as ->.
  apply bind_inv in E as ([[new out] mt] & s1 & E1 & E). apply onRand_ok in E1 as (w & E1 & Hs1 & _ & Ha1).
  assert (keyring_ok keys) as Hok by (by apply Valid_spec; eapply ParseKeyring_valid).
  destruct (ensure_fold _ _ _ _ _ _ _ _ _ _ Hn Hok E1) as (added & more & -> & Hnew & -> & _ & Hnil & Hg & _). cbn [app] in *.
  assert (ensured namespace m keys (grown keys added) out more) as He.
  { split; [done|by eexists| |done]. intros Hm. rewrite Hnil by done. unfold grown. rewrite app_nil_r. by destruct keys. }
  exists raw, keys, (grown keys added). case_decide as Hd.
  - injection E as <- <- <-. subst more. split_and!; [done..|]. rewrite decide_True by done. congruence.
  - apply bind_inv in E as (text & s2 & [Et ->]%lift_inv & E). destruct (MarshalKeyring _) as [t|] eqn:Em; [|done]. injection Et as ->.
    apply bind_inv in E as ([] & s3 & E2%withErr_inv & E). injection E as <- <- <-.
    pose proof (save_leaves_applied _ _ _ _ _ E2) as Ha. apply save_ok in E2 as [Hf _].
    split_and!; [done..|congruence|]. rewrite decide_False by done. by exists text.
Qed.

Lemma ensure_failed namespace m s e s' : ensureAppScopes namespace m s = (Err e, s') ->
  st_applied s' = st_applied s /\
  (st_keyring s' = st_keyring s \/ exists text, st_meanwhile s = Some text /\ st_keyring s' = Some text).
Proof.
  intros E. unfold ensureAppScopes in E. apply bind_cases in E as [(x & [=] & _)|(file & s1 & [= <- <-] & E)].
  destruct (st_keyring s) as [raw|] eqn:Hk; [|injection E as _ <-; by rewrite Hk; split; [|left]].
  rewrite bind_lift in E. destruct (ParseKeyring raw); cbn [wrapErr] in E; [|injection E as _ <-; by rewrite Hk; split; [|left]].
  apply bind_cases in E as [(x & E1 & _)|([[new out] mt] & s1 & E1 & E)].
  { unfold onRand in E1. destruct (foldE _ _ _ _) as [r w]. injection E1 as _ <-. cbn. by rewrite Hk; split; [|left]. }
  apply onRand_ok in E1 as (w & _ & K1 & M1 & A1). case_decide; [done|].
  rewrite bind_lift in E. destruct (MarshalKeyring new) as [t|]; cbn [wrapErr] in E; [|injection E as _ <-; split; [done|left; congruence]].
  apply bind_cases in E as [(x & E2 & _)|([] & s2 & _ & [=])].
  unfold withErr in E2. destruct (SaveInstanceKeyring raw t s1) as [r s2] eqn:Es. injection E2 as Er <-. destruct r as [|err]; [done|].
  split; [rewrite (save_leaves_applied _ _ _ _ _ Es); done|]. rewrite <- M1, <- Hk, <- K1. clear -Es.
  unfold SaveInstanceKeyring in Es. cbv zeta in Es. destruct (st_meanwhile s1) as [u|], (st_keyring s1) as [v|], (st_fault _);
    try case_decide; try done; injection Es as _ <-; cbn; eauto.
Qed.

End recorded.

(** ** Workloads *)

Lemma issue_fold `{LeafPem} instance namespace caCert caKey scopes l : forall storage out, NoDup (map ap_Name l) ->
  foldM (issueStorage instance namespace caCert caKey scopes) storage l = Ok out ->
  (forall app, app ∈ l -> exists leaf, IssueAppClient caCert caKey instance namespace (ap_Name app) = Ok leaf /\
     out !! ap_Name app = Some (mkAppStorage (certPem leaf) (keyPem leaf)
       (match scopes !! ap_Name app with Some s => sc_Name s | None => "" end) (AppSecretsPrefix namespace (ap_Name app)))) /\
  (forall name, name ∉ map ap_Name l -> out !! name = storage !! name).
Proof.
  induction l as [|app l IH]; intros storage out Hn E.
  { injection E as <-. split; [by intros app []%not_elem_of_nil|done]. }
  apply NoDup_cons in Hn as [Hnot Hn]. cbn [foldM] in E. apply bind_ok in E as (st1 & E1 & E).
  apply bind_ok in E1 as (leaf & El & [= <-]). destruct (IH _ _ Hn E) as [Hin Hother]. split.
  - intros a [->|Ha]%elem_of_cons; [|by apply Hin]. exists leaf. rewrite Hother by done. rewrite lookup_insert_eq.
    by destruct (IssueAppClient _ _ _ _ _); [injection El as ->|].
  - intros nm [Hne Hx]%not_elem_of_cons. rewrite Hother by done. by rewrite lookup_insert_ne.
Qed.

Lemma issued_leaf `{CA} caCert caKey instance namespace app leaf : IssueAppClient caCert caKey instance namespace app = Ok leaf ->
  exists ca, LoadCA caCert caKey = Ok ca /\ IssueClient ca (AppURI instance namespace app) = Ok leaf.
Proof. unfold IssueAppClient. case_decide; [done|]. intros (ca & Hca%wrap_ok & Hl%wrap_ok)%bind_ok. by exists ca. Qed.

Lemma Apply_cases {R W} manifest (s : site R W) r s' : Apply manifest s = (r, s') ->
  st_keyring s' = st_keyring s /\ st_meanwhile s' = st_meanwhile s /\
  match r with Ok _ => st_applied s' = st_applied s ++ [manifest] | Err _ => st_applied s' = st_applied s end.
Proof. unfold Apply. destruct (st_refusals s) as [|[e|] rest]; by intros [= <- <-]. Qed.

Section run.
Context `{GoRange, PolicyJson, Sha256, Yaml, LedgerJson, BundleYaml, LeafPem} {R W : Type} `{Entropy R, SealStateClient W}.
Implicit Types s : site R W.

Lemma hand_keeps meta minted s r s' : handIfMinted meta minted s = (r, s') ->
  is_ok r = true /\ st_applied s' = st_applied s /\ st_keyring s' = st_keyring s /\ st_meanwhile s' = st_meanwhile s.
Proof.
  unfold handIfMinted. destruct (in_Keyholder meta) as [kh|]; [|by intros [= <- <-]]. case_decide; [by intros [= <- <-]|].
  unfold handScopesToTheKeyholder. destruct (st_keyring s) as [raw|] eqn:Hk; [|by intros [= <- <-]].
  destruct (ParseKeyring raw); [|by intros [= <- <-]]. destruct (handOverKeys _ _ _ _ _ _ _ _ _ _) as [[res h] rec]. by intros [= <- <-].
Qed.

Lemma configOf_spec (meta : instanceOf W) namespace m images credentials scopes cfg : NoDup (map ap_Name (mf_Apps m)) ->
  configOf meta namespace m images credentials scopes = Ok cfg ->
  tc_Manifest cfg = m /\ tc_Namespace cfg = namespace /\ tc_Images cfg = images /\ tc_Instance cfg = in_Name meta /\ tc_Credentials cfg = credentials /\
  match in_Keyholder meta with
  | None => tc_Storage cfg = ∅
  | Some kh => exists caCert caKey, kh_mtls kh = Ok (caCert, caKey) /\ tc_StorageCAPEM cfg = caCert /\
      forall app, app ∈ mf_Apps m -> exists ca leaf, LoadCA caCert caKey = Ok ca /\ IssueClient ca (AppURI (in_Name meta) namespace (ap_Name app)) = Ok leaf /\
        tc_Storage cfg !! ap_Name app = Some (mkAppStorage (certPem leaf) (keyPem leaf)
          (match scopes !! ap_Name app with Some s => sc_Name s | None => "" end) (AppSecretsPrefix namespace (ap_Name app)))
  end.
Proof.
  intros Hn. unfold configOf. destruct (in_Keyholder meta) as [kh|]; [|by intros [= <-]].
  destruct (kh_mtls kh) as [[caCert caKey]|]; [|done]. cbn [wrapErr mbind result_bind]. case_decide; [done|]. case_decide; [done|].
  intros (st & Hst & [= <-])%bind_ok. split_and!; [done..|]. exists caCert, caKey. split_and!; [done..|]. intros app Hin.
  destruct (proj1 (issue_fold _ _ _ _ _ _ _ _ Hn Hst) app Hin) as (leaf & (ca & Hca & Hl)%issued_leaf & Hs). by exists ca, leaf.
Qed.

(** The steps of a deployment that succeeded. *)
Lemma deploy_ok cl meta namespace m images s d s' : NoDup (map ap_Name (mf_Apps m)) ->
  deploy cl meta namespace m images s = (Ok d, s') ->
  let ns := if decide (namespace = "") then mf_Name m else namespace in
  exists existing credentials scopes cfg policyManifest workloads,
    readEgressPolicy cl = Ok existing /\ replaces ns m existing (de_policy d) credentials /\
    RenderPolicyConfigMap DefaultNamespace (de_policy d) = Ok policyManifest /\
    configOf meta ns m images credentials scopes = Ok cfg /\ Render cfg = Ok workloads /\
    st_applied s' = st_applied s ++ [policyManifest; workloads] /\
    (is_Some (in_Keyholder meta) -> exists raw old new, st_keyring s = Some raw /\ ParseKeyring raw = Ok old /\
       ensured ns m old new scopes (de_minted d) /\
       if decide (de_minted d = []) then st_keyring s' = Some raw
       else exists text, MarshalKeyring new = Ok text /\ st_keyring s' = Some text).
Proof.
  intros Hn E ns. unfold deploy in E. fold ns in E.
  apply bind_inv in E as ([doc credentials] & s1 & E1 & E). apply onRand_ok in E1 as (w1 & E1 & K1 & _ & A1).
  destruct (egressPolicy_spec _ _ _ _ _ _ _ Hn E1) as (existing & Hr & Hrep).
  apply bind_inv in E as (pm & s2 & [Epm ->]%lift_inv & E). destruct (RenderPolicyConfigMap _ _) as [p|] eqn:Ep; [|done]. injection Epm as ->.
  apply bind_inv in E as ([] & s2 & E2%withErr_inv & E). apply Apply_cases in E2 as (K2 & _ & A2).
  apply bind_inv in E as ([scopes minted] & s3 & E3 & E).
  apply bind_inv in E as (workloads & s4 & [Ew ->]%lift_inv & E).
  unfold translateRun in Ew. destruct (configOf _ _ _ _ _ _) as [cfg|] eqn:Ec; [|done]. cbn [mbind result_bind] in Ew.
  destruct (Render cfg) as [text|] eqn:Et; [|done]. injection Ew as ->.
  apply bind_inv in E as (handed & s4 & E4 & E). apply hand_keeps in E4 as (_ & A4 & K4 & _).
  apply bind_inv in E as ([] & s5 & E5%withErr_inv & E). apply Apply_cases in E5 as (K5 & _ & A5). injection E as <- <-. cbn [de_policy de_minted].
  exists existing, credentials, scopes, cfg, pm, workloads.
  assert (st_applied s3 = st_applied s2 /\ (is_Some (in_Keyholder meta) -> exists raw old new, st_keyring s2 = Some raw /\ ParseKeyring raw = Ok old /\
    ensured ns m old new scopes minted /\
    if decide (minted = []) then st_keyring s3 = Some raw else exists text, MarshalKeyring new = Ok text /\ st_keyring s3 = Some text)) as [A3 Hsc].
  { destruct (in_Keyholder meta) as [kh|].
    - destruct (ensureAppScopes_ok _ _ _ _ _ _ Hn E3) as (raw & old & new & ? & ? & ? & ? & ?). split; [done|]. intros _. by exists raw, old, new.
    - injection E3 as _ _ <-. split; [done|]. by intros []. }
  split_and!; [done..| |].
  - rewrite A5, A4, A3, A2, A1. by rewrite <- app_assoc.
  - intros Hkh. destruct (Hsc Hkh) as (raw & old & new & Hk & Hp & He & Hf). exists raw, old, new. split_and!; [congruence|done..|].
    case_decide; [congruence|]. destruct Hf as (t & ? & ?). exists t. split; congruence.
Qed.

(** What a deployment that failed leaves behind. *)
Lemma deploy_failed cl meta namespace m images s e s' : NoDup (map ap_Name (mf_Apps m)) ->
  deploy cl meta namespace m images s = (Err e, s') ->
  let ns := if decide (namespace = "") then mf_Name m else namespace in
  (st_applied s' = st_applied s /\ st_keyring s' = st_keyring s) \/
  exists existing doc credentials policyManifest, readEgressPolicy cl = Ok existing /\ replaces ns m existing doc credentials /\
    RenderPolicyConfigMap DefaultNamespace doc = Ok policyManifest /\ st_applied s' = st_applied s ++ [policyManifest] /\
    (st_keyring s' = st_keyring s \/ (exists text, st_meanwhile s = Some text /\ st_keyring s' = Some text) \/
     exists raw old new scopes minted text, st_keyring s = Some raw /\ ParseKeyring raw = Ok old /\ ensured ns m old new scopes minted /\
       MarshalKeyring new = Ok text /\ st_keyring s' = Some text).
Proof.
  intros Hn E ns. unfold deploy in E. fold ns in E.
  apply bind_cases in E as [(x & E1 & _)|([doc credentials] & s1 & E1 & E)].
  { left. unfold onRand in E1. destruct (egressPolicy _ _ _ _) as [r w]. by injection E1 as _ <-. }
  apply onRand_ok in E1 as (w1 & E1 & K1 & M1 & A1). destruct (egressPolicy_spec _ _ _ _ _ _ _ Hn E1) as (existing & Hr & Hrep).
  rewrite bind_lift in E. destruct (RenderPolicyConfigMap _ _) as [pm|] eqn:Ep; cbn [wrapErr] in E; [|injection E as _ <-; by left].
  apply bind_cases in E as [(x & E2 & _)|([] & s2 & E2%withErr_inv & E)].
  { left. unfold withErr in E2. destruct (Apply pm s1) as [r s2] eqn:Ea. injection E2 as Er <-. apply Apply_cases in Ea as (K & _ & A).
    destruct r; [done|]. by rewrite K, A. }
  apply Apply_cases in E2 as (K2 & M2 & A2). right. exists existing, doc, credentials, pm. do 3 (split; [done|]).
  apply bind_cases in E as [(x & E3 & _)|([scopes minted] & s3 & E3 & E)].
  { destruct (in_Keyholder meta); [|done]. apply ensure_failed in E3 as (A3 & Hk). split; [congruence|].
    rewrite M2, M1, K2, K1 in Hk. tauto. }
  assert (st_applied s3 = st_applied s2 /\ (st_keyring s3 = st_keyring s2 \/ exists raw old new scopes minted text, st_keyring s2 = Some raw /\
    ParseKeyring raw = Ok old /\ ensured ns m old new scopes minted /\ MarshalKeyring new = Ok text /\ st_keyring s3 = Some text)) as [A3 Hk3].
  { destruct (in_Keyholder meta) as [kh|]; [|injection E3 as _ _ <-; by split; [|left]].
    destruct (ensureAppScopes_ok _ _ _ _ _ _ Hn E3) as (raw & old & new & Hk & ? & ? & ? & Hf). split; [done|].
    case_decide; [left; congruence|]. destruct Hf as (t & ? & ?). right. by exists raw, old, new, scopes, minted, t. }
  assert (st_applied s' = st_applied s3 /\ st_keyring s' = st_keyring s3) as [A4 K4].
  { rewrite bind_lift in E. destruct (translateRun _ _ _ _ _ _); [|by injection E as _ <-].
    apply bind_cases in E as [(x & E4 & _)|(handed & s4 & E4 & E)]; [by apply hand_keeps in E4 as (? & _)|].
    apply hand_keeps in E4 as (_ & A4 & K4 & _). apply bind_cases in E as [(x & E5 & _)|([] & s5 & _ & E)]; [|done].
    unfold withErr in E5. destruct (Apply _ s4) as [r s5] eqn:Ea. injection E5 as Er <-. apply Apply_cases in Ea as (K & _ & A).
    destruct r; [done|]. by rewrite K, A, A4, K4. }
  split; [congruence|]. destruct Hk3 as [Hk3|(raw & old & new & sc & mi & t & ? & ? & ? & ? & ?)]; [left; congruence|right; right].
  exists raw, old, new, sc, mi, t. split_and!; try done; congruence.
Qed.

End run.

Lemma parsed_names `{ManifestYaml} data m : Manifest.Parse data = Ok m ->
  NoDup (map ap_Name (mf_Apps m)) /\ mf_Name m <> "" /\ forall app, app ∈ mf_Apps m -> ap_Name app <> "".
Proof.
  intros (raw & [[_ Hn] (l & _ & _ & Hf) Hnd])%parsed_ok. split_and!; [done|by apply dns_label_nonempty|].
  intros app [i Hi]%list_elem_of_lookup. destruct (Forall2_lookup_r _ _ _ _ _ Hf Hi) as (ra & _ & [[_ Ha] _ _ _]).
  by apply dns_label_nonempty.
Qed.

(** ** Properties *)

(** C13: what a deployment writes agrees with itself and keeps what was there. The cluster takes the egress policy and
    then the workloads. Of credentials that differ, the policy can be enforced: the credential in each application's
    workload identifies it with the hosts its manifest declares, no other application of the namespace is known any
    longer, and every other deployment's applications are identified as before. The keyring only grows, stays valid,
    and is on this machine before an application uses it; the scope each workload is told of is in it, the leaf the
    workload carries may reach that scope, and a scope that was minted is of the application's own prefix. *)
Theorem a_deployment_is_consistent
    `{ManifestYaml, GoRange, PolicyJson, Sha256, Yaml, LedgerJson, BundleYaml, LeafPem} {R W : Type} `{Entropy R, SealStateClient W}
    data m cl (meta : instanceOf W) namespace images (s s' : site R W) d :
  Manifest.Parse data = Ok m -> deploy cl meta namespace m images s = (Ok d, s') ->
  let ns := if decide (namespace = "") then mf_Name m else namespace in
  let doc := de_policy d in
  exists existing cfg policyManifest workloads,
    readEgressPolicy cl = Ok existing /\ RenderPolicyConfigMap DefaultNamespace doc = Ok policyManifest /\
    Render cfg = Ok workloads /\ st_applied s' = st_applied s ++ [policyManifest; workloads] /\
    tc_Manifest cfg = m /\ tc_Namespace cfg = ns /\ tc_Images cfg = images /\ tc_Instance cfg = in_Name meta /\
    (NoDup (map a_CredentialSHA256 (d_Apps doc)) ->
       enforceable doc /\
       (forall app, app ∈ mf_Apps m -> exists c, tc_Credentials cfg !! ap_Name app = Some c /\
          Identify doc c = Some (mkApp (ap_Name app) ns (HashCredential c) (ap_External app))) /\
       (forall c a, a_Namespace a = ns -> Identify doc c = Some a ->
          exists app, app ∈ mf_Apps m /\ a_Name a = ap_Name app /\ a_External a = ap_External app) /\
       (forall c a, a_Namespace a <> ns -> (Identify doc c = Some a <-> Identify existing c = Some a))) /\
    match in_Keyholder meta with
    | None => tc_Storage cfg = ∅
    | Some kh =>
        exists raw old new caCert caKey, st_keyring s = Some raw /\ ParseKeyring raw = Ok old /\ Valid new = Ok tt /\ extends old new /\
          (if decide (de_minted d = []) then new = old /\ st_keyring s' = Some raw
           else exists text, MarshalKeyring new = Ok text /\ st_keyring s' = Some text) /\
          kh_mtls kh = Ok (caCert, caKey) /\ tc_StorageCAPEM cfg = caCert /\
          forall app, app ∈ mf_Apps m -> exists sc ca leaf, sc ∈ kr_scopes new /\ LoadCA caCert caKey = Ok ca /\
            IssueClient ca (AppURI (in_Name meta) ns (ap_Name app)) = Ok leaf /\
            tc_Storage cfg !! ap_Name app =
              Some (mkAppStorage (certPem leaf) (keyPem leaf) (sc_Name sc) (AppSecretsPrefix ns (ap_Name app))) /\
            MayReach (mkIdentity RoleApp (in_Name meta) (ap_Name app) ns) (sc_Name sc) = true /\
            (ap_Name app ∈ de_minted d -> sc_Prefix sc = AppScopePrefix ns (ap_Name app))
    end.
Proof.
  intros (Hn & Hmn & Han)%parsed_names E ns doc. assert (ns <> "") as Hns by (unfold ns; by destruct (decide (namespace = ""))).
  destruct (deploy_ok _ _ _ _ _ _ _ _ Hn E) as (existing & creds & scopes & cfg & pm & wl & Hr & Hrep & Hp & Hc & Hre & Ha & Hk).
  fold ns in Hrep, Hc, Hk. destruct (configOf_spec _ _ _ _ _ _ _ Hn Hc) as (C1 & C2 & C3 & C4 & C5 & C6).
  exists existing, cfg, pm, wl. do 8 (split; [done|]). split.
  - intros Hnd. pose proof (readEgressPolicy_enforceable _ _ Hr) as He.
    rewrite C5. destruct (replaces_identify _ _ _ _ _ Hrep (en_hashes _ He) Hnd) as (I1 & I2 & I3).
    split_and!; [by eapply replaces_enforceable|exact I1| |exact I2].
    intros c a Hna Hi. destruct (I3 c a Hna Hi) as (app & c' & Hin & _ & ->). by exists app.
  - destruct (in_Keyholder meta) as [kh|]; [|done]. destruct C6 as (caCert & caKey & Hca & Hcap & Hst).
    destruct (Hk ltac:(by eexists)) as (raw & old & new & K1 & K2 & [Hv [added Hg] Hu Hgv] & Hf).
    exists raw, old, new, caCert, caKey. split_and!; [done|done|by apply Valid_spec|subst new; apply grown_extends| |done|done|].
    { case_decide; [split; [by apply Hu|done]|done]. }
    intros app Hin. destruct (Hgv app Hin) as (sc & Hsc & [G1 G2 G3]), (Hst app Hin) as (ca & leaf & Hload & Hl & Hs).
    exists sc, ca, leaf. split_and!; [done|done|done|by rewrite Hs, Hsc|by apply reaches_own|done].
Qed.

(** A deployment that fails starts nothing: no workload is applied, the cluster took at most an egress policy that
    keeps every other deployment's applications, and the keyring on this machine is what it was, what another command
    wrote to it, or the old one grown. *)
Theorem a_failed_deployment_starts_nothing
    `{ManifestYaml, GoRange, PolicyJson, Sha256, Yaml, LedgerJson, BundleYaml, LeafPem} {R W : Type} `{Entropy R, SealStateClient W}
    data m cl (meta : instanceOf W) namespace images (s s' : site R W) e :
  Manifest.Parse data = Ok m -> deploy cl meta namespace m images s = (Err e, s') ->
  let ns := if decide (namespace = "") then mf_Name m else namespace in
  (st_applied s' = st_applied s \/
   exists existing doc pm, readEgressPolicy cl = Ok existing /\ RenderPolicyConfigMap DefaultNamespace doc = Ok pm /\
     st_applied s' = st_applied s ++ [pm] /\ forall a, a_Namespace a <> ns -> (a ∈ d_Apps doc <-> a ∈ d_Apps existing)) /\
  (st_keyring s' = st_keyring s \/ (exists text, st_meanwhile s = Some text /\ st_keyring s' = Some text) \/
   exists raw old new text, st_keyring s = Some raw /\ ParseKeyring raw = Ok old /\ extends old new /\ Valid new = Ok tt /\
     MarshalKeyring new = Ok text /\ st_keyring s' = Some text).
Proof.
  intros (Hn & _ & _)%parsed_names E ns.
  destruct (deploy_failed _ _ _ _ _ _ _ _ Hn E) as [[Ha Hk]|(existing & doc & creds & pm & Hr & [_ Ho _ _] & Hp & Ha & Hk)]; [by split; left|].
  split; [right; by exists existing, doc, pm|]. destruct Hk as [Hk|[Hk|(raw & old & new & sc & mi & t & K1 & K2 & [Hv [added Hg] _ _] & K4 & K5)]]; [by left|by right; left|].
  right; right. exists raw, old, new, t. split_and!; [done|done|subst new; apply grown_extends|by apply Valid_spec|done|done].
Qed.

(** *** Witnesses

    A deployment of one application over a policy that holds its previous self and another deployment's. *)

#[local] Existing Instance KeyringFile.oneDocument.
#[local] Existing Instance EgressPolicy.exHash.
#[local] Instance exManifestYaml : ManifestYaml := fun text =>
  Ok (mkRawManifest (Some "shop") (Some [mkRawApp (Some text) (Some "web/Containerfile") None None])).
#[local] Existing Instance Issuance.exCA.
#[local] Instance exLeafPem : LeafPem := {|
  certPem leaf := "leaf " +:+ String.concat " " (sn_URIs (leafNames leaf)); keyPem leaf := "key of leaf " +:+ String.concat " " (sn_URIs (leafNames leaf));
  notAfter _ := None |}.
#[local] Instance exBundleYaml : BundleYaml := {| unmarshalBundle _ := None; marshalBundle _ := Err "no bundle" |}.
#[local] Instance exLedgerJson : LedgerJson := {| marshalEntry e := Ok (le_Result e); unmarshalEntry _ := None |}.
#[local] Instance silentFleet : SealStateClient unit := {|
  sk_State _ w := ((zeroState, Some (Failed "no answer")), w);
  sk_Unseal _ _ _ w := ((zeroState, Some (Failed "no answer")), w);
  sk_now _ := 0
|}.

Definition exManifest : Manifest := mkManifest "shop" [Manifest.mkApp "web" "web/Containerfile" "" []].
Definition exBefore : Document :=
  mkDocument Version [mkApp "api" "apps" (HashCredential "theirs") []; mkApp "web" "shop" (HashCredential "before") []].

#[local] Instance exPolicyJson : PolicyJson := {|
  unmarshalPolicy s := if decide (s = "before") then Ok exBefore else Err s;
  marshalPolicy d := Ok "after"%string
|}.

Definition exReader : policyReader := fun _ _ _ => ("before"%string, true, None).
Definition exInstance : instanceOf unit :=
  mkInstance "prod" (Some (mkKeyholder (Ok ("ca", "ca key")) 1 None (fun _ => DiskTakes) (fun _ w => (None, w)))) [].
Definition exSite (meanwhile : option string) : site nat unit :=
  mkSite 65%nat tt ∅ None 0 (Some "doc"%string) meanwhile None [] [].
Definition exImages : gmap string string := {["web" := "eu.gcr.io/shop/web@sha256:" +:+ of_bytes (replicate 64 97)]}.
Definition exRun (meanwhile : option string) : result run_error deployed * site nat unit :=
  deploy exReader exInstance "" exManifest exImages (exSite meanwhile).

Lemma exRun_manifest : Manifest.Parse "web" = Ok exManifest.
Proof. vm_compute. reflexivity. Qed.

Definition exDeployed : deployed :=
  match (exRun None).1 with Ok d => d | Err _ => mkDeployed exBefore [] None (mkSummary 0 0 0) end.

Lemma exRun_ok : exRun None = (Ok exDeployed, (exRun None).2).
Proof. vm_compute. reflexivity. Qed.

Lemma a_deployment_is_consistent_witness : de_minted exDeployed = ["web"] /\
  (exists c, Identify (de_policy exDeployed) c = Some (mkApp "web" "shop" (HashCredential c) [])) /\
  Identify (de_policy exDeployed) "theirs" = Some (mkApp "api" "apps" (HashCredential "theirs") []) /\
  length (st_applied (exRun None).2) = 2%nat /\ st_keyring (exRun None).2 = Some "doc"%string.
Proof.
  destruct (a_deployment_is_consistent "web" exManifest exReader exInstance "" exImages (exSite None) (exRun None).2 exDeployed
    exRun_manifest exRun_ok) as (existing & cfg & pm & wl & [= <-] & _ & _ & Ha & _ & _ & _ & _ & Hid & Hst).
  assert (NoDup (map a_CredentialSHA256 (d_Apps (de_policy exDeployed)))) as Hnd
    by (apply (bool_decide_unpack _); vm_compute; exact I).
  destruct (Hid Hnd) as (_ & Hown & _ & Hothers).
  assert (de_minted exDeployed = ["web"]) as Hm by (vm_compute; reflexivity).
  split; [exact Hm|]. split; [|split; [|split]].
  - destruct (Hown (Manifest.mkApp "web" "web/Containerfile" "" []) ltac:(left)) as (c & _ & Hc). exists c. exact Hc.
  - apply Hothers; [discriminate|]. vm_compute. reflexivity.
  - rewrite Ha. reflexivity.
  - cbn [in_Keyholder exInstance] in Hst. destruct Hst as (raw & old & new & ca & key & _ & _ & Hv & _ & Hf & _).
    rewrite Hm in Hf. destruct Hf as (text & Ht & Hk). unfold MarshalKeyring in Ht. rewrite Hv in Ht. injection Ht as <-. exact Hk.
Defined.

(** Another command writes the keyring while scopes are minted: the deployment stops, as it should, and says that nothing
    was deployed. The policy was already replaced, though, and what runs from before is no longer identified by it. *)
Lemma a_failed_deployment_cuts_off_what_runs : exists doc credentials rand pm,
  Identify exBefore "before" = Some (mkApp "web" "shop" (HashCredential "before") []) /\
  egressPolicy exReader "shop" exManifest 65%nat = (Ok (doc, credentials), rand) /\
  RenderPolicyConfigMap DefaultNamespace doc = Ok pm /\
  (exRun (Some "theirs"%string)).1 = Err (ScopesNotRecorded KeyringChanged) /\
  st_applied (exRun (Some "theirs"%string)).2 = [pm] /\ st_keyring (exRun (Some "theirs"%string)).2 = Some "theirs"%string /\
  Identify doc "before" = None.
Proof. do 4 eexists. split_and!; vm_compute; reflexivity. Qed.

(** The scope of application [c] in namespace [a-b] is given to application [b-c] in namespace [a]: nothing is minted,
    and the secrets prefix its workload is told of is not in the scope it may reach. *)
Lemma a_deployment_may_get_anothers_scope k s (w : nat) containerfile context external :
  ScopeNamed k "app-a-b-c" = Some s -> sc_Prefix s = AppScopePrefix "a-b" "c" ->
  ensureScope "a" (k, ∅, []) (Manifest.mkApp "b-c" containerfile context external) w = (Ok (k, {["b-c" := s]}, []), w) /\
  Owns s (AppSecretsPrefix "a" "b-c" +:+ "token") = false.
Proof.
  intros Hs Hp. split; [|unfold Owns; by rewrite Hp].
  unfold ensureScope. rewrite bind_lift. cbn [ap_Name]. change (AppScopeName "a" "b-c") with (@Ok keyring_error string "app-a-b-c").
  cbn [wrapErr]. by rewrite Hs, insert_empty.
Qed.
