(* ===== verification/Rekey.v ===== *)
(** * Moving objects to the newest keys ([cli/storagekey.go]'s rekey, [cli/storage.go]'s key spaces, and the verdicts of
      [cli/storagekeyholder.go])

    Rekeying wraps every object's key again under the active key of the key space
    that named it.  It goes ahead only when this machine's active keys are the
    newest, and every keyholder replica holds them and writes under them. *)

From S2P Require Import Prelude Effect GoTime GoStrings Encoding LogicalKey Keyring KeyringFacts Slices Cipher Names Blob Stream Provider Store Replica Keeper HandOver.

(** ** How a replica differs from this machine *)

Inductive diff := diffBehind | diffNoScope | diffNoCurrent | diffNoOther | diffOlderActive | diffForeignCopy.

#[export] Instance diff_eq_dec : EqDecision diff.
Proof. solve_decision. Defined.

(** The note of a verdict. *)
Inductive verdict_note :=
| HoldsScopeWeLack
| SeparateCopy
| LacksScope
| HoldsKeyWeLack
| WritesNewer
| LacksCurrent
| LacksOther
| WritesOlder.

Record scopeVerdict := mkVerdict { sv_Scope : string; sv_Kind : diff; sv_Note : verdict_note }.

(** Whether a key the scope holds was minted after the one it makes active. *)
Definition newerThanActive (s : Scope) (id : string) : bool :=
  match find (fun e => bool_decide (hexID e = id)) (kr_keys (sc_keys s)), kr_keys (sc_keys s) with
  | Some e, active :: _ => After (ke_Created e) (ke_Created active)
  | _, _ => false
  end.

Definition scopeAgainst (name : string) (held : Keys) (keys : Keyring) : option scopeVerdict :=
  let got := default [] (held !! name) in
  let theirs := bool_decide (is_Some (held !! name)) in
  let contains ids id := bool_decide (id ∈ ids) in
  let v k n := Some (mkVerdict name k n) in
  match ScopeNamed keys name with
  | None => v diffBehind HoldsScopeWeLack
  | Some scope =>
      let mine := default [] (heldKeys (kr_scopes keys) !! name) in
      if theirs && negb (bool_decide (got = [])) && negb (existsb (contains mine) got) then v diffForeignCopy SeparateCopy
      else if negb theirs then v diffNoScope LacksScope
      else if existsb (fun id => negb (contains mine id)) got then v diffBehind HoldsKeyWeLack
      else if match head got with
              | Some first => negb (bool_decide (head mine = Some first)) && newerThanActive scope first
              | None => false
              end then v diffBehind WritesNewer
      else if match head mine with Some current => negb (contains got current) | None => false end
           then v diffNoCurrent LacksCurrent
      else if negb (bool_decide (length got = length mine)) then v diffNoOther LacksOther
      else if negb (bool_decide (head got = head mine)) then v diffOlderActive WritesOlder
      else None
  end.

Section ranged.
Context `{GoRange}.

(** Every scope of this keyring in the order of names, then the replica's others. *)
Definition keysAgainst (st : State) (keys : Keyring) : list scopeVerdict :=
  let want := heldKeys (kr_scopes keys) in
  let names := sortedNames want ++ filter (fun name => want !! name = None) (map fst (go_range (keysOf st))) in
  omap (fun name => scopeAgainst name (keysOf st) keys) names.

End ranged.

(** What an unseal from this machine refuses rather than fixes. *)
Definition behind (v : list scopeVerdict) : bool :=
  existsb (fun d => bool_decide (sv_Kind d = diffBehind \/ sv_Kind d = diffForeignCopy)) v.

(** ** The gate *)

(** A key held that was minted after the one in use. *)
Definition unfinishedRotation (s : Scope) : bool :=
  match kr_keys (sc_keys s) with
  | active :: rest => existsb (fun e => After (ke_Created e) (ke_Created active)) rest
  | [] => false
  end.

Inductive trouble :=
| RotationUnfinished (scope : string)
| SilentReplica (i : Z) (e : call_error)
| SealedReplica (i : Z) (phase : string)
| OldImage (i : Z)
| Differs (i : Z) (v : scopeVerdict).

Inductive remedy := RotateAgain | SeeState | Unseal | Redeploy | ElsewhereOnly (scope : string) | UnsealSays.

#[export] Instance remedy_eq_dec : EqDecision remedy.
Proof. solve_decision. Defined.

Definition addRemedy (l : list remedy) (r : remedy) : list remedy := if decide (r ∈ l) then l else l ++ [r].

Inductive gate_error :=
| MetadataUnread (e : string)
| Unconfirmed (e : string)
| MovesNothing (problems : list trouble) (remedies : list remedy).

Definition gateReport : Type := list trouble * list remedy.

Definition ownTrouble (keys : Keyring) (acc : gateReport) (name : string) : gateReport :=
  match ScopeNamed keys name with
  | Some scope =>
      if unfinishedRotation scope then (acc.1 ++ [RotationUnfinished name], addRemedy acc.2 RotateAgain) else acc
  | None => acc
  end.

Definition verdictTrouble (keys : Keyring) (i : Z) (st : State) (acc : gateReport) (name : string) : gateReport :=
  match scopeAgainst name (keysOf st) keys with
  | None => acc
  | Some d =>
      (acc.1 ++ [Differs i d],
       addRemedy acc.2 match sv_Kind d with diffForeignCopy => ElsewhereOnly name | diffBehind => UnsealSays | _ => Unseal end)
  end.

(** The rotation comes last. *)
Definition rotateLast (l : list remedy) : list remedy :=
  if decide (RotateAgain ∈ l) then filter (fun r => r <> RotateAgain) l ++ [RotateAgain] else l.

Section gate.
Context {F : Type} `{SealStateClient F}.

Definition askReplica (keys : Keyring) (names : list string) (acc : gateReport * F) (i : Z) : gateReport * F :=
  let '(acc, f) := acc in
  let '((st, e), f) := sk_State i f in
  (match e with
   | Some e => (acc.1 ++ [SilentReplica i e], addRemedy acc.2 SeeState)
   | None =>
       if Sealed st then (acc.1 ++ [SealedReplica i (rp_Phase st)], addRemedy acc.2 Unseal)
       else if outdatedImage st then (acc.1 ++ [OldImage i], addRemedy (addRemedy acc.2 Redeploy) Unseal)
       else foldl (verdictTrouble keys i st) acc names
   end, f).

(** [deployed] is the number of replicas of the keyholder, if one is deployed, once the metadata is read; [open] what
    keeps its client from opening. *)
Definition gate (deployed : result string (option nat)) (open : option string) (keys : Keyring) (touched : gset string)
    : eff F gate_error unit := fun f =>
  if decide (touched = ∅) then (Ok tt, f)
  else
    let names := merge_sort string_le (elements touched) in
    let acc := foldl (ownTrouble keys) ([], []) names in
    match deployed with
    | Err e => (Err (MetadataUnread e), f)
    | Ok deployed =>
        let finish (acc : gateReport) f :=
          if decide (acc.1 = []) then (Ok tt, f) else (Err (MovesNothing acc.1 (rotateLast acc.2)), f) in
        match deployed, open with
        | None, _ => finish acc f
        | Some _, Some e => (Err (Unconfirmed e), f)
        | Some n, None => let '(acc, f) := foldl (askReplica keys names) (acc, f) (seqZ 0 (Z.of_nat n)) in finish acc f
        end
    end.

End gate.

(** ** Key spaces ([storage.Session]) *)

Record Session := mkSession { se_Bucket : string; se_Store : Store; se_Keyring : Keyring }.

Record KeySpace := mkSpace { sp_Prefix : string; sp_Scope : string; sp_Store : Store }.

Inductive list_failure :=
| ScopeNotOpened (scope : string) (e : store_error)
| Listing (e : store_error).

Definition scopePrefixes (se : Session) : list string := map sc_Prefix (kr_scopes (se_Keyring se)).

Definition spaceCanHold (spacePrefix requested : string) (scopes : list string) : bool :=
  if decide (spacePrefix <> "") then HasPrefix spacePrefix requested || HasPrefix requested spacePrefix
  else negb (existsb (fun scope => HasPrefix requested scope) scopes).

(** A failure that another key space went on to resolve is dropped. *)
Definition unnamedOnly (errs : list list_failure) (named : gset string) : list list_failure :=
  filter (fun e => match e with Listing (NameError stored _) => bool_decide (stored ∉ named) | _ => true end = true) errs.

Record rekeyEntry := mkRekeyEntry { re_Entry : Entry; re_Store : Store; re_Scope : string }.

Section session.
Context `{Cipher}.

(** Stores that were opened are kept; opening one has no other effect. *)
Definition StoreFor (se : Session) (key : string) : result list_failure Store :=
  match ScopeOwning (se_Keyring se) key with
  | None => Ok (se_Store se)
  | Some scope => wrapErr (ScopeNotOpened (sc_Name scope)) (NewStore (se_Bucket se) (sc_keys scope))
  end.

Definition KeySpaces (se : Session) : result list_failure (list KeySpace) :=
  foldM (fun spaces scope =>
    store ← StoreFor se (sc_Prefix scope);
    Ok (spaces ++ [mkSpace (sc_Prefix scope) (sc_Name scope) store])) [mkSpace "" "" (se_Store se)] (kr_scopes (se_Keyring se)).

Context {W P : Type} `{Entropy W, Provider P}.

(** One key space, whose own is asked whatever the prefix. *)
Definition listSpace (prefix : string) (scoped : list string) (acc : gset string * list rekeyEntry * list list_failure) (space : KeySpace)
    : eff (W * P) Empty_set (gset string * list rekeyEntry * list list_failure) :=
  let '(named, out, errs) := acc in
  if negb (bool_decide (sp_Prefix space = "")) && negb (spaceCanHold (sp_Prefix space) prefix scoped) then mret acc
  else
    r ← try (ListEntries (sp_Store space) prefix);
    let '(found, failures) := match r with Ok (found, failures) => (found, failures) | Err e => ([], [e]) end in
    mret (list_to_set (map e_Stored found) ∪ named,
          out ++ map (fun e => mkRekeyEntry e (sp_Store space) (sp_Scope space)) found,
          errs ++ map Listing failures).

(** The entries in the order of their keys, and the failures. *)
Definition listForRekey (se : Session) (prefix : string) : eff (W * P) Empty_set (list rekeyEntry * list list_failure) :=
  match KeySpaces se with
  | Err e => mret ([], [e])
  | Ok spaces =>
      acc ← foldE (listSpace prefix (scopePrefixes se)) (∅, [], []) spaces;
      let '(named, out, errs) := acc in
      mret (sort_slice (fun a b => string_ltb (e_Key (re_Entry a)) (e_Key (re_Entry b))) out, unnamedOnly errs named)
  end.

(** ** The run *)

Inductive rekey_error :=
| Blocked (e : gate_error)
| NotConfirmed (candidates : nat)
| StoppedAt (key : string) (rewritten : Z) (e : store_error).

Inductive rekey_end :=
| WouldRekey (candidates scopes : nat) (bytes : Z) (blocked : option gate_error)
| Aborted
| Rekeyed (candidates scopes : nat) (bytes rewritten skipped : Z).

Definition touchedBy (entries : list rekeyEntry) : gset string :=
  list_to_set (filter (fun name => name <> "") (map re_Scope entries)).

Definition moveOne (acc : Z * Z) (e : rekeyEntry) : eff (W * P) rekey_error (Z * Z) :=
  moved ← withErr (StoppedAt (e_Key (re_Entry e)) acc.1) (Store.Rekey (re_Store e) (e_Key (re_Entry e)));
  mret (if (moved : bool) then (acc.1 + 1, acc.2) else (acc.1, acc.2 + 1)).

(** What was asked for: a dry run, and the operator's word -- none when there is nobody to ask. *)
Record rekeyCommand := mkRekey { rk_dryRun : bool; rk_confirmed : option bool }.

Context {F : Type} `{SealStateClient F}.

Definition rekeyRun (c : rekeyCommand) (deployed : result string (option nat)) (open : option string) (se : Session) (prefix : string)
    : eff ((W * P) * F) rekey_error rekey_end := fun '(s, f) =>
  match listForRekey se prefix s with
  | (Err e, _) => match e with end
  | (Ok (entries, _), s) =>
      let bytes := foldl (fun n e => i64 (n + e_Size (re_Entry e))) 0 entries in
      let touched := touchedBy entries in
      let '(gated, f) := gate deployed open (se_Keyring se) touched f in
      if rk_dryRun c
      then (Ok (WouldRekey (length entries) (size touched) bytes (match gated with Err e => Some e | Ok _ => None end)), (s, f))
      else match gated with
           | Err e => (Err (Blocked e), (s, f))
           | Ok _ =>
               match rk_confirmed c with
               | None => (Err (NotConfirmed (length entries)), (s, f))
               | Some false => (Ok Aborted, (s, f))
               | Some true =>
                   match foldE moveOne (0, 0) entries s with
                   | (Err e, s) => (Err e, (s, f))
                   | (Ok (rewritten, skipped), s) => (Ok (Rekeyed (length entries) (size touched) bytes rewritten skipped), (s, f))
                   end
               end
           end
  end.

End session.
