(* ===== verification/RekeyFacts.v ===== *)
(** * What a verdict promises and what rekeying needs (facts on [Rekey])

    A verdict is behind exactly when an unseal refuses it; a gate that opens has
    seen every replica use this machine's newest keys; and moving objects loses
    none of them. *)

From Stdlib Require Import Ascii.
From S2P Require Import Prelude Effect GoTime GoStrings Encoding LogicalKey Keyring KeyringFacts KeyringFile Slices Cipher Names Blob Stream Provider Store StoreFacts Material Bundle Replica Keeper HandOver Fleet HandOverFacts Rekey.

(** ** Verdicts *)

Lemma sameKeys_spec got want : sameKeys got want = true <-> dom got = dom want /\
  forall name ids, got !! name = Some ids -> exists ids', want !! name = Some ids' /\ scopeKeysMatch ids ids' = true.
Proof.
  unfold sameKeys. rewrite andb_true_iff, bool_decide_eq_true, forallb_forall.
  assert ((forall x, In x (map_to_list got) -> (let '(name, ids) := x in
      match want !! name with Some ids' => scopeKeysMatch ids ids' | None => false end) = true) <->
    forall name ids, got !! name = Some ids -> exists ids', want !! name = Some ids' /\ scopeKeysMatch ids ids' = true) as ->.
  { split.
    - intros Hall name ids Hl. specialize (Hall (name, ids) (proj1 (list_elem_of_In _ _) (proj2 (elem_of_map_to_list _ _ _) Hl))). cbn in Hall.
      destruct (want !! name) as [ids'|]; [by exists ids'|done].
    - intros Hall [name ids] Hin. apply list_elem_of_In, elem_of_map_to_list in Hin. by destruct (Hall _ _ Hin) as (ids' & -> & ?). }
  split; intros [H1 H2]; split; try done.
  - apply set_subseteq_size_eq; [|rewrite !size_dom; lia]. intros n [x Hx]%elem_of_dom. destruct (H2 _ _ Hx) as (y & Hy & _). apply elem_of_dom. by eexists.
  - by rewrite <- !size_dom, H1.
Qed.

(** As many, all among those wanted, and the same first. *)
Lemma match_intro g got want : NoDup (g :: got) -> head want = Some g -> length (g :: got) = length want ->
  (forall id, id ∈ g :: got -> id ∈ want) -> scopeKeysMatch (g :: got) want = true.
Proof.
  intros Hn Hh Hl Hsub. unfold scopeKeysMatch. destruct want as [|w want]; [done|]. injection Hh as ->.
  assert (g :: got ≡ₚ g :: want) as Hp by (apply submseteq_length_Permutation; [by apply NoDup_submseteq|lia]).
  rewrite (bool_decide_true (length _ = length _)), (bool_decide_true (g = g)) by done. cbn [andb].
  apply andb_true_iff. split; [|apply bool_decide_eq_true; by rewrite size_list_to_set].
  apply forallb_forall. intros id Hin%list_elem_of_In. apply bool_decide_eq_true. by rewrite Hp.
Qed.

Section verdicts.
Context (keys : Keyring) (Hok : scopes_ok (kr_scopes keys)).

Lemma ScopeNamed_elem name s : ScopeNamed keys name = Some s <-> s ∈ kr_scopes keys /\ sc_Name s = name.
Proof using Hok.
  destruct Hok as [_ Hn _]. unfold ScopeNamed. split.
  - destruct (list_find _ _) as [[i x]|] eqn:E; [|done]. intros [= <-]. apply list_find_Some in E as (Hi & Hx & _).
    split; [by eapply list_elem_of_lookup_2|done].
  - intros [Hin Hname]. destruct (list_find_elem_of (fun s => sc_Name s = name) (kr_scopes keys) s Hin Hname) as [[i x] E].
    rewrite E. cbn. f_equal. apply list_find_Some in E as (Hi & Hx & _).
    apply (NoDup_map_inj sc_Name (kr_scopes keys)); [done|by eapply list_elem_of_lookup_2|done|congruence].
Qed.

Lemma held_named name s : ScopeNamed keys name = Some s ->
  heldByScope (kr_scopes keys) !! name = Some (keysByID s) /\ heldKeys (kr_scopes keys) !! name = Some (scopeKeys s) /\
  exists e rest, kr_keys (sc_keys s) = e :: rest /\ NoDup (scopeKeys s).
Proof using Hok.
  intros [Hin Hname]%ScopeNamed_elem. destruct Hok as [Hv Hn _]. split_and!.
  - apply (foldl_insert_elem sc_Name keysByID _ _ _ Hn). by exists s.
  - apply heldKeys_elem; [done|]. by exists s.
  - rewrite Forall_forall in Hv. destruct (scope_keys s (Hv s Hin)) as (e & rest & E & Hd). exists e, rest. unfold scopeKeys. by rewrite E.
Qed.

Lemma not_held_named name : ScopeNamed keys name = None -> heldByScope (kr_scopes keys) !! name = None /\ heldKeys (kr_scopes keys) !! name = None.
Proof using Hok.
  intros E. pose proof Hok as [_ Hn _]. split.
  - destruct (heldByScope _ !! name) eqn:Eh; [|done]. apply (foldl_insert_elem sc_Name keysByID _ _ _ Hn) in Eh as (s & Hs & Hname & _).
    by rewrite (proj2 (ScopeNamed_elem name s) (conj Hs Hname)) in E.
  - destruct (heldKeys _ !! name) eqn:Eh; [|done]. apply heldKeys_elem in Eh as (s & Hs & Hname & _); [|done].
    by rewrite (proj2 (ScopeNamed_elem name s) (conj Hs Hname)) in E.
Qed.

Lemma keysByID_some s id : NoDup (scopeKeys s) -> is_Some (keysByID s !! id) <-> id ∈ scopeKeys s.
Proof using.
  intros Hd. unfold scopeKeys. rewrite list_elem_of_fmap. split.
  - intros [e [He <-]%keysByID_elem]; [by exists e|done].
  - intros (e & -> & He). exists e. by apply keysByID_elem.
Qed.

(** The newer key, looked for in either way. *)
Lemma newer_found s active rest first : kr_keys (sc_keys s) = active :: rest -> NoDup (scopeKeys s) ->
  negb (bool_decide (Some (hexID active) = Some first)) && newerThanActive s first =
  match keysByID s !! first with
  | Some used => bool_decide (ke_ID used <> ke_ID active) && After (ke_Created used) (ke_Created active)
  | None => false
  end.
Proof using.
  intros Ek Hd. unfold newerThanActive. destruct (keysByID s !! first) as [used|] eqn:Eu.
  - apply keysByID_elem in Eu as [Hin <-]; [|done].
    assert (find (fun e => bool_decide (hexID e = hexID used)) (kr_keys (sc_keys s)) = Some used) as ->.
    { destruct (find _ _) as [x|] eqn:Ef.
      - apply find_some in Ef as [Hx Hid%bool_decide_eq_true]. f_equal. apply list_elem_of_In in Hx.
        by apply (NoDup_map_inj hexID (kr_keys (sc_keys s))).
      - apply list_elem_of_In in Hin. pose proof (find_none _ _ Ef _ Hin) as Hf. cbn in Hf. by rewrite bool_decide_true in Hf. }
    rewrite Ek. f_equal. rewrite <- bool_decide_not. apply bool_decide_ext. split.
    + intros Hne E. apply Hne. unfold hexID. by rewrite E.
    + intros Hne [= E]. apply Hne. f_equal. symmetry. apply (NoDup_map_inj hexID (kr_keys (sc_keys s))); [done|rewrite Ek; by left|done|done].
  - destruct (find _ _) as [x|] eqn:Ef; [|by rewrite andb_false_r]. apply find_some in Ef as [Hx <-%bool_decide_eq_true].
    apply list_elem_of_In in Hx. by rewrite (proj2 (keysByID_elem s (hexID x) x Hd) (conj Hx eq_refl)) in Eu.
Qed.

Lemma lacking_spec mine theirs : (lacking mine theirs = None) <-> forall id, id ∈ theirs -> is_Some (mine !! id).
Proof using.
  split; [apply lacking_none|]. intros Hall. unfold lacking. destruct (list_find _ _) as [[i x]|] eqn:E; [|done].
  apply list_find_Some in E as (Hi & Hx & _). destruct (Hall x (list_elem_of_lookup_2 _ _ _ Hi)) as [e He]. congruence.
Qed.

Definition wouldRefuse (v : option scopeVerdict) : bool := match v with Some d => behind [d] | None => false end.

(** One scope: behind exactly when the plan refuses it. *)
Lemma verdict_refused i held name theirs : held !! name = Some theirs ->
  wouldRefuse (scopeAgainst name held keys) = negb (is_ok (checkServed keys i held name)).
Proof using Hok.
  intros Ht. unfold scopeAgainst, checkServed. cbv beta zeta. rewrite Ht. cbn [default].
  rewrite (bool_decide_true (is_Some (Some theirs))) by (by eexists).
  destruct (ScopeNamed keys name) as [s|] eqn:Es.
  2:{ destruct (not_held_named _ Es) as [-> _]. done. }
  destruct (held_named _ _ Es) as (-> & -> & e & rest & Ek & Hd). cbn [default negb andb]. unfold id.
  assert (existsb (fun id => bool_decide (id ∈ scopeKeys s)) theirs = existsb (fun id => bool_decide (is_Some (keysByID s !! id))) theirs) as ->.
  { clear Ht. induction theirs as [|x l IH]; [done|]. cbn. rewrite IH. f_equal. apply bool_decide_ext. symmetry. by apply keysByID_some. }
  destruct (negb _ && _); [done|].
  destruct (lacking (keysByID s) theirs) as [id|] eqn:El.
  { assert (existsb (fun id => negb (bool_decide (id ∈ scopeKeys s))) theirs = true) as ->; [|done].
    unfold lacking in El. destruct (list_find _ _) as [[j x]|] eqn:E; [|done]. apply list_find_Some in E as (Hj & Hx & _).
    apply existsb_exists. exists x. split; [apply list_elem_of_In; by eapply list_elem_of_lookup_2|].
    rewrite bool_decide_false; [done|]. rewrite <- keysByID_some by done. rewrite Hx. by intros []. }
  assert (existsb (fun id => negb (bool_decide (id ∈ scopeKeys s))) theirs = false) as ->.
  { apply not_true_iff_false. intros (x & Hx & Hn)%existsb_exists. apply list_elem_of_In in Hx.
    rewrite bool_decide_true in Hn; [done|]. apply keysByID_some; [done|]. by apply (proj1 (lacking_spec _ _) El). }
  assert (activeOf keys name = Some e) as -> by (unfold activeOf; by rewrite Es, Ek).
  assert (head (scopeKeys s) = Some (hexID e)) as -> by (unfold scopeKeys; by rewrite Ek).
  destruct theirs as [|first theirs]; cbn [head].
  - by repeat case_match.
  - rewrite (newer_found _ _ _ _ Ek Hd). destruct (keysByID s !! first) as [used|]; [|by repeat case_match].
    destruct (_ && _); [done|]. by repeat case_match.
Qed.

(** No verdict: the same active key, as many keys, and none this machine lacks. *)
Lemma no_verdict held name : scopeAgainst name held keys = None ->
  exists s active rest got, s ∈ kr_scopes keys /\ sc_Name s = name /\ kr_keys (sc_keys s) = active :: rest /\
    held !! name = Some (hexID active :: got) /\ length (hexID active :: got) = length (scopeKeys s) /\
    forall id, id ∈ hexID active :: got -> id ∈ scopeKeys s.
Proof using Hok.
  unfold scopeAgainst. cbv beta zeta. destruct (ScopeNamed keys name) as [s|] eqn:Es; [|done].
  destruct (held_named _ _ Es) as (_ & -> & e & rest & Ek & Hd). apply ScopeNamed_elem in Es as [Hin Hname]. cbn [default].
  destruct (held !! name) as [theirs|] eqn:Ht; [|rewrite (bool_decide_false (is_Some None)) by (by intros []); done].
  rewrite (bool_decide_true (is_Some (Some theirs))) by (by eexists). cbn [default negb andb]. unfold id.
  destruct (_ && _); [done|]. destruct (existsb _ theirs) eqn:Ex; [done|].
  assert (head (scopeKeys s) = Some (hexID e)) as -> by (unfold scopeKeys; by rewrite Ek).
  destruct (match head theirs with Some _ => _ | None => _ end); [done|].
  destruct (negb (bool_decide (hexID e ∈ theirs))); [done|].
  destruct (bool_decide_reflect (length theirs = length (scopeKeys s))) as [Hl|]; [|done].
  destruct (bool_decide_reflect (head theirs = Some (hexID e))) as [Hh|]; [|done]. intros _.
  destruct theirs as [|first got]; [done|]. injection Hh as ->.
  exists s, e, rest, got. split_and!; [done..|]. intros id Hid. destruct (bool_decide_reflect (id ∈ scopeKeys s)) as [|Hn]; [done|].
  rewrite <- not_true_iff_false in Ex. destruct Ex. apply existsb_exists. exists id. split; [by apply list_elem_of_In|].
  by rewrite bool_decide_false.
Qed.

Lemma verdict_none held s active rest got : s ∈ kr_scopes keys -> kr_keys (sc_keys s) = active :: rest ->
  held !! sc_Name s = Some (hexID active :: got) -> length (hexID active :: got) = length (scopeKeys s) ->
  (forall id, id ∈ hexID active :: got -> id ∈ scopeKeys s) -> scopeAgainst (sc_Name s) held keys = None.
Proof using Hok.
  intros Hin Ek Ht Hl Hsub. assert (ScopeNamed keys (sc_Name s) = Some s) as Es by (by apply ScopeNamed_elem).
  unfold scopeAgainst. cbv beta zeta. rewrite Es. destruct (held_named _ _ Es) as (_ & -> & _). rewrite Ht. cbn [default]. unfold id.
  rewrite (bool_decide_true (is_Some (Some _))) by (by eexists). cbn [negb andb].
  assert (existsb (fun x => bool_decide (x ∈ scopeKeys s)) (hexID active :: got) = true) as ->.
  { apply existsb_exists. exists (hexID active). split; [by left|]. apply bool_decide_eq_true, Hsub. by left. }
  assert (existsb (fun x => negb (bool_decide (x ∈ scopeKeys s))) (hexID active :: got) = false) as ->.
  { apply not_true_iff_false. intros (x & Hx%list_elem_of_In & Hn)%existsb_exists. rewrite bool_decide_true in Hn; [done|by apply Hsub]. }
  assert (head (scopeKeys s) = Some (hexID active)) as -> by (unfold scopeKeys; by rewrite Ek). cbn [head].
  rewrite (bool_decide_true (hexID active ∈ hexID active :: got)) by (by left).
  rewrite andb_false_r, (bool_decide_true (length _ = length _)) by done.
  rewrite !(bool_decide_true (Some (hexID active) = Some (hexID active))) by done. done.
Qed.

Lemma unheld_fixable held name : held !! name = None -> is_Some (ScopeNamed keys name) -> wouldRefuse (scopeAgainst name held keys) = false.
Proof using.
  intros Ht [s Es]. unfold scopeAgainst. cbv beta zeta. rewrite Es, Ht, (bool_decide_false (is_Some None)) by (by intros []). done.
Qed.

(** *** A replica *)

Context `{GoRange}.

Lemma against_names st name : name ∈ sortedNames (heldKeys (kr_scopes keys)) ++
    filter (fun name => heldKeys (kr_scopes keys) !! name = None) (map fst (go_range (keysOf st))) <->
  is_Some (ScopeNamed keys name) \/ is_Some (keysOf st !! name).
Proof using Hok.
  rewrite elem_of_app, sortedNames_elem, list_elem_of_filter, list_elem_of_fmap.
  assert (is_Some (heldKeys (kr_scopes keys) !! name) <-> is_Some (ScopeNamed keys name)) as Hs.
  { destruct (ScopeNamed keys name) as [s|] eqn:Es.
    - destruct (held_named _ _ Es) as (_ & -> & _). split; by eexists.
    - by destruct (not_held_named _ Es) as [_ ->]. }
  assert ((exists y, name = y.1 /\ y ∈ go_range (keysOf st)) <-> is_Some (keysOf st !! name)) as Hr.
  { split.
    - intros ([n ids] & -> & Hin%elem_of_go_range). by exists ids.
    - intros [ids Hl]. exists (name, ids). split; [done|]. by apply elem_of_go_range. }
  rewrite Hr. destruct (heldKeys (kr_scopes keys) !! name) as [x|] eqn:E.
  - split; [left; apply Hs; by eexists|]. intros _. left. by eexists.
  - rewrite <- Hs. split; [intros [[? [=]]|[_ ?]]; by right|]. intros [[? [=]]|?]. by right.
Qed.

Lemma behind_omap {A} (f : A -> option scopeVerdict) l : behind (omap f l) = true <-> exists x, x ∈ l /\ wouldRefuse (f x) = true.
Proof using.
  unfold behind. rewrite existsb_exists. split.
  - intros (d & (x & Hx & Hf)%list_elem_of_In%list_elem_of_omap & Hd). exists x. split; [done|]. rewrite Hf. cbn. by rewrite Hd.
  - intros (x & Hx & Hr). destruct (f x) as [d|] eqn:E; [|done]. exists d. cbn in Hr. rewrite orb_false_r in Hr. split; [|done].
    apply list_elem_of_In, list_elem_of_omap. by exists x.
Qed.

(** Behind exactly when a plan refuses the replica. *)
Lemma behind_refuses i st : Sealed st = false -> outdatedImage st = false ->
  behind (keysAgainst st keys) = true <-> checkReplica keys i (Some st) <> Ok tt.
Proof using Hok.
  intros Hs Ho. unfold keysAgainst. rewrite behind_omap. unfold checkReplica. rewrite Hs, Ho.
  rewrite (foldM_checks (checkServed keys i (keysOf st))), Forall_forall. split.
  - intros (name & Hin & Hr) Hall. apply against_names in Hin. destruct (keysOf st !! name) as [theirs|] eqn:Ht.
    + rewrite (verdict_refused i _ _ _ Ht), Hall in Hr; [done|]. apply sortedNames_elem. by eexists.
    + destruct Hin as [Hin|[]]; [|done]. by rewrite unheld_fixable in Hr.
  - intros Hn. destruct (decide (Exists (fun name => is_ok (checkServed keys i (keysOf st) name) = false) (sortedNames (keysOf st)))) as [(name & Hin & Hr)%Exists_exists|Hno].
    + exists name. apply sortedNames_elem in Hin as [theirs Ht]. split; [apply against_names; right; by eexists|].
      by rewrite (verdict_refused i _ _ _ Ht), Hr.
    + destruct Hn. intros name Hin. destruct (checkServed keys i (keysOf st) name) as [[]|e] eqn:E; [done|]. destruct Hno. apply Exists_exists. exists name.
      by rewrite E.
Qed.

Lemma no_verdicts (st : State) : keysAgainst st keys = [] <->
  forall name, is_Some (ScopeNamed keys name) \/ is_Some (keysOf st !! name) -> scopeAgainst name (keysOf st) keys = None.
Proof using Hok.
  unfold keysAgainst. assert (forall (f : string -> option scopeVerdict) l, omap f l = [] <-> forall x, x ∈ l -> f x = None) as Ho.
  { intros f l. split.
    - intros E x Hx. destruct (f x) as [d|] eqn:Ef; [|done]. assert (d ∈ omap f l) as Hd by (apply list_elem_of_omap; by exists x).
      rewrite E in Hd. by apply not_elem_of_nil in Hd.
    - intros Hall. destruct (omap f l) as [|d l'] eqn:E; [done|]. assert (d ∈ omap f l) as Hd by (rewrite E; by left).
      apply list_elem_of_omap in Hd as (x & Hx & Hf). by rewrite Hall in Hf. }
  rewrite Ho. by setoid_rewrite against_names.
Qed.

(** No verdict exactly when a push of this keyring would find its keys already there. *)
Lemma no_verdicts_same st : (forall name ids, keysOf st !! name = Some ids -> NoDup ids) ->
  keysAgainst st keys = [] <-> sameKeys (keysOf st) (heldKeys (kr_scopes keys)) = true.
Proof using Hok.
  intros Hnd. rewrite no_verdicts. pose proof Hok as [Hv Hn _]. rewrite sameKeys_spec. split.
  - intros Hall. assert (forall name ids, keysOf st !! name = Some ids -> exists want, heldKeys (kr_scopes keys) !! name = Some want /\ scopeKeysMatch ids want = true) as Hin.
    { intros name ids Hl. destruct (no_verdict _ _ (Hall name (or_intror (mk_is_Some _ _ Hl)))) as (s & a & rest & got & Hs & Hname & Ek & Hh & Hlen & Hsub).
      exists (scopeKeys s). split; [apply heldKeys_elem; [done|]; by exists s|]. rewrite Hh in Hl. injection Hl as <-.
      apply match_intro; [by eapply Hnd|unfold scopeKeys; by rewrite Ek|done|done]. }
    split; [|exact Hin]. apply set_eq. intros name. rewrite !elem_of_dom. split.
    + intros [ids Hl]. destruct (Hin _ _ Hl) as (w & -> & _). by eexists.
    + intros [w Hw]. apply heldKeys_elem in Hw as (s & Hs & Hname & _); [|done].
      destruct (no_verdict _ _ (Hall name (or_introl (mk_is_Some _ _ (proj2 (ScopeNamed_elem name s) (conj Hs Hname)))))) as (s' & a & rest & got & _ & _ & _ & Hh & _).
      by eexists.
  - intros [Hdom Hin] name Hor. assert (is_Some (keysOf st !! name)) as [ids Hl].
    { destruct Hor as [[s Es]|?]; [|done]. apply elem_of_dom. rewrite Hdom. apply elem_of_dom. destruct (held_named _ _ Es) as (_ & -> & _). by eexists. }
    destruct (Hin _ _ Hl) as (w & Hw & Hm). apply heldKeys_elem in Hw as (s & Hs & Hname & ->); [|done].
    rewrite Forall_forall in Hv. destruct (scope_keys s (Hv s Hs)) as (e & rest & Ek & Hd).
    assert (NoDup (scopeKeys s)) as Hd' by (unfold scopeKeys; by rewrite Ek).
    pose proof (scopeKeysMatch_sets ids (scopeKeys s) Hd' Hm) as Hset.
    unfold scopeKeysMatch in Hm. destruct ids as [|g got]; [done|]. unfold scopeKeys in Hm. rewrite Ek in Hm. cbn [map] in Hm.
    apply andb_true_iff in Hm as [[[Hlen%bool_decide_eq_true Hg%bool_decide_eq_true]%andb_true_iff _]%andb_true_iff _]. subst g name.
    eapply verdict_none; [done|done|exact Hl| |]; [unfold scopeKeys; by rewrite Ek|]. intros id. by apply Hset.
Qed.

End verdicts.

(** ** The gate *)

Section gates.
Context (keys : Keyring).

Lemma ownTrouble_none l : forall acc : gateReport, (foldl (ownTrouble keys) acc l).1 = [] -> acc.1 = [] /\
  forall name s, name ∈ l -> ScopeNamed keys name = Some s -> unfinishedRotation s = false.
Proof.
  induction l as [|x l IH]; intros acc; cbn [foldl]; [intros ->; split; [done|]; intros name s []%not_elem_of_nil|].
  intros [Ha Hl]%IH. unfold ownTrouble in Ha. destruct (ScopeNamed keys x) as [sx|] eqn:Ex.
  - destruct (unfinishedRotation sx) eqn:Eu; [by apply app_nil in Ha as [_ [=]]|]. split; [done|].
    intros name s [->|Hin]%elem_of_cons Hs; [congruence|by eapply Hl].
  - split; [done|]. intros name s [->|Hin]%elem_of_cons Hs; [congruence|by eapply Hl].
Qed.

Lemma verdictTrouble_none i st l : forall acc : gateReport, (foldl (verdictTrouble keys i st) acc l).1 = [] -> acc.1 = [] /\
  forall name, name ∈ l -> scopeAgainst name (keysOf st) keys = None.
Proof.
  induction l as [|x l IH]; intros acc; cbn [foldl]; [intros ->; split; [done|]; intros name []%not_elem_of_nil|].
  intros [Ha Hl]%IH. unfold verdictTrouble in Ha. destruct (scopeAgainst x _ _) eqn:Ex; [by apply app_nil in Ha as [_ [=]]|].
  split; [done|]. intros name [->|Hin]%elem_of_cons; [done|by apply Hl].
Qed.

Context {F : Type} `{Client : SealStateClient F} `{BundleYaml} `{!Fleet F}.

(** Whatever the answers, no replica gained keys; and without a trouble, what each serves is what this machine has. *)
Lemma askReplicas names l : forall acc f acc' f', foldl (askReplica keys names) (acc, f) l = (acc', f') ->
  (forall j, stays (serves f j) (serves f' j)) /\
  (acc'.1 = [] -> acc.1 = [] /\ forall i k name, i ∈ l -> serves f' i = Some k -> name ∈ names -> scopeAgainst name k keys = None).
Proof.
  induction l as [|i l IH]; intros acc f acc' f'; cbn [foldl].
  { intros [= <- <-]. split; [done|]. intros Ha. split; [done|]. intros i k name []%not_elem_of_nil. }
  unfold askReplica at 2. destruct (sk_State i f) as [[st e] f1] eqn:Es. apply fleet_State in Es as [Hst Hrep].
  intros E. destruct (IH _ _ _ _ E) as [Hst' Hnone]. split; [intros j; exact (stays_trans _ _ _ (Hst j) (Hst' j))|]. intros Ha. apply Hnone in Ha as [Ha Hall].
  destruct e as [e|]; [by apply app_nil in Ha as [_ [=]]|]. specialize (Hrep eq_refl).
  destruct (Replica.Sealed st) eqn:Hs; [by apply app_nil in Ha as [_ [=]]|].
  destruct (outdatedImage st); [by apply app_nil in Ha as [_ [=]]|]. apply verdictTrouble_none in Ha as [Ha Hv]. split; [done|].
  intros j k name [->|Hin]%elem_of_cons Hk Hname; [|by eapply Hall].
  unfold reported in Hrep. destruct (serves f1 i) as [k1|] eqn:E1; [|congruence]. destruct Hrep as [_ <-].
  destruct (Hst' i) as [E2|E2]; rewrite E2, ?E1 in Hk; [injection Hk as <-; by apply Hv|done].
Qed.

Lemma gate_opens deployed open touched f f' : gate deployed open keys touched f = (Ok tt, f') ->
  forall name, name ∈ touched ->
    (forall s, ScopeNamed keys name = Some s -> unfinishedRotation s = false) /\
    (forall n i k, deployed = Ok (Some n) -> 0 <= i < Z.of_nat n -> serves f' i = Some k -> scopeAgainst name k keys = None).
Proof.
  unfold gate. case_decide as Ht; [intros _ name Hin; subst touched; by apply not_elem_of_empty in Hin|].
  set (names := merge_sort string_le (elements touched)). intros E name Hin.
  assert (name ∈ names) as Hn by (unfold names; rewrite merge_sort_Permutation; by apply elem_of_elements).
  destruct deployed as [[n|]|]; [destruct open; [done|]| |done].
  - destruct (foldl (askReplica keys names) _ _) as [acc f1] eqn:Ea. destruct (decide (acc.1 = [])) as [Hnil|]; [|done]. injection E as <-.
    destruct (askReplicas _ _ _ _ _ _ Ea) as [_ Hall]. destruct (Hall Hnil) as [[_ Hown]%ownTrouble_none Hrep].
    split; [by intros s; apply Hown|]. intros n' i k [= <-] Hi Hk. apply (Hrep i k name); [apply elem_of_seqZ; lia|done|done].
  - case_decide as Hnil; [|done]. injection E as <-. apply ownTrouble_none in Hnil as [_ Hown].
    split; [by intros s; apply Hown|]. by intros n i k [=].
Qed.

End gates.

(** ** The run *)

Section run.
Context `{CipherLaws} {W P F : Type} `{Entropy W, ProviderLaws P} `{Client : SealStateClient F}.

(** The stores of a session: of its bucket, each over a keyring whose keys have identifiers of their length. *)
Record session_ok (se : Session) : Prop := {
  sn_store : store_ok (se_Store se) /\ s_bucket (se_Store se) = se_Bucket se;
  sn_ids : Forall (fun s => ids_ok (kr_keys (sc_keys s))) (kr_scopes (se_Keyring se))
}.

Lemma ScopeOwning_in k key s : ScopeOwning k key = Some s -> s ∈ kr_scopes k.
Proof.
  unfold ScopeOwning. destruct (list_find _ _) as [[i x]|] eqn:E; [|done]. intros [= <-]. apply list_find_Some in E as (Hi & _).
  by eapply list_elem_of_lookup_2.
Qed.

Lemma StoreFor_ok se key s : session_ok se -> StoreFor se key = Ok s -> store_ok s /\ s_bucket s = se_Bucket se.
Proof.
  intros [Hs Hi]. unfold StoreFor. destruct (ScopeOwning _ key) as [sc|] eqn:Eo; [|by intros [= <-]].
  destruct (NewStore _ _) as [x|] eqn:En; [|done]. intros [= <-]. apply ScopeOwning_in in Eo. rewrite Forall_forall in Hi.
  destruct (NewStore_ok _ _ _ En (Hi _ Eo)) as (? & ? & _). done.
Qed.

Lemma KeySpaces_ok se spaces : session_ok se -> KeySpaces se = Ok spaces ->
  Forall (fun sp => store_ok (sp_Store sp) /\ s_bucket (sp_Store sp) = se_Bucket se) spaces.
Proof.
  intros Hse. unfold KeySpaces. assert (Forall (fun sp => store_ok (sp_Store sp) /\ s_bucket (sp_Store sp) = se_Bucket se)
    [mkSpace "" "" (se_Store se)]) as Hf by (constructor; [apply Hse|constructor]).
  revert Hf. generalize [mkSpace "" "" (se_Store se)]. induction (kr_scopes (se_Keyring se)) as [|sc l IH]; intros acc Hf; cbn [foldM]; [by intros [= <-]|].
  intros E. apply bind_ok in E as (acc1 & E1 & E). apply bind_ok in E1 as (store & Es & [= <-]).
  eapply IH; [|exact E]. apply Forall_app. split; [done|]. constructor; [by eapply StoreFor_ok|constructor].
Qed.

Definition ofBucket (bucket : string) (e : rekeyEntry) : Prop := store_ok (re_Store e) /\ s_bucket (re_Store e) = bucket.

(** A listing reads only. *)
Lemma listSpace_keeps s prefix scoped acc space : s_bucket (sp_Store space) = s_bucket s -> keeps (W := W) s (listSpace prefix scoped acc space).
Proof.
  intros Hb. destruct acc as [[named out] errs]. unfold listSpace, keeps. destruct (_ && _); [apply leaves_ret|].
  apply leaves_bind; [apply leaves_try|intros [[? ?]|?]; apply leaves_ret].
  intros st r st' E. apply keeps_ListEntries in E. unfold objects in *. by rewrite <- Hb.
Qed.

Lemma listSpaces_ok bucket prefix scoped spaces : Forall (fun sp => store_ok (sp_Store sp) /\ s_bucket (sp_Store sp) = bucket) spaces ->
  forall acc st acc' st', Forall (ofBucket bucket) acc.1.2 ->
  foldE (listSpace (W := W) prefix scoped) acc spaces st = (Ok acc', st') ->
  Forall (ofBucket bucket) acc'.1.2 /\ holding st'.2 bucket = holding st.2 bucket.
Proof.
  induction 1 as [|sp l [Hs Hb] _ IH]; intros acc st acc' st' Hacc E; [by injection E as <- <-|].
  apply bind_inv in E as (acc1 & st1 & E1 & E). pose proof (listSpace_keeps (sp_Store sp) prefix scoped acc sp eq_refl _ _ _ E1) as Hk.
  unfold objects in Hk. cbv beta in Hk. rewrite Hb in Hk. destruct (IH acc1 st1 acc' st') as [? ->]; [|exact E|done].
  destruct acc as [[named out] errs]. unfold listSpace in E1. destruct (_ && _); [by injection E1 as <- _|].
  apply bind_inv in E1 as (r & st2 & _ & E1). destruct r as [[found fs]|e]; injection E1 as <- _; cbn in *; apply Forall_app; (split; [done|]).
  - apply Forall_forall. intros x (e & -> & _)%list_elem_of_fmap. by split.
  - constructor.
Qed.

Lemma listForRekey_ok se prefix st r st' : session_ok se -> listForRekey (W := W) se prefix st = (r, st') ->
  exists entries failures, r = Ok (entries, failures) /\ Forall (ofBucket (se_Bucket se)) entries /\
    holding st'.2 (se_Bucket se) = holding st.2 (se_Bucket se).
Proof.
  intros Hse. unfold listForRekey. destruct (KeySpaces se) as [spaces|e] eqn:Ek.
  - apply KeySpaces_ok in Ek; [|done]. intros E. apply bind_cases in E as [([] & _)|([[named out] errs] & st1 & Ef & E)].
    pose proof (listSpaces_ok _ _ _ _ Ek (∅, [], []) _ _ _ ltac:(constructor) Ef) as [Ho Hh]. injection E as <- <-.
    do 2 eexists. split; [done|]. split; [|done]. apply Forall_forall. intros x. rewrite sort_slice_perm. by apply Forall_forall.
  - intros [= <- <-]. do 2 eexists. split; [done|]. split; [constructor|done].
Qed.

(** No download of a key's object, whenever it is made, breaks off with [io.ErrUnexpectedEOF]. *)
Definition neverCut (s : Store) (key : string) : Prop := forall p : P, notCut s p key.

(** Moving keeps every value whose path is its own and whose download is not cut. *)
Lemma moves_keep bucket s key d entries : s_bucket s = bucket -> Forall (ofBucket bucket) entries ->
  (forall e, e ∈ entries -> (s = re_Store e /\ key = e_Key (re_Entry e) /\ neverCut s key) \/ pathOf s key <> pathOf (re_Store e) (e_Key (re_Entry e))) ->
  forall acc (st : W * P) r st', foldE moveOne acc entries st = (r, st') -> value s st.2 key = Some d -> value s st'.2 key = Some d.
Proof.
  intros Hb Hf. induction Hf as [|e l [Hok Hbe] _ IH]; intros Hsep acc st r st' E; [by injection E as _ <-|].
  assert (forall (b : result store_error bool) st1, Store.Rekey (re_Store e) (e_Key (re_Entry e)) st = (b, st1) ->
    value s st.2 key = Some d -> value s st1.2 key = Some d) as Hone.
  { intros b st1 E1. destruct st as [w p], st1 as [w1 p1]. apply (rekey_kept _ _ _ _ _ _ _ _ _ _ Hok E1); [congruence|].
    destruct (Hsep e) as [(-> & -> & Hn)|?]; [by left| |by right]. left. by split_and!. }
  apply bind_cases in E as [(x & E & ->)|(acc1 & st1 & E1 & E)].
  - unfold moveOne in E. apply bind_cases in E as [(y & E & _)|(b & st2 & _ & [=])].
    unfold withErr in E. destruct (Store.Rekey _ _ st) as [b st2] eqn:Er. injection E as _ <-. by eapply Hone.
  - intros Hd. apply (IH (fun x Hx => Hsep x (list_elem_of_further x e l Hx)) acc1 st1 r st' E).
    apply bind_inv in E1 as (b & st2 & Er%withErr_inv & E1). injection E1 as _ <-. by eapply Hone.
Qed.

Lemma moves_count entries : forall acc (st : W * P) rw sk st', foldE moveOne acc entries st = (Ok (rw, sk), st') ->
  rw + sk = acc.1 + acc.2 + Z.of_nat (length entries).
Proof.
  induction entries as [|e l IH]; intros acc st rw sk st' E; [injection E as -> _; cbn; lia|].
  apply bind_inv in E as (acc1 & st1 & E1 & E). apply bind_inv in E1 as (b & st2 & _ & E1). injection E1 as <- _.
  rewrite (IH _ _ _ _ _ E). destruct b; cbn; lia.
Qed.

End run.

(** ** Plans *)

(** Every replica is checked before anything is planned. *)
Lemma plan_checked `{GoRange} keys states rotated : is_ok (planHandOver keys states rotated) = true ->
  forall i st, states !! i = Some st -> checkReplica keys (Z.of_nat i) st = Ok tt.
Proof.
  unfold planHandOver. destruct (foldM _ tt (imap pair states)) as [[]|e] eqn:E; [|done]. intros _ i st Hi.
  apply (foldM_checks (fun '(i, st) => checkReplica keys (Z.of_nat i) st)) in E. rewrite Forall_forall in E.
  apply (E (i, st)), list_elem_of_lookup. exists i. by rewrite list_lookup_imap, Hi.
Qed.

(** ** Properties *)

(** C15: the state that is shown promises what an unseal does. Of a replica that serves and says which keys it holds: no
    verdict is given exactly when it holds the keys this machine would push, scope by scope, the active one first;
    a verdict that is behind is given exactly when the replica would be wouldRefuse by a plan, so no hand-over that meets
    such a replica is planned, whatever the others hold; and every other verdict leaves a replica a plan accepts. *)
Theorem the_state_promises_what_unseal_does `{GoRange} keys st :
  Valid keys = Ok tt -> Sealed st = false -> outdatedImage st = false ->
  (forall name ids, keysOf st !! name = Some ids -> NoDup ids) ->
  (keysAgainst st keys = [] <-> sameKeys (keysOf st) (heldKeys (kr_scopes keys)) = true) /\
  (behind (keysAgainst st keys) = true -> forall states rotated, Some st ∈ states -> is_ok (planHandOver keys states rotated) = false) /\
  (behind (keysAgainst st keys) = false <-> forall i, checkReplica keys i (Some st) = Ok tt).
Proof.
  intros [_ _ _ _ Hok]%Valid_spec Hs Ho Hnd. split; [by apply no_verdicts_same|]. split.
  - intros Hb states rotated [i Hi]%list_elem_of_lookup. destruct (is_ok _) eqn:E; [|done].
    by destruct (proj1 (behind_refuses keys Hok (Z.of_nat i) st Hs Ho) Hb (plan_checked _ _ _ E _ _ Hi)).
  - split.
    + intros Hb i. destruct (checkReplica keys i (Some st)) as [[]|e] eqn:E; [done|].
      rewrite (proj2 (behind_refuses keys Hok i st Hs Ho)) in Hb; [done|by rewrite E].
    + intros Hall. apply not_true_iff_false. intros Hb. by apply (proj1 (behind_refuses keys Hok 0 st Hs Ho) Hb).
Qed.


(** *** Witnesses

    A fleet that says which keys it serves and takes no others; an object written before a rotation. *)

#[local] Instance steadyFleet : SealStateClient (gmap string (list string)) := {|
  sk_State _ w := ((mkState "prod" "unsealed" 0 1 "" ["app-apps-web"] "boot" (Some w), None), w);
  sk_Unseal i _ _ w := ((zeroState, Some (Failed "wouldRefuse")), w);
  sk_now _ := 0
|}.
#[local] Instance noBundles : BundleYaml := {| unmarshalBundle _ := None; marshalBundle _ := Err "no bundle" |}.
#[local] Program Instance steadyFleet_serves : Fleet (gmap string (list string)) := {| serves w _ := Some w |}.
Next Obligation. cbn. intros i w st e w' [= <- <- <-]. split; [by left|]. by intros _. Qed.
Next Obligation. cbn. intros i payload intent w st e w' [= <- <- <-]. split_and!; [by left|left; by left|done|done]. Qed.

Definition exHeldKeys : gmap string (list string) := heldKeys (kr_scopes exTwoKeys).
Definition exState : State := (sk_State 0 exHeldKeys).1.1.

Lemma the_state_promises_what_unseal_does_witness : keysAgainst exState exTwoKeys = [] /\
  forall i, checkReplica exTwoKeys i (Some exState) = Ok tt.
Proof.
  assert (Valid exTwoKeys = Ok tt) as Hv by (vm_compute; reflexivity).
  assert (forall name ids, keysOf exState !! name = Some ids -> NoDup ids) as Hnd.
  { intros name ids Hl. apply (heldKeys_elem (kr_scopes exTwoKeys)) in Hl as (s & ->%list_elem_of_singleton & _ & ->);
      [|apply NoDup_singleton]. apply (bool_decide_unpack _). vm_compute. exact I. }
  destruct (the_state_promises_what_unseal_does exTwoKeys exState Hv eq_refl eq_refl Hnd) as (Hsame & _ & Hb).
  assert (keysAgainst exState exTwoKeys = []) as Hk by (apply Hsame; vm_compute; reflexivity).
  split; [exact Hk|]. apply Hb. rewrite Hk. reflexivity.
Defined.

Definition exStoreOf (keys : Keyring) : Store := match NewStore "bucket" keys with Ok s => s | Err _ => mkStore "bucket" keys "" "" end.
Definition exSession : Session := mkSession "bucket" (exStoreOf exTwoKeys) exTwoKeys.
Definition exScoped : Store := exStoreOf (mkKeyring [exEntry "c"%char] [exEntry "d"%char; exEntry "h"%char] []).
Definition exWrites : result store_error unit * (nat * cloud) :=
  Write (exStoreOf (mkKeyring [exEntry "c"%char] [exEntry "h"%char] [])) "app/apps/web/state" "hello" (65%nat, mkCloud ∅ 100).
Definition exMoves : result rekey_error rekey_end * (nat * cloud * gmap string (list string)) :=
  rekeyRun (mkRekey false (Some true)) (Ok (Some 1%nat)) None exSession "" (exWrites.2, exHeldKeys).

Lemma exMoves_ok : exMoves = (Ok (Rekeyed 1 1 168 1 0), (exMoves.2.1, exMoves.2.2)).
Proof.
  assert (bool_decide (match exMoves.1 with Ok (Rekeyed n s b rw sk) => (n, s, b, rw, sk) | _ => (0%nat, 0%nat, 0, 0, 0) end = (1%nat, 1%nat, 168, 1, 0)) = true) as Hok
    by (vm_compute; reflexivity).
  apply bool_decide_eq_true in Hok. destruct exMoves as [[[| |n s b rw sk]|e] [st f]]; try done. by injection Hok as -> -> -> -> ->.
Qed.

Definition exFound : list rekeyEntry :=
  match (listForRekey exSession "" exWrites.2).1 with Ok (entries, _) => entries | Err _ => [] end.

Lemma exFound_one : exists e, exFound = [mkRekeyEntry e exScoped "app-apps-web"] /\ e_Key e = "app/apps/web/state".
Proof. eexists. split; vm_compute; reflexivity. Qed.

Lemma exSession_ok : session_ok exSession.
Proof.
  assert (NewStore "bucket" exTwoKeys = Ok (exStoreOf exTwoKeys)) as E by (vm_compute; reflexivity).
  split; [|by repeat constructor]. destruct (NewStore_ok _ _ _ E) as (? & ? & _); [by repeat constructor|done].
Qed.

Lemma exMoves_changed : map (fun no => sd_Data no.2) (map_to_list (holding exMoves.2.1.2 (se_Bucket exSession))) <>
  map (fun no => sd_Data no.2) (map_to_list (holding exWrites.2.2 (se_Bucket exSession))).
Proof. apply (bool_decide_unpack _). vm_compute. exact I. Qed.

